(* ===== verification/_CoqProject ===== *)
-Q . S2P
Prelude.v
GoStrings.v
GoRuntime.v
Canonicalize.v
Compile.v
Match.v
Credential.v
LRU.v
TokenGuard.v
TokenCache.v
Decision.v
Stages.v
Runner.v
PolicyStore.v
Enforcement.v
Limits.v
RawHead.v
Validate.v
Handler.v
Wire.v
Relay.v
RequestWrite.v
EndToEnd.v
Forward.v
Response.v
ServerName.v
Metrics.v
Discriminator.v
Upstream.v
AuditRecord.v
Intake.v
AuditSink.v
StreamSink.v
Prom.v
Capture.v
Listener.v
Connection.v
Passthrough.v
LeafSource.v
Terminator.v
Injector.v
Webhook.v
PodLabels.v
Watcher.v
GoParse.v
Config.v
Entra.v
GoPath.v
InjectorMain.v
Trust.v
Pki.v
Cgroup.v
Preflight.v
PrivDrop.v
Loader.v
Orchestrator.v
ControlPlane.v
Assembly.v
Startup.v
ProxyMain.v
