(* ===== verification/Prelude.v ===== *)
(** * Aksh: a verification development

    Aksh is a sidecar proxy that enforces egress policy for an agent.  Connections of
    the agent are captured by the kernel and reach a loopback listener; TLS is
    terminated with a leaf certificate for the server name; each HTTP/1.1 request is
    checked on the wire, taken through a pipeline of stages that match it against a
    compiled policy and inject a brokered credential, recorded by the audit sink, and
    relayed to the original destination.  A second program, the injector, puts the sidecar
    into pods at admission.  This library models those parts of the Go sources under
    [src/] and proves what they promise to each other.  Paths below are relative to
    [src/internal/] unless they start with [cmd/].

    ** Files

    Foundations:
    - [Prelude]: results of fallible code, sorting with a [less] function, comparison
      of integer keys, counting, list lemmas.
    - [GoStrings], [GoRuntime], [GoParse], [GoPath]: the functions of [strings], [strconv],
      [net], [netip], [time], [errors], [path] and [http.Header] that the program uses, on
      byte strings.  The Unicode tables are a class ([Unicode]); ASCII input never reaches
      them.  Integers keep their width where it matters ([wrap64], [uint16]).

    Policy:
    - [Canonicalize] ([policy/canonicalize.go]): path canonicalisation.
    - [Compile] ([policy/compile.go], [compiled.go], [src/api/v1alpha1/types.go]):
      from policies to a sorted snapshot with a content version.
    - [Match] ([policy/match.go]): eligibility, rank and the winning rule.
    - [PolicyStore] ([policy/watch/store.go]): the published snapshot and its age.
    - [PodLabels], [Watcher] ([policy/watch]): which policies select this pod, and the
      watcher that publishes them.

    Credentials:
    - [Credential] ([token/resolve.go], [credential_*.go], [secret.go], [token.go],
      [entra/resolve.go]): selectors, resolution, identities, redaction.
    - [LRU], [TokenCache] ([token/cache.go]): the cache with single flight and
      background refresh.
    - [TokenGuard] ([token/breaker.go], [negative_cache.go],
      [runtime/token_acquirer.go]): the guarded acquirer.
    - [Entra] ([token/entra/acquirer.go], [selftest.go]): the token exchange.

    Pipeline:
    - [Decision] ([pipeline/decision.go], [deny_reason.go], [types.go]).
    - [Stages] ([pipeline/*_stage.go], [sanitise.go]): the five stages.
    - [Runner] ([pipeline/runner.go]): execution, panics, the audit boundary.
    - [Enforcement] ([runtime/assembly.go]): the production order of the stages,
      against the class [Services] (policy store, token getter, audit sink, clock).

    Request path ([dataplane/requestpath]):
    - [Limits] ([limiter.go], [headreader.go], [response_limit.go], [options.go]).
    - [RawHead] ([rawhead.go], [reject.go]), [Validate] ([validate.go]).
    - [Handler] ([handler.go], [handover.go], the decisions of [relay.go]): one client
      connection.
    - [Intake] ([handler.go]): the idle wait, the pushed-back byte, the head between the guard and the
      parser, the classes of errors, and the answers to a refused client.
    - [Wire]: a reference reader of HTTP/1.1 requests; [Relay] ([relay.go]): the bytes that
      are written after a 100-continue, and the progress watchdog; [RequestWrite]: [Request.Write] of net/http.
    - [EndToEnd]: the request path over the production pipeline; [Forward]: the message that an upstream
      reads of a request that went through it.
    - [Response] ([relay.go]): [http.ReadResponse], the strip, the limit and [Response.Write], and what a client reads.

    Connections:
    - [ServerName], [LeafSource], [Terminator] ([dataplane/tlsterm],
      [runtime/tls_conn_handler.go], [requestpath/adapter.go]): names, leaf certificates and
      downstream TLS.
    - [Discriminator] ([dataplane/listener/discriminator.go], part of [types.go]):
      the peek, against the class [NetConn] of connections.
    - [Upstream] ([dataplane/upstream], [listener/selfdial.go]): the dialer.
    - [Listener] ([dataplane/listener/listener.go], [options.go]): lifecycle, accept
      loop and connection goroutines; [Connection] ([types.go], [handover.go], the rest of [listener.go]):
      the decision latch, identifiers and [AcceptProbe]; [Passthrough] ([passthrough.go]): the byte relay.

    Audit:
    - [Metrics], [Prom] ([audit/labels*.go], [interfaces.go], [prom.go]): labels, recorder
      calls and the series they expose.
    - [AuditRecord] ([audit/encoder.go], [rejection.go], [emergency_channel.go]).
    - [AuditSink] ([audit/bufferedsink.go]): the durable buffered sink.
    - [StreamSink] ([audit/streamsink.go]): the stream of lines that production writes.

    Capture ([dataplane/capture]):
    - [Capture]: options, the kernel configuration image, the destination resolver.
    - [Cgroup]: resolution and discovery of the pod cgroup.
    - [Preflight], [PrivDrop]: the startup gates and the privilege drop.
    - [Loader]: load, attach, pin, release, and the attach-loss latch.

    Process:
    - [Config] ([config/config.go]): layers, validation and mapping to options.
    - [Trust] ([cmd/aksh-proxy/trust.go]), [Pki] ([pki/provider.go]): the upstream trust
      pool and the certificate authority of the pod.
    - [Assembly] ([runtime/assembly.go], [requestpath.NewHandler]): the data plane put together, and the
      process as the services of the pipeline.
    - [Orchestrator], [ControlPlane] ([runtime/orchestrator.go], [factory.go],
      [control_plane_server.go]): gates, drain, probes and metrics.
    - [Startup] ([cmd/aksh-proxy/policy_startup.go], [preflight.go]): the production gates; [ProxyMain]
      ([cmd/aksh-proxy/main.go], [seams.go]): the wiring of the daemon, from its configuration to its exit.

    Injector:
    - [Injector], [Webhook], [InjectorMain] ([injector], [cmd/aksh-injector]): the sidecar
      contract, the admission handlers and the serving process.

    ** How the code is modelled

    Pure functions are functions; a Go error result is [result] or [option]; a method
    that changes its receiver returns the new record.  Nil pointers and interfaces are
    [None].  Code outside [src/] is a parameter with its documented behaviour as class
    laws: SHA-256, [sort.Slice], [net/url], the Unicode tables, the clock, sockets, crypto,
    PEM and JSON, the file system, the kernel, the API server, the identity provider.  Each class has a
    concrete instance, used by the examples and by the lemmas named [_witness], which apply a theorem
    to a concrete input.  Goroutines are interleavings of atomic actions: step relations in
    [TokenCache], [LeafSource], [Upstream], [AuditSink], [Listener], [Connection], [Passthrough], [Watcher],
    [Loader] and [ControlPlane], where locked sections, channel operations and compare-and-swap are
    single steps, and invariants are proved by induction on the steps.  [Pki] runs over a disk in a small
    state and error monad in which any system call may fail, a write also after part of its bytes.

    Components meet at interfaces: [Enforcement.Services] (pipeline and its collaborators),
    [Terminator.tlsTerminator] with its laws, [Discriminator.NetConn].  [Assembly] discharges [Services]
    with the modelled store, cache, guard, exchange and stream, and keeps a journal of the exchanges; the other goroutines of the
    process are a function that keeps the invariant ([Assembly.Others]), which may run between any two critical
    sections of the token cache and its acquirer ([Assembly.process_get]), and [Enforcement.stable] is the
    notion of what holds along a run.

    ** What the theorems show

    - Enforcement: the pipeline fails closed, records once before anything behind the
      audit boundary, and allows only what a fresh snapshot allows ([Runner],
      [Enforcement]); a forwarded request is the one that was validated and matched,
      with the broker's credential only ([EndToEnd]); over the assembled process, the policy is the last one published and fresh, the
      token was issued by the provider for that identity and the record is in the audit stream ([Assembly]); upstream
      connections are never shared across credentials ([Handler]).
    - Wire safety: the head that is validated is the head that was parsed ([Intake]); accepted heads have one framing
      ([RawHead], [Validate]); a forwarded request is read by the upstream as exactly one message, with the matched method,
      host and credential, or as none ([Relay], [RequestWrite], [Forward]); so is the response by the client, unless a response
      that has no body by its status carries a transfer coding ([Response], [Response.coded_304_desynchronises]);
      names, identities and paths are canonical and agree ([Stages], [Canonicalize], [ServerName]), and [Forward.wire_path] says
      which canonical paths go out as they were matched; peeking does not change the stream ([Discriminator]).
    - Policy: compilation and matching are correct, order independent and deterministic
      ([Compile], [Match]); staleness is judged the same way everywhere ([PolicyStore]); the watcher
      publishes what selects the pod, in order ([Watcher]).
    - Credentials: identities are injective up to the hash, tokens are served only while
      usable, one acquisition per identity is in flight, failures are remembered
      ([Credential], [TokenCache], [TokenGuard]); the exchange asks for what was resolved, of the configured
      authority and of those it redirects to ([Entra]).
    - TLS: leaves are minted once per name and bounded, the handler reaches the request path only after a
      handshake for the name it recorded ([LeafSource], [Terminator]); the trust pool and the pod CA are exact and survive
      crashes ([Trust], [Pki]).
    - Resources: budgets, slots, registrations, decision samples and handlers are exact
      in every interleaving ([Limits], [Upstream], [Listener], [Passthrough]); label series are
      bounded ([Prom]).
    - Audit: acknowledged records are durable, records leak neither credentials nor
      unvalidated input ([AuditSink], [AuditRecord], [StreamSink]).
    - Startup: the process and the load of the kernel programs are fail closed, and leave behind only what the kernel refuses
      to give back ([ProxyMain], [Startup], [Orchestrator], [Loader], [Cgroup]); the privilege drop succeeds only if every step of
      it did ([PrivDrop]).
    - Injector: a patched pod passes the validator, the webhook admits only validated pods and serves only with
      material that chains to the bundle it has registered ([Injector], [Webhook], [InjectorMain]).
    - Divergences between the code and its comments are theorems too, such as
      [Compile.version_collision], [Credential.Resolve_resource_space],
      [AuditRecord.credential_block_never_omitted], [Listener.shutdown_bind_race],
      [LeafSource.expired_leaf_served], [Startup.zero_staleness_means_two_things],
      [StreamSink.torn_line_swallows_next], [Forward.encoded_slash_bypass],
      [Forward.undeclared_trailer_forwarded], [Response.close_delimited_kept_open],
      [Response.interim_answers_next_request], [Response.coded_304_desynchronises], [ProxyMain.trust_pool_precedes_ca],
      [Loader.failed_load_leaves_pins], [Listener.loop_guard_counted_twice], [Relay.trickling_upload_is_cut],
      [PrivDrop.other_threads_not_dropped], [Cgroup.qos_class_accepted], [InjectorMain.mounted_names_unchecked],
      [Entra.assertion_reposted].

    ** Fuel and bounds

    Recursion is structural wherever the code loops over data.  Loops that are not carry
    fuel that is shown to be enough: [Discriminator.discard] (the bound lowers
    with every read; [discard_enough]), [Discriminator.peek_loop] (each [fill] adds a
    byte or sets the error, so 25 rounds suffice for 24 bytes; [peek_loop_ends]), the removal of trailing
    slashes in [Credential] (one round per byte), the eviction loop of [LRU]
    (one round per entry), the cgroup walks of [Cgroup] (the code's own limits on depth and on visited directories;
    [walk_below_fuel], [walkForInode_terminates]), the durations of [GoParse] ([duration_fuel]), and the reader of
    [Wire] (one round per byte of the stream).  The loops of [Watcher] run until the context ends: they answer [None] when their
    fuel runs out, and [Watcher.run_ends] shows that fuel two above the number of waits and events left is enough.  Sorting is the merge sort of stdpp.

    ** Not modelled

    eBPF programs and their generated bindings (kernel code); cryptography; the parsers of net/http and net/textproto, of
    which the theorems ask what [Forward.http_parsed] and [Response.one_spelling] say; histogram buckets; logging; the flag
    package, signals and [os.Exit]; the Kubernetes client and the generated deep copies of the API types; the system calls, which are the class
    [PrivDrop.Kernel] below the [real*] functions of [privdrop_linux.go], and the probes of [preflight_seams_linux.go], which are
    the environment of [Preflight]; the stubs for other platforms; and the end-to-end test programs.  Trailers are
    written as net/http writes them, but the theorems about one message are about messages without them, since the
    reference reader refuses trailers. *)

From Stdlib Require Export ZArith Lia Ascii String.
From stdpp Require Export base decidable list gmap strings sorting pretty.
#[global] Set Default Goal Selector "!".

(** Fallible code: Go's [(value, error)] pair with a non-nil error on the left. *)
Inductive result (E A : Type) : Type :=
| Ok (a : A)
| Err (e : E).
Arguments Ok {E A} _.
Arguments Err {E A} _.

Declare Scope go_scope.
Delimit Scope go_scope with go.

(** Early return on error, as in [v, err := c; if err != nil { return err }]. *)
Definition rbind {E A B} (c : result E A) (k : A -> result E B) : result E B :=
  match c with Ok a => k a | Err e => Err e end.

Notation "'let?' x := c 'in' k" := (rbind c (fun x => k))
  (at level 10, x pattern, c at level 100, k at level 200) : go_scope.

(** ** Lexicographic comparison of integer keys

    The comparison functions of the program test one field after another; each
    is shown to agree with this comparison of a list of integers, which is a
    total order. *)

Fixpoint compareZ (l k : list Z) : comparison :=
  match l, k with
  | [], [] => Eq
  | [], _ :: _ => Lt
  | _ :: _, [] => Gt
  | a :: l', b :: k' =>
      match Z.compare a b with Eq => compareZ l' k' | c => c end
  end.

Lemma compareZ_eq l k : compareZ l k = Eq <-> l = k.
Proof.
  split.
  - revert k; induction l as [|a l IH]; intros [|b k]; simpl; try done.
    destruct (Z.compare_spec a b) as [->| |]; try done. intros H. by rewrite (IH k H).
  - intros ->. induction k as [|a k IH]; simpl; [done|]. by rewrite Z.compare_refl.
Qed.

Lemma compareZ_antisym l k : compareZ k l = CompOpp (compareZ l k).
Proof.
  revert k; induction l as [|a l IH]; intros [|b k]; simpl; try done.
  rewrite Z.compare_antisym. destruct (Z.compare a b); simpl; [apply IH|done|done].
Qed.

Lemma compareZ_lt_trans l k m :
  compareZ l k = Lt -> compareZ k m = Lt -> compareZ l m = Lt.
Proof.
  revert k m; induction l as [|a l IH]; intros [|b k] [|c m]; simpl; try done.
  destruct (Z.compare_spec a b), (Z.compare_spec b c), (Z.compare_spec a c); try lia; try done.
  apply IH.
Qed.

Lemma compareZ_app l k l' k' :
  length l = length k -> compareZ (l ++ l') (k ++ k') =
    match compareZ l k with Eq => compareZ l' k' | c => c end.
Proof.
  revert k; induction l as [|a l IH]; intros [|b k] H; simplify_eq/=; [done|].
  destruct (Z.compare a b); auto.
Qed.

(** The sign of an integer, as Go's comparison functions return it. *)
Definition sign (z : Z) : comparison := Z.compare z 0.

(** ** Sorting with a Go [less] function

    [sort.Slice] is only documented to return a sorted rearrangement: the order
    of equivalent elements is unspecified.  The class collects what callers may
    rely on; merge sort is one implementation. *)

Record StrictWeakOrder {A} (less : A -> A -> bool) : Prop := {
  swo_irrefl : forall x, less x x = false;
  swo_trans : forall x y z, less x y = true -> less y z = true -> less x z = true;
  swo_incomp : forall x y z, less x y = false -> less y z = false -> less x z = false
}.

Class SortSlice := {
  sort_slice : forall {A}, (A -> A -> bool) -> list A -> list A;
  sort_slice_perm : forall A (less : A -> A -> bool) l, sort_slice less l ≡ₚ l;
  sort_slice_sorted : forall A (less : A -> A -> bool) l,
    StrictWeakOrder less -> StronglySorted (fun x y => less y x = false) (sort_slice less l)
}.

Definition not_less {A} (less : A -> A -> bool) (x y : A) : Prop := less y x = false.
#[global] Instance not_less_dec {A} (less : A -> A -> bool) : RelDecision (not_less less).
Proof. intros x y. unfold not_less. destruct (less y x); [right|left]; congruence. Defined.

(** [sort.SliceStable]: the left operand of a merge wins ties. *)
Definition sort_stable {A} (less : A -> A -> bool) (l : list A) : list A :=
  merge_sort (not_less less) l.

Lemma sort_stable_perm {A} (less : A -> A -> bool) l : sort_stable less l ≡ₚ l.
Proof. apply merge_sort_Permutation. Qed.

Lemma sort_stable_sorted {A} (less : A -> A -> bool) l :
  StrictWeakOrder less -> StronglySorted (not_less less) (sort_stable less l).
Proof.
  intros [Hi Ht Hn]. apply StronglySorted_merge_sort.
  - intros x y z Hxy Hyz. unfold not_less in *. eauto.
  - intros x y. unfold not_less. destruct (less y x) eqn:E; [right|by left].
    destruct (less x y) eqn:E'; [|done]. by rewrite <- (Hi x), (Ht _ _ _ E' E).
Qed.

#[program] Definition merge_sort_slice : SortSlice := {| sort_slice := @sort_stable |}.
Next Obligation. intros. apply sort_stable_perm. Qed.
Next Obligation. intros. by apply sort_stable_sorted. Qed.

(** ** Counting the elements that satisfy a boolean predicate *)

Definition b2n (b : bool) : nat := if b then 1 else 0.
Definition countb {A} (f : A -> bool) (l : list A) : nat := length (filter (fun x => f x = true) l).

Lemma countb_insert {A} (f : A -> bool) l i x y : l !! i = Some x ->
  (countb f (<[i := y]> l) + b2n (f x) = countb f l + b2n (f y))%nat.
Proof.
  unfold countb. revert i. induction l as [|z l IH]; intros [|i] Hi; simplify_eq/=.
  - rewrite !filter_cons. destruct (f y), (f x); simpl; lia.
  - specialize (IH _ Hi). rewrite !filter_cons. destruct (f z); simpl; lia.
Qed.

Lemma countb_snoc {A} (f : A -> bool) l x : countb f (l ++ [x]) = (countb f l + b2n (f x))%nat.
Proof. unfold countb. rewrite filter_app, length_app, filter_cons. by destruct (f x). Qed.

Lemma countb_none {A} (f : A -> bool) l : Forall (fun x => f x = false) l -> countb f l = 0%nat.
Proof. unfold countb. induction 1 as [|x l Hx _ IH]; [done|]. rewrite filter_cons. by rewrite Hx. Qed.

Lemma countb_pos {A} (f : A -> bool) l i x : l !! i = Some x -> f x = true -> (0 < countb f l)%nat.
Proof.
  intros Hi Hx. unfold countb. apply list_elem_of_lookup_2 in Hi. induction l as [|z l IH]; [by apply not_elem_of_nil in Hi|].
  rewrite filter_cons. apply elem_of_cons in Hi as [<-|Hi]; [by case_decide; simpl; [lia|]|].
  specialize (IH Hi). case_decide; simpl; lia.
Qed.

Lemma lookup_snoc_inv {A} (l : list A) x j u : (l ++ [x]) !! j = Some u -> l !! j = Some u \/ (j = length l /\ u = x).
Proof.
  intros [|[Hj H]]%lookup_app_Some; [by left|]. apply list_lookup_singleton_Some in H as [H ->]. right. split; [lia|done].
Qed.

Lemma lookup_last {A} (l : list A) x : (l ++ [x]) !! length l = Some x.
Proof. by rewrite lookup_app_r, Nat.sub_diag by lia. Qed.

Lemma insert_last {A} (l : list A) x y : <[length l := y]> (l ++ [x]) = l ++ [y].
Proof. rewrite insert_app_r_alt, Nat.sub_diag by lia. done. Qed.

(** ** Threads as a list, updated at one index *)

Lemma list_insert_cases {A} (l : list A) i j x y :
  <[i := x]> l !! j = Some y -> (j = i /\ y = x) \/ (j <> i /\ l !! j = Some y).
Proof.
  intros H. destruct (decide (i = j)) as [<-|].
  - left. split; [done|]. pose proof (lookup_lt_Some _ _ _ H) as Hlt. rewrite length_insert in Hlt.
    rewrite list_lookup_insert_eq in H by done. congruence.
  - right. rewrite list_lookup_insert_ne in H by done. done.
Qed.

Lemma sum_list_with_insert {A} (f : A -> nat) l i x y : l !! i = Some x ->
  (sum_list_with f (<[i := y]> l) + f x = sum_list_with f l + f y)%nat.
Proof.
  revert i. induction l as [|z l IH]; intros [|i] H; simplify_eq/=; [lia|]. specialize (IH _ H). lia.
Qed.

(** A measure that every step decreases bounds the number of steps. *)
Lemma nsteps_measure {A} (R : relation A) (m : A -> nat) n x y :
  (forall a b, R a b -> (m b < m a)%nat) -> nsteps R n x y -> (n + m y <= m x)%nat.
Proof. intros Hm. induction 1 as [|n a b c Hab _ IH]; [lia|]. apply Hm in Hab. lia. Qed.

(** What every step preserves, a run preserves. *)
Lemma rtc_preserves {A} (R : relation A) (P : A -> Prop) x y : (forall a b, R a b -> P a -> P b) -> rtc R x y -> P x -> P y.
Proof. intros HP. induction 1 as [|a b c Hab _ IH]; [done|]. eauto. Qed.
