(* ===== verification/GoStrings.v ===== *)
(** * The part of Go's standard library the sources call

    Byte strings ([strings], [bytes]), ASCII classes and case mapping,
    lexicographic order and sorting of strings ([strings.Compare],
    [sort.Strings]), decimal integers ([strconv.Atoi], [strconv.Itoa]) and
    [net.SplitHostPort].  A Go string is a sequence of bytes, so it is a list of
    8-bit characters here.

    Functions of package [strings] that consult the Unicode tables take an ASCII
    fast path and fall back to the tables only when a byte at or above 0x80 is
    met; the fallback is a field of the class [Unicode], and the fast paths are
    written out. *)

From S2P Require Import Prelude.
#[local] Open Scope Z_scope.

Notation gostring := (list ascii).

(** String literals denote their bytes. *)
Definition bs (s : string) : gostring := list_ascii_of_string s.
#[warnings="-uniform-inheritance"]
Coercion bs : string >-> list.
#[global] Arguments bs : simpl never.

(** Byte values. *)
Definition code (c : ascii) : Z := Z.of_N (N_of_ascii c).
Definition byte_of (z : Z) : ascii := ascii_of_N (Z.to_N (z mod 256)).

Definition ascii_eqb (a b : ascii) : bool := Ascii.eqb a b.
Definition str_eqb (s t : gostring) : bool := bool_decide (s = t).

Definition between (lo c hi : ascii) : bool := (code lo <=? code c) && (code c <=? code hi).

Definition is_upper (c : ascii) : bool := between "A" c "Z".
Definition is_lower (c : ascii) : bool := between "a" c "z".
Definition is_digit (c : ascii) : bool := between "0" c "9".

Definition chr_tab : ascii := "009"%char.
Definition chr_lf : ascii := "010"%char.
Definition chr_cr : ascii := "013"%char.
Definition crlf : gostring := [chr_cr; chr_lf].

(** The bytes below [utf8.RuneSelf]. *)
Definition is_ascii (c : ascii) : bool := code c <? 128.
Definition all_ascii (s : gostring) : bool := forallb is_ascii s.

(** ['a' - 'A'] added to upper-case ASCII letters. *)
Definition lower_byte (c : ascii) : ascii :=
  if is_upper c then byte_of (code c + 32) else c.

(** ASCII white space, [asciiSpace] of package [strings]. *)
Definition is_space (c : ascii) : bool :=
  (between chr_tab c chr_cr) || ascii_eqb c " ".

(** The fallbacks of packages [strings] and [bytes] to the Unicode tables. *)
Class Unicode := {
  map_lower : gostring -> gostring;          (* strings.Map(unicode.ToLower, s) *)
  fold_runes : gostring -> gostring -> bool; (* the [hasUnicode] part of EqualFold *)
  trim_runes : gostring -> gostring;         (* strings.TrimFunc(s, unicode.IsSpace) *)
  is_control_rune : gostring -> bool;        (* some rune of s is unicode.IsControl *)
  fields_runes : gostring -> list gostring   (* strings.FieldsFunc(s, unicode.IsSpace) *)
}.

(** An instance that treats every non-ASCII byte as an uncased letter. *)
Definition ascii_only : Unicode := {|
  map_lower := map lower_byte;
  fold_runes s t := bool_decide (map lower_byte s = map lower_byte t);
  trim_runes s := s;
  is_control_rune _ := false;
  fields_runes s := [s]
|}.

Section Functions.
Context `{U : Unicode}.

Definition ToLower (s : gostring) : gostring :=
  if all_ascii s then map lower_byte s else map_lower s.

(** The ASCII loop of [strings.EqualFold]; it leaves for the rune loop at the
    first pair with a non-ASCII byte. *)
Fixpoint EqualFold (s t : gostring) : bool :=
  match s, t with
  | [], [] => true
  | a :: s', b :: t' =>
      if negb (is_ascii a && is_ascii b) then fold_runes s t
      else if ascii_eqb (lower_byte a) (lower_byte b) then EqualFold s' t'
      else false
  | _, _ => false
  end.

(** Leading half of [strings.TrimSpace]. *)
Fixpoint trim_left_space (s : gostring) : gostring * bool :=
  match s with
  | [] => ([], true)
  | c :: s' =>
      if negb (is_ascii c) then (s, false)
      else if is_space c then trim_left_space s' else (s, true)
  end.

Definition TrimSpace (s : gostring) : gostring :=
  let '(l, ok) := trim_left_space s in
  if negb ok then trim_runes l
  else
    let '(r, ok') := trim_left_space (rev l) in
    if negb ok' then trim_runes (rev r) else rev r.

(** Maximal runs of bytes that are not white space. *)
Fixpoint ascii_fields (s : gostring) : list gostring :=
  match s with
  | [] => []
  | c :: s' =>
      if is_space c then ascii_fields s'
      else
        match s' with
        | d :: _ =>
            if is_space d then [c] :: ascii_fields s'
            else match ascii_fields s' with w :: r => (c :: w) :: r | [] => [[c]] end
        | [] => [[c]]
        end
  end.
Definition Fields (s : gostring) : list gostring :=
  if all_ascii s then ascii_fields s else fields_runes s.
End Functions.

(** ** Searching and slicing *)

Fixpoint HasPrefix (s p : gostring) : bool :=
  match p, s with
  | [], _ => true
  | c :: p', d :: s' => ascii_eqb c d && HasPrefix s' p'
  | _ :: _, [] => false
  end.

(** [len(s) >= len(suffix) && s[len(s)-len(suffix):] == suffix]. *)
Definition HasSuffix (s p : gostring) : bool :=
  (length p <=? length s)%nat && str_eqb (drop (length s - length p) s) p.

Fixpoint IndexByte (s : gostring) (c : ascii) : option nat :=
  match s with
  | [] => None
  | d :: s' => if ascii_eqb d c then Some 0%nat else S <$> IndexByte s' c
  end.

Definition ContainsByte (s : gostring) (c : ascii) : bool := existsb (ascii_eqb c) s.

(** [strings.Index(s, sub)]. *)
Fixpoint Index (s sub : gostring) : option nat :=
  if HasPrefix s sub then Some 0%nat
  else match s with [] => None | _ :: s' => S <$> Index s' sub end.

Definition Contains (s sub : gostring) : bool := bool_decide (is_Some (Index s sub)).

(** [strings.Split(s, sep)] for a one-byte separator. *)
Fixpoint Split (s : gostring) (c : ascii) : list gostring :=
  match s with
  | [] => [[]]
  | d :: s' =>
      if ascii_eqb d c then [] :: Split s' c
      else match Split s' c with
           | x :: r => (d :: x) :: r
           | [] => [[d]]
           end
  end.

(** [strings.Split(s, "\r\n")]. *)
Fixpoint SplitCRLF (s : gostring) : list gostring :=
  match s with
  | [] => [[]]
  | d :: s' =>
      let rest := SplitCRLF s' in
      match s' with
      | e :: s'' =>
          if ascii_eqb d chr_cr && ascii_eqb e chr_lf then [] :: SplitCRLF s''
          else match rest with x :: r => (d :: x) :: r | [] => [[d]] end
      | [] => [[d]]
      end
  end.

(** [strings.Join(l, sep)] for a one-byte separator. *)
Fixpoint Join (l : list gostring) (c : ascii) : gostring :=
  match l with
  | [] => []
  | [x] => x
  | x :: r => x ++ c :: Join r c
  end.

(** Drop leading, respectively trailing, bytes that satisfy [p]
    ([strings.TrimLeft]/[TrimRight] for an ASCII cutset). *)
Fixpoint TrimLeft (p : ascii -> bool) (s : gostring) : gostring :=
  match s with [] => [] | c :: s' => if p c then TrimLeft p s' else s end.
Definition TrimRight (p : ascii -> bool) (s : gostring) : gostring := rev (TrimLeft p (rev s)).
Definition Trim (p : ascii -> bool) (s : gostring) : gostring := TrimRight p (TrimLeft p s).

Definition TrimSuffixByte (s : gostring) (c : ascii) : gostring :=
  match rev s with d :: r => if ascii_eqb d c then rev r else s | [] => s end.

(** ** Order and sorting *)

Fixpoint compare_str (s t : gostring) : comparison :=
  match s, t with
  | [], [] => Eq
  | [], _ :: _ => Lt
  | _ :: _, [] => Gt
  | a :: s', b :: t' =>
      match Z.compare (code a) (code b) with Eq => compare_str s' t' | c => c end
  end.

(** [strings.Compare]: -1, 0 or 1. *)
Definition Compare (s t : gostring) : Z :=
  match compare_str s t with Lt => -1 | Eq => 0 | Gt => 1 end.

Definition str_le (s t : gostring) : Prop := compare_str s t <> Gt.
#[global] Instance str_le_dec : RelDecision str_le.
Proof. intros s t. unfold str_le. destruct (compare_str s t); [left|left|right]; congruence. Defined.

Definition sort_Strings (l : list gostring) : list gostring := merge_sort str_le l.

(** ** Decimal integers *)

Fixpoint digits_value (acc : Z) (s : gostring) : option Z :=
  match s with
  | [] => Some acc
  | c :: s' => if is_digit c then digits_value (acc * 10 + (code c - 48)) s' else None
  end.

Definition max_int : Z := 2 ^ 63 - 1.

(** [strconv.Atoi] on a 64-bit platform; a syntax or a range error is [None]. *)
Definition Atoi (s : gostring) : option Z :=
  let signed (neg : bool) (ds : gostring) :=
    match ds with
    | [] => None
    | _ => match digits_value 0 ds with
           | None => None
           | Some v =>
               if neg then if v <=? max_int + 1 then Some (- v) else None
               else if v <=? max_int then Some v else None
           end
    end in
  match s with
  | "-"%char :: ds => signed true ds
  | "+"%char :: ds => signed false ds
  | _ => signed false s
  end.

(** [strconv.Itoa] of a length. *)
Definition Itoa (n : nat) : gostring := bs (pretty (N.of_nat n)).

(** ** [net.SplitHostPort] *)

Definition LastIndexByte (s : gostring) (c : ascii) : option nat :=
  (fun i => length s - 1 - i)%nat <$> IndexByte (rev s) c.

Definition SplitHostPort (hostport : gostring) : option (gostring * gostring) :=
  match LastIndexByte hostport ":" with
  | None => None
  | Some i =>
      let tail_ok (j k : nat) :=
        negb (ContainsByte (drop j hostport) "[") && negb (ContainsByte (drop k hostport) "]") in
      let port := drop (i + 1) hostport in
      match hostport with
      | "["%char :: _ =>
          match IndexByte hostport "]" with
          | None => None
          | Some e =>
              if (e + 1 =? i)%nat then
                if tail_ok 1%nat (e + 1)%nat
                then Some (take (e - 1) (drop 1 hostport), port) else None
              else None
          end
      | _ =>
          let host := take i hostport in
          if ContainsByte host ":" then None
          else if tail_ok 0%nat 0%nat then Some (host, port) else None
      end
  end.

(** ** [netip.ParseAddr]: which family the literal has, and its zone *)

(** [parseIPv4Fields]; [val], [digLen] and [pos] are the loop's variables and
    [first] says that no byte or a dot precedes. *)
Fixpoint ipv4_fields (s : gostring) (val digLen pos : Z) (first : bool) : bool :=
  match s with
  | [] => negb (pos <? 3)
  | c :: s' =>
      if is_digit c then
        if (digLen =? 1) && (val =? 0) then false
        else
          let v := val * 10 + (code c - 48) in
          if 255 <? v then false else ipv4_fields s' v (digLen + 1) pos false
      else if ascii_eqb c "." then
        if first || bool_decide (s' = []) then false
        else if pos =? 3 then false
        else ipv4_fields s' 0 0 (pos + 1) true
      else false
  end.
Definition parse_ipv4 (s : gostring) : bool := ipv4_fields s 0 0 0 true.

Definition hex_value (c : ascii) : option Z :=
  if is_digit c then Some (code c - 48)
  else if between "a" c "f" then Some (code c - 87)
  else if between "A" c "F" then Some (code c - 55)
  else None.

(** The inner hex loop of [parseIPv6]: digits read and the rest of the string;
    [None] when a group has more than four digits. *)
Fixpoint hex_group (s : gostring) (off : nat) : option (nat * gostring) :=
  match s with
  | c :: s' =>
      match hex_value c with
      | Some _ => if (3 <? off)%nat then None else hex_group s' (S off)
      | None => Some (off, s)
      end
  | [] => Some (off, s)
  end.

(** The outer loop of [parseIPv6]: [n] is the number of 16-bit groups still to
    fill ([i = 16 - 2 * n]) and [ell] says whether the ellipsis was seen. *)
Fixpoint ipv6_groups (n : nat) (s : gostring) (ell : bool) : bool :=
  match n with
  | O => bool_decide (s = []) && negb ell
  | S n' =>
      match hex_group s 0 with
      | None | Some (O, _) => false
      | Some (_, rest) =>
          match rest with
          | [] => if (n' =? 0)%nat then negb ell else ell
          | c :: more =>
              if ascii_eqb c "." then
                if negb ell && negb (n =? 2)%nat then false
                else if (n <? 2)%nat then false
                else parse_ipv4 s && (if (n =? 2)%nat then negb ell else ell)
              else if negb (ascii_eqb c ":") then false
              else match more with
                   | [] => false
                   | d :: more' =>
                       if ascii_eqb d ":" then
                         if ell then false
                         else if bool_decide (more' = []) then negb (n' =? 0)%nat
                         else ipv6_groups n' more' true
                       else ipv6_groups n' more ell
                   end
          end
      end
  end.

Definition parse_ipv6 (s : gostring) : bool :=
  match s with
  | ":"%char :: ":"%char :: rest =>
      if bool_decide (rest = []) then true else ipv6_groups 8 rest true
  | _ => ipv6_groups 8 s false
  end.

Inductive addr_family := IPv4 | IPv6 (zone : gostring).

Definition ParseAddr (s : gostring) : option addr_family :=
  match List.find (fun c => ascii_eqb c "." || ascii_eqb c ":" || ascii_eqb c "%") s with
  | Some "."%char => if parse_ipv4 s then Some IPv4 else None
  | Some ":"%char =>
      match IndexByte s "%" with
      | None => if parse_ipv6 s then Some (IPv6 []) else None
      | Some i =>
          let zone := drop (i + 1) s in
          if bool_decide (zone = []) then None
          else if parse_ipv6 (take i s) then Some (IPv6 zone) else None
      end
  | _ => None
  end.

Example ParseAddr_examples :
  map ParseAddr [bs "127.0.0.1"; bs "::1"; bs "fe80::1%eth0"; bs "1.2.3"; bs "a.b"; bs "01.2.3.4";
                 bs "1:2:3:4:5:6:7:8"; bs "::ffff:1.2.3.4"; bs "1:2:3:4:5:6:7::"; bs "1::2::3"; bs "host:80"]
  = [Some IPv4; Some (IPv6 []); Some (IPv6 "eth0"); None; None; None;
     Some (IPv6 []); Some (IPv6 []); Some (IPv6 []); None; None].
Proof. vm_compute. reflexivity. Qed.

Example SplitHostPort_examples :
  map SplitHostPort [bs "a:80"; bs "[::1]:443"; bs "a"; bs "a:b:c"; bs "[::1]"; bs "[a]b:1"]
  = [Some (bs "a", bs "80"); Some (bs "::1", bs "443"); None; None; None; None].
Proof. vm_compute. reflexivity. Qed.

#[global] Arguments code : simpl never.
#[global] Arguments byte_of : simpl never.
#[global] Arguments ascii_eqb : simpl never.
#[global] Arguments between : simpl never.
#[global] Arguments is_digit : simpl never.
#[global] Arguments lower_byte : simpl never.
#[global] Arguments is_space : simpl never.
#[global] Arguments is_ascii : simpl never.

(** ** Facts about these functions *)

Create HintDb go discriminated.

Lemma ascii_eqb_eq a b : ascii_eqb a b = true <-> a = b.
Proof. apply Ascii.eqb_eq. Qed.
Lemma ascii_eqb_neq a b : ascii_eqb a b = false <-> a <> b.
Proof. apply Ascii.eqb_neq. Qed.
Lemma ascii_eqb_refl a : ascii_eqb a a = true.
Proof. apply Ascii.eqb_refl. Qed.
Lemma str_eqb_eq s t : str_eqb s t = true <-> s = t.
Proof. apply bool_decide_eq_true. Qed.
Lemma str_eqb_neq s t : str_eqb s t = false <-> s <> t.
Proof. unfold str_eqb. by rewrite bool_decide_eq_false. Qed.
Lemma str_eqb_refl s : str_eqb s s = true.
Proof. by apply str_eqb_eq. Qed.

(** Case analysis on a byte test. *)
Ltac byte_cases :=
  match goal with
  | |- context [ascii_eqb ?a ?b] =>
      let E := fresh "E" in
      destruct (ascii_eqb a b) eqn:E;
      [apply ascii_eqb_eq in E; first [subst a | subst b | idtac] | apply ascii_eqb_neq in E]
  | H : context [ascii_eqb ?a ?b] |- _ =>
      let E := fresh "E" in
      destruct (ascii_eqb a b) eqn:E;
      [apply ascii_eqb_eq in E; first [subst a | subst b | idtac] | apply ascii_eqb_neq in E]
  end.

(** Decide a closed fact about every byte. *)
Ltac every_byte c := destruct c as [[] [] [] [] [] [] [] []]; vm_compute; try done.

Lemma code_bound c : 0 <= code c < 256.
Proof. every_byte c; lia. Qed.

Lemma code_inj a b : code a = code b -> a = b.
Proof.
  unfold code. intros H. apply N2Z.inj in H.
  rewrite <- (ascii_N_embedding a), <- (ascii_N_embedding b). by f_equal.
Qed.

Lemma lower_byte_idem c : lower_byte (lower_byte c) = lower_byte c.
Proof. every_byte c. Qed.

Lemma lower_byte_ascii c : is_ascii (lower_byte c) = is_ascii c.
Proof. every_byte c. Qed.

Lemma all_ascii_lower s : all_ascii (map lower_byte s) = all_ascii s.
Proof. induction s as [|c s IH]; [done|]. simpl. by rewrite lower_byte_ascii, IH. Qed.

Lemma ToLower_ascii `{Unicode} s : all_ascii s = true -> ToLower s = map lower_byte s.
Proof. intros E. unfold ToLower. by rewrite E. Qed.

Lemma ToLower_ascii_idem `{Unicode} s :
  all_ascii s = true -> ToLower (ToLower s) = ToLower s.
Proof.
  intros E. rewrite (ToLower_ascii s E), ToLower_ascii; [|by rewrite all_ascii_lower].
  rewrite map_map. apply map_ext. intros. apply lower_byte_idem.
Qed.

Lemma HasPrefix_app p t : HasPrefix (p ++ t) p = true.
Proof. induction p as [|c p IH]; simpl; [by destruct t|]. by rewrite ascii_eqb_refl, IH. Qed.

Lemma HasPrefix_spec s p : HasPrefix s p = true <-> exists t, s = p ++ t.
Proof.
  split.
  - revert s; induction p as [|c p IH]; intros s; [by exists s|].
    destruct s as [|d s]; [done|]. simpl. intros [E H]%andb_prop.
    apply ascii_eqb_eq in E as ->. destruct (IH s H) as [t ->]. by exists t.
  - intros [t ->]. apply HasPrefix_app.
Qed.

Lemma HasSuffix_spec s p : HasSuffix s p = true <-> exists t, s = t ++ p.
Proof.
  unfold HasSuffix. rewrite andb_true_iff, Nat.leb_le, str_eqb_eq. split.
  - intros [_ E]. exists (take (length s - length p) s). rewrite <- E at 2. by rewrite take_drop.
  - intros [t ->]. rewrite length_app. split; [lia|].
    replace (length t + length p - length p)%nat with (length t) by lia. by rewrite drop_app_length.
Qed.

Lemma ContainsByte_spec s c : ContainsByte s c = true <-> c ∈ s.
Proof.
  unfold ContainsByte. rewrite existsb_exists. setoid_rewrite ascii_eqb_eq.
  setoid_rewrite list_elem_of_In. naive_solver.
Qed.

Lemma ContainsByte_false s c : ContainsByte s c = false <-> c ∉ s.
Proof. rewrite <- not_true_iff_false, ContainsByte_spec. done. Qed.

Lemma IndexByte_spec s c i :
  IndexByte s c = Some i -> exists a b, s = a ++ c :: b /\ length a = i /\ c ∉ a.
Proof.
  revert i; induction s as [|d s IH]; intros i; simpl; [done|]. byte_cases; intros H.
  - simplify_eq. exists [], s. split; [done|]. split; [done|]. apply not_elem_of_nil.
  - apply fmap_Some in H as (j & Hj & ->). destruct (IH j Hj) as (a & b & -> & <- & Hn).
    exists (d :: a), b. split_and!; [done|done|]. rewrite elem_of_cons. naive_solver.
Qed.

Lemma IndexByte_None s c : IndexByte s c = None <-> c ∉ s.
Proof.
  induction s as [|d s IH]; simpl; [split; [intros _; apply not_elem_of_nil|done]|].
  rewrite elem_of_cons. byte_cases; [naive_solver|].
  rewrite fmap_None, IH. naive_solver.
Qed.

Lemma IndexByte_app s t c :
  c ∉ s -> IndexByte (s ++ c :: t) c = Some (length s).
Proof.
  induction s as [|d s IH]; simpl; [by rewrite ascii_eqb_refl|].
  rewrite elem_of_cons. intros Hn. byte_cases; [naive_solver|]. rewrite IH; naive_solver.
Qed.

(** *** Splitting and joining *)

Lemma Split_cons s c : exists x r, Split s c = x :: r.
Proof. destruct s as [|d s]; simpl; [eauto|]. byte_cases; [eauto|]. destruct (Split s c); eauto. Qed.

Lemma Split_no_sep s c x : x ∈ Split s c -> c ∉ x.
Proof.
  revert x. induction s as [|d s IH]; intros x; simpl.
  - intros ->%list_elem_of_singleton. apply not_elem_of_nil.
  - byte_cases.
    + intros [->|Hx]%elem_of_cons; [apply not_elem_of_nil|]. by apply IH.
    + destruct (Split_cons s c) as (y & r & Ey). rewrite Ey in IH |- *.
      intros [->|Hx]%elem_of_cons.
      * rewrite elem_of_cons. intros [?|?]; [naive_solver|]. eapply IH; [left|done].
      * apply IH. by right.
Qed.

Lemma Split_app_sep s t c : c ∉ s -> Split (s ++ c :: t) c = s :: Split t c.
Proof.
  induction s as [|d s IH]; simpl; [by rewrite ascii_eqb_refl|].
  rewrite elem_of_cons. intros Hn. byte_cases; [naive_solver|]. rewrite IH; naive_solver.
Qed.

Lemma Split_single s c : c ∉ s -> Split s c = [s].
Proof.
  induction s as [|d s IH]; simpl; [done|].
  rewrite elem_of_cons. intros Hn. byte_cases; [naive_solver|]. rewrite IH; naive_solver.
Qed.

Lemma Join_cons x y r c : Join (x :: y :: r) c = x ++ c :: Join (y :: r) c.
Proof. done. Qed.

Lemma Split_Join x l c : Forall (fun y => c ∉ y) (x :: l) -> Split (Join (x :: l) c) c = x :: l.
Proof.
  revert x. induction l as [|y l IH]; intros x [Hx Hl]%Forall_cons.
  - by apply Split_single.
  - rewrite Join_cons, Split_app_sep by done. f_equal. by apply IH.
Qed.

Lemma Join_Split s c : Join (Split s c) c = s.
Proof.
  induction s as [|d s IH]; simpl; [done|]. destruct (Split_cons s c) as (x & r & E).
  rewrite E in *. byte_cases.
  - by rewrite Join_cons, IH.
  - destruct r; simpl in *; by rewrite IH.
Qed.

Lemma Join_app_last l x c : l <> [] -> Join (l ++ [x]) c = Join l c ++ c :: x.
Proof.
  induction l as [|y l IH]; [done|]. intros _. destruct l as [|z l]; [done|].
  change ((y :: z :: l) ++ [x]) with (y :: z :: (l ++ [x])).
  rewrite !Join_cons. change (z :: l ++ [x]) with ((z :: l) ++ [x]). rewrite IH by done.
  by rewrite <- app_assoc.
Qed.

Lemma Split_app s t c : Split (s ++ c :: t) c = Split s c ++ Split t c.
Proof.
  induction s as [|d s IH]; simpl; [by rewrite ascii_eqb_refl|].
  byte_cases; rewrite IH; [done|]. by destruct (Split_cons s c) as (x & r & ->).
Qed.

Lemma Join_app l k c : l <> [] -> k <> [] -> Join (l ++ k) c = Join l c ++ c :: Join k c.
Proof.
  induction l as [|x l IH]; [done|]. intros _ Hk. destruct l as [|y l].
  - by destruct k.
  - change ((x :: y :: l) ++ k) with (x :: y :: (l ++ k)). rewrite !Join_cons.
    change (y :: l ++ k) with ((y :: l) ++ k). rewrite IH by done. by rewrite <- app_assoc.
Qed.

(** One string's segments start another's exactly when it is the other or is
    followed there by the separator. *)
Lemma Split_prefix_of s t c :
  Split s c `prefix_of` Split t c <-> t = s \/ exists r, t = s ++ c :: r.
Proof.
  split.
  - intros [k Hk]. rewrite <- (Join_Split t c), Hk. destruct k as [|x k].
    + left. by rewrite app_nil_r, Join_Split.
    + right. exists (Join (x :: k) c). rewrite Join_app, Join_Split; [done| |done].
      by destruct (Split_cons s c) as (y & r & ->).
  - intros [->|[r ->]]; [done|]. rewrite Split_app. by eexists.
Qed.

(** *** The order on strings *)

Lemma compare_str_refl s : compare_str s s = Eq.
Proof. induction s as [|c s IH]; simpl; [done|]. by rewrite Z.compare_refl. Qed.

Lemma compare_str_eq s t : compare_str s t = Eq <-> s = t.
Proof.
  split; [|intros ->; apply compare_str_refl].
  revert t; induction s as [|a s IH]; intros [|b t]; simpl; try done.
  destruct (Z.compare_spec (code a) (code b)) as [E| |]; try done.
  intros H. apply code_inj in E as ->. by rewrite (IH t H).
Qed.

Lemma compare_str_antisym s t : compare_str t s = CompOpp (compare_str s t).
Proof.
  revert t; induction s as [|a s IH]; intros [|b t]; simpl; try done.
  rewrite Z.compare_antisym. destruct (Z.compare (code a) (code b)); simpl; [apply IH|done|done].
Qed.

Lemma compare_str_lt_trans s t u :
  compare_str s t = Lt -> compare_str t u = Lt -> compare_str s u = Lt.
Proof.
  revert t u; induction s as [|a s IH]; intros [|b t] [|c u]; simpl; try done.
  destruct (Z.compare_spec (code a) (code b)), (Z.compare_spec (code b) (code c)),
    (Z.compare_spec (code a) (code c)); try lia; try done.
  apply IH.
Qed.

#[global] Instance str_le_total : Total str_le.
Proof.
  intros s t. unfold str_le. rewrite (compare_str_antisym s t).
  destruct (compare_str s t); simpl; [left|left|right]; congruence.
Qed.

#[global] Instance str_le_trans : Transitive str_le.
Proof.
  intros s t u. unfold str_le. intros H1 H2.
  destruct (compare_str s t) eqn:E1; [| |done].
  - apply compare_str_eq in E1 as ->. done.
  - destruct (compare_str t u) eqn:E2; [| |done].
    + apply compare_str_eq in E2 as ->. by rewrite E1.
    + by rewrite (compare_str_lt_trans _ _ _ E1 E2).
Qed.

#[global] Instance str_le_antisymm : AntiSymm (=) str_le.
Proof.
  intros s t. unfold str_le. rewrite (compare_str_antisym s t).
  destruct (compare_str s t) eqn:E; simpl; intros; [|done|done]. by apply compare_str_eq.
Qed.

Lemma sort_Strings_perm l : sort_Strings l ≡ₚ l.
Proof. apply merge_sort_Permutation. Qed.

Lemma sort_Strings_sorted l : StronglySorted str_le (sort_Strings l).
Proof. apply StronglySorted_merge_sort; apply _. Qed.

(** The sorted form depends only on the multiset of strings. *)
#[global] Instance sort_Strings_proper : Proper ((≡ₚ) ==> (=)) sort_Strings.
Proof.
  intros l k E. apply (StronglySorted_unique str_le); try apply sort_Strings_sorted.
  by rewrite !sort_Strings_perm.
Qed.
