(* ===== verification/GoRuntime.v ===== *)
(** * Machine integers, clocks, errors and HTTP headers

    The pieces of the Go runtime and of packages [time], [errors], [context] and
    [net/http] that several components share. *)

From S2P Require Import Prelude GoStrings.
#[local] Open Scope Z_scope.

(** ** Machine integers *)

Definition wrap64 (z : Z) : Z := (z + 2 ^ 63) mod 2 ^ 64 - 2 ^ 63.
Definition uint16 (z : Z) : Z := z mod 2 ^ 16.

Definition in_int64 (z : Z) : Prop := - 2 ^ 63 <= z < 2 ^ 63.

Lemma wrap64_id z : in_int64 z -> wrap64 z = z.
Proof. unfold in_int64, wrap64. intros. rewrite Z.mod_small by lia. lia. Qed.

(** ** Package [time]

    An instant is its number of nanoseconds from the Unix epoch on an unbounded
    line; a duration is a 64-bit count of nanoseconds. *)

Definition Time := Z.
Definition Duration := Z.
Definition Microsecond : Duration := 1000.
Definition Millisecond : Duration := 1000 * Microsecond.
Definition Second : Duration := 1000 * Millisecond.
Definition Minute : Duration := 60 * Second.

(** [time.Time{}]: the first instant of year 1. *)
Definition zero_time : Time := - 62135596800 * Second.
Definition IsZero (t : Time) : bool := t =? zero_time.

(** [t.Sub(u)] saturates at the largest and the smallest duration. *)
Definition Sub (t u : Time) : Duration := Z.max (- 2 ^ 63) (Z.min (2 ^ 63 - 1) (t - u)).
Definition Add (t : Time) (d : Duration) : Time := t + d.

Lemma Sub_range t u : in_int64 (Sub t u).
Proof. unfold in_int64, Sub. lia. Qed.

(** Reading the clock of an environment [W]: consecutive readings do not decrease. *)
Class Clock (W : Type) := {
  Now : W -> Time * W;
  Now_mono : forall w, (Now w).1 <= (Now (Now w).2).1
}.

(** ** Errors *)

Inductive AcquireErrorClass :=
| AcquireErrorTransient
| AcquireErrorPermanent
| AcquireErrorLocal
| AcquireErrorOther (n : Z).
#[global] Instance AcquireErrorClass_eq_dec : EqDecision AcquireErrorClass.
Proof. solve_decision. Defined.

(** Go errors as the program builds and inspects them: a formatted message, a
    message that wraps another error, the classified error of package [token]
    with its optional cause, and the two errors of a finished context. *)
Inductive error :=
| Errorf (msg : gostring)
| Wrapf (msg : gostring) (cause : error)
| AcquireError (Class : AcquireErrorClass) (Message : gostring) (Cause : option error)
| Canceled
| DeadlineExceeded.

(** The fields of an [*AcquireError]. *)
Record acquire_error := { ae_Class : AcquireErrorClass; ae_Message : gostring; ae_Cause : option error }.
Definition from_acquire (a : acquire_error) : error := AcquireError (ae_Class a) (ae_Message a) (ae_Cause a).

(** [errors.As(err, &acquireErr)]: the outermost [*AcquireError] of the chain. *)
Fixpoint errors_As_AcquireError (e : error) : option acquire_error :=
  match e with
  | AcquireError c m k => Some {| ae_Class := c; ae_Message := m; ae_Cause := k |}
  | Wrapf _ e' => errors_As_AcquireError e'
  | _ => None
  end.

(** [errors.Is(err, context.Canceled) || errors.Is(err, context.DeadlineExceeded)]. *)
Fixpoint is_context_error (e : error) : bool :=
  match e with
  | Canceled | DeadlineExceeded => true
  | Wrapf _ e' => is_context_error e'
  | AcquireError _ _ (Some e') => is_context_error e'
  | _ => false
  end.

(** ** [http.Header]

    A map from header names to their values.  [Get], [Values] and [Set] are used
    with names in canonical form only, for which they index the map. *)

Notation Header := (gmap gostring (list gostring)).

Definition Values (h : Header) (key : gostring) : list gostring := default [] (h !! key).
Definition Get (h : Header) (key : gostring) : gostring :=
  match Values h key with v :: _ => v | [] => [] end.
Definition Set_ (h : Header) (key value : gostring) : Header := <[key := [value]]> h.

(** [for key := range h { if p(key) { delete(h, key) } }]. *)
Definition delete_keys {A} (p : gostring -> bool) (h : gmap gostring A) : gmap gostring A :=
  filter (fun kv => p kv.1 = false) h.

Lemma delete_keys_lookup {A} (p : gostring -> bool) (h : gmap gostring A) k :
  delete_keys p h !! k = if p k then None else h !! k.
Proof.
  unfold delete_keys. destruct (p k) eqn:E.
  - apply map_lookup_filter_None. right. intros x _ H. simpl in H. congruence.
  - destruct (h !! k) as [v|] eqn:Ek.
    + apply map_lookup_filter_Some. done.
    + apply map_lookup_filter_None. by left.
Qed.

(** A clock that advances by one nanosecond at each reading. *)
#[program] Definition tick_clock : Clock Z := {| Now w := (w, w + 1) |}.
Next Obligation. simpl. lia. Qed.
