(* ===== verification/Canonicalize.v ===== *)
(** * [internal/policy/canonicalize.go]: canonical request paths

    [CanonicalizePath] computes the path that is matched against policy and
    forwarded upstream.  The theorems say that its results are exactly its fixed
    points and give their shape. *)

From S2P Require Import Prelude GoStrings.
#[local] Open Scope Z_scope.
#[local] Open Scope go_scope.

Inductive path_error :=
| EmptyPath
| PathBackslash
| MalformedEscape (position : nat)
| PathNullByte
| NoLeadingSlash
| TraversalPastRoot.

(** [-1] for a byte that is not a hexadecimal digit. *)
Definition unhex (c : ascii) : Z :=
  if between "0" c "9" then code c - code "0"
  else if between "a" c "f" then code c - code "a" + 10
  else if between "A" c "F" then code c - code "A" + 10
  else -1.

Definition isUnreserved (c : ascii) : bool :=
  between "A" c "Z" || between "a" c "z" || between "0" c "9" ||
  ascii_eqb c "-" || ascii_eqb c "." || ascii_eqb c "_" || ascii_eqb c "~".

(** The byte an escape [%hl] stands for, [byte(hi<<4 | lo)]. *)
Definition escaped_byte (h l : ascii) : ascii :=
  byte_of (Z.lor (Z.shiftl (unhex h) 4) (unhex l)).

(** The loop of [decodeUnreserved] from position [i]. *)
Fixpoint decode_from (i : nat) (s : gostring) : result path_error gostring :=
  match s with
  | [] => Ok []
  | c :: r =>
      if negb (ascii_eqb c "%") then
        let? t := decode_from (i + 1) r in Ok (c :: t)
      else
        match r with
        | h :: l :: r' =>
            if (unhex h <? 0) || (unhex l <? 0) then Err (MalformedEscape i)
            else
              let decoded := escaped_byte h l in
              if code decoded =? 0 then Err PathNullByte
              else
                let? t := decode_from (i + 3) r' in
                if isUnreserved decoded then Ok (decoded :: t) else Ok (c :: h :: l :: t)
        | _ => Err (MalformedEscape i)
        end
  end.

Definition decodeUnreserved (s : gostring) : result path_error gostring := decode_from 0 s.

(** The segment loop: [resolved] is the stack of segments kept so far. *)
Fixpoint resolve_segments (resolved segs : list gostring) : result path_error (list gostring) :=
  match segs with
  | [] => Ok resolved
  | seg :: rest =>
      if str_eqb seg "" then resolve_segments resolved rest
      else if str_eqb seg "." then resolve_segments resolved rest
      else if str_eqb seg ".." then
        match resolved with
        | [] => Err TraversalPastRoot
        | _ => resolve_segments (take (length resolved - 1) resolved) rest
        end
      else resolve_segments (resolved ++ [seg]) rest
  end.

Definition strip_query (raw : gostring) : gostring :=
  match IndexByte raw "?" with Some idx => take idx raw | None => raw end.

Definition CanonicalizePath (raw : gostring) : result path_error gostring :=
  match raw with
  | [] => Err EmptyPath
  | _ =>
      let path := strip_query raw in
      if ContainsByte path "\" then Err PathBackslash
      else
        let? path := decodeUnreserved path in
        if negb (HasPrefix path "/") then Err NoLeadingSlash
        else
          let? resolved := resolve_segments [] (drop 1 (Split path "/")) in
          let trailing := (1 <? length path)%nat && HasSuffix path "/" in
          let res := "/"%char :: Join resolved "/" in
          if trailing && negb (HasSuffix res "/") then Ok (res ++ ["/"%char]) else Ok res
  end.

Example CanonicalizePath_examples :
  map CanonicalizePath
    [bs "/a/./b//c/?q=1"; bs "/a/%2e%2E/b"; bs "/a%2Fb"; bs "/.."; bs "/a\b"; bs "/%00"; bs "/%4"; bs "?x"; bs ""]
  = [Ok (bs "/a/b/c/"); Ok (bs "/b"); Ok (bs "/a%2Fb"); Err TraversalPastRoot; Err PathBackslash;
     Err PathNullByte; Err (MalformedEscape 1); Err NoLeadingSlash; Err EmptyPath].
Proof. vm_compute. reflexivity. Qed.

#[global] Arguments unhex : simpl never.
#[global] Arguments isUnreserved : simpl never.
#[global] Arguments escaped_byte : simpl never.

(** ** Decoding is stable *)

(** Strings the decoder leaves alone: every escape in them is well formed and
    stands for a byte that has to stay escaped. *)
Inductive stable : gostring -> Prop :=
| stable_nil : stable []
| stable_plain c s : c <> "%"%char -> stable s -> stable (c :: s)
| stable_escape h l s :
    0 <= unhex h -> 0 <= unhex l -> code (escaped_byte h l) <> 0 ->
    isUnreserved (escaped_byte h l) = false ->
    stable s -> stable ("%"%char :: h :: l :: s).
#[local] Hint Constructors stable : go.

Lemma decode_from_plain i c r :
  c <> "%"%char -> decode_from i (c :: r) = let? t := decode_from (i + 1) r in Ok (c :: t).
Proof. intros H%ascii_eqb_neq. cbn [decode_from]. by rewrite H. Qed.

Lemma decode_from_escape i h l r :
  decode_from i ("%"%char :: h :: l :: r) =
    if (unhex h <? 0) || (unhex l <? 0) then Err (MalformedEscape i)
    else if code (escaped_byte h l) =? 0 then Err PathNullByte
    else let? t := decode_from (i + 3) r in
         if isUnreserved (escaped_byte h l) then Ok (escaped_byte h l :: t)
         else Ok ("%"%char :: h :: l :: t).
Proof. reflexivity. Qed.

Lemma stable_decode s : stable s -> forall i, decode_from i s = Ok s.
Proof.
  induction 1 as [|c s Hc Hs IH|h l s Hh Hl Hz Hu Hs IH]; intros i; [done| |].
  - by rewrite decode_from_plain, IH.
  - rewrite decode_from_escape, (proj2 (Z.ltb_ge _ _) Hh), (proj2 (Z.ltb_ge _ _) Hl).
    rewrite (proj2 (Z.eqb_neq _ _) Hz), IH. cbn [orb rbind]. by rewrite Hu.
Qed.

(** Induction principle of the decoder for successful runs. *)
Lemma decode_ok_ind (P : gostring -> gostring -> Prop) :
  P [] [] ->
  (forall c s t, c <> "%"%char -> P s t -> P (c :: s) (c :: t)) ->
  (forall h l s t, 0 <= unhex h -> 0 <= unhex l -> code (escaped_byte h l) <> 0 ->
     P s t ->
     P ("%"%char :: h :: l :: s)
       (if isUnreserved (escaped_byte h l) then escaped_byte h l :: t else "%"%char :: h :: l :: t)) ->
  forall s i t, decode_from i s = Ok t -> P s t.
Proof.
  intros Hnil Hplain Hesc s. induction s as [s IH] using (induction_ltof1 _ (@length ascii)).
  unfold ltof in IH. intros i t. destruct s as [|c r]; [naive_solver|].
  destruct (decide (c = "%"%char)) as [->|Hc].
  - destruct r as [|h [|l r]]; [done|done|]. rewrite decode_from_escape.
    destruct (unhex h <? 0) eqn:Hh; [done|]. destruct (unhex l <? 0) eqn:Hl; [done|]. cbn [orb].
    destruct (code (escaped_byte h l) =? 0) eqn:Hz; [done|].
    destruct (decode_from (i + 3) r) as [t'|e] eqn:Hr; cbn [rbind]; [|done].
    intros E. assert (P r t') as Hp by (eapply IH; [simpl; lia|done]).
    specialize (Hesc h l r t'). rewrite Z.ltb_ge in Hh, Hl. rewrite Z.eqb_neq in Hz.
    destruct (isUnreserved (escaped_byte h l)); naive_solver.
  - rewrite decode_from_plain by done.
    destruct (decode_from (i + 1) r) as [t'|e] eqn:Hr; cbn [rbind]; [|done].
    intros ?; simplify_eq. apply Hplain; [done|]. eapply IH; [simpl; lia|done].
Qed.

Lemma isUnreserved_not_percent c : isUnreserved c = true -> c <> "%"%char.
Proof. every_byte c. Qed.

Lemma decode_stable s i t : decode_from i s = Ok t -> stable t.
Proof.
  revert s i t. apply decode_ok_ind; eauto with go.
  intros h l s t Hh Hl Hz Hs. destruct (isUnreserved (escaped_byte h l)) eqn:Hu; eauto with go.
  constructor; [|done]. by apply isUnreserved_not_percent.
Qed.

(** Decoding never produces a reserved byte that was not already there. *)
Lemma decode_no_new c s i t :
  isUnreserved c = false -> decode_from i s = Ok t -> c ∉ s -> c ∉ t.
Proof.
  intros Hc. revert s i t.
  apply (decode_ok_ind (fun s t => c ∉ s -> c ∉ t)); [done| |].
  - intros d s t _ IH. rewrite !elem_of_cons. naive_solver.
  - intros h l s t _ _ _ IH. rewrite !elem_of_cons. intros Hn.
    destruct (isUnreserved (escaped_byte h l)) eqn:Hu; rewrite !elem_of_cons; [|naive_solver].
    intros [->|?]; [congruence|naive_solver].
Qed.

Lemma stable_app s t : stable s -> stable t -> stable (s ++ t).
Proof. intros H Ht. induction H; simpl; eauto with go. Qed.

Lemma stable_slash_inv s : stable s -> forall a b, s = a ++ "/"%char :: b -> stable a /\ stable b.
Proof.
  induction 1 as [|c s Hc Hs IH|h l s Hh Hl Hz Hu Hs IH]; intros a b E.
  - by destruct a.
  - destruct a as [|d a]; simplify_eq/=; [eauto with go|].
    destruct (IH a b eq_refl). eauto with go.
  - destruct a as [|d [|e [|f a]]]; simplify_eq/=.
    destruct (IH a b eq_refl). eauto with go.
Qed.

Lemma stable_split s : stable s -> Forall stable (Split s "/").
Proof.
  intros H. remember (Split s "/") as l eqn:El.
  revert s H El. induction l as [|x l IH]; intros s H El; [constructor|].
  pose proof (Join_Split s "/") as EJ. rewrite <- El in EJ.
  destruct l as [|y l].
  - simpl in EJ. subst x. by constructor.
  - rewrite Join_cons in EJ. destruct (stable_slash_inv s H _ _ (eq_sym EJ)) as [Hx Hr].
    constructor; [done|]. apply (IH _ Hr). rewrite <- EJ in El.
    rewrite Split_app_sep in El; [by simplify_eq|].
    apply (Split_no_sep s "/"). rewrite <- EJ, <- El. left.
Qed.

Lemma stable_join l : Forall stable l -> stable (Join l "/").
Proof.
  induction 1 as [|x l Hx Hl IH]; [constructor|]. destruct l as [|y l]; [done|].
  rewrite Join_cons. apply stable_app; [done|]. by apply stable_plain.
Qed.

(** ** Segment resolution *)

(** A segment that survives resolution. *)
Definition normal (seg : gostring) : Prop :=
  seg <> [] /\ seg <> bs "." /\ seg <> bs ".." /\ "/"%char ∉ seg.

Lemma resolve_Forall (P : gostring -> Prop) segs : forall acc out,
  resolve_segments acc segs = Ok out -> Forall P acc ->
  Forall (fun x => x <> [] -> x <> bs "." -> x <> bs ".." -> P x) segs -> Forall P out.
Proof.
  induction segs as [|x segs IH]; intros acc out; simpl; [naive_solver|].
  intros E Hacc [Hx Hsegs]%Forall_cons. revert E. unfold str_eqb.
  repeat case_bool_decide; [intros E; by eapply IH..| |].
  - destruct acc; [done|]. intros E. eapply IH; [exact E|by apply Forall_take|done].
  - intros E. eapply IH; [exact E| |done].
    apply Forall_app. split; [done|]. constructor; [by apply Hx|constructor].
Qed.

Lemma resolve_normal segs acc : Forall normal segs -> resolve_segments acc segs = Ok (acc ++ segs).
Proof.
  intros H. revert acc. induction H as [|x l (H1 & H2 & H3 & H4) Hl IH]; intros acc; simpl.
  - by rewrite app_nil_r.
  - unfold str_eqb. rewrite !bool_decide_eq_false_2 by done. by rewrite IH, <- app_assoc.
Qed.

Lemma resolve_empty_last acc segs :
  Forall normal segs -> resolve_segments acc (segs ++ [[]]) = Ok (acc ++ segs).
Proof.
  intros H. revert acc. induction H as [|x l (H1 & H2 & H3 & H4) Hl IH]; intros acc; simpl.
  - by rewrite app_nil_r.
  - unfold str_eqb. rewrite !bool_decide_eq_false_2 by done. by rewrite IH, <- app_assoc.
Qed.

Lemma join_elem c l : c <> "/"%char -> c ∈ Join l "/" -> exists x, x ∈ l /\ c ∈ x.
Proof.
  intros Hc. induction l as [|x l IH]; [by intros ?%elem_of_nil|]. destruct l as [|y l].
  - intros. exists x. split; [left|done].
  - rewrite Join_cons, elem_of_app, elem_of_cons. intros [?|[?|?]]; [|done|].
    + exists x. split; [left|done].
    + destruct IH as (z & ? & ?); [done|]. exists z. split; [by right|done].
Qed.

Lemma split_elem c s x : x ∈ Split s "/" -> c ∈ x -> c ∈ s.
Proof.
  intros Hx Hc. rewrite <- (Join_Split s "/"). induction (Split s "/") as [|y l IH].
  - by apply elem_of_nil in Hx.
  - destruct l as [|z l].
    + by apply list_elem_of_singleton in Hx as ->.
    + rewrite Join_cons, elem_of_app, elem_of_cons.
      apply elem_of_cons in Hx as [->|Hx]; [by left|]. right; right. by apply IH.
Qed.

Lemma HasSuffix_byte s c d : HasSuffix (s ++ [c]) [d] = ascii_eqb c d.
Proof.
  apply eq_true_iff_eq. rewrite HasSuffix_spec, ascii_eqb_eq. split.
  - by intros [t [_ E]%app_inj_tail].
  - intros ->. by exists s.
Qed.

(** A joined list of normal segments ends in a slash only when it is empty. *)
Lemma join_normal_suffix l :
  Forall normal l -> HasSuffix ("/"%char :: Join l "/") "/" = bool_decide (l = []).
Proof.
  destruct l as [|y k _] using rev_ind; [done|].
  intros [Hk [(H1 & _ & _ & H4) _]%Forall_cons]%Forall_app.
  rewrite bool_decide_eq_false_2 by (by destruct k).
  destruct y as [|c y' _] using rev_ind; [done|].
  assert (exists u, "/"%char :: Join (k ++ [y' ++ [c]]) "/" = u ++ [c]) as [u ->].
  { destruct k as [|z k].
    - by exists ("/"%char :: y').
    - rewrite Join_app_last by done. exists ("/"%char :: Join (z :: k) "/" ++ "/"%char :: y').
      simpl. by rewrite <- app_assoc. }
  change (bs "/") with ["/"%char]. rewrite HasSuffix_byte. apply ascii_eqb_neq. intros ->. apply H4, elem_of_app. right. left.
Qed.

(** ** Canonical paths *)

(** The shape of a canonical path: normal segments after a leading slash, with at
    most one trailing slash, no query, no backslash and nothing left to decode. *)
Definition canonical (p : gostring) : Prop :=
  stable p /\ "?"%char ∉ p /\ "\"%char ∉ p /\
  exists segs (trailing : bool), Forall normal segs /\
    p = "/"%char :: Join segs "/" ++ (if trailing && bool_decide (segs <> []) then ["/"%char] else []).

Lemma strip_query_none p : "?"%char ∉ strip_query p.
Proof.
  unfold strip_query. destruct (IndexByte p "?") as [i|] eqn:E.
  - apply IndexByte_spec in E as (a & b & -> & <- & Ha). by rewrite take_app_length.
  - by apply IndexByte_None.
Qed.

Lemma strip_query_id p : "?"%char ∉ p -> strip_query p = p.
Proof. intros H%IndexByte_None. unfold strip_query. by rewrite H. Qed.

Lemma canonicalize_canonical raw p : CanonicalizePath raw = Ok p -> canonical p.
Proof.
  unfold CanonicalizePath. destruct raw as [|c0 raw]; [done|].
  set (q := strip_query _). destruct (ContainsByte q "\") eqn:Hb; [done|].
  apply ContainsByte_false in Hb. unfold decodeUnreserved.
  destruct (decode_from 0 q) as [d|e] eqn:Hd; simpl; [|done].
  assert ("?"%char ∉ d) as Hq by (eapply decode_no_new; [|exact Hd|apply strip_query_none]; done).
  assert ("\"%char ∉ d) as Hbs by (eapply decode_no_new; [|exact Hd|exact Hb]; done).
  apply decode_stable in Hd.
  destruct (HasPrefix d "/") eqn:Hp; simpl; [|done]. apply HasPrefix_spec in Hp as [d' ->].
  change (bs "/" ++ d') with ("/"%char :: d') in *. rename d' into d.
  set (segs := drop 1 (Split _ _)).
  destruct (resolve_segments [] segs) as [l|e] eqn:Hr; simpl; [|done].
  assert (Forall (fun x => stable x /\ x ∈ Split ("/"%char :: d) "/") segs) as Hsegs.
  { apply Forall_drop, Forall_and. split; [by apply stable_split|]. apply Forall_forall. done. }
  assert (Forall (fun x => normal x /\ stable x /\ "?"%char ∉ x /\ "\"%char ∉ x) l) as Hl.
  { eapply resolve_Forall; [exact Hr|constructor|]. eapply Forall_impl; [exact Hsegs|].
    intros x [Hs Hx] ???. unfold normal. split_and!; [done|done|done|by eapply Split_no_sep|done| |];
      intros ?%(split_elem _ _ _ Hx); done. }
  apply Forall_and in Hl as [Hn [Hs [H1 H2]%Forall_and]%Forall_and].
  assert (stable ("/"%char :: Join l "/")) as Hst by (constructor; [done|by apply stable_join]).
  assert (forall c, c <> "/"%char -> Forall (fun x => c ∉ x) l -> c ∉ "/"%char :: Join l "/") as Hno.
  { intros x Hx Hall [->|Hin]%elem_of_cons; [done|]. apply join_elem in Hin as (y & Hy & Hxy); [|done].
    rewrite Forall_forall in Hall. by apply (Hall y). }
  rewrite join_normal_suffix by done.
  destruct (_ && _) eqn:Ht; intros ?; simplify_eq/=.
  - apply andb_prop in Ht as [_ Ht]. split_and!.
    + rewrite app_comm_cons. apply stable_app; [done|]. by repeat constructor.
    + rewrite app_comm_cons, elem_of_app, list_elem_of_singleton. intros [?|?]; [|done]. by apply (Hno "?"%char).
    + rewrite app_comm_cons, elem_of_app, list_elem_of_singleton. intros [?|?]; [|done]. by apply (Hno "\"%char).
    + exists l, true. split; [done|]. apply negb_true_iff, bool_decide_eq_false in Ht.
      by rewrite bool_decide_eq_true_2.
  - split_and!; [done|by apply Hno|by apply Hno|]. exists l, false. simpl. by rewrite app_nil_r.
Qed.

Lemma canonical_fixed p : canonical p -> CanonicalizePath p = Ok p.
Proof.
  intros (Hst & Hq & Hbs & segs & tr & Hn & Ep).
  unfold CanonicalizePath. rewrite Ep. rewrite <- Ep.
  rewrite strip_query_id by done. rewrite (proj2 (ContainsByte_false _ _) Hbs).
  unfold decodeUnreserved. rewrite stable_decode by done. cbn [rbind].
  assert (HasPrefix p "/" = true) as -> by (rewrite Ep; apply (HasPrefix_app "/")). cbn [negb].
  assert (Forall (fun x => "/"%char ∉ x) segs) as Hns by (eapply Forall_impl; [exact Hn|]; by intros ? (_ & _ & _ & ?)).
  destruct segs as [|x l].
  { rewrite andb_false_r in Ep. subst p. done. }
  rewrite bool_decide_eq_true_2 in Ep by done. rewrite andb_true_r in Ep.
  assert (drop 1 (Split p "/") = if tr then (x :: l) ++ [[]] else x :: l) as ->.
  { rewrite Ep. change ("/"%char :: ?t) with ([] ++ "/"%char :: t).
    rewrite Split_app_sep by apply not_elem_of_nil. cbn [drop]. destruct tr.
    - rewrite <- (Join_app_last (x :: l) []) by done.
      rewrite <- app_comm_cons. apply Split_Join. rewrite app_comm_cons.
      apply Forall_app. split; [done|]. repeat constructor. apply not_elem_of_nil.
    - rewrite app_nil_r. by apply Split_Join. }
  assert (resolve_segments [] (if tr then (x :: l) ++ [[]] else x :: l) = Ok (x :: l)) as ->.
  { destruct tr; [by apply resolve_empty_last|by apply (resolve_normal (x :: l) [])]. }
  cbn [rbind]. rewrite join_normal_suffix by done. rewrite bool_decide_eq_false_2 by done. cbn [negb]. rewrite andb_true_r.
  assert (HasSuffix p "/" = tr) as Hsuf.
  { rewrite Ep. destruct tr; [apply (HasSuffix_byte ("/"%char :: Join (x :: l) "/"))|].
    rewrite app_nil_r, join_normal_suffix by done. done. }
  rewrite Hsuf. destruct tr.
  - rewrite (proj2 (Nat.ltb_lt _ _)) by (rewrite Ep; simpl; rewrite length_app; simpl; lia).
    simpl. by rewrite Ep.
  - rewrite andb_false_r. by rewrite Ep, app_nil_r.
Qed.

(** Canonicalisation is idempotent, so the path that was matched against policy
    and the path the upstream would compute from the forwarded one agree. *)
Theorem CanonicalizePath_idempotent raw p :
  CanonicalizePath raw = Ok p -> CanonicalizePath p = Ok p.
Proof. intros H. by eapply canonical_fixed, canonicalize_canonical. Qed.

Lemma CanonicalizePath_idempotent_witness :
  CanonicalizePath (bs "/a/%2e%2e//b/?x") = Ok (bs "/b/") /\ CanonicalizePath (bs "/b/") = Ok (bs "/b/").
Proof.
  split; [vm_compute; reflexivity|].
  apply (CanonicalizePath_idempotent (bs "/a/%2e%2e//b/?x")). vm_compute; reflexivity.
Defined.

(** C39: a string is a possible result of canonicalisation exactly when it is in
    canonical form: a leading slash, no empty, dot or dot-dot segment, at most one
    trailing slash, no query, no backslash and no escape that decoding would remove.
    Nothing is said of other bytes because nothing is checked: a NUL byte is refused
    when it is escaped and passed through when it is raw ([raw_null_byte_accepted]). *)
Theorem CanonicalizePath_canonical p :
  (exists raw, CanonicalizePath raw = Ok p) <-> canonical p.
Proof.
  split.
  - intros [raw H]. by eapply canonicalize_canonical.
  - intros H. exists p. by apply canonical_fixed.
Qed.

(** S2 (5.1.1) and the comment of [decodeUnreserved] have null bytes rejected; only an
    escaped one is. *)
Lemma raw_null_byte_accepted :
  CanonicalizePath (bs "/a/b" ++ [ascii_of_nat 0] ++ bs "c") = Ok (bs "/a/b" ++ [ascii_of_nat 0] ++ bs "c") /\
  exists e, CanonicalizePath (bs "/a/b%00c") = Err e.
Proof. split; [|eexists]; vm_compute; reflexivity. Qed.
