(* ===== verification/Compile.v ===== *)
(** * [api/v1alpha1/types.go], [internal/policy/compiled.go], [internal/policy/compile.go]

    The policy resource, the compiled rule and the compiler from one to the
    other: validation, canonical paths, static ranks, sorting and the content
    version.  Slices are lists: the sources never distinguish a nil slice from an
    empty one, and the defensive copies they make have no counterpart in a
    language without aliasing. *)

From S2P Require Import Prelude GoStrings Canonicalize.
#[local] Open Scope Z_scope.
#[local] Open Scope go_scope.

(** ** The policy resource *)

Record CredentialSelector := {
  Provider : gostring;
  Resource : gostring;
  Scopes : list gostring
}.
#[global] Instance CredentialSelector_eq_dec : EqDecision CredentialSelector.
Proof. solve_decision. Defined.

Definition PathTypeExact : gostring := "Exact".
Definition PathTypePrefix : gostring := "Prefix".

Record PathMatcher := { pm_Type : gostring; pm_Value : gostring }.
Record RuleMatch := { rm_Methods : list gostring; rm_Paths : list PathMatcher }.

Record EgressRule := {
  er_Name : gostring;
  er_Host : gostring;                       (* To.Host *)
  er_Match : option RuleMatch;
  er_AllowPlaintext : bool;
  er_Credential : option CredentialSelector;
  er_Effect : gostring
}.

(** [LabelSelector] is the Kubernetes type of [spec.selector]; only the watcher
    reads it. *)
Record AkshPolicy {LabelSelector : Type} := {
  ap_Namespace : gostring;
  ap_Name : gostring;
  ap_Selector : option LabelSelector;
  ap_Rules : list EgressRule                (* Spec.Egress.Rules *)
}.
Arguments AkshPolicy : clear implicits.

(** ** Compiled rules *)

Inductive Transport := TransportTLS | TransportPlaintext | TransportUnset.
#[global] Instance Transport_eq_dec : EqDecision Transport.
Proof. solve_decision. Defined.

Definition EvaluatorVersion : gostring := "aksh-eval-v1".

Record CompiledPath := { cp_Exact : bool; cp_Value : gostring }.

Record RuleRank := {
  HostExact : bool;
  MethodCount : Z;
  ConstraintRank : Z;
  TieBreak : gostring
}.

Record MatchRank := {
  Static : RuleRank;
  PathExact : bool;
  PathLen : Z
}.

Record CompiledRule := {
  cr_Ref : gostring;
  cr_Host : gostring;
  cr_Wildcard : bool;
  cr_Methods : list gostring;
  cr_Paths : list CompiledPath;
  cr_AllowPlaintext : bool;
  cr_Credential : option CredentialSelector;
  cr_Rank : RuleRank
}.

(** The SHA-256 digest of a byte string, in lower-case hexadecimal
    ([fmt.Sprintf("%x", h.Sum(nil))]). *)
Class Sha256 := sha256_hex : gostring -> gostring.

Definition maxTotalRules : nat := 2048.

Record compiledSnapshot := {
  version : gostring;
  rules : list CompiledRule
}.

Inductive compile_error :=
| UnsupportedEffect (ref effect : gostring)
| InvalidPath (ref value : gostring) (e : path_error)
| TooManyRules (n : nat).

(** [compareRuleRank]: negative when [a] is more specific than [b]. *)
Definition compareRuleRank (a b : RuleRank) : Z :=
  if negb (eqb (HostExact a) (HostExact b)) then
    if HostExact a then -1 else 1
  else if negb (MethodCount a =? MethodCount b) then
    if MethodCount a =? 0 then 1
    else if MethodCount b =? 0 then -1
    else MethodCount a - MethodCount b
  else if negb (ConstraintRank a =? ConstraintRank b) then
    ConstraintRank a - ConstraintRank b
  else Compare (TieBreak a) (TieBreak b).

(** [writeLen]: a 4-byte big-endian length, [uint32(len(s))], then the bytes. *)
Definition be32 (n : Z) : gostring :=
  map (fun k => byte_of (Z.shiftr n (8 * k))) [3; 2; 1; 0].
Definition writeLen (s : gostring) : gostring :=
  be32 (Z.of_nat (length s) mod 2 ^ 32) ++ s.

Definition flag_byte (b : bool) : gostring := if b then ["001"%char] else ["000"%char].

(** What [computeVersion] writes to the hash for one rule. *)
Definition version_bytes_rule (r : CompiledRule) : gostring :=
  writeLen (cr_Ref r) ++ writeLen (cr_Host r) ++
  flag_byte (cr_Wildcard r) ++ flag_byte (cr_AllowPlaintext r) ++
  concat (map writeLen (sort_Strings (cr_Methods r))) ++
  concat (map (fun p => flag_byte (cp_Exact p) ++ writeLen (cp_Value p)) (cr_Paths r)) ++
  match cr_Credential r with
  | None => []
  | Some c =>
      writeLen (Provider c) ++ writeLen (Resource c) ++
      concat (map writeLen (sort_Strings (Scopes c)))
  end.

Definition version_bytes (rs : list CompiledRule) : gostring :=
  concat (map version_bytes_rule rs).

Definition computeVersion `{Sha256} (rs : list CompiledRule) : gostring :=
  sha256_hex (version_bytes rs).

(** Apply a fallible step to every element, stopping at the first error. *)
Fixpoint traverse {E A B} (f : A -> result E B) (l : list A) : result E (list B) :=
  match l with
  | [] => Ok []
  | x :: l' => let? y := f x in let? ys := traverse f l' in Ok (y :: ys)
  end.

Section Compiler.
Context `{U : Unicode} `{S : Sha256} `{O : SortSlice}.

Definition rule_ref (ns pName rName : gostring) : gostring :=
  ns ++ "/"%char :: pName ++ "/"%char :: rName.

Definition compile_path (ref : gostring) (pm : PathMatcher) : result compile_error CompiledPath :=
  match CanonicalizePath (pm_Value pm) with
  | Err e => Err (InvalidPath ref (pm_Value pm) e)
  | Ok canon => Ok {| cp_Exact := str_eqb (pm_Type pm) PathTypeExact; cp_Value := canon |}
  end.

(** The body of [Compile]'s inner loop. *)
Definition compile_rule (ns pName : gostring) (r : EgressRule) : result compile_error CompiledRule :=
  let ref := rule_ref ns pName (er_Name r) in
  if negb (str_eqb (er_Effect r) "") && negb (EqualFold (er_Effect r) "Allow")
  then Err (UnsupportedEffect ref (er_Effect r))
  else
    let host := ToLower (er_Host r) in
    let wildcard := HasPrefix host "*." in
    let methods := match er_Match r with Some m => rm_Methods m | None => [] end in
    let? paths := traverse (compile_path ref)
                    (match er_Match r with Some m => rm_Paths m | None => [] end) in
    Ok {| cr_Ref := ref; cr_Host := host; cr_Wildcard := wildcard;
          cr_Methods := methods; cr_Paths := paths;
          cr_AllowPlaintext := er_AllowPlaintext r;
          cr_Credential := er_Credential r;
          cr_Rank := {| HostExact := negb wildcard;
                        MethodCount := Z.of_nat (length methods);
                        ConstraintRank := 0;
                        TieBreak := ref |} |}.

Definition rule_less (a b : CompiledRule) : bool := compareRuleRank (cr_Rank a) (cr_Rank b) <? 0.

(** The rules of a policy paired with its namespace and name, in source order. *)
Definition policy_rules {L} (ps : list (AkshPolicy L)) : list (gostring * gostring * EgressRule) :=
  concat (map (fun p => map (fun r => (ap_Namespace p, ap_Name p, r)) (ap_Rules p)) ps).

Definition Compile {L} (policies : list (AkshPolicy L)) : result compile_error compiledSnapshot :=
  let? rs := traverse (fun '(ns, n, r) => compile_rule ns n r) (policy_rules policies) in
  if (maxTotalRules <? length rs)%nat then Err (TooManyRules (length rs))
  else
    let sorted := sort_slice rule_less rs in
    Ok {| version := computeVersion sorted; rules := sorted |}.
End Compiler.

(** ** The static order *)

(** Integer key of a rank: an exact host before a wildcard, some methods before
    none, fewer methods before more, then the reserved rank and the reference. *)
Definition method_key (n : Z) : list Z := [(if n =? 0 then 1 else 0); n].
Definition rule_key (a : RuleRank) : list Z :=
  [(if HostExact a then 0 else 1)] ++ method_key (MethodCount a) ++ [ConstraintRank a] ++
  map code (TieBreak a).

Lemma compare_str_key s t : compare_str s t = compareZ (map code s) (map code t).
Proof.
  revert t; induction s as [|a s IH]; intros [|b t]; simpl; try done.
  destruct (Z.compare (code a) (code b)); auto.
Qed.

Lemma sign_Compare s t : sign (Compare s t) = compareZ (map code s) (map code t).
Proof. rewrite <- compare_str_key. unfold Compare. by destruct (compare_str s t). Qed.

Lemma sign_sub x y : sign (x - y) = Z.compare x y.
Proof. unfold sign. destruct (Z.compare_spec (x - y) 0), (Z.compare_spec x y); try lia; done. Qed.

(** Both rank comparisons test the method counts the same way. *)
Lemma method_key_compare x y (rest : Z) c :
  sign rest = c ->
  sign (if negb (x =? y) then if x =? 0 then 1 else if y =? 0 then -1 else x - y else rest)
  = match compareZ (method_key x) (method_key y) with Eq => c | d => d end.
Proof.
  intros <-. unfold method_key. destruct (Z.eqb_spec x y) as [->|Hne].
  - simpl. by rewrite !Z.compare_refl.
  - simpl. destruct (Z.eqb_spec x 0), (Z.eqb_spec y 0); simpl; [lia|done|done|].
    rewrite sign_sub. destruct (Z.compare_spec x y); [lia|done|done].
Qed.

Lemma compareRuleRank_key a b : sign (compareRuleRank a b) = compareZ (rule_key a) (rule_key b).
Proof.
  unfold compareRuleRank, rule_key. rewrite !compareZ_app by done. simpl compareZ at 1.
  destruct (HostExact a), (HostExact b); simpl; try done; symmetry; symmetry.
  all: apply method_key_compare; simpl; destruct (Z.eqb_spec (ConstraintRank a) (ConstraintRank b)) as [->|?]; simpl.
  all: try (rewrite Z.compare_refl; apply sign_Compare).
  all: rewrite sign_sub; destruct (Z.compare_spec (ConstraintRank a) (ConstraintRank b)); [lia|done|done].
Qed.

Lemma rule_key_tie a b : rule_key a = rule_key b -> TieBreak a = TieBreak b.
Proof.
  intros H. apply (f_equal (drop 4)) in H. cbn in H.
  apply compare_str_eq. rewrite compare_str_key. by apply compareZ_eq.
Qed.

(** A [less] that agrees with a key comparison is a strict weak order. *)
Lemma key_strict_weak_order {A} (less : A -> A -> bool) (key : A -> list Z) :
  (forall x y, less x y = true <-> compareZ (key x) (key y) = Lt) -> StrictWeakOrder less.
Proof.
  intros H.
  assert (forall x y, less x y = false <-> compareZ (key x) (key y) <> Lt) as Hf
    by (intros; rewrite <- not_true_iff_false, H; done).
  split.
  - intros x. apply Hf. by rewrite (proj2 (compareZ_eq _ _) eq_refl).
  - intros x y z. rewrite !H. apply compareZ_lt_trans.
  - intros x y z. rewrite !Hf. intros Hxy Hyz Hxz.
    destruct (compareZ (key x) (key y)) eqn:E; [|done|].
    + apply compareZ_eq in E. by rewrite E in Hxz.
    + apply Hyz. eapply compareZ_lt_trans; [|exact Hxz]. by rewrite compareZ_antisym, E.
Qed.

Lemma ltb_sign z : (z <? 0) = true <-> sign z = Lt.
Proof. rewrite Z.ltb_lt. unfold sign. destruct (Z.compare_spec z 0); split; intros; try lia; done. Qed.

Lemma rule_less_swo : StrictWeakOrder rule_less.
Proof.
  apply (key_strict_weak_order _ (fun r => rule_key (cr_Rank r))).
  intros x y. unfold rule_less. by rewrite ltb_sign, compareRuleRank_key.
Qed.

(** ** What a successful compilation guarantees *)

Lemma traverse_Forall2 {E A B} (f : A -> result E B) l ys :
  traverse f l = Ok ys <-> Forall2 (fun x y => f x = Ok y) l ys.
Proof.
  split.
  - revert ys; induction l as [|x l IH]; intros ys; simpl; [naive_solver|].
    destruct (f x) as [y|] eqn:Hx; simpl; [|done].
    destruct (traverse f l) as [zs|]; simpl; [|done]. intros ?; simplify_eq. by constructor; [|apply IH].
  - induction 1 as [|x y l k Hxy _ IH]; simpl; [done|]. by rewrite Hxy, IH.
Qed.

Lemma traverse_perm {E A B} (f : A -> result E B) l l' ys :
  l ≡ₚ l' -> traverse f l = Ok ys -> exists ys', traverse f l' = Ok ys' /\ ys ≡ₚ ys'.
Proof.
  intros Hp H%traverse_Forall2.
  destruct (Permutation_Forall2 Hp H) as (ys' & Hperm & H'%traverse_Forall2). eauto.
Qed.

Lemma policy_rules_perm {L} (ps qs : list (AkshPolicy L)) :
  ps ≡ₚ qs -> policy_rules ps ≡ₚ policy_rules qs.
Proof. intros H. unfold policy_rules. by rewrite H. Qed.

Section CompileFacts.
Context `{U : Unicode} `{S : Sha256}.

Lemma compile_rule_ok ns n r cr :
  compile_rule ns n r = Ok cr ->
  (er_Effect r = [] \/ EqualFold (er_Effect r) "Allow" = true) /\
  cr_Ref cr = rule_ref ns n (er_Name r) /\ cr_Host cr = ToLower (er_Host r) /\
  cr_Wildcard cr = HasPrefix (cr_Host cr) "*." /\
  Forall (fun p => canonical (cp_Value p)) (cr_Paths cr) /\
  cr_AllowPlaintext cr = er_AllowPlaintext r /\ cr_Credential cr = er_Credential r /\
  cr_Rank cr = {| HostExact := negb (cr_Wildcard cr);
                  MethodCount := Z.of_nat (length (cr_Methods cr));
                  ConstraintRank := 0; TieBreak := cr_Ref cr |}.
Proof.
  unfold compile_rule. unfold str_eqb. case_bool_decide as He; simpl.
  2: destruct (EqualFold (er_Effect r) "Allow") eqn:Hf; simpl; [|done].
  all: destruct (traverse _ _) as [paths|] eqn:Hp; simpl; [|done].
  all: intros ?; simplify_eq; simpl; split_and!; try done; [by left + by right|].
  all: apply traverse_Forall2 in Hp; clear -Hp; induction Hp as [|pm p l k Hpm _ IH]; constructor; [|done].
  all: unfold compile_path in Hpm.
  all: destruct (CanonicalizePath (pm_Value pm)) eqn:Hc; simplify_eq; simpl.
  all: by eapply canonicalize_canonical.
Qed.

(** Sorting rules with pairwise distinct references has one result. *)
Lemma rule_sort_unique (l k : list CompiledRule) :
  StronglySorted (not_less rule_less) l -> StronglySorted (not_less rule_less) k -> l ≡ₚ k ->
  Forall (fun r => TieBreak (cr_Rank r) = cr_Ref r) l -> NoDup (map cr_Ref l) -> l = k.
Proof.
  intros Hl Hk Hp Ht Hd. apply (StronglySorted_unique_strong (not_less rule_less)); [|done..].
  intros x y Hx Hy Hxy Hyx. rewrite <- Hp in Hy.
  unfold not_less, rule_less in *.
  assert (compareZ (rule_key (cr_Rank x)) (rule_key (cr_Rank y)) = Eq) as Hk'.
  { destruct (compareZ _ _) eqn:E; [done| |].
    - rewrite <- compareRuleRank_key, <- ltb_sign in E. congruence.
    - rewrite compareZ_antisym in E. destruct (compareZ (rule_key (cr_Rank y)) _) eqn:E'; [done| |done].
      rewrite <- compareRuleRank_key, <- ltb_sign in E'. congruence. }
  apply compareZ_eq, rule_key_tie in Hk'. rewrite Forall_forall in Ht.
  rewrite (Ht x Hx), (Ht y Hy) in Hk'.
  apply list_elem_of_lookup in Hx as [i Hi]. apply list_elem_of_lookup in Hy as [j Hj].
  assert (i = j) as ->; [|congruence].
  eapply (NoDup_lookup (map cr_Ref l)); [done| |]; rewrite list_lookup_fmap;
    [by rewrite Hi|by rewrite Hj; simpl; f_equal].
Qed.
End CompileFacts.

Section CompileTheorems.
Context `{U : Unicode} `{S : Sha256}.

(** A snapshot produced by the compiler holds exactly the rules of the policies
    that were given, each allowed, lower-cased, with canonical paths and the rank
    of its own fields, sorted from most to least specific and at most 2048 of them,
    whatever sorting algorithm is used. *)
Theorem Compile_ok {L} {O : SortSlice} (ps : list (AkshPolicy L)) snap :
  Compile ps = Ok snap ->
  (exists rs, rules snap ≡ₚ rs /\
     Forall2 (fun '(ns, n, r) cr => compile_rule ns n r = Ok cr) (policy_rules ps) rs) /\
  Forall (fun '(_, _, r) => er_Effect r = [] \/ EqualFold (er_Effect r) "Allow" = true) (policy_rules ps) /\
  Forall (fun cr => cr_Wildcard cr = HasPrefix (cr_Host cr) "*." /\
                    Forall (fun p => canonical (cp_Value p)) (cr_Paths cr) /\
                    TieBreak (cr_Rank cr) = cr_Ref cr) (rules snap) /\
  StronglySorted (not_less rule_less) (rules snap) /\
  (length (rules snap) <= maxTotalRules)%nat /\
  version snap = computeVersion (rules snap).
Proof.
  unfold Compile. destruct (traverse _ _) as [rs|] eqn:Ht; simpl; [|done].
  apply traverse_Forall2 in Ht. destruct (_ <? _)%nat eqn:Hn; [done|]. apply Nat.ltb_ge in Hn.
  intros ?; simplify_eq; simpl. pose proof (sort_slice_perm _ rule_less rs) as Hperm.
  split_and!.
  - exists rs. split; [done|]. eapply Forall2_impl; [exact Ht|]. by intros [[ns n] r] cr.
  - clear -Ht. induction Ht as [|[[ns n] r] cr l k H _ IH]; constructor; [|done].
    by apply compile_rule_ok in H as [? _].
  - rewrite Hperm. clear -Ht. induction Ht as [|[[ns n] r] cr l k H _ IH]; constructor; [|done].
    apply compile_rule_ok in H as (_ & _ & _ & ? & ? & _ & _ & ->). done.
  - apply sort_slice_sorted, rule_less_swo.
  - by rewrite Hperm.
  - done.
Qed.

(** The snapshot does not depend on the order in which policies are delivered
    nor on how the unstable sort arranges ties, provided rule references are
    distinct. *)
Theorem Compile_order_independent {L} (O O' : SortSlice) (ps qs : list (AkshPolicy L)) snap :
  ps ≡ₚ qs -> Compile (O := O) ps = Ok snap -> NoDup (map cr_Ref (rules snap)) ->
  Compile (O := O') qs = Ok snap.
Proof.
  intros Hp. unfold Compile. destruct (traverse _ (policy_rules ps)) as [rs|] eqn:Ht; simpl; [|done].
  destruct (traverse_perm _ _ _ _ (policy_rules_perm _ _ Hp) Ht) as (rs' & -> & Hrs). simpl.
  rewrite <- (Permutation_length Hrs). destruct (_ <? _)%nat; [done|].
  intros ?; simplify_eq; simpl. intros Hd.
  assert (@sort_slice O _ rule_less rs = @sort_slice O' _ rule_less rs') as <-; [|done].
  apply rule_sort_unique; [apply sort_slice_sorted, rule_less_swo..| |  |done].
  - by rewrite !sort_slice_perm.
  - rewrite sort_slice_perm. apply traverse_Forall2 in Ht. clear -Ht.
    induction Ht as [|[[ns n] r] cr l k H _ IH]; constructor; [|done].
    apply compile_rule_ok in H as (_ & _ & _ & _ & _ & _ & _ & ->). done.
Qed.
End CompileTheorems.

(** ** Concrete policies *)

Definition sample_rule (name host : gostring) (ms : list gostring) (ps : list PathMatcher)
    (c : option CredentialSelector) : EgressRule :=
  {| er_Name := name; er_Host := host; er_Match := Some {| rm_Methods := ms; rm_Paths := ps |};
     er_AllowPlaintext := false; er_Credential := c; er_Effect := [] |}.
Definition sample_policy (name : gostring) (rs : list EgressRule) : AkshPolicy unit :=
  {| ap_Namespace := "ns"; ap_Name := name; ap_Selector := None; ap_Rules := rs |}.
Definition graph_credential : CredentialSelector :=
  {| Provider := "entra"; Resource := "https://graph.example"; Scopes := [bs ".default"] |}.
Definition sample_policies : list (AkshPolicy unit) :=
  [sample_policy "wild" [sample_rule "any" "*.Example.com" [] [] None];
   sample_policy "api" [sample_rule "read" "api.example.com" [bs "GET"]
                          [{| pm_Type := "Prefix"; pm_Value := "/v1/./users" |}] (Some graph_credential)]].

(** A stand-in digest for evaluation. *)
Definition sha_id : Sha256 := fun s => s.

Definition sample_snapshot : compiledSnapshot :=
  match Compile (U := ascii_only) (S := sha_id) (O := merge_sort_slice) sample_policies with
  | Ok s => s | Err _ => {| version := []; rules := [] |} end.

Lemma Compile_ok_witness :
  Compile (U := ascii_only) (S := sha_id) (O := merge_sort_slice) sample_policies = Ok sample_snapshot /\
  map cr_Ref (rules sample_snapshot) = [bs "ns/api/read"; bs "ns/wild/any"] /\
  (length (rules sample_snapshot) <= maxTotalRules)%nat.
Proof.
  split; [vm_compute; reflexivity|]. split; [vm_compute; reflexivity|].
  pose proof (Compile_ok (U := ascii_only) (S := sha_id) (O := merge_sort_slice) sample_policies sample_snapshot) as H.
  apply H. vm_compute. reflexivity.
Defined.

Lemma Compile_order_independent_witness :
  Compile (U := ascii_only) (S := sha_id) (O := merge_sort_slice) (rev sample_policies) = Ok sample_snapshot.
Proof.
  apply (Compile_order_independent (U := ascii_only) (S := sha_id) merge_sort_slice merge_sort_slice sample_policies).
  - apply Permutation_rev.
  - vm_compute. reflexivity.
  - apply (bool_decide_unpack _). vm_compute. exact I.
Defined.

(** ** The content version *)

(** the version depends on the set of methods and scopes of a rule, not on the
    order in which they are listed. *)
Lemma version_methods_scopes_order `{S : Sha256} pre post r r' :
  cr_Ref r = cr_Ref r' -> cr_Host r = cr_Host r' -> cr_Wildcard r = cr_Wildcard r' ->
  cr_AllowPlaintext r = cr_AllowPlaintext r' -> cr_Paths r = cr_Paths r' ->
  cr_Methods r ≡ₚ cr_Methods r' ->
  option_Forall2 (fun c c' => Provider c = Provider c' /\ Resource c = Resource c' /\ Scopes c ≡ₚ Scopes c')
    (cr_Credential r) (cr_Credential r') ->
  computeVersion (pre ++ r :: post) = computeVersion (pre ++ r' :: post).
Proof.
  intros H1 H2 H3 H4 H5 Hm Hc. unfold computeVersion, version_bytes.
  assert (version_bytes_rule r = version_bytes_rule r') as E.
  2: by rewrite !map_app; cbn [map]; rewrite E.
  unfold version_bytes_rule. rewrite H1, H2, H3, H4, H5, Hm.
  destruct Hc as [c c' (-> & -> & Hs)|]; [|done]. by rewrite Hs.
Qed.


(** Two policies for the same host: one allows two methods without a credential,
    the other allows every method and names a credential whose fields spell the
    same bytes. *)
Definition methods_policy : list (AkshPolicy unit) :=
  [sample_policy "p" [sample_rule "r" "api.example.com" [bs "GET"; bs "POST"] [] None]].
Definition credential_policy : list (AkshPolicy unit) :=
  [sample_policy "p" [sample_rule "r" "api.example.com" []  []
     (Some {| Provider := "GET"; Resource := "POST"; Scopes := [] |})]].

(** The digest is not a fingerprint of every field.  The list lengths are not
    written to the hash, so these two policies compile to different rules with the
    same version for every digest function. *)
Theorem version_collision `{S : Sha256} :
  exists s1 s2,
    Compile (U := ascii_only) (O := merge_sort_slice) methods_policy = Ok s1 /\
    Compile (U := ascii_only) (O := merge_sort_slice) credential_policy = Ok s2 /\
    map cr_Methods (rules s1) <> map cr_Methods (rules s2) /\
    map cr_Credential (rules s1) <> map cr_Credential (rules s2) /\
    version s1 = version s2.
Proof. eexists _, _. split; [vm_compute; reflexivity|]. split; [vm_compute; reflexivity|]. done. Qed.
