(* ===== verification/Match.v ===== *)
(** * [internal/policy/match.go]: evaluating a request against a snapshot

    Host, transport, method and path matching, the request-time rank, selection
    of the winning rule and the ambiguity flag. *)

From S2P Require Import Prelude GoStrings Canonicalize Compile.
#[local] Open Scope Z_scope.

Record RequestFacts := {
  rf_Identity : gostring;
  rf_Method : gostring;
  rf_Path : gostring;
  rf_Port : Z;
  rf_Transport : Transport
}.

Record MatchResult := {
  Matched : bool;
  PolicyRef : gostring;
  Version : gostring;
  mr_Credential : option CredentialSelector;
  Ambiguous : bool
}.

(** The zero value: no rule matched. *)
Definition no_match : MatchResult :=
  {| Matched := false; PolicyRef := []; Version := []; mr_Credential := None; Ambiguous := false |}.

(** [matchPrefix].  The last byte of an empty prefix does not exist (the index
    expression would panic); compiled prefixes start with a slash. *)
Definition matchPrefix (prefix path : gostring) : bool :=
  if negb (HasPrefix path prefix) then false
  else if (length path =? length prefix)%nat then true
  else if bool_decide (last prefix = Some "/"%char) then true
  else bool_decide (path !! length prefix = Some "/"%char).

(** One iteration of the loop of [matchPaths] on [(bestExact, bestLen, matched)]. *)
Definition matchPaths_step (reqPath : gostring) (acc : bool * Z * bool) (p : CompiledPath) : bool * Z * bool :=
  let '(bestExact, bestLen, matched) := acc in
  let len := Z.of_nat (length (cp_Value p)) in
  if cp_Exact p then
    if str_eqb reqPath (cp_Value p)
    then (true, (if bestLen <? len then len else bestLen), true)
    else acc
  else if matchPrefix (cp_Value p) reqPath
    then (bestExact, (if (bestLen <? len) && negb bestExact then len else bestLen), true)
    else acc.

Definition matchPaths (paths : list CompiledPath) (reqPath : gostring) : bool * Z * bool :=
  match paths with
  | [] => (false, 0, true)
  | _ => fold_left (matchPaths_step reqPath) paths (false, -1, false)
  end.

Definition compareMatchRank (a b : MatchRank) : Z :=
  if negb (eqb (HostExact (Static a)) (HostExact (Static b))) then
    if HostExact (Static a) then -1 else 1
  else if negb (eqb (PathExact a) (PathExact b)) then
    if PathExact a then -1 else 1
  else if negb (PathLen a =? PathLen b) then PathLen b - PathLen a
  else if negb (MethodCount (Static a) =? MethodCount (Static b)) then
    if MethodCount (Static a) =? 0 then 1
    else if MethodCount (Static b) =? 0 then -1
    else MethodCount (Static a) - MethodCount (Static b)
  else if negb (ConstraintRank (Static a) =? ConstraintRank (Static b)) then
    ConstraintRank (Static a) - ConstraintRank (Static b)
  else Compare (TieBreak (Static a)) (TieBreak (Static b)).

(** Scopes are compared as sorted lists. *)
Definition credentialEqual (a b : option CredentialSelector) : bool :=
  match a, b with
  | None, None => true
  | Some a, Some b =>
      str_eqb (Provider a) (Provider b) && str_eqb (Resource a) (Resource b) &&
      (length (Scopes a) =? length (Scopes b))%nat &&
      bool_decide (sort_Strings (Scopes a) = sort_Strings (Scopes b))
  | _, _ => false
  end.

Section Matcher.
Context `{U : Unicode}.

(** [matchHost].  [r.Host[1:]] is taken only for wildcard rules, whose host starts
    with "*.". *)
Definition matchHost (r : CompiledRule) (identity : gostring) : bool :=
  let identity := ToLower identity in
  if cr_Wildcard r then
    let suffix := drop 1 (cr_Host r) in
    if negb (HasSuffix identity suffix) then false
    else
      let prefix := take (length identity - length suffix) identity in
      (0 <? length prefix)%nat && negb (ContainsByte prefix ".")
  else str_eqb identity (cr_Host r).

Definition containsMethod (methods : list gostring) (method : gostring) : bool :=
  existsb (fun m => EqualFold m method) methods.

Record candidate := { cand_rule : CompiledRule; cand_rank : MatchRank }.

(** One iteration of the candidate loop: [None] is [continue]. *)
Definition candidate_of (req : RequestFacts) (r : CompiledRule) : option candidate :=
  if negb (matchHost r (rf_Identity req)) then None
  else if bool_decide (rf_Transport req = TransportPlaintext) && negb (cr_AllowPlaintext r) then None
  else if (0 <? length (cr_Methods r))%nat && negb (containsMethod (cr_Methods r) (rf_Method req)) then None
  else
    let '(pathExact, pathLen, pathMatched) := matchPaths (cr_Paths r) (rf_Path req) in
    if (0 <? length (cr_Paths r))%nat && negb pathMatched then None
    else Some {| cand_rule := r;
                 cand_rank := {| Static := cr_Rank r; PathExact := pathExact; PathLen := pathLen |} |}.

Definition candidate_less (a b : candidate) : bool := compareMatchRank (cand_rank a) (cand_rank b) <? 0.

Definition Match (snap : compiledSnapshot) (req : RequestFacts) : MatchResult :=
  match sort_stable candidate_less (omap (candidate_of req) (rules snap)) with
  | [] => no_match
  | winner :: others =>
      {| Matched := true;
         PolicyRef := cr_Ref (cand_rule winner);
         Version := version snap;
         mr_Credential := cr_Credential (cand_rule winner);
         Ambiguous := existsb (fun c => negb (credentialEqual (cr_Credential (cand_rule winner))
                                                (cr_Credential (cand_rule c)))) others |}
  end.
End Matcher.

(** ** The request-time order *)

Definition match_key (a : MatchRank) : list Z :=
  [(if HostExact (Static a) then 0 else 1); (if PathExact a then 0 else 1); - PathLen a] ++
  method_key (MethodCount (Static a)) ++ [ConstraintRank (Static a)] ++ map code (TieBreak (Static a)).

Lemma compareMatchRank_key a b : sign (compareMatchRank a b) = compareZ (match_key a) (match_key b).
Proof.
  unfold compareMatchRank, match_key. rewrite !compareZ_app by done.
  simpl compareZ at 1. destruct (HostExact (Static a)), (HostExact (Static b)); simpl; try done.
  all: destruct (PathExact a), (PathExact b); simpl; try done.
  all: destruct (Z.eqb_spec (PathLen a) (PathLen b)) as [->|Hne]; simpl;
    [rewrite Z.compare_refl
    |rewrite sign_sub; destruct (Z.compare_spec (PathLen b) (PathLen a)), (Z.compare_spec (- PathLen a) (- PathLen b)); try lia; done].
  all: apply method_key_compare; simpl;
    destruct (Z.eqb_spec (ConstraintRank (Static a)) (ConstraintRank (Static b))) as [->|?]; simpl.
  all: try (rewrite Z.compare_refl; apply sign_Compare).
  all: rewrite sign_sub; destruct (Z.compare_spec (ConstraintRank (Static a)) (ConstraintRank (Static b))); [lia|done|done].
Qed.

Lemma match_key_tie a b : match_key a = match_key b -> TieBreak (Static a) = TieBreak (Static b).
Proof.
  intros H. apply (f_equal (drop 6)) in H. cbn in H.
  apply compare_str_eq. rewrite compare_str_key. by apply compareZ_eq.
Qed.

Lemma candidate_less_swo : StrictWeakOrder candidate_less.
Proof.
  apply (key_strict_weak_order _ (fun c => match_key (cand_rank c))).
  intros x y. unfold candidate_less. by rewrite ltb_sign, compareMatchRank_key.
Qed.

(** ** Host patterns *)

(** A wildcard rule "*.d" matches exactly the names made of one non-empty label
    without a dot, a dot and [d]; any other rule matches its own host and nothing else. *)
Theorem matchHost_spec `{Unicode} r id :
  cr_Wildcard r = HasPrefix (cr_Host r) "*." ->
  matchHost r id = true <->
  (if cr_Wildcard r
   then exists d label, cr_Host r = bs "*." ++ d /\ ToLower id = label ++ "."%char :: d /\
                        label <> [] /\ "."%char ∉ label
   else ToLower id = cr_Host r).
Proof.
  unfold matchHost. destruct (cr_Wildcard r) eqn:Hw; [|intros _; apply str_eqb_eq].
  intros Hp. symmetry in Hp. apply HasPrefix_spec in Hp as [d Hd]. rewrite Hd.
  change (drop 1 (bs "*." ++ d)) with ("."%char :: d).
  destruct (HasSuffix (ToLower id) ("."%char :: d)) eqn:Hs; simpl.
  - apply HasSuffix_spec in Hs as [label El]. rewrite El, length_app. simpl.
    replace (length label + S (length d) - S (length d))%nat with (length label) by lia.
    rewrite take_app_length, andb_true_iff, Nat.ltb_lt, negb_true_iff, ContainsByte_false. split.
    + intros [Hl Hn]. exists d, label. split_and!; try done. by destruct label; [simpl in Hl; lia|].
    + intros (d' & l' & Ed & El' & Hl & Hn). injection Ed as <-.
      apply app_inv_tail in El' as <-. split; [destruct label; [done|simpl; lia]|done].
  - split; [done|]. intros (d' & l' & Ed & El & _). injection Ed as <-.
    assert (HasSuffix (ToLower id) ("."%char :: d) = true) by (apply HasSuffix_spec; eauto). congruence.
Qed.

Lemma matchHost_spec_witness :
  exists r, cr_Wildcard r = true /\ matchHost (U := ascii_only) r "API.example.com" = true.
Proof.
  pose (r := {| cr_Ref := []; cr_Host := "*.example.com"; cr_Wildcard := true; cr_Methods := []; cr_Paths := [];
                cr_AllowPlaintext := false; cr_Credential := None;
                cr_Rank := {| HostExact := false; MethodCount := 0; ConstraintRank := 0; TieBreak := [] |} |}).
  exists r. split; [reflexivity|].
  apply (proj2 (matchHost_spec (H := ascii_only) r "API.example.com" eq_refl)).
  exists (bs "example.com"), (bs "api"). split_and!; [reflexivity|vm_compute; reflexivity|done|].
  apply (bool_decide_unpack _). vm_compute. exact I.
Defined.

(** ** Path prefixes *)

(** A prefix entry matches by whole segments.  Without a trailing slash it
    matches the paths whose list of segments it starts; with one it matches the
    paths strictly below it. *)
Theorem matchPrefix_segments p path :
  p <> [] -> last p <> Some "/"%char ->
  (matchPrefix p path = true <-> Split p "/" `prefix_of` Split path "/") /\
  (matchPrefix (p ++ ["/"%char]) path = true <->
     Split p "/" `prefix_of` Split path "/" /\ path <> p).
Proof.
  intros Hp Hl. rewrite Split_prefix_of. unfold matchPrefix. split.
  - destruct (HasPrefix path p) eqn:E; simpl.
    + apply HasPrefix_spec in E as [t ->]. rewrite (bool_decide_eq_false_2 _ Hl), length_app.
      rewrite lookup_app_r, Nat.sub_diag by done. destruct t as [|c t]; simpl.
      * rewrite Nat.add_0_r, Nat.eqb_refl, app_nil_r. naive_solver.
      * rewrite (proj2 (Nat.eqb_neq _ _)) by lia. rewrite bool_decide_eq_true. split.
        -- intros [= ->]. right. by exists t.
        -- intros [E|[r E]]; [apply (f_equal length) in E; rewrite length_app in E; simpl in E; lia|].
           by apply app_inv_head in E as [= -> ->].
    + split; [done|]. assert (forall t, path <> p ++ t) as Hno.
      { intros t ->. by rewrite HasPrefix_app in E. }
      intros [->|[r ->]]; [by destruct (Hno []); rewrite app_nil_r|naive_solver].
  - destruct (HasPrefix path (p ++ ["/"%char])) eqn:E; simpl.
    + apply HasPrefix_spec in E as [t ->]. rewrite last_snoc, bool_decide_eq_true_2 by done.
      split; [|by destruct (_ =? _)%nat]. intros _. split; [right; exists t; by rewrite <- app_assoc|].
      intros E%(f_equal length). rewrite !length_app in E. simpl in E. lia.
    + split; [done|]. intros [[->|[r ->]] Hne]; [done|].
      rewrite (cons_middle "/"%char p r), app_assoc, HasPrefix_app in E. done.
Qed.

Lemma matchPrefix_segments_witness :
  matchPrefix "/api" "/api/v1" = true /\ matchPrefix "/api" "/apix" = false /\
  matchPrefix "/api/" "/api/v1" = true.
Proof.
  split_and!.
  - apply (proj2 (proj1 (matchPrefix_segments "/api" "/api/v1" ltac:(done) ltac:(vm_compute; congruence)))).
    by eexists [bs "v1"].
  - apply not_true_iff_false. intros H.
    apply (proj1 (proj1 (matchPrefix_segments "/api" "/apix" ltac:(done) ltac:(vm_compute; congruence)))) in H.
    by destruct H as [k Hk].
  - apply (proj2 (proj2 (matchPrefix_segments "/api" "/api/v1" ltac:(done) ltac:(vm_compute; congruence)))).
    split; [by eexists [bs "v1"]|done].
Defined.

(** ** Selection of the winning rule *)

Section Selection.
Context `{U : Unicode}.

(** [r] is eligible for the request, with rank [k]. *)
Definition eligible (req : RequestFacts) (r : CompiledRule) (k : MatchRank) : Prop :=
  candidate_of req r = Some {| cand_rule := r; cand_rank := k |}.

Lemma candidate_of_rule req r c :
  candidate_of req r = Some c -> cand_rule c = r /\ Static (cand_rank c) = cr_Rank r.
Proof.
  unfold candidate_of. destruct (matchPaths _ _) as [[e n] m]. destruct (negb (matchHost _ _)); [done|].
  do 3 (destruct (_ && _); [done|]). by intros [= <-].
Qed.

Lemma candidates_eligible req (rs : list CompiledRule) c :
  c ∈ omap (candidate_of req) rs <-> cand_rule c ∈ rs /\ eligible req (cand_rule c) (cand_rank c).
Proof.
  rewrite list_elem_of_omap. unfold eligible. split.
  - intros (r & Hr & Hc). destruct (candidate_of_rule _ _ _ Hc) as [<- _]. split; [done|]. rewrite Hc. by destruct c.
  - intros [Hr Hc]. exists (cand_rule c). split; [done|]. rewrite Hc. by destruct c.
Qed.

(** C13: the matcher answers "no match" exactly when no rule is eligible; otherwise it
    reports an eligible rule that no eligible rule precedes in the documented order,
    with the credential of that rule, and flags the match as ambiguous exactly when
    an eligible rule, the runner-up or any later one, selects a different
    credential.  A tie that only the rule's reference breaks is therefore not flagged
    when the credentials agree, unlike the design document has it, and a match whose
    runner-up selects the same credential can be flagged, unlike the comments of the
    code have it ([tie_break_not_ambiguous], [ambiguous_behind_runner_up]). *)
Theorem Match_correct snap req :
  (Matched (Match snap req) = false ->
     Match snap req = no_match /\ forall r k, r ∈ rules snap -> ~ eligible req r k) /\
  (Matched (Match snap req) = true ->
     exists r k, r ∈ rules snap /\ eligible req r k /\
       PolicyRef (Match snap req) = cr_Ref r /\ mr_Credential (Match snap req) = cr_Credential r /\
       Version (Match snap req) = version snap /\
       (forall r' k', r' ∈ rules snap -> eligible req r' k' -> 0 <= compareMatchRank k' k) /\
       (Ambiguous (Match snap req) = true <->
          exists r' k', r' ∈ rules snap /\ eligible req r' k' /\
            credentialEqual (cr_Credential r) (cr_Credential r') = false)).
Proof.
  unfold Match. pose proof (sort_stable_perm candidate_less (omap (candidate_of req) (rules snap))) as Hp.
  pose proof (sort_stable_sorted candidate_less (omap (candidate_of req) (rules snap)) candidate_less_swo) as Hs.
  destruct (sort_stable _ _) as [|w others]; simpl; (split; [|]); try done.
  - intros _. split; [done|]. intros r k Hr He.
    assert ({| cand_rule := r; cand_rank := k |} ∈ omap (candidate_of req) (rules snap)) as Hin
      by (by apply candidates_eligible).
    rewrite <- Hp in Hin. by apply elem_of_nil in Hin.
  - intros _. assert (forall c, c ∈ w :: others <-> cand_rule c ∈ rules snap /\ eligible req (cand_rule c) (cand_rank c)) as Hc
      by (intros c; rewrite Hp; apply candidates_eligible).
    destruct (proj1 (Hc w)) as [Hw He]; [left|].
    exists (cand_rule w), (cand_rank w). split_and!; try done.
    + intros r' k' Hr' He'. assert ({| cand_rule := r'; cand_rank := k' |} ∈ w :: others) as Hin by (by apply Hc).
      apply elem_of_cons in Hin as [<-|Hin].
      * simpl. pose proof (swo_irrefl _ candidate_less_swo {| cand_rule := r'; cand_rank := k' |}) as Hirr.
        unfold candidate_less in Hirr. simpl in Hirr. lia.
      * apply StronglySorted_inv in Hs as [_ Hs]. rewrite Forall_forall in Hs.
        specialize (Hs _ Hin). unfold not_less, candidate_less in Hs. simpl in Hs. lia.
    + assert (forall x, credentialEqual x x = true) as Hrefl.
      { intros [x|]; [|done]. simpl. unfold str_eqb.
        by rewrite !bool_decide_eq_true_2, Nat.eqb_refl by done. }
      rewrite existsb_exists. split.
      * intros (c & Hin%list_elem_of_In & Hne%negb_true_iff). exists (cand_rule c), (cand_rank c).
        destruct (proj1 (Hc c)) as [Hr' He']; [by right|done].
      * intros (r' & k' & Hr' & He' & Hne). exists {| cand_rule := r'; cand_rank := k' |}. simpl.
        split; [|by rewrite Hne]. apply list_elem_of_In.
        assert ({| cand_rule := r'; cand_rank := k' |} ∈ w :: others) as Hin by (by apply Hc).
        apply elem_of_cons in Hin as [<-|Hin]; [|done]. simpl in Hne. by rewrite Hrefl in Hne.
Qed.

(** Two candidates of equal rank carry the same tie break. *)
Lemma candidate_less_tie a b :
  candidate_less a b = false -> candidate_less b a = false ->
  TieBreak (Static (cand_rank a)) = TieBreak (Static (cand_rank b)).
Proof.
  unfold candidate_less. rewrite <- !not_true_iff_false, !ltb_sign, !compareMatchRank_key. intros Hab Hba.
  apply match_key_tie, compareZ_eq. rewrite (compareZ_antisym (match_key (cand_rank a))) in Hba.
  by destruct (compareZ (match_key (cand_rank a)) _).
Qed.

(** The verdict depends on the set of compiled rules only, not on the order the
    snapshot stores them in, as long as no two rules share a reference. *)
Theorem Match_order_independent snap snap' req :
  rules snap ≡ₚ rules snap' -> version snap = version snap' ->
  Forall (fun r => TieBreak (cr_Rank r) = cr_Ref r) (rules snap) -> NoDup (map cr_Ref (rules snap)) ->
  Match snap req = Match snap' req.
Proof.
  intros Hp Hv Ht Hd. unfold Match. rewrite <- Hv.
  assert (sort_stable candidate_less (omap (candidate_of req) (rules snap)) =
          sort_stable candidate_less (omap (candidate_of req) (rules snap'))) as ->; [|done].
  apply (StronglySorted_unique_strong (not_less candidate_less));
    [|apply sort_stable_sorted, candidate_less_swo..|by rewrite !sort_stable_perm, Hp].
  intros x y Hx Hy Hxy Hyx. rewrite sort_stable_perm in Hx, Hy. rewrite <- Hp in Hy.
  apply list_elem_of_omap in Hx as (r & Hr & Hx), Hy as (r' & Hr' & Hy).
  pose proof (candidate_less_tie _ _ Hyx Hxy) as Htie.
  rewrite (proj2 (candidate_of_rule _ _ _ Hx)), (proj2 (candidate_of_rule _ _ _ Hy)) in Htie.
  rewrite Forall_forall in Ht. rewrite (Ht r Hr), (Ht r' Hr') in Htie.
  enough (r = r') as -> by congruence.
  apply list_elem_of_lookup in Hr as [i Hi], Hr' as [j Hj].
  assert (i = j) as ->; [|congruence].
  eapply (NoDup_lookup (map cr_Ref (rules snap))); [done| |]; rewrite list_lookup_fmap;
    [by rewrite Hi|by rewrite Hj; simpl; f_equal].
Qed.
End Selection.

(** A request that both sample rules match; the more specific rule wins. *)
Definition sample_request : RequestFacts :=
  {| rf_Identity := "api.example.com"; rf_Method := "get"; rf_Path := "/v1/users/7"; rf_Port := 443;
     rf_Transport := TransportTLS |}.

Lemma Match_correct_witness :
  Matched (Match (U := ascii_only) sample_snapshot sample_request) = true /\
  PolicyRef (Match (U := ascii_only) sample_snapshot sample_request) = bs "ns/api/read" /\
  exists r k, r ∈ rules sample_snapshot /\ eligible (U := ascii_only) sample_request r k.
Proof.
  split_and!; [vm_compute; reflexivity..|].
  destruct (proj2 (Match_correct (U := ascii_only) sample_snapshot sample_request)) as (r & k & Hr & He & _).
  - vm_compute. reflexivity.
  - by exists r, k.
Defined.

Lemma Match_order_independent_witness :
  let snap' := {| rules := rev (rules sample_snapshot); version := version sample_snapshot |} in
  rules snap' <> rules sample_snapshot /\
  Match (U := ascii_only) sample_snapshot sample_request = Match (U := ascii_only) snap' sample_request.
Proof.
  split; [vm_compute; congruence|].
  apply (Match_order_independent (U := ascii_only)).
  - apply Permutation_rev.
  - reflexivity.
  - apply (bool_decide_unpack _). vm_compute. exact I.
  - apply (bool_decide_unpack _). vm_compute. exact I.
Defined.

(** Three rules for one host that differ in their references and credentials. *)
Definition tied_rule (ref : gostring) (cred : option CredentialSelector) : CompiledRule :=
  {| cr_Ref := ref; cr_Host := "api.example.com"; cr_Wildcard := false; cr_Methods := []; cr_Paths := [];
     cr_AllowPlaintext := false; cr_Credential := cred;
     cr_Rank := {| HostExact := true; MethodCount := 0; ConstraintRank := 0; TieBreak := ref |} |}.
Definition tied_snapshot (third : list CompiledRule) : compiledSnapshot :=
  {| rules := [tied_rule "ns/p/a" None; tied_rule "ns/p/b" None] ++ third; version := "v1" |}.

(** S2 (5.2.2) documents the flag as set when a tie of specificity was broken by the
    rule's reference; with equal credentials it is not. *)
Lemma tie_break_not_ambiguous :
  Matched (Match (U := ascii_only) (tied_snapshot []) sample_request) = true /\
  Ambiguous (Match (U := ascii_only) (tied_snapshot []) sample_request) = false.
Proof. vm_compute. split; reflexivity. Qed.

(** The comments document the flag as a comparison with the runner-up; any later
    candidate sets it as well. *)
Lemma ambiguous_behind_runner_up :
  let snap := tied_snapshot [tied_rule "ns/p/c" (Some {| Provider := "entra"; Resource := "r"; Scopes := [] |})] in
  map (fun c => cr_Ref (cand_rule c))
    (sort_stable candidate_less (omap (candidate_of (U := ascii_only) sample_request) (rules snap))) =
    [bs "ns/p/a"; bs "ns/p/b"; bs "ns/p/c"] /\
  cr_Credential (tied_rule "ns/p/a" None) = cr_Credential (tied_rule "ns/p/b" None) /\
  Ambiguous (Match (U := ascii_only) snap sample_request) = true.
Proof. vm_compute. split_and!; reflexivity. Qed.
