(* ===== verification/Credential.v ===== *)
(** * [internal/token]: credential selectors and their identities

    Selectors and their resolution to the broker's wire form
    ([credential_selector.go], [resolve.go], [entra/resolve.go]), the three
    credential digests ([credential_identity.go]) and the redacting value types
    ([secret.go], [token.go]). *)

From S2P Require Import Prelude GoStrings GoRuntime Compile.
#[local] Open Scope Z_scope.
#[local] Open Scope go_scope.

(** ** Redacted values *)

Module Redaction.
Definition redacted : gostring := "[REDACTED]".
Record Secret := { v : gostring }.
Definition NewSecret (s : gostring) : Secret := {| v := s |}.
Definition Reveal (s : Secret) : gostring := v s.
(** The bytes [Format] writes for any verb, [String], [MarshalJSON] and [MarshalText]. *)
Definition Format (s : Secret) : gostring := redacted.
Definition String (s : Secret) : gostring := redacted.
Definition MarshalJSON (s : Secret) : gostring := "034"%char :: redacted ++ ["034"%char].
Definition MarshalText (s : Secret) : gostring := redacted.
End Redaction.

Record Token := { tok_value : gostring; tok_expiresAt : Time }.
Definition NewToken (value : gostring) (expiresAt : Time) : Token :=
  {| tok_value := value; tok_expiresAt := expiresAt |}.
Definition Reveal (t : Token) : gostring := tok_value t.
Definition ExpiresAt (t : Token) : Time := tok_expiresAt t.
(** [Token{}]. *)
Definition zero_token : Token := {| tok_value := []; tok_expiresAt := zero_time |}.

Record ResolvedCredential := {
  Identity : gostring;
  rc_Provider : gostring;
  rc_Resource : gostring;
  WireScopes : list gostring
}.
Definition zero_resolved : ResolvedCredential :=
  {| Identity := []; rc_Provider := []; rc_Resource := []; WireScopes := [] |}.

Record TokenResult := {
  tr_Token : Token;
  tr_Resolved : ResolvedCredential;
  tr_CacheHit : bool
}.
(** [TokenResult{}]. *)
Definition zero_result : TokenResult :=
  {| tr_Token := zero_token; tr_Resolved := zero_resolved; tr_CacheHit := false |}.

(** [CredentialSelector.IsEmpty]. *)
Definition IsEmpty (cs : CredentialSelector) : bool :=
  str_eqb (Provider cs) [] && str_eqb (Resource cs) [] && (length (Scopes cs) =? 0)%nat.

(** ** Digests *)

(** [writeLP] of [resolve.go] writes the same bytes as [writeLen]. *)
Definition writeLP (value : gostring) : gostring := be32 (Z.of_nat (length value) mod 2 ^ 32) ++ value.

Definition be64 (n : Z) : gostring :=
  map (fun k => byte_of (Z.shiftr n (8 * k))) [7; 6; 5; 4; 3; 2; 1; 0].
Definition writeField (s : gostring) : gostring := be64 (Z.of_nat (length s) mod 2 ^ 64) ++ s.

Definition credentialIdentityVersion : gostring := "aksh-cred-v1".
Definition credIDVersion : gostring := "aksh-credid-v1".

(** The bytes hashed by [CredentialSelector.Identity]. *)
Definition selector_bytes (cs : CredentialSelector) : gostring :=
  writeField (Provider cs) ++ writeField (Resource cs) ++
  be64 (Z.of_nat (length (Scopes cs)) mod 2 ^ 64) ++
  concat (map writeField (sort_Strings (Scopes cs))).

(** The bytes hashed by [resolvedIdentity]. *)
Definition resolved_bytes (provider resource : gostring) (wireScopes : list gostring) : gostring :=
  writeLP credentialIdentityVersion ++ writeLP provider ++ writeLP resource ++
  writeLP (Itoa (length wireScopes)) ++ concat (map writeLP wireScopes).

(** The bytes hashed by [CredID]. *)
Definition cred_id_bytes (rc : ResolvedCredential) : gostring :=
  writeLP credIDVersion ++ writeLP (Identity rc) ++ writeLP (rc_Provider rc) ++ writeLP (rc_Resource rc).

Section Digests.
Context `{S : Sha256}.
Definition selector_Identity (cs : CredentialSelector) : gostring :=
  if IsEmpty cs then "none" else sha256_hex (selector_bytes cs).
Definition resolvedIdentity (provider resource : gostring) (wireScopes : list gostring) : gostring :=
  sha256_hex (resolved_bytes provider resource wireScopes).
Definition CredID (rc : ResolvedCredential) : gostring := sha256_hex (cred_id_bytes rc).
End Digests.

(** ** Resolution *)

(** What [normalizeResource] uses of [net/url]: parsing, the four fields it reads
    or replaces, and printing.  A string without a colon has no scheme. *)
Record URL (other : Type) := {
  u_Scheme : gostring;
  u_Host : gostring;
  u_Path : gostring;
  u_RawPath : gostring;
  u_other : other
}.
Arguments u_Scheme {other} _. Arguments u_Host {other} _. Arguments u_Path {other} _.
Arguments u_RawPath {other} _. Arguments u_other {other} _.

Class NetURL := {
  url_other : Type;
  url_Parse : gostring -> option (URL url_other);
  url_String : URL url_other -> gostring;
  url_no_colon : forall s u, ":"%char ∉ s -> url_Parse s = Some u -> u_Scheme u = []
}.

(** [net.JoinHostPort]. *)
Definition JoinHostPort (host port : gostring) : gostring :=
  if ContainsByte host ":" then "["%char :: host ++ "]"%char :: ":"%char :: port
  else host ++ ":"%char :: port.

(** [strings.TrimLeft(s, "/")] and [strings.TrimRight(s, "/")]. *)
Definition is_slash (c : ascii) : bool := ascii_eqb c "/".
Definition joinResourceScope (resource scope : gostring) : gostring :=
  TrimRight is_slash resource ++ "/"%char :: TrimLeft is_slash scope.

(** The [seen] loop of [Resolve]: keep the first of equal wire scopes, in order. *)
Fixpoint dedup (seen : list gostring) (l : list gostring) : list gostring :=
  match l with
  | [] => []
  | w :: l' => if bool_decide (w ∈ seen) then dedup seen l' else w :: dedup (w :: seen) l'
  end.

Section Resolution.
Context `{U : Unicode} `{S : Sha256} `{N : NetURL}.

Definition normalizeHostPort (scheme host : gostring) : gostring :=
  let '(hostname, port) :=
    if ContainsByte host ":" then
      match SplitHostPort host with
      | Some (parsedHost, parsedPort) => (ToLower parsedHost, parsedPort)
      | None => (ToLower host, [])
      end
    else (ToLower host, []) in
  let port :=
    if (str_eqb scheme "http" && str_eqb port "80") || (str_eqb scheme "https" && str_eqb port "443")
    then [] else port in
  if str_eqb port [] then hostname else JoinHostPort hostname port.

(** The trailing-slash loop.  Each iteration drops a byte, so [length value]
    iterations are enough ([trim_slashes_enough]). *)
Fixpoint trim_slashes (fuel : nat) (value : gostring) : gostring :=
  match fuel with
  | O => value
  | Datatypes.S fuel' =>
      if HasSuffix value "/" then
        match url_Parse value with
        | None => value
        | Some reparsed =>
            if negb (str_eqb (u_Path reparsed) []) && negb (str_eqb (u_Path reparsed) "/") then value
            else trim_slashes fuel' (TrimSuffixByte value "/")
        end
      else value
  end.

Definition normalizeResource (resource : gostring) : gostring :=
  let resource := TrimSpace resource in
  if str_eqb resource [] then []
  else
    match url_Parse resource with
    | Some parsed =>
        if negb (str_eqb (u_Scheme parsed) []) && negb (str_eqb (u_Host parsed) []) then
          let scheme := ToLower (u_Scheme parsed) in
          let path := if str_eqb (u_Path parsed) "/" && str_eqb (u_RawPath parsed) [] then [] else u_Path parsed in
          let value := url_String {| u_Scheme := scheme; u_Host := normalizeHostPort scheme (u_Host parsed);
                                     u_Path := path; u_RawPath := u_RawPath parsed; u_other := u_other parsed |} in
          trim_slashes (length value) value
        else ToLower resource
    | None => ToLower resource
    end.

(** A rune is refused when it is a space or a control character; the C0 controls
    and DEL are the ASCII ones. *)
Definition bad_scope_byte (c : ascii) : bool :=
  ascii_eqb c " " || (code c <? 32) || (code c =? 127).
Definition validateScope (scope : gostring) : bool :=
  negb (existsb bad_scope_byte scope || (negb (all_ascii scope) && is_control_rune scope)).

Definition wire_scope (resource scope : gostring) : gostring :=
  if Contains scope "://" then scope else joinResourceScope resource scope.

Inductive resolve_error :=
| ErrInvalidScope (scope : gostring)
| ErrNilSelector
| ErrUnsupportedProvider (provider : gostring).

(** The error of the first invalid scope, if any. *)
Definition first_invalid (scopes : list gostring) : option gostring :=
  List.find (fun s => negb (validateScope s)) scopes.

Definition normalizeProvider (p : gostring) : gostring :=
  let provider := ToLower (TrimSpace p) in
  if str_eqb provider [] then "entra" else provider.

Definition Resolve (sel : CredentialSelector) : result resolve_error ResolvedCredential :=
  if IsEmpty sel then
    Ok {| Identity := "none"; rc_Provider := []; rc_Resource := []; WireScopes := [] |}
  else
    let provider := normalizeProvider (Provider sel) in
    let resource := normalizeResource (Resource sel) in
    match first_invalid (Scopes sel) with
    | Some s => Err (ErrInvalidScope s)
    | None =>
        let wireScopes := sort_Strings (dedup [] (map (wire_scope resource) (Scopes sel))) in
        Ok {| Identity := resolvedIdentity provider resource wireScopes;
              rc_Provider := provider; rc_Resource := resource; WireScopes := wireScopes |}
    end.

(** [entra.Resolve]. *)
Definition providerEntra : gostring := "entra".
Definition entra_Resolve (sel : option CredentialSelector) : result resolve_error ResolvedCredential :=
  match sel with
  | None => Err ErrNilSelector
  | Some sel =>
      let provider := ToLower (TrimSpace (Provider sel)) in
      if negb (str_eqb provider []) && negb (str_eqb provider providerEntra)
      then Err (ErrUnsupportedProvider (Provider sel))
      else Resolve {| Provider := Provider sel; Resource := Resource sel; Scopes := Scopes sel |}
  end.
End Resolution.

(** ** Length-prefixed encodings are unambiguous *)

Lemma code_byte_of z : code (byte_of z) = z mod 256.
Proof.
  unfold code, byte_of. rewrite N_ascii_embedding; [|pose proof (Z.mod_pos_bound z 256); lia].
  rewrite Z2N.id; [done|]. pose proof (Z.mod_pos_bound z 256). lia.
Qed.

Lemma be_inj (ks : list Z) (a b : Z) :
  map (fun k => byte_of (Z.shiftr a (8 * k))) ks = map (fun k => byte_of (Z.shiftr b (8 * k))) ks ->
  Forall (fun k => Z.shiftr a (8 * k) mod 256 = Z.shiftr b (8 * k) mod 256) ks.
Proof.
  induction ks as [|k ks IH]; [constructor|]. intros H. injection H as Hk Hks. constructor; [|by apply IH].
  rewrite <- !code_byte_of. by f_equal.
Qed.

Lemma digits_inj (n : nat) a b :
  0 <= a < 2 ^ (8 * Z.of_nat n) -> 0 <= b < 2 ^ (8 * Z.of_nat n) ->
  (forall k, 0 <= k < Z.of_nat n -> Z.shiftr a (8 * k) mod 256 = Z.shiftr b (8 * k) mod 256) -> a = b.
Proof.
  revert a b. induction n as [|n IH]; intros a b Ha Hb H; [simpl in *; lia|].
  replace (8 * Z.of_nat (Datatypes.S n)) with (8 + 8 * Z.of_nat n) in Ha, Hb by lia.
  rewrite Z.pow_add_r in Ha, Hb by lia. change (2 ^ 8) with 256 in *.
  assert (a / 256 = b / 256) as Hd.
  { apply IH; [split; [apply Z.div_pos|apply Z.div_lt_upper_bound]; lia..|].
    intros k Hk. change 256 with (2 ^ 8) at 1 3. rewrite <- !Z.shiftr_div_pow2, !Z.shiftr_shiftr by lia.
    replace (8 + 8 * k) with (8 * (k + 1)) by lia. apply H. lia. }
  specialize (H 0). rewrite !Z.shiftr_0_r in H.
  rewrite (Z.div_mod a 256), (Z.div_mod b 256), Hd, H by lia. done.
Qed.

Lemma be32_inj a b : 0 <= a < 2 ^ 32 -> 0 <= b < 2 ^ 32 -> be32 a = be32 b -> a = b.
Proof.
  intros Ha Hb H%be_inj. rewrite Forall_forall in H. apply (digits_inj 4); [done..|].
  intros k Hk. apply H. rewrite !elem_of_cons. lia.
Qed.
Lemma be64_inj a b : 0 <= a < 2 ^ 64 -> 0 <= b < 2 ^ 64 -> be64 a = be64 b -> a = b.
Proof.
  intros Ha Hb H%be_inj. rewrite Forall_forall in H. apply (digits_inj 8); [done..|].
  intros k Hk. apply H. rewrite !elem_of_cons. lia.
Qed.

(** A field whose length fits the 4-byte prefix. *)
Definition fits (s : gostring) : Prop := Z.of_nat (length s) < 2 ^ 32.

Lemma writeLP_inj a b s t : fits a -> fits b -> writeLP a ++ s = writeLP b ++ t -> a = b /\ s = t.
Proof.
  unfold writeLP, fits. intros Ha Hb H. rewrite !Z.mod_small in H by lia. rewrite <- !app_assoc in H.
  apply app_inj_1 in H as [Hl H]; [|done]. apply be32_inj in Hl; [|lia..].
  apply app_inj_1 in H; [done|lia].
Qed.

Lemma writeLP_list_inj l k s t :
  Forall fits l -> Forall fits k -> length l = length k ->
  concat (map writeLP l) ++ s = concat (map writeLP k) ++ t -> l = k /\ s = t.
Proof.
  intros Hl. revert k. induction Hl as [|a l Ha Hl IH]; intros [|b k] Hk E H; try done.
  apply Forall_cons in Hk as [Hb Hk]. simpl in H. rewrite <- !app_assoc in H.
  apply writeLP_inj in H as [-> H]; [|done..].
  destruct (IH k) as [-> ->]; [done|simpl in E; lia|done|done].
Qed.

Lemma bs_inj s t : bs s = bs t -> s = t.
Proof.
  unfold bs. intros H. rewrite <- (string_of_list_ascii_of_string s), H.
  apply string_of_list_ascii_of_string.
Qed.

Lemma Itoa_inj m n : Itoa m = Itoa n -> m = n.
Proof. unfold Itoa. intros H%bs_inj. apply (inj pretty) in H. lia. Qed.

(** The bytes hashed into a resolved identity determine the provider, the
    resource and the list of wire scopes: two different credentials share an
    identity only through a collision of the hash itself. *)
Theorem resolved_bytes_injective p r ws p' r' ws' :
  Forall fits (p :: r :: ws) -> Forall fits (p' :: r' :: ws') ->
  fits (Itoa (length ws)) -> fits (Itoa (length ws')) ->
  resolved_bytes p r ws = resolved_bytes p' r' ws' -> p = p' /\ r = r' /\ ws = ws'.
Proof.
  rewrite !Forall_cons. intros (Hp & Hr & Hws) (Hp' & Hr' & Hws') Hn Hn' H. unfold resolved_bytes in H.
  apply app_inv_head in H. apply writeLP_inj in H as [-> H]; [|done..].
  apply writeLP_inj in H as [-> H]; [|done..]. apply writeLP_inj in H as [Hl H]; [|done..].
  apply Itoa_inj in Hl. rewrite <- (app_nil_r (concat (map writeLP ws))), <- (app_nil_r (concat (map writeLP ws'))) in H.
  apply writeLP_list_inj in H as [-> _]; [done..|]. done.
Qed.

Lemma resolved_bytes_injective_witness :
  resolved_bytes "entra" "r" [bs "a"; bs "b"] <> resolved_bytes "entra" "r" [bs "ab"].
Proof.
  intros H. apply resolved_bytes_injective in H as (_ & _ & H); [done|repeat constructor..].
Defined.

(** ** What resolution guarantees *)

Lemma elem_of_dedup w seen l : w ∈ dedup seen l <-> w ∈ l /\ w ∉ seen.
Proof.
  revert seen. induction l as [|x l IH]; intros seen; simpl.
  - split; [intros H; by apply elem_of_nil in H|intros [H _]; by apply elem_of_nil in H].
  - case_bool_decide as Hx; rewrite ?elem_of_cons, IH, ?elem_of_cons;
      destruct (decide (w = x)); naive_solver.
Qed.

Lemma NoDup_dedup seen l : NoDup (dedup seen l).
Proof.
  revert seen. induction l as [|x l IH]; intros seen; simpl; [constructor|].
  case_bool_decide; [apply IH|]. constructor; [|apply IH].
  rewrite elem_of_dedup, elem_of_cons. naive_solver.
Qed.

Lemma dedup_same_set l k : (forall w, w ∈ l <-> w ∈ k) -> dedup [] l ≡ₚ dedup [] k.
Proof.
  intros H. apply NoDup_Permutation; [apply NoDup_dedup..|]. intros w. by rewrite !elem_of_dedup, H.
Qed.

Lemma first_invalid_None `{U : Unicode} scopes :
  first_invalid scopes = None <-> Forall (fun s => validateScope s = true) scopes.
Proof.
  unfold first_invalid. rewrite Forall_forall. split.
  - intros H s Hs. apply list_elem_of_In in Hs. apply (find_none _ _ H) in Hs. by apply negb_false_iff.
  - intros H. destruct (List.find _ _) as [s|] eqn:E; [|done].
    apply find_some in E as [Hs%list_elem_of_In Hb]. rewrite (H s Hs) in Hb. done.
Qed.

Definition same_scopes (a b : CredentialSelector) : Prop :=
  Provider a = Provider b /\ Resource a = Resource b /\ forall w, w ∈ Scopes a <-> w ∈ Scopes b.

Lemma IsEmpty_scopes a b : same_scopes a b -> IsEmpty a = IsEmpty b.
Proof.
  intros (Hp & Hr & H). unfold IsEmpty. rewrite Hp, Hr. f_equal.
  assert (forall l k : list gostring, (forall w, w ∈ l -> w ∈ k) -> k = [] -> l = []) as Hnil.
  { intros [|x l] k Hlk ->; [done|]. exfalso. apply (elem_of_nil x), Hlk. left. }
  destruct (Scopes a) as [|x l] eqn:Ea, (Scopes b) as [|y k] eqn:Eb; try done.
  - by rewrite (Hnil (y :: k) []) by naive_solver.
  - by rewrite (Hnil (x :: l) []) by naive_solver.
Qed.

Section ResolveTheorems.
Context `{U : Unicode} `{S : Sha256} `{N : NetURL}.

(** Fuel beyond the length of the value never changes the result of the
    trailing-slash loop. *)
Lemma trim_slashes_enough f f' value :
  (length value <= f)%nat -> (length value <= f')%nat -> trim_slashes f value = trim_slashes f' value.
Proof.
  revert f' value. induction f as [|f IH]; intros [|f'] value Hf Hf'; try done.
  - by destruct value; [|simpl in Hf; lia].
  - by destruct value; [|simpl in Hf'; lia].
  - simpl. destruct (HasSuffix value "/") eqn:E; [|done]. destruct (url_Parse value); [|done].
    destruct (_ && _); [done|]. apply HasSuffix_spec in E as [t ->].
    change (bs "/") with ["/"%char] in *. unfold TrimSuffixByte. rewrite rev_unit, ascii_eqb_refl, rev_involutive.
    rewrite length_app in *. simpl in *. apply IH; lia.
Qed.

(** a selector's scopes are a set.  Reordering or repeating them changes
    neither the resolved credential nor its identity. *)
Lemma Resolve_scope_set a b rc : same_scopes a b -> Resolve a = Ok rc -> Resolve b = Ok rc.
Proof.
  intros Hs. unfold Resolve. rewrite <- (IsEmpty_scopes a b Hs). destruct Hs as (<- & <- & Hs).
  destruct (IsEmpty a); [done|]. destruct (first_invalid (Scopes a)) eqn:Ea; [done|].
  apply first_invalid_None in Ea. destruct (first_invalid (Scopes b)) eqn:Eb.
  - assert (first_invalid (Scopes b) = None); [|congruence]. apply first_invalid_None.
    rewrite Forall_forall in *. intros s Hb. by apply Ea, Hs.
  - intros [= <-]. do 2 f_equal; [f_equal|]; apply sort_Strings_proper, dedup_same_set;
      intros w; rewrite !list_elem_of_fmap; naive_solver.
Qed.

Lemma TrimLeft_sub p (s : gostring) c : c ∈ TrimLeft p s -> c ∈ s.
Proof.
  induction s as [|d s IH]; simpl; [done|]. destruct (p d); [|done]. intros H. right. by apply IH.
Qed.
Lemma TrimRight_sub p (s : gostring) c : c ∈ TrimRight p s -> c ∈ s.
Proof.
  unfold TrimRight. rewrite !list_elem_of_In, <- in_rev, <- list_elem_of_In.
  intros H%TrimLeft_sub. by rewrite list_elem_of_In, <- in_rev in H.
Qed.

Lemma valid_scope_no_space s : validateScope s = true -> " "%char ∉ s.
Proof.
  unfold validateScope. rewrite negb_true_iff, orb_false_iff. intros [H _] Hin.
  apply list_elem_of_In in Hin. assert (existsb bad_scope_byte s = true); [|congruence].
  apply existsb_exists. by exists " "%char.
Qed.

Lemma wire_scope_no_space r s : " "%char ∉ r -> validateScope s = true -> " "%char ∉ wire_scope r s.
Proof.
  intros Hr Hs%valid_scope_no_space. unfold wire_scope, joinResourceScope. destruct (Contains s "://"); [done|].
  rewrite elem_of_app, elem_of_cons. intros [H%TrimRight_sub|[?|H%TrimLeft_sub]]; done.
Qed.

(** A resolved credential lists distinct wire scopes in increasing order, and
    when the resource holds no space the scope parameter of the token request (the
    wire scopes joined with spaces) splits back into exactly those scopes. *)
Theorem Resolve_wire_scopes sel rc :
  IsEmpty sel = false -> Resolve sel = Ok rc ->
  NoDup (WireScopes rc) /\ StronglySorted str_le (WireScopes rc) /\
  (" "%char ∉ normalizeResource (Resource sel) -> WireScopes rc <> [] ->
     Split (Join (WireScopes rc) " ") " " = WireScopes rc).
Proof.
  unfold Resolve. intros ->. destruct (first_invalid _) eqn:E; [done|]. intros [= <-]. simpl.
  apply first_invalid_None in E. rewrite Forall_forall in E. split_and!.
  - rewrite sort_Strings_perm. apply NoDup_dedup.
  - apply sort_Strings_sorted.
  - intros Hr Hne. set (ws := sort_Strings _) in *.
    assert (Forall (fun w => " "%char ∉ w) ws) as Hws.
    { apply Forall_forall. intros w. unfold ws. rewrite sort_Strings_perm, elem_of_dedup, list_elem_of_fmap.
      intros [(s & -> & Hs) _]. by apply wire_scope_no_space, E. }
    destruct ws as [|w ws]; [done|]. by apply Split_Join.
Qed.

(** The resource is not held to the rule for scopes: a resource with an inner
    space that is not an absolute URL is put in front of the relative scopes as it
    is, so a single scope of a policy becomes several in the token request. *)
Theorem Resolve_resource_space :
  exists rc, Resolve {| Provider := []; Resource := "app one"; Scopes := [bs ".default"] |} = Ok rc /\
    WireScopes rc = [bs "app one/.default"] /\
    Split (Join (WireScopes rc) " ") " " = [bs "app"; bs "one/.default"].
Proof.
  assert (normalizeResource "app one" = "app one") as Hr.
  { unfold normalizeResource. change (TrimSpace "app one") with (bs "app one"). simpl.
    destruct (url_Parse "app one") as [u|] eqn:E; [|done].
    rewrite (url_no_colon (bs "app one") u); [done|by apply (bool_decide_unpack _)|done]. }
  eexists. split; [|split].
  - unfold Resolve. cbn [Resource Scopes Provider]. rewrite Hr. vm_compute first_invalid. simpl. reflexivity.
  - vm_compute. reflexivity.
  - vm_compute. reflexivity.
Qed.
End ResolveTheorems.

(** An instance of [NetURL] in which nothing is an absolute URL. *)
#[program] Definition opaque_urls : NetURL :=
  {| url_other := unit; url_Parse _ := None; url_String u := u_Path u |}.
Solve Obligations with done.

Definition two_scopes : CredentialSelector :=
  {| Provider := "Entra"; Resource := "GRAPH"; Scopes := [bs "write"; bs "read"; bs "write"] |}.
Definition two_scopes' : CredentialSelector :=
  {| Provider := "Entra"; Resource := "GRAPH"; Scopes := [bs "read"; bs "write"] |}.


Lemma Resolve_wire_scopes_witness :
  exists rc, Resolve (U := ascii_only) (S := sha_id) (N := opaque_urls) two_scopes = Ok rc /\
    Split (Join (WireScopes rc) " ") " " = WireScopes rc.
Proof.
  eexists. split; [vm_compute; reflexivity|].
  apply (Resolve_wire_scopes (U := ascii_only) (S := sha_id) (N := opaque_urls) two_scopes);
    [reflexivity|vm_compute; reflexivity| |done].
  apply (bool_decide_unpack _). vm_compute. exact I.
Defined.
