(* ===== verification/LRU.v ===== *)
(** * The bounded recency list shared by the caches

    [token.NegativeCache], [token.CachingTokenCache] and [tlsterm.CachedLeafSource]
    all keep a [container/list] ordered by recency and a map from keys to
    list elements.  The list is the sequence of keys, front first, and the map
    gives the value an element carries; [lru_ok] is the one-to-one invariant the
    source comments state, and [contents] the abstract view: an association list,
    most recently used first. *)

From S2P Require Import Prelude GoStrings.

Record lru (K : Type) `{Countable K} (V : Type) := { ll : list K; entries : gmap K V }.
Arguments ll {K _ _ V} _.
Arguments entries {K _ _ V} _.

Section Operations.
Context {K : Type} `{Kc : Countable K} {V : Type}.
Implicit Types (c : lru K V) (id : K).

Definition lru_new : lru K V := {| ll := []; entries := ∅ |}.

(** [ll.Remove(elem)] on the keys. *)
Definition unlink id (l : list K) : list K := filter (fun k => k <> id) l.

Definition removeElement id c : lru K V :=
  {| ll := unlink id (ll c); entries := delete id (entries c) |}.

(** [ll.MoveToFront(elem)]. *)
Definition moveToFront id c : lru K V :=
  {| ll := id :: unlink id (ll c); entries := entries c |}.

(** [for ll.Len() > maxEntries { removeElement(ll.Back()) }].  Each iteration
    removes a key, so as many iterations as there are keys are enough. *)
Fixpoint evict_loop (fuel maxEntries : nat) c : lru K V :=
  match fuel with
  | O => c
  | S fuel' =>
      if (maxEntries <? length (ll c))%nat then
        match last (ll c) with
        | Some id => evict_loop fuel' maxEntries (removeElement id c)
        | None => c
        end
      else c
  end.
Definition evict (maxEntries : nat) c : lru K V := evict_loop (length (ll c)) maxEntries c.

(** Replace the value of a present key or push a new element, then evict. *)
Definition lru_store id (v : V) c : lru K V :=
  if bool_decide (is_Some (entries c !! id))
  then moveToFront id {| ll := ll c; entries := <[id := v]> (entries c) |}
  else {| ll := id :: ll c; entries := <[id := v]> (entries c) |}.
Definition lru_put (maxEntries : nat) id (v : V) c : lru K V := evict maxEntries (lru_store id v c).

(** ** Invariant and abstract view *)

Definition lru_ok c : Prop :=
  NoDup (ll c) /\ forall id, id ∈ ll c <-> is_Some (entries c !! id).

Definition contents c : list (K * V) :=
  omap (fun id => pair id <$> entries c !! id) (ll c).

Lemma elem_of_unlink k id l : k ∈ unlink id l <-> k <> id /\ k ∈ l.
Proof. unfold unlink. by rewrite list_elem_of_filter. Qed.

Lemma unlink_cons id k l : unlink id (k :: l) = if decide (k = id) then unlink id l else k :: unlink id l.
Proof.
  unfold unlink. case_decide; [rewrite filter_cons_False by (intros H'; by apply H')|rewrite filter_cons_True by done]; done.
Qed.

Lemma unlink_notin id l : id ∉ l -> unlink id l = l.
Proof.
  unfold unlink. induction l as [|k l IH]; [done|]. rewrite not_elem_of_cons. intros [Hk Hl].
  rewrite filter_cons_True by congruence. by rewrite IH.
Qed.

Lemma unlink_length id l : (length (unlink id l) <= length l)%nat.
Proof. apply length_filter. Qed.

Lemma unlink_last id l : NoDup (l ++ [id]) -> unlink id (l ++ [id]) = l.
Proof.
  intros (_ & Hd & _)%NoDup_app. unfold unlink. rewrite filter_app. simpl.
  rewrite filter_cons_False by (intros H; by apply H). rewrite filter_nil, app_nil_r.
  apply unlink_notin. intros H. apply (Hd _ H). by left.
Qed.

Lemma lru_new_ok : lru_ok lru_new.
Proof.
  split; [constructor|]. intros id. simpl. rewrite lookup_empty, elem_of_nil.
  split; [done|]. by intros [? ?].
Qed.

Lemma removeElement_ok id c : lru_ok c -> lru_ok (removeElement id c).
Proof.
  intros [Hn Hd]. split; simpl; [by apply NoDup_filter|]. intros k.
  rewrite elem_of_unlink, Hd. destruct (decide (k = id)) as [->|Hne].
  - rewrite lookup_delete_eq. split; [naive_solver|]. by intros [? ?].
  - rewrite lookup_delete_ne by done. naive_solver.
Qed.

Lemma moveToFront_ok id c : lru_ok c -> is_Some (entries c !! id) -> lru_ok (moveToFront id c).
Proof.
  intros [Hn Hd] Hid. split; simpl.
  - constructor; [rewrite elem_of_unlink; naive_solver|by apply NoDup_filter].
  - intros k. rewrite elem_of_cons, elem_of_unlink, Hd. destruct (decide (k = id)); naive_solver.
Qed.

Lemma evict_loop_ok fuel n c : lru_ok c -> lru_ok (evict_loop fuel n c).
Proof.
  revert c. induction fuel as [|f IH]; intros c H; simpl; [done|].
  destruct (_ <? _)%nat; [|done]. destruct (last (ll c)); [|done]. by apply IH, removeElement_ok.
Qed.

(** Eviction keeps the [n] most recent keys and their values. *)
Lemma evict_loop_ll fuel n c : lru_ok c -> (length (ll c) <= fuel)%nat ->
  ll (evict_loop fuel n c) = take n (ll c) /\
  (forall k, k ∈ take n (ll c) -> entries (evict_loop fuel n c) !! k = entries c !! k).
Proof.
  revert c. induction fuel as [|f IH]; intros c Hc Hf; simpl.
  - split; [by rewrite take_ge by lia|done].
  - destruct (Nat.ltb_spec n (length (ll c))) as [Hlt|Hge]; [|split; [by rewrite take_ge by lia|done]].
    destruct (last (ll c)) as [id|] eqn:El; [|by apply last_None in El; rewrite El in Hlt; simpl in Hlt; lia].
    apply last_Some in El as [l El]. destruct (IH (removeElement id c)) as [H1 H2].
    + by apply removeElement_ok.
    + simpl. rewrite El, unlink_last by (rewrite <- El; apply Hc). rewrite El, length_app in Hf. simpl in Hf. lia.
    + destruct Hc as [Hn _]. simpl in H1, H2. rewrite El, unlink_last in H1, H2 by (by rewrite <- El).
      rewrite El, length_app in Hlt. simpl in Hlt. rewrite El, take_app_le by lia. split; [done|].
      intros k Hk. rewrite H2 by done. apply lookup_delete_ne. intros ->.
      rewrite El in Hn. apply NoDup_app in Hn as (_ & Hn & _). apply (Hn k); [|by left].
      by apply elem_of_take in Hk as (i & Hk & _); apply list_elem_of_lookup_2 in Hk.
Qed.

Lemma lru_store_ok id v c : lru_ok c -> lru_ok (lru_store id v c).
Proof.
  intros Hc. unfold lru_store. case_bool_decide as Hin.
  - apply moveToFront_ok; simpl; [|by rewrite lookup_insert_eq].
    destruct Hc as [Hn Hd]. split; [done|]. intros k. simpl. rewrite Hd.
    destruct (decide (k = id)) as [->|]; [rewrite lookup_insert_eq|rewrite lookup_insert_ne by done]; naive_solver.
  - destruct Hc as [Hn Hd]. split; simpl; [constructor; [by rewrite Hd|done]|].
    intros k. rewrite elem_of_cons, Hd.
    destruct (decide (k = id)) as [->|]; [rewrite lookup_insert_eq|rewrite lookup_insert_ne by done]; naive_solver.
Qed.

Lemma lru_put_ok n id v c : lru_ok c -> lru_ok (lru_put n id v c).
Proof. intros Hc. by apply evict_loop_ok, lru_store_ok. Qed.

Lemma contents_unlink id (l : list K) (m : gmap K V) :
  omap (fun k => pair k <$> delete id m !! k) (unlink id l) =
  filter (fun kv => kv.1 <> id) (omap (fun k => pair k <$> m !! k) l).
Proof.
  induction l as [|k l IH]; [done|]. rewrite unlink_cons. case_decide as Hk.
  - subst k. rewrite IH. simpl. destruct (m !! id); simpl; [|done].
    by rewrite filter_cons_False by (intros H; by apply H).
  - simpl. rewrite lookup_delete_ne by done.
    destruct (m !! k); simpl; [|done]. rewrite filter_cons_True by done. f_equal. exact IH.
Qed.

Lemma omap_ext_in {A B} (f g : A -> option B) (l : list A) : (forall x, x ∈ l -> f x = g x) -> omap f l = omap g l.
Proof.
  induction l as [|x l IH]; intros H; [done|]. cbn. rewrite (H x) by left.
  assert (omap f l = omap g l) as E by (apply IH; intros y Hy; apply H; by right).
  destruct (g x); [f_equal|]; exact E.
Qed.

(** The cache refines an association list: removal, a hit and an insertion act on
    the abstract contents as expected, and an insertion keeps the [n] most
    recently used entries. *)
Lemma contents_remove id c : contents (removeElement id c) = filter (fun kv => kv.1 <> id) (contents c).
Proof. apply contents_unlink. Qed.

Lemma unlink_delete_contents id (l : list K) (m m' : gmap K V) :
  (forall k, k <> id -> m !! k = m' !! k) ->
  omap (fun k => pair k <$> m !! k) (unlink id l) = filter (fun kv => kv.1 <> id) (omap (fun k => pair k <$> m' !! k) l).
Proof.
  intros H. rewrite <- contents_unlink. apply omap_ext_in. intros k [Hk _]%elem_of_unlink.
  by rewrite lookup_delete_ne, H.
Qed.

Lemma contents_move id v c : entries c !! id = Some v ->
  contents (moveToFront id c) = (id, v) :: filter (fun kv => kv.1 <> id) (contents c).
Proof. intros H. unfold contents. simpl. rewrite H. simpl. f_equal. by apply unlink_delete_contents. Qed.

Lemma contents_take n c : lru_ok c ->
  omap (fun id => pair id <$> entries c !! id) (take n (ll c)) = take n (contents c).
Proof.
  intros [_ Hd]. unfold contents. assert (Forall (fun k => is_Some (entries c !! k)) (ll c)) as Hf.
  { apply Forall_forall. intros k. by rewrite Hd. }
  clear Hd. revert n. induction Hf as [|k l [v Hv] _ IH]; intros [|n]; simpl; try done.
  rewrite Hv. simpl. f_equal. apply IH.
Qed.

Lemma contents_evict n c : lru_ok c -> contents (evict n c) = take n (contents c).
Proof.
  intros Hc. unfold evict. destruct (evict_loop_ll (length (ll c)) n c) as [Hl He]; [done..|].
  rewrite <- contents_take by done. unfold contents at 1. rewrite Hl. apply omap_ext_in.
  intros k Hk. by rewrite He.
Qed.

Lemma contents_put n id v c : lru_ok c ->
  contents (lru_put n id v c) = take n ((id, v) :: filter (fun kv => kv.1 <> id) (contents c)).
Proof.
  intros Hc. unfold lru_put. rewrite contents_evict by (by apply lru_store_ok). f_equal.
  unfold lru_store. case_bool_decide as Hin.
  - rewrite (contents_move id v) by (simpl; by rewrite lookup_insert_eq).
    f_equal. unfold contents. simpl. rewrite <- !contents_unlink. apply omap_ext_in.
    intros k [Hk _]%elem_of_unlink. by rewrite !lookup_delete_ne, lookup_insert_ne.
  - unfold contents. simpl. rewrite lookup_insert_eq. simpl. f_equal.
    assert (id ∉ ll c) as Hni by (by rewrite (proj2 Hc)).
    rewrite <- contents_unlink, unlink_notin by done. apply omap_ext_in.
    intros k Hk. by rewrite lookup_insert_ne, lookup_delete_ne by congruence.
Qed.

Lemma lru_put_size n id v c : lru_ok c -> (length (ll (lru_put n id v c)) <= n)%nat.
Proof.
  intros Hc. unfold lru_put, evict. rewrite (proj1 (evict_loop_ll _ n _ (lru_store_ok id v c Hc) (le_n _))).
  rewrite length_take. lia.
Qed.

(** Every stored value was there before or is the one just inserted. *)
Lemma lru_put_entries n id v c k w :
  entries (lru_put n id v c) !! k = Some w -> (k = id /\ w = v) \/ entries c !! k = Some w.
Proof.
  assert (forall f c', entries (evict_loop f n c') !! k = Some w -> entries c' !! k = Some w) as Hsub.
  { intros f. induction f as [|f IH]; intros c' H; simpl in H; [done|].
    destruct (_ <? _)%nat; [|done]. destruct (last (ll c')) as [i|]; [|done].
    apply IH in H. simpl in H. by apply lookup_delete_Some in H as [_ H]. }
  intros H%Hsub. unfold lru_store in H. case_bool_decide; simpl in H;
    (apply lookup_insert_Some in H as [[-> ->]|[_ H]]; [by left|by right]).
Qed.
End Operations.

Lemma moveToFront_length `{Kc : Countable K} {V} (id : K) (c : lru K V) : lru_ok c -> is_Some (entries c !! id) ->
  length (ll (moveToFront id c)) = length (ll c).
Proof.
  intros [Hn Hd] Hid%Hd. apply list_elem_of_split in Hid as (l1 & l2 & E). simpl. rewrite E in *.
  apply NoDup_app in Hn as (Hn1 & Hn2 & Hn3). apply NoDup_cons in Hn3 as [Hn3 Hn4].
  unfold unlink. rewrite filter_app, filter_cons_False by (intros H; by apply H).
  change (filter _ l1) with (unlink id l1). change (filter _ l2) with (unlink id l2).
  rewrite !unlink_notin, !length_app; simpl; [lia|done|]. intros H. apply (Hn2 _ H). by left.
Qed.
