(* ===== verification/TokenGuard.v ===== *)
(** * [internal/token] breaker and negative cache, and the guarded acquirer

    [breaker.go], [negative_cache.go] and [internal/runtime/token_acquirer.go].
    The mutex of each object makes its methods atomic, so a method is a function on
    the object's state that is given the instant it reads from the clock. *)

From S2P Require Import Prelude GoStrings GoRuntime Compile Credential LRU.
#[local] Open Scope Z_scope.

(** ** Circuit breaker *)

Record Breaker := {
  threshold : Z;
  probeInterval : Duration;
  failures : Z;
  is_open : bool;
  lastFailure : Time;
  probeInFlight : bool
}.

Definition NewBreaker (threshold probeIntervalSec : Z) : Breaker :=
  {| threshold := if threshold <=? 0 then 1 else threshold;
     probeInterval := wrap64 ((if probeIntervalSec <? 0 then 0 else probeIntervalSec) * Second);
     failures := 0; is_open := false; lastFailure := zero_time; probeInFlight := false |}.

Definition IsOpen (b : Breaker) : bool := is_open b.

Definition AllowRequest (now : Time) (b : Breaker) : Breaker * bool :=
  if negb (is_open b) then (b, true)
  else if probeInFlight b then (b, false)
  else if Sub now (lastFailure b) <? probeInterval b then (b, false)
  else ({| threshold := threshold b; probeInterval := probeInterval b; failures := failures b;
           is_open := is_open b; lastFailure := lastFailure b; probeInFlight := true |}, true).

Definition RecordFailure (now : Time) (class : AcquireErrorClass) (b : Breaker) : Breaker :=
  if bool_decide (class <> AcquireErrorTransient) then
    {| threshold := threshold b; probeInterval := probeInterval b; failures := failures b;
       is_open := is_open b; lastFailure := lastFailure b; probeInFlight := false |}
  else
    let n := failures b + 1 in
    {| threshold := threshold b; probeInterval := probeInterval b; failures := n;
       is_open := (if threshold b <=? n then true else is_open b); lastFailure := now; probeInFlight := false |}.

Definition RecordSuccess (b : Breaker) : Breaker :=
  {| threshold := threshold b; probeInterval := probeInterval b; failures := 0;
     is_open := false; lastFailure := zero_time; probeInFlight := false |}.

(** The states a breaker passes through, whatever the order of the calls. *)
Inductive breaker_reachable (th sec : Z) : Breaker -> Prop :=
| breaker_init : breaker_reachable th sec (NewBreaker th sec)
| breaker_allow now b : breaker_reachable th sec b -> breaker_reachable th sec (AllowRequest now b).1
| breaker_failure now class b :
    breaker_reachable th sec b -> breaker_reachable th sec (RecordFailure now class b)
| breaker_success b : breaker_reachable th sec b -> breaker_reachable th sec (RecordSuccess b).

(** ** Negative cache *)

Record negativeCacheEntry := { ne_err : acquire_error; ne_expiresAt : Time }.
Record NegativeCache := { nc_maxEntries : nat; nc_ttl : Duration; nc_list : lru gostring negativeCacheEntry }.

Definition NewNegativeCache (maxEntries : Z) (ttl : Duration) : NegativeCache :=
  {| nc_maxEntries := if maxEntries <=? 0 then 1%nat else Z.to_nat maxEntries; nc_ttl := ttl;
     nc_list := lru_new |}.

Definition nc_with (nc : NegativeCache) (l : lru gostring negativeCacheEntry) : NegativeCache :=
  {| nc_maxEntries := nc_maxEntries nc; nc_ttl := nc_ttl nc; nc_list := l |}.

Definition nc_Get (now : Time) (id : gostring) (nc : NegativeCache) : NegativeCache * option acquire_error :=
  match entries (nc_list nc) !! id with
  | None => (nc, None)
  | Some entry =>
      if (0 <? nc_ttl nc) && (ne_expiresAt entry <? now)
      then (nc_with nc (removeElement id (nc_list nc)), None)
      else (nc_with nc (moveToFront id (nc_list nc)), Some (ne_err entry))
  end.

Definition nc_Put (now : Time) (id : gostring) (err : option acquire_error) (nc : NegativeCache) : NegativeCache :=
  match err with
  | None => nc
  | Some err =>
      if str_eqb id [] then nc
      else
        let stored := lru_store id {| ne_err := err; ne_expiresAt := Add now (nc_ttl nc) |} (nc_list nc) in
        if bool_decide (is_Some (entries (nc_list nc) !! id)) then nc_with nc stored
        else nc_with nc (evict (nc_maxEntries nc) stored)
  end.

Definition nc_ok (nc : NegativeCache) : Prop :=
  lru_ok (nc_list nc) /\ (length (ll (nc_list nc)) <= nc_maxEntries nc)%nat /\ (1 <= nc_maxEntries nc)%nat.

(** ** The guarded acquirer *)

Section Acquirer.
Context `{S : Sha256} {W : Type} `{C : Clock W}.

Record runtimeTokenAcquirer := {
  aq_Base : option (W -> ResolvedCredential -> W * result error Token);
  aq_Breaker : option Breaker;
  aq_Negative : option NegativeCache;
  aq_Metrics : option (list (gostring * AcquireErrorClass))
}.

Definition aq_update (a : runtimeTokenAcquirer) b n m : runtimeTokenAcquirer :=
  {| aq_Base := aq_Base a; aq_Breaker := Some b; aq_Negative := Some n; aq_Metrics := m |}.

Definition missing_dependency : error :=
  AcquireError AcquireErrorTransient "runtime: token acquirer missing a required dependency" None.
Definition breaker_open : error :=
  AcquireError AcquireErrorTransient "runtime: token acquisition breaker open" None.

(** The class [errors.As] finds, transient when there is none. *)
Definition error_class (err : error) : AcquireErrorClass :=
  match errors_As_AcquireError err with Some ae => ae_Class ae | None => AcquireErrorTransient end.

(** The part after the base exchange failed. *)
Definition record_failure (w : W) (rc : ResolvedCredential) (err : error) a b n : runtimeTokenAcquirer * W :=
  let class := error_class err in
  let '(t, w) := Now w in
  let b := RecordFailure t class b in
  let '(n, w) :=
    if bool_decide (class = AcquireErrorPermanent)
    then let '(t, w) := Now w in (nc_Put t (CredID rc) (errors_As_AcquireError err) n, w)
    else (n, w) in
  (aq_update a b n ((fun l => (rc_Provider rc, class) :: l) <$> aq_Metrics a), w).

Definition aq_Acquire (a : runtimeTokenAcquirer) (w : W) (rc : ResolvedCredential)
    : runtimeTokenAcquirer * W * result error Token :=
  match aq_Base a, aq_Breaker a, aq_Negative a with
  | Some base, Some b, Some n =>
      let '(t, w) := Now w in
      let '(n, cached) := nc_Get t (CredID rc) n in
      match cached with
      | Some ae => (aq_update a b n (aq_Metrics a), w, Err (from_acquire ae))
      | None =>
          let '(t, w) := Now w in
          let '(b, allowed) := AllowRequest t b in
          if negb allowed then (aq_update a b n (aq_Metrics a), w, Err breaker_open)
          else
            let '(w, r) := base w rc in
            match r with
            | Err err => let '(a', w) := record_failure w rc err a b n in (a', w, Err err)
            | Ok tok => (aq_update a (RecordSuccess b) n (aq_Metrics a), w, Ok tok)
            end
      end
  | _, _, _ => (a, w, Err missing_dependency)
  end.
End Acquirer.
Arguments runtimeTokenAcquirer : clear implicits.

(** ** Breaker theorems *)

Lemma breaker_reachable_inv th sec b :
  breaker_reachable th sec b ->
  1 <= threshold b /\ (is_open b = true <-> threshold b <= failures b) /\
  (probeInFlight b = true -> is_open b = true).
Proof.
  induction 1 as [|now b _ IH|now class b _ IH|b _ IH]; simpl.
  - destruct (Z.leb_spec th 0); split_and!; try lia; try done; (split; [done|lia]).
  - unfold AllowRequest. destruct (is_open b) eqn:Eo; simpl; [|by rewrite Eo].
    destruct (probeInFlight b) eqn:Ep; simpl; [by rewrite Eo, Ep|].
    destruct (_ <? _); simpl; rewrite ?Eo; naive_solver.
  - unfold RecordFailure. case_bool_decide; simpl; [naive_solver|].
    destruct IH as (H1 & H2 & H3). split_and!; [done| |done].
    destruct (Z.leb_spec (threshold b) (failures b + 1)); [done|]. rewrite H2. lia.
  - split_and!; [naive_solver| |done]. split; [done|lia].
Qed.

(** Later calls of [AllowRequest] at the given instants. *)
Definition admissions (ts : list Time) (b : Breaker) : list bool :=
  (foldl (fun acc t => let '(b, out) := acc in let '(b, ok) := AllowRequest t b in (b, out ++ [ok])) (b, []) ts).2.

Lemma admissions_probing ts b out :
  is_open b = true -> probeInFlight b = true -> Forall (eq false) out ->
  Forall (eq false)
    (foldl (fun acc t => let '(b, out) := acc in let '(b, ok) := AllowRequest t b in (b, out ++ [ok])) (b, out) ts).2.
Proof.
  intros Ho Hp. revert out. induction ts as [|t ts IH]; intros out Hout; [done|]. simpl.
  assert (AllowRequest t b = (b, false)) as -> by (unfold AllowRequest; by rewrite Ho, Hp). simpl.
  apply IH, Forall_app. split; [done|]. by constructor.
Qed.

(** In every reachable state the breaker is open exactly when the number of
    transient failures since the last success has reached the threshold.  While it
    is open, a request is admitted only once the probe interval has passed since the
    last failure, and after it every further request is refused until an outcome is
    recorded. *)
Theorem Breaker_correct th sec b :
  breaker_reachable th sec b ->
  (IsOpen b = true <-> threshold b <= failures b) /\
  (forall now b', IsOpen b = true -> AllowRequest now b = (b', true) ->
     probeInterval b <= Sub now (lastFailure b) /\ forall ts, Forall (eq false) (admissions ts b')).
Proof.
  intros Hr. destruct (breaker_reachable_inv _ _ _ Hr) as (_ & Hopen & _). split; [done|].
  intros now b' Ho Ha. unfold IsOpen in Ho. unfold AllowRequest in Ha. rewrite Ho in Ha. simpl in Ha.
  destruct (probeInFlight b); [done|]. destruct (Z.ltb_spec (Sub now (lastFailure b)) (probeInterval b)); [done|].
  injection Ha as <-. split; [done|]. intros ts. apply admissions_probing; [done..|constructor].
Qed.

(** Two transient failures open a breaker of threshold 2; one probe passes. *)
Lemma Breaker_correct_witness :
  let b := RecordFailure 7 AcquireErrorTransient (RecordFailure 3 AcquireErrorTransient (NewBreaker 2 1)) in
  IsOpen b = true /\ (AllowRequest (2 * Second) b).2 = true /\
  Forall (eq false) (admissions [3 * Second; 9 * Second] (AllowRequest (2 * Second) b).1).
Proof.
  intros b. split_and!; [reflexivity..|].
  assert (breaker_reachable 2 1 b) as Hb by apply breaker_failure, breaker_failure, breaker_init.
  destruct (Breaker_correct 2 1 b Hb) as [_ H].
  apply (H (2 * Second) (AllowRequest (2 * Second) b).1); vm_compute; reflexivity.
Defined.

(** ** Negative cache theorems *)

Lemma nc_New_ok m ttl : nc_ok (NewNegativeCache m ttl).
Proof.
  split_and!; simpl; [apply lru_new_ok|lia|]. destruct (Z.leb_spec m 0); lia.
Qed.

Lemma nc_Put_ok now id err nc : nc_ok nc -> nc_ok (nc_Put now id err nc).
Proof.
  intros (Hl & Hs & Hm). unfold nc_Put. destruct err as [err|]; [|done]. destruct (str_eqb id []); [done|].
  set (v := {| ne_err := _ |}). pose proof (lru_store_ok id v _ Hl) as Hst. case_bool_decide as Hin.
  - split_and!; simpl; [done| |done]. unfold lru_store. rewrite bool_decide_eq_true_2 by done.
    by rewrite <- (moveToFront_length id) in Hs.
  - split_and!; simpl; [by apply evict_loop_ok| |done].
    by apply (lru_put_size (nc_maxEntries nc) id v (nc_list nc)).
Qed.

(** A failure that was just recorded is found. *)
Lemma nc_Put_lookup now id err nc : nc_ok nc -> id <> [] ->
  entries (nc_list (nc_Put now id (Some err) nc)) !! id =
    Some {| ne_err := err; ne_expiresAt := Add now (nc_ttl nc) |}.
Proof.
  intros (Hl & Hs & Hm) Hid. unfold nc_Put. unfold str_eqb. rewrite bool_decide_eq_false_2 by done.
  set (v := {| ne_err := _ |}). assert (entries (lru_store id v (nc_list nc)) !! id = Some v) as Hv
    by (unfold lru_store; case_bool_decide; simpl; by rewrite lookup_insert_eq).
  case_bool_decide as Hin; simpl; [done|]. unfold evict.
  destruct (evict_loop_ll (length (ll (lru_store id v (nc_list nc)))) (nc_maxEntries nc)
              (lru_store id v (nc_list nc))) as [_ He]; [by apply lru_store_ok|lia|].
  rewrite He; [done|]. unfold lru_store. rewrite bool_decide_eq_false_2 by done. simpl.
  destruct (nc_maxEntries nc); [lia|]. simpl. left.
Qed.

Lemma nc_Get_ok now id nc : nc_ok nc -> nc_ok (nc_Get now id nc).1.
Proof.
  intros (Hl & Hs & Hm). unfold nc_Get. destruct (entries (nc_list nc) !! id) as [e|] eqn:E; [|done].
  destruct (_ && _); simpl; split_and!; simpl; try done.
  - by apply removeElement_ok.
  - pose proof (unlink_length id (ll (nc_list nc))). lia.
  - by apply moveToFront_ok; [|rewrite E].
  - change (length (ll (moveToFront id (nc_list nc))) <= nc_maxEntries nc)%nat.
    by rewrite moveToFront_length by (rewrite ?E; done).
Qed.

Lemma error_class_permanent err :
  error_class err = AcquireErrorPermanent -> exists ae, errors_As_AcquireError err = Some ae /\ ae_Class ae = AcquireErrorPermanent.
Proof. unfold error_class. destruct (errors_As_AcquireError err); [eauto|done]. Qed.

Section AcquirerTheorems.
Context `{S : Sha256} {W : Type} `{C : Clock W}.

Lemma record_failure_permanent w rc err (a : runtimeTokenAcquirer W) b n a' w' ae :
  nc_ok n -> CredID rc <> [] -> errors_As_AcquireError err = Some ae -> ae_Class ae = AcquireErrorPermanent ->
  record_failure w rc err a b n = (a', w') ->
  exists n' e, aq_Negative a' = Some n' /\ nc_ok n' /\ nc_ttl n' = nc_ttl n /\
    entries (nc_list n') !! CredID rc = Some e /\ ne_err e = ae.
Proof.
  intros Hn Hid Has Hc. unfold record_failure, error_class. rewrite Has, Hc.
  destruct (Now w) as [t w1]. rewrite bool_decide_eq_true_2 by done. destruct (Now w1) as [t2 w2].
  intros [= <- <-]. exists (nc_Put t2 (CredID rc) (Some ae) n). eexists.
  refine (conj eq_refl (conj (nc_Put_ok _ _ _ _ Hn) (conj _ (conj (nc_Put_lookup _ _ _ _ Hn Hid) eq_refl)))).
  unfold nc_Put. destruct (str_eqb _ _); [done|]. by case_bool_decide.
Qed.

(** A permanent failure is remembered.  After an acquisition that ended in a
    permanent error, the negative cache holds that error under the credential's
    digest, and until it expires every further acquisition returns it again: the
    breaker is not consulted and the outcome is the same whatever the base acquirer
    would have done. *)
Theorem Acquire_permanent_negative_cached (a : runtimeTokenAcquirer W) w rc a1 w1 err n :
  aq_Negative a = Some n -> nc_ok n -> CredID rc <> [] ->
  aq_Acquire a w rc = (a1, w1, Err err) -> error_class err = AcquireErrorPermanent ->
  exists n1 e ae, aq_Negative a1 = Some n1 /\ nc_ok n1 /\ errors_As_AcquireError err = Some ae /\
    entries (nc_list n1) !! CredID rc = Some e /\ ne_err e = ae /\
    forall base w2, nc_ttl n <= 0 \/ (Now w2).1 <= ne_expiresAt e ->
      let a1' := {| aq_Base := Some base; aq_Breaker := aq_Breaker a1; aq_Negative := Some n1; aq_Metrics := aq_Metrics a1 |} in
      let '(a2, w3, r) := aq_Acquire a1' w2 rc in
      r = Err (from_acquire ae) /\ w3 = (Now w2).2 /\ aq_Breaker a2 = aq_Breaker a1.
Proof.
  intros Hneg Hok Hid Ha Hc.
  assert (exists n1 e ae, aq_Negative a1 = Some n1 /\ nc_ok n1 /\ nc_ttl n1 = nc_ttl n /\
    errors_As_AcquireError err = Some ae /\ entries (nc_list n1) !! CredID rc = Some e /\ ne_err e = ae /\
    is_Some (aq_Breaker a1)) as (n1 & e & ae & Hn1 & Hok1 & Httl & Has & He & Hae & [b1 Hb1]).
  { unfold aq_Acquire in Ha. rewrite Hneg in Ha.
    destruct (aq_Base a) as [base|]; [|by simplify_eq]. destruct (aq_Breaker a) as [b|]; [|by simplify_eq].
    destruct (Now w) as [t w']. pose proof (nc_Get_ok t (CredID rc) n Hok) as Hok'.
    destruct (nc_Get t (CredID rc) n) as [n' [ae|]] eqn:Eg; simpl in Hok'.
    - simplify_eq. exists n'. unfold nc_Get in Eg. destruct (entries (nc_list n) !! CredID rc) as [e|] eqn:Ee; [|done].
      destruct (_ && _); simplify_eq. exists e, (ne_err e). split_and!; try done. by destruct (ne_err e).
    - destruct (Now w') as [t2 w'']. destruct (AllowRequest t2 b) as [b' []]; simpl in Ha; [|by simplify_eq].
      destruct (base w'' rc) as [w3 [tok|err']]; [by simplify_eq|].
      destruct (record_failure w3 rc err' a b' n') as [a' w4] eqn:Er. simplify_eq.
      destruct (error_class_permanent _ Hc) as (ae & Has & Hp).
      destruct (record_failure_permanent _ _ _ _ _ _ _ _ _ Hok' Hid Has Hp Er) as (n1 & e & H1 & H2 & H3 & H4 & H5).
      exists n1, e, ae. split_and!; try done.
      + rewrite H3. unfold nc_Get in Eg. destruct (entries (nc_list n) !! _); [destruct (_ && _)|]; by simplify_eq.
      + unfold record_failure in Er. destruct (Now w3). destruct (if bool_decide _ then _ else _). by simplify_eq. }
  exists n1, e, ae. split_and!; try done. intros base w2 Ht. unfold aq_Acquire. simpl. rewrite Hb1.
  destruct (Now w2) as [t w3]. simpl in Ht. unfold nc_Get. rewrite He, Httl.
  assert ((0 <? nc_ttl n) && (ne_expiresAt e <? t) = false) as -> by lia. by rewrite Hae.
Qed.
End AcquirerTheorems.

(** An acquirer whose provider always refuses the client. *)
Definition refusing : runtimeTokenAcquirer Z := {|
  aq_Base := Some (fun w _ => (w + 5, Err (AcquireError AcquireErrorPermanent "invalid_client" None)));
  aq_Breaker := Some (NewBreaker 3 30);
  aq_Negative := Some (NewNegativeCache 2 Minute);
  aq_Metrics := None |}.

Lemma Acquire_permanent_negative_cached_witness :
  exists (a1 : runtimeTokenAcquirer Z) e, aq_Negative a1 <> aq_Negative refusing /\
    forall base w2, w2 <= ne_expiresAt e ->
      (aq_Acquire (S := sha_id) (C := tick_clock)
         {| aq_Base := Some base; aq_Breaker := aq_Breaker a1; aq_Negative := aq_Negative a1; aq_Metrics := aq_Metrics a1 |}
         w2 zero_resolved).2 = Err (AcquireError AcquireErrorPermanent "invalid_client" None).
Proof.
  pose (out := aq_Acquire (S := sha_id) (C := tick_clock) refusing 0 zero_resolved).
  destruct (Acquire_permanent_negative_cached (S := sha_id) (C := tick_clock) refusing 0 zero_resolved
              out.1.1 out.1.2 (AcquireError AcquireErrorPermanent "invalid_client" None) (NewNegativeCache 2 Minute))
    as (n1 & e & ae & Hn & _ & Has & _ & _ & H).
  - reflexivity.
  - apply nc_New_ok.
  - vm_compute. congruence.
  - vm_compute. reflexivity.
  - reflexivity.
  - exists out.1.1, e. split; [vm_compute; congruence|]. intros base w2 Hw.
    specialize (H base w2 (or_intror Hw)). rewrite Hn.
    injection Has as <-. clearbody out. revert H. cbv zeta. destruct (aq_Acquire _ _ _) as [[a2 w3] r]. by intros [-> _].
Defined.
