(* ===== verification/TokenCache.v ===== *)
(** * [internal/token/cache.go]: the caching token broker

    Each critical section of [CachingTokenCache] is a function on its state.
    [Get] composes them as one caller sees them; [tc_step] interleaves the
    sections of any number of callers, leaders and background refreshes. *)

From S2P Require Import Prelude GoStrings GoRuntime Compile Credential LRU.
#[local] Open Scope Z_scope.

Definition tokenSkewMargin : Duration := 60 * Second.

Record cacheEntry := {
  ce_resolved : ResolvedCredential;
  ce_token : Token;
  ce_usableUntil : Time;
  ce_refreshAt : Time
}.

(** [inflight] maps an identity to the number of its [acquireCall] object. *)
Record CachingTokenCache := {
  tc_maxEntries : nat;
  tc_list : lru gostring cacheEntry;
  inflight : gmap gostring nat;
  refreshing : gset gostring;
  next_call : nat
}.

Definition NewTokenCache (MaxEntries : Z) : CachingTokenCache :=
  {| tc_maxEntries := if MaxEntries <=? 0 then 1%nat else Z.to_nat MaxEntries;
     tc_list := lru_new; inflight := ∅; refreshing := ∅; next_call := 0%nat |}.

Definition tc_set_list (c : CachingTokenCache) l : CachingTokenCache :=
  {| tc_maxEntries := tc_maxEntries c; tc_list := l; inflight := inflight c;
     refreshing := refreshing c; next_call := next_call c |}.
Definition tc_set_inflight (c : CachingTokenCache) m n : CachingTokenCache :=
  {| tc_maxEntries := tc_maxEntries c; tc_list := tc_list c; inflight := m;
     refreshing := refreshing c; next_call := n |}.
Definition tc_set_refreshing (c : CachingTokenCache) r : CachingTokenCache :=
  {| tc_maxEntries := tc_maxEntries c; tc_list := tc_list c; inflight := inflight c;
     refreshing := r; next_call := next_call c |}.

Definition computeRefreshWindow (usableLifetime : Duration) : Duration :=
  if usableLifetime <=? 0 then 0
  else
    let twentyPercent := usableLifetime ÷ 5 in
    let minWindow := 5 * Minute in
    let maxWindow := usableLifetime ÷ 2 in
    let window := if twentyPercent <? minWindow then minWindow else twentyPercent in
    if maxWindow <? window then maxWindow else window.

Definition getCached (id : gostring) (now : Time) (c : CachingTokenCache) : CachingTokenCache * option TokenResult :=
  match entries (tc_list c) !! id with
  | None => (c, None)
  | Some entry =>
      if negb (now <? ce_usableUntil entry) then (tc_set_list c (removeElement id (tc_list c)), None)
      else (tc_set_list c (moveToFront id (tc_list c)),
            Some {| tr_Token := ce_token entry; tr_Resolved := ce_resolved entry; tr_CacheHit := true |})
  end.

(** The critical section of [maybeRefresh]; [true] starts [backgroundRefresh]. *)
Definition maybeRefresh (resolved : ResolvedCredential) (now : Time) (c : CachingTokenCache) : CachingTokenCache * bool :=
  match entries (tc_list c) !! Identity resolved with
  | None => (c, false)
  | Some entry =>
      if bool_decide (Identity resolved ∉ refreshing c) && negb (now <? ce_refreshAt entry)
      then (tc_set_refreshing c ({[Identity resolved]} ∪ refreshing c), true)
      else (c, false)
  end.

(** The call object and whether the caller leads it. *)
Definition startAcquire (id : gostring) (c : CachingTokenCache) : CachingTokenCache * nat * bool :=
  match inflight c !! id with
  | Some call => (c, call, false)
  | None => (tc_set_inflight c (<[id := next_call c]> (inflight c)) (S (next_call c)), next_call c, true)
  end.

Definition store (resolved : ResolvedCredential) (token : Token) (usableUntil now : Time) (c : CachingTokenCache)
    : CachingTokenCache :=
  let refreshWindow := computeRefreshWindow (Sub usableUntil now) in
  tc_set_list c (lru_put (tc_maxEntries c) (Identity resolved)
    {| ce_resolved := resolved; ce_token := token; ce_usableUntil := usableUntil;
       ce_refreshAt := Add usableUntil (- refreshWindow) |} (tc_list c)).

Definition unusable : error := Errorf "acquired token is unusable: expires within skew margin".

(** The body of [finishAcquire] up to the publication of the call: the fields of
    the call object, given the answer of the provider. *)
Definition finish_store (now : Time) (resolved : ResolvedCredential) (r : result error Token) (c : CachingTokenCache)
    : CachingTokenCache * result error Token :=
  match r with
  | Err err => (c, Err err)
  | Ok token =>
      let usableUntil := Add (ExpiresAt token) (- tokenSkewMargin) in
      if negb (now <? usableUntil) then (c, Err unusable)
      else (store resolved token usableUntil now c, Ok token)
  end.
Definition finish_publish (id : gostring) (c : CachingTokenCache) : CachingTokenCache :=
  tc_set_inflight c (delete id (inflight c)) (next_call c).

(** [backgroundRefresh]: a failed or unusable refresh leaves the entry alone. *)
Definition refresh_store (now : Time) (resolved : ResolvedCredential) (r : result error Token) (c : CachingTokenCache)
    : CachingTokenCache :=
  match r with
  | Err _ => c
  | Ok token =>
      let usableUntil := Add (ExpiresAt token) (- tokenSkewMargin) in
      if negb (now <? usableUntil) then c else store resolved token usableUntil now c
  end.
Definition refresh_done (id : gostring) (c : CachingTokenCache) : CachingTokenCache :=
  tc_set_refreshing c (refreshing c ∖ {[id]}).

(** ** One call of [Get] *)

Section Get.
Context `{U : Unicode} `{S : Sha256} `{N : NetURL} {W : Type} `{C : Clock W}.

(** What a caller depends on outside the cache: the provider, and for a caller
    that joined a call in flight, the fields of that call once it is done or the
    error of its own context. *)
Context (Acquire : W -> ResolvedCredential -> W * result error Token).
Context (await : W -> nat -> W * result error (Token * ResolvedCredential)).

Definition resolve_to_error (e : resolve_error) : error :=
  match e with
  | ErrInvalidScope s => Errorf (bs "invalid scope " ++ s)
  | ErrNilSelector => Errorf "entra: credential selector must not be nil"
  | ErrUnsupportedProvider p => Errorf (bs "entra: unsupported provider " ++ p)
  end.

(** The result comes with the identities whose background refresh was started. *)
Definition tc_Get (c : CachingTokenCache) (w : W) (sel : CredentialSelector)
    : CachingTokenCache * W * list ResolvedCredential * result error TokenResult :=
  match Resolve sel with
  | Err e => (c, w, [], Err (resolve_to_error e))
  | Ok resolved =>
      let '(now, w) := Now w in
      let '(c, hit) := getCached (Identity resolved) now c in
      match hit with
      | Some result =>
          let '(c, refresh) := maybeRefresh resolved now c in
          (c, w, if refresh then [resolved] else [], Ok result)
      | None =>
          let '(c, call, leader) := startAcquire (Identity resolved) c in
          if leader then
            let '(w, r) := Acquire w resolved in
            let '(now, w) := Now w in
            let '(c, r) := finish_store now resolved r c in
            let c := finish_publish (Identity resolved) c in
            match r with
            | Err err => (c, w, [], Err err)
            | Ok token => (c, w, [], Ok {| tr_Token := token; tr_Resolved := resolved; tr_CacheHit := false |})
            end
          else
            let '(w, r) := await w call in
            match r with
            | Err err => (c, w, [], Err err)
            | Ok (token, resolved) =>
                (c, w, [], Ok {| tr_Token := token; tr_Resolved := resolved; tr_CacheHit := false |})
            end
      end
  end.
End Get.

(** ** Invariant of the stored entries *)

Definition entry_ok (id : gostring) (e : cacheEntry) : Prop :=
  Identity (ce_resolved e) = id /\ ce_usableUntil e = ExpiresAt (ce_token e) - tokenSkewMargin /\
  ce_refreshAt e <= ce_usableUntil e.

Definition tc_ok (c : CachingTokenCache) : Prop :=
  lru_ok (tc_list c) /\ (length (ll (tc_list c)) <= tc_maxEntries c)%nat /\
  forall id e, entries (tc_list c) !! id = Some e -> entry_ok id e.

Lemma refresh_window_clamp L :
  0 < L -> computeRefreshWindow L = Z.min (Z.max (L / 5) (5 * Minute)) (L / 2).
Proof.
  intros HL. unfold computeRefreshWindow. rewrite (proj2 (Z.leb_gt L 0) HL), !Z.quot_div_nonneg by lia.
  destruct (Z.ltb_spec (L / 5) (5 * Minute)).
  - destruct (Z.ltb_spec (L / 2) (5 * Minute)); lia.
  - destruct (Z.ltb_spec (L / 2) (L / 5)); lia.
Qed.

Lemma refresh_window_nonneg L : 0 <= computeRefreshWindow L.
Proof.
  destruct (Z.le_gt_cases L 0) as [H|H].
  - unfold computeRefreshWindow. by rewrite (proj2 (Z.leb_le L 0) H).
  - rewrite refresh_window_clamp by done. assert (0 <= L / 2) by (apply Z.div_pos; lia).
    unfold Minute, Second, Millisecond, Microsecond. lia.
Qed.

Lemma getCached_ok id now c : tc_ok c -> tc_ok (getCached id now c).1.
Proof.
  intros (Hl & Hs & He). unfold getCached. destruct (entries (tc_list c) !! id) as [e|] eqn:E; [|done].
  destruct (negb _); simpl; split_and!; simpl.
  - by apply removeElement_ok.
  - pose proof (unlink_length id (ll (tc_list c))). lia.
  - intros k e' H%lookup_delete_Some. naive_solver.
  - by apply moveToFront_ok; [|rewrite E].
  - change (length (ll (moveToFront id (tc_list c))) <= tc_maxEntries c)%nat.
    by rewrite moveToFront_length by (rewrite ?E; done).
  - done.
Qed.

Lemma store_ok resolved token now c :
  tc_ok c -> tc_ok (store resolved token (Add (ExpiresAt token) (- tokenSkewMargin)) now c).
Proof.
  intros (Hl & Hs & He). unfold store. split_and!; simpl.
  - by apply lru_put_ok.
  - by apply lru_put_size.
  - intros id e [[-> ->]|H]%lru_put_entries; [|by apply He]. split_and!; simpl; try done.
    unfold Add. match goal with |- context [computeRefreshWindow ?L] => pose proof (refresh_window_nonneg L) end. lia.
Qed.

Lemma finish_store_ok now resolved r c : tc_ok c -> tc_ok (finish_store now resolved r c).1.
Proof.
  intros H. unfold finish_store. destruct r as [token|]; [|done]. destruct (negb _); [done|]. by apply store_ok.
Qed.

Lemma refresh_store_ok now resolved r c : tc_ok c -> tc_ok (refresh_store now resolved r c).
Proof.
  intros H. unfold refresh_store. destruct r as [token|]; [|done]. destruct (negb _); [done|]. by apply store_ok.
Qed.

Lemma maybeRefresh_ok resolved now c : tc_ok c -> tc_ok (maybeRefresh resolved now c).1.
Proof. intros H. unfold maybeRefresh. destruct (_ !! _); [|done]. by destruct (_ && _). Qed.

Lemma startAcquire_ok id c : tc_ok c -> tc_ok (startAcquire id c).1.1.
Proof. intros H. unfold startAcquire. by destruct (inflight c !! id). Qed.

Lemma getCached_marks_inflight id now c : inflight (getCached id now c).1 = inflight c.
Proof. unfold getCached. destruct (_ !! _); [by destruct (negb _)|done]. Qed.

(** A hit is an unexpired token of the identity asked for. *)
Lemma getCached_hit id now c c' r : tc_ok c -> getCached id now c = (c', Some r) ->
  Identity (tr_Resolved r) = id /\ now + tokenSkewMargin < ExpiresAt (tr_Token r) /\ tr_CacheHit r = true.
Proof.
  intros (_ & _ & He). unfold getCached. destruct (entries (tc_list c) !! id) as [e|] eqn:E; [|done].
  destruct (Z.ltb_spec now (ce_usableUntil e)); simpl; [|done]. intros [= _ <-]. simpl.
  destruct (He _ _ E) as (H1 & H2 & _). split_and!; [done|lia|done].
Qed.

(** the refresh window of a usable lifetime is a fifth of it, at least five
    minutes but never more than half of it, so a stored token is refreshed no
    earlier than half-way through its usable lifetime and no later than its end. *)
Lemma computeRefreshWindow_bounds L :
  (L <= 0 -> computeRefreshWindow L = 0) /\
  (0 < L -> computeRefreshWindow L = Z.min (Z.max (L / 5) (5 * Minute)) (L / 2) /\
            0 <= computeRefreshWindow L <= L / 2).
Proof.
  split; intros HL.
  - unfold computeRefreshWindow. by rewrite (proj2 (Z.leb_le L 0) HL).
  - pose proof (refresh_window_nonneg L). rewrite refresh_window_clamp in * by done. split; [done|lia].
Qed.


Section GetTheorems.
Context `{U : Unicode} `{S : Sha256} `{N : NetURL} {W : Type} `{C : Clock W}.
Context (Acquire : W -> ResolvedCredential -> W * result error Token).
Context (await : W -> nat -> W * result error (Token * ResolvedCredential)).
Context (Acquire_later : forall w rc, (Now w).1 <= (Now (Acquire w rc).1).1).

(** A token handed out by the cache belongs to the identity of the selector that
    was asked for, and it outlives the moment of the call by more than the skew
    margin, unless the caller merely joined an acquisition already in flight.  The
    cache's invariant (one list element per map entry, bounded size, entries filed
    under their own identity) is preserved on every path. *)
Theorem Get_usable c w sel c' w' bg res :
  tc_ok c -> tc_Get Acquire await c w sel = (c', w', bg, res) ->
  tc_ok c' /\
  forall r, res = Ok r -> exists rc, Resolve sel = Ok rc /\
    (inflight c !! Identity rc = None ->
       Identity (tr_Resolved r) = Identity rc /\ (Now w).1 + tokenSkewMargin < ExpiresAt (tr_Token r)).
Proof.
  intros Hc. unfold tc_Get. destruct (Resolve sel) as [rc|e]; [|by intros [= <- <- <- <-]].
  pose proof (Now_mono w) as Hm. destruct (Now w) as [now w1]. simpl in Hm.
  pose proof (getCached_ok (Identity rc) now c Hc) as Hc1.
  destruct (getCached (Identity rc) now c) as [c1 [r|]] eqn:Eg; simpl in Hc1.
  - pose proof (maybeRefresh_ok rc now c1 Hc1) as Hc2. destruct (maybeRefresh rc now c1) as [c2 b]. simpl in Hc2.
    intros [= <- <- <- <-]. split; [done|]. intros r' [= <-]. exists rc. split; [done|]. intros _.
    destruct (getCached_hit _ _ _ _ _ Hc Eg) as (H1 & H2 & _). done.
  - pose proof (startAcquire_ok (Identity rc) c1 Hc1) as Hc2. destruct (startAcquire (Identity rc) c1) as [[c2 call] leader] eqn:Es.
    simpl in Hc2. destruct leader.
    + pose proof (Acquire_later w1 rc) as Hl. destruct (Acquire w1 rc) as [w2 r]. simpl in Hl.
      destruct (Now w2) as [now2 w3]. simpl in Hl. pose proof (finish_store_ok now2 rc r c2 Hc2) as Hc3.
      destruct (finish_store now2 rc r c2) as [c3 [tok|e]] eqn:Ef; simpl in Hc3; intros [= <- <- <- <-]; (split; [done|]); [|done].
      intros r' [= <-]. exists rc. split; [done|]. intros _. split; [done|]. simpl.
      unfold finish_store in Ef. destruct r as [token|]; [|done].
      destruct (Z.ltb_spec now2 (Add (ExpiresAt token) (- tokenSkewMargin))); simplify_eq/=. unfold Add in *. lia.
    + assert (inflight c !! Identity rc <> None) as Hin.
      { unfold startAcquire in Es. unfold getCached in Eg.
        assert (inflight c1 = inflight c) as <- by (destruct (_ !! _); [destruct (negb _)|]; by simplify_eq).
        by destruct (inflight c1 !! Identity rc). }
      destruct (await w1 call) as [w2 [[tok res']|e]]; intros [= <- <- <- <-]; (split; [done|]); [|done].
      intros r' _. exists rc. split; [done|]. done.
Qed.
End GetTheorems.

(** ** Provenance of tokens *)

Section Provenance.
(** Any property of what the provider answers. *)
Context (P : ResolvedCredential -> Token -> Prop).

Definition entries_P (c : CachingTokenCache) : Prop := forall id e, entries (tc_list c) !! id = Some e -> P (ce_resolved e) (ce_token e).

Lemma getCached_entries id now c k e :
  entries (tc_list (getCached id now c).1) !! k = Some e -> entries (tc_list c) !! k = Some e.
Proof.
  unfold getCached. destruct (_ !! id) as [e0|] eqn:E; [|done]. destruct (negb _); cbn; [|done]. by intros [_ ?]%lookup_delete_Some.
Qed.

Lemma getCached_P id now c c' r : entries_P c -> getCached id now c = (c', r) ->
  entries_P c' /\ inflight c' = inflight c /\ forall res, r = Some res -> P (tr_Resolved res) (tr_Token res).
Proof.
  intros Hc Hg. split; [|split].
  - intros k e He. apply (Hc k). eapply getCached_entries. rewrite Hg. exact He.
  - pose proof (getCached_marks_inflight id now c) as Hm. by rewrite Hg in Hm.
  - revert Hg. unfold getCached. destruct (_ !! id) as [e0|] eqn:E; [|by intros [= <- <-]]. destruct (negb _); intros [= <- <-]; [done|].
    intros res [= <-]. by apply (Hc id).
Qed.

Lemma finish_store_P now rc r c c' r' : (forall tok, r = Ok tok -> P rc tok) -> entries_P c -> finish_store now rc r c = (c', r') ->
  entries_P c' /\ forall tok, r' = Ok tok -> P rc tok.
Proof.
  intros Hr Hc. unfold finish_store. destruct r as [tok|]; [|by intros [= <- <-]]. destruct (negb _); [by intros [= <- <-]|]. intros [= <- <-].
  split; [|done]. intros k e. unfold store. cbn. intros [[-> ->]|H]%lru_put_entries; [by apply Hr|by apply (Hc k)].
Qed.

End Provenance.

(** A provider whose tokens live for an hour of the ticking clock. *)
Definition hour_provider (w : Z) (_ : ResolvedCredential) : Z * result error Token :=
  (w + 7, Ok (NewToken "tok" (w + 60 * Minute))).
Definition no_wait (w : Z) (_ : nat) : Z * result error (Token * ResolvedCredential) := (w, Err Canceled).

Lemma NewTokenCache_ok m : tc_ok (NewTokenCache m).
Proof.
  split_and!; simpl; [apply lru_new_ok|destruct (m <=? 0); lia|]. intros id e He. by rewrite lookup_empty in He.
Qed.

Definition first_get :=
  tc_Get (U := ascii_only) (S := sha_id) (N := opaque_urls) (C := tick_clock) hour_provider no_wait
    (NewTokenCache 4) 0 two_scopes.

Lemma Get_usable_witness :
  exists r, first_get.2 = Ok r /\ tokenSkewMargin < ExpiresAt (tr_Token r).
Proof.
  destruct (Get_usable (U := ascii_only) (S := sha_id) (N := opaque_urls) (C := tick_clock) hour_provider no_wait
    ltac:(intros w rc; simpl; lia) (NewTokenCache 4) 0 two_scopes first_get.1.1.1 first_get.1.1.2 first_get.1.2
    first_get.2 (NewTokenCache_ok 4)) as [_ H].
  - unfold first_get. by rewrite <- !surjective_pairing.
  - destruct (first_get.2) as [r|e] eqn:E; [|vm_compute in E; discriminate E].
    exists r. split; [done|]. destruct (H r eq_refl) as (rc & _ & Hrc). apply Hrc, lookup_empty.
Defined.

(** ** Concurrent callers

    Goroutines interleave at critical sections.  A leader is between its
    [startAcquire] and its publication; a refresher between [maybeRefresh] and the
    deferred removal of its mark.  [joined] records which callers wait on which
    call, and [published] the fields of the calls that are done. *)

Inductive phase := Acquiring | Stored (r : result error Token).

Record system := {
  sys_cache : CachingTokenCache;
  leaders : gmap nat (ResolvedCredential * phase);
  refreshers : list (ResolvedCredential * bool);
  joined : list (gostring * nat);
  published : gmap nat (ResolvedCredential * result error Token)
}.

Definition system_init (m : Z) : system :=
  {| sys_cache := NewTokenCache m; leaders := ∅; refreshers := []; joined := []; published := ∅ |}.

Inductive tc_step : system -> system -> Prop :=
| st_lookup id now s :
    tc_step s {| sys_cache := (getCached id now (sys_cache s)).1; leaders := leaders s;
                 refreshers := refreshers s; joined := joined s; published := published s |}
| st_refresh resolved now s c' b :
    maybeRefresh resolved now (sys_cache s) = (c', b) ->
    tc_step s {| sys_cache := c'; leaders := leaders s;
                 refreshers := if b then (resolved, false) :: refreshers s else refreshers s;
                 joined := joined s; published := published s |}
| st_lead resolved s c' n :
    startAcquire (Identity resolved) (sys_cache s) = (c', n, true) ->
    tc_step s {| sys_cache := c'; leaders := <[n := (resolved, Acquiring)]> (leaders s);
                 refreshers := refreshers s; joined := joined s; published := published s |}
| st_join resolved s c' n :
    startAcquire (Identity resolved) (sys_cache s) = (c', n, false) ->
    tc_step s {| sys_cache := c'; leaders := leaders s; refreshers := refreshers s;
                 joined := (Identity resolved, n) :: joined s; published := published s |}
| st_leader_store n resolved answer now s c' r :
    leaders s !! n = Some (resolved, Acquiring) ->
    finish_store now resolved answer (sys_cache s) = (c', r) ->
    tc_step s {| sys_cache := c'; leaders := <[n := (resolved, Stored r)]> (leaders s);
                 refreshers := refreshers s; joined := joined s; published := published s |}
| st_leader_publish n resolved r s :
    leaders s !! n = Some (resolved, Stored r) ->
    tc_step s {| sys_cache := finish_publish (Identity resolved) (sys_cache s); leaders := delete n (leaders s);
                 refreshers := refreshers s; joined := joined s;
                 published := <[n := (resolved, r)]> (published s) |}
| st_refresh_store resolved answer now s l l' :
    refreshers s = l ++ (resolved, false) :: l' ->
    tc_step s {| sys_cache := refresh_store now resolved answer (sys_cache s); leaders := leaders s;
                 refreshers := l ++ (resolved, true) :: l'; joined := joined s; published := published s |}
| st_refresh_done resolved s l l' :
    refreshers s = l ++ (resolved, true) :: l' ->
    tc_step s {| sys_cache := refresh_done (Identity resolved) (sys_cache s); leaders := leaders s;
                 refreshers := l ++ l'; joined := joined s; published := published s |}.

Inductive tc_reachable (m : Z) : system -> Prop :=
| tc_start : tc_reachable m (system_init m)
| tc_more s s' : tc_reachable m s -> tc_step s s' -> tc_reachable m s'.

Definition refresher_ids (s : system) : list gostring := map (fun x => Identity x.1) (refreshers s).

(** The call a number stands for, while in flight or done. *)
Definition call_resolved (s : system) (n : nat) : option ResolvedCredential :=
  match leaders s !! n with Some x => Some x.1 | None => fst <$> published s !! n end.

Record sys_ok (s : system) : Prop := {
  so_cache : tc_ok (sys_cache s);
  so_inflight : forall id n, inflight (sys_cache s) !! id = Some n <->
    exists rc ph, leaders s !! n = Some (rc, ph) /\ Identity rc = id;
  so_fresh : forall n, is_Some (leaders s !! n) \/ is_Some (published s !! n) -> (n < next_call (sys_cache s))%nat;
  so_refresh : NoDup (refresher_ids s) /\ forall id, id ∈ refreshing (sys_cache s) <-> id ∈ refresher_ids s;
  so_joined : forall id n, (id, n) ∈ joined s -> exists rc, call_resolved s n = Some rc /\ Identity rc = id
}.

(** [c'] differs from [c] at most in its stored entries. *)
Definition same_marks (c c' : CachingTokenCache) : Prop :=
  inflight c' = inflight c /\ refreshing c' = refreshing c /\ next_call c' = next_call c.

Lemma getCached_marks id now c : same_marks c (getCached id now c).1.
Proof. unfold getCached. destruct (_ !! _); [by destruct (negb _)|done]. Qed.
Lemma finish_store_marks now rc r c : same_marks c (finish_store now rc r c).1.
Proof. unfold finish_store. destruct r; [by destruct (negb _)|done]. Qed.
Lemma refresh_store_marks now rc r c : same_marks c (refresh_store now rc r c).
Proof. unfold refresh_store. destruct r; [by destruct (negb _)|done]. Qed.

(** Changing stored entries, phases of leaders and of refreshers keeps the
    invariant. *)
Lemma sys_ok_entries s c' ls rs :
  sys_ok s -> tc_ok c' -> same_marks (sys_cache s) c' ->
  (forall n, fst <$> ls !! n = fst <$> leaders s !! n) ->
  map (fun x : ResolvedCredential * bool => Identity x.1) rs = refresher_ids s ->
  sys_ok {| sys_cache := c'; leaders := ls; refreshers := rs; joined := joined s; published := published s |}.
Proof.
  intros [H1 H2 H3 H4 H5] Hc (Hi & Hr & Hn) Hl Hrs.
  assert (forall n, is_Some (ls !! n) <-> is_Some (leaders s !! n)) as Hsome.
  { intros n. specialize (Hl n). destruct (ls !! n), (leaders s !! n); naive_solver. }
  split; simpl.
  - done.
  - intros id n. rewrite Hi, H2. specialize (Hl n).
    destruct (ls !! n) as [[rc ph]|], (leaders s !! n) as [[rc' ph']|]; simplify_eq/=; naive_solver.
  - intros n. rewrite Hn, Hsome. apply H3.
  - unfold refresher_ids in *. simpl. by rewrite Hrs, Hr.
  - intros id n Hin. destruct (H5 _ _ Hin) as (rc & Hrc & Hid). exists rc. split; [|done].
    unfold call_resolved in *. simpl. specialize (Hl n). destruct (ls !! n), (leaders s !! n); simplify_eq/=; congruence.
Qed.

Lemma sys_ok_lead s rc c' n :
  sys_ok s -> startAcquire (Identity rc) (sys_cache s) = (c', n, true) ->
  sys_ok {| sys_cache := c'; leaders := <[n := (rc, Acquiring)]> (leaders s);
            refreshers := refreshers s; joined := joined s; published := published s |}.
Proof.
  intros [H1 H2 H3 H4 H5] Hs. pose proof (startAcquire_ok (Identity rc) _ H1) as Hc. rewrite Hs in Hc.
  unfold startAcquire in Hs. destruct (inflight (sys_cache s) !! Identity rc) eqn:E; simplify_eq/=.
  set (n := next_call (sys_cache s)) in *.
  assert (leaders s !! n = None) as Hn.
  { destruct (leaders s !! n) eqn:En; [|done]. assert (n < n)%nat; [|lia]. apply H3. left. by rewrite En. }
  assert (published s !! n = None) as Hp.
  { destruct (published s !! n) eqn:En; [|done]. assert (n < n)%nat; [|lia]. apply H3. right. by rewrite En. }
  split; simpl; try done.
  - intros id m. destruct (decide (m = n)) as [->|Hm].
    + rewrite lookup_insert_eq. split.
      * intros [[<- _]|[_ H]]%lookup_insert_Some; [by exists rc, Acquiring|].
        apply H2 in H as (? & ? & H & _). congruence.
      * intros (rc' & ph & [= <- <-] & <-). by rewrite lookup_insert_eq.
    + rewrite (lookup_insert_ne (leaders s)) by done. rewrite <- H2, lookup_insert_Some.
      split; [naive_solver|]. intros H. right. split; [|done]. intros <-. congruence.
  - intros m. destruct (decide (m = n)) as [->|Hm]; [lia|]. rewrite lookup_insert_ne by done.
    intros H%H3. lia.
  - intros id m Hin. destruct (H5 _ _ Hin) as (rc' & Hrc & Hid). exists rc'. split; [|done].
    unfold call_resolved in *. simpl. destruct (decide (m = n)) as [->|Hm]; [by rewrite Hn, Hp in Hrc|].
    by rewrite lookup_insert_ne.
Qed.

Lemma sys_ok_publish s n rc r :
  sys_ok s -> leaders s !! n = Some (rc, Stored r) ->
  sys_ok {| sys_cache := finish_publish (Identity rc) (sys_cache s); leaders := delete n (leaders s);
            refreshers := refreshers s; joined := joined s; published := <[n := (rc, r)]> (published s) |}.
Proof.
  intros [H1 H2 H3 H4 H5] Hn. split; simpl; try done.
  - intros id m. destruct (decide (id = Identity rc)) as [->|Hid].
    + rewrite lookup_delete_eq. split; [done|]. intros (rc' & ph & [Hne H]%lookup_delete_Some & Hi).
      assert (inflight (sys_cache s) !! Identity rc = Some n) as E1 by (apply H2; eauto).
      assert (inflight (sys_cache s) !! Identity rc = Some m) as E2 by (apply H2; eauto). congruence.
    + rewrite lookup_delete_ne by done. rewrite H2. split; intros (rc' & ph & H & Hi).
      * exists rc', ph. split; [|done]. apply lookup_delete_Some. split; [|done]. intros ->. congruence.
      * apply lookup_delete_Some in H as [_ H]. by exists rc', ph.
  - intros m [H|H]; apply H3.
    + left. destruct H as [x H]. apply lookup_delete_Some in H as [_ H]. by rewrite H.
    + destruct (decide (m = n)) as [->|]; [left; by rewrite Hn|]. rewrite lookup_insert_ne in H by done. by right.
  - intros id m Hin. destruct (H5 _ _ Hin) as (rc' & Hrc & Hid). exists rc'. split; [|done].
    unfold call_resolved in *. simpl. destruct (decide (m = n)) as [->|Hm].
    + rewrite lookup_delete_eq, lookup_insert_eq. simpl. by rewrite Hn in Hrc.
    + by rewrite lookup_delete_ne, lookup_insert_ne.
Qed.

Lemma sys_ok_refresh s rc now c' b :
  sys_ok s -> maybeRefresh rc now (sys_cache s) = (c', b) ->
  sys_ok {| sys_cache := c'; leaders := leaders s;
            refreshers := if b then (rc, false) :: refreshers s else refreshers s;
            joined := joined s; published := published s |}.
Proof.
  intros H Hs. pose proof (maybeRefresh_ok rc now _ (so_cache _ H)) as Hc. rewrite Hs in Hc. simpl in Hc.
  unfold maybeRefresh in Hs. destruct (_ !! _) as [e|]; [|simplify_eq; by apply (sys_ok_entries s)].
  destruct (bool_decide _) eqn:Hd; simpl in Hs; [|simplify_eq; by apply (sys_ok_entries s)].
  destruct (negb _); simplify_eq; [|by apply (sys_ok_entries s)].
  destruct H as [H1 H2 H3 [H4 H4'] H5]. apply bool_decide_eq_true in Hd. split; simpl; try done.
  unfold refresher_ids in *. simpl. split; [constructor; [by rewrite <- H4'|done]|].
  intros id. rewrite elem_of_cons, elem_of_union, elem_of_singleton, H4'. done.
Qed.

Lemma sys_ok_refresh_done s rc l l' :
  sys_ok s -> refreshers s = l ++ (rc, true) :: l' ->
  sys_ok {| sys_cache := refresh_done (Identity rc) (sys_cache s); leaders := leaders s;
            refreshers := l ++ l'; joined := joined s; published := published s |}.
Proof.
  intros [H1 H2 H3 [H4 H4'] H5] E. split; simpl; try done. unfold refresher_ids in *. simpl.
  rewrite E, map_app in H4, H4'. simpl in H4, H4'. rewrite map_app.
  apply NoDup_app in H4 as (Ha & Hb & Hc). apply NoDup_cons in Hc as [Hc Hd]. split.
  - apply NoDup_app. split_and!; [done| |done]. intros x Hx Hx'. apply (Hb x Hx). by right.
  - intros id. rewrite elem_of_difference, elem_of_singleton, H4', !elem_of_app, elem_of_cons. split; [naive_solver|].
    intros [Hx|Hx]; (split; [tauto|]); intros ->; [|done]. apply (Hb _ Hx). by left.
Qed.

Lemma tc_reachable_ok m s : tc_reachable m s -> sys_ok s.
Proof.
  induction 1 as [|s s' _ IH Hstep].
  - split; simpl; try done.
    + apply NewTokenCache_ok.
    + intros id n. rewrite lookup_empty. split; [done|]. intros (? & ? & H & _). by rewrite lookup_empty in H.
    + intros n. rewrite !lookup_empty. by intros [[? ?]|[? ?]].
    + split; [constructor|]. intros id. simpl. by rewrite elem_of_empty, elem_of_nil.
    + intros id n H. by apply elem_of_nil in H.
  - pose proof (so_cache _ IH) as Hc. destruct Hstep.
    + apply (sys_ok_entries s); [done|by apply getCached_ok|apply getCached_marks|done..].
    + by eapply sys_ok_refresh.
    + by eapply sys_ok_lead.
    + unfold startAcquire in H. destruct (inflight (sys_cache s) !! Identity resolved) as [k|] eqn:E; simplify_eq.
      destruct IH as [H1 H2 H3 H4 H5]. split; simpl; try done. intros id k' [[= -> ->]|Hin]%elem_of_cons; [|by apply H5].
      apply H2 in E as (rc & ph & E & Hid). exists rc. split; [|done]. unfold call_resolved. simpl. by rewrite E.
    + pose proof (finish_store_ok now resolved answer _ Hc) as Hc'.
      pose proof (finish_store_marks now resolved answer (sys_cache s)) as Hm. rewrite H0 in Hc', Hm.
      apply (sys_ok_entries s); try done. intros k. destruct (decide (k = n)) as [->|];
        [rewrite lookup_insert_eq, H; done|by rewrite lookup_insert_ne].
    + by apply sys_ok_publish.
    + apply (sys_ok_entries s); [done|by apply refresh_store_ok|apply refresh_store_marks|done|].
      unfold refresher_ids. by rewrite H, !map_app.
    + by eapply sys_ok_refresh_done.
Qed.

(** C17: under every interleaving of callers, leaders and background refreshes there
    is at most one acquisition in flight and at most one refresh per identity, every
    caller that joined a call is served by a call for its own identity, and the
    stored entries keep their invariant: bounded in number, filed under their own
    identity and usable only up to a minute before the token expires. *)
Theorem token_cache_single_flight m s :
  tc_reachable m s ->
  (forall n n' x x', leaders s !! n = Some x -> leaders s !! n' = Some x' -> Identity x.1 = Identity x'.1 -> n = n') /\
  NoDup (refresher_ids s) /\
  (forall id n, (id, n) ∈ joined s -> exists rc, call_resolved s n = Some rc /\ Identity rc = id) /\
  (length (ll (tc_list (sys_cache s))) <= tc_maxEntries (sys_cache s))%nat /\
  (forall id e, entries (tc_list (sys_cache s)) !! id = Some e -> entry_ok id e).
Proof.
  intros H%tc_reachable_ok. destruct H as [(H1 & H1' & H1'') H2 H3 [H4 H4'] H5]. split_and!; try done.
  intros n n' [rc ph] [rc' ph'] Hn Hn' Hid. simpl in Hid.
  assert (inflight (sys_cache s) !! Identity rc = Some n) as E by (apply H2; eauto).
  assert (inflight (sys_cache s) !! Identity rc = Some n') as E' by (apply H2; eauto). congruence.
Qed.

(** One caller leads a call for the empty identity and a second one joins it. *)
Definition led : CachingTokenCache := (startAcquire (Identity zero_resolved) (NewTokenCache 2)).1.1.
Definition one_led : system :=
  {| sys_cache := led; leaders := <[0%nat := (zero_resolved, Acquiring)]> ∅; refreshers := [];
     joined := []; published := ∅ |}.
Definition one_joined : system :=
  {| sys_cache := led; leaders := leaders one_led; refreshers := [];
     joined := [(Identity zero_resolved, 0%nat)]; published := ∅ |}.

Lemma one_joined_reachable : tc_reachable 2 one_joined.
Proof.
  apply (tc_more 2 one_led).
  - apply (tc_more 2 (system_init 2)); [apply tc_start|].
    exact (st_lead zero_resolved (system_init 2) led 0%nat eq_refl).
  - exact (st_join zero_resolved one_led led 0%nat eq_refl).
Qed.

Lemma token_cache_single_flight_witness :
  tc_reachable 2 one_joined /\
  exists rc, call_resolved one_joined 0%nat = Some rc /\ Identity rc = Identity zero_resolved.
Proof.
  split; [apply one_joined_reachable|].
  apply (token_cache_single_flight 2 _ one_joined_reachable). left.
Defined.
