(* ===== verification/Decision.v ===== *)
(** * [internal/pipeline]: decisions, request state and audit events

    [decision.go], [deny_reason.go] and [types.go]. *)

From S2P Require Import Prelude GoStrings GoRuntime Compile Match Credential.
#[local] Open Scope Z_scope.

(** The constants of the enumeration; [DispositionOther] stands for any other
    value of the underlying integer type. *)
Inductive Disposition :=
| DispositionInvalid
| DispositionAllow
| DispositionDeny
| DispositionPending
| DispositionOther (d : Z).
#[global] Instance Disposition_eq_dec : EqDecision Disposition.
Proof. solve_decision. Defined.

Inductive DenyReason :=
| ReasonNone
| ReasonNoMatch
| ReasonNoSnapshot
| ReasonSnapshotStale
| ReasonTokenUnavailable
| ReasonAuditUnavailable
| ReasonIdentityMismatch
| ReasonUnsupportedProtocol
| ReasonNoSNI
| ReasonMatcherFault
| ReasonInternal
| ReasonMalformedTarget
| ReasonResourceLimit
| ReasonPodLocalDestination
| ReasonDraining
| ReasonHandlerPanic
| ReasonDialFailed
| ReasonWriteFailed
| ReasonResponseFailed
| ReasonProgressDeadline
| ReasonRegistryAddFailed
| ReasonHandshakeFailed
| ReasonLoopGuard
| ReasonMissingClientHello
| ReasonNoOriginalDst.
#[global] Instance DenyReason_eq_dec : EqDecision DenyReason.
Proof. solve_decision. Defined.

Definition DenyReason_String (r : DenyReason) : gostring :=
  match r with
  | ReasonNone => "unspecified"
  | ReasonNoMatch => "policy_no_match"
  | ReasonNoSnapshot => "policy_cache_empty"
  | ReasonSnapshotStale => "policy_cache_stale"
  | ReasonTokenUnavailable => "token_acquisition_failed"
  | ReasonAuditUnavailable => "audit_failed"
  | ReasonIdentityMismatch => "identity_mismatch"
  | ReasonUnsupportedProtocol => "unsupported_protocol"
  | ReasonNoSNI => "no_sni"
  | ReasonMatcherFault => "matcher_fault"
  | ReasonInternal => "internal"
  | ReasonMalformedTarget => "malformed_target"
  | ReasonResourceLimit => "resource_limit"
  | ReasonPodLocalDestination => "destination_pod_local"
  | ReasonDraining => "draining"
  | ReasonHandlerPanic => "handler_panic"
  | ReasonDialFailed => "dial_failed"
  | ReasonWriteFailed => "write_failed"
  | ReasonResponseFailed => "response_failed"
  | ReasonProgressDeadline => "progress_deadline"
  | ReasonRegistryAddFailed => "registry_add_failed"
  | ReasonHandshakeFailed => "handshake_failed"
  | ReasonLoopGuard => "loop_guard"
  | ReasonMissingClientHello => "missing_client_hello"
  | ReasonNoOriginalDst => "no_original_dst"
  end.

Definition all_reasons : list DenyReason :=
  [ReasonNone; ReasonNoMatch; ReasonNoSnapshot; ReasonSnapshotStale; ReasonTokenUnavailable; ReasonAuditUnavailable; ReasonIdentityMismatch; ReasonUnsupportedProtocol; ReasonNoSNI; ReasonMatcherFault; ReasonInternal; ReasonMalformedTarget; ReasonResourceLimit; ReasonPodLocalDestination; ReasonDraining; ReasonHandlerPanic; ReasonDialFailed; ReasonWriteFailed; ReasonResponseFailed; ReasonProgressDeadline; ReasonRegistryAddFailed; ReasonHandshakeFailed; ReasonLoopGuard; ReasonMissingClientHello; ReasonNoOriginalDst].

Record Decision := {
  disposition : Disposition;
  Reason : DenyReason;
  Fault : bool;
  Cause : option error
}.

(** [Decision{}]. *)
Definition zero_decision : Decision :=
  {| disposition := DispositionInvalid; Reason := ReasonNone; Fault := false; Cause := None |}.

Definition Allow : Decision :=
  {| disposition := DispositionAllow; Reason := ReasonNone; Fault := false; Cause := None |}.
Definition Deny (reason : DenyReason) (cause : option error) : Decision :=
  {| disposition := DispositionDeny; Reason := reason; Fault := false; Cause := cause |}.
Definition DenyFault (reason : DenyReason) (cause : option error) : Decision :=
  {| disposition := DispositionDeny; Reason := reason; Fault := true; Cause := cause |}.
Definition Pending : Decision :=
  {| disposition := DispositionPending; Reason := ReasonNone; Fault := false; Cause := None |}.
Definition IsAllow (d : Decision) : bool := bool_decide (disposition d = DispositionAllow).

Inductive FaultClass := FaultClassNone | FaultClassTransient | FaultClassPermanent | FaultClassLocal.
#[global] Instance FaultClass_eq_dec : EqDecision FaultClass.
Proof. solve_decision. Defined.

Definition FaultClass_String (f : FaultClass) : gostring :=
  match f with
  | FaultClassNone => "none"
  | FaultClassTransient => "transient"
  | FaultClassPermanent => "permanent"
  | FaultClassLocal => "local"
  end.

(** The fields of [http.Request] the pipeline touches.  A nil pointer or map is
    [None]. *)
Record ReqURL := { ru_Path : gostring; ru_RawPath : gostring }.
Record Request := {
  rq_Method : gostring;
  rq_URL : option ReqURL;
  rq_Host : gostring;
  rq_Header : option Header;
  rq_Trailer : option Header
}.

Record IdentityInput := {
  SNI : gostring;
  AuthorityHost : gostring;
  AuthorityPort : Z;
  DestinationPort : Z
}.

Record RequestContext := {
  c_Request : option Request;
  c_Identity : IdentityInput;
  c_Transport : Transport;
  c_Facts : RequestFacts;
  c_MatchResult : MatchResult;
  c_TokenResult : TokenResult;
  c_Decision : Decision;
  c_StartTime : Time;
  c_RequestID : gostring;
  c_Timings : option (gmap gostring Duration)
}.

(** Assignments to fields of [*rc]. *)
Definition set_request (rc : RequestContext) r : RequestContext :=
  {| c_Request := r; c_Identity := c_Identity rc; c_Transport := c_Transport rc; c_Facts := c_Facts rc;
     c_MatchResult := c_MatchResult rc; c_TokenResult := c_TokenResult rc; c_Decision := c_Decision rc;
     c_StartTime := c_StartTime rc; c_RequestID := c_RequestID rc; c_Timings := c_Timings rc |}.
Definition set_facts (rc : RequestContext) f t : RequestContext :=
  {| c_Request := c_Request rc; c_Identity := c_Identity rc; c_Transport := t; c_Facts := f;
     c_MatchResult := c_MatchResult rc; c_TokenResult := c_TokenResult rc; c_Decision := c_Decision rc;
     c_StartTime := c_StartTime rc; c_RequestID := c_RequestID rc; c_Timings := c_Timings rc |}.
Definition set_match (rc : RequestContext) m : RequestContext :=
  {| c_Request := c_Request rc; c_Identity := c_Identity rc; c_Transport := c_Transport rc; c_Facts := c_Facts rc;
     c_MatchResult := m; c_TokenResult := c_TokenResult rc; c_Decision := c_Decision rc;
     c_StartTime := c_StartTime rc; c_RequestID := c_RequestID rc; c_Timings := c_Timings rc |}.
Definition set_token (rc : RequestContext) t : RequestContext :=
  {| c_Request := c_Request rc; c_Identity := c_Identity rc; c_Transport := c_Transport rc; c_Facts := c_Facts rc;
     c_MatchResult := c_MatchResult rc; c_TokenResult := t; c_Decision := c_Decision rc;
     c_StartTime := c_StartTime rc; c_RequestID := c_RequestID rc; c_Timings := c_Timings rc |}.
Definition set_decision (rc : RequestContext) d : RequestContext :=
  {| c_Request := c_Request rc; c_Identity := c_Identity rc; c_Transport := c_Transport rc; c_Facts := c_Facts rc;
     c_MatchResult := c_MatchResult rc; c_TokenResult := c_TokenResult rc; c_Decision := d;
     c_StartTime := c_StartTime rc; c_RequestID := c_RequestID rc; c_Timings := c_Timings rc |}.
Definition set_clock (rc : RequestContext) s t : RequestContext :=
  {| c_Request := c_Request rc; c_Identity := c_Identity rc; c_Transport := c_Transport rc; c_Facts := c_Facts rc;
     c_MatchResult := c_MatchResult rc; c_TokenResult := c_TokenResult rc; c_Decision := c_Decision rc;
     c_StartTime := s; c_RequestID := c_RequestID rc; c_Timings := t |}.

Record AuditTimings := { at_Total : Duration; at_Match : Duration; at_Acquire : Duration; at_Audit : Duration }.

Record AuditEvent := {
  ev_Timestamp : Time;
  ev_RequestID : gostring;
  ev_Identity : gostring;
  ev_Method : gostring;
  ev_Path : gostring;
  ev_Port : Z;
  ev_Disposition : Disposition;
  ev_DenyReason : DenyReason;
  ev_Fault : bool;
  ev_FaultClass : FaultClass;
  ev_PolicyVersion : gostring;
  ev_RuleName : gostring;
  ev_CredentialID : gostring;
  ev_CacheHit : bool;
  ev_Ambiguous : bool;
  ev_PodNamespace : gostring;
  ev_PodName : gostring;
  ev_PodUID : gostring;
  ev_AgentServiceAccount : gostring;
  ev_Transport : Transport;
  ev_ServiceUID : gostring;
  ev_ServiceGeneration : Z;
  ev_EvaluatorVersion : gostring;
  ev_CredentialProvider : gostring;
  ev_CredentialResource : gostring;
  ev_CredentialScopes : list gostring;
  ev_CredentialExpiresAt : Time;
  ev_Timings : AuditTimings;
  ev_CompletionStatus : Z;
  ev_CompletionBytes : Z;
  ev_CompletionDuration : Duration
}.

(** Only the four named constructors exist for callers of the package, and only
    [Allow] allows: the zero value does not. *)
Lemma IsAllow_spec d : IsAllow d = true <-> disposition d = DispositionAllow.
Proof. apply bool_decide_eq_true. Qed.

(** the texts of the deny reasons are pairwise different, so a reason can be
    recovered from an audit record. *)
Lemma DenyReason_String_injective r r' : DenyReason_String r = DenyReason_String r' -> r = r'.
Proof.
  intros H. assert (forall x, List.find (fun y => str_eqb (DenyReason_String y) (DenyReason_String x)) all_reasons = Some x) as Hf
    by (intros []; vm_compute; reflexivity).
  pose proof (Hf r) as H1. rewrite H, Hf in H1. congruence.
Qed.
