(* ===== verification/Stages.v ===== *)
(** * [internal/pipeline]: the five stages

    [sanitise.go], [identity_stage.go], [match_stage.go], [acquire_stage.go] and
    [inject_stage.go].  A stage acts on an environment [E] (clock, policy store,
    token cache) and on the request context it is given a pointer to; a nil pointer
    is [None].  It returns a decision or panics. *)

From S2P Require Import Prelude GoStrings GoRuntime Canonicalize Compile Match Credential Decision.
#[local] Open Scope Z_scope.

Inductive outcome := Returned (d : Decision) | Panicked.

Record Stage (E : Type) := {
  st_Name : gostring;
  st_Execute : E -> option RequestContext -> E * option RequestContext * outcome
}.
Arguments st_Name {E} _.
Arguments st_Execute {E} _ _ _.

Definition missing_request : error := Errorf "request context missing request".

(** ** Sanitise *)

Definition hopByHop (lower : gostring) : bool :=
  bool_decide (lower ∈ [bs "connection"; bs "keep-alive"; bs "proxy-authenticate"; bs "proxy-connection";
                        bs "te"; bs "transfer-encoding"; bs "upgrade"]).

Definition shouldStrip (lower : gostring) : bool :=
  bool_decide (lower ∈ [bs "authorization"; bs "proxy-authorization"; bs "forwarded"; bs "via"; bs "x-real-ip"]) ||
  HasPrefix lower "x-forwarded-" || HasPrefix lower "x-envoy-" || HasPrefix lower "x-aksh-".

Section Sanitise.
Context `{U : Unicode}.

(** The lower-cased names listed by the values of the Connection header. *)
Definition connectionNominated (h : option Header) : list gostring :=
  let vals := match h with Some h => Values h "Connection" | None => [] end in
  map ToLower (filter (fun n => n <> []) (map TrimSpace (concat (map (fun v => Split v ",") vals)))).

Definition strip_header (nominated : list gostring) (key : gostring) : bool :=
  let lower := ToLower key in
  shouldStrip lower || hopByHop lower || bool_decide (lower ∈ nominated).

Definition with_headers (r : Request) h t : Request :=
  {| rq_Method := rq_Method r; rq_URL := rq_URL r; rq_Host := rq_Host r; rq_Header := h; rq_Trailer := t |}.

Definition sanitise_request (r : Request) : Request :=
  let nominated := connectionNominated (rq_Header r) in
  with_headers r (delete_keys (strip_header nominated) <$> rq_Header r)
                 (delete_keys (fun key => shouldStrip (ToLower key)) <$> rq_Trailer r).

Definition SanitiseStage {E} : Stage E := {|
  st_Name := "sanitise";
  st_Execute e rc :=
    match rc with
    | None => (e, None, Returned (DenyFault ReasonInternal (Some missing_request)))
    | Some rc =>
        match c_Request rc with
        | None => (e, Some rc, Returned (DenyFault ReasonInternal (Some missing_request)))
        | Some r => (e, Some (set_request rc (Some (sanitise_request r))), Returned Allow)
        end
    end
|}.
End Sanitise.

(** ** Identity *)

Definition authorityHasPortSyntax (host : gostring) : bool :=
  if str_eqb host [] then false
  else if HasPrefix host "[" then
    match LastIndexByte host "]" with
    | None => false
    | Some closing => bool_decide (host !! (closing + 1)%nat = Some ":"%char)
    end
  else if negb (ContainsByte host ":") then false
  else match ParseAddr host with Some _ => false | None => true end.

(** [Ok None] when the host carries no port; [Err tt] is [errMalformedHostPort]. *)
Definition authorityPortFromRequestHost (host : gostring) : result unit (option Z) :=
  if negb (authorityHasPortSyntax host) then Ok None
  else
    match SplitHostPort host with
    | None => Err tt
    | Some (parsedHost, parsedPort) =>
        match Atoi parsedPort with
        | None => Err tt
        | Some portNum =>
            if str_eqb parsedHost [] || (portNum <=? 0) || (65535 <? portNum) then Err tt
            else Ok (Some (uint16 portNum))
        end
    end.

(** [url.PathUnescape]; [None] is an [EscapeError]. *)
Fixpoint PathUnescape (s : gostring) : option gostring :=
  match s with
  | [] => Some []
  | c :: r =>
      if negb (ascii_eqb c "%") then cons c <$> PathUnescape r
      else
        match r with
        | h :: l :: r' =>
            if (unhex h <? 0) || (unhex l <? 0) then None
            else cons (escaped_byte h l) <$> PathUnescape r'
        | _ => None
        end
  end.

Definition errMalformedHostPort : error := Errorf "host port must be between 1 and 65535".
Definition no_identity : error := Errorf "no SNI or Host identity".

Definition path_to_error (e : path_error) : error :=
  match e with
  | EmptyPath => Errorf "empty path"
  | PathBackslash => Errorf "path contains backslash"
  | MalformedEscape i => Errorf (bs "malformed percent-escape at position " ++ Itoa i)
  | PathNullByte => Errorf "path contains null byte"
  | NoLeadingSlash => Errorf "path must start with /"
  | TraversalPastRoot => Errorf "path traversal past root"
  end.

Section Identity.
Context `{U : Unicode}.

(** The identity both names agree on, or the decision that refuses them. *)
Definition agreed_identity (sni host : gostring) : result Decision gostring :=
  if str_eqb sni [] && str_eqb host [] then Err (Deny ReasonIdentityMismatch (Some no_identity))
  else if negb (str_eqb sni []) && negb (str_eqb host []) && negb (str_eqb sni host)
  then Err (Deny ReasonIdentityMismatch None)
  else Ok (if str_eqb sni [] then host else sni).

(** The port checks. *)
Definition check_port (id : IdentityInput) (requestHost : gostring) : result Decision unit :=
  match authorityPortFromRequestHost requestHost with
  | Err _ => Err (Deny ReasonMalformedTarget (Some errMalformedHostPort))
  | Ok parsed =>
      let authorityPort := AuthorityPort id in
      match parsed with
      | Some p =>
          if negb (authorityPort =? 0) && negb (authorityPort =? p) then Err (Deny ReasonIdentityMismatch None)
          else if negb (p =? 0) && negb (p =? DestinationPort id) then Err (Deny ReasonIdentityMismatch None)
          else Ok tt
      | None =>
          if negb (authorityPort =? 0) && negb (authorityPort =? DestinationPort id)
          then Err (Deny ReasonIdentityMismatch None) else Ok tt
      end
  end.

(** The encoded path to canonicalise. *)
Definition raw_path (u : ReqURL) : gostring :=
  let rawPath := if str_eqb (ru_RawPath u) [] then ru_Path u else ru_RawPath u in
  if str_eqb rawPath [] then "/" else rawPath.

Definition chosen_transport (t : Transport) (sni : gostring) : Transport :=
  match t with
  | TransportUnset => if str_eqb sni [] then TransportPlaintext else TransportTLS
  | _ => t
  end.

(** Everything after the identity, the ports and the path have been accepted. *)
Definition identify (rc : RequestContext) (r : Request) (identity path : gostring) : RequestContext :=
  let decoded := match PathUnescape path with Some d => d | None => path end in
  let transport := chosen_transport (c_Transport rc) (ToLower (SNI (c_Identity rc))) in
  let r' := {| rq_Method := rq_Method r; rq_URL := Some {| ru_Path := decoded; ru_RawPath := path |};
               rq_Host := identity; rq_Header := rq_Header r; rq_Trailer := rq_Trailer r |} in
  set_facts (set_request rc (Some r'))
    {| rf_Identity := identity; rf_Method := rq_Method r; rf_Path := path;
       rf_Port := DestinationPort (c_Identity rc); rf_Transport := transport |} transport.

Definition identity_execute (rc : RequestContext) : RequestContext * Decision :=
  match c_Request rc with
  | None => (rc, DenyFault ReasonInternal (Some missing_request))
  | Some r =>
      match rq_URL r with
      | None => (rc, DenyFault ReasonInternal (Some missing_request))
      | Some u =>
          let sni := ToLower (SNI (c_Identity rc)) in
          let host := ToLower (AuthorityHost (c_Identity rc)) in
          match agreed_identity sni host with
          | Err d => (rc, d)
          | Ok identity =>
              match check_port (c_Identity rc) (rq_Host r) with
              | Err d => (rc, d)
              | Ok _ =>
                  match CanonicalizePath (raw_path u) with
                  | Err e => (rc, Deny ReasonMalformedTarget (Some (path_to_error e)))
                  | Ok path => (identify rc r identity path, Allow)
                  end
              end
          end
      end
  end.

Definition IdentityStage {E} : Stage E := {|
  st_Name := "identity";
  st_Execute e rc :=
    match rc with
    | None => (e, None, Returned (DenyFault ReasonInternal (Some missing_request)))
    | Some rc => let '(rc, d) := identity_execute rc in (e, Some rc, Returned d)
    end
|}.
End Identity.

(** ** Match *)

Definition defaultMaxStaleness : Duration := 5 * Minute.

(** [Store.Current] may read the clock; [None] is [ok == false]. *)
Record MatchStage (E : Type) := {
  ms_Store : option (E -> E * option (compiledSnapshot * Duration));
  ms_Matcher : option (compiledSnapshot -> RequestFacts -> result error MatchResult);
  ms_MaxStaleness : Duration
}.
Arguments ms_Store {E} _. Arguments ms_Matcher {E} _. Arguments ms_MaxStaleness {E} _.

Definition maxStaleness {E} (s : MatchStage E) : Duration :=
  if 0 <? ms_MaxStaleness s then ms_MaxStaleness s else defaultMaxStaleness.

Definition match_execute {E} (s : option (MatchStage E)) (e : E) (rc : option RequestContext)
    : E * option RequestContext * outcome :=
  let unconfigured := (e, rc, Returned (DenyFault ReasonInternal (Some (Errorf "match stage is not configured")))) in
  match s with
  | None => unconfigured
  | Some s =>
      match ms_Store s, ms_Matcher s with
      | Some current, Some matcher =>
          let '(e, cur) := current e in
          match cur with
          | None => (e, rc, Returned (DenyFault ReasonNoSnapshot None))
          | Some (snap, age) =>
              if (age <? 0) || (maxStaleness s <=? age) then (e, rc, Returned (DenyFault ReasonSnapshotStale None))
              else
                match rc with
                | None => (e, rc, Panicked)
                | Some rc =>
                    match matcher snap (c_Facts rc) with
                    | Err err => (e, Some rc, Returned (DenyFault ReasonMatcherFault (Some err)))
                    | Ok result =>
                        if negb (Matched result) then (e, Some rc, Returned (Deny ReasonNoMatch None))
                        else (e, Some (set_match rc result), Returned Allow)
                    end
                end
          end
      | _, _ => unconfigured
      end
  end.

Definition Match_stage {E} (s : option (MatchStage E)) : Stage E :=
  {| st_Name := "match"; st_Execute := match_execute s |}.

(** ** Acquire *)

(** The scopes are copied. *)
Definition toTokenSelector (sel : option CredentialSelector) : CredentialSelector :=
  match sel with
  | None => {| Provider := []; Resource := []; Scopes := [] |}
  | Some sel => {| Provider := Provider sel; Resource := Resource sel; Scopes := Scopes sel |}
  end.

Definition acquire_execute {E} (cache : option (E -> CredentialSelector -> E * result error TokenResult))
    (e : E) (rc : option RequestContext) : E * option RequestContext * outcome :=
  match rc with
  | None => (e, None, Returned (DenyFault ReasonInternal (Some (Errorf "request context is nil"))))
  | Some rc =>
      match mr_Credential (c_MatchResult rc) with
      | None => (e, Some (set_token rc zero_result), Returned Allow)
      | Some cred =>
          match cache with
          | None => (e, Some rc, Returned (DenyFault ReasonInternal (Some (Errorf "acquire stage cache is not configured"))))
          | Some get =>
              let '(e, r) := get e (toTokenSelector (Some cred)) in
              match r with
              | Err err => (e, Some rc, Returned (DenyFault ReasonTokenUnavailable (Some err)))
              | Ok result => (e, Some (set_token rc result), Returned Allow)
              end
          end
      end
  end.

Definition AcquireStage {E} cache : Stage E := {| st_Name := "acquire"; st_Execute := acquire_execute cache |}.

(** ** Inject *)

Definition bearer (tokenValue : gostring) : gostring := bs "Bearer " ++ tokenValue.

(** [Header.Set] on a nil map panics. *)
Definition inject_execute {E} (e : E) (rc : option RequestContext) : E * option RequestContext * outcome :=
  match rc with
  | None => (e, None, Returned (DenyFault ReasonInternal (Some missing_request)))
  | Some rc =>
      match c_Request rc with
      | None => (e, Some rc, Returned (DenyFault ReasonInternal (Some missing_request)))
      | Some r =>
          let tokenValue := Reveal (tr_Token (c_TokenResult rc)) in
          if str_eqb tokenValue [] then (e, Some rc, Returned Allow)
          else
            match rq_Header r with
            | None => (e, Some rc, Panicked)
            | Some h =>
                let r' := with_headers r (Some (Set_ h "Authorization" (bearer tokenValue))) (rq_Trailer r) in
                (e, Some (set_request rc (Some r')), Returned Allow)
            end
      end
  end.

Definition InjectStage {E} : Stage E := {| st_Name := "inject"; st_Execute := inject_execute |}.

(** ** Theorems *)

Section SanitiseTheorems.
Context `{U : Unicode}.

Lemma nominated_spec h n :
  n ∈ connectionNominated (Some h) <->
  exists v item, v ∈ Values h "Connection" /\ item ∈ Split v "," /\ TrimSpace item <> [] /\ n = ToLower (TrimSpace item).
Proof.
  unfold connectionNominated. rewrite list_elem_of_fmap. split.
  - intros (m & -> & Hm). apply list_elem_of_filter in Hm as [Hne Hm]. apply list_elem_of_fmap in Hm as (item & -> & Hm).
    rewrite list_elem_of_In, in_concat in Hm. destruct Hm as (items & Hi & Hin).
    apply in_map_iff in Hi as (v & <- & Hv). exists v, item. rewrite !list_elem_of_In. done.
  - intros (v & item & Hv & Hi & Hne & ->). exists (TrimSpace item). split; [done|].
    apply list_elem_of_filter. split; [done|]. apply list_elem_of_fmap. exists item. split; [done|].
    rewrite list_elem_of_In, in_concat. exists (Split v ","). rewrite <- !list_elem_of_In. split; [|done].
    apply list_elem_of_fmap. by exists v.
Qed.

(** Sanitising removes, whatever the case of their names, every credential and
    forgeable provenance header, every hop-by-hop header and every header named in a
    Connection header (which is read before it is itself removed), and forwards all
    other headers unchanged; trailers lose the credential and provenance names. *)
Theorem sanitise_headers r h :
  rq_Header r = Some h ->
  exists h', rq_Header (sanitise_request r) = Some h' /\
    (forall k, shouldStrip (ToLower k) = true \/ hopByHop (ToLower k) = true -> h' !! k = None) /\
    (forall v item k, v ∈ Values h "Connection" -> item ∈ Split v "," -> TrimSpace item <> [] ->
       ToLower k = ToLower (TrimSpace item) -> h' !! k = None) /\
    (forall k, shouldStrip (ToLower k) = false -> hopByHop (ToLower k) = false ->
       (forall v item, v ∈ Values h "Connection" -> item ∈ Split v "," -> TrimSpace item <> [] ->
          ToLower k <> ToLower (TrimSpace item)) -> h' !! k = h !! k) /\
    (forall t, rq_Trailer r = Some t -> exists t', rq_Trailer (sanitise_request r) = Some t' /\
       forall k, t' !! k = if shouldStrip (ToLower k) then None else t !! k).
Proof.
  intros Hh. unfold sanitise_request. simpl. rewrite Hh. simpl. eexists. split; [done|]. split_and!.
  - intros k Hk. rewrite delete_keys_lookup. unfold strip_header. destruct Hk as [-> | ->]; [done|].
    by rewrite orb_true_r.
  - intros v item k Hv Hi Hne Hk. rewrite delete_keys_lookup. unfold strip_header.
    rewrite (bool_decide_eq_true_2 (ToLower k ∈ _)); [by rewrite orb_true_r|].
    apply nominated_spec. by exists v, item.
  - intros k H1 H2 H3. rewrite delete_keys_lookup. unfold strip_header. rewrite H1, H2. simpl.
    rewrite bool_decide_eq_false_2; [done|]. intros (v & item & Hv & Hi & Hne & E)%nominated_spec. by apply (H3 v item).
  - intros t ->. simpl. eexists. split; [done|]. intros k.
    exact (delete_keys_lookup (fun key => shouldStrip (ToLower key)) t k).
Qed.
End SanitiseTheorems.

(** A request that tries to smuggle a header past the removal. *)
Definition smuggling_header : Header :=
  <[bs "Connection" := [bs "close, X-Secret"]]> (<[bs "X-Secret" := [bs "1"]]>
  (<[bs "AUTHORIZATION" := [bs "Bearer x"]]> (<[bs "Accept" := [bs "text/html"]]> ∅))).
Definition smuggling_request : Request :=
  {| rq_Method := "GET"; rq_URL := Some {| ru_Path := "/v1/users"; ru_RawPath := [] |}; rq_Host := "api.example.com:443";
     rq_Header := Some smuggling_header; rq_Trailer := None |}.

Lemma sanitise_headers_witness :
  exists h', rq_Header (sanitise_request (U := ascii_only) smuggling_request) = Some h' /\
    h' !! bs "AUTHORIZATION" = None /\ h' !! bs "X-Secret" = None /\ h' !! bs "Accept" = Some [bs "text/html"].
Proof.
  destruct (sanitise_headers (U := ascii_only) smuggling_request smuggling_header eq_refl) as (h' & H1 & H2 & H3 & H4 & _).
  assert (Values smuggling_header "Connection" = [bs "close, X-Secret"]) as Ev by (vm_compute; reflexivity).
  assert (Split (bs "close, X-Secret") "," = [bs "close"; bs " X-Secret"]) as Es by (vm_compute; reflexivity).
  rewrite Ev in H3, H4. exists h'. split_and!; [done| | |].
  - apply H2. left. vm_compute. reflexivity.
  - apply (H3 (bs "close, X-Secret") (bs " X-Secret")); [by left|rewrite Es; right; by left|done|vm_compute; reflexivity].
  - rewrite H4; [vm_compute; reflexivity..|].
    intros v item Hv Hi _. apply list_elem_of_singleton in Hv as ->. rewrite Es in Hi. rewrite !elem_of_cons in Hi.
    clear -Hi. destruct Hi as [->|[->|Hi]].
    + intros H%(f_equal length). vm_compute in H. discriminate H.
    + intros H%(f_equal length). vm_compute in H. discriminate H.
    + by apply elem_of_nil in Hi.
Defined.

Lemma stable_unescapes s : stable s -> is_Some (PathUnescape s).
Proof.
  induction 1 as [|c s Hc _ [t IH]|h l s Hh Hl _ _ _ [t IH]]; [by eexists|..].
  - simpl. rewrite (proj2 (ascii_eqb_neq c "%") Hc), IH. by eexists.
  - cbn [PathUnescape]. rewrite ascii_eqb_refl. cbn [negb].
    rewrite (proj2 (Z.ltb_ge _ _) Hh), (proj2 (Z.ltb_ge _ _) Hl), IH. by eexists.
Qed.

Lemma authority_port_range host p : authorityPortFromRequestHost host = Ok (Some p) -> 0 < p <= 65535.
Proof.
  unfold authorityPortFromRequestHost. destruct (negb _); [done|]. destruct (SplitHostPort host) as [[h q]|]; [|done].
  destruct (Atoi q) as [n|]; [|done]. destruct (str_eqb h []); [done|]. simpl.
  destruct (Z.leb_spec n 0); [done|]. destruct (Z.ltb_spec 65535 n); [done|]. intros [= <-].
  unfold uint16. rewrite Z.mod_small by lia. lia.
Qed.

Lemma check_port_ok id host :
  check_port id host = Ok tt ->
  AuthorityPort id ∈ [0; DestinationPort id] /\
  forall p, authorityPortFromRequestHost host = Ok (Some p) -> p = DestinationPort id.
Proof.
  unfold check_port. destruct (authorityPortFromRequestHost host) as [[p|]|] eqn:E; [| |done].
  - apply authority_port_range in E. destruct (Z.eqb_spec (AuthorityPort id) 0), (Z.eqb_spec (AuthorityPort id) p); simpl; try done.
    all: destruct (Z.eqb_spec p 0), (Z.eqb_spec p (DestinationPort id)); simpl; try done; try lia.
    all: intros _; split; [rewrite !elem_of_cons; lia|congruence].
  - destruct (Z.eqb_spec (AuthorityPort id) 0), (Z.eqb_spec (AuthorityPort id) (DestinationPort id)); simpl; try done.
    all: intros _; split; [rewrite !elem_of_cons; lia|congruence].
Qed.

Lemma agreed_identity_ok sni host id :
  agreed_identity sni host = Ok id -> id <> [] /\ sni ∈ [[]; id] /\ host ∈ [[]; id].
Proof.
  unfold agreed_identity, str_eqb. rewrite !elem_of_cons. intros H.
  repeat (case_bool_decide; simplify_eq/=); split_and!; auto.
Qed.

Section IdentityTheorems.
Context `{U : Unicode}.

(** When the identity stage allows a request, the SNI and the authority that were
    given agree (case-insensitively) with each other, and the name they agree on is
    both what policy matches on and the host that is forwarded; an explicit port,
    from the transport or from the Host header, is the port the connection was
    opened to; and the path policy matches is canonical and is exactly the encoded
    path that is forwarded, with the decoded form that [net/url] requires. *)
Theorem identity_agreement rc rc' :
  identity_execute rc = (rc', Allow) ->
  exists r r' u', c_Request rc = Some r /\ c_Request rc' = Some r' /\ rq_URL r' = Some u' /\
    let id := rf_Identity (c_Facts rc') in
    id <> [] /\ rq_Host r' = id /\
    ToLower (SNI (c_Identity rc)) ∈ [[]; id] /\ ToLower (AuthorityHost (c_Identity rc)) ∈ [[]; id] /\
    AuthorityPort (c_Identity rc) ∈ [0; DestinationPort (c_Identity rc)] /\
    (forall p, authorityPortFromRequestHost (rq_Host r) = Ok (Some p) -> p = DestinationPort (c_Identity rc)) /\
    rf_Port (c_Facts rc') = DestinationPort (c_Identity rc) /\
    CanonicalizePath (rf_Path (c_Facts rc')) = Ok (rf_Path (c_Facts rc')) /\
    ru_RawPath u' = rf_Path (c_Facts rc') /\ PathUnescape (ru_RawPath u') = Some (ru_Path u') /\
    rq_Header r' = rq_Header r.
Proof.
  unfold identity_execute. destruct (c_Request rc) as [r|]; [|done]. destruct (rq_URL r) as [u|]; [|done].
  destruct (agreed_identity _ _) as [id|] eqn:Ei.
  2:{ unfold agreed_identity in Ei. repeat (case_match; simplify_eq/=); done. }
  destruct (check_port _ _) as [[]|] eqn:Ep.
  2:{ unfold check_port in Ep. repeat (case_match; simplify_eq/=); done. }
  destruct (CanonicalizePath (raw_path u)) as [path|] eqn:Ec; [|done]. intros [= <-].
  apply agreed_identity_ok in Ei as (H1 & H2 & H3). apply check_port_ok in Ep as [H4 H5].
  apply canonicalize_canonical in Ec. pose proof (stable_unescapes _ (proj1 Ec)) as [d Hd].
  eexists r, _, _. split_and!; simpl; try done; [by apply canonical_fixed|by rewrite Hd].
Qed.
End IdentityTheorems.

Definition zero_facts : RequestFacts :=
  {| rf_Identity := []; rf_Method := []; rf_Path := []; rf_Port := 0; rf_Transport := TransportUnset |}.
Definition fresh_context (r : option Request) (id : IdentityInput) : RequestContext :=
  {| c_Request := r; c_Identity := id; c_Transport := TransportUnset; c_Facts := zero_facts;
     c_MatchResult := no_match; c_TokenResult := zero_result; c_Decision := zero_decision;
     c_StartTime := zero_time; c_RequestID := []; c_Timings := None |}.
Definition sample_context : RequestContext :=
  fresh_context (Some smuggling_request)
    {| SNI := "API.example.com"; AuthorityHost := "api.example.com"; AuthorityPort := 0; DestinationPort := 443 |}.

Lemma identity_agreement_witness :
  exists rc' r', identity_execute (U := ascii_only) sample_context = (rc', Allow) /\
    c_Request rc' = Some r' /\ rq_Host r' = bs "api.example.com" /\ rf_Port (c_Facts rc') = 443.
Proof.
  pose (out := identity_execute (U := ascii_only) sample_context).
  destruct (identity_agreement (U := ascii_only) sample_context out.1) as (r & r' & u & _ & Hr & _ & _ & Hh & _ & _ & _ & _ & Hp & _).
  - vm_compute. reflexivity.
  - exists out.1, r'. split_and!; [vm_compute; reflexivity|done| |exact Hp]. rewrite Hh. vm_compute. reflexivity.
Defined.
