(* ===== verification/Runner.v ===== *)
(** * [internal/pipeline/runner.go]: the pipeline

    [NewPipeline] fixes the position of the audit boundary; [Execute] runs the
    stages before it, records the decision, and only then runs the stages after it.
    The runner also returns the sequence of steps it took, so that ordering can be
    stated. *)

From S2P Require Import Prelude GoStrings GoRuntime Compile Match Credential Decision Stages.
#[local] Open Scope Z_scope.

Definition defaultAuditTimeout : Duration := 250 * Millisecond.

Record AuditIdentity := {
  PodNamespace : gostring;
  PodName : gostring;
  PodUID : gostring;
  ServiceAccount : gostring
}.
Definition zero_identity : AuditIdentity :=
  {| PodNamespace := []; PodName := []; PodUID := []; ServiceAccount := [] |}.

(** A nil stage or sink is [None].  A sink answers with the error it returns. *)
Record Pipeline (E : Type) := {
  stages : list (option (Stage E));
  auditBoundary : nat;
  auditSink : option (E -> AuditEvent -> E * option error);
  auditTimeout : Duration;
  identity : AuditIdentity
}.
Arguments stages {E} _. Arguments auditBoundary {E} _. Arguments auditSink {E} _.
Arguments auditTimeout {E} _. Arguments identity {E} _.

(** Index of the first stage called "inject", or the number of stages. *)
Fixpoint inject_boundary {E} (ss : list (option (Stage E))) : nat :=
  match ss with
  | [] => 0
  | Some s :: r => if str_eqb (st_Name s) "inject" then 0 else S (inject_boundary r)
  | None :: r => S (inject_boundary r)
  end.

Definition WithAuditIdentity {E} (id : AuditIdentity) (p : Pipeline E) : Pipeline E :=
  {| stages := stages p; auditBoundary := auditBoundary p; auditSink := auditSink p;
     auditTimeout := auditTimeout p; identity := id |}.

Definition NewPipeline {E} (ss : list (option (Stage E))) (sink : option (E -> AuditEvent -> E * option error))
    (opts : list (option (Pipeline E -> Pipeline E))) : Pipeline E :=
  fold_left (fun p opt => match opt with Some f => f p | None => p end) opts
    {| stages := ss; auditBoundary := inject_boundary ss; auditSink := sink;
       auditTimeout := defaultAuditTimeout; identity := zero_identity |}.

Definition timeout {E} (p : Pipeline E) : Duration :=
  if auditTimeout p <=? 0 then defaultAuditTimeout else auditTimeout p.

Definition faultClass (d : Decision) : FaultClass :=
  if negb (Fault d) then FaultClassNone
  else
    match Cause d with
    | None => FaultClassLocal
    | Some cause =>
        let by_context := if is_context_error cause then FaultClassTransient else FaultClassLocal in
        match errors_As_AcquireError cause with
        | Some ae =>
            match ae_Class ae with
            | AcquireErrorTransient => FaultClassTransient
            | AcquireErrorPermanent => FaultClassPermanent
            | AcquireErrorLocal => FaultClassLocal
            | AcquireErrorOther _ => by_context
            end
        | None => by_context
        end
    end.

Definition normalizeDecision (d : Decision) : Decision :=
  match disposition d with
  | DispositionAllow | DispositionDeny => d
  | DispositionInvalid => DenyFault ReasonInternal (Some (Errorf "invalid decision"))
  | DispositionPending => DenyFault ReasonInternal (Some (Errorf "pending decision"))
  | DispositionOther _ => DenyFault ReasonInternal (Some (Errorf "unknown disposition"))
  end.

(** What the runner did, in order: a stage returned or panicked, or a record was
    handed to the sink, which answered. *)
Inductive step :=
| Ran (name : gostring) (o : outcome)
| Recorded (ev : AuditEvent) (answer : option error).

Section Run.
Context `{U : Unicode} `{S : Sha256} `{N : NetURL} {E : Type} `{C : Clock E}.

(** The identity recorded for the credential. *)
Definition audit_credential (rc : RequestContext) : gostring :=
  if negb (str_eqb (Identity (tr_Resolved (c_TokenResult rc))) []) then Identity (tr_Resolved (c_TokenResult rc))
  else
    match mr_Credential (c_MatchResult rc) with
    | Some cred => match Resolve (toTokenSelector (Some cred)) with Ok rc' => Identity rc' | Err _ => "none" end
    | None => "none"
    end.

Definition timing (rc : RequestContext) (name : gostring) : Duration :=
  match c_Timings rc with Some m => default 0 (m !! name) | None => 0 end.

Definition buildTimings (now : Time) (rc : RequestContext) : AuditTimings :=
  {| at_Total := Sub now (c_StartTime rc); at_Match := timing rc "match"; at_Acquire := timing rc "acquire"; at_Audit := 0 |}.

(** [now] and [now'] are the two readings of the clock. *)
Definition buildAuditEvent (p : Pipeline E) (now now' : Time) (rc : RequestContext) (d : Decision) : AuditEvent := {|
  ev_Timestamp := now;
  ev_RequestID := c_RequestID rc;
  ev_Identity := rf_Identity (c_Facts rc);
  ev_Method := rf_Method (c_Facts rc);
  ev_Path := rf_Path (c_Facts rc);
  ev_Port := rf_Port (c_Facts rc);
  ev_Disposition := disposition d;
  ev_DenyReason := Reason d;
  ev_Fault := Fault d;
  ev_FaultClass := faultClass d;
  ev_PolicyVersion := Version (c_MatchResult rc);
  ev_RuleName := PolicyRef (c_MatchResult rc);
  ev_CredentialID := audit_credential rc;
  ev_CacheHit := tr_CacheHit (c_TokenResult rc);
  ev_Ambiguous := Ambiguous (c_MatchResult rc);
  ev_PodNamespace := PodNamespace (identity p);
  ev_PodName := PodName (identity p);
  ev_PodUID := PodUID (identity p);
  ev_AgentServiceAccount := ServiceAccount (identity p);
  ev_Transport := TransportUnset;
  ev_ServiceUID := [];
  ev_ServiceGeneration := 0;
  ev_EvaluatorVersion := EvaluatorVersion;
  ev_CredentialProvider := [];
  ev_CredentialResource := [];
  ev_CredentialScopes := [];
  ev_CredentialExpiresAt := zero_time;
  ev_Timings := buildTimings now' rc;
  ev_CompletionStatus := 0;
  ev_CompletionBytes := 0;
  ev_CompletionDuration := 0
|}.

(** [rc.Timings[name] = d]; [Execute] has made the map. *)
Definition set_timing (rc : RequestContext) (name : gostring) (d : Duration) : RequestContext :=
  set_clock rc (c_StartTime rc) (Some (<[name := d]> (default ∅ (c_Timings rc)))).

(** [executeStage] with the stopwatch around it.  A recovered panic is
    [Panicked]. *)
Definition run_stage (s : Stage E) (e : E) (rc : RequestContext) : E * RequestContext * outcome :=
  let '(start, e) := Now e in
  let '(e, rc', o) := st_Execute s e (Some rc) in
  let '(stop, e) := Now e in
  (e, set_timing (default rc rc') (st_Name s) (Sub stop start), o).

Definition stage_panicked (s : Stage E) : error := Errorf (bs "stage " ++ st_Name s ++ bs " panicked").
Definition post_failed (s : Stage E) : error := Errorf (bs "post-audit stage " ++ st_Name s ++ bs " failed").

Fixpoint runStages (ss : list (option (Stage E))) (preAudit : bool) (e : E) (rc : RequestContext) (decision : Decision)
    : E * RequestContext * list step * Decision :=
  match ss with
  | [] => (e, rc, [], decision)
  | None :: r => runStages r preAudit e rc decision
  | Some s :: r =>
      let '(e, rc, o) := run_stage s e rc in
      match o with
      | Panicked => (e, rc, [Ran (st_Name s) o], DenyFault ReasonInternal (Some (stage_panicked s)))
      | Returned d =>
          if negb (IsAllow d) then
            (e, rc, [Ran (st_Name s) o], if preAudit then d else DenyFault ReasonInternal (Some (post_failed s)))
          else
            let '(e, rc, t, d') := runStages r preAudit e rc d in (e, rc, Ran (st_Name s) o :: t, d')
      end
  end.

Definition sink_is_nil : error := Errorf "audit sink is nil".

(** The sink is called with a context of its own; the error it returns, and the
    step if there was one. *)
Definition audit (p : Pipeline E) (e : E) (rc : RequestContext) (d : Decision)
    : E * RequestContext * list step * option error :=
  match auditSink p with
  | None => (e, rc, [], Some sink_is_nil)
  | Some record =>
      let '(start, e) := Now e in
      let '(now, e) := Now e in
      let '(now', e) := Now e in
      let ev := buildAuditEvent p now now' rc d in
      let '(e, err) := record e ev in
      let '(stop, e) := Now e in
      (e, set_timing rc "audit" (Sub stop start), [Recorded ev err], err)
  end.

Definition post_audit_failure : error := Errorf "post-audit completion failure".

(** Timings and start time are filled in when unset. *)
Definition prepare (e : E) (rc : RequestContext) : E * RequestContext :=
  let timings := match c_Timings rc with Some m => Some m | None => Some ∅ end in
  if IsZero (c_StartTime rc) then let '(now, e) := Now e in (e, set_clock rc now timings)
  else (e, set_clock rc (c_StartTime rc) timings).

Definition Execute (p : Pipeline E) (e : E) (rc : option RequestContext)
    : E * option RequestContext * list step * Decision :=
  match rc with
  | None => (e, None, [], DenyFault ReasonInternal (Some (Errorf "request context is nil")))
  | Some rc =>
      let '(e, rc) := prepare e rc in
      let '(e, rc, t1, decision) := runStages (take (auditBoundary p) (stages p)) true e rc Allow in
      let decision := normalizeDecision decision in
      let auditDecision := if IsAllow decision then Allow else decision in
      let '(e, rc, t2, err) := audit p e rc auditDecision in
      match err with
      | Some err =>
          let d := DenyFault ReasonAuditUnavailable (Some err) in
          (e, Some (set_decision rc d), t1 ++ t2, d)
      | None =>
          if negb (IsAllow decision) then (e, Some (set_decision rc decision), t1 ++ t2, decision)
          else
            let '(e, rc, t3, postDecision) := runStages (drop (auditBoundary p) (stages p)) false e rc Allow in
            let d := if IsAllow postDecision then Allow else DenyFault ReasonInternal (Some post_audit_failure) in
            (e, Some (set_decision rc d), t1 ++ t2 ++ t3, d)
      end
  end.
End Run.

(** ** What the runner guarantees, whatever the stages are *)

Definition is_record (s : step) : bool := match s with Recorded _ _ => true | Ran _ _ => false end.
Definition allowing (s : step) : bool :=
  match s with Ran _ (Returned d) => IsAllow d | _ => false end.
Definition ran_name (s : step) : option gostring := match s with Ran n _ => Some n | Recorded _ _ => None end.
(** The stages a trace ran, and the names of a list of stages. *)
Definition ran (t : list step) : list gostring := omap ran_name t.
Definition stage_names {E} (ss : list (option (Stage E))) : list gostring := omap (fmap st_Name) ss.

Lemma ran_app t t' : ran (t ++ t') = ran t ++ ran t'.
Proof. apply omap_app. Qed.

Section RunFacts.
Context `{U : Unicode} `{S : Sha256} `{N : NetURL} {E : Type} `{C : Clock E}.

Lemma runStages_trace (ss : list (option (Stage E))) b e rc d0 e' rc' t d :
  runStages ss b e rc d0 = (e', rc', t, d) ->
  Forall (fun s => is_record s = false) t /\ ran t `prefix_of` stage_names ss /\
  (IsAllow d0 = true -> IsAllow d = true -> ran t = stage_names ss /\ Forall (fun s => allowing s = true) t) /\
  (t = [] -> d = d0).
Proof.
  revert e rc d0 e' rc' t d. induction ss as [|[s|] ss IH]; intros e rc d0 e' rc' t d; simpl.
  - intros [= <- <- <- <-]. split_and!; try constructor; done.
  - destruct (run_stage s e rc) as [[e1 rc1] [d1|]].
    + destruct (IsAllow d1) eqn:Ea; simpl.
      * destruct (runStages ss b e1 rc1 d1) as [[[e2 rc2] t2] d2] eqn:Er. intros [= <- <- <- <-].
        destruct (IH _ _ _ _ _ _ _ Er) as (H1 & H2 & H3 & H4). split_and!.
        -- by constructor.
        -- simpl. by apply prefix_cons.
        -- intros _ Hd. destruct (H3 Ea Hd) as [Hr Hf]. split; [simpl; by f_equal|by constructor].
        -- done.
      * intros [= <- <- <- <-]. split_and!; simpl.
        -- by repeat constructor.
        -- exists (stage_names ss). done.
        -- intros _. destruct b; [congruence|done].
        -- done.
    + intros [= <- <- <- <-]. split_and!; simpl; try done.
      * by repeat constructor.
      * exists (stage_names ss). done.
  - intros H. apply IH in H. exact H.
Qed.

Lemma normalize_explicit d : disposition (normalizeDecision d) = DispositionAllow \/ disposition (normalizeDecision d) = DispositionDeny.
Proof. unfold normalizeDecision. destruct (disposition d) eqn:Ed; simpl; rewrite ?Ed; tauto. Qed.
Lemma normalize_allow d : IsAllow (normalizeDecision d) = IsAllow d.
Proof.
  unfold normalizeDecision, IsAllow. destruct (disposition d) eqn:Ed; simpl; rewrite ?Ed; done.
Qed.
Lemma not_allow_deny d : IsAllow (normalizeDecision d) = false -> disposition (normalizeDecision d) = DispositionDeny.
Proof. unfold IsAllow. rewrite bool_decide_eq_false. destruct (normalize_explicit d); tauto. Qed.

(** C8: the pipeline fails closed.  Its decision is an explicit allow or an explicit
    deny, and it allows only when the sink accepted the record and every configured
    stage ran, in order, and returned an explicit allow: a stage that denies, panics,
    or returns the zero value, a pending or an unknown decision, and a missing or
    failing sink, all end in a denial. *)
Theorem Execute_fail_closed (p : Pipeline E) e rc e' rc' t d :
  Execute p e rc = (e', rc', t, d) ->
  (d = Allow \/ disposition d = DispositionDeny) /\
  (IsAllow d = true ->
     ran t = stage_names (stages p) /\
     (forall n o, Ran n o ∈ t -> exists d', o = Returned d' /\ IsAllow d' = true) /\
     exists ev, Recorded ev None ∈ t).
Proof.
  unfold Execute. destruct rc as [rc|]; [|intros [= <- <- <- <-]; split; [by right|done]].
  destruct (prepare e rc) as [e1 rc1].
  destruct (runStages (take (auditBoundary p) (stages p)) true e1 rc1 Allow) as [[[e2 rc2] t1] d1] eqn:E1.
  destruct (runStages_trace _ _ _ _ _ _ _ _ _ E1) as (_ & _ & H1 & _).
  pose proof (not_allow_deny d1) as Hd1. pose proof (normalize_allow d1) as Ha1.
  destruct (audit p e2 rc2 _) as [[[e3 rc3] t2] [err|]] eqn:Ea.
  { intros [= <- <- <- <-]. split; [by right|done]. }
  destruct (IsAllow (normalizeDecision d1)) eqn:En; simpl; [|intros [= <- <- <- <-]; split; [right; auto|congruence]].
  destruct (runStages (drop (auditBoundary p) (stages p)) false e3 rc3 Allow) as [[[e4 rc4] t3] d3] eqn:E3.
  destruct (runStages_trace _ _ _ _ _ _ _ _ _ E3) as (_ & _ & H3 & _).
  destruct (IsAllow d3); intros [= <- <- <- <-]; (split; [by auto|]); [|done]. intros _.
  destruct (H1 eq_refl (eq_sym Ha1)) as [Hr1 Hf1], (H3 eq_refl eq_refl) as [Hr3 Hf3].
  unfold audit in Ea. destruct (auditSink p) as [record|]; [|done].
  destruct (Now e2) as [x1 e5], (Now e5) as [x2 e6], (Now e6) as [x3 e7].
  set (ev := buildAuditEvent _ _ _ _ _) in Ea. destruct (record e7 ev) as [e8 [?|]]; [by destruct (Now e8)|].
  destruct (Now e8). injection Ea as <- <- <-. split_and!.
  - rewrite !ran_app, Hr1, Hr3. simpl. unfold stage_names. rewrite <- omap_app. by rewrite take_drop.
  - rewrite Forall_forall in Hf1, Hf3. intros n o Hin. rewrite !elem_of_app in Hin.
    assert (allowing (Ran n o) = true) as Hal.
    { destruct Hin as [Hin|[Hin|Hin]]; [by apply Hf1| |by apply Hf3]. by apply list_elem_of_singleton in Hin. }
    destruct o as [d'|]; [by exists d'|done].
  - exists ev. rewrite !elem_of_app. right. left. by left.
Qed.

Lemma audit_one_record (p : Pipeline E) e rc d e' rc' t err :
  is_Some (auditSink p) -> audit p e rc d = (e', rc', t, err) ->
  exists now now' n, t = [Recorded (buildAuditEvent p now now' rc d) err] /\ rc' = set_timing rc "audit" n.
Proof.
  intros [record Hr]. unfold audit. rewrite Hr. destruct (Now e) as [x1 e1], (Now e1) as [x2 e2], (Now e2) as [x3 e3].
  destruct (record e3 _) as [e4 a]. destruct (Now e4) as [x4 e5]. intros [= <- <- <- <-]. by exists x2, x3, (Sub x4 x1).
Qed.

(** C9: with a sink configured, every request context that enters the pipeline is
    recorded exactly once.  The record comes after the stages before the audit
    boundary and before any stage behind it; stages behind it run only after the
    sink accepted a record whose disposition is allow; and a request denied before
    the boundary is recorded as denied with the reason that is returned. *)
Theorem Execute_records_once (p : Pipeline E) e rc e' rc' t d :
  is_Some (auditSink p) -> Execute p e (Some rc) = (e', rc', t, d) ->
  exists before ev answer after,
    t = before ++ Recorded ev answer :: after /\
    Forall (fun s => is_record s = false) (before ++ after) /\
    ran before `prefix_of` stage_names (take (auditBoundary p) (stages p)) /\
    ran after `prefix_of` stage_names (drop (auditBoundary p) (stages p)) /\
    (after <> [] \/ IsAllow d = true -> answer = None /\ ev_Disposition ev = DispositionAllow) /\
    (after = [] -> answer = None -> IsAllow d = false ->
       ev_Disposition ev = DispositionDeny /\ ev_DenyReason ev = Reason d /\ ev_Fault ev = Fault d).
Proof.
  intros Hsink. unfold Execute. destruct (prepare e rc) as [e1 rc1].
  destruct (runStages (take (auditBoundary p) (stages p)) true e1 rc1 Allow) as [[[e2 rc2] t1] d1] eqn:E1.
  destruct (runStages_trace _ _ _ _ _ _ _ _ _ E1) as (H1 & H1' & _).
  set (nd := normalizeDecision d1). destruct (audit p e2 rc2 _) as [[[e3 rc3] t2] err] eqn:Ea.
  destruct (audit_one_record _ _ _ _ _ _ _ _ Hsink Ea) as (now & now' & n & -> & _).
  set (ev := buildAuditEvent _ _ _ _ _).
  destruct err as [err|].
  { intros [= <- <- <- <-]. exists t1, ev, (Some err), []. rewrite app_nil_r. split_and!; try done.
    - apply prefix_nil.
    - by intros [?|?]. }
  destruct (IsAllow nd) eqn:En; simpl.
  - destruct (runStages (drop (auditBoundary p) (stages p)) false e3 rc3 Allow) as [[[e4 rc4] t3] d3] eqn:E3.
    destruct (runStages_trace _ _ _ _ _ _ _ _ _ E3) as (H3 & H3' & _ & H3n). intros [= <- <- <- <-].
    exists t1, ev, None, t3. split_and!; try done.
    + apply Forall_app. done.
    + intros Ht _. by rewrite (H3n Ht).
  - intros [= <- <- <- <-]. exists t1, ev, None, []. rewrite app_nil_r. split_and!; try done.
    + apply prefix_nil.
    + intros [?|?]; [done|congruence].
    + intros _ _ _. split_and!; simpl; rewrite ?En; [by apply not_allow_deny|done..].
Qed.
End RunFacts.
