(* ===== verification/PolicyStore.v ===== *)
(** * [internal/policy/watch/store.go]: the published snapshot

    The store holds one cell, published atomically: a snapshot with its publication
    time.  Readers compute the age from their own reading of the clock. *)

From S2P Require Import Prelude GoStrings GoRuntime Compile Match Credential Decision Stages.
#[local] Open Scope Z_scope.

Record cell := { snapshot : option compiledSnapshot; updated : Time }.
Record Store := { current : option cell }.
Definition new_store : Store := {| current := None |}.

Definition load (now : Time) (s : Store) : option (compiledSnapshot * Duration) :=
  match current s with
  | None => None
  | Some c =>
      match snapshot c with
      | None => None
      | Some snap => Some (snap, Sub now (updated c))
      end
  end.

Definition Current (now : Time) (s : Store) : option (compiledSnapshot * Duration) := load now s.

Definition Fresh (now : Time) (maxStaleness : Duration) (s : Store) : option compiledSnapshot :=
  match load now s with
  | None => None
  | Some (snap, age) => if (age <? 0) || (maxStaleness <=? age) then None else Some snap
  end.

Definition Swap (snap : option compiledSnapshot) (now : Time) (s : Store) : Store :=
  match snap with
  | None => s
  | Some _ => {| current := Some {| snapshot := snap; updated := now |} |}
  end.

(** The states a store passes through: any sequence of publications. *)
Definition swaps (l : list (option compiledSnapshot * Time)) : Store :=
  fold_left (fun s p => Swap p.1 p.2 s) l new_store.

(** The last publication of a snapshot. *)
Definition last_published (l : list (option compiledSnapshot * Time)) : option (compiledSnapshot * Time) :=
  last (omap (fun p => (fun s => (s, p.2)) <$> p.1) l).

Lemma swaps_snoc l p : swaps (l ++ [p]) = Swap p.1 p.2 (swaps l).
Proof. unfold swaps. by rewrite fold_left_app. Qed.

Lemma load_swaps now l :
  load now (swaps l) = (fun p => (p.1, Sub now p.2)) <$> last_published l.
Proof.
  induction l as [|[[snap|] t] l IH] using rev_ind; [done|..]; rewrite swaps_snoc; unfold last_published in *;
    rewrite omap_app; simpl; [by rewrite last_snoc|by rewrite app_nil_r].
Qed.

(** A snapshot is served as fresh exactly when it is the one published last and
    strictly fewer than the allowed nanoseconds (and not a negative number, as after
    a clock that ran backwards) have passed since then; publishing nil never clears
    or re-dates what is served. *)
Theorem Fresh_spec l now maxStale snap :
  Fresh now maxStale (swaps l) = Some snap <->
  exists t, last_published l = Some (snap, t) /\ 0 <= Sub now t < maxStale.
Proof.
  unfold Fresh. rewrite load_swaps. destruct (last_published l) as [[snap' t]|]; simpl.
  - destruct (Z.ltb_spec (Sub now t) 0), (Z.leb_spec maxStale (Sub now t)); simpl; naive_solver lia.
  - naive_solver.
Qed.

(** The match stage reading a store at the instant the environment gives. *)
Definition store_current {E} `{Clock E} (s : Store) (e : E) : E * option (compiledSnapshot * Duration) :=
  let '(now, e) := Now e in (e, Current now s).

Section Gate.
Context {E : Type} `{C : Clock E}.

(** C38: the staleness gate of the match stage and [Store.Fresh] agree.  Whatever the
    request, the matcher is consulted exactly when [Fresh] yields a snapshot for the
    stage's bound, and with that snapshot; otherwise the request is denied as a fault
    and its context is left alone. *)
Theorem match_gate_is_Fresh (s : Store) (matcher : compiledSnapshot -> RequestFacts -> result error MatchResult) bound e rc :
  let ms := {| ms_Store := Some (store_current s); ms_Matcher := Some matcher; ms_MaxStaleness := bound |} in
  let '(now, e') := Now e in
  match_execute (Some ms) e (Some rc) =
    match Fresh now (maxStaleness ms) s with
    | Some snap =>
        match matcher snap (c_Facts rc) with
        | Err err => (e', Some rc, Returned (DenyFault ReasonMatcherFault (Some err)))
        | Ok result => if Matched result then (e', Some (set_match rc result), Returned Allow)
                       else (e', Some rc, Returned (Deny ReasonNoMatch None))
        end
    | None =>
        (e', Some rc, Returned (DenyFault (if Current now s then ReasonSnapshotStale else ReasonNoSnapshot) None))
    end.
Proof.
  intros ms. destruct (Now e) as [now e'] eqn:En. unfold match_execute, ms, Fresh, Current. simpl.
  unfold store_current. rewrite En. unfold Current. destruct (load now s) as [[snap age]|]; [|done].
  destruct (_ || _); [done|]. destruct (matcher snap (c_Facts rc)) as [r|err]; [|done]. by destruct (Matched r).
Qed.
End Gate.
