(* ===== verification/Enforcement.v ===== *)
(** * The enforcement pipeline as [internal/runtime/assembly.go] wires it

    The five stages in production order, with the policy store, the matcher and the
    token cache behind their interfaces, and what an allow decision of the whole
    pipeline means for the request that leaves it. *)

From S2P Require Import Prelude GoStrings GoRuntime Canonicalize Compile Match Credential Decision Stages Runner.
#[local] Open Scope Z_scope.

(** What the pipeline needs of the rest of the process: the current snapshot, a
    token getter and an audit sink, acting on the environment [E]. *)
Class Services (E : Type) := {
  svc_clock :: Clock E;
  svc_current : E -> E * option (compiledSnapshot * Duration);
  svc_get : E -> CredentialSelector -> E * result error TokenResult;
  svc_record : E -> AuditEvent -> E * option error
}.

Section Production.
Context `{U : Unicode} `{S : Sha256} `{N : NetURL} {E : Type} `{V : Services E}.
Context (MaxStaleness : Duration) (pod : AuditIdentity).

Definition match_stage : MatchStage E :=
  {| ms_Store := Some svc_current; ms_Matcher := Some (fun snap facts => Ok (Match snap facts));
     ms_MaxStaleness := MaxStaleness |}.

Definition production_stages : list (option (Stage E)) :=
  [Some SanitiseStage; Some IdentityStage; Some (Match_stage (Some match_stage));
   Some (AcquireStage (Some svc_get)); Some InjectStage].

Definition production : Pipeline E :=
  NewPipeline production_stages (Some svc_record) [Some (WithAuditIdentity pod)].

(** A relation that every use of the services keeps: what holds along a run of the pipeline, such as an
    invariant of the process or the growth of the audit stream. *)
Record stable (R : relation E) : Prop := {
  stable_order : PreOrder R;
  stable_now : forall e, R e (Now e).2;
  stable_current : forall e, R e (svc_current e).1;
  stable_get : forall e sel, R e (svc_get e sel).1;
  stable_record : forall e ev, R e (svc_record e ev).1
}.

(** The states that uses of the services lead to. *)
Inductive service_step : relation E :=
| step_now e : service_step e (Now e).2
| step_current e : service_step e (svc_current e).1
| step_get e sel : service_step e (svc_get e sel).1
| step_record e ev : service_step e (svc_record e ev).1.
Definition passes : relation E := rtc service_step.

Lemma stable_passes : stable passes.
Proof. split; [apply _|intros; apply rtc_once; constructor..]. Qed.

Lemma passes_least R e e' : stable R -> passes e e' -> R e e'.
Proof.
  intros [Hpre Hn Hc Hg Hr]. induction 1 as [|a b c Hab _ IH]; [done|]. etrans; [|exact IH]. destruct Hab; auto.
Qed.

Lemma stable_any : stable (fun _ _ => True).
Proof. split; [split|..]; done. Qed.

Lemma production_boundary : auditBoundary production = 4%nat.
Proof. reflexivity. Qed.

(** ** Inverting an allowed run *)

(** A run that ends in allow went through its first stage. *)
Lemma runStages_allow (s : Stage E) ss b e rc d0 e' rc' t d :
  runStages (Some s :: ss) b e rc d0 = (e', rc', t, d) -> IsAllow d = true ->
  exists e1 rc1 d1 n t', st_Execute s (Now e).2 (Some rc) = (e1, rc1, Returned d1) /\ IsAllow d1 = true /\
    runStages ss b (Now e1).2 (set_timing (default rc rc1) (st_Name s) n) d1 = (e', rc', t', d).
Proof.
  simpl. unfold run_stage. destruct (Now e) as [start e0]. cbn [snd].
  destruct (st_Execute s e0 (Some rc)) as [[e1 rc1] o] eqn:Es. destruct (Now e1) as [stop e2] eqn:En.
  destruct o as [d1|]; [|by intros [= <- <- <- <-]]. destruct (IsAllow d1) eqn:Ea; simpl.
  - destruct (runStages ss b e2 _ d1) as [[[e3 rc3] t3] d3] eqn:Er. intros [= <- <- <- <-] _.
    exists e1, rc1, d1, (Sub stop start), t3. by rewrite En.
  - intros [= <- <- <- <-]. destruct b; [congruence|done].
Qed.

Lemma sanitise_allow e rc e' rc' d :
  st_Execute (@SanitiseStage U E) e (Some rc) = (e', rc', Returned d) -> IsAllow d = true ->
  exists r, c_Request rc = Some r /\ e' = e /\ rc' = Some (set_request rc (Some (sanitise_request r))).
Proof. simpl. destruct (c_Request rc) as [r|]; intros [= <- <- <-]; [|done]. eauto. Qed.

Lemma identity_allow e rc e' rc' d :
  st_Execute (@IdentityStage U E) e (Some rc) = (e', rc', Returned d) -> IsAllow d = true ->
  exists r u id path, c_Request rc = Some r /\ rq_URL r = Some u /\ id <> [] /\
    agreed_identity (ToLower (SNI (c_Identity rc))) (ToLower (AuthorityHost (c_Identity rc))) = Ok id /\
    check_port (c_Identity rc) (rq_Host r) = Ok tt /\
    CanonicalizePath (raw_path u) = Ok path /\ e' = e /\ rc' = Some (identify rc r id path).
Proof.
  simpl. unfold identity_execute. destruct (c_Request rc) as [r|]; [|by intros [= <- <- <-]].
  destruct (rq_URL r) as [u|] eqn:Eu; [|by intros [= <- <- <-]].
  destruct (agreed_identity _ _) as [id|] eqn:Ei.
  2:{ unfold agreed_identity in Ei. repeat (case_match; simplify_eq/=). all: by intros [= <- <- <-]. }
  destruct (check_port _ _) as [[]|] eqn:Ep.
  2:{ unfold check_port in Ep. repeat (case_match; simplify_eq/=). all: by intros [= <- <- <-]. }
  destruct (CanonicalizePath (raw_path u)) as [path|] eqn:Ec; intros [= <- <- <-]; [|done].
  intros _. exists r, u, id, path. split_and!; try done. by apply agreed_identity_ok in Ei as [? _].
Qed.

Lemma match_allow e rc e' rc' d :
  st_Execute (Match_stage (Some match_stage)) e (Some rc) = (e', rc', Returned d) -> IsAllow d = true ->
  exists snap age, svc_current e = (e', Some (snap, age)) /\ 0 <= age < maxStaleness match_stage /\
    Matched (Match snap (c_Facts rc)) = true /\ rc' = Some (set_match rc (Match snap (c_Facts rc))).
Proof.
  simpl. destruct (svc_current e) as [e1 [[snap age]|]]; [|by intros [= <- <- <-]].
  destruct (Z.ltb_spec age 0), (Z.leb_spec (maxStaleness match_stage) age); simpl; try by intros [= <- <- <-].
  destruct (Matched (Match snap (c_Facts rc))) eqn:Em; simpl; intros [= <- <- <-]; [|done].
  intros _. by exists snap, age.
Qed.

Lemma acquire_allow e rc e' rc' d :
  st_Execute (AcquireStage (Some svc_get)) e (Some rc) = (e', rc', Returned d) -> IsAllow d = true ->
  exists tr, rc' = Some (set_token rc tr) /\
    match mr_Credential (c_MatchResult rc) with
    | None => tr = zero_result /\ e' = e
    | Some cred => svc_get e (toTokenSelector (Some cred)) = (e', Ok tr)
    end.
Proof.
  simpl. destruct (mr_Credential _) as [cred|]; [|intros [= <- <- <-]; eauto].
  destruct (svc_get e _) as [e1 [tr|err]]; intros [= <- <- <-]; [|done]. eauto.
Qed.

Lemma inject_allow e rc e' rc' d r h :
  st_Execute (@InjectStage E) e (Some rc) = (e', rc', Returned d) -> IsAllow d = true ->
  c_Request rc = Some r -> rq_Header r = Some h ->
  let tok := Reveal (tr_Token (c_TokenResult rc)) in
  exists rc2, e' = e /\ rc' = Some rc2 /\ c_Facts rc2 = c_Facts rc /\ c_MatchResult rc2 = c_MatchResult rc /\ c_TokenResult rc2 = c_TokenResult rc /\
    c_Request rc2 = Some (with_headers r
      (Some (if str_eqb tok [] then h else Set_ h "Authorization" (bearer tok))) (rq_Trailer r)).
Proof.
  intros Hs Ha Hr Hh. revert Hs. simpl. rewrite Hr, Hh.
  destruct (str_eqb (Reveal (tr_Token (c_TokenResult rc))) []); intros [= <- <- <-]; eexists; split_and!; try done.
  rewrite Hr. f_equal. unfold with_headers. rewrite <- Hh. by destruct r.
Qed.

Lemma prepare_same e rc e' rc' : prepare e rc = (e', rc') ->
  c_Request rc' = c_Request rc /\ c_Identity rc' = c_Identity rc /\ c_RequestID rc' = c_RequestID rc /\ e' ∈ [e; (Now e).2].
Proof. unfold prepare. destruct (IsZero _); [destruct (Now e)|]; intros [= <- <-]; split_and!; try done; set_solver. Qed.

(** The URL that the identity stage leaves for a canonical path. *)
Definition canonical_url (path : gostring) : ReqURL := {| ru_Path := default path (PathUnescape path); ru_RawPath := path |}.

(** The four stages before the audit boundary, run to an allow. *)
Lemma before_audit_allow R e rc d0 e' rc' t d r : stable R ->
  runStages (take 4 production_stages) true e rc d0 = (e', rc', t, d) -> IsAllow d = true -> c_Request rc = Some r ->
  exists e1 e2 snap age e3 e4 r',
    svc_current e1 = (e2, Some (snap, age)) /\ 0 <= age < maxStaleness match_stage /\
    c_MatchResult rc' = Match snap (c_Facts rc') /\ Matched (c_MatchResult rc') = true /\
    c_Request rc' = Some r' /\ rq_Header r' = rq_Header (sanitise_request r) /\
    rq_Host r' = rf_Identity (c_Facts rc') /\ rf_Identity (c_Facts rc') <> [] /\
    canonical (rf_Path (c_Facts rc')) /\ (exists u', rq_URL r' = Some u' /\ ru_RawPath u' = rf_Path (c_Facts rc')) /\
    agreed_identity (ToLower (SNI (c_Identity rc))) (ToLower (AuthorityHost (c_Identity rc))) = Ok (rf_Identity (c_Facts rc')) /\
    check_port (c_Identity rc) (rq_Host r) = Ok tt /\
    rf_Port (c_Facts rc') = DestinationPort (c_Identity rc) /\
    match mr_Credential (c_MatchResult rc') with
    | None => c_TokenResult rc' = zero_result
    | Some cred => svc_get e3 (toTokenSelector (Some cred)) = (e4, Ok (c_TokenResult rc'))
    end /\
    c_RequestID rc' = c_RequestID rc /\ (R e e1 /\ R e2 e') /\ (R e e3 /\ R e4 e') /\ R e e' /\
    rq_Method r' = rq_Method r /\ rf_Method (c_Facts rc') = rq_Method r /\ rq_URL r' = Some (canonical_url (rf_Path (c_Facts rc'))).
Proof.
  change (take 4 production_stages) with
    [Some SanitiseStage; Some IdentityStage; Some (Match_stage (Some match_stage)); Some (AcquireStage (Some svc_get))].
  intros [Hpre Hnow Hcu Hge _] H Hd Hr.
  assert (forall a b, R a b -> R a (Now b).2) as Hn by (intros a b Hab; etrans; [exact Hab|apply Hnow]).
  apply runStages_allow in H as (e1 & rc1 & d1 & n1 & t1 & Hs1 & Ha1 & H); [|done].
  apply sanitise_allow in Hs1 as (r0 & Hr0 & -> & ->); [|done]. rewrite Hr in Hr0. injection Hr0 as <-. cbn [default] in H.
  apply runStages_allow in H as (e2 & rc2 & d2 & n2 & t2 & Hs2 & Ha2 & H); [|done].
  apply identity_allow in Hs2 as (r1 & u & id & path & Hr1 & Hu & Hne & Hag & Hport & Hpath & -> & ->); [|done].
  injection Hr1 as <-. cbn [default] in H.
  apply runStages_allow in H as (e3 & rc3 & d3 & n3 & t3 & Hs3 & Ha3 & H); [|done].
  apply match_allow in Hs3 as (snap & age & Hcur & Hage & Hm & ->); [|done]. cbn [default] in H.
  apply runStages_allow in H as (e4 & rc4 & d4 & n4 & t4 & Hs4 & Ha4 & H); [|done].
  apply acquire_allow in Hs4 as (tr & -> & Htr); [|done]. cbn [default] in H.
  simpl in H. injection H as <- <- <- <-.
  assert (forall a b, R a b -> R a (svc_current b).1) as Hc by (intros a b Hab; etrans; [exact Hab|apply Hcu]).
  assert (forall a b sel, R a b -> R a (svc_get b sel).1) as Hg by (intros a b sel Hab; etrans; [exact Hab|apply Hge]).
  pose proof (f_equal fst Hcur) as Hc3. cbn [fst] in Hc3. subst e3.
  assert (forall a b, R (Now a).2 b -> R a b) as Hn' by (intros a b Hab; etrans; [apply Hnow|exact Hab]).
  assert (forall b, R b b) as Hrefl by (intros b; reflexivity).
  assert (R (Now (Now (svc_current (Now (Now (Now (Now (Now e).2).2).2).2).2).1).2).2 e4) as Hlast.
  { revert Htr. destruct (mr_Credential _); intros Htr; [|destruct Htr as [_ ->]; auto]. pose proof (f_equal fst Htr) as He4. cbn [fst] in He4. subst e4. auto. }
  eexists _, _, snap, age, _, e4, _. split_and!; [exact Hcur|lia|lia|done|done|done|done|done|done| | |done|done|done| |done|..].
  - by apply canonicalize_canonical in Hpath.
  - by eexists.
  - destruct (mr_Credential _); [exact Htr|exact (proj1 Htr)].
  - auto 20.
  - apply Hn. auto 20.
  - auto 20.
  - auto 20.
  - apply Hn. etrans; [|exact Hlast]. auto 20.
  - done.
  - done.
  - cbn. unfold canonical_url. by destruct (PathUnescape path).
Qed.

(** A run of the pipeline keeps a stable relation, whatever is decided. *)
Definition stage_keeps (R : relation E) (s : option (Stage E)) : Prop :=
  match s with Some s => forall e rc, R e (st_Execute s e (Some rc)).1.1 | None => True end.

Lemma runStages_keeps R ss b : stable R -> Forall (stage_keeps R) ss -> forall e rc d, R e (runStages ss b e rc d).1.1.1.
Proof.
  intros [Hpre Hnow _ _ _]. induction 1 as [|[s|] ss Hs _ IH]; intros e rc d; [done| |apply IH]. cbn [runStages]. unfold run_stage.
  pose proof (Hnow e) as H1. destruct (Now e) as [t0 e0]. cbn in H1, Hs. specialize (Hs e0 rc). destruct (st_Execute s e0 (Some rc)) as [[e1 rc1] o].
  cbn in Hs. pose proof (Hnow e1) as H2. destruct (Now e1) as [t1 e2]. cbn in H2.
  assert (R e e2) as He by (do 2 (etrans; [eassumption|]); done). destruct o as [d1|]; [|done]. destruct (negb (IsAllow d1)); [done|].
  specialize (IH e2 (set_timing (default rc rc1) (st_Name s) (Sub t1 t0)) d1). destruct (runStages ss b e2 _ d1) as [[[e3 rc3] t3] d3]. by etrans.
Qed.

Lemma production_keeps R : stable R -> Forall (stage_keeps R) production_stages.
Proof.
  intros [Hpre Hnow Hcu Hge _]. repeat constructor; intros e rc; cbn.
  - by destruct (c_Request rc).
  - unfold identity_execute. destruct (c_Request rc) as [r|]; [|done]. by repeat case_match.
  - specialize (Hcu e). destruct (svc_current e) as [e1 [[snap age]|]]; cbn in Hcu; [|done]. destruct (_ || _); [done|]. by destruct (Matched _).
  - destruct (mr_Credential _) as [cred|]; [|done]. specialize (Hge e (toTokenSelector (Some cred))). destruct (svc_get e _) as [e1 [tr|]]; done.
  - by repeat case_match.
Qed.

Lemma Execute_keeps R e rc : stable R -> R e (Execute production e rc).1.1.1.
Proof.
  intros HR. pose proof (production_keeps R HR) as Hst. pose proof (runStages_keeps R) as Hrun. destruct rc as [rc|]; [|cbn; destruct HR; reflexivity].
  unfold Execute. rewrite production_boundary. change (stages production) with production_stages.
  destruct (prepare e rc) as [e1 rc1] eqn:Ep. apply prepare_same in Ep as (_ & _ & _ & He1).
  specialize (Hrun (take 4 production_stages) true HR (Forall_take _ _ _ Hst) e1 rc1 Allow) as H1.
  destruct (runStages (take 4 production_stages) true e1 rc1 Allow) as [[[e2 rc2] t1] d1]. cbn in H1.
  assert (forall d, R e2 (audit production e2 rc2 d).1.1.1) as Hau.
  { intros d. unfold audit. change (auditSink production) with (Some svc_record). destruct HR as [Hpre Hnow _ _ Hre].
    pose proof (Hnow e2) as K1. destruct (Now e2) as [x1 a1]. pose proof (Hnow a1) as K2. destruct (Now a1) as [x2 a2].
    pose proof (Hnow a2) as K3. destruct (Now a2) as [x3 a3]. specialize (Hre a3 (buildAuditEvent production x2 x3 rc2 d)).
    destruct (svc_record a3 _) as [a4 err]. pose proof (Hnow a4) as K4. destruct (Now a4) as [x4 a5]. cbn in *. by do 4 (etrans; [eassumption|]). }
  set (ad := if IsAllow _ then _ else _). specialize (Hau ad). destruct (audit production e2 rc2 ad) as [[[e3 rc3] t2] err]. cbn in Hau.
  specialize (Hrun (drop 4 production_stages) false HR (Forall_drop _ _ _ Hst) e3 rc3 Allow) as H3.
  destruct HR as [Hpre Hnow _ _ _]. assert (R e e1) as Re1 by (apply elem_of_cons in He1 as [-> | ->%list_elem_of_singleton]; [done|apply Hnow]).
  assert (R e e3) as Re3 by (do 2 (etrans; [eassumption|]); done).
  destruct err as [err|]; [done|]. destruct (negb _); [done|].
  destruct (runStages (drop 4 production_stages) false e3 rc3 Allow) as [[[e4 rc4] t3] d3]. cbn in *. by etrans.
Qed.

(** The header map an allowed request leaves with. *)
Definition outgoing (h : Header) (cred : option CredentialSelector) (tok : gostring) : Header :=
  match cred with
  | None => h
  | Some _ => if str_eqb tok [] then h else Set_ h "Authorization" (bearer tok)
  end.

(** The sink's acceptance, with the states around it. *)
Lemma audit_accepted R e rc d e' rc' t : stable R -> audit production e rc d = (e', rc', t, None) ->
  exists a a' now now' n, let ev := buildAuditEvent production now now' rc d in
    R e a /\ svc_record a ev = (a', None) /\ R a' e' /\ t = [Recorded ev None] /\ rc' = set_timing rc "audit" n.
Proof.
  intros [Hpre Hnow _ _ _]. unfold audit. change (auditSink production) with (Some svc_record).
  pose proof (Hnow e) as H1. destruct (Now e) as [x1 e1]. cbn [snd] in H1. pose proof (Hnow e1) as H2. destruct (Now e1) as [x2 e2].
  cbn [snd] in H2. pose proof (Hnow e2) as H3. destruct (Now e2) as [x3 e3]. cbn [snd] in H3.
  destruct (svc_record e3 _) as [e4 a] eqn:Er. pose proof (Hnow e4) as H4. destruct (Now e4) as [x4 e5]. cbn [snd] in H4.
  intros [= <- <- <- ->]. exists e3, e4, x2, x3, (Sub x4 x1). cbv zeta. split_and!; try done. by do 2 (etrans; [eassumption|]).
Qed.

(** A record of the allowed request [rc'], accepted by the sink between [e] and [e']. *)
Definition accepted (R : relation E) (e e' : E) (rc rc' : RequestContext) (tr : TokenResult) (ev : AuditEvent) : Prop :=
  exists a a' now now' rc0, R e a /\ svc_record a ev = (a', None) /\ R a' e' /\
    ev = buildAuditEvent production now now' rc0 Allow /\ c_RequestID rc0 = c_RequestID rc /\ c_Facts rc0 = c_Facts rc' /\
    c_MatchResult rc0 = c_MatchResult rc' /\ c_TokenResult rc0 = tr.

(** Everything an allow entails; the theorem below states the part that concerns
    enforcement, and the request path uses the rest. *)
Lemma allow_facts R e rc e' rc' t d r h : stable R ->
  c_Request rc = Some r -> rq_Header r = Some h ->
  Execute production e (Some rc) = (e', Some rc', t, d) -> IsAllow d = true ->
  exists e1 e2 snap age e3 e4 tr r' h' ev,
    (svc_current e1 = (e2, Some (snap, age)) /\ 0 <= age < maxStaleness match_stage /\
    c_MatchResult rc' = Match snap (c_Facts rc') /\ Matched (c_MatchResult rc') = true /\
    c_Request rc' = Some r' /\ rq_Host r' = rf_Identity (c_Facts rc') /\
    canonical (rf_Path (c_Facts rc')) /\ (exists u', rq_URL r' = Some u' /\ ru_RawPath u' = rf_Path (c_Facts rc')) /\
    match mr_Credential (c_MatchResult rc') with
    | None => tr = zero_result
    | Some cred => svc_get e3 (toTokenSelector (Some cred)) = (e4, Ok tr)
    end /\
    rq_Header r' = Some (outgoing h' (mr_Credential (c_MatchResult rc')) (Reveal (tr_Token tr))) /\
    (forall k, shouldStrip (ToLower k) = true \/ hopByHop (ToLower k) = true -> h' !! k = None)) /\
    (Recorded ev None ∈ t /\ accepted R e e' rc rc' tr ev) /\
    agreed_identity (ToLower (SNI (c_Identity rc))) (ToLower (AuthorityHost (c_Identity rc))) = Ok (rf_Identity (c_Facts rc')) /\
    check_port (c_Identity rc) (rq_Host r) = Ok tt /\
    rf_Port (c_Facts rc') = DestinationPort (c_Identity rc) /\ (R e e1 /\ R e2 e') /\ (R e e3 /\ R e4 e') /\ c_TokenResult rc' = tr /\
    (h' ⊆ h /\ rq_Method r' = rq_Method r /\ rf_Method (c_Facts rc') = rq_Method r /\ rq_URL r' = Some (canonical_url (rf_Path (c_Facts rc')))).
Proof.
  intros HR Hr Hh. unfold Execute. rewrite production_boundary. change (stages production) with production_stages.
  destruct (prepare e rc) as [e1 rc1] eqn:Ep. apply prepare_same in Ep as (Ep & Epi & Epr & He1). rewrite Hr in Ep.
  destruct (runStages (take 4 production_stages) true e1 rc1 Allow) as [[[e2 rc2] t1] d1] eqn:E1.
  destruct (audit production e2 rc2 _) as [[[e3 rc3] t2] err] eqn:Ea.
  destruct err as [err|]; [by intros [= <- <- <- <-]|].
  rewrite normalize_allow in Ea |- *. destruct (IsAllow d1) eqn:Ed1; simpl negb.
  2:{ intros [= <- <- <- <-]. by rewrite normalize_allow, Ed1. }
  destruct (before_audit_allow R _ _ _ _ _ _ _ _ HR E1 Ed1 Ep) as (a1 & a2 & snap & age & a3 & a4 & r1 & Hcur & Hage & Hm & Hmd & Hr1 & Hh1
    & Hhost & _ & Hcan & Hurl & Hag & Hport & Hfport & Htok & Hid & [Ra1 Ra2] & [Ra3 Ra4] & Re2 & Hme & Hfme & Hcu).
  rewrite Epi in Hag, Hport, Hfport.
  apply (audit_accepted R) in Ea as (b1 & b2 & now & now' & n & Rb1 & Hrec & Rb2 & -> & ->); [|done].
  destruct (runStages (drop 4 production_stages) false e3 _ Allow) as [[[e5 rc5] t3] d3] eqn:E3.
  destruct (IsAllow d3) eqn:Ed3; [|by intros [= <- <- <- <-]]. intros [= <- <- <- <-] _.
  change (drop 4 production_stages) with [Some (@InjectStage E)] in E3.
  apply runStages_allow in E3 as (b4 & rc6 & d6 & n6 & t6 & Hs & Ha6 & E3); [|done].
  unfold sanitise_request in Hh1. rewrite Hh in Hh1. simpl in Hh1. set (h' := delete_keys _ h) in Hh1.
  destruct (inject_allow _ _ _ _ _ r1 h' Hs Ha6 Hr1 Hh1) as (rc7 & -> & -> & Hf7 & Hm7 & Ht7 & Hr7).
  simpl in E3. injection E3 as <- <- <- <-. simpl. rewrite Hm7, Hf7, Hr7. simpl.
  destruct HR as [Hpre Hnow _ _ Hrecd]. assert (R e e1) as Re1 by (apply elem_of_cons in He1 as [-> | ->%list_elem_of_singleton]; [done|apply Hnow]).
  exists a1, a2, snap, age, a3, a4, (c_TokenResult rc2). eexists _, h', _.
  assert (R e2 (Now (Now e3).2).2) as Rend by (etrans; [exact Rb1|]; etrans; [|etrans; [exact Rb2|etrans; apply Hnow]]; pose proof (Hrecd b1 (buildAuditEvent production now now' rc2 Allow)) as K; rewrite Hrec in K; exact K).
  split_and!; [done|lia|lia|done|done|done|done|done|done| | | | | |done|done|done|by etrans|by etrans|by etrans|by etrans|exact Ht7| |done|done|done].
  - destruct (mr_Credential (c_MatchResult rc2)); done.
  - simpl. unfold outgoing. destruct (mr_Credential (c_MatchResult rc2)); [done|]. by rewrite Htok.
  - intros k Hk. unfold h'. rewrite delete_keys_lookup. unfold strip_header.
    destruct Hk as [-> | ->]; [done|]. by rewrite orb_true_r.
  - rewrite elem_of_app. right. left.
  - exists b1, b2, now, now', rc2. split_and!; try done; [by do 2 (etrans; [eassumption|])| |congruence].
    etrans; [exact Rb2|]. etrans; apply Hnow.
  - unfold h', delete_keys. apply map_filter_subseteq.
Qed.

(** C3: what an allow of the production pipeline means.  The policy snapshot was
    present and not stale, and the matcher, given exactly the facts that were
    recorded, found a rule in it.  The host and the raw path of the URL that leaves the pipeline are the ones
    the rule was matched on.  No credential or provenance header of the agent is
    left: an Authorization header is present exactly when the winning rule names a
    credential and the broker returned a token for that credential, and it carries
    that token.  And one record with disposition allow, naming that rule, was
    accepted by the sink. *)
Theorem enforcement_allow e rc e' rc' t d r h :
  c_Request rc = Some r -> rq_Header r = Some h ->
  Execute production e (Some rc) = (e', Some rc', t, d) -> IsAllow d = true ->
  exists e1 e2 snap age e3 e4 tr r' h',
    svc_current e1 = (e2, Some (snap, age)) /\ 0 <= age < maxStaleness match_stage /\
    c_MatchResult rc' = Match snap (c_Facts rc') /\ Matched (c_MatchResult rc') = true /\
    c_Request rc' = Some r' /\ rq_Host r' = rf_Identity (c_Facts rc') /\
    canonical (rf_Path (c_Facts rc')) /\ (exists u', rq_URL r' = Some u' /\ ru_RawPath u' = rf_Path (c_Facts rc')) /\
    match mr_Credential (c_MatchResult rc') with
    | None => tr = zero_result
    | Some cred => svc_get e3 (toTokenSelector (Some cred)) = (e4, Ok tr)
    end /\
    rq_Header r' = Some (outgoing h' (mr_Credential (c_MatchResult rc')) (Reveal (tr_Token tr))) /\
    (forall k, shouldStrip (ToLower k) = true \/ hopByHop (ToLower k) = true -> h' !! k = None) /\
    (exists ev, Recorded ev None ∈ t /\ ev_Disposition ev = DispositionAllow /\
       ev_RuleName ev = PolicyRef (c_MatchResult rc') /\ ev_Identity ev = rf_Identity (c_Facts rc')).
Proof.
  intros Hr Hh Hx Ha.
  destruct (allow_facts _ _ _ _ _ _ _ _ _ stable_any Hr Hh Hx Ha) as (e1 & e2 & snap & age & e3 & e4 & tr & r' & h' & ev & H & [Hin Hev] & _).
  exists e1, e2, snap, age, e3, e4, tr, r', h'. repeat (split; [apply H|]). exists ev. split; [done|].
  destruct Hev as (a & a' & now & now' & rc0 & _ & _ & _ & -> & _ & Hf & Hm & _). simpl. by rewrite Hf, Hm.
Qed.
End Production.

(** ** A concrete run *)

Definition demo_services : Services Z := {|
  svc_clock := tick_clock;
  svc_current e := (e, Some (sample_snapshot, Second));
  svc_get e sel := (e + 3, Ok {| tr_Token := NewToken "tok" (60 * Minute);
                                 tr_Resolved := zero_resolved; tr_CacheHit := false |});
  svc_record e ev := (e + 1, None)
|}.
Definition no_pod : AuditIdentity := zero_identity.
Notation demo_run :=
  (Execute (U := ascii_only) (S := sha_id) (N := opaque_urls) (C := @svc_clock Z demo_services)
    (production (U := ascii_only) (V := demo_services) 0 no_pod) 0 (Some sample_context)).

Lemma demo_run_allow : IsAllow demo_run.2 = true.
Proof. vm_compute. reflexivity. Qed.
Lemma demo_run_context : is_Some demo_run.1.1.2.
Proof. vm_compute. by eexists. Qed.

Lemma enforcement_allow_witness :
  exists rc' r' h', demo_run.1.1.2 = Some rc' /\ c_Request rc' = Some r' /\ rq_Header r' = Some h' /\
    rq_Host r' = rf_Identity (c_Facts rc').
Proof.
  pose proof demo_run_allow as Ha. pose proof demo_run_context as Hc.
  destruct demo_run as [[[e' [rc'|]] t] d] eqn:E; [|by destruct Hc].
  destruct (enforcement_allow 0 no_pod 0 sample_context e' rc' t d smuggling_request smuggling_header eq_refl eq_refl E Ha)
    as (e1 & e2 & snap & age & e3 & e4 & tr & r' & h' & _ & _ & _ & _ & Hr & Hh & _ & _ & _ & Hhdr & _).
  exists rc', r'. eexists. split_and!; [done|exact Hr|exact Hhdr|exact Hh].
Defined.

Lemma Execute_fail_closed_witness : ran demo_run.1.2 = [bs "sanitise"; bs "identity"; bs "match"; bs "acquire"; bs "inject"].
Proof.
  pose proof demo_run_allow as Ha. destruct demo_run as [[[e' rc'] t] d] eqn:E.
  destruct (Execute_fail_closed _ _ _ _ _ _ _ E) as [_ H]. destruct (H Ha) as [Hr _]. simpl. rewrite Hr. reflexivity.
Defined.

Lemma Execute_records_once_witness : exists before ev answer after,
  demo_run.1.2 = before ++ Recorded ev answer :: after /\ ev_Disposition ev = DispositionAllow.
Proof.
  pose proof demo_run_allow as Ha. destruct demo_run as [[[e' rc'] t] d] eqn:E.
  assert (is_Some (auditSink (production (U := ascii_only) (V := demo_services) 0 no_pod))) as Hs by (by eexists).
  destruct (Execute_records_once _ _ _ _ _ _ _ Hs E) as (before & ev & answer & after & Ht & _ & _ & _ & Hev & _).
  exists before, ev, answer, after. split; [done|]. apply Hev. right. exact Ha.
Defined.
