(* ===== verification/Limits.v ===== *)
(** * Resource bounds of the request path

    [limiter.go], [headreader.go], [response_limit.go] and [options.go] of
    [internal/dataplane/requestpath]. *)

From S2P Require Import Prelude GoStrings GoRuntime.
#[local] Open Scope Z_scope.

(** ** Admission limiter

    The buffered channel is its number of held slots and its capacity. *)

Record Limiter := { held : nat; capacity : nat }.
Definition NewLimiter (n : Z) : Limiter :=
  {| held := 0; capacity := if n <=? 0 then 1%nat else Z.to_nat n |}.
Definition TryAcquire (l : Limiter) : Limiter * bool :=
  if (held l <? capacity l)%nat then ({| held := S (held l); capacity := capacity l |}, true) else (l, false).
(** [None] is the panic on over-release. *)
Definition Release (l : Limiter) : option Limiter :=
  match held l with O => None | S n => Some {| held := n; capacity := capacity l |} end.
Definition InFlight (l : Limiter) : nat := held l.

(** Goroutines that acquire with [TryAcquire] and, when admitted, release once:
    [active] is the number of those between the two. *)
Inductive limiter_run (n : Z) : Limiter -> nat -> Prop :=
| limiter_start : limiter_run n (NewLimiter n) 0
| limiter_admit l a l' : limiter_run n l a -> TryAcquire l = (l', true) -> limiter_run n l' (S a)
| limiter_refuse l a l' : limiter_run n l a -> TryAcquire l = (l', false) -> limiter_run n l' a
| limiter_release l a l' : limiter_run n l (S a) -> Release l = Some l' -> limiter_run n l' a.

Lemma limiter_run_inv n l a : limiter_run n l a ->
  held l = a /\ capacity l = capacity (NewLimiter n) /\ (held l <= capacity l)%nat.
Proof.
  induction 1 as [|l a l' _ (H1 & H2 & H3) Ht|l a l' _ (H1 & H2 & H3) Ht|l a l' _ (H1 & H2 & H3) Hr].
  - simpl. split_and!; [done..|lia].
  - unfold TryAcquire in Ht. destruct (Nat.ltb_spec (held l) (capacity l)); simplify_eq. simpl. split_and!; [done..|lia].
  - unfold TryAcquire in Ht. destruct (Nat.ltb_spec (held l) (capacity l)); simplify_eq. done.
  - unfold Release in Hr. rewrite H1 in Hr. simplify_eq. simpl. split_and!; [done..|lia].
Qed.

(** however requests interleave, at most the configured number are in flight, the
    count is exact, a request is refused only when that many are in flight, and the
    release of an admitted request never panics. *)
Lemma Limiter_bounds n l a : limiter_run n l a ->
  InFlight l = a /\ (a <= capacity (NewLimiter n))%nat /\
  ((TryAcquire l).2 = false <-> a = capacity (NewLimiter n)) /\
  (0 < a -> is_Some (Release l))%nat.
Proof.
  intros (H1 & H2 & H3)%limiter_run_inv. unfold InFlight, TryAcquire, Release. rewrite <- H2.
  split_and!; [done|lia| |].
  - destruct (Nat.ltb_spec (held l) (capacity l)); simpl; (split; [done || lia|]); [lia|done].
  - rewrite H1. intros Ha. destruct a; [lia|]. by eexists.
Qed.


(** ** Readers

    An [io.Reader] over a state [R]: given room for [n] bytes it returns at most [n]
    and possibly an error. *)

Definition reader (R : Type) := R -> nat -> R * gostring * option error.
Definition well_behaved {R} (read : reader R) : Prop :=
  forall r n, (length (read r n).1.2 <= n)%nat.

Definition ErrHeadTooLarge : error := Errorf "requestpath: request head exceeds max_header_bytes".
Definition ErrResponseBodyTooLarge : error := Errorf "requestpath: response body exceeds configured limit".

Module HeadGuard.
Section Guard.
Context {R : Type} (read : reader R) (read_ok : well_behaved read).

Record HeadGuard := { inner : R; limit : Z; remaining : Z; armed : bool; tee : gostring }.

Definition NewHeadGuard (r : R) (lim : Z) : HeadGuard :=
  {| inner := r; limit := if lim <? 0 then 0 else lim; remaining := 0; armed := false; tee := [] |}.
Definition Arm (g : HeadGuard) : HeadGuard :=
  {| inner := inner g; limit := limit g; remaining := limit g; armed := true; tee := [] |}.
Definition Disarm (g : HeadGuard) : HeadGuard :=
  {| inner := inner g; limit := limit g; remaining := remaining g; armed := false; tee := tee g |}.
Definition Head (g : HeadGuard) : gostring := tee g.

(** [Read] into a buffer of [len] bytes: the bytes read and the error. *)
Definition Read (g : HeadGuard) (len : nat) : HeadGuard * gostring * option error :=
  if negb (armed g) then
    let '(r, bytes, err) := read (inner g) len in
    ({| inner := r; limit := limit g; remaining := remaining g; armed := armed g; tee := tee g |}, bytes, err)
  else if remaining g <=? 0 then (g, [], Some ErrHeadTooLarge)
  else
    let lim := if remaining g <? Z.of_nat len then remaining g else Z.of_nat len in
    let '(r, bytes, err) := read (inner g) (Z.to_nat lim) in
    let g' := {| inner := r; limit := limit g; remaining := remaining g - Z.of_nat (length bytes);
                 armed := armed g; tee := tee g ++ bytes |} in
    match err with
    | Some _ => (g', bytes, err)
    | None => if (lim <? Z.of_nat len) && (remaining g' =? 0) then (g', bytes, Some ErrHeadTooLarge) else (g', bytes, None)
    end.

(** Reads with the given buffer sizes, and everything they returned. *)
Fixpoint reads (g : HeadGuard) (lens : list nat) : HeadGuard * gostring :=
  match lens with
  | [] => (g, [])
  | n :: rest => let '(g, bytes, _) := Read g n in let '(g, more) := reads g rest in (g, bytes ++ more)
  end.

Lemma Read_armed g len : armed g = true -> 0 <= remaining g ->
  let '(g', bytes, err) := Read g len in
  armed g' = true /\ limit g' = limit g /\ tee g' = tee g ++ bytes /\
  remaining g' = remaining g - Z.of_nat (length bytes) /\ 0 <= remaining g'.
Proof.
  intros Ha Hr. unfold Read. rewrite Ha. cbn [negb]. destruct (Z.leb_spec (remaining g) 0).
  - rewrite app_nil_r. simpl. split_and!; done || lia.
  - set (lim := if _ <? _ then _ else _). pose proof (read_ok (inner g) (Z.to_nat lim)) as Hl.
    assert (0 <= lim <= remaining g) by (unfold lim; destruct (Z.ltb_spec (remaining g) (Z.of_nat len)); lia).
    destruct (read (inner g) (Z.to_nat lim)) as [[r bytes] err]. simpl in Hl.
    destruct err; [|destruct (_ && _)]; simpl; split_and!; done || lia.
Qed.

(** From the moment it is armed, the guard lets through at most the configured
    number of bytes whatever the sizes of the reads, its capture is exactly what was
    read, and once the budget is used up further reads fail without touching the
    connection. *)
Theorem HeadGuard_budget g lens :
  0 <= limit g ->
  let '(g', bytes) := reads (Arm g) lens in
  Head g' = bytes /\ Z.of_nat (length bytes) <= limit g /\
  (Z.of_nat (length bytes) = limit g -> forall n, Read g' n = (g', [], Some ErrHeadTooLarge)).
Proof.
  intros Hl. assert (forall lens g0, armed g0 = true -> 0 <= remaining g0 ->
    let '(g', bytes) := reads g0 lens in
    armed g' = true /\ tee g' = tee g0 ++ bytes /\ remaining g' = remaining g0 - Z.of_nat (length bytes) /\ 0 <= remaining g') as H.
  { clear -read_ok. intros lens. induction lens as [|n lens IH]; intros g0 Ha Hr; simpl.
    - rewrite app_nil_r. split_and!; done || lia.
    - pose proof (Read_armed g0 n Ha Hr) as Hread. destruct (Read g0 n) as [[g1 b1] e1].
      destruct Hread as (H1 & H2 & H3 & H4 & H5). specialize (IH g1 H1 H5).
      destruct (reads g1 lens) as [g2 b2]. destruct IH as (I1 & I2 & I3 & I4).
      rewrite I2, H3, length_app, <- app_assoc. split_and!; done || lia. }
  specialize (H lens (Arm g) eq_refl Hl). destruct (reads (Arm g) lens) as [g' bytes].
  destruct H as (H1 & H2 & H3 & H4). simpl in H2, H3. split_and!; [done|lia|].
  intros He n. unfold Read. rewrite H1. cbn [negb]. by rewrite (proj2 (Z.leb_le (remaining g') 0)) by lia.
Qed.
End Guard.
End HeadGuard.

Lemma HeadGuard_budget_witness :
  let read : reader gostring := fun r n => (drop n r, take n r, None) in
  exists g', HeadGuard.reads read (HeadGuard.Arm (HeadGuard.NewHeadGuard (bs "GET / HTTP/1.1") 5)) [3; 9]%nat =
    (g', bs "GET /") /\ HeadGuard.Head g' = bs "GET /".
Proof.
  intros read. assert (well_behaved read) as Hok by (intros r n; simpl; rewrite length_take; lia).
  pose proof (HeadGuard.HeadGuard_budget read Hok (HeadGuard.NewHeadGuard (bs "GET / HTTP/1.1") 5) [3; 9]%nat ltac:(done)) as H.
  destruct (HeadGuard.reads read _ _) as [g' b] eqn:E. exists g'. destruct H as (H & _ & _).
  assert (b = bs "GET /") as -> by (apply (f_equal snd) in E; vm_compute in E; by rewrite <- E). done.
Defined.

Module ResponseLimit.
Section Limit.
Context {R : Type} (read : reader R) (read_ok : well_behaved read).

Record responseBodyLimitReader := { inner : R; limit : Z; count : Z; exceeded : bool }.
Definition newResponseBodyLimitReader (r : R) (lim : Z) : responseBodyLimitReader :=
  {| inner := r; limit := lim; count := 0; exceeded := false |}.

Definition Read (b : responseBodyLimitReader) (len : nat) : responseBodyLimitReader * gostring * option error :=
  if exceeded b then (b, [], Some ErrResponseBodyTooLarge)
  else
    let '(r, bytes, err) := read (inner b) len in
    let c := wrap64 (count b + Z.of_nat (length bytes)) in
    if limit b <? c
    then ({| inner := r; limit := limit b; count := c; exceeded := true |}, bytes, Some ErrResponseBodyTooLarge)
    else ({| inner := r; limit := limit b; count := c; exceeded := exceeded b |}, bytes, err).

Definition Exceeded (b : responseBodyLimitReader) : bool := exceeded b.

(** The reads a relay makes: it stops at the first error. *)
Fixpoint relay (b : responseBodyLimitReader) (lens : list nat) : responseBodyLimitReader * gostring * option error :=
  match lens with
  | [] => (b, [], None)
  | n :: rest =>
      let '(b, bytes, err) := Read b n in
      match err with
      | Some _ => (b, bytes, err)
      | None => let '(b, more, err) := relay b rest in (b, bytes ++ more, err)
      end
  end.

Lemma relay_count lens : forall b out b' err,
  exceeded b = false -> 0 <= count b <= limit b -> limit b < 2 ^ 62 -> Forall (fun n => Z.of_nat n < 2 ^ 62) lens ->
  relay b lens = (b', out, err) ->
  limit b' = limit b /\ count b' = count b + Z.of_nat (length out) /\
  (exceeded b' = true <-> limit b < count b') /\
  (exceeded b' = true -> err = Some ErrResponseBodyTooLarge).
Proof.
  induction lens as [|n lens IH]; intros b out b' err He Hc Hl Hf; simpl.
  - intros [= <- <- <-]. rewrite He. simpl. split_and!; try lia; done.
  - apply Forall_cons in Hf as [Hn Hf]. unfold Read. rewrite He.
    pose proof (read_ok (inner b) n) as Hr. destruct (read (inner b) n) as [[r bytes] e]. simpl in Hr.
    rewrite wrap64_id by (unfold in_int64; lia).
    destruct (Z.ltb_spec (limit b) (count b + Z.of_nat (length bytes))).
    + intros [= <- <- <-]. simpl. split_and!; done || lia.
    + destruct e as [e|].
      * intros [= <- <- <-]. simpl. split_and!; try lia; done.
      * destruct (relay _ lens) as [[b2 more] err2] eqn:Er. intros [= <- <- <-].
        apply IH in Er as (I1 & I2 & I3 & I4); simpl in *; [|done|lia|done|done].
        rewrite length_app. split_and!; try done; lia.
Qed.

(** The relay of a response body passes exactly the configured number of bytes
    without complaint; the limit is reported if and only if more than that was read,
    and it never counts wrongly as long as the sizes stay below 2^62. *)
Theorem response_limit_exact r lim lens b' out err :
  0 <= lim < 2 ^ 62 -> Forall (fun n => Z.of_nat n < 2 ^ 62) lens ->
  relay (newResponseBodyLimitReader r lim) lens = (b', out, err) ->
  (Exceeded b' = true <-> lim < Z.of_nat (length out)) /\
  (Exceeded b' = true -> err = Some ErrResponseBodyTooLarge /\ forall n, Read b' n = (b', [], Some ErrResponseBodyTooLarge)).
Proof.
  intros Hl Hf Hr. destruct (relay_count _ (newResponseBodyLimitReader r lim) _ _ _ eq_refl ltac:(simpl; lia) ltac:(simpl; lia) Hf Hr) as (_ & H2 & H3 & H4).
  simpl in H2, H3. unfold Exceeded. rewrite H3, H2. split; [lia|]. intros Hx. split; [apply H4, H3; lia|].
  intros n. unfold Read. by rewrite (proj2 H3) by lia.
Qed.
End Limit.
End ResponseLimit.

Lemma response_limit_exact_witness :
  let read : reader gostring := fun r n => (drop n r, take n r, None) in
  exists b', ResponseLimit.relay read (ResponseLimit.newResponseBodyLimitReader (bs "0123456789") 5) [5; 4]%nat =
    (b', bs "012345678", Some ErrResponseBodyTooLarge) /\ ResponseLimit.Exceeded b' = true.
Proof.
  intros read. assert (well_behaved read) as Hok by (intros r n; simpl; rewrite length_take; lia).
  destruct (ResponseLimit.relay read (ResponseLimit.newResponseBodyLimitReader (bs "0123456789") 5) [5; 4]%nat) as [[b' out] err] eqn:E.
  assert (out = bs "012345678") as -> by (apply (f_equal (fun x => x.1.2)) in E; vm_compute in E; by rewrite <- E).
  assert (err = Some ErrResponseBodyTooLarge) as -> by (apply (f_equal snd) in E; vm_compute in E; by rewrite <- E).
  exists b'. split; [done|].
  apply (ResponseLimit.response_limit_exact read Hok (bs "0123456789") 5 [5; 4]%nat b' _ _ ltac:(lia) ltac:(repeat constructor) E).
  simpl. lia.
Defined.

(** ** Options *)

Record Options := {
  MaxHeaderBytes : Z;
  MaxInflightRequests : Z;
  CopyBufferBytes : Z;
  HeaderReadTimeout : Duration;
  IdleTimeout : Duration;
  ProgressDeadline : Duration;
  UpstreamDialTimeout : Duration;
  UpstreamResponseTimeout : Duration;
  MaxRejectionAudits : Z;
  RejectionAuditTimeout : Duration;
  MaxResponseBodyBytes : Z
}.

Definition DefaultOptions : Options := {|
  MaxHeaderBytes := 64 * 1024;
  MaxInflightRequests := 2048;
  CopyBufferBytes := 32 * 1024;
  HeaderReadTimeout := 10 * Second;
  IdleTimeout := 90 * Second;
  ProgressDeadline := 60 * Second;
  UpstreamDialTimeout := 15 * Second;
  UpstreamResponseTimeout := 30 * Second;
  MaxRejectionAudits := 64;
  RejectionAuditTimeout := 250 * Millisecond;
  MaxResponseBodyBytes := 128 * 1024 * 1024
|}.

(** The name of the first bound that is not positive. *)
Definition Options_Validate (o : Options) : option gostring :=
  if MaxHeaderBytes o <=? 0 then Some (bs "MaxHeaderBytes")
  else if MaxInflightRequests o <=? 0 then Some (bs "MaxInflightRequests")
  else if CopyBufferBytes o <=? 0 then Some (bs "CopyBufferBytes")
  else if HeaderReadTimeout o <=? 0 then Some (bs "HeaderReadTimeout")
  else if IdleTimeout o <=? 0 then Some (bs "IdleTimeout")
  else if ProgressDeadline o <=? 0 then Some (bs "ProgressDeadline")
  else if UpstreamDialTimeout o <=? 0 then Some (bs "UpstreamDialTimeout")
  else if UpstreamResponseTimeout o <=? 0 then Some (bs "UpstreamResponseTimeout")
  else if MaxRejectionAudits o <=? 0 then Some (bs "MaxRejectionAudits")
  else if RejectionAuditTimeout o <=? 0 then Some (bs "RejectionAuditTimeout")
  else if MaxResponseBodyBytes o <=? 0 then Some (bs "MaxResponseBodyBytes")
  else None.

Example DefaultOptions_valid : Options_Validate DefaultOptions = None.
Proof. reflexivity. Qed.
