(* ===== verification/RawHead.v ===== *)
(** * [internal/dataplane/requestpath/rawhead.go]: structure of a request head

    [ScanRawHead] inspects the bytes of an HTTP/1.1 head before they are trusted to
    a parser.  The theorem says what an accepted head looks like. *)

From S2P Require Import Prelude GoStrings Decision.
#[local] Open Scope Z_scope.

(** ** [reject.go] *)

Inductive RejectClass := ClassT1 | ClassT2 | ClassT3 | ClassT4 | ClassT5 | ClassT6 | ClassT7 | ClassT8 | ClassT9.
Definition RejectClass_String (c : RejectClass) : gostring :=
  match c with
  | ClassT1 => "no_original_dst"
  | ClassT2 => "loop_guard"
  | ClassT3 => "no_sni"
  | ClassT4 => "handshake"
  | ClassT5 => "unsupported_protocol"
  | ClassT6 => "identity_mismatch"
  | ClassT7 => "resource_limit"
  | ClassT8 => "plaintext_unresolvable"
  | ClassT9 => "plaintext_registry_unavailable"
  end.

Inductive WireBehaviour := WireCloseBare | WireWrite400Close | WireWrite431Close.

Record Rejection := {
  rj_Class : RejectClass;
  rj_Reason : DenyReason;
  rj_Bound : gostring;
  rj_Wire : WireBehaviour;
  rj_Status : Z;
  rj_Fault : bool;
  rj_RequestID : gostring;
  rj_ConnID : gostring;
  rj_Port : Z;
  rj_Method : gostring;
  rj_Path : gostring
}.

Definition rejection_400 (reason : DenyReason) (bound method path : gostring) : Rejection :=
  {| rj_Class := ClassT5; rj_Reason := reason; rj_Bound := bound; rj_Wire := WireWrite400Close; rj_Status := 400;
     rj_Fault := false; rj_RequestID := []; rj_ConnID := []; rj_Port := 0; rj_Method := method; rj_Path := path |}.

Definition unsupportedProtocolRejection : Rejection := rejection_400 ReasonUnsupportedProtocol [] [] [].
Definition malformedTargetRejection : Rejection := rejection_400 ReasonMalformedTarget [] [] [].

(** ** Bytes and values *)

Definition isTChar (b : ascii) : bool :=
  between "0" b "9" || between "A" b "Z" || between "a" b "z" ||
  bool_decide (b ∈ ["!"; "#"; "$"; "%"; "&"; "'"; "*"; "+"; "-"; "."; "^"; "_"; "`"; "|"; "~"]%char).

Definition validHeaderName (name : gostring) : bool := forallb isTChar name.
Definition validHeaderValue (value : gostring) : bool :=
  forallb (fun b => ascii_eqb b chr_tab || negb ((code b <? 32) || (code b =? 127))) value.

Definition allDigits (s : gostring) : bool := forallb is_digit s.
Definition is_blank (c : ascii) : bool := ascii_eqb c " " || ascii_eqb c chr_tab.

Definition invalidContentLengthValue (raw : gostring) : bool :=
  let trimmed := Trim is_blank raw in
  if negb (str_eqb raw trimmed) then true
  else if str_eqb trimmed [] then true
  else if HasPrefix trimmed "+" then true
  else if negb (allDigits trimmed) then true
  else (1 <? length trimmed)%nat && bool_decide (head trimmed = Some "0"%char).

Definition trimContentLengthFieldValue (raw : gostring) : gostring :=
  match raw with
  | [] => raw
  | c :: r => if is_blank c then r else raw
  end.

(** The loop of [validateHeadLineEndings]; [prev] is the byte before. *)
Fixpoint line_endings_ok (prev : option ascii) (s : gostring) : bool :=
  match s with
  | [] => true
  | c :: r =>
      if ascii_eqb c chr_cr then
        match r with
        | d :: r' => ascii_eqb d chr_lf && line_endings_ok (Some d) r'
        | [] => false
        end
      else if ascii_eqb c chr_lf then
        bool_decide (prev = Some chr_cr) && line_endings_ok (Some c) r
      else line_endings_ok (Some c) r
  end.

Section Scan.
Context `{U : Unicode}.

Record counts := { hostCount : Z; contentLengthCount : Z; transferEncodingCount : Z }.

(** A header line up to its first colon, checked; [None] is a rejection. *)
Definition header_line (line : gostring) : option (gostring * gostring) :=
  match line with
  | [] => None
  | c :: _ =>
      if is_blank c then None
      else
        match IndexByte line ":" with
        | None => None
        | Some colon =>
            if (colon =? 0)%nat then None
            else if match line !! (colon - 1)%nat with Some b => is_blank b | None => false end then None
            else
              let name := take colon line in
              let value := drop (colon + 1) line in
              if negb (validHeaderName name) || negb (validHeaderValue value) then None
              else Some (name, value)
        end
  end.

(** The switch on the name; [None] is a rejection. *)
Definition count_header (acc : counts) (name value : gostring) : option counts :=
  let lower := ToLower name in
  if str_eqb lower "host" then
    Some {| hostCount := hostCount acc + 1; contentLengthCount := contentLengthCount acc;
            transferEncodingCount := transferEncodingCount acc |}
  else if str_eqb lower "content-length" then
    if invalidContentLengthValue (trimContentLengthFieldValue value) then None
    else Some {| hostCount := hostCount acc; contentLengthCount := contentLengthCount acc + 1;
                 transferEncodingCount := transferEncodingCount acc |}
  else if str_eqb lower "transfer-encoding" then
    let n := transferEncodingCount acc + 1 in
    if 1 <? n then None
    else if negb (str_eqb (ToLower (TrimSpace value)) "chunked") then None
    else Some {| hostCount := hostCount acc; contentLengthCount := contentLengthCount acc; transferEncodingCount := n |}
  else Some acc.

(** The loop over the lines after the request line. *)
Fixpoint scan_lines (acc : counts) (lines : list gostring) : option counts :=
  match lines with
  | [] => Some acc
  | line :: rest =>
      if (length line =? 0)%nat then Some acc
      else
        match header_line line with
        | None => None
        | Some (name, value) =>
            match count_header acc name value with
            | None => None
            | Some acc => scan_lines acc rest
            end
        end
  end.

Definition ScanRawHead (head : gostring) : option Rejection :=
  if negb (line_endings_ok None head) then Some unsupportedProtocolRejection
  else if (length head <? 4)%nat || negb (HasSuffix head (crlf ++ crlf)) then Some unsupportedProtocolRejection
  else
    match Index head crlf with
    | None => Some unsupportedProtocolRejection
    | Some requestLineEnd =>
        if (requestLineEnd =? 0)%nat then Some unsupportedProtocolRejection
        else if (8192 <? requestLineEnd)%nat then Some malformedTargetRejection
        else if negb (length (Fields (take requestLineEnd head)) =? 3)%nat then Some unsupportedProtocolRejection
        else
          let lines := SplitCRLF (take (length head - 2) head) in
          match scan_lines {| hostCount := 0; contentLengthCount := 0; transferEncodingCount := 0 |} (drop 1 lines) with
          | None => Some unsupportedProtocolRejection
          | Some c =>
              if (hostCount c =? 0) || (1 <? hostCount c) then Some unsupportedProtocolRejection
              else if 1 <? contentLengthCount c then Some unsupportedProtocolRejection
              else if (0 <? contentLengthCount c) && (0 <? transferEncodingCount c) then Some unsupportedProtocolRejection
              else if 1 <? transferEncodingCount c then Some unsupportedProtocolRejection
              else None
          end
    end.
End Scan.

Definition crlf_join (l : list gostring) : gostring := concat (map (fun x => x ++ crlf) l).
Definition simple_head : gostring :=
  crlf_join [bs "POST /v1/users HTTP/1.1"; bs "Host: api.example.com"; bs "Content-Length: 12"; bs ""].

Example ScanRawHead_examples :
  map (ScanRawHead (U := ascii_only))
    [simple_head;
     crlf_join [bs "GET / HTTP/1.1"; bs "Host: a"; bs "Host: b"; bs ""];
     crlf_join [bs "GET / HTTP/1.1"; bs "Host : a"; bs ""];
     crlf_join [bs "GET / HTTP/1.1"; bs "Host: a"; bs "Content-Length: 1"; bs "Transfer-Encoding: chunked"; bs ""];
     crlf_join [bs "GET / HTTP/1.1"; bs "Host: a"; bs "Content-Length: +1"; bs ""];
     bs "GET / HTTP/1.1" ++ [chr_lf] ++ bs "Host: a" ++ crlf ++ crlf]
  = [None; Some unsupportedProtocolRejection; Some unsupportedProtocolRejection; Some unsupportedProtocolRejection;
     Some unsupportedProtocolRejection; Some unsupportedProtocolRejection].
Proof. vm_compute. reflexivity. Qed.

(** ** Accepted heads *)

(** Carriage returns and line feeds occur only as pairs. *)
Definition crlf_paired (prev : option ascii) (s : gostring) : Prop :=
  (forall i, s !! i = Some chr_cr -> s !! S i = Some chr_lf) /\
  (forall i, s !! i = Some chr_lf -> match i with O => prev | S j => s !! j end = Some chr_cr).

Lemma crlf_paired_cons prev c s :
  (c = chr_cr -> head s = Some chr_lf) -> (c = chr_lf -> prev = Some chr_cr) ->
  crlf_paired (Some c) s -> crlf_paired prev (c :: s).
Proof.
  intros Hcr Hlf [H1 H2]. split.
  - intros [|i]; simpl; [|apply H1]. intros [= ->]. specialize (Hcr eq_refl). by destruct s.
  - intros [|i]; simpl; [intros [= ->]; auto|]. intros H. specialize (H2 i H). by destruct i.
Qed.

Lemma line_endings_paired s : forall prev, line_endings_ok prev s = true -> crlf_paired prev s.
Proof.
  induction s as [s IH] using (induction_ltof1 _ (@length ascii)). unfold ltof in IH.
  intros prev. destruct s as [|c r]; [by split|]. cbn [line_endings_ok].
  destruct (ascii_eqb c chr_cr) eqn:Ec.
  - apply ascii_eqb_eq in Ec as ->. destruct r as [|d r]; [done|].
    rewrite andb_true_iff. intros [Hd%ascii_eqb_eq Hr]. subst d.
    apply crlf_paired_cons; [done|done|]. apply crlf_paired_cons; [done|done|]. apply IH; [simpl; lia|done].
  - apply ascii_eqb_neq in Ec. destruct (ascii_eqb c chr_lf) eqn:El.
    + apply ascii_eqb_eq in El as ->. rewrite andb_true_iff, bool_decide_eq_true. intros [Hp Hr].
      apply crlf_paired_cons; [done|done|]. apply IH; [simpl; lia|done].
    + apply ascii_eqb_neq in El. intros Hr. apply crlf_paired_cons; [done|done|]. apply IH; [simpl; lia|done].
Qed.

(** The header lines: those before the first empty one. *)
Fixpoint before_blank (lines : list gostring) : list gostring :=
  match lines with
  | [] => []
  | l :: r => match l with [] => [] | _ => l :: before_blank r end
  end.

Section ScanFacts.
Context `{U : Unicode}.

Definition named (n : gostring) (f : gostring * gostring) : Prop := ToLower f.1 = n.
#[local] Instance named_dec n f : base.Decision (named n f).
Proof. unfold named. apply _. Defined.
Definition fields_named (n : gostring) (fs : list (gostring * gostring)) : list (gostring * gostring) := filter (named n) fs.

(** A field with acceptable framing values. *)
Definition framing_value_ok (f : gostring * gostring) : Prop :=
  (named "content-length" f -> invalidContentLengthValue (trimContentLengthFieldValue f.2) = false) /\
  (named "transfer-encoding" f -> ToLower (TrimSpace f.2) = bs "chunked").

Lemma fields_named_cons n f fs :
  fields_named n (f :: fs) = if decide (named n f) then f :: fields_named n fs else fields_named n fs.
Proof. apply filter_cons. Qed.

Lemma count_header_ok acc name value acc' :
  count_header acc name value = Some acc' ->
  let one n := if decide (named n (name, value)) then 1 else 0 in
  framing_value_ok (name, value) /\
  hostCount acc' = hostCount acc + one (bs "host") /\
  contentLengthCount acc' = contentLengthCount acc + one (bs "content-length") /\
  transferEncodingCount acc' = transferEncodingCount acc + one (bs "transfer-encoding").
Proof.
  assert (forall n m, n <> m -> ToLower name = n -> ~ named m (name, value)) as Hne by (unfold named; simpl; congruence).
  unfold count_header, framing_value_ok, str_eqb. cbn [snd].
  case_bool_decide as Hh.
  { intros [= <-]. rewrite decide_True by done. rewrite !decide_False by (by apply (Hne "host")). simpl.
    split_and!; try lia; intros H; exfalso; revert H; by apply (Hne "host"). }
  case_bool_decide as Hc.
  { destruct (invalidContentLengthValue _) eqn:E; [done|]. intros [= <-].
    rewrite (decide_True (P := named "content-length" _)) by done.
    rewrite !decide_False by (by apply (Hne "content-length")). simpl.
    split_and!; try lia; try done. intros H; exfalso; revert H; by apply (Hne "content-length"). }
  case_bool_decide as Ht.
  { destruct (1 <? _); [done|]. case_bool_decide; simpl; [|done].
    intros [= <-]. rewrite (decide_True (P := named "transfer-encoding" _)) by done.
    rewrite !decide_False by (by apply (Hne "transfer-encoding")). simpl. split_and!; try lia; done. }
  intros [= <-]. rewrite !decide_False by done. split_and!; done || lia.
Qed.

Lemma scan_lines_ok lines : forall acc c,
  scan_lines acc lines = Some c ->
  exists fs, Forall2 (fun l f => header_line l = Some f) (before_blank lines) fs /\ Forall framing_value_ok fs /\
    hostCount c = hostCount acc + Z.of_nat (length (fields_named "host" fs)) /\
    contentLengthCount c = contentLengthCount acc + Z.of_nat (length (fields_named "content-length" fs)) /\
    transferEncodingCount c = transferEncodingCount acc + Z.of_nat (length (fields_named "transfer-encoding" fs)).
Proof.
  induction lines as [|l lines IH]; intros acc c; simpl.
  - intros [= <-]. exists []. simpl. split_and!; [constructor|constructor|lia..].
  - destruct l as [|b l]; [intros [= <-]; exists []; simpl; split_and!; [constructor|constructor|lia..]|].
    cbn [length Nat.eqb]. destruct (header_line (b :: l)) as [[name value]|] eqn:Eh; [|done].
    destruct (count_header acc name value) as [acc'|] eqn:Ec; [|done].
    intros H. destruct (IH _ _ H) as (fs & Hf & Hv & H1 & H2 & H3).
    apply count_header_ok in Ec as (Hok & E1 & E2 & E3).
    exists ((name, value) :: fs). rewrite !fields_named_cons. split_and!; [by constructor|by constructor|..].
    + revert E1. destruct (decide (named "host" (name, value))); cbn [length]; lia.
    + revert E2. destruct (decide (named "content-length" (name, value))); cbn [length]; lia.
    + revert E3. destruct (decide (named "transfer-encoding" (name, value))); cbn [length]; lia.
Qed.

Lemma header_line_ok l name value : header_line l = Some (name, value) ->
  l = name ++ ":"%char :: value /\ name <> [] /\ Forall (fun b => isTChar b = true) name /\
  chr_cr ∉ value /\ chr_lf ∉ value.
Proof.
  unfold header_line. destruct l as [|c l]; [done|]. destruct (is_blank c); [done|].
  destruct (IndexByte (c :: l) ":") as [i|] eqn:Ei; [|done]. destruct (Nat.eqb_spec i 0); [done|].
  match goal with |- (if ?b then None else _) = _ -> _ => destruct b; [done|] end.
  destruct (negb (validHeaderName _) || _) eqn:Ev; [done|]. intros [= <- <-].
  apply orb_false_iff in Ev as [Hn%negb_false_iff Hv%negb_false_iff].
  apply IndexByte_spec in Ei as (a & b & E & <- & _). rewrite E in *.
  rewrite take_app_length in *. rewrite drop_app_add' in * by lia. cbn [drop] in *.
  assert (forall b', validHeaderValue b = true -> code b' < 32 -> b' <> chr_tab -> b' ∉ b) as Hno.
  { intros b' Hb Hc Ht Hin. unfold validHeaderValue in Hb. rewrite forallb_forall in Hb.
    specialize (Hb b' (proj1 (list_elem_of_In _ _) Hin)). apply orb_true_iff in Hb as [Hb%ascii_eqb_eq|Hb]; [done|].
    apply negb_true_iff, orb_false_iff in Hb as [Hb _]. lia. }
  split_and!; [done|by destruct a| |apply Hno; done..].
  apply Forall_forall. intros x Hx. unfold validHeaderName in Hn. rewrite forallb_forall in Hn.
  apply Hn. by apply list_elem_of_In.
Qed.

Lemma content_length_digits v : invalidContentLengthValue v = false ->
  v <> [] /\ Forall (fun c => is_digit c = true) v /\ (List.hd_error v = Some "0"%char -> v = bs "0").
Proof.
  unfold invalidContentLengthValue. destruct (negb (str_eqb v (Trim is_blank v))) eqn:Et; [done|].
  apply negb_false_iff, str_eqb_eq in Et. rewrite <- Et. unfold str_eqb. case_bool_decide as Hne; [done|].
  destruct (HasPrefix v "+"); [done|]. destruct (allDigits v) eqn:Ed; simpl; [|done]. intros Hz. split_and!; [done| |].
  - apply Forall_forall. intros c Hc. unfold allDigits in Ed. rewrite forallb_forall in Ed. by apply Ed, list_elem_of_In.
  - intros Hh. rewrite (bool_decide_eq_true_2 _ Hh), andb_true_r in Hz. apply Nat.ltb_ge in Hz.
    destruct v as [|c [|? ?]]; simpl in *; [done|by simplify_eq|lia].
Qed.

(** C11: a head that is accepted cannot be framed in two ways.  Carriage returns and
    line feeds occur only as pairs; every line up to the blank one is a field of a
    non-empty token name directly followed by a colon and a value free of line
    breaks; there is exactly one Host field and at most one framing field, either a
    Content-Length of plain decimal digits without sign or leading zeros, or a
    Transfer-Encoding that reads "chunked" once surrounding white space and letter
    case, both as Unicode has them, are disregarded.  The value need not be exactly
    "chunked": [chunked_in_capitals_accepted] is a head with another spelling. *)
Theorem ScanRawHead_accepts head :
  ScanRawHead head = None ->
  crlf_paired None head /\
  exists fs,
    Forall2 (fun l f => l = f.1 ++ ":"%char :: f.2 /\ f.1 <> [] /\ Forall (fun b => isTChar b = true) f.1 /\
                        chr_cr ∉ f.2 /\ chr_lf ∉ f.2)
      (before_blank (drop 1 (SplitCRLF (take (length head - 2) head)))) fs /\
    length (fields_named "host" fs) = 1%nat /\
    (length (fields_named "content-length" fs) + length (fields_named "transfer-encoding" fs) <= 1)%nat /\
    Forall (fun f => let v := trimContentLengthFieldValue f.2 in
              v <> [] /\ Forall (fun c => is_digit c = true) v /\ (List.hd_error v = Some "0"%char -> v = bs "0"))
      (fields_named "content-length" fs) /\
    Forall (fun f => ToLower (TrimSpace f.2) = bs "chunked") (fields_named "transfer-encoding" fs).
Proof.
  unfold ScanRawHead. destruct (line_endings_ok None head) eqn:El; [|done]. cbn [negb].
  destruct (_ || _); [done|]. destruct (Index head crlf) as [e|]; [|done].
  destruct (e =? 0)%nat; [done|]. destruct (8192 <? e)%nat; [done|]. destruct (negb (_ =? 3)%nat); [done|].
  destruct (scan_lines _ _) as [c|] eqn:Es; [|done].
  destruct (Z.eqb_spec (hostCount c) 0), (Z.ltb_spec 1 (hostCount c)); simpl; try done.
  destruct (Z.ltb_spec 1 (contentLengthCount c)); [done|].
  destruct ((0 <? contentLengthCount c) && (0 <? transferEncodingCount c)) eqn:Eb; [done|].
  destruct (Z.ltb_spec 1 (transferEncodingCount c)); [done|]. intros _.
  apply scan_lines_ok in Es as (fs & Hf & Hv & C1 & C2 & C3). simpl in C1, C2, C3.
  split; [by apply line_endings_paired|]. exists fs. split_and!.
  - eapply Forall2_impl; [exact Hf|]. intros l [name value] Hl. simpl. by apply header_line_ok.
  - lia.
  - lia.
  - apply Forall_forall. intros f [Hn Hin]%list_elem_of_filter. rewrite Forall_forall in Hv.
    apply content_length_digits. by apply (Hv f Hin).
  - apply Forall_forall. intros f [Hn Hin]%list_elem_of_filter. rewrite Forall_forall in Hv. by apply (Hv f Hin).
Qed.
End ScanFacts.

Lemma ScanRawHead_accepts_witness :
  ScanRawHead (U := ascii_only) simple_head = None /\ crlf_paired None simple_head.
Proof.
  assert (ScanRawHead (U := ascii_only) simple_head = None) as H by (vm_compute; reflexivity).
  split; [exact H|]. apply (ScanRawHead_accepts (U := ascii_only) simple_head H).
Defined.

(** The design of the request path (10.4) rejects a Transfer-Encoding whose trimmed
    value is not exactly "chunked"; the scan folds case before it compares, so
    other spellings pass it. *)
Lemma chunked_in_capitals_accepted :
  ScanRawHead (U := ascii_only)
    (crlf_join [bs "POST / HTTP/1.1"; bs "Host: a"; bs "Transfer-Encoding:   CHUNKED "; bs ""]) = None /\
  TrimSpace (U := ascii_only) (bs "   CHUNKED ") <> bs "chunked".
Proof. split; [vm_compute; reflexivity|vm_compute; congruence]. Qed.
