(* ===== verification/Validate.v ===== *)
(** * [internal/dataplane/requestpath/validate.go]: request-level checks

    [Validate] runs after the standard library has parsed the request and before
    the pipeline sees it.  It may rewrite the target of an asterisk-form request and
    drop an honoured Expect header. *)

From S2P Require Import Prelude GoStrings GoRuntime Decision Stages RawHead.
#[local] Open Scope Z_scope.

Record ParsedURL := { pu_Scheme : gostring; pu_Host : gostring; pu_Path : gostring; pu_RawPath : gostring }.

(** The fields of [http.Request] that are inspected. *)
Record ParsedRequest := {
  pr_Method : gostring;
  pr_ProtoMajor : Z;
  pr_ProtoMinor : Z;
  pr_URL : option ParsedURL;
  pr_RequestURI : gostring;
  pr_Host : gostring;
  pr_Header : Header;
  pr_Trailer : Header;
  pr_TransferEncoding : list gostring;
  pr_ContentLength : Z
}.

Definition pr_set_url (r : ParsedRequest) u : ParsedRequest :=
  {| pr_Method := pr_Method r; pr_ProtoMajor := pr_ProtoMajor r; pr_ProtoMinor := pr_ProtoMinor r; pr_URL := u;
     pr_RequestURI := pr_RequestURI r; pr_Host := pr_Host r; pr_Header := pr_Header r; pr_Trailer := pr_Trailer r;
     pr_TransferEncoding := pr_TransferEncoding r; pr_ContentLength := pr_ContentLength r |}.
Definition pr_set_header (r : ParsedRequest) h : ParsedRequest :=
  {| pr_Method := pr_Method r; pr_ProtoMajor := pr_ProtoMajor r; pr_ProtoMinor := pr_ProtoMinor r; pr_URL := pr_URL r;
     pr_RequestURI := pr_RequestURI r; pr_Host := pr_Host r; pr_Header := h; pr_Trailer := pr_Trailer r;
     pr_TransferEncoding := pr_TransferEncoding r; pr_ContentLength := pr_ContentLength r |}.

(** ** Rejections *)

Definition requestPath (req : option ParsedRequest) : gostring :=
  match req with
  | None => []
  | Some r =>
      match pr_URL r with
      | None => []
      | Some u =>
          if negb (str_eqb (pu_RawPath u) []) then pu_RawPath u
          else if negb (str_eqb (pu_Path u) []) then pu_Path u
          else pr_RequestURI r
      end
  end.

Definition unsupportedRequestRejection (r : ParsedRequest) (bound : gostring) : Rejection :=
  rejection_400 ReasonUnsupportedProtocol bound (pr_Method r) (requestPath (Some r)).
Definition malformedRequestRejection (r : option ParsedRequest) (bound : gostring) : Rejection :=
  rejection_400 ReasonMalformedTarget bound (match r with Some r => pr_Method r | None => [] end) (requestPath r).

(** ** Trailers *)

Definition deniedTrailerName (lower : gostring) : bool :=
  bool_decide (lower ∈ [bs "authorization"; bs "proxy-authorization"; bs "forwarded"; bs "via"; bs "x-real-ip";
                        bs "connection"; bs "keep-alive"; bs "proxy-authenticate"; bs "proxy-connection"; bs "te";
                        bs "transfer-encoding"; bs "upgrade"]) ||
  HasPrefix lower "x-forwarded-" || HasPrefix lower "x-envoy-" || HasPrefix lower "x-aksh-".

(** [effectiveAuthorityPort]. *)
Definition effectiveAuthorityPort (scheme : gostring) (port : Z) : Z :=
  if negb (port =? 0) then port else if str_eqb scheme "https" then 443 else 80.

Definition bodylessMethod (method : gostring) : bool := str_eqb method "GET" || str_eqb method "HEAD".

(** ** Authorities *)

Definition validAuthorityHost (host : gostring) : bool :=
  forallb (fun c => is_lower c || is_upper c || is_digit c || ascii_eqb c "." || ascii_eqb c "-") host.

Definition validAuthorityIPv6Literal (host : gostring) : bool :=
  if str_eqb host [] then false
  else match ParseAddr host with Some (IPv6 zone) => str_eqb zone [] | _ => false end.

Section Checks.
Context `{U : Unicode}.

(** [None] is [errBadAuthority]. *)
Definition splitAuthority (authority : gostring) : option (gostring * Z) :=
  let authority := TrimSpace authority in
  if str_eqb authority [] then None
  else if HasPrefix authority "[" && HasSuffix authority "]" then
    let host := take (length authority - 2) (drop 1 authority) in
    if negb (validAuthorityIPv6Literal host) then None else Some (ToLower host, 0)
  else if negb (ContainsByte authority ":") then
    if negb (validAuthorityHost authority) then None else Some (ToLower authority, 0)
  else
    match SplitHostPort authority with
    | None => None
    | Some (host, portText) =>
        if str_eqb host [] then None
        else if (if ContainsByte host ":" then negb (validAuthorityIPv6Literal host) else negb (validAuthorityHost host))
        then None
        else
          match Atoi portText with
          | None => None
          | Some port => if (port <=? 0) || (65535 <? port) then None else Some (ToLower host, uint16 port)
          end
    end.

(** The loop shared by [rawHeadHasHeader] and [rawHeadHeaderValue]: the value of
    the first line before a blank one whose name folds to [name]. *)
Fixpoint find_header (lines : list gostring) (name : gostring) : option gostring :=
  match lines with
  | [] => None
  | line :: rest =>
      if str_eqb line [] then None
      else
        match IndexByte line ":" with
        | Some (S _ as colon) =>
            if EqualFold (take colon line) name then Some (drop (colon + 1) line) else find_header rest name
        | _ => find_header rest name
        end
  end.
Definition rawHeadHasHeader (rawHead name : gostring) : bool :=
  match find_header (drop 1 (SplitCRLF rawHead)) (ToLower name) with Some _ => true | None => false end.
Definition rawHeadHeaderValue (rawHead name : gostring) : option gostring :=
  TrimSpace <$> find_header (drop 1 (SplitCRLF rawHead)) name.

(** The comma-separated items of every value of a header, trimmed. *)
Definition header_items (h : Header) (key : gostring) : list gostring :=
  map TrimSpace (concat (map (fun v => Split v ",") (Values h key))).

Definition hasUpgradeHeaders (r : ParsedRequest) : bool :=
  negb (str_eqb (Get (pr_Header r) "Upgrade") []) ||
  existsb (fun token => EqualFold token "upgrade") (header_items (pr_Header r) "Connection").

Definition connectionNominatedNames (h : Header) : list gostring :=
  map ToLower (filter (fun n => n <> []) (header_items h "Connection")).

(** The [seen] loop over the Trailer header. *)
Fixpoint add_trailers (seen : list gostring) (names : list gostring) : list gostring :=
  match names with
  | [] => []
  | n :: rest =>
      if str_eqb n [] then add_trailers seen rest
      else if bool_decide (ToLower n ∈ seen) then add_trailers seen rest
      else n :: add_trailers (ToLower n :: seen) rest
  end.
Definition declaredTrailerNames (r : ParsedRequest) : list gostring :=
  let names := (map_to_list (pr_Trailer r)).*1 in
  names ++ add_trailers (map ToLower names) (header_items (pr_Header r) "Trailer").

Definition validateTrailers (r : ParsedRequest) : option Rejection :=
  let nominated := connectionNominatedNames (pr_Header r) in
  if existsb (fun name => let lower := ToLower name in deniedTrailerName lower || bool_decide (lower ∈ nominated))
       (declaredTrailerNames r)
  then Some (unsupportedRequestRejection r "trailer") else None.

Definition validateExpect (r : ParsedRequest) : ParsedRequest * option Rejection :=
  match Values (pr_Header r) "Expect" with
  | [] => (r, None)
  | [v] =>
      if EqualFold (TrimSpace v) "100-continue"
      then (pr_set_header r (delete (bs "Expect") (pr_Header r)), None)
      else (r, Some (unsupportedRequestRejection r "expect"))
  | _ => (r, Some (unsupportedRequestRejection r "expect"))
  end.

Definition validateFraming (r : ParsedRequest) (rawHead : gostring) : option Rejection :=
  let reject := Some (unsupportedRequestRejection r "framing") in
  let hasContentLength := rawHeadHasHeader rawHead "content-length" in
  if (hasContentLength || (0 <? length (pr_TransferEncoding r))%nat) && bodylessMethod (pr_Method r) then reject
  else
    match pr_TransferEncoding r with
    | [] => if pr_ContentLength r <? 0 then reject else None
    | [te] =>
        if negb (str_eqb (ToLower te) "chunked") then reject
        else if hasContentLength then reject else None
    | _ => reject
    end.

Definition validateTarget (r : ParsedRequest) (u : ParsedURL) (rawHead : gostring) : ParsedRequest * option Rejection :=
  let reject := (r, Some (malformedRequestRejection (Some r) [])) in
  if str_eqb (pr_RequestURI r) "*" then
    if negb (str_eqb (pr_Method r) "OPTIONS") then reject
    else (pr_set_url r (Some {| pu_Scheme := pu_Scheme u; pu_Host := pu_Host u; pu_Path := "/"; pu_RawPath := [] |}), None)
  else if negb (str_eqb (pu_Scheme u) []) then
    let scheme := ToLower (pu_Scheme u) in
    if negb (str_eqb scheme "http") && negb (str_eqb scheme "https") then reject
    else
      match splitAuthority (pu_Host u) with
      | None => reject
      | Some (absoluteHost, absolutePort) =>
          match rawHeadHeaderValue rawHead "host" with
          | None => reject
          | Some rawHost =>
              match splitAuthority rawHost with
              | None => reject
              | Some (headerHost, headerPort) =>
                  if negb (EqualFold absoluteHost headerHost) ||
                     negb (effectiveAuthorityPort scheme absolutePort =? effectiveAuthorityPort scheme headerPort)
                  then reject else (r, None)
              end
          end
      end
  else if negb (HasPrefix (pr_RequestURI r) "/") then reject
  else (r, None).

Definition Validate (req : option ParsedRequest) (rawHead : gostring) : option ParsedRequest * option Rejection :=
  match ScanRawHead rawHead with
  | Some rejection => (req, Some rejection)
  | None =>
      match req with
      | None => (None, Some (malformedRequestRejection None []))
      | Some r =>
          match pr_URL r with
          | None => (Some r, Some (malformedRequestRejection (Some r) []))
          | Some u =>
              if negb (pr_ProtoMajor r =? 1) || negb (pr_ProtoMinor r =? 1)
              then (Some r, Some (unsupportedRequestRejection r []))
              else if str_eqb (pr_Method r) "CONNECT" then (Some r, Some (unsupportedRequestRejection r []))
              else if hasUpgradeHeaders r then (Some r, Some (unsupportedRequestRejection r []))
              else
                let '(r, rejection) := validateTarget r u rawHead in
                match rejection with
                | Some j => (Some r, Some j)
                | None =>
                    match splitAuthority (pr_Host r) with
                    | None => (Some r, Some (malformedRequestRejection (Some r) []))
                    | Some _ =>
                        match validateFraming r rawHead with
                        | Some j => (Some r, Some j)
                        | None =>
                            let '(r, rejection) := validateExpect r in
                            match rejection with
                            | Some j => (Some r, Some j)
                            | None => (Some r, validateTrailers r)
                            end
                        end
                    end
                end
          end
      end
  end.
End Checks.

(** ** Theorems *)

Lemma bool_decide_in (x : gostring) l : bool_decide (x ∈ l) = existsb (str_eqb x) l.
Proof.
  destruct (existsb (str_eqb x) l) eqn:E.
  - apply bool_decide_eq_true. apply existsb_exists in E as (y & Hy & ->%str_eqb_eq). by apply list_elem_of_In.
  - apply bool_decide_eq_false. intros Hx. apply not_true_iff_false in E. apply E, existsb_exists.
    exists x. split; [by apply list_elem_of_In|by apply str_eqb_eq].
Qed.

(** The names refused as trailers are exactly the header names the sanitise stage
    removes: the credential and provenance names and the hop-by-hop names. *)
Theorem deniedTrailerName_agrees lower : deniedTrailerName lower = shouldStrip lower || hopByHop lower.
Proof.
  unfold deniedTrailerName, shouldStrip, hopByHop.
  rewrite !bool_decide_in. cbn [existsb].
  repeat match goal with |- context [str_eqb lower ?x] => destruct (str_eqb lower x); [simpl; rewrite ?orb_true_r; done|] end.
  simpl. by rewrite orb_false_r.
Qed.

Section ValidateTheorems.
Context `{U : Unicode}.

Lemma validateTarget_ok r u head r' :
  validateTarget r u head = (r', None) ->
  pr_Method r' = pr_Method r /\ pr_Header r' = pr_Header r /\ pr_Trailer r' = pr_Trailer r /\ pr_Host r' = pr_Host r /\
  pr_TransferEncoding r' = pr_TransferEncoding r /\ pr_ContentLength r' = pr_ContentLength r /\
  (pr_RequestURI r <> bs "*" -> pr_URL r' = pr_URL r /\
     if str_eqb (pu_Scheme u) [] then HasPrefix (pr_RequestURI r) "/" = true
     else exists h p rawHost h' p', splitAuthority (pu_Host u) = Some (h, p) /\
            rawHeadHeaderValue head "host" = Some rawHost /\ splitAuthority rawHost = Some (h', p') /\
            EqualFold h h' = true /\
            effectiveAuthorityPort (ToLower (pu_Scheme u)) p = effectiveAuthorityPort (ToLower (pu_Scheme u)) p').
Proof.
  unfold validateTarget. destruct (str_eqb (pr_RequestURI r) "*") eqn:Ea.
  - apply str_eqb_eq in Ea. destruct (negb _); intros [= <-]. by rewrite Ea.
  - destruct (str_eqb (pu_Scheme u) []) eqn:Es; cbn [negb].
    + destruct (HasPrefix (pr_RequestURI r) "/") eqn:Ep; intros [= <-]. done.
    + destruct (_ && _); [done|]. destruct (splitAuthority (pu_Host u)) as [[h p]|] eqn:E1; [|done].
      destruct (rawHeadHeaderValue head "host") as [raw|] eqn:E2; [|done].
      destruct (splitAuthority raw) as [[h' p']|] eqn:E3; [|done].
      destruct (EqualFold h h') eqn:E4; [|done]. cbn [negb orb].
      destruct (Z.eqb_spec (effectiveAuthorityPort (ToLower (pu_Scheme u)) p) (effectiveAuthorityPort (ToLower (pu_Scheme u)) p')); [|done].
      intros [= <-]. split_and!; try done. intros _. split; [done|]. by exists h, p, raw, h', p'.
Qed.

Lemma validateExpect_ok r r' : validateExpect r = (r', None) ->
  Values (pr_Header r') "Expect" = [] /\ pr_Trailer r' = pr_Trailer r /\ pr_Method r' = pr_Method r /\
  forall k, k <> bs "Expect" -> pr_Header r' !! k = pr_Header r !! k.
Proof.
  unfold validateExpect. destruct (Values (pr_Header r) "Expect") as [|v [|? ?]] eqn:Ev; [by intros [= <-]| |done].
  destruct (EqualFold _ _); intros [= <-]. simpl. split_and!; try done.
  - unfold Values. by rewrite lookup_delete_eq.
  - intros k Hk. by rewrite lookup_delete_ne.
Qed.

Lemma validateFraming_ok r head : validateFraming r head = None ->
  let cl := rawHeadHasHeader head "content-length" in
  (bodylessMethod (pr_Method r) = true -> cl = false /\ pr_TransferEncoding r = []) /\
  (pr_TransferEncoding r = [] /\ 0 <= pr_ContentLength r \/
   exists te, pr_TransferEncoding r = [te] /\ ToLower te = bs "chunked" /\ cl = false).
Proof.
  unfold validateFraming. set (cl := rawHeadHasHeader _ _). simpl.
  destruct (pr_TransferEncoding r) as [|te [|? ?]].
  - destruct cl, (bodylessMethod _); simpl; try done; destruct (Z.ltb_spec (pr_ContentLength r) 0); try done;
      intros _; (split; [done|]); by left.
  - destruct cl, (bodylessMethod _); simpl; try done; destruct (str_eqb (ToLower te) "chunked") eqn:Et; simpl; try done;
      intros _; (split; [done|]); right; exists te; by apply str_eqb_eq in Et.
  - destruct (_ && _); done.
Qed.

(** C12: what a validated request guarantees to the pipeline.  Its head passed the raw
    scan; it is HTTP/1.1, not CONNECT and asks for no upgrade; its Host is a
    well-formed authority, and in absolute form it names the same host and port as
    the Host line on the wire; its body is framed in exactly one way, and GET and
    HEAD have none; no declared trailer carries a credential, provenance, hop-by-hop
    or nominated name; and no Expect header is left for the upstream. *)
Theorem Validate_accepts r head r' :
  Validate (Some r) head = (Some r', None) ->
  ScanRawHead head = None /\ pr_ProtoMajor r = 1 /\ pr_ProtoMinor r = 1 /\ pr_Method r <> bs "CONNECT" /\
  hasUpgradeHeaders r = false /\
  (exists host port, splitAuthority (pr_Host r) = Some (host, port)) /\
  (forall u, pr_URL r = Some u -> pu_Scheme u <> [] -> pr_RequestURI r <> bs "*" ->
     exists h p rawHost h' p', splitAuthority (pu_Host u) = Some (h, p) /\
       rawHeadHeaderValue head "host" = Some rawHost /\ splitAuthority rawHost = Some (h', p') /\ EqualFold h h' = true /\
       effectiveAuthorityPort (ToLower (pu_Scheme u)) p = effectiveAuthorityPort (ToLower (pu_Scheme u)) p') /\
  (let cl := rawHeadHasHeader head "content-length" in
   (bodylessMethod (pr_Method r) = true -> cl = false /\ pr_TransferEncoding r = []) /\
   (pr_TransferEncoding r = [] /\ 0 <= pr_ContentLength r \/
    exists te, pr_TransferEncoding r = [te] /\ ToLower te = bs "chunked" /\ cl = false)) /\
  (forall name, name ∈ declaredTrailerNames r' ->
     deniedTrailerName (ToLower name) = false /\ ToLower name ∉ connectionNominatedNames (pr_Header r')) /\
  Values (pr_Header r') "Expect" = [] /\ (forall k, k <> bs "Expect" -> pr_Header r' !! k = pr_Header r !! k).
Proof.
  unfold Validate. destruct (ScanRawHead head); [done|]. destruct (pr_URL r) as [u|] eqn:Eu; [|done].
  destruct (Z.eqb_spec (pr_ProtoMajor r) 1), (Z.eqb_spec (pr_ProtoMinor r) 1); simpl; try done.
  destruct (str_eqb (pr_Method r) "CONNECT") eqn:Em; [done|]. destruct (hasUpgradeHeaders r); [done|].
  destruct (validateTarget r u head) as [r1 [j|]] eqn:Et; [done|].
  apply validateTarget_ok in Et as (M1 & H1 & T1 & Ho1 & TE1 & CL1 & Ht).
  destruct (splitAuthority (pr_Host r1)) as [[host port]|] eqn:Es; [|done].
  destruct (validateFraming r1 head) eqn:Ef; [done|]. apply validateFraming_ok in Ef. rewrite M1, TE1, CL1 in Ef.
  destruct (validateExpect r1) as [r2 [j|]] eqn:Ee; [done|]. apply validateExpect_ok in Ee as (X1 & X2 & X3 & X4).
  intros [= <- Hv]. unfold validateTrailers in Hv. destruct (existsb _ _) eqn:Ex; [done|].
  split_and!; try done.
  - intros Hm. apply not_true_iff_false in Em. by apply Em, str_eqb_eq.
  - rewrite <- Ho1. by exists host, port.
  - intros u' [= <-] Hsch Huri. destruct (Ht Huri) as [_ H]. unfold str_eqb in H. by rewrite bool_decide_eq_false_2 in H.
  - apply Ef.
  - apply Ef.
  - intros name Hin. rewrite <- not_true_iff_false, existsb_exists in Ex.
    destruct (deniedTrailerName (ToLower name)) eqn:Ed.
    { destruct Ex. exists name. split; [by apply list_elem_of_In|]. by rewrite Ed. }
    split; [done|]. intros Hn. destruct Ex. exists name. split; [by apply list_elem_of_In|].
    by rewrite Ed, (bool_decide_eq_true_2 _ Hn).
  - intros k Hk. rewrite X4, H1 by done. done.
Qed.
End ValidateTheorems.

Definition post_request : ParsedRequest :=
  {| pr_Method := "POST"; pr_ProtoMajor := 1; pr_ProtoMinor := 1;
     pr_URL := Some {| pu_Scheme := []; pu_Host := []; pu_Path := "/v1/users"; pu_RawPath := [] |};
     pr_RequestURI := "/v1/users"; pr_Host := "api.example.com";
     pr_Header := <[bs "Expect" := [bs "100-Continue"]]> (<[bs "Accept" := [bs "*/*"]]> ∅);
     pr_Trailer := ∅; pr_TransferEncoding := []; pr_ContentLength := 12 |}.

Lemma Validate_accepts_witness :
  exists r', Validate (U := ascii_only) (Some post_request) simple_head = (Some r', None) /\
    Values (pr_Header r') "Expect" = [].
Proof.
  destruct (Validate (U := ascii_only) (Some post_request) simple_head) as [[r'|] [j|]] eqn:E.
  - exfalso. apply (f_equal snd) in E. vm_compute in E. discriminate E.
  - exists r'. split; [done|]. apply (Validate_accepts (U := ascii_only) _ _ _ E).
  - exfalso. apply (f_equal snd) in E. vm_compute in E. discriminate E.
  - exfalso. apply (f_equal fst) in E. vm_compute in E. discriminate E.
Defined.
