(* ===== verification/Handler.v ===== *)
(** * [internal/dataplane/requestpath]: serving requests of one connection

    [handler.go], the decisions of [relay.go], and [handover.go]: admission, reading,
    validation, the pipeline, reuse of the upstream connection and the relay, as the
    sequence of externally visible effects they have.  What the network does is the
    input: the outcome of reading a head, of dialling, of writing and of reading the
    response.  The bytes of the relay are in Relay.v and [adapter.go] is in Terminator.v. *)

From S2P Require Import Prelude GoStrings GoRuntime Compile Match Credential Decision Stages Runner RawHead Validate Limits.
#[local] Open Scope Z_scope.

(** ** Connection and handler state *)

(** [netip.AddrPort]: validity, family and port. *)
Record AddrPort := { ap_valid : bool; ap_is4 : bool; ap_port : Z }.

Record Handover := {
  TLSConn : bool;          (* non-nil *)
  IsTLS : bool;
  OriginalDst : AddrPort;
  ho_SNI : gostring;
  ConnID : gostring
}.

(** [conn] numbers the dialled connection; a closed one is [None]. *)
Record upstreamConn := {
  conn : option nat;
  up_identity : gostring;
  up_port : Z;
  credID : gostring;
  reusable : bool
}.

Record connState := {
  ho : Handover;
  upstream : option upstreamConn;
  served : nat;
  decided : bool;          (* the latch shared with the listener *)
  dials : nat              (* connections dialled so far *)
}.

Inductive effect :=
| Rejected (r : Rejection)                                    (* recordRejection *)
| Decisions (d : Disposition) (reason : DenyReason) (fault : bool)
| WroteStatus (status : Z)                                    (* writeStatusThenClose *)
| WroteDeny                                                   (* writeUniformDeny *)
| Dialled (n : nat) (identity : gostring) (credID : gostring)
| Forwarded (n : nat) (rc : RequestContext) (credID : gostring)
| ClosedUpstream (n : nat).

Definition set_upstream (cs : connState) u : connState :=
  {| ho := ho cs; upstream := u; served := served cs; decided := decided cs; dials := dials cs |}.
Definition set_served (cs : connState) n : connState :=
  {| ho := ho cs; upstream := upstream cs; served := n; decided := decided cs; dials := dials cs |}.

(** [MarkDecided]: a compare-and-swap of the latch. *)
Definition MarkDecided (cs : connState) : connState * bool :=
  ({| ho := ho cs; upstream := upstream cs; served := served cs; decided := true; dials := dials cs |}, negb (decided cs)).

(** [if MarkDecided() { metrics.Decisions(...) }]. *)
Definition record_decision (cs : connState) d reason fault : connState * list effect :=
  let '(cs, first) := MarkDecided cs in (cs, if first then [Decisions d reason fault] else []).

(** ** Small helpers *)

Definition isValidOriginalDst (a : AddrPort) : bool := ap_valid a && ap_is4 a && negb (ap_port a =? 0).

Definition bare_rejection (class : RejectClass) (reason : DenyReason) (bound : gostring) (fault : bool) wire status : Rejection :=
  {| rj_Class := class; rj_Reason := reason; rj_Bound := bound; rj_Wire := wire; rj_Status := status; rj_Fault := fault;
     rj_RequestID := []; rj_ConnID := []; rj_Port := 0; rj_Method := []; rj_Path := [] |}.

Definition handoverRejection (h : Handover) : option Rejection :=
  if negb (TLSConn h) || negb (IsTLS h) then
    Some (bare_rejection ClassT5 ReasonUnsupportedProtocol "handover" true WireCloseBare 0)
  else if negb (isValidOriginalDst (OriginalDst h)) then
    Some (bare_rejection ClassT1 ReasonInternal "handover" true WireCloseBare 0)
  else None.

Definition with_conn (r : Rejection) (connID : gostring) (port : Z) : Rejection :=
  {| rj_Class := rj_Class r; rj_Reason := rj_Reason r; rj_Bound := rj_Bound r; rj_Wire := rj_Wire r;
     rj_Status := rj_Status r; rj_Fault := rj_Fault r; rj_RequestID := rj_RequestID r; rj_ConnID := connID;
     rj_Port := port; rj_Method := rj_Method r; rj_Path := rj_Path r |}.

Definition rejectAndWrite (cs : connState) (rej : Rejection) : connState * list effect :=
  let rej := with_conn rej (ConnID (ho cs)) (ap_port (OriginalDst (ho cs))) in
  let '(cs, d) := record_decision cs DispositionDeny (rj_Reason rej) (rj_Fault rej) in
  (cs, [Rejected rej] ++ d ++
       match rj_Wire rej with
       | WireWrite431Close => [WroteStatus 431]
       | WireWrite400Close => [WroteStatus 400]
       | WireCloseBare => []
       end).

Definition requestID (connID : gostring) (ordinal : nat) : gostring :=
  if str_eqb connID [] then bs "req-" ++ Itoa ordinal else connID ++ bs "-" ++ Itoa ordinal.

Definition credentialIdentity (rc : RequestContext) : gostring :=
  if negb (str_eqb (Identity (tr_Resolved (c_TokenResult rc))) []) then Identity (tr_Resolved (c_TokenResult rc))
  else "none".

Definition reusableFor (u : upstreamConn) (rc : RequestContext) (h : Handover) (cred : gostring) : bool :=
  match conn u with
  | None => false
  | Some _ =>
      reusable u && str_eqb (up_identity u) (rf_Identity (c_Facts rc)) &&
      (up_port u =? ap_port (OriginalDst h)) && str_eqb (credID u) cred
  end.

Definition close_effect (u : upstreamConn) : list effect :=
  match conn u with Some n => [ClosedUpstream n] | None => [] end.

(** ** Relay *)

(** What the network answers during one relay. *)
Inductive write_result := WriteOk | WriteFailed (malformed_chunk : bool).
Inductive response_result := ResponseWritten | ResponseTooLarge | ResponseWriteFailed.
Record relay_io := {
  dial_ok : bool;
  io_write : write_result;
  timed_out : bool;               (* the progress watchdog fired during the relay *)
  io_response : option response_result;   (* [None]: reading the response failed *)
  resp_Close : bool;
  req_Close : bool
}.

Definition ensureUpstream (cs : connState) (rc : RequestContext) (cred : gostring) (io : relay_io)
    : connState * list effect * option (nat * upstreamConn) :=
  let fresh :=
    let closed := match upstream cs with Some u => close_effect u | None => [] end in
    let cs := set_upstream cs None in
    if negb (dial_ok io) then ((MarkDecided cs).1, closed, None)
    else
      let n := dials cs in
      let u := {| conn := Some n; up_identity := rf_Identity (c_Facts rc); up_port := ap_port (OriginalDst (ho cs));
                  credID := cred; reusable := true |} in
      ({| ho := ho cs; upstream := Some u; served := served cs; decided := decided cs; dials := S n |},
       closed ++ [Dialled n (rf_Identity (c_Facts rc)) cred], Some (n, u)) in
  match upstream cs with
  | Some u =>
      if reusableFor u rc (ho cs) cred
      then match conn u with Some n => (cs, [], Some (n, u)) | None => fresh end
      else fresh
  | None => fresh
  end.

(** Close and forget the upstream connection. *)
Definition drop_upstream (cs : connState) (n : nat) : connState * list effect := (set_upstream cs None, [ClosedUpstream n]).

Definition relay (cs : connState) (rc : RequestContext) (io : relay_io) : connState * list effect * bool :=
  let cred := credentialIdentity rc in
  let '(cs, t1, up) := ensureUpstream cs rc cred io in
  match up with
  | None => (cs, t1 ++ [WroteDeny], false)
  | Some (n, u) =>
      let '(cs, t2) :=
        if timed_out io then record_decision cs DispositionDeny ReasonProgressDeadline true else (cs, []) in
      let t := t1 ++ [Forwarded n rc cred] ++ t2 in
      match io_write io with
      | WriteFailed malformed =>
          let '(cs, t3) :=
            if timed_out io then (cs, [])
            else
              let '(cs, d) := record_decision cs DispositionDeny ReasonWriteFailed true in
              (cs, d ++ if malformed then [WroteStatus 400] else []) in
          let '(cs, t4) := drop_upstream cs n in (cs, t ++ t3 ++ t4, false)
      | WriteOk =>
          match io_response io with
          | None =>
              let '(cs, t3) :=
                if timed_out io then (cs, []) else record_decision cs DispositionDeny ReasonResponseFailed true in
              let '(cs, t4) := drop_upstream cs n in (cs, t ++ t3 ++ t4, false)
          | Some ResponseTooLarge =>
              let '(cs, t3) := record_decision cs DispositionDeny ReasonResourceLimit false in
              let '(cs, t4) := drop_upstream cs n in (cs, t ++ t3 ++ t4, false)
          | Some ResponseWriteFailed =>
              let '(cs, t3) := record_decision cs DispositionDeny ReasonWriteFailed true in
              let '(cs, t4) := drop_upstream cs n in (cs, t ++ t3 ++ t4, false)
          | Some ResponseWritten =>
              let '(cs, t3) := if resp_Close io then drop_upstream cs n else (cs, []) in
              if req_Close io then (cs, t ++ t3, false)
              else
                let u' := {| conn := conn u; up_identity := rf_Identity (c_Facts rc);
                             up_port := ap_port (OriginalDst (ho cs)); credID := cred; reusable := true |} in
                (if resp_Close io then cs else set_upstream cs (Some u'), t ++ t3, true)
          end
      end
  end.

(** ** One request *)

Inductive read_result :=
| ReadOk (req : option ParsedRequest) (rawHead : gostring)
| ReadTooLarge
| ReadTimeout
| ReadMalformed.

Definition read_rejection (r : read_result) : Rejection :=
  match r with
  | ReadTooLarge => bare_rejection ClassT7 ReasonResourceLimit "max_header_bytes" false WireWrite431Close 431
  | ReadTimeout => bare_rejection ClassT7 ReasonResourceLimit "request_header_read_timeout" false WireCloseBare 0
  | _ => bare_rejection ClassT5 ReasonUnsupportedProtocol [] false WireWrite400Close 400
  end.
Definition inflight_rejection : Rejection :=
  bare_rejection ClassT7 ReasonResourceLimit "max_inflight_requests" false WireCloseBare 0.
Definition pipelining_rejection : Rejection :=
  bare_rejection ClassT5 ReasonUnsupportedProtocol "pipelining" false WireWrite400Close 400.

(** The parsed request as the pipeline sees it. *)
Definition to_request (r : ParsedRequest) : Request :=
  {| rq_Method := pr_Method r;
     rq_URL := (fun u => {| ru_Path := pu_Path u; ru_RawPath := pu_RawPath u |}) <$> pr_URL r;
     rq_Host := pr_Host r; rq_Header := Some (pr_Header r); rq_Trailer := Some (pr_Trailer r) |}.

Section Serve.
Context `{U : Unicode} `{S : Sha256} `{N : NetURL} {E : Type} `{C : Clock E}.
Context (p : Pipeline E).

(** The context built for a validated request. *)
Definition request_context (cs : connState) (now : Time) (r : ParsedRequest) : RequestContext :=
  let '(authorityHost, authorityPort) := default ([], 0) (splitAuthority (pr_Host r)) in
  {| c_Request := Some (to_request r);
     c_Identity := {| SNI := ToLower (ho_SNI (ho cs)); AuthorityHost := authorityHost; AuthorityPort := authorityPort;
                      DestinationPort := ap_port (OriginalDst (ho cs)) |};
     c_Transport := TransportTLS; c_Facts := zero_facts; c_MatchResult := no_match; c_TokenResult := zero_result;
     c_Decision := zero_decision; c_StartTime := now; c_RequestID := requestID (ConnID (ho cs)) (served cs + 1);
     c_Timings := None |}.

(** The inputs of one iteration: whether a slot was free, what was read, what the
    relay met, whether a byte of a next request was already there on the connection,
    and whether one was left in the buffer. *)
Record input := { slot : bool; in_read : read_result; in_io : relay_io; next_byte : bool; buffered : bool }.

Definition serveOne (e : E) (cs : connState) (i : input) : E * connState * list effect * bool :=
  if negb (slot i) then let '(cs, t) := rejectAndWrite cs inflight_rejection in (e, cs, t, false)
  else
    match in_read i with
    | ReadOk None _ => (e, cs, [], false)
    | ReadOk (Some req) rawHead =>
        match Validate (Some req) rawHead with
        | (_, Some rejection) => let '(cs, t) := rejectAndWrite cs rejection in (e, cs, t, false)
        | (None, None) => (e, cs, [], false)
        | (Some r, None) =>
            let '(now, e) := Now e in
            let '(e, rc, _, decision) := Execute p e (Some (request_context cs now r)) in
            if negb (IsAllow decision) then
              let '(cs, t) := record_decision cs (disposition decision) (Reason decision) (Fault decision) in
              (e, cs, t ++ (if bool_decide (Reason decision = ReasonIdentityMismatch) then [] else [WroteDeny]), false)
            else
              match rc with
              | None => (e, cs, [], false)
              | Some rc =>
                  let '(cs, t, ok) := relay cs rc (in_io i) in
                  if negb ok then (e, cs, t, false)
                  else if next_byte i then
                    let '(cs, t') := rejectAndWrite cs pipelining_rejection in (e, cs, t ++ t', false)
                  else (e, set_served cs (served cs + 1), t, true)
              end
        end
    | r => let '(cs, t) := rejectAndWrite cs (read_rejection r) in (e, cs, t, false)
    end.

(** The loop of [Serve]: requests until one ends the connection, the client or the
    context does (no further input), or buffered bytes betray pipelining. *)
Fixpoint serve_loop (e : E) (cs : connState) (ins : list input) : E * connState * list effect :=
  match ins with
  | [] => (e, cs, [])
  | i :: rest =>
      let '(e, cs, t, keepAlive) := serveOne e cs i in
      if negb keepAlive then (e, cs, t)
      else if buffered i then let '(cs, t') := rejectAndWrite cs pipelining_rejection in (e, cs, t ++ t')
      else let '(e, cs, t') := serve_loop e cs rest in (e, cs, t ++ t')
  end.

Definition Serve (e : E) (h : Handover) (ins : list input) : E * list effect :=
  match handoverRejection h with
  | Some rejection => (e, [Rejected (with_conn rejection (ConnID h) (rj_Port rejection))])
  | None =>
      let '(e, cs, t) := serve_loop e {| ho := h; upstream := None; served := 0; decided := false; dials := 0 |} ins in
      (e, t ++ match upstream cs with Some u => close_effect u | None => [] end)
  end.
End Serve.

(** ** At most one decision per connection *)

Definition is_decision (x : effect) : bool := match x with Decisions _ _ _ => true | _ => false end.
Definition decisions (t : list effect) : nat := length (List.filter is_decision t).

Lemma decisions_app t t' : decisions (t ++ t') = (decisions t + decisions t')%nat.
Proof. unfold decisions. rewrite List.filter_app, length_app. done. Qed.

Lemma decisions_cons x t : decisions (x :: t) = ((if is_decision x then 1 else 0) + decisions t)%nat.
Proof. unfold decisions. simpl. by destruct (is_decision x). Qed.
Lemma decisions_nil : decisions [] = 0%nat.
Proof. done. Qed.
#[local] Arguments decisions : simpl never.

(** Count the decisions of a concatenation. *)
Ltac count_decisions := repeat (rewrite ?decisions_app, ?decisions_cons, ?decisions_nil in *; simpl in *).

(** A run that respects the latch. *)
Definition latched (cs cs' : connState) (t : list effect) : Prop :=
  (decisions t + (if decided cs then 1 else 0) <= (if decided cs' then 1 else 0))%nat.

Lemma latched_refl cs cs' t : decided cs' = decided cs -> decisions t = 0%nat -> latched cs cs' t.
Proof. unfold latched. intros -> ->. lia. Qed.
Lemma latched_app cs1 cs2 cs3 t t' : latched cs1 cs2 t -> latched cs2 cs3 t' -> latched cs1 cs3 (t ++ t').
Proof. unfold latched. rewrite decisions_app. lia. Qed.

Lemma record_decision_latched cs d r f cs' t : record_decision cs d r f = (cs', t) -> latched cs cs' t.
Proof. unfold record_decision, MarkDecided, latched. intros [= <- <-]. by destruct (decided cs). Qed.

Lemma rejectAndWrite_latched cs rej cs' t : rejectAndWrite cs rej = (cs', t) -> latched cs cs' t.
Proof.
  unfold rejectAndWrite. destruct (record_decision _ _ _ _) as [cs1 d] eqn:E. intros [= <- <-].
  apply record_decision_latched in E. unfold latched in *. destruct (rj_Wire rej); count_decisions; lia.
Qed.

Lemma ensureUpstream_latched cs rc cred io cs' t up : ensureUpstream cs rc cred io = (cs', t, up) ->
  (latched cs cs' t /\ up <> None) \/ (latched cs cs' t /\ up = None /\ decided cs' = true).
Proof.
  unfold ensureUpstream. intros H.
  assert (forall l, decisions (match upstream cs with Some u => close_effect u | None => [] end ++ l) = decisions l) as Hc.
  { intros l. rewrite decisions_app. destruct (upstream cs) as [u|]; [|done]. unfold close_effect. by destruct (conn u). }
  set (fresh := if negb (dial_ok io) then _ else _) in H.
  assert (forall cs' t up, fresh = (cs', t, up) ->
    (latched cs cs' t /\ up <> None) \/ (latched cs cs' t /\ up = None /\ decided cs' = true)) as Hf.
  { intros cs1 t1 up1. unfold fresh. destruct (dial_ok io); intros [= <- <- <-]; simpl.
    - left. split; [|done]. apply latched_refl; [done|]. by rewrite Hc.
    - right. split_and!; [|done..]. specialize (Hc []). rewrite app_nil_r in Hc. unfold latched. simpl. rewrite Hc.
      destruct (decided cs); rewrite decisions_nil; lia. }
  destruct (upstream cs) as [u|]; [|by apply Hf]. destruct (reusableFor _ _ _ _); [|by apply Hf].
  destruct (conn u); [|by apply Hf]. injection H as <- <- <-. left. split; [|done]. by apply latched_refl.
Qed.

(** Discharge a [latched] goal whose trace is a concatenation. *)
Ltac latch :=
  unfold latched, set_upstream, set_served in *; count_decisions; lia.

Lemma relay_latched cs rc io cs' t ok : relay cs rc io = (cs', t, ok) -> latched cs cs' t.
Proof.
  unfold relay. destruct (ensureUpstream cs rc _ io) as [[cs1 t1] up] eqn:E1.
  apply ensureUpstream_latched in E1 as [[E1 Hup]|(E1 & -> & Hd)].
  2:{ intros [= <- <- <-]. latch. }
  destruct up as [[n u]|]; [|done]. clear Hup.
  destruct (if timed_out io then _ else _) as [cs2 t2] eqn:E2.
  assert (latched cs1 cs2 t2) as H2.
  { destruct (timed_out io); [by apply record_decision_latched in E2|]. injection E2 as <- <-. by apply latched_refl. }
  destruct (io_write io) as [|malformed].
  - destruct (io_response io) as [[]|].
    + destruct (resp_Close io), (req_Close io); intros [= <- <- <-]; latch.
    + destruct (record_decision cs2 _ _ _) as [cs3 t3] eqn:E3. apply record_decision_latched in E3.
      intros [= <- <- <-]. latch.
    + destruct (record_decision cs2 _ _ _) as [cs3 t3] eqn:E3. apply record_decision_latched in E3.
      intros [= <- <- <-]. latch.
    + destruct (timed_out io); [intros [= <- <- <-]; latch|].
      destruct (record_decision cs2 _ _ _) as [cs3 t3] eqn:E3. apply record_decision_latched in E3.
      intros [= <- <- <-]. latch.
  - destruct (timed_out io); [intros [= <- <- <-]; latch|].
    destruct (record_decision cs2 _ _ _) as [cs3 t3] eqn:E3. apply record_decision_latched in E3.
    intros [= <- <- <-]. destruct malformed; latch.
Qed.

(** ** Upstream connections are not shared between credentials *)

(** [c] names the credential of [rc]: the identity of the token that the broker returned for it, or the
    word none when there is no token. *)
Definition names_credential (rc : RequestContext) (c : gostring) : Prop :=
  match Identity (tr_Resolved (c_TokenResult rc)) with [] => c = bs "none" | id => c = id end.

Lemma credentialIdentity_names rc : names_credential rc (credentialIdentity rc).
Proof. unfold names_credential, credentialIdentity. by destruct (Identity _). Qed.

(** Every request forwarded on a connection was preceded by the dial of that very
    connection for the request's identity and under the name of its credential; [seen] is
    what happened before. *)
Fixpoint isolated (seen t : list effect) : Prop :=
  match t with
  | [] => True
  | x :: rest =>
      match x with Forwarded n rc c => names_credential rc c /\ Dialled n (rf_Identity (c_Facts rc)) c ∈ seen | _ => True end /\
      isolated (x :: seen) rest
  end.

Lemma isolated_app t : forall seen t', isolated seen (t ++ t') <-> isolated seen t /\ isolated (rev t ++ seen) t'.
Proof.
  induction t as [|x t IH]; intros seen t'; simpl; [tauto|]. rewrite IH, <- app_assoc. simpl. tauto.
Qed.

Lemma isolated_in t : forall seen n rc c, isolated seen t -> Forwarded n rc c ∈ t ->
  names_credential rc c /\ exists t1 t2, t = t1 ++ Forwarded n rc c :: t2 /\ Dialled n (rf_Identity (c_Facts rc)) c ∈ rev t1 ++ seen.
Proof.
  induction t as [|x t IH]; intros seen n rc c; simpl; [by intros _ ?%elem_of_nil|]. intros [Hx Hr] [<-|Hin]%elem_of_cons.
  - destruct Hx as [Hn Hd]. split; [done|]. by exists [], t.
  - destruct (IH _ _ _ _ Hr Hin) as (Hn & t1 & t2 & -> & Hd). split; [done|]. exists (x :: t1), t2. split; [done|].
    simpl. by rewrite <- app_assoc.
Qed.

Definition forwards (x : effect) : bool := match x with Forwarded _ _ _ => true | _ => false end.
Lemma isolated_quiet t : forall seen, Forall (fun x => forwards x = false) t -> isolated seen t.
Proof.
  induction t as [|x t IH]; intros seen H; simpl; [done|]. apply Forall_cons in H as [Hx H].
  split; [by destruct x|by apply IH].
Qed.

(** The connection kept for reuse is one that was dialled for what it says. *)
Definition up_ok (seen : list effect) (cs : connState) : Prop :=
  forall u n, upstream cs = Some u -> conn u = Some n -> Dialled n (up_identity u) (credID u) ∈ seen.

Lemma up_ok_more seen cs cs' t : up_ok seen cs -> upstream cs' = upstream cs -> up_ok (rev t ++ seen) cs'.
Proof. intros H E u n Hu Hn. rewrite E in Hu. apply elem_of_app. right. by apply H. Qed.
Lemma up_ok_none seen cs : upstream cs = None -> up_ok seen cs.
Proof. intros E u n Hu. congruence. Qed.

(** Effects and states of a step that neither forwards nor dials. *)
Definition quiet (cs cs' : connState) (t : list effect) : Prop :=
  Forall (fun x => forwards x = false) t /\ upstream cs' = upstream cs.
Lemma record_decision_quiet cs d r f cs' t : record_decision cs d r f = (cs', t) -> quiet cs cs' t.
Proof. unfold record_decision. intros [= <- <-]. split; [|done]. destruct (negb _); by repeat constructor. Qed.
Lemma rejectAndWrite_quiet cs rej cs' t : rejectAndWrite cs rej = (cs', t) -> quiet cs cs' t.
Proof.
  unfold rejectAndWrite. destruct (record_decision _ _ _ _) as [cs1 d] eqn:Ed. apply record_decision_quiet in Ed as [H1 H2].
  intros [= <- <-]. split; [|done]. constructor; [done|]. apply Forall_app. split; [done|]. by destruct (rj_Wire rej); repeat constructor.
Qed.
Lemma quiet_step seen cs cs' t : quiet cs cs' t -> up_ok seen cs -> isolated seen t /\ up_ok (rev t ++ seen) cs'.
Proof. intros [H1 H2] H. split; [by apply isolated_quiet|]. by apply (up_ok_more _ cs). Qed.

Lemma close_effect_quiet u : Forall (fun x => forwards x = false) (close_effect u).
Proof. unfold close_effect. destruct (conn u); by repeat constructor. Qed.

Lemma ensureUpstream_ok seen cs rc cred io cs' t up :
  up_ok seen cs -> ensureUpstream cs rc cred io = (cs', t, up) ->
  Forall (fun x => forwards x = false) t /\ up_ok (rev t ++ seen) cs' /\
  (forall n u, up = Some (n, u) -> conn u = Some n /\ Dialled n (rf_Identity (c_Facts rc)) cred ∈ rev t ++ seen).
Proof.
  intros Hup. unfold ensureUpstream. set (closed := match upstream cs with Some u => close_effect u | None => [] end).
  assert (Forall (fun x => forwards x = false) closed) as Hc
    by (unfold closed; destruct (upstream cs); [apply close_effect_quiet|constructor]).
  intros H. set (fresh := if negb (dial_ok io) then _ else _) in H.
  assert (forall cs' t up, fresh = (cs', t, up) -> Forall (fun x => forwards x = false) t /\ up_ok (rev t ++ seen) cs' /\
    (forall n u, up = Some (n, u) -> conn u = Some n /\ Dialled n (rf_Identity (c_Facts rc)) cred ∈ rev t ++ seen)) as Hf.
  { intros cs1 t1 up1. unfold fresh. destruct (dial_ok io); cbn [negb]; intros [= <- <- <-].
    - rewrite rev_app_distr. simpl. split_and!.
      + apply Forall_app. split; [done|by repeat constructor].
      + intros u n [= <-] [= <-]. simpl. by left.
      + intros n u [= <- <-]. split; [done|by left].
    - split_and!; [done|by apply up_ok_none|done]. }
  destruct (upstream cs) as [u|] eqn:Eu; [|by apply Hf]. destruct (reusableFor u rc (ho cs) cred) eqn:Er; [|by apply Hf].
  destruct (conn u) as [n|] eqn:En; [|by apply Hf]. injection H as <- <- <-. simpl. split_and!; [constructor|done|].
  intros n' u' [= <- <-]. split; [done|]. unfold reusableFor in Er. rewrite En in Er.
  apply andb_true_iff in Er as [Er Hcred%str_eqb_eq]. apply andb_true_iff in Er as [Er _].
  apply andb_true_iff in Er as [_ Hid%str_eqb_eq]. rewrite <- Hid, <- Hcred. by apply Hup.
Qed.

Lemma relay_isolated seen cs rc io cs' t ok :
  up_ok seen cs -> relay cs rc io = (cs', t, ok) -> isolated seen t /\ up_ok (rev t ++ seen) cs'.
Proof.
  intros Hup. unfold relay. destruct (ensureUpstream cs rc _ io) as [[cs1 t1] up] eqn:E1.
  destruct (ensureUpstream_ok _ _ _ _ _ _ _ _ Hup E1) as (Hq1 & Hup1 & Hd). destruct up as [[n u]|].
  2:{ intros [= <- <- <-]. split; [apply isolated_quiet, Forall_app; split; [done|by repeat constructor]|].
      rewrite rev_app_distr, <- app_assoc. by apply (up_ok_more _ cs1 cs1 [WroteDeny]). }
  destruct (Hd n u eq_refl) as [Hn Hdial]. clear Hd.
  destruct (if timed_out io then _ else _) as [cs2 t2] eqn:E2.
  assert (quiet cs1 cs2 t2) as [Hq2 Hu2].
  { destruct (timed_out io); [by apply record_decision_quiet in E2|]. injection E2 as <- <-. by split; [constructor|]. }
  set (fw := [Forwarded n rc (credentialIdentity rc)] ++ t2).
  assert (forall t', Forall (fun x => forwards x = false) t' -> isolated seen ((t1 ++ fw) ++ t')) as Hiso.
  { intros t' Ht'. rewrite <- app_assoc. apply isolated_app. split; [by apply isolated_quiet|].
    split; [split; [apply credentialIdentity_names|done]|]. apply isolated_quiet, Forall_app. done. }
  assert (forall t' cs', upstream cs' = None -> up_ok (rev ((t1 ++ fw) ++ t') ++ seen) cs') as Hnone by (intros; by apply up_ok_none).
  assert (forall t' u', conn u' = Some n -> up_identity u' = rf_Identity (c_Facts rc) -> credID u' = credentialIdentity rc ->
            forall cs', upstream cs' = Some u' -> up_ok (rev ((t1 ++ fw) ++ t') ++ seen) cs') as Hsome.
  { intros t' u' H1 H2 H3 cs3 H4 u0 n0 H5 H6. rewrite H4 in H5. injection H5 as <-. rewrite H1 in H6. injection H6 as <-.
    rewrite H2, H3, !rev_app_distr, <- !app_assoc, !elem_of_app in *. tauto. }
  change (t1 ++ [Forwarded n rc (credentialIdentity rc)] ++ t2) with (t1 ++ fw).
  destruct (io_write io) as [|malformed].
  - destruct (io_response io) as [[]|].
    + assert (forall t', up_ok (rev ((t1 ++ fw) ++ t') ++ seen) cs2) as Hkeep.
      { intros t' u0 n0 H5 H6. rewrite Hu2 in H5. specialize (Hup1 _ _ H5 H6).
        rewrite !rev_app_distr, <- !app_assoc, !elem_of_app in *. tauto. }
      destruct (resp_Close io), (req_Close io); intros [= <- <- <-].
      * split; [by apply Hiso; repeat constructor|by apply Hnone].
      * split; [by apply Hiso; repeat constructor|by apply Hnone].
      * split; [by apply Hiso|by apply Hkeep].
      * split; [by apply Hiso|]. apply (Hsome [] {| conn := conn u; up_identity := rf_Identity (c_Facts rc); up_port := ap_port (OriginalDst (ho cs2)); credID := credentialIdentity rc; reusable := true |}); done.
    + destruct (record_decision cs2 _ _ _) as [cs3 t3] eqn:E3. apply record_decision_quiet in E3 as [Hq3 _].
      intros [= <- <- <-]. split; [apply Hiso, Forall_app; split; [done|by repeat constructor]|by apply Hnone].
    + destruct (record_decision cs2 _ _ _) as [cs3 t3] eqn:E3. apply record_decision_quiet in E3 as [Hq3 _].
      intros [= <- <- <-]. split; [apply Hiso, Forall_app; split; [done|by repeat constructor]|by apply Hnone].
    + destruct (timed_out io).
      { intros [= <- <- <-]. split; [by apply Hiso; repeat constructor|by apply Hnone]. }
      destruct (record_decision cs2 _ _ _) as [cs3 t3] eqn:E3. apply record_decision_quiet in E3 as [Hq3 _].
      intros [= <- <- <-]. split; [apply Hiso, Forall_app; split; [done|by repeat constructor]|by apply Hnone].
  - destruct (timed_out io).
    { intros [= <- <- <-]. split; [by apply Hiso; repeat constructor|by apply Hnone]. }
    destruct (record_decision cs2 _ _ _) as [cs3 t3] eqn:E3. apply record_decision_quiet in E3 as [Hq3 _].
    intros [= <- <- <-]. split; [|by apply Hnone]. apply Hiso. rewrite !Forall_app. split_and!; [done| |by repeat constructor].
    by destruct malformed; repeat constructor.
Qed.

(** ** Upstream connections are numbered by their dials *)

Definition dial_numbers (t : list effect) : list nat := omap (fun x => match x with Dialled n _ _ => Some n | _ => None end) t.
Lemma dial_numbers_app t t' : dial_numbers (t ++ t') = dial_numbers t ++ dial_numbers t'.
Proof. apply omap_app. Qed.

(** The connections dialled in a run get the next numbers, in order. *)
Definition numbered (cs cs' : connState) (t : list effect) : Prop :=
  exists k, dial_numbers t = seq (dials cs) k /\ dials cs' = (dials cs + k)%nat.
Lemma numbered_app cs1 cs2 cs3 t t' : numbered cs1 cs2 t -> numbered cs2 cs3 t' -> numbered cs1 cs3 (t ++ t').
Proof.
  intros (k & H1 & H2) (k' & H3 & H4). exists (k + k')%nat. rewrite dial_numbers_app, H1, H3, H4, H2, seq_app. split; [done|lia].
Qed.
Lemma numbered_none cs cs' t : dial_numbers t = [] -> dials cs' = dials cs -> numbered cs cs' t.
Proof. intros H1 H2. exists 0%nat. rewrite H1, H2. split; [done|lia]. Qed.
#[local] Hint Resolve numbered_none : core.

Lemma record_decision_numbered cs d r f cs' t : record_decision cs d r f = (cs', t) -> numbered cs cs' t.
Proof. unfold record_decision, MarkDecided. intros [= <- <-]. destruct (decided cs); by apply numbered_none. Qed.
Lemma rejectAndWrite_numbered cs rej cs' t : rejectAndWrite cs rej = (cs', t) -> numbered cs cs' t.
Proof.
  unfold rejectAndWrite. destruct (record_decision _ _ _ _) as [cs1 d] eqn:E. apply record_decision_numbered in E.
  intros [= <- <-]. change (?x :: d ++ ?w) with ([x] ++ d ++ w). apply (numbered_app _ cs); [by apply numbered_none|].
  apply (numbered_app _ cs1); [done|]. apply numbered_none; [by destruct (rj_Wire rej)|done].
Qed.
Lemma close_effect_numbers u : dial_numbers (close_effect u) = [].
Proof. unfold close_effect. by destruct (conn u). Qed.

Lemma ensureUpstream_numbered cs rc cred io cs' t up : ensureUpstream cs rc cred io = (cs', t, up) -> numbered cs cs' t.
Proof.
  unfold ensureUpstream. set (closed := match upstream cs with Some u => close_effect u | None => [] end).
  assert (dial_numbers closed = []) as Hc by (unfold closed; destruct (upstream cs); [apply close_effect_numbers|done]).
  intros H. set (fresh := if negb (dial_ok io) then _ else _) in H.
  assert (forall cs' t up, fresh = (cs', t, up) -> numbered cs cs' t) as Hf.
  { intros cs1 t1 up1. unfold fresh. destruct (dial_ok io); intros [= <- <- <-].
    - exists 1%nat. rewrite dial_numbers_app, Hc. split; [done|]. simpl. lia.
    - by apply numbered_none. }
  destruct (upstream cs) as [u|]; [|by eapply Hf]. destruct (reusableFor _ _ _ _); [|by eapply Hf].
  destruct (conn u); [|by eapply Hf]. injection H as <- <- <-. by apply numbered_none.
Qed.

(** Chain the steps of a relay: what follows the dial dials nothing more. *)
Ltac number_steps :=
  repeat match goal with
  | |- numbered _ _ (_ ++ _) => eapply numbered_app; [eassumption|]
  | |- numbered _ _ _ => by apply numbered_none
  end.

Lemma relay_numbered cs rc io cs' t ok : relay cs rc io = (cs', t, ok) -> numbered cs cs' t.
Proof.
  unfold relay. destruct (ensureUpstream cs rc _ io) as [[cs1 t1] up] eqn:E1. apply ensureUpstream_numbered in E1.
  destruct up as [[n u]|]; [|intros [= <- <- <-]; number_steps].
  destruct (if timed_out io then _ else _) as [cs2 t2] eqn:E2.
  assert (numbered cs1 cs2 (Forwarded n rc (credentialIdentity rc) :: t2)) as H2.
  { destruct (timed_out io); [|injection E2 as <- <-; by apply numbered_none]. apply record_decision_numbered in E2.
    change (?x :: t2) with ([x] ++ t2). apply (numbered_app _ cs1); [by apply numbered_none|done]. }
  assert (numbered cs cs2 (t1 ++ [Forwarded n rc (credentialIdentity rc)] ++ t2)) as H3 by (by apply (numbered_app _ cs1)).
  destruct (io_write io) as [|malformed].
  - destruct (io_response io) as [[]|].
    + destruct (resp_Close io), (req_Close io); intros [= <- <- <-]; number_steps.
    + destruct (record_decision cs2 _ _ _) as [cs3 t3] eqn:E3. apply record_decision_numbered in E3. intros [= <- <- <-]. number_steps.
    + destruct (record_decision cs2 _ _ _) as [cs3 t3] eqn:E3. apply record_decision_numbered in E3. intros [= <- <- <-]. number_steps.
    + destruct (timed_out io); [intros [= <- <- <-]; number_steps|].
      destruct (record_decision cs2 _ _ _) as [cs3 t3] eqn:E3. apply record_decision_numbered in E3. intros [= <- <- <-]. number_steps.
  - destruct (timed_out io); [intros [= <- <- <-]; number_steps|].
    destruct (record_decision cs2 _ _ _) as [cs3 t3] eqn:E3. apply record_decision_numbered in E3. intros [= <- <- <-].
    rewrite <- !app_assoc. destruct malformed; number_steps.
Qed.

(** A number is dialled once. *)
Lemma dialled_once t s k n i c i' c' : dial_numbers t = seq s k ->
  Dialled n i c ∈ t -> Dialled n i' c' ∈ t -> i = i' /\ c = c'.
Proof.
  intros Hs. assert (NoDup (dial_numbers t)) as Hd by (rewrite Hs; apply NoDup_seq). clear Hs. revert Hd.
  assert (forall t n i c, Dialled n i c ∈ t -> n ∈ dial_numbers t) as Hin.
  { intros t0 n0 i0 c0 H. apply list_elem_of_omap. by exists (Dialled n0 i0 c0). }
  induction t as [|x t IH]; intros Hd; [by intros ?%elem_of_nil|].
  rewrite !elem_of_cons. assert (NoDup (dial_numbers t)) as Ht by (destruct x; simpl in Hd; try done; by apply NoDup_cons in Hd as [_ ?]).
  intros [<-|H1] [H2|H2]; simplify_eq; try done; [..|by apply IH]; simpl in Hd; apply NoDup_cons in Hd as [Hno _]; exfalso; eauto.
Qed.

Section ServeTheorems.
Context `{U : Unicode} `{S : Sha256} `{N : NetURL} {E : Type} `{C : Clock E}.
Context (p : Pipeline E).

Lemma serveOne_latched e cs i e' cs' t b : serveOne p e cs i = (e', cs', t, b) -> latched cs cs' t.
Proof.
  unfold serveOne. destruct (slot i); cbn [negb].
  2:{ destruct (rejectAndWrite _ _) as [cs1 t1] eqn:E1. apply rejectAndWrite_latched in E1. by intros [= <- <- <- <-]. }
  destruct (in_read i) as [[req|] head| | |].
  - destruct (Validate (Some req) head) as [[r|] [rej|]].
    + destruct (rejectAndWrite _ _) as [cs1 t1] eqn:E1. apply rejectAndWrite_latched in E1. by intros [= <- <- <- <-].
    + destruct (Now e) as [now e1]. destruct (Execute p e1 _) as [[[e2 rc] tr] d]. destruct (IsAllow d); cbn [negb].
      * destruct rc as [rc|]; [|intros [= <- <- <- <-]; by apply latched_refl].
        destruct (relay cs rc (in_io i)) as [[cs1 t1] ok] eqn:E1. apply relay_latched in E1.
        destruct ok; cbn [negb]; [|by intros [= <- <- <- <-]].
        destruct (next_byte i); [|intros [= <- <- <- <-]; latch].
        destruct (rejectAndWrite cs1 _) as [cs2 t2] eqn:E2. apply rejectAndWrite_latched in E2.
        intros [= <- <- <- <-]. by apply (latched_app _ cs1).
      * destruct (record_decision _ _ _ _) as [cs1 t1] eqn:E1. apply record_decision_latched in E1.
        intros [= <- <- <- <-]. case_bool_decide; latch.
    + destruct (rejectAndWrite _ _) as [cs1 t1] eqn:E1. apply rejectAndWrite_latched in E1. by intros [= <- <- <- <-].
    + intros [= <- <- <- <-]. by apply latched_refl.
  - intros [= <- <- <- <-]. by apply latched_refl.
  - destruct (rejectAndWrite _ _) as [cs1 t1] eqn:E1. apply rejectAndWrite_latched in E1. by intros [= <- <- <- <-].
  - destruct (rejectAndWrite _ _) as [cs1 t1] eqn:E1. apply rejectAndWrite_latched in E1. by intros [= <- <- <- <-].
  - destruct (rejectAndWrite _ _) as [cs1 t1] eqn:E1. apply rejectAndWrite_latched in E1. by intros [= <- <- <- <-].
Qed.

Lemma serve_loop_latched ins : forall e cs e' cs' t, serve_loop p e cs ins = (e', cs', t) -> latched cs cs' t.
Proof.
  induction ins as [|i ins IH]; intros e cs e' cs' t; cbn [serve_loop]; [intros [= <- <- <-]; by apply latched_refl|].
  destruct (serveOne p e cs i) as [[[e1 cs1] t1] keep] eqn:E1. apply serveOne_latched in E1.
  destruct keep; cbn [negb]; [|by intros [= <- <- <-]]. destruct (buffered i).
  - destruct (rejectAndWrite cs1 pipelining_rejection) as [cs2 t2] eqn:E2. apply rejectAndWrite_latched in E2.
    intros [= <- <- <-]. by apply (latched_app _ cs1).
  - destruct (serve_loop p e1 cs1 ins) as [[e2 cs2] t2] eqn:E2. apply IH in E2.
    intros [= <- <- <-]. by apply (latched_app _ cs1).
Qed.

(** Whatever a client, the pipeline and the network do, serving a connection
    records at most one decision sample for it. *)
Theorem Serve_one_decision e h ins : (decisions (Serve p e h ins).2 <= 1)%nat.
Proof.
  unfold Serve. destruct (handoverRejection h); [count_decisions; lia|].
  destruct (serve_loop p e _ ins) as [[e' cs'] t] eqn:El. apply serve_loop_latched in El. unfold latched in El.
  simpl in *. rewrite decisions_app.
  assert (decisions (match upstream cs' with Some u => close_effect u | None => [] end) = 0%nat) as ->
    by (destruct (upstream cs') as [u|]; [unfold close_effect; by destruct (conn u)|done]).
  destruct (decided cs'); lia.
Qed.

Lemma serveOne_isolated seen e cs i e' cs' t b :
  up_ok seen cs -> serveOne p e cs i = (e', cs', t, b) -> isolated seen t /\ up_ok (rev t ++ seen) cs'.
Proof.
  intros Hup. unfold serveOne.
  assert (forall rej e' cs' t b, (let '(cs1, t1) := rejectAndWrite cs rej in (e, cs1, t1, false)) = (e', cs', t, b) ->
    isolated seen t /\ up_ok (rev t ++ seen) cs') as Hrej.
  { intros rej e1 cs1 t1 b1. destruct (rejectAndWrite cs rej) as [cs2 t2] eqn:E2. apply rejectAndWrite_quiet in E2.
    intros [= <- <- <- <-]. by apply (quiet_step _ cs). }
  assert (forall (e1 e' : E) cs' t b, (e1, cs, [], false) = (e', cs', t, b) -> isolated seen t /\ up_ok (rev t ++ seen) cs') as Hnop
    by (intros e1 e2 cs1 t1 b1 [= <- <- <- <-]; done).
  destruct (slot i); cbn [negb]; [|apply Hrej]. destruct (in_read i) as [[req|] head| | |]; [|apply Hnop|apply Hrej..].
  destruct (Validate (Some req) head) as [[r|] [rej|]]; [apply Hrej| |apply Hrej|apply Hnop].
  destruct (Now e) as [now e1]. destruct (Execute p e1 _) as [[[e2 rc] tr] d]. destruct (IsAllow d); cbn [negb].
  - destruct rc as [rc|]; [|apply Hnop]. destruct (relay cs rc (in_io i)) as [[cs1 t1] ok] eqn:E1.
    apply (relay_isolated seen) in E1 as [Hi Hu]; [|done]. destruct ok; cbn [negb]; [|by intros [= <- <- <- <-]].
    destruct (next_byte i); [|by intros [= <- <- <- <-]].
    destruct (rejectAndWrite cs1 pipelining_rejection) as [cs2 t2] eqn:E2. apply rejectAndWrite_quiet in E2.
    destruct (quiet_step _ _ _ _ E2 Hu) as [Hi2 Hu2]. intros [= <- <- <- <-].
    rewrite rev_app_distr, <- app_assoc. split; [by apply isolated_app|done].
  - destruct (record_decision cs _ _ _) as [cs1 t1] eqn:E1. apply record_decision_quiet in E1 as [Hq Hu].
    intros [= <- <- <- <-]. apply (quiet_step _ cs); [|done]. split; [|done]. apply Forall_app. split; [done|].
    case_bool_decide; by repeat constructor.
Qed.

Lemma serve_loop_isolated ins : forall seen e cs e' cs' t,
  up_ok seen cs -> serve_loop p e cs ins = (e', cs', t) -> isolated seen t.
Proof.
  induction ins as [|i ins IH]; intros seen e cs e' cs' t Hup; cbn [serve_loop]; [by intros [= <- <- <-]|].
  destruct (serveOne p e cs i) as [[[e1 cs1] t1] keep] eqn:E1. apply (serveOne_isolated seen) in E1 as [Hi Hu]; [|done].
  destruct keep; cbn [negb]; [|by intros [= <- <- <-]]. destruct (buffered i).
  - destruct (rejectAndWrite cs1 pipelining_rejection) as [cs2 t2] eqn:E2. apply rejectAndWrite_quiet in E2.
    intros [= <- <- <-]. apply isolated_app. split; [done|]. by apply (quiet_step _ cs1 cs2).
  - destruct (serve_loop p e1 cs1 ins) as [[e2 cs2] t2] eqn:E2. apply (IH (rev t1 ++ seen)) in E2; [|done].
    intros [= <- <- <-]. by apply isolated_app.
Qed.

Lemma serveOne_numbered e cs i e' cs' t b : serveOne p e cs i = (e', cs', t, b) -> numbered cs cs' t.
Proof.
  unfold serveOne.
  assert (forall rej e' cs' t b, (let '(cs1, t1) := rejectAndWrite cs rej in (e, cs1, t1, false)) = (e', cs', t, b) ->
    numbered cs cs' t) as Hrej.
  { intros rej e1 cs1 t1 b1. destruct (rejectAndWrite cs rej) as [cs2 t2] eqn:E2. intros [= <- <- <- <-].
    by eapply rejectAndWrite_numbered. }
  assert (forall (e1 e' : E) cs' t b, (e1, cs, [], false) = (e', cs', t, b) -> numbered cs cs' t) as Hnop
    by (intros e1 e2 cs1 t1 b1 [= <- <- <- <-]; by apply numbered_none).
  destruct (slot i); cbn [negb]; [|by eapply Hrej]. destruct (in_read i) as [[req|] head| | |]; [|by eapply Hnop|by eapply Hrej..].
  destruct (Validate (Some req) head) as [[r|] [rej|]]; [by eapply Hrej| |by eapply Hrej|by eapply Hnop].
  destruct (Now e) as [now e1]. destruct (Execute p e1 _) as [[[e2 rc] tr] d]. destruct (IsAllow d); cbn [negb].
  - destruct rc as [rc|]; [|by eapply Hnop]. destruct (relay cs rc (in_io i)) as [[cs1 t1] ok] eqn:E1.
    apply relay_numbered in E1. destruct ok; cbn [negb]; [|by intros [= <- <- <- <-]].
    destruct (next_byte i); [|by intros [= <- <- <- <-]].
    destruct (rejectAndWrite cs1 pipelining_rejection) as [cs2 t2] eqn:E2. apply rejectAndWrite_numbered in E2.
    intros [= <- <- <- <-]. by apply (numbered_app _ cs1).
  - destruct (record_decision cs _ _ _) as [cs1 t1] eqn:E1. apply record_decision_numbered in E1.
    intros [= <- <- <- <-]. apply (numbered_app _ cs1); [done|]. by case_bool_decide; apply numbered_none.
Qed.

Lemma serve_loop_numbered ins : forall e cs e' cs' t, serve_loop p e cs ins = (e', cs', t) -> numbered cs cs' t.
Proof.
  induction ins as [|i ins IH]; intros e cs e' cs' t; cbn [serve_loop]; [intros [= <- <- <-]; by apply numbered_none|].
  destruct (serveOne p e cs i) as [[[e1 cs1] t1] keep] eqn:E1. apply serveOne_numbered in E1.
  destruct keep; cbn [negb]; [|by intros [= <- <- <-]]. destruct (buffered i).
  - destruct (rejectAndWrite cs1 pipelining_rejection) as [cs2 t2] eqn:E2. apply rejectAndWrite_numbered in E2.
    intros [= <- <- <-]. by apply (numbered_app _ cs1).
  - destruct (serve_loop p e1 cs1 ins) as [[e2 cs2] t2] eqn:E2. apply IH in E2.
    intros [= <- <- <-]. by apply (numbered_app _ cs1).
Qed.

Lemma Serve_numbers e h ins : exists k, dial_numbers (Serve p e h ins).2 = seq 0 k.
Proof.
  unfold Serve. destruct (handoverRejection h); [by exists 0%nat|].
  destruct (serve_loop p e _ ins) as [[e' cs'] t] eqn:El. apply serve_loop_numbered in El as (k & Hk & _). exists k. simpl.
  rewrite dial_numbers_app, Hk. destruct (upstream cs'); [rewrite close_effect_numbers|]; apply app_nil_r.
Qed.

Lemma Serve_isolated e h ins : isolated [] (Serve p e h ins).2.
Proof.
  unfold Serve. destruct (handoverRejection h); [done|].
  destruct (serve_loop p e _ ins) as [[e' cs'] t] eqn:El. apply (serve_loop_isolated _ []) in El; [|by apply up_ok_none].
  simpl. apply isolated_app. split; [done|]. apply isolated_quiet. destruct (upstream cs'); [apply close_effect_quiet|constructor].
Qed.

(** C10: upstream connections are never shared across credentials or hosts.  In every
    run of a connection, a request is only ever forwarded on an upstream connection
    that was dialled, earlier in the same run, for the validated host of that request
    and under the identity of the token the broker returned for it (or the word none
    without a token); and any two requests forwarded on the same upstream connection
    have the same host and tokens of the same identity (the empty identity and the
    literal none, which no digest is, count as one). *)
Theorem Serve_isolates_credentials e h ins :
  isolated [] (Serve p e h ins).2 /\
  forall n rc c rc' c', Forwarded n rc c ∈ (Serve p e h ins).2 -> Forwarded n rc' c' ∈ (Serve p e h ins).2 ->
    rf_Identity (c_Facts rc) = rf_Identity (c_Facts rc') /\
    (Identity (tr_Resolved (c_TokenResult rc)) = Identity (tr_Resolved (c_TokenResult rc')) \/
     Identity (tr_Resolved (c_TokenResult rc)) ∈ [[]; bs "none"] /\ Identity (tr_Resolved (c_TokenResult rc')) ∈ [[]; bs "none"]).
Proof.
  pose proof (Serve_isolated e h ins) as Hi. split; [done|]. intros n rc c rc' c' H1 H2.
  destruct (Serve_numbers e h ins) as [k Hk].
  destruct (isolated_in _ _ _ _ _ Hi H1) as (N1 & t1 & t2 & E1 & D1), (isolated_in _ _ _ _ _ Hi H2) as (N2 & t3 & t4 & E2 & D2).
  rewrite app_nil_r, list_elem_of_In, <- in_rev, <- list_elem_of_In in D1, D2.
  assert (Dialled n (rf_Identity (c_Facts rc)) c ∈ (Serve p e h ins).2) as D1' by (rewrite E1; apply elem_of_app; by left).
  assert (Dialled n (rf_Identity (c_Facts rc')) c' ∈ (Serve p e h ins).2) as D2' by (rewrite E2; apply elem_of_app; by left).
  destruct (dialled_once _ _ _ _ _ _ _ _ Hk D1' D2') as [-> ->]. split; [done|].
  unfold names_credential in N1, N2.
  destruct (Identity (tr_Resolved (c_TokenResult rc))), (Identity (tr_Resolved (c_TokenResult rc'))); subst; set_solver.
Qed.
End ServeTheorems.
