(* ===== verification/Wire.v ===== *)
(** * A reader of HTTP/1.1 requests

    The reference against which the relay's output is judged: what a strict server reads from a
    stream of bytes.  It has one way to frame a body, refuses a message with two, and answers [None] as
    long as the message is not complete, so that a stream for which it answers [None] holds no
    request at all. *)

From S2P Require Import Prelude GoStrings RawHead.
#[local] Open Scope Z_scope.

(** ** Numbers *)

(** Digits, most significant first. *)
Fixpoint read_digits (base : Z) (acc : Z) (s : gostring) : option Z :=
  match s with
  | [] => Some acc
  | c :: s' => match hex_value c with
               | Some d => if d <? base then read_digits base (acc * base + d) s' else None
               | None => None
               end
  end.
Definition read_number (base : Z) (s : gostring) : option Z := match s with [] => None | _ => read_digits base 0 s end.

(** [%x] of a length. *)
Definition hex_lower (d : Z) : ascii := byte_of (if d <? 10 then 48 + d else 87 + d).
Fixpoint hex_digits (fuel : nat) (n : Z) (acc : gostring) : gostring :=
  match fuel with
  | O => acc
  | S fuel => if n =? 0 then acc else hex_digits fuel (n / 16) (hex_lower (n mod 16) :: acc)
  end.
Definition FormatHex (n : nat) : gostring := match n with O => bs "0" | _ => hex_digits n (Z.of_nat n) [] end.

(** ** Lines, fields and messages *)

(** The bytes before the first CR LF and those after it; a CR or LF on its own is refused. *)
Definition is_nl (c : ascii) : bool := ascii_eqb c chr_cr || ascii_eqb c chr_lf.
Fixpoint read_line (s : gostring) : option (gostring * gostring) :=
  match s with
  | c :: s' =>
      if ascii_eqb c chr_cr && (match s' with d :: _ => ascii_eqb d chr_lf | [] => false end) then Some ([], drop 1 s')
      else if is_nl c then None else '(l, r) ← read_line s'; Some (c :: l, r)
  | [] => None
  end.

Definition is_space (c : ascii) : bool := is_blank c || ascii_eqb c chr_cr || ascii_eqb c chr_lf.
Definition read_field (l : gostring) : option (gostring * gostring) :=
  i ← IndexByte l ":";
  if bool_decide (take i l = []) || negb (validHeaderName (take i l)) then None else Some (take i l, Trim is_space (drop (i + 1) l)).

(** Fields up to the empty line. *)
Fixpoint read_fields (fuel : nat) (s : gostring) : option (list (gostring * gostring) * gostring) :=
  match fuel with
  | O => None
  | S fuel =>
      '(l, r) ← read_line s;
      match l with
      | [] => Some ([], r)
      | _ => f ← read_field l; '(fs, r) ← read_fields fuel r; Some (f :: fs, r)
      end
  end.

(** The values of a field, whatever the case of its name. *)
Definition field_values (name : gostring) (fs : list (gostring * gostring)) : list gostring :=
  map snd (List.filter (fun f => str_eqb (map lower_byte (fst f)) name) fs).

Inductive framing := Chunked | Sized (n : nat).
Definition read_framing (fs : list (gostring * gostring)) : option framing :=
  match field_values "transfer-encoding" fs, field_values "content-length" fs with
  | [], [] => Some (Sized 0)
  | [te], [] => if str_eqb te "chunked" then Some Chunked else None
  | [], [v] => n ← read_number 10 v; Some (Sized (Z.to_nat n))
  | _, _ => None
  end.

Definition read_bytes (n : nat) (s : gostring) : option (gostring * gostring) :=
  if (n <=? length s)%nat then Some (take n s, drop n s) else None.

(** Chunks without extensions, and no trailer. *)
Fixpoint read_chunks (fuel : nat) (s : gostring) : option (gostring * gostring) :=
  match fuel with
  | O => None
  | S fuel =>
      '(l, r) ← read_line s;
      n ← read_number 16 l;
      if n =? 0 then '(l, r) ← read_line r; match l with [] => Some ([], r) | _ => None end
      else
        '(d, r) ← read_bytes (Z.to_nat n) r;
        '(l, r) ← read_line r;
        match l with [] => '(b, r) ← read_chunks fuel r; Some (d ++ b, r) | _ => None end
  end.

Record message := { ms_line : gostring; ms_fields : list (gostring * gostring); ms_body : gostring }.

Definition read_body (f : framing) (s : gostring) : option (gostring * gostring) :=
  match f with Chunked => read_chunks (length s) s | Sized n => read_bytes n s end.

Definition read_message (s : gostring) : option (message * gostring) :=
  '(line, r) ← read_line s;
  '(fs, r) ← read_fields (length r) r;
  if bool_decide (length (field_values "host" fs) = 1%nat) then
    f ← read_framing fs;
    '(b, r) ← read_body f r;
    Some ({| ms_line := line; ms_fields := fs; ms_body := b |}, r)
  else None.

(** ** More input does not change what was read *)

Lemma read_line_more s q l r : read_line s = Some (l, r) -> read_line (s ++ q) = Some (l, r ++ q) /\ (length r < length s)%nat.
Proof.
  revert l r. induction s as [|c s IH]; intros l r; [done|]. cbn [read_line app]. unfold is_nl.
  destruct (ascii_eqb c chr_cr); cbn [andb orb].
  - destruct s as [|d s]; [done|]. cbn [app]. destruct (ascii_eqb d chr_lf); [|done]. cbn [drop]. rewrite !drop_0.
    intros [= <- <-]. split; [done|]. simpl. lia.
  - destruct (ascii_eqb c chr_lf); [done|]. intros ([l' r'] & Hx & [= <- <-])%bind_Some. destruct (IH _ _ Hx) as [-> H2]. split; [done|]. simpl. lia.
Qed.

Lemma read_bytes_more n s q d r : read_bytes n s = Some (d, r) -> read_bytes n (s ++ q) = Some (d, r ++ q).
Proof.
  unfold read_bytes. destruct (Nat.leb_spec n (length s)); [|done]. intros [= <- <-].
  rewrite length_app. destruct (Nat.leb_spec n (length s + length q)); [|lia]. by rewrite take_app_le, drop_app_le by lia.
Qed.

Lemma read_fields_more n m s q fs r : (n <= m)%nat -> read_fields n s = Some (fs, r) -> read_fields m (s ++ q) = Some (fs, r ++ q).
Proof.
  revert m s fs r. induction n as [|n IH]; intros m s fs r Hm; [done|]. destruct m as [|m]; [lia|]. cbn [read_fields].
  intros (x & Hx & E)%bind_Some. destruct x as [l r1]. destruct (read_line_more _ q _ _ Hx) as [-> _]. cbn [mbind option_bind].
  destruct l as [|c l]; [by injection E as <- <-|]. apply bind_Some in E as (f & -> & E). cbn [mbind option_bind].
  apply bind_Some in E as ([fs' r'] & Hf & [= <- <-]). by rewrite (IH m r1 fs' r' ltac:(lia) Hf).
Qed.

Lemma read_chunks_more n m s q b r : (n <= m)%nat -> read_chunks n s = Some (b, r) -> read_chunks m (s ++ q) = Some (b, r ++ q).
Proof.
  revert m s b r. induction n as [|n IH]; intros m s b r Hm; [done|]. destruct m as [|m]; [lia|]. cbn [read_chunks].
  intros (x & Hx & E)%bind_Some. destruct x as [l r1]. destruct (read_line_more _ q _ _ Hx) as [-> _]. cbn [mbind option_bind].
  apply bind_Some in E as (k & -> & E). cbn [mbind option_bind]. destruct (k =? 0).
  - apply bind_Some in E as ([l' r'] & Hl & E). destruct (read_line_more _ q _ _ Hl) as [-> _]. cbn [mbind option_bind].
    destruct l'; [|done]. by injection E as <- <-.
  - apply bind_Some in E as ([d r2] & Hd & E). rewrite (read_bytes_more _ _ q _ _ Hd). cbn [mbind option_bind].
    apply bind_Some in E as ([l' r3] & Hl & E). destruct (read_line_more _ q _ _ Hl) as [-> _]. cbn [mbind option_bind].
    destruct l'; [|done]. apply bind_Some in E as ([b' r'] & Hb & [= <- <-]). by rewrite (IH m r3 b' r' ltac:(lia) Hb).
Qed.

(** A message that was read is read again, whatever follows. *)
Lemma read_message_more s q m r : read_message s = Some (m, r) -> read_message (s ++ q) = Some (m, r ++ q).
Proof.
  unfold read_message. intros (x & Hx & E)%bind_Some. destruct x as [l r1]. destruct (read_line_more _ q _ _ Hx) as [-> _]. cbn [mbind option_bind].
  apply bind_Some in E as ([fs r2] & Hf & E). rewrite (read_fields_more (length r1) (length (r1 ++ q)) _ q _ _ ltac:(rewrite length_app; lia) Hf). cbn [mbind option_bind].
  case_bool_decide; [|done]. apply bind_Some in E as (f & -> & E). cbn [mbind option_bind]. apply bind_Some in E as ([b r3] & Hb & [= <- <-]).
  destruct f; cbn [read_body] in *; [|by rewrite (read_bytes_more _ _ q _ _ Hb)].
  by rewrite (read_chunks_more (length r2) (length (r2 ++ q)) _ q _ _ ltac:(rewrite length_app; lia) Hb).
Qed.

(** A proper prefix of a message that is read to its end holds no message. *)
Lemma read_message_prefix s q m : q <> [] -> read_message (s ++ q) = Some (m, []) -> read_message s = None.
Proof.
  intros Hq Hm. destruct (read_message s) as [[m' r]|] eqn:E; [|done]. apply (read_message_more _ q) in E. rewrite E in Hm.
  injection Hm as _ Hr. by apply app_nil in Hr as [_ ->].
Qed.

(** ** What was consumed *)

Lemma read_line_split s l r : read_line s = Some (l, r) -> s = l ++ crlf ++ r.
Proof.
  revert l r. induction s as [|c s IH]; intros l r; [done|]. cbn [read_line].
  destruct (ascii_eqb c chr_cr && _) eqn:E.
  - apply andb_true_iff in E as [->%ascii_eqb_eq Hd]. destruct s as [|d s]; [done|]. apply ascii_eqb_eq in Hd as ->. by intros [= <- <-].
  - destruct (is_nl c); [done|]. intros ([l' r'] & Hx & [= <- <-])%bind_Some. by rewrite (IH _ _ Hx).
Qed.

(** ** Reading back what was written *)

(** Text without line breaks. *)
Definition plain (s : gostring) : Prop := Forall (fun c => is_nl c = false) s.
Lemma plain_nil : plain [].
Proof. constructor. Qed.

Lemma read_line_app l r : plain l -> read_line (l ++ crlf ++ r) = Some (l, r).
Proof.
  intros Hl. induction Hl as [|c l Hc Hl IH]; [done|]. cbn [app read_line]. rewrite Hc, IH. unfold is_nl in Hc.
  apply orb_false_iff in Hc as [-> _]. done.
Qed.

Lemma read_line_crlf r : read_line (crlf ++ r) = Some ([], r).
Proof. apply (read_line_app []), plain_nil. Qed.

Lemma read_line_plain s l r : read_line s = Some (l, r) -> plain l.
Proof.
  revert l r. induction s as [|c s IH]; intros l r; [done|]. cbn [read_line].
  destruct (ascii_eqb c chr_cr && _); [intros [= <- _]; apply plain_nil|]. destruct (is_nl c) eqn:E; [done|].
  intros ([l' r'] & Hx & [= <- _])%bind_Some. constructor; [done|]. by eapply IH.
Qed.

(** The chunks that were read, alone. *)
Lemma read_chunks_consumed n s b r : read_chunks n s = Some (b, r) ->
  exists c, s = c ++ crlf ++ crlf ++ r /\ read_chunks n (c ++ crlf ++ crlf) = Some (b, []).
Proof.
  revert s b r. induction n as [|n IH]; intros s b r; [done|]. cbn [read_chunks].
  intros ([l r1] & Hl & (k & Hk & E)%bind_Some)%bind_Some. pose proof (read_line_plain _ _ _ Hl) as Hp. apply read_line_split in Hl as ->.
  destruct (k =? 0) eqn:Ek.
  - apply bind_Some in E as ([l' r'] & Hl & E). apply read_line_split in Hl as ->. destruct l'; [|done]. injection E as <- <-. exists l. split; [done|].
    rewrite read_line_app by done. cbn [mbind option_bind]. rewrite Hk. cbn [mbind option_bind]. by rewrite Ek.
  - apply bind_Some in E as ([d r2] & Hd & ([l' r3] & Hl & E)%bind_Some). apply read_line_split in Hl as ->. unfold read_bytes in Hd.
    destruct (Nat.leb_spec (Z.to_nat k) (length r1)); [|done]. injection Hd as Hd1 Hd2. destruct l'; [|done].
    apply bind_Some in E as ([b' r'] & (c & -> & Hc)%IH & [= <- <-]). exists (l ++ crlf ++ d ++ crlf ++ c).
    assert (length d = Z.to_nat k) as Hlen by (subst d; rewrite length_take; lia).
    split; [rewrite <- (take_drop (Z.to_nat k) r1), Hd1, Hd2; by rewrite <- !app_assoc|]. rewrite <- !app_assoc, read_line_app by done. cbn [mbind option_bind].
    rewrite Hk. cbn [mbind option_bind]. rewrite Ek. unfold read_bytes. rewrite length_app, <- Hlen.
    destruct (Nat.leb_spec (length d) (length d + length (crlf ++ c ++ crlf ++ crlf))); [|lia]. rewrite take_app_length, drop_app_length.
    cbn [mbind option_bind]. rewrite read_line_crlf. cbn [mbind option_bind]. by rewrite Hc.
Qed.

Lemma hex_value_lower d : 0 <= d < 16 -> hex_value (hex_lower d) = Some d.
Proof.
  intros Hd. rewrite <- (Z2Nat.id d) by lia. assert (Z.to_nat d < 16)%nat as Hn by lia. revert Hn.
  generalize (Z.to_nat d) as n. clear. intros n Hn. do 16 (destruct n as [|n]; [done|]). lia.
Qed.

Lemma read_hex_digits fuel n acc : 0 <= n < 16 ^ Z.of_nat fuel -> read_digits 16 0 (hex_digits fuel n acc) = read_digits 16 n acc.
Proof.
  revert n acc. induction fuel as [|fuel IH]; intros n acc Hn; cbn [hex_digits].
  - replace n with 0 by (simpl in Hn; lia). done.
  - destruct (Z.eqb_spec n 0) as [->|Hz]; [done|]. rewrite Nat2Z.inj_succ, Z.pow_succ_r in Hn by lia.
    pose proof (Z.mod_pos_bound n 16 ltac:(lia)) as Hm. rewrite IH by (split; [apply Z.div_pos; lia|apply Z.div_lt_upper_bound; lia]).
    cbn [read_digits]. rewrite hex_value_lower by done. destruct (Z.ltb_spec (n mod 16) 16); [|lia]. f_equal. pose proof (Z.div_mod n 16 ltac:(lia)). lia.
Qed.

Lemma hex_digits_app fuel n acc : hex_digits fuel n acc = hex_digits fuel n [] ++ acc.
Proof.
  revert n acc. induction fuel as [|fuel IH]; intros n acc; cbn [hex_digits]; [done|]. destruct (n =? 0); [done|].
  rewrite IH, (IH _ [_]). by rewrite <- app_assoc.
Qed.

Lemma hex_value_plain c d : hex_value c = Some d -> is_nl c = false.
Proof. intros H. destruct (is_nl c) eqn:E; [|done]. unfold is_nl in E. apply orb_true_iff in E as [E|E]; apply ascii_eqb_eq in E; subst c; by vm_compute in H. Qed.

Lemma hex_digits_plain fuel n acc : plain acc -> plain (hex_digits fuel n acc).
Proof.
  revert n acc. induction fuel as [|fuel IH]; intros n acc Ha; cbn [hex_digits]; [done|]. destruct (n =? 0); [done|]. apply IH.
  constructor; [|done]. eapply hex_value_plain, hex_value_lower, Z.mod_pos_bound. lia.
Qed.
Lemma FormatHex_plain n : plain (FormatHex n).
Proof. destruct n; [by repeat constructor|]. apply hex_digits_plain, plain_nil. Qed.

Lemma read_FormatHex n : read_number 16 (FormatHex n) = Some (Z.of_nat n).
Proof.
  destruct n as [|n]; [done|]. assert (0 <= Z.of_nat (S n) < 16 ^ Z.of_nat (S n)) as Hb by (split; [lia|apply Z.pow_gt_lin_r; lia]).
  pose proof (read_hex_digits (S n) (Z.of_nat (S n)) [] Hb) as Hr. unfold FormatHex, read_number.
  destruct (hex_digits (S n) (Z.of_nat (S n)) []) eqn:E; [|done]. injection Hr; lia.
Qed.

Lemma pretty_char_value (d : N) : (d < 10)%N -> hex_value (pretty_N_char d) = Some (Z.of_N d).
Proof.
  intros Hd. rewrite <- (N2Nat.id d). assert (N.to_nat d < 10)%nat as Hn by lia. revert Hn.
  generalize (N.to_nat d) as n. clear. intros n Hn. do 10 (destruct n as [|n]; [done|]). lia.
Qed.

Lemma read_pretty_go (x : N) s : read_digits 10 0 (bs (pretty_N_go x s)) = read_digits 10 (Z.of_N x) (bs s).
Proof.
  revert s. induction (N.lt_wf_0 x) as [x _ IH]; intros s. destruct (decide (x = 0)%N) as [->|Hx]; [by rewrite pretty_N_go_0|].
  rewrite pretty_N_go_step by lia. rewrite IH by (apply N.div_lt; lia). unfold bs at 1. cbn [list_ascii_of_string read_digits].
  rewrite (pretty_char_value (x mod 10)) by (apply N.mod_lt; lia). rewrite N2Z.inj_mod, N2Z.inj_div. change (Z.of_N 10) with 10.
  pose proof (Z.mod_pos_bound (Z.of_N x) 10 ltac:(lia)). destruct (Z.ltb_spec (Z.of_N x mod 10) 10); [|lia].
  f_equal. pose proof (Z.div_mod (Z.of_N x) 10 ltac:(lia)). lia.
Qed.

Lemma pretty_go_plain (x : N) s : plain (bs s) -> plain (bs (pretty_N_go x s)).
Proof.
  revert s. induction (N.lt_wf_0 x) as [x _ IH]; intros s Hs. destruct (decide (x = 0)%N) as [->|Hx]; [by rewrite pretty_N_go_0|].
  rewrite pretty_N_go_step by lia. apply IH; [apply N.div_lt_upper_bound; lia|]. unfold bs. cbn [list_ascii_of_string]. constructor; [|done].
  eapply hex_value_plain, pretty_char_value, N.mod_lt. lia.
Qed.

Lemma read_Itoa n : read_number 10 (Itoa n) = Some (Z.of_nat n).
Proof.
  unfold Itoa. destruct (decide (n = 0)%nat) as [->|Hn]; [done|]. unfold pretty, pretty_N. rewrite decide_False by lia.
  pose proof (read_pretty_go (N.of_nat n) "") as Hr. unfold read_number. rewrite nat_N_Z in Hr. destruct (bs _) eqn:E; [|done]. injection Hr; lia.
Qed.

Lemma Itoa_plain n : plain (Itoa n).
Proof.
  unfold Itoa. destruct (decide (n = 0)%nat) as [->|Hn]; [by repeat constructor|]. unfold pretty, pretty_N.
  rewrite decide_False by lia. apply pretty_go_plain, plain_nil.
Qed.

Lemma TrimLeft_suffix p s : exists x, s = x ++ TrimLeft p s.
Proof. induction s as [|c s [x IH]]; [by exists []|]. cbn [TrimLeft]. destruct (p c); [exists (c :: x); simpl; congruence|by exists []]. Qed.
Lemma TrimLeft_head p s c r : TrimLeft p s = c :: r -> p c = false.
Proof. induction s as [|d s IH]; [done|]. cbn [TrimLeft]. destruct (p d) eqn:E; [done|]. by intros [= <- _]. Qed.
Lemma TrimLeft_id p s : (forall c r, s = c :: r -> p c = false) -> TrimLeft p s = s.
Proof. destruct s as [|c s]; [done|]. intros H. cbn [TrimLeft]. by rewrite (H c s eq_refl). Qed.
Lemma TrimRight_prefix p s : exists x, s = TrimRight p s ++ x.
Proof.
  unfold TrimRight. destruct (TrimLeft_suffix p (rev s)) as [x Hx]. exists (rev x). rewrite <- rev_app_distr, <- Hx. symmetry. apply rev_involutive.
Qed.

Lemma Trim_idem p s : Trim p (Trim p s) = Trim p s.
Proof.
  unfold Trim at 1 3. set (u := TrimLeft p s). unfold Trim. fold u. destruct (TrimRight_prefix p u) as [x Hx].
  rewrite (TrimLeft_id p (TrimRight p u)).
  - unfold TrimRight. rewrite rev_involutive. f_equal. apply TrimLeft_id. intros c r. apply TrimLeft_head.
  - intros c r E. rewrite E in Hx. by eapply (TrimLeft_head p s).
Qed.

Lemma Trim_plain p s : plain s -> plain (Trim p s).
Proof.
  unfold plain, Trim. intros Hs. destruct (TrimLeft_suffix p s) as [x Hx]. rewrite Hx in Hs. apply Forall_app in Hs as [_ Hs].
  destruct (TrimRight_prefix p (TrimLeft p s)) as [y Hy]. rewrite Hy in Hs. by apply Forall_app in Hs as [Hs _].
Qed.

Lemma validHeaderName_no c k : isTChar c = false -> validHeaderName k = true -> c ∉ k.
Proof.
  intros Hc Hk Hin. unfold validHeaderName in Hk. rewrite forallb_forall in Hk. apply list_elem_of_In, Hk in Hin. congruence.
Qed.

Lemma validHeaderName_plain k : validHeaderName k = true -> plain k.
Proof.
  unfold validHeaderName, plain. rewrite forallb_forall, Forall_forall. intros Hk c Hc. apply list_elem_of_In, Hk in Hc.
  destruct (is_nl c) eqn:E; [|done]. unfold is_nl in E. apply orb_true_iff in E as [E|E]; apply ascii_eqb_eq in E; subst c; by vm_compute in Hc.
Qed.

Lemma read_field_app k v : k <> [] -> validHeaderName k = true -> read_field (k ++ ":"%char :: " "%char :: v) = Some (k, Trim is_space v).
Proof.
  intros Hne Hk. unfold read_field. rewrite IndexByte_app by (by apply validHeaderName_no). cbn [mbind option_bind].
  rewrite take_app_length, bool_decide_eq_false_2, Hk by done. cbn [negb orb]. do 2 f_equal.
  rewrite drop_app_add' by lia. cbn [drop]. done.
Qed.

(** A field as it is written. *)
Definition field_line (f : gostring * gostring) : gostring := fst f ++ ":"%char :: " "%char :: snd f ++ crlf.
(** A field that reads back as itself. *)
Definition field_ok (f : gostring * gostring) : Prop :=
  fst f <> [] /\ validHeaderName (fst f) = true /\ plain (snd f) /\ Trim is_space (snd f) = snd f.

Lemma read_fields_app fs r n : Forall field_ok fs -> (length fs < n)%nat ->
  read_fields n (concat (map field_line fs) ++ crlf ++ r) = Some (fs, r).
Proof.
  revert n. induction fs as [|f fs IH]; intros n Hf Hn; (destruct n as [|n]; [simpl in Hn; lia|]).
  - cbn [read_fields map concat]. cbn [app]. by rewrite read_line_crlf.
  - apply Forall_cons in Hf as [(H1 & H2 & H3 & H4) Hf]. simpl in Hn. cbn [read_fields map concat]. destruct f as [k v]. cbn [fst snd] in *.
    replace ((field_line (k, v) ++ concat (map field_line fs)) ++ crlf ++ r) with
      ((k ++ ":"%char :: " "%char :: v) ++ crlf ++ concat (map field_line fs) ++ crlf ++ r) by (unfold field_line; cbn [fst snd]; by rewrite <- !app_assoc, <- !app_comm_cons, <- !app_assoc).
    rewrite read_line_app.
    2: { apply Forall_app. split; [|by do 2 (constructor; [done|])]. by apply validHeaderName_plain. }
    cbn [mbind option_bind]. destruct (k ++ _) eqn:E; [by destruct k|]. rewrite <- E, read_field_app, H4 by done. cbn [mbind option_bind].
    by rewrite IH by (done || lia).
Qed.

(** A chunk, and the last one. *)
Definition chunk_line (d : gostring) : gostring := FormatHex (length d) ++ crlf ++ d ++ crlf.
Definition last_chunk : gostring := bs "0" ++ crlf ++ crlf.

Lemma read_chunks_app ds r n : Forall (fun d => d <> []) ds -> (length ds < n)%nat ->
  read_chunks n (concat (map chunk_line ds) ++ last_chunk ++ r) = Some (concat ds, r).
Proof.
  revert n. induction ds as [|d ds IH]; intros n Hd Hn; (destruct n as [|n]; [simpl in Hn; lia|]); [done|].
  apply Forall_cons in Hd as [Hd Hds]. simpl in Hn. cbn [read_chunks map concat]. unfold chunk_line at 1. rewrite <- !app_assoc.
  rewrite read_line_app by apply FormatHex_plain. cbn [mbind option_bind]. rewrite read_FormatHex. cbn [mbind option_bind].
  destruct d as [|c d]; [done|]. destruct (Z.eqb_spec (Z.of_nat (length (c :: d))) 0) as [E|_]; [simpl in E; lia|]. rewrite Nat2Z.id.
  unfold read_bytes. rewrite length_app. destruct (Nat.leb_spec (length (c :: d)) (length (c :: d) + length (crlf ++ concat (map chunk_line ds) ++ last_chunk ++ r))); [|lia].
  rewrite take_app_length, drop_app_length. cbn [mbind option_bind]. rewrite read_line_crlf. cbn [mbind option_bind].
  by rewrite IH by (done || lia).
Qed.

(** Chunks cut short, followed by a part of the last one's line, are not a body. *)
Lemma read_chunks_cut n ds p q z : Forall (fun d => d <> []) ds -> p ++ q = concat (map chunk_line ds) -> z `prefix_of` (bs "0" ++ crlf) ->
  read_chunks n (p ++ z) = None.
Proof.
  intros Hd Hpq Hz. destruct (read_chunks n (p ++ z)) as [[b r]|] eqn:E; [|done]. exfalso. apply read_chunks_consumed in E as (c & Hs & Hc).
  destruct (decide (length (c ++ crlf ++ crlf) <= length p)%nat) as [Hle|Hgt].
  - assert (exists w, p = (c ++ crlf ++ crlf) ++ w) as [w ->].
    { exists (drop (length (c ++ crlf ++ crlf)) p). rewrite <- (take_drop (length (c ++ crlf ++ crlf)) p) at 1. f_equal.
      apply (f_equal (take (length (c ++ crlf ++ crlf)))) in Hs. rewrite take_app_le in Hs by done. rewrite Hs.
      replace (c ++ crlf ++ crlf ++ r) with ((c ++ crlf ++ crlf) ++ r) by by rewrite <- !app_assoc. apply take_app_length. }
    pose proof (read_chunks_app ds [] (n + S (length ds)) Hd ltac:(lia)) as Hall. rewrite app_nil_r, <- Hpq in Hall.
    revert Hc Hall. generalize (c ++ crlf ++ crlf) as k. intros k Hc Hall. rewrite <- !app_assoc in Hall.
    rewrite (read_chunks_more n (n + S (length ds)) _ (w ++ q ++ last_chunk) _ _ ltac:(lia) Hc) in Hall. injection Hall as _ Hn.
    apply app_nil in Hn as [_ [_ ?]%app_nil]. done.
  - assert (exists w, c ++ crlf ++ crlf = p ++ w /\ w <> [] /\ w `prefix_of` z) as (w & Hw & Hne & Hpre).
    { replace (c ++ crlf ++ crlf ++ r) with ((c ++ crlf ++ crlf) ++ r) in Hs by by rewrite <- !app_assoc. exists (drop (length p) (c ++ crlf ++ crlf)).
      assert (p = take (length p) (c ++ crlf ++ crlf)) as Hp.
      { apply (f_equal (take (length p))) in Hs. rewrite take_app_length, take_app_le in Hs by lia. done. }
      split; [rewrite Hp at 1; symmetry; apply take_drop|]. split; [intros Hn; apply (f_equal length) in Hn; rewrite length_drop in Hn; cbn [length] in Hn; lia|].
      exists r. apply (f_equal (drop (length p))) in Hs. rewrite drop_app_length, drop_app_le in Hs by lia. done. }
    assert (w `prefix_of` (bs "0" ++ crlf)) as [y Hy] by (by etrans). apply (f_equal (@rev ascii)) in Hw. rewrite !rev_app_distr in Hw.
    destruct w as [|c1 [|c2 [|c3 [|]]]]; simplify_eq/=.
Qed.
