(* ===== verification/Relay.v ===== *)
(** * [internal/dataplane/requestpath/relay.go]: what goes over the wire

    Handler.v models which request is relayed and over which connection; this file models the bytes:
    the head and body written for a request that asked for a 100-continue, the hop-by-hop headers taken
    off a response, and the watchdog that ends a relay without progress.  [Request.Write] of net/http, used
    for every other request, is a parameter here and the subject of RequestWrite.v. *)

From S2P Require Import Prelude GoStrings GoRuntime RawHead Wire.
#[local] Open Scope Z_scope.

(** ** Writers that may fail *)

(** What was sent upstream and downstream, and how many writes were made. *)
Record wire := { up : gostring; down : gostring; writes : nat }.
Definition blank_wire : wire := {| up := []; down := []; writes := 0 |}.
(** A step of a function that returns at the first error; [true] is no error. *)
Definition act : Type := wire -> wire * bool.
Definition and_then (a b : act) : act := fun s => let '(s, ok) := a s in if ok then b s else (s, false).
Definition nothing : act := fun s => (s, true).
Inductive peer := Upstream | Downstream.

(** What the reader of a body delivers, and whether it ends without an error. *)
Record body := { reads : list gostring; body_ok : bool }.

Record out_request := {
  o_Method : gostring;
  o_RequestURI : gostring;          (* [req.URL.RequestURI()] *)
  o_Host : gostring;
  o_URLHost : gostring;             (* [req.URL.Host] *)
  o_Header : Header;
  o_TransferEncoding : list gostring;
  o_ContentLength : Z;
  o_Body : option body              (* [None]: nil or http.NoBody *)
}.

Section Write.
Context `{U : Unicode}.
(** [short n = Some k]: the write number [n] fails after at most [k] bytes, and never after all of them. *)
Context (short : nat -> option nat).

Definition put (to : peer) (b : gostring) : act := fun s =>
  let sent := match short (writes s) with None => b | Some k => take (Nat.min k (pred (length b))) b end in
  ({| up := (match to with Upstream => up s ++ sent | Downstream => up s end);
      down := (match to with Upstream => down s | Downstream => down s ++ sent end); writes := S (writes s) |},
   match short (writes s) with None => true | Some _ => false end).
Fixpoint puts (l : list gostring) : act := match l with [] => nothing | b :: l => and_then (put Upstream b) (puts l) end.

(** [Header.Write]: the fields in the order of their names, with line breaks in values made spaces. *)
Definition clean (v : gostring) : gostring := Trim is_space (map (fun c => if is_nl c then " "%char else c) v).
Definition header_fields (h : Header) : list (gostring * gostring) :=
  concat (map (fun k => if bool_decide (k = []) || negb (validHeaderName k) then [] else map (fun v => (k, clean v)) (Values h k))
              (sort_Strings (map_to_list h).*1)).
Definition header_Write (h : Header) : act := puts (concat (map (fun '(k, v) => [k; bs ": "; v; crlf]) (header_fields h))).

Definition usesChunkedTransferEncoding (req : out_request) : bool :=
  match last (o_TransferEncoding req) with Some te => EqualFold te "chunked" | None => false end.

(** The headers that [writeRequestHead] sends. *)
Definition head_header (req : out_request) : Header :=
  let header := delete (bs "Expect") (o_Header req) in
  let header := if usesChunkedTransferEncoding req then Set_ (delete (bs "Content-Length") header) "Transfer-Encoding" "chunked" else header in
  if (0 <=? o_ContentLength req) && str_eqb (Get header "Content-Length") [] && negb (usesChunkedTransferEncoding req)
  then Set_ header "Content-Length" (Itoa (Z.to_nat (o_ContentLength req))) else header.

Definition head_target (req : out_request) : gostring := if str_eqb (o_RequestURI req) [] then "/" else o_RequestURI req.
Definition head_host (req : out_request) : gostring := if str_eqb (o_Host req) [] then o_URLHost req else o_Host req.
Definition request_line (req : out_request) : gostring := o_Method req ++ " "%char :: head_target req ++ bs " HTTP/1.1".

Definition writeRequestHead (req : out_request) : act :=
  and_then (put Upstream (request_line req ++ crlf))
  (and_then (if str_eqb (head_host req) [] then nothing else put Upstream (bs "Host: " ++ head_host req ++ crlf))
  (and_then (header_Write (head_header req)) (put Upstream crlf))).

(** [io.Copy]: one write per read that delivered bytes. *)
Fixpoint copy_reads (write : gostring -> act) (l : list gostring) : act :=
  match l with
  | [] => nothing
  | d :: l => and_then (if str_eqb d [] then nothing else write d) (copy_reads write l)
  end.
Definition io_Copy (write : gostring -> act) (b : body) : act := and_then (copy_reads write (reads b)) (fun s => (s, body_ok b)).

(** [httputil.NewChunkedWriter]. *)
Definition chunked_Write (d : gostring) : act := puts [FormatHex (length d) ++ crlf; d; crlf].
Definition chunked_Close : act := put Upstream (bs "0" ++ crlf).

Definition continue_line : gostring := bs "HTTP/1.1 100 Continue" ++ crlf ++ crlf.

Definition writeUpstreamRequest (request_Write : out_request -> act) (req : out_request) (expectContinue : bool) : act :=
  if negb expectContinue then request_Write req
  else
    and_then (writeRequestHead req)
    (and_then (put Downstream continue_line)
      (if usesChunkedTransferEncoding req then
         fun s =>
           let '(s, ok) := match o_Body req with Some b => io_Copy chunked_Write b s | None => (s, true) end in
           if negb ok then ((chunked_Close s).1, false) else and_then chunked_Close (put Upstream crlf) s
       else match o_Body req with None => nothing | Some b => io_Copy (put Upstream) b end)).

(** ** What a sequence of writes sends *)

(** A step that sends [t] upstream or, if it fails, a part of it: with [strict], not all of it. *)
Definition sends (strict : bool) (t : gostring) (a : act) : Prop := forall s,
  let '(s', ok) := a s in
  down s' = down s /\ if ok then up s' = up s ++ t else exists p q, up s' = up s ++ p /\ p ++ q = t /\ (strict = true -> q <> []).

Lemma sends_put b : b <> [] -> sends true b (put Upstream b).
Proof.
  intros Hb s. unfold put. split; [done|]. destruct (short (writes s)) as [k|]; [|done]. cbn [up].
  eexists _, (drop (Nat.min k (pred (length b))) b). rewrite take_drop. split_and!; [done|done|].
  intros _ Hd. apply (f_equal length) in Hd. rewrite length_drop in Hd. destruct b; [done|]. simpl in Hd. lia.
Qed.
Lemma sends_put_any b : sends false b (put Upstream b).
Proof.
  intros s. unfold put. split; [done|]. destruct (short (writes s)) as [k|]; [|done]. cbn [up].
  eexists _, (drop (Nat.min k (pred (length b))) b). by rewrite take_drop.
Qed.
Lemma sends_nothing strict : sends strict [] nothing.
Proof. intros s. cbn. by rewrite app_nil_r. Qed.

(** A second step after one that sent [t]. *)
Lemma sends_after strict t u (x : gostring) (d : gostring) (r : wire * bool) :
  (let '(s', ok) := r in down s' = d /\ if ok then up s' = (x ++ t) ++ u else exists p q, up s' = (x ++ t) ++ p /\ p ++ q = u /\ (strict = true -> q <> [])) ->
  let '(s', ok) := r in down s' = d /\ if ok then up s' = x ++ t ++ u else exists p q, up s' = x ++ p /\ p ++ q = t ++ u /\ (strict = true -> q <> []).
Proof.
  destruct r as [s' []]; intros [Hd H]; (split; [done|]); [by rewrite app_assoc|]. destruct H as (p & q & Hp & <- & Hs). exists (t ++ p), q.
  by rewrite !app_assoc.
Qed.

Lemma sends_then strict t u a b : sends false t a -> sends strict u b -> (strict = true -> u <> []) -> sends strict (t ++ u) (and_then a b).
Proof.
  intros Ha Hb Hu s. unfold and_then. specialize (Ha s). destruct (a s) as [s1 ok]. destruct Ha as [Hd Ha]. destruct ok.
  - specialize (Hb s1). rewrite Ha, Hd in Hb. by apply sends_after.
  - split; [done|]. destruct Ha as (p & q & Hp & <- & _). exists p, (q ++ u). rewrite app_assoc. split_and!; [done|done|].
    intros Hs [_ E]%app_nil. by apply Hu.
Qed.
Lemma sends_weaken t a : sends true t a -> sends false t a.
Proof. intros H s. specialize (H s). destruct (a s) as [s' []]; [done|]. destruct H as (? & p & q & ? & ? & ?). split; [done|]. by exists p, q. Qed.

Lemma sends_puts l : sends false (concat l) (puts l).
Proof. induction l as [|b l IH]; cbn [puts concat]; [apply sends_nothing|]. apply sends_then; [apply sends_put_any|done|done]. Qed.

(** Nothing fails of itself. *)
Definition sure (a : act) : Prop := (forall n, short n = None) -> forall s, (a s).2 = true.
Lemma sure_put to b : sure (put to b).
Proof. intros H s. unfold put. by rewrite H. Qed.
Lemma sure_then a b : sure a -> sure b -> sure (and_then a b).
Proof. intros Ha Hb H s. unfold and_then. specialize (Ha H s). destruct (a s) as [s1 ok]. cbn in Ha. subst ok. by apply Hb. Qed.
Lemma sure_nothing : sure nothing.
Proof. done. Qed.
Lemma sure_puts l : sure (puts l).
Proof. induction l; cbn [puts]; auto using sure_nothing, sure_then, sure_put. Qed.
Lemma sure_copy write l : (forall d, sure (write d)) -> sure (copy_reads write l).
Proof. intros Hw. induction l; cbn [copy_reads]; [apply sure_nothing|]. apply sure_then; [|done]. case_match; auto using sure_nothing. Qed.

(** ** The head *)

Definition head_fields (req : out_request) : list (gostring * gostring) :=
  (if str_eqb (head_host req) [] then [] else [(bs "Host", head_host req)]) ++ header_fields (head_header req).
Definition head_bytes (req : out_request) : gostring :=
  (request_line req ++ crlf) ++ concat (map field_line (head_fields req)) ++ crlf.

Lemma sends_header h : sends false (concat (map field_line (header_fields h))) (header_Write h).
Proof.
  unfold header_Write. replace (concat (map field_line (header_fields h))) with (concat (concat (map (fun '(k, v) => [k; bs ": "; v; crlf]) (header_fields h)))).
  - apply sends_puts.
  - induction (header_fields h) as [|[k v] fs IH]; [done|]. cbn [map concat]. rewrite concat_app, IH. cbn [concat]. f_equal.
Qed.

Lemma sends_head req : sends true (head_bytes req) (writeRequestHead req).
Proof.
  unfold writeRequestHead, head_bytes, head_fields. rewrite map_app, concat_app, <- !(app_assoc (concat _)).
  apply sends_then; [apply sends_put_any| |by intros _ [_ ?%(f_equal length)]%app_nil; rewrite length_app in *; simpl in *; lia].
  apply sends_then; [| |by intros _ [_ ?%(f_equal length)]%app_nil].
  - case_match; [apply sends_nothing|]. cbn [map concat]. rewrite app_nil_r. apply sends_put_any.
  - apply sends_then; [apply sends_header|by apply sends_put|done].
Qed.
Lemma sure_head req : sure (writeRequestHead req).
Proof. unfold writeRequestHead, header_Write. repeat first [apply sure_then|apply sure_put|apply sure_puts]. case_match; auto using sure_nothing, sure_put. Qed.

Lemma clean_plain v : plain (clean v).
Proof.
  apply Trim_plain. unfold plain. apply Forall_forall. intros c Hc. apply list_elem_of_In, in_map_iff in Hc as (d & <- & _).
  by destruct (is_nl d) eqn:E.
Qed.

Lemma header_fields_ok h : Forall field_ok (header_fields h).
Proof.
  unfold header_fields. apply Forall_concat, Forall_forall. intros l Hl. apply list_elem_of_In, in_map_iff in Hl as (k & <- & _).
  destruct (bool_decide (k = [])) eqn:E1; [constructor|]. destruct (validHeaderName k) eqn:E2; [|constructor]. cbn [negb orb]. apply Forall_forall.
  intros f Hf. apply list_elem_of_In, in_map_iff in Hf as (v & <- & _). apply bool_decide_eq_false in E1. split_and!; [done|done|apply clean_plain|].
  unfold clean. apply Trim_idem.
Qed.

Lemma field_values_one low k vs :
  map snd (List.filter (fun f => str_eqb (map lower_byte (fst f)) low) (map (fun v => (k, clean v)) vs)) = if str_eqb (map lower_byte k) low then map clean vs else [].
Proof.
  induction vs as [|v vs IH]; cbn [map List.filter fst]; [by destruct (str_eqb _ _)|]. destruct (str_eqb (map lower_byte k) low); [|done].
  cbn [map snd]. by f_equal.
Qed.

(** The values of a field in a map in which its name is spelled in one way. *)
Lemma field_values_header h K : K <> [] -> validHeaderName K = true -> (forall k, is_Some (h !! k) -> map lower_byte k = map lower_byte K -> k = K) ->
  field_values (map lower_byte K) (header_fields h) = map clean (Values h K).
Proof.
  intros Hne HK Hspell. unfold header_fields, field_values.
  assert (forall k, k ∈ sort_Strings (map_to_list h).*1 <-> is_Some (h !! k)) as Hin.
  { intros k. rewrite (sort_Strings_perm (map_to_list h).*1), list_elem_of_fmap. split.
    - intros ([k' v] & -> & Hv%elem_of_map_to_list). cbn. eauto.
    - intros [v Hv]. exists (k, v). split; [done|]. by apply elem_of_map_to_list. }
  assert (NoDup (sort_Strings (map_to_list h).*1)) as Hnd by (rewrite (sort_Strings_perm (map_to_list h).*1); apply NoDup_fst_map_to_list).
  assert (Values h K = if decide (K ∈ sort_Strings (map_to_list h).*1) then Values h K else []) as ->.
  { destruct (decide _) as [|Hn]; [done|]. unfold Values. destruct (h !! K) eqn:E; [|done]. exfalso. apply Hn, Hin. eauto. }
  revert Hin Hnd. generalize (sort_Strings (map_to_list h).*1) as ks. intros ks Hin Hnd.
  assert (forall k, k ∈ ks -> is_Some (h !! k)) as Hks by (intros k Hk; by apply Hin). clear Hin.
  induction ks as [|k ks IH]; [done|]. apply NoDup_cons in Hnd as [Hk Hnd]. cbn [map concat]. rewrite List.filter_app, map_app.
  rewrite IH by (done || (intros k' Hk'; apply Hks; by right)). destruct (decide (k = K)) as [->|Hk'].
  - rewrite (decide_True (P := K ∈ K :: ks)) by by left. rewrite decide_False by done. cbn [map]. rewrite app_nil_r.
    rewrite bool_decide_eq_false_2, HK by done. cbn [negb orb]. by rewrite field_values_one, str_eqb_refl.
  - assert (str_eqb (map lower_byte k) (map lower_byte K) = false) as Hlow.
    { apply str_eqb_neq. intros E. apply Hk', Hspell; [|done]. apply Hks. by left. }
    assert (map snd (List.filter (fun f => str_eqb (map lower_byte (fst f)) (map lower_byte K))
      (if bool_decide (k = []) || negb (validHeaderName k) then [] else map (fun v => (k, clean v)) (Values h k))) = []) as ->
      by (destruct (_ || _); [done|]; by rewrite field_values_one, Hlow).
    cbn [app]. destruct (decide (K ∈ ks)), (decide (K ∈ k :: ks)) as [Hc|Hc]; try done; [exfalso; apply Hc; by right|].
    apply elem_of_cons in Hc as [->|?]; done.
Qed.

(** A number is written as it is. *)
Lemma read_digits_all base acc s n : read_digits base acc s = Some n -> Forall (fun c => is_Some (hex_value c)) s.
Proof.
  revert acc. induction s as [|c s IH]; intros acc; [constructor|]. cbn [read_digits]. destruct (hex_value c) eqn:E; [|done].
  destruct (_ <? _); [|done]. intros H. constructor; [eauto|]. by eapply IH.
Qed.
Lemma hex_value_not_space c : is_Some (hex_value c) -> is_space c = false /\ is_nl c = false.
Proof. intros [d Hd]. every_byte c. Qed.
Lemma clean_number v n : read_number 10 v = Some n -> clean v = v.
Proof.
  intros Hr. assert (Forall (fun c => is_Some (hex_value c)) v) as Hd.
  { unfold read_number in Hr. destruct v eqn:E; [done|]. rewrite <- E in *. by eapply read_digits_all. }
  unfold clean. replace (map _ v) with v.
  2: { clear Hr. induction Hd as [|c l Hc Hl IH]; [done|]. cbn [map]. destruct (hex_value_not_space c Hc) as [_ ->]. congruence. }
  unfold Trim, TrimRight. rewrite (TrimLeft_id is_space v); [rewrite (TrimLeft_id is_space (rev v)); [apply rev_involutive|]|].
  - intros c r E. assert (In c (rev v)) as Hc by (rewrite E; simpl; auto). apply in_rev, list_elem_of_In in Hc. rewrite Forall_forall in Hd. by apply hex_value_not_space, Hd.
  - intros c r E. rewrite E in Hd. apply Forall_cons in Hd as [Hc _]. by apply hex_value_not_space.
Qed.

(** ** Requests as they reach the relay *)

Definition framing_names : list gostring := [bs "Host"; bs "Content-Length"; bs "Transfer-Encoding"].

(** The request line and the host are on one line; header names are in canonical form; net/http has
    taken Host and Transfer-Encoding out of the header map, and a Content-Length that it left there reads as
    the length, perhaps with leading zeros; without chunking the reader of the body delivers that many bytes or an error. *)
Record relayed (req : out_request) : Prop := {
  rl_line : plain (request_line req);
  rl_host : head_host req <> [] /\ plain (head_host req) /\ Trim is_space (head_host req) = head_host req;
  rl_names : forall K k, K ∈ framing_names -> is_Some (o_Header req !! k) -> map lower_byte k = map lower_byte K -> k = K;
  rl_parsed : o_Header req !! bs "Host" = None /\ o_Header req !! bs "Transfer-Encoding" = None;
  rl_length : usesChunkedTransferEncoding req = false -> 0 <= o_ContentLength req /\
    (o_Header req !! bs "Content-Length" = None \/ exists v, o_Header req !! bs "Content-Length" = Some [v] /\ read_number 10 v = Some (o_ContentLength req)) /\
    match o_Body req with
    | None => o_ContentLength req = 0
    | Some b => let n := Z.of_nat (length (concat (reads b))) in if body_ok b then n = o_ContentLength req else n < o_ContentLength req
    end
}.

Lemma number_nonempty v n : read_number 10 v = Some n -> v <> [].
Proof. by intros H ->. Qed.

Lemma head_header_lookup req : relayed req -> exists v, (usesChunkedTransferEncoding req = false -> read_number 10 v = Some (o_ContentLength req)) /\
  forall k, k ∈ framing_names -> head_header req !! k =
    if decide (k = bs "Host") then None
    else if decide (k = bs "Transfer-Encoding") then if usesChunkedTransferEncoding req then Some [bs "chunked"] else None
    else if usesChunkedTransferEncoding req then None else Some [v].
Proof.
  intros [_ _ _ [Hh Ht] Hl]. unfold head_header, Set_.
  destruct (usesChunkedTransferEncoding req) eqn:Ec; cbn [negb]; rewrite ?andb_false_r, ?andb_true_r.
  - exists []. split; [done|]. intros k Hk. unfold framing_names in Hk. rewrite !elem_of_cons, elem_of_nil in Hk. destruct Hk as [->|[->|[->|[]]]]; by simplify_map_eq.
  - destruct (Hl eq_refl) as (Hn & Hcl & _). destruct (Z.leb_spec 0 (o_ContentLength req)); [|lia]. cbn [andb].
    set (n := Itoa (Z.to_nat (o_ContentLength req))). assert (read_number 10 n = Some (o_ContentLength req)) as Hread.
    { unfold n. rewrite read_Itoa. f_equal. lia. }
    assert (Get (delete (bs "Expect") (o_Header req)) "Content-Length" = [] /\ o_Header req !! bs "Content-Length" = None \/
      exists v, read_number 10 v = Some (o_ContentLength req) /\ Get (delete (bs "Expect") (o_Header req)) "Content-Length" = v /\
        o_Header req !! bs "Content-Length" = Some [v]) as Hget.
    { unfold Get, Values. rewrite lookup_delete_ne by done. destruct Hcl as [->|(v & -> & Hv)]; [by left|right; by exists v]. }
    destruct Hget as [[-> Hc]|(v & Hv & -> & Hc)]; [rewrite str_eqb_refl; exists n|rewrite (proj2 (str_eqb_neq v [])) by (by eapply number_nonempty); exists v];
      (split; [done|]); intros k Hk; unfold framing_names in Hk; rewrite !elem_of_cons, elem_of_nil in Hk;
      destruct Hk as [->|[->|[->|[]]]]; by simplify_map_eq.
Qed.

(** The names in a head are framing names, or names of the request's header. *)
Lemma head_header_keys req k vs : head_header req !! k = Some vs -> k ∈ framing_names \/ o_Header req !! k = Some vs.
Proof.
  intros Hk. destruct (decide (k ∈ framing_names)) as [|Hin]; [by left|right]. revert Hk. unfold head_header, Set_. unfold framing_names in Hin.
  rewrite !elem_of_cons, elem_of_nil in Hin. assert (k <> bs "Content-Length" /\ k <> bs "Transfer-Encoding") as [H1 H2] by naive_solver.
  destruct (usesChunkedTransferEncoding req); cbn [negb]; rewrite ?andb_false_r, ?andb_true_r; [|case_match];
    rewrite ?lookup_insert_ne, ?(lookup_delete_ne _ (bs "Content-Length")) by done;
    (destruct (decide (k = bs "Expect")) as [->|]; [by rewrite lookup_delete_eq|]); by rewrite lookup_delete_ne.
Qed.
Lemma header_fields_in h f : f ∈ header_fields h -> exists vs v, h !! f.1 = Some vs /\ v ∈ vs /\ f.2 = clean v.
Proof.
  unfold header_fields. rewrite list_elem_of_In, in_concat. intros (l & (k & <- & Hk)%in_map_iff & Hf).
  destruct (_ || _); [done|]. apply in_map_iff in Hf as (v & <- & Hin). apply list_elem_of_In in Hk. rewrite (sort_Strings_perm (map_to_list h).*1) in Hk.
  apply list_elem_of_fmap in Hk as ([k' w] & -> & Hv%elem_of_map_to_list). cbn. exists w, v. unfold Values in Hin. cbn in Hin. rewrite Hv in Hin.
  split_and!; [done|by apply list_elem_of_In|done].
Qed.
Lemma head_header_names req K k : relayed req -> K ∈ framing_names -> is_Some (head_header req !! k) -> map lower_byte k = map lower_byte K -> k = K.
Proof.
  intros Hr HK [vs [Hin|Hk]%head_header_keys] Hlow; [|apply (rl_names req Hr K); [done|by eexists|done]].
  unfold framing_names in Hin, HK. rewrite !elem_of_cons, elem_of_nil in Hin, HK. naive_solver.
Qed.

Lemma head_framing req : relayed req -> Forall field_ok (head_fields req) /\ length (field_values "host" (head_fields req)) = 1%nat /\
  read_framing (head_fields req) = Some (if usesChunkedTransferEncoding req then Chunked else Sized (Z.to_nat (o_ContentLength req))).
Proof.
  intros Hr. destruct (rl_host req Hr) as (Hne & Hp & Ht). unfold head_fields. rewrite (proj2 (str_eqb_neq _ _) Hne). cbn [app].
  assert (forall K, K ∈ framing_names -> field_values (map lower_byte K) (header_fields (head_header req)) = map clean (Values (head_header req) K)) as Hv.
  { intros K HK. apply field_values_header; [| |intros k; by apply head_header_names]; unfold framing_names in HK; rewrite !elem_of_cons, elem_of_nil in HK; naive_solver. }
  pose proof (Hv (bs "Host") ltac:(by left)) as V1. pose proof (Hv (bs "Content-Length") ltac:(by right; left)) as V2.
  pose proof (Hv (bs "Transfer-Encoding") ltac:(by right; right; left)) as V3. unfold Values in V1, V2, V3.
  destruct (head_header_lookup req Hr) as (v & Hnum & Hlk).
  rewrite Hlk in V1, V2, V3 by ((by left) || (by right; left) || (by right; right; left)).
  rewrite decide_True in V1 by done. rewrite !decide_False in V2 by done. rewrite decide_False, decide_True in V3 by done.
  split; [constructor; [by split_and!|apply header_fields_ok]|]. unfold read_framing. unfold field_values in *. cbn [List.filter fst].
  change (str_eqb (map lower_byte (bs "Host")) "host") with true. change (str_eqb (map lower_byte (bs "Host")) "transfer-encoding") with false.
  change (str_eqb (map lower_byte (bs "Host")) "content-length") with false. cbn [map length].
  change (map lower_byte (bs "Host")) with (bs "host") in V1. change (map lower_byte (bs "Content-Length")) with (bs "content-length") in V2.
  change (map lower_byte (bs "Transfer-Encoding")) with (bs "transfer-encoding") in V3. rewrite V1, V2, V3. split; [done|].
  destruct (usesChunkedTransferEncoding req); [done|]. cbn [stdpp.option.from_option id map]. rewrite (clean_number _ _ (Hnum eq_refl)), (Hnum eq_refl). done.
Qed.

(** ** The body *)

Lemma field_lines_length fs : (length fs <= length (concat (map field_line fs)))%nat.
Proof.
  induction fs as [|[k v] fs IH]; [done|]. cbn [map concat length]. rewrite length_app. unfold field_line at 1. rewrite length_app. cbn [length]. lia.
Qed.

(** A line and fields that were written are read back, and leave the body to be read. *)
Lemma read_written line fs f x : plain line -> Forall field_ok fs -> length (field_values "host" fs) = 1%nat -> read_framing fs = Some f ->
  read_message (((line ++ crlf) ++ concat (map field_line fs) ++ crlf) ++ x) =
  '(b, r) ← read_body f x; Some ({| ms_line := line; ms_fields := fs; ms_body := b |}, r).
Proof.
  intros Hl Hf Hh Hfr. unfold read_message. rewrite <- !app_assoc, read_line_app by done. cbn [mbind option_bind]. rewrite read_fields_app; [|done|].
  - cbn [mbind option_bind]. rewrite bool_decide_eq_true_2 by done. by rewrite Hfr.
  - rewrite length_app. pose proof (field_lines_length fs). rewrite length_app. simpl. lia.
Qed.
Lemma read_head req x : relayed req -> read_message (head_bytes req ++ x) =
  '(b, r) ← read_body (if usesChunkedTransferEncoding req then Chunked else Sized (Z.to_nat (o_ContentLength req))) x;
  Some ({| ms_line := request_line req; ms_fields := head_fields req; ms_body := b |}, r).
Proof. intros Hr. destruct (head_framing req Hr) as (Hf & Hh & Hfr). apply read_written; [apply (rl_line req Hr)|done..]. Qed.

Lemma sends_then_strict t u a b : sends true t a -> sends true u b -> sends true (t ++ u) (and_then a b).
Proof.
  intros Ha Hb s. unfold and_then. specialize (Ha s). destruct (a s) as [s1 ok]. destruct Ha as [Hd Ha]. destruct ok.
  - specialize (Hb s1). rewrite Ha, Hd in Hb. by apply sends_after.
  - split; [done|]. destruct Ha as (p & q & Hp & <- & Hs). exists p, (q ++ u). rewrite app_assoc. split_and!; [done|done|]. intros _ [E _]%app_nil. by apply Hs.
Qed.

Definition nonempty (d : gostring) : bool := negb (str_eqb d []).
Lemma sends_copy (write : gostring -> act) (enc : gostring -> gostring) l : (forall d, d <> [] -> sends true (enc d) (write d)) ->
  sends true (concat (map enc (List.filter nonempty l))) (copy_reads write l).
Proof.
  intros Hw. induction l as [|d l IH]; cbn [copy_reads List.filter]; [apply sends_nothing|]. unfold nonempty at 1. destruct (str_eqb d []) eqn:E; cbn [negb].
  - by apply (sends_then_strict []), IH; apply sends_nothing.
  - cbn [map concat]. apply sends_then_strict; [|done]. by apply Hw, str_eqb_neq.
Qed.
Lemma sends_chunk d : d <> [] -> sends true (chunk_line d) (chunked_Write d).
Proof.
  intros Hd. unfold chunked_Write. cbn [puts]. replace (chunk_line d) with ((FormatHex (length d) ++ crlf) ++ d ++ crlf ++ []) by (unfold chunk_line; by rewrite app_nil_r, <- app_assoc).
  apply sends_then; [apply sends_put_any| |by intros _ [? _]%app_nil]. apply sends_then; [apply sends_put_any| |done].
  apply sends_then_strict; [by apply sends_put|apply sends_nothing].
Qed.
Lemma concat_nonempty l : concat (List.filter nonempty l) = concat l.
Proof.
  induction l as [|d l IH]; [done|]. cbn [List.filter concat]. unfold nonempty at 1. destruct (str_eqb d []) eqn:E; cbn [negb concat]; [|by rewrite IH].
  apply str_eqb_eq in E as ->. done.
Qed.
Lemma filter_nonempty l : Forall (fun d => d <> []) (List.filter nonempty l).
Proof. apply Forall_forall. intros d Hd. apply list_elem_of_In, List.filter_In in Hd as [_ Hd]. unfold nonempty in Hd. by apply negb_true_iff, str_eqb_neq in Hd. Qed.

Lemma chunk_lines_length ds : (length ds <= length (concat (map chunk_line ds)))%nat.
Proof.
  induction ds as [|d ds IH]; [done|]. cbn [map concat length]. rewrite length_app. unfold chunk_line at 1. rewrite !length_app. simpl. lia.
Qed.

Definition content (req : out_request) : gostring := match o_Body req with Some b => concat (reads b) | None => [] end.
Definition body_fine (req : out_request) : bool := match o_Body req with Some b => body_ok b | None => true end.

(** What is judged of a run that has sent the head and gone on to [s]. *)
Definition judged (req : out_request) (s : wire) (ok : bool) : Prop :=
  if ok then read_message (up s) = Some ({| ms_line := request_line req; ms_fields := head_fields req; ms_body := content req |}, [])
  else read_message (up s) = None.

Lemma put_close s : let '(s', ok) := chunked_Close s in down s' = down s /\ exists z, up s' = up s ++ z /\ if ok then z = bs "0" ++ crlf else z `prefix_of` (bs "0" ++ crlf).
Proof.
  unfold chunked_Close, put. split; [done|]. destruct (short (writes s)) as [k|]; cbn [up]; [|by eexists].
  eexists. split; [done|]. set (b := bs "0" ++ crlf). exists (drop (Nat.min k (pred (length b))) b). by rewrite take_drop.
Qed.

(** The chunked body. *)
Lemma chunked_body req s : relayed req -> usesChunkedTransferEncoding req = true -> up s = head_bytes req ->
  let '(s', ok) := (let '(s, ok) := match o_Body req with Some b => io_Copy chunked_Write b s | None => (s, true) end in
                    if negb ok then ((chunked_Close s).1, false) else and_then chunked_Close (put Upstream crlf) s) in
  down s' = down s /\ judged req s' ok /\ ((forall n, short n = None) -> body_fine req = true -> ok = true).
Proof.
  intros Hr Hc Hs. set (ds := List.filter nonempty (match o_Body req with Some b => reads b | None => [] end)).
  assert (content req = concat ds) as Hcon by (unfold content, ds; destruct (o_Body req); [by rewrite concat_nonempty|done]).
  assert (Forall (fun d => d <> []) ds) as Hds by apply filter_nonempty.
  set (m := match o_Body req with Some b => io_Copy chunked_Write b s | None => (s, true) end).
  assert (let '(s1, ok) := m in down s1 = down s /\ (exists p q, up s1 = head_bytes req ++ p /\ p ++ q = concat (map chunk_line ds) /\ (ok = true -> q = [])) /\
    ((forall n, short n = None) -> body_fine req = true -> ok = true)) as Hm.
  { unfold m, ds, body_fine. destruct (o_Body req) as [b|]; [|split_and!; [done|exists [], []; by rewrite app_nil_r|done]]. unfold io_Copy, and_then.
    pose proof (sends_copy chunked_Write chunk_line (reads b) sends_chunk s) as Hsend.
    pose proof (fun H => sure_copy chunked_Write (reads b) (fun d => sure_puts _) H s) as Hsure.
    destruct (copy_reads chunked_Write (reads b) s) as [s1 []]; rewrite Hs in Hsend; destruct Hsend as [Hd Hsend].
    - split_and!; [done| |by intros _ ->]. exists (concat (map chunk_line (List.filter nonempty (reads b)))), []. by rewrite app_nil_r.
    - destruct Hsend as (p & q & Hp & Hq & _). split_and!; [done|by exists p, q|intros H; by apply Hsure in H]. }
  destruct m as [s1 ok]. destruct Hm as (Hd & (p & q & Hp & Hq & Hok) & Hsure). destruct ok; cbn [negb].
  - specialize (Hok eq_refl) as ->. rewrite app_nil_r in Hq. subst p.
    pose proof (sends_then_strict _ _ _ _ (sends_put (bs "0" ++ crlf) ltac:(done)) (sends_put crlf ltac:(done)) s1) as Hsend. fold chunked_Close in Hsend.
    pose proof (fun H => sure_then _ _ (sure_put _ _) (sure_put _ _) H s1 : (and_then chunked_Close (put Upstream crlf) s1).2 = true) as Hsure'.
    destruct (and_then chunked_Close (put Upstream crlf) s1) as [s2 ok]. destruct Hsend as [Hd' Hsend]. split; [congruence|]. split; [|auto].
    assert (read_message (head_bytes req ++ concat (map chunk_line ds) ++ last_chunk) =
      Some ({| ms_line := request_line req; ms_fields := head_fields req; ms_body := content req |}, [])) as Hfull.
    { rewrite read_head, Hc, Hcon by done. cbn [read_body]. pose proof (chunk_lines_length ds). rewrite <- (app_nil_r last_chunk) at 2. rewrite read_chunks_app; [done..|].
      rewrite length_app. simpl. lia. }
    destruct ok; unfold judged; [|destruct Hsend as (p & q & Hs2 & Hpq & Hne)]; [by rewrite Hsend, Hp, <- app_assoc|].
    eapply (read_message_prefix _ q); [by apply Hne|]. rewrite Hs2, Hp, <- !app_assoc, Hpq. exact Hfull.
  - pose proof (put_close s1) as Hz. destruct (chunked_Close s1) as [s2 ok]. cbn [fst]. destruct Hz as [Hd' (z & Hz & Hpre)]. split_and!; [congruence| |done].
    unfold judged. rewrite Hz, Hp, <- app_assoc, read_head, Hc by done. cbn [read_body]. rewrite (read_chunks_cut _ ds p q z); [done..|].
    by destruct ok; [subst z|].
Qed.

(** The body of a known length. *)
Lemma sized_body req s : relayed req -> usesChunkedTransferEncoding req = false -> up s = head_bytes req ->
  let '(s', ok) := (match o_Body req with None => nothing | Some b => io_Copy (put Upstream) b end) s in
  down s' = down s /\ judged req s' ok /\ ((forall n, short n = None) -> body_fine req = true -> ok = true).
Proof.
  intros Hr Hc Hs. destruct (rl_length req Hr Hc) as (Hn & _ & Hb). cbv zeta in Hb. unfold body_fine, judged, content.
  assert (forall x, (length x = Z.to_nat (o_ContentLength req))%nat -> read_message (head_bytes req ++ x) =
    Some ({| ms_line := request_line req; ms_fields := head_fields req; ms_body := x |}, [])) as Hfull.
  { intros x Hx. rewrite read_head, Hc by done. cbn [read_body]. unfold read_bytes. rewrite <- Hx, Nat.leb_refl, firstn_all, drop_all. done. }
  assert (forall x, (length x < Z.to_nat (o_ContentLength req))%nat -> read_message (head_bytes req ++ x) = None) as Hpart.
  { intros x Hx. rewrite read_head, Hc by done. cbn [read_body]. unfold read_bytes.
    destruct (Nat.leb_spec (Z.to_nat (o_ContentLength req)) (length x)); [lia|done]. }
  destruct (o_Body req) as [b|].
  - unfold io_Copy, and_then. pose proof (sends_copy (put Upstream) id (reads b) sends_put s) as Hsend.
    pose proof (fun H => sure_copy (put Upstream) (reads b) (sure_put _) H s) as Hsure. rewrite map_id, concat_nonempty in Hsend.
    destruct (copy_reads (put Upstream) (reads b) s) as [s1 []]; rewrite Hs in Hsend; destruct Hsend as [Hd Hsend].
    + split_and!; [done| |done]. rewrite Hsend. destruct (body_ok b); [apply Hfull|apply Hpart]; lia.
    + split_and!; [done| |intros H; by apply Hsure in H]. destruct Hsend as (p & q & -> & Hpq & Hq). apply Hpart.
      apply (f_equal length) in Hpq. rewrite length_app in Hpq. assert (length q <> 0)%nat by (intros E; apply Hq; [done|by apply length_zero_iff_nil]).
      destruct (body_ok b); lia.
  - cbn. split_and!; [done| |done]. rewrite Hs, <- (app_nil_r (head_bytes req)). apply Hfull. by rewrite Hb.
Qed.

(** Some body completes the head. *)
Lemma head_completes req : relayed req -> exists x m, read_message (head_bytes req ++ x) = Some (m, []).
Proof.
  intros Hr. destruct (usesChunkedTransferEncoding req) eqn:Hc.
  - exists last_chunk. eexists. rewrite read_head, Hc by done. cbn [read_body]. done.
  - exists (replicate (Z.to_nat (o_ContentLength req)) " "%char). eexists. rewrite read_head, Hc by done. cbn [read_body]. unfold read_bytes.
    rewrite length_replicate, Nat.leb_refl, drop_ge by (rewrite length_replicate; lia). done.
Qed.

(** What a run of [writeUpstreamRequest] for a request with a 100-continue leaves: one message, or none. *)
Definition one_or_none (req : out_request) (r : wire * bool) : Prop :=
  let '(s, ok) := r in
  (if ok then read_message (up s) = Some ({| ms_line := request_line req; ms_fields := head_fields req; ms_body := content req |}, []) /\ down s = continue_line
   else read_message (up s) = None \/ (usesChunkedTransferEncoding req = false /\ o_ContentLength req = 0 /\ down s <> continue_line)) /\
  ((forall n, short n = None) -> body_fine req = true -> ok = true).

Lemma continue_one_or_none (request_Write : out_request -> act) req : relayed req -> one_or_none req (writeUpstreamRequest request_Write req true blank_wire).
Proof.
  intros Hr. unfold one_or_none, writeUpstreamRequest. cbn [negb]. unfold and_then at 1. pose proof (sends_head req blank_wire) as Hh.
  pose proof (fun H => sure_head req H blank_wire) as Hsure. destruct (writeRequestHead req blank_wire) as [s ok]. cbn [up down blank_wire app] in Hh.
  destruct Hh as [Hd Hh]. destruct ok.
  - unfold and_then at 1. destruct (put Downstream continue_line s) as [s1 ok] eqn:Ep.
    assert (up s1 = head_bytes req /\ if ok then down s1 = continue_line else down s1 <> continue_line /\ ~ forall n, short n = None) as [Hu1 Hd1].
    { unfold put in Ep. injection Ep as <- <-. cbn [up down]. rewrite Hd. split; [done|]. destruct (short (writes s)) as [k|] eqn:Ek; [|done]. cbn [app]. split.
      - intros E. apply (f_equal length) in E. rewrite length_take in E. simpl in E. lia.
      - intros H. by rewrite H in Ek. }
    destruct ok; [|split; [|by intros H; destruct Hd1]].
    + assert (forall s2 ok2, down s2 = down s1 /\ judged req s2 ok2 /\ ((forall n, short n = None) -> body_fine req = true -> ok2 = true) ->
        (if ok2 then read_message (up s2) = Some ({| ms_line := request_line req; ms_fields := head_fields req; ms_body := content req |}, []) /\ down s2 = continue_line
         else read_message (up s2) = None \/ (usesChunkedTransferEncoding req = false /\ o_ContentLength req = 0 /\ down s2 <> continue_line)) /\
        ((forall n, short n = None) -> body_fine req = true -> ok2 = true)) as Hdone.
      { intros s2 ok2 (E & Hj & Hs2). split; [|done]. destruct ok2; [split; [done|congruence]|by left]. }
      destruct (usesChunkedTransferEncoding req) eqn:Hc.
      * pose proof (chunked_body req s1 Hr Hc Hu1) as Hbody. cbv beta in Hbody |- *. destruct (let '(s2, ok) := _ in _) as [s2 ok2]. by apply Hdone.
      * pose proof (sized_body req s1 Hr Hc Hu1) as Hbody. destruct ((match o_Body req with None => nothing | Some b => io_Copy (put Upstream) b end) s1) as [s2 ok2]. by apply Hdone.
    + destruct (usesChunkedTransferEncoding req) eqn:Hc.
      * left. rewrite Hu1, <- (app_nil_r (head_bytes req)), read_head, Hc by done. done.
      * destruct (rl_length req Hr Hc) as (Hn & _). destruct (decide (o_ContentLength req = 0)) as [E|E]; [right; by destruct Hd1|left].
        rewrite Hu1, <- (app_nil_r (head_bytes req)), read_head, Hc by done. cbn [read_body]. unfold read_bytes.
        destruct (Nat.leb_spec (Z.to_nat (o_ContentLength req)) (length ([] : gostring))) as [Hl|]; [simpl in Hl; lia|done].
  - split; [|by intros H; apply Hsure in H]. left. destruct Hh as (p & q & -> & Hpq & Hq). destruct (head_completes req Hr) as (x & m & Hx).
    eapply (read_message_prefix p (q ++ x)); [by intros [? _]%app_nil; apply Hq|]. rewrite app_assoc, Hpq. exact Hx.
Qed.

(** A request forwarded after a 100-continue arrives as exactly one message or as none.  If the call
    succeeds, a strict reader finds on the upstream connection one request with the line, the host and the
    fields of the relayed one, one framing, and exactly the bytes that the client's body delivered, and
    nothing after it; the client has been told to continue.  If it fails, at whatever write or read of the
    body, no complete request has been sent, unless the request has no body and only the client's
    connection failed.  Without failures it succeeds. *)
Theorem expect_continue_one_message (request_Write : out_request -> act) req : relayed req ->
  let '(s, ok) := writeUpstreamRequest request_Write req true blank_wire in
  (if ok then read_message (up s) = Some ({| ms_line := request_line req; ms_fields := head_fields req; ms_body := content req |}, []) /\ down s = continue_line
   else read_message (up s) = None \/ (usesChunkedTransferEncoding req = false /\ o_ContentLength req = 0 /\ down s <> continue_line)) /\
  ((forall n, short n = None) -> body_fine req = true -> ok = true).
Proof. apply (continue_one_or_none request_Write). Qed.
End Write.

Definition demo_post : out_request :=
  {| o_Method := "POST"; o_RequestURI := "/v1/chat?x=1"; o_Host := "api.example.com"; o_URLHost := [];
     o_Header := {[ bs "Accept" := [bs "*/*"]; bs "Expect" := [bs "100-continue"] ]};
     o_TransferEncoding := [bs "chunked"]; o_ContentLength := -1;
     o_Body := Some {| reads := [bs "hello "; []; bs "world"]; body_ok := true |} |}.

Lemma demo_post_relayed : relayed (U := ascii_only) demo_post.
Proof.
  split.
  - by repeat constructor.
  - split_and!; [done|by repeat constructor|by vm_compute].
  - intros K k HK Hk Hlow. assert (k ∈ [bs "Accept"; bs "Expect"]) as Hin.
    { revert Hk. cbn [o_Header demo_post]. rewrite !elem_of_cons. destruct (decide (k = bs "Accept")) as [->|?]; [auto|].
      destruct (decide (k = bs "Expect")) as [->|?]; [auto|]. rewrite lookup_insert_ne, lookup_singleton_ne by congruence. by intros []. }
    rewrite !elem_of_cons, elem_of_nil in Hin. unfold framing_names in HK. rewrite !elem_of_cons, elem_of_nil in HK.
    destruct Hin as [->|[->|[]]], HK as [->|[->|[->|[]]]]; by vm_compute in Hlow.
  - split; by vm_compute.
  - intros H. by vm_compute in H.
Qed.

Lemma expect_continue_one_message_witness :
  let '(s, ok) := writeUpstreamRequest (U := ascii_only) (fun _ => None) (fun _ => nothing) demo_post true blank_wire in
  ok = true /\ ms_body <$> (fst <$> read_message (up s)) = Some (bs "hello world") /\ down s = continue_line.
Proof.
  pose proof (expect_continue_one_message (U := ascii_only) (fun _ => None) (fun _ => nothing) demo_post demo_post_relayed) as H.
  destruct (writeUpstreamRequest _ _ _ _ _) as [s ok]. destruct H as [H1 H2]. rewrite (H2 (fun _ => eq_refl) eq_refl) in *.
  destruct H1 as [H1 H3]. split; [reflexivity|]. split; [rewrite H1; reflexivity|exact H3].
Defined.

(** ** Hop-by-hop headers of the response *)

(** [http.CanonicalHeaderKey]: a name that is not a token is left alone. *)
Fixpoint canonical_bytes (upper : bool) (s : gostring) : gostring :=
  match s with
  | [] => []
  | c :: s => (if upper then if is_lower c then byte_of (code c - 32) else c else lower_byte c) :: canonical_bytes (ascii_eqb c "-") s
  end.
Definition CanonicalHeaderKey (s : gostring) : gostring := if validHeaderName s then canonical_bytes true s else s.

Definition connectionTokenNames `{U : Unicode} (values : list gostring) : list gostring :=
  map CanonicalHeaderKey (List.filter nonempty (map TrimSpace (concat (map (fun v => Split v ",") values)))).

Definition hopByHopNames : list gostring :=
  [bs "Connection"; bs "Keep-Alive"; bs "Proxy-Authenticate"; bs "Proxy-Authorization"; bs "Proxy-Connection"; bs "TE"; bs "Trailer";
   bs "Transfer-Encoding"; bs "Upgrade"].
Definition Del (h : Header) (name : gostring) : Header := delete (CanonicalHeaderKey name) h.
Definition stripHopByHop `{U : Unicode} (h : Header) : Header :=
  fold_left Del hopByHopNames (fold_left Del (connectionTokenNames (Values h "Connection")) h).

Lemma fold_Del names : forall (h : Header) k, fold_left Del names h !! k = if decide (k ∈ map CanonicalHeaderKey names) then None else h !! k.
Proof.
  induction names as [|n names IH]; intros h k; cbn [fold_left map]; [done|]. rewrite IH. unfold Del.
  destruct (decide (k ∈ map CanonicalHeaderKey names)) as [H1|H1], (decide (k ∈ CanonicalHeaderKey n :: map CanonicalHeaderKey names)) as [H2|H2];
    rewrite elem_of_cons in H2; try tauto.
  - destruct H2 as [->|?]; [by rewrite lookup_delete_eq|done].
  - rewrite lookup_delete_ne by naive_solver. done.
Qed.

(** Exactly the hop-by-hop names and the names that the response's Connection header nominates are removed. *)
Lemma stripHopByHop_lookup `{U : Unicode} h k : stripHopByHop h !! k =
  if decide (k ∈ map CanonicalHeaderKey hopByHopNames \/ k ∈ map CanonicalHeaderKey (connectionTokenNames (Values h "Connection"))) then None else h !! k.
Proof. unfold stripHopByHop. rewrite !fold_Del. repeat destruct (decide _); tauto. Qed.

(** ** The progress watchdog *)

(** [progress_interval]: the period of the ticker; [None] when no watchdog runs. *)
Definition progress_interval (deadline : Duration) : option Duration :=
  let interval := Z.quot deadline 4 in
  let interval := if interval <=? 0 then deadline else interval in
  if interval <=? 0 then None else Some interval.

(** The reads and writes of a relay by the connection they go through.  The agent's connection is wrapped in a [progressConn] for the response only: the
    request body is read through [cs.br], over the bare connection, and the interim 100 response is written to it. *)
Inductive channel := AgentBody | AgentInterim | AgentResponse | UpstreamRequest | UpstreamResponse.
Definition stamps (c : channel) : bool := match c with AgentBody | AgentInterim => false | AgentResponse | UpstreamRequest | UpstreamResponse => true end.

(** A read or write that moved [n] bytes, and a tick of the ticker that the watchdog receives. *)
Inductive progress_event := Moved (c : channel) (n : nat) (t : Time) | Tick (t : Time).
Definition event_time (e : progress_event) : Time := match e with Moved _ _ t | Tick t => t end.
(** [progressConn.Read], [progressConn.Write] and [touch]: the new stamp. *)
Definition touch (stamp : Time) (e : progress_event) : Time :=
  match e with Moved c n t => if stamps c && (0 <? n)%nat then t else stamp | Tick _ => stamp end.

(** [watchProgress]: the time at which it closes the connections, if it does. *)
Fixpoint watchProgress (deadline : Duration) (stamp : Time) (evs : list progress_event) : option Time :=
  match evs with
  | [] => None
  | Tick now :: evs => if Sub now stamp <? deadline then watchProgress deadline stamp evs else Some now
  | e :: evs => watchProgress deadline (touch stamp e) evs
  end.

(** When bytes last moved through a connection that is stamped. *)
Definition last_touch (start : Time) (evs : list progress_event) : Time := fold_left touch evs start.

(** Events in the order of time, and no later than [period] after the last tick that the watchdog received: the period of the ticker, or longer where
    the goroutine is late and ticks are dropped. *)
Fixpoint paced (period : Duration) (lastTick now : Time) (evs : list progress_event) : Prop :=
  match evs with
  | [] => True
  | e :: evs => now <= event_time e <= lastTick + period /\
                paced period (match e with Tick t => t | Moved _ _ _ => lastTick end) (event_time e) evs
  end.

Lemma Sub_ltb t s d : s <= t -> d < 2 ^ 63 -> (Sub t s <? d) = (t - s <? d).
Proof. intros. unfold Sub. destruct (Z.ltb_spec (t - s) d), (Z.ltb_spec (Z.max (- 2 ^ 63) (Z.min (2 ^ 63 - 1) (t - s))) d); lia. Qed.

Lemma progress_interval_bounds d i : progress_interval d = Some i -> 0 < i <= d.
Proof.
  unfold progress_interval. pose proof (Z.quot_rem d 4 ltac:(lia)). pose proof (Z.rem_bound_abs d 4 ltac:(lia)).
  destruct (Z.leb_spec (Z.quot d 4) 0); cbn zeta; case_match; intros [= <-]; lia.
Qed.

(** C28: the watchdog ends a relay that stands still, as the connections it stamps show it.  Progress is a read or write of at least one byte on
    the upstream's connection or of the response to the agent; bytes of the request body that the agent sends, and the interim response, do not count
    ([trickling_upload_is_cut]).  The watchdog fires only at a tick at which there was no progress for the whole deadline; and while it
    has not fired, no event is as late as the deadline and one period after the last progress, where the period is the longest time between two
    ticks it receives, a quarter of the deadline when it is scheduled on time: a peer that sends nothing cannot hold the connection longer. *)
Theorem watchdog_bounds deadline interval period start evs :
  progress_interval deadline = Some interval -> deadline < 2 ^ 63 -> interval <= period -> paced period start start evs ->
  (forall pre e post, evs = pre ++ e :: post -> watchProgress deadline start pre = None -> event_time e < last_touch start pre + deadline + period) /\
  (forall t, watchProgress deadline start evs = Some t ->
     exists pre post, evs = pre ++ Tick t :: post /\ watchProgress deadline start pre = None /\ last_touch start pre + deadline <= t).
Proof.
  intros [Hi Hid]%progress_interval_bounds Hd Hper.
  assert (forall tick now stamp, tick < stamp + deadline -> stamp <= now -> paced period tick now evs ->
    (forall pre e post, evs = pre ++ e :: post -> watchProgress deadline stamp pre = None -> event_time e < last_touch stamp pre + deadline + period) /\
    (forall t, watchProgress deadline stamp evs = Some t ->
       exists pre post, evs = pre ++ Tick t :: post /\ watchProgress deadline stamp pre = None /\ last_touch stamp pre + deadline <= t)) as H;
    [|intros Hp; apply (H start start start); [lia|lia|done]].
  induction evs as [|e evs IH]; intros tick now stamp H1 H2 Hp; [split; [by intros []|done]|]. destruct Hp as [Ht Hp]. destruct e as [c n t|t]; cbn [event_time] in *.
  - assert (stamp <= touch stamp (Moved c n t) <= t) as Hs by (cbn [touch]; destruct (_ && _); lia).
    destruct (IH tick t (touch stamp (Moved c n t))) as [IH1 IH2]; [lia|lia|done|]. split.
    + intros [|p pre] e post; intros [= <- E]; [cbn; lia|]. intros Hw. by apply (IH1 pre e post E).
    + intros u (pre & post & -> & Hw & Hl)%IH2. by exists (Moved c n t :: pre), post.
  - cbn [watchProgress]. rewrite Sub_ltb by lia. destruct (Z.ltb_spec (t - stamp) deadline) as [Hlt|Hge].
    + destruct (IH t t stamp) as [IH1 IH2]; [lia|lia|done|]. split.
      * intros [|p pre] e post; intros [= <- E]; [cbn; lia|]. cbn [watchProgress]. rewrite Sub_ltb by lia. destruct (Z.ltb_spec (t - stamp) deadline); [|lia].
        by apply (IH1 pre e post E).
      * intros u (pre & post & -> & Hw & Hl)%IH2. exists (Tick t :: pre), post. split_and!; [done| |done]. cbn [watchProgress]. rewrite Sub_ltb by lia.
        destruct (Z.ltb_spec (t - stamp) deadline); [done|lia].
    + split; [|intros u [= <-]; exists [], evs; cbn; split_and!; [done|done|lia]].
      intros [|p pre] e post; intros [= <- E]; [cbn; lia|]. cbn [watchProgress]. rewrite Sub_ltb by lia. destruct (Z.ltb_spec (t - stamp) deadline); [lia|done].
Qed.

Lemma watchdog_bounds_witness :
  watchProgress 8 0 [Tick 2; Moved AgentResponse 5 3; Tick 4; Tick 6; Moved AgentBody 5 7; Tick 8; Tick 10; Tick 12] = Some 12 /\
  exists pre post, [Tick 2; Moved AgentResponse 5 3; Tick 4; Tick 6; Moved AgentBody 5 7; Tick 8; Tick 10; Tick 12] = pre ++ Tick 12 :: post /\ last_touch 0 pre + 8 <= 12.
Proof.
  split; [reflexivity|].
  destruct (proj2 (watchdog_bounds 8 2 2 0 [Tick 2; Moved AgentResponse 5 3; Tick 4; Tick 6; Moved AgentBody 5 7; Tick 8; Tick 10; Tick 12] eq_refl eq_refl
    ltac:(lia) ltac:(cbn; lia)) 12 eq_refl) as (pre & post & H1 & H2 & H3).
  exists pre, post. split; [exact H1|exact H3].
Defined.

(** The design wraps both connections, for both directions.  An agent that uploads steadily, a little before every tick, while nothing of it has to be written to the
    upstream yet, is cut off at the deadline. *)
Lemma trickling_upload_is_cut :
  watchProgress (60 * Second) 0 (concat (map (fun k => [Moved AgentBody 100 (k * 15 * Second - 1); Tick (k * 15 * Second)]) [1; 2; 3; 4])) = Some (60 * Second).
Proof. reflexivity. Qed.
