(* ===== verification/RequestWrite.v ===== *)
(** * [http.Request.Write], as the relay uses it

    A request without a 100-continue is written by net/http: [Request.Write] and its transfer writer, here for a
    request that goes to an origin server.  The writer is buffered: how the bytes are cut into writes is a
    parameter, and so is how many of them have left the buffer when the body turns out to be bad. *)

From S2P Require Import Prelude GoStrings GoRuntime RawHead Wire Relay.
#[local] Open Scope Z_scope.

(** ** Hosts and tokens *)

(** [httpguts.ValidHostHeader]. *)
Definition validHostByte (c : ascii) : bool := is_lower c || is_upper c || is_digit c || ContainsByte (bs "!$%&'()*+,-.:;=[]_~") c.

(** [removeZone]. *)
Definition removeZone (host : gostring) : gostring :=
  if negb (HasPrefix host "[") then host
  else match LastIndexByte host "]" with
       | None => host
       | Some i => match LastIndexByte (take i host) "%" with None => host | Some j => take j host ++ drop i host end
       end.

Definition isTokenBoundary (c : ascii) : bool := ascii_eqb c " " || ascii_eqb c "," || ascii_eqb c chr_tab.
(** [hasToken]: [token] at one of the positions of [v], between boundaries. *)
Definition hasToken (v token : gostring) : bool :=
  if (length v <? length token)%nat || str_eqb token [] then false
  else if str_eqb v token then true
  else existsb (fun sp =>
         (match sp with O => true | S p => from_option isTokenBoundary true (v !! p) end) &&
         from_option isTokenBoundary true (v !! (sp + length token)%nat) &&
         str_eqb (map lower_byte (take (length token) (drop sp v))) (map lower_byte token))
       (seq 0 (S (length v - length token))).

Definition is_ctl (c : ascii) : bool := (code c <? 32) || (code c =? 127).

(** ** The transfer writer *)

Record transferWriter := { t_Body : option body; t_TransferEncoding : list gostring; t_ContentLength : Z }.

Definition chunked (te : list gostring) : bool := match te with t :: _ => str_eqb t "chunked" | [] => false end.
Definition is_Body (b : option body) : bool := match b with Some _ => true | None => false end.

Definition requestMethodUsuallyLacksBody (method : gostring) : bool :=
  bool_decide (method ∈ [bs "GET"; bs "HEAD"; bs "DELETE"; bs "OPTIONS"; bs "PROPFIND"; bs "SEARCH"]).

Definition outgoingLength (req : out_request) : Z :=
  if negb (is_Body (o_Body req)) then 0 else if negb (o_ContentLength req =? 0) then o_ContentLength req else -1.

(** [newTransferWriter]; [None] is its error.  [probed]: the probe of a body of unknown length found it empty. *)
Definition newTransferWriter (probed : bool) (req : out_request) : option transferWriter :=
  if negb (o_ContentLength req =? 0) && negb (is_Body (o_Body req)) then None
  else
    let len := outgoingLength req in
    let unknown := (len <? 0) && bool_decide (o_TransferEncoding req = []) && is_Body (o_Body req) && negb (str_eqb (o_Method req) "CONNECT") in
    let empty := unknown && requestMethodUsuallyLacksBody (o_Method req) && probed in
    let body := if empty then None else o_Body req in
    let len := if empty then 0 else len in
    let te := if unknown && negb empty then [bs "chunked"] else o_TransferEncoding req in
    let te := if is_Body body then te else [] in
    Some {| t_Body := body; t_TransferEncoding := te; t_ContentLength := if chunked te then -1 else if is_Body body then len else 0 |}.

Definition shouldSendContentLength (method : gostring) (t : transferWriter) : bool :=
  if chunked (t_TransferEncoding t) then false
  else if 0 <? t_ContentLength t then true
  else if t_ContentLength t <? 0 then false
  else if bool_decide (method ∈ [bs "POST"; bs "PUT"; bs "PATCH"]) then true
  else if bool_decide (t_TransferEncoding t = [bs "identity"]) then negb (bool_decide (method ∈ [bs "GET"; bs "HEAD"])) else false.

(** The trailer of a request: the names declared in its head, and the fields that the reader of the body has merged into
    the same map by the end of the body. *)
Record trailer := { tr_declared : list gostring; tr_received : Header }.

(** The declared names as [writeHeader] lists them; [None] is a bad trailer key. *)
Definition trailer_keys (t : trailer) : option (list gostring) :=
  let keys := map CanonicalHeaderKey (tr_declared t) in
  if existsb (fun k => bool_decide (k ∈ [bs "Transfer-Encoding"; bs "Trailer"; bs "Content-Length"])) keys then None else Some (sort_Strings keys).

Section RequestWrite.
(** [idna] on a host that is not ASCII. *)
Context (punycode : gostring -> option gostring).

Definition host_value (host : gostring) : option gostring :=
  host ← (if all_ascii host then Some host else punycode host);
  if forallb validHostByte host then Some (removeZone host) else None.

Definition connection_field (close : bool) (h : Header) : list (gostring * gostring) :=
  if close && negb (hasToken (Get h "Connection") "close") then [(bs "Connection", bs "close")] else [].
Definition framing_field (method : gostring) (t : transferWriter) : list (gostring * gostring) :=
  if shouldSendContentLength method t then [(bs "Content-Length", Itoa (Z.to_nat (t_ContentLength t)))]
  else if chunked (t_TransferEncoding t) then [(bs "Transfer-Encoding", bs "chunked")] else [].
Definition transfer_fields (req : out_request) (close : bool) (tr : option trailer) (t : transferWriter) : option (list (gostring * gostring)) :=
  let own := connection_field close (o_Header req) ++ framing_field (o_Method req) t in
  match tr with
  | Some tr => if chunked (t_TransferEncoding t) then
                 keys ← trailer_keys tr; Some (own ++ if bool_decide (keys = []) then [] else [(bs "Trailer", Join keys ",")])
               else Some own
  | None => Some own
  end.

(** [writeBody]: the bytes, and whether it returns without an error. *)
Definition body_bytes (tr : option trailer) (t : transferWriter) : gostring * bool :=
  match t_Body t with
  | None => ([], true)
  | Some b =>
      if chunked (t_TransferEncoding t) then
        (concat (map chunk_line (List.filter nonempty (reads b))) ++
         (if body_ok b then bs "0" ++ crlf ++ concat (map field_line (from_option (fun tr => header_fields (tr_received tr)) [] tr)) ++ crlf else []), body_ok b)
      else if t_ContentLength t =? -1 then (concat (reads b), body_ok b)
      else (take (Z.to_nat (t_ContentLength t)) (concat (reads b)), body_ok b && (Z.of_nat (length (concat (reads b))) =? t_ContentLength t))
  end.

Definition reqWriteExcludeHeader : list gostring := [bs "Host"; bs "User-Agent"; bs "Content-Length"; bs "Transfer-Encoding"; bs "Trailer"].
Definition writeSubset (h : Header) : Header := filter (fun kv => kv.1 ∉ reqWriteExcludeHeader) h.

Definition user_agent (h : Header) : list (gostring * gostring) :=
  let ua := match h !! bs "User-Agent" with Some _ => Get h "User-Agent" | None => bs "Go-http-client/1.1" end in
  if str_eqb ua [] then [] else [(bs "User-Agent", clean ua)].

(** The bytes handed to the buffered writer before [write] returns, and whether it returns without an error of its own. *)
Definition request_bytes (probed close : bool) (tr : option trailer) (req : out_request) : gostring * bool :=
  match host_value (head_host req) with
  | None => ([], false)
  | Some host =>
      if existsb is_ctl (o_RequestURI req) then ([], false)
      else
        let line := (if str_eqb (o_Method req) [] then bs "GET" else o_Method req) ++ " "%char :: o_RequestURI req ++ bs " HTTP/1.1" in
        let first := (bs "Host", host) :: user_agent (o_Header req) in
        match newTransferWriter probed req with
        | None => ((line ++ crlf) ++ concat (map field_line first), false)
        | Some t =>
            match transfer_fields req close tr t with
            | None => ((line ++ crlf) ++ concat (map field_line first), false)
            | Some framing =>
                let fields := first ++ framing ++ header_fields (writeSubset (o_Header req)) in
                let '(b, ok) := body_bytes tr t in
                (((line ++ crlf) ++ concat (map field_line fields) ++ crlf) ++ b, ok)
            end
        end
  end.

(** [bufio.Writer]: the bytes go out in order, in writes that are not empty; an error of a write is returned at once, and an
    error of the body leaves in the buffer what has not been flushed. *)
Context (short : nat -> option nat).
Context (cuts : gostring -> list gostring) (flushed : nat).
Definition request_Write (probed close : bool) (tr : option trailer) (req : out_request) : act :=
  let '(b, ok) := request_bytes probed close tr req in
  if ok then puts short (cuts b) else fun s => ((puts short (cuts (take flushed b)) s).1, false).

Class Buffered := { cuts_concat b : concat (cuts b) = b; cuts_nonempty b : Forall (fun d => d <> []) (cuts b) }.
End RequestWrite.

(** ** One message or none *)

(** What [http.ReadRequest] leaves of the framing: nothing or chunked; a body unless it is empty; and a method. *)
Record framed (req : out_request) : Prop := {
  fr_method : o_Method req <> [];
  fr_target : o_RequestURI req <> [] /\ existsb is_ctl (o_RequestURI req) = false;
  fr_coding : (o_TransferEncoding req = [] /\ (o_ContentLength req = 0 <-> o_Body req = None)) \/
              (o_TransferEncoding req = [bs "chunked"] /\ is_Some (o_Body req) /\ o_ContentLength req <> 0)
}.

Section Theorems.
Context `{U : Unicode} (punycode : gostring -> option gostring).

Definition written_transfer (req : out_request) : transferWriter :=
  {| t_Body := o_Body req; t_TransferEncoding := o_TransferEncoding req;
     t_ContentLength := if usesChunkedTransferEncoding req then -1 else o_ContentLength req |}.

Lemma framed_chunked req : framed req -> usesChunkedTransferEncoding req = chunked (o_TransferEncoding req).
Proof. unfold usesChunkedTransferEncoding. intros [_ _ [[-> _]|[-> _]]]; reflexivity. Qed.

Lemma framed_transfer probed req : relayed req -> framed req -> newTransferWriter probed req = Some (written_transfer req).
Proof.
  intros Hr Hf. pose proof (framed_chunked req Hf) as Hc. unfold newTransferWriter, written_transfer, outgoingLength. destruct Hf as [_ _ [[Ht Hb]|(Ht & [b Hb] & Hz)]]; rewrite Ht in *.
  - destruct (rl_length req Hr Hc) as (Hn & _). rewrite Hc. destruct (o_Body req) as [b|] eqn:Eb; cbn [is_Body negb].
    + assert (o_ContentLength req <> 0) by (intros E; by apply Hb in E). destruct (Z.eqb_spec (o_ContentLength req) 0); [done|]. cbn [negb andb].
      destruct (Z.ltb_spec (o_ContentLength req) 0); [lia|]. done.
    + assert (o_ContentLength req = 0) as -> by by apply Hb. done.
  - rewrite Hc, Hb. cbn. rewrite !andb_false_r. done.
Qed.

Definition written_fields (close : bool) (req : out_request) : list (gostring * gostring) :=
  (bs "Host", head_host req) :: user_agent (o_Header req) ++ default [] (transfer_fields req close None (written_transfer req)) ++
  header_fields (writeSubset (o_Header req)).

(** An excluded name does not appear among the fields, in no spelling. *)
Lemma excluded_none (excluded : list gostring) (h : Header) K : K ∈ excluded -> (forall k, is_Some (h !! k) -> map lower_byte k = map lower_byte K -> k = K) ->
  validHeaderName K = true -> K <> [] -> field_values (map lower_byte K) (header_fields (filter (fun kv => kv.1 ∉ excluded) h)) = [].
Proof.
  intros HK Hs Hv Hne. assert ((filter (fun kv : gostring * list gostring => kv.1 ∉ excluded) h) !! K = None) as Hl.
  { apply map_lookup_filter_None. right. intros v _ Hn. by apply Hn. }
  rewrite field_values_header; [unfold Values; by rewrite Hl|done|done|]. intros k [v Hk%map_lookup_filter_Some] Hlow. destruct Hk as [Hk _].
  apply Hs; [by eexists|done].
Qed.

Lemma field_values_app n a b : field_values n (a ++ b) = field_values n a ++ field_values n b.
Proof. unfold field_values. by rewrite List.filter_app, map_app. Qed.

Lemma one_line l : plain l -> map (fun c => if is_nl c then " "%char else c) l = l.
Proof. induction 1 as [|c l Hc _ IH]; [done|]. cbn [map]. by rewrite Hc, IH. Qed.

Definition framing_lower : list gostring := [bs "host"; bs "content-length"; bs "transfer-encoding"].
Lemma elsewhere (k v n : gostring) : existsb (str_eqb (map lower_byte k)) framing_lower = false -> n ∈ framing_lower -> field_values n [(k, v)] = [].
Proof.
  intros Hk Hn. unfold field_values. cbn [List.filter fst]. destruct (str_eqb (map lower_byte k) n) eqn:E; [|done].
  rewrite <- not_true_iff_false, existsb_exists in Hk. destruct Hk. exists n. by rewrite <- list_elem_of_In.
Qed.

Lemma user_agent_fields h : Forall field_ok (user_agent h) /\ forall n, n ∈ framing_lower -> field_values n (user_agent h) = [].
Proof.
  unfold user_agent. destruct (str_eqb _ []); [by split; [constructor|]|]. split; [constructor; [|constructor]; split_and!; [done|done|apply clean_plain|apply Trim_idem]|].
  intros n. by apply elsewhere.
Qed.
Lemma connection_fields close h : Forall field_ok (connection_field close h) /\ forall n, n ∈ framing_lower -> field_values n (connection_field close h) = [].
Proof.
  unfold connection_field. destruct (_ && _); [|by split; [constructor|]]. split; [constructor; [|constructor]; split_and!; try done; by repeat constructor|].
  intros n. by apply elsewhere.
Qed.
Lemma subset_fields req n : relayed req -> n ∈ framing_lower -> field_values n (header_fields (writeSubset (o_Header req))) = [].
Proof.
  intros Hr Hn. assert (exists K, K ∈ framing_names /\ n = map lower_byte K) as (K & HK & ->).
  { unfold framing_lower in Hn. rewrite !elem_of_cons, elem_of_nil in Hn. unfold framing_names. setoid_rewrite elem_of_cons. setoid_rewrite elem_of_cons. setoid_rewrite elem_of_cons.
    destruct Hn as [->|[->|[->|[]]]]; [exists (bs "Host")|exists (bs "Content-Length")|exists (bs "Transfer-Encoding")]; split; auto. }
  apply excluded_none; [|intros k Hk Hlow; by apply (rl_names req Hr K)| |]; unfold framing_names in HK; rewrite !elem_of_cons, elem_of_nil in HK;
    destruct HK as [->|[->|[->|[]]]]; try done; unfold reqWriteExcludeHeader; rewrite !elem_of_cons; tauto.
Qed.

Lemma number_field n : 0 <= n -> field_ok (bs "Content-Length", Itoa (Z.to_nat n)) /\ read_number 10 (Itoa (Z.to_nat n)) = Some n.
Proof.
  intros Hn. assert (read_number 10 (Itoa (Z.to_nat n)) = Some n) as Hrd by (rewrite read_Itoa; f_equal; lia). split; [|done]. split_and!; [done|done|apply Itoa_plain|].
  cbn [snd]. rewrite <- (clean_number _ _ Hrd) at 2. unfold clean. f_equal. symmetry. apply one_line, Itoa_plain.
Qed.

(** The field that frames the body, if one is needed. *)
Lemma framing_fields req : relayed req -> framed req -> let fr := framing_field (o_Method req) (written_transfer req) in
  Forall field_ok fr /\ field_values "host" fr = [] /\
  read_framing fr = Some (if usesChunkedTransferEncoding req then Chunked else Sized (Z.to_nat (o_ContentLength req))).
Proof.
  intros Hr Hf. pose proof (framed_chunked req Hf) as Hc. unfold framing_field, shouldSendContentLength, written_transfer. cbn [t_TransferEncoding t_ContentLength]. rewrite <- Hc.
  destruct (usesChunkedTransferEncoding req) eqn:Ec; [split; [constructor; [|constructor]; split_and!; try done; by repeat constructor|done]|].
  destruct (rl_length req Hr Ec) as (Hn & _). destruct (number_field _ Hn) as [Hok Hnum]. set (b := if 0 <? _ then _ else _).
  assert (b = false -> o_ContentLength req = 0) as Hb by (unfold b; destruct (Z.ltb_spec 0 (o_ContentLength req)); [done|lia]). destruct b.
  - split_and!; [constructor; [done|constructor]|done|]. revert Hnum. generalize (Itoa (Z.to_nat (o_ContentLength req))) as v. intros v Hnum.
    change (read_framing [(bs "Content-Length", v)]) with (n ← read_number 10 v; Some (Sized (Z.to_nat n))). by rewrite Hnum.
  - rewrite (Hb eq_refl). split_and!; [constructor|done|done].
Qed.

Lemma written_framing close req : relayed req -> framed req ->
  Forall field_ok (written_fields close req) /\ length (field_values "host" (written_fields close req)) = 1%nat /\
  read_framing (written_fields close req) = Some (if usesChunkedTransferEncoding req then Chunked else Sized (Z.to_nat (o_ContentLength req))).
Proof.
  intros Hr Hf. destruct (rl_host req Hr) as (Hne & Hp & Ht). destruct (user_agent_fields (o_Header req)) as [Hua1 Hua2].
  destruct (connection_fields close (o_Header req)) as [Hcn1 Hcn2]. destruct (framing_fields req Hr Hf) as (Hfr1 & Hfr2 & Hfr3).
  unfold written_fields, transfer_fields. cbn [stdpp.option.from_option id]. set (fr := framing_field _ _) in *. set (all := _ :: _).
  assert (forall n, n ∈ framing_lower -> field_values n all = field_values n [(bs "Host", head_host req)] ++ field_values n fr) as Hall.
  { intros n Hn. unfold all. match goal with |- context [?x :: ?l] => change (x :: l) with ([x] ++ l) end.
    rewrite !field_values_app, Hua2, Hcn2, (subset_fields req n Hr Hn) by done. cbn [app]. by rewrite app_nil_r. }
  split_and!.
  - unfold all. constructor; [by split_and!|]. rewrite !Forall_app. split_and!; [done|done|done|apply header_fields_ok].
  - rewrite Hall, Hfr2 by (unfold framing_lower; rewrite !elem_of_cons; tauto). done.
  - rewrite <- Hfr3. unfold read_framing. by rewrite !Hall by (unfold framing_lower; rewrite !elem_of_cons; tauto).
Qed.

Definition written_head (close : bool) (req : out_request) : gostring :=
  (request_line req ++ crlf) ++ concat (map field_line (written_fields close req)) ++ crlf.

Lemma request_bytes_written probed close req : relayed req -> framed req -> host_value punycode (head_host req) = Some (head_host req) ->
  request_bytes punycode probed close None req =
  (written_head close req ++ (body_bytes None (written_transfer req)).1, (body_bytes None (written_transfer req)).2).
Proof.
  intros Hr Hf Hh. unfold request_bytes. rewrite Hh. destruct (fr_target req Hf) as [Ht ->]. rewrite (framed_transfer probed req Hr Hf). cbn [transfer_fields].
  unfold written_head, written_fields, request_line, head_target. cbn [transfer_fields stdpp.option.from_option id]. rewrite (proj2 (str_eqb_neq _ _) (fr_method req Hf)), (proj2 (str_eqb_neq _ _) Ht).
  destruct (body_bytes None (written_transfer req)) as [b ok]. done.
Qed.

Lemma body_bytes_ok req : relayed req -> framed req -> (body_bytes None (written_transfer req)).2 = body_fine req.
Proof.
  intros Hr Hf. pose proof (framed_chunked req Hf) as Hc. unfold body_bytes, written_transfer, body_fine. cbn [t_Body t_TransferEncoding t_ContentLength]. rewrite <- Hc.
  destruct (usesChunkedTransferEncoding req) eqn:Ec; [by destruct (o_Body req)|]. destruct (rl_length req Hr Ec) as (Hn & _ & Hb).
  destruct (o_Body req) as [b|]; [|done]. destruct (Z.eqb_spec (o_ContentLength req) (-1)); [lia|]. cbn. destruct (body_ok b); [|done]. cbn [andb] in *. by apply Z.eqb_eq.
Qed.

(** The whole request is read as one message; with a bad body, it is not read at all. *)
Lemma written_read close req : relayed req -> framed req ->
  read_message (written_head close req ++ (body_bytes None (written_transfer req)).1) =
  if body_fine req then Some ({| ms_line := request_line req; ms_fields := written_fields close req; ms_body := content req |}, []) else None.
Proof.
  intros Hr Hf. destruct (written_framing close req Hr Hf) as (H1 & H2 & H3). unfold written_head. rewrite (read_written _ _ _ _ (rl_line req Hr) H1 H2 H3).
  pose proof (framed_chunked req Hf) as Hc. unfold body_bytes, written_transfer, body_fine, content. cbn [t_Body t_TransferEncoding t_ContentLength]. rewrite <- Hc.
  destruct (usesChunkedTransferEncoding req) eqn:Ec.
  - destruct (fr_coding req Hf) as [[Ht _]|(_ & [b ->] & _)]; [rewrite Ht in Hc; done|]. cbn [fst read_body from_option map concat app].
    set (ds := List.filter nonempty (reads b)). pose proof (filter_nonempty (reads b)) as Hd. fold ds in Hd. rewrite <- (concat_nonempty (reads b)). fold ds. destruct (body_ok b).
    + change (bs "0" ++ crlf ++ crlf) with last_chunk. pose proof (chunk_lines_length ds). rewrite <- (app_nil_r last_chunk) at 2. rewrite read_chunks_app; [done..|].
      rewrite length_app. simpl. lia.
    + rewrite (read_chunks_cut _ ds (concat (map chunk_line ds)) [] []); [done|done|by rewrite app_nil_r|apply prefix_nil].
  - destruct (rl_length req Hr Ec) as (Hn & _ & Hb). cbn [read_body]. unfold read_bytes. destruct (o_Body req) as [b|]; [|cbn; by rewrite Hb].
    destruct (Z.eqb_spec (o_ContentLength req) (-1)); [lia|]. cbn [fst]. cbn zeta in Hb. destruct (body_ok b).
    + rewrite take_ge by lia. rewrite (proj2 (Nat.leb_le _ _)), take_ge, drop_ge by lia. done.
    + rewrite length_take. destruct (Nat.leb_spec (Z.to_nat (o_ContentLength req)) (Z.to_nat (o_ContentLength req) `min` length (concat (reads b)))); [lia|done].
Qed.

Lemma read_message_none s q : read_message (s ++ q) = None -> read_message s = None.
Proof. intros H. destruct (read_message s) as [[m r]|] eqn:E; [|done]. apply (read_message_more _ q) in E. congruence. Qed.

Section Sent.
Context (short : nat -> option nat) (cuts : gostring -> list gostring) (flushed : nat) `{B : !Buffered cuts}.

Lemma sends_pieces l : Forall (fun d => d <> []) l -> sends true (concat l) (puts short l).
Proof. induction 1; cbn [puts concat]; [apply sends_nothing|]. apply sends_then_strict; [by apply sends_put|done]. Qed.

(** A request that [Request.Write] writes arrives as one message, or not at all. *)
Lemma request_Write_one probed close req : relayed req -> framed req -> host_value punycode (head_host req) = Some (head_host req) ->
  let '(s, ok) := request_Write punycode short cuts flushed probed close None req blank_wire in
  down s = [] /\
  (if ok then read_message (up s) = Some ({| ms_line := request_line req; ms_fields := written_fields close req; ms_body := content req |}, [])
   else read_message (up s) = None) /\
  ((forall n, short n = None) -> body_fine req = true -> ok = true).
Proof.
  intros Hr Hf Hh. unfold request_Write. rewrite (request_bytes_written probed close req Hr Hf Hh), (body_bytes_ok req Hr Hf).
  pose proof (written_read close req Hr Hf) as Hread. set (b := written_head close req ++ _) in *. destruct (body_fine req).
  - pose proof (sends_pieces (cuts b) (cuts_nonempty cuts b) blank_wire) as Hs. rewrite (cuts_concat cuts b) in Hs.
    pose proof (fun H => sure_puts short (cuts b) H blank_wire) as Hsure. destruct (puts short (cuts b) blank_wire) as [s ok]. destruct Hs as [Hd Hs].
    split_and!; [done| |intros H _; by apply Hsure in H]. destruct ok; [by rewrite Hs|]. destruct Hs as (p & q & -> & Hpq & Hq).
    eapply read_message_prefix; [by apply Hq|]. cbn [blank_wire up app]. by rewrite Hpq.
  - pose proof (sends_pieces (cuts (take flushed b)) (cuts_nonempty cuts _) blank_wire) as Hs. rewrite (cuts_concat cuts) in Hs.
    destruct (puts short (cuts (take flushed b)) blank_wire) as [s ok]. cbn [fst]. destruct Hs as [Hd Hs]. split_and!; [done| |done].
    assert (exists p q, up s = p /\ p ++ q = b) as (p & q & -> & Hpq).
    { destruct ok; [exists (take flushed b), (drop flushed b); by rewrite Hs, take_drop|]. destruct Hs as (p & q & Hp & Hpq & _).
      exists p, (q ++ drop flushed b). by rewrite app_assoc, Hpq, take_drop. }
    eapply read_message_none. by rewrite Hpq.
Qed.
End Sent.
End Theorems.
