(* ===== verification/EndToEnd.v ===== *)
(** * From the wire to the upstream

    The request path on top of the production pipeline: what is known of every
    request that is forwarded. *)

From S2P Require Import Prelude GoStrings GoRuntime Canonicalize Compile Match Credential Decision Stages Runner Enforcement RawHead Validate Limits Handler.
#[local] Open Scope Z_scope.

Section Forwarding.
Context `{U : Unicode} `{S : Sha256} `{N : NetURL} {E : Type} `{C : Clock E}.
Context (p : Pipeline E).

Lemma quiet_no_forward cs cs' t n rc c : quiet cs cs' t -> Forwarded n rc c ∉ t.
Proof. intros [H _] Hin. rewrite Forall_forall in H. by specialize (H _ Hin). Qed.

Lemma record_decision_ho cs d r f cs' t : record_decision cs d r f = (cs', t) -> ho cs' = ho cs.
Proof. unfold record_decision. by intros [= <- <-]. Qed.
Lemma rejectAndWrite_ho cs rej cs' t : rejectAndWrite cs rej = (cs', t) -> ho cs' = ho cs.
Proof.
  unfold rejectAndWrite. destruct (record_decision _ _ _ _) eqn:Ed. apply record_decision_ho in Ed. by intros [= <- <-].
Qed.
Lemma ensureUpstream_ho cs rc cred io cs' t up : ensureUpstream cs rc cred io = (cs', t, up) ->
  ho cs' = ho cs /\ Forall (fun x => forwards x = false) t.
Proof.
  intros H. assert (up_ok (rev [Dialled 0 [] []] ++ match upstream cs with Some u =>
     match conn u with Some n => [Dialled n (up_identity u) (credID u)] | None => [] end | None => [] end) cs) as Hup.
  { intros u n Hu Hn. rewrite Hu, Hn. simpl. right. left. }
  destruct (ensureUpstream_ok _ _ _ _ _ _ _ _ Hup H) as [Hq _]. split; [|done]. revert H. unfold ensureUpstream.
  destruct (upstream cs) as [u|]; [destruct (reusableFor _ _ _ _); [destruct (conn u)|]|]; try (by intros [= <- <- <-]);
    destruct (dial_ok io); by intros [= <- <- <-].
Qed.

(** The relay forwards the context it was given, and nothing else. *)
Lemma relay_forward cs rc io cs' t ok : relay cs rc io = (cs', t, ok) ->
  ho cs' = ho cs /\ forall n rc' c, Forwarded n rc' c ∈ t -> rc' = rc /\ c = credentialIdentity rc.
Proof.
  unfold relay. destruct (ensureUpstream cs rc _ io) as [[cs1 t1] up] eqn:E1.
  apply ensureUpstream_ho in E1 as [Hho Hq]. rewrite Forall_forall in Hq.
  assert (forall n rc' c, Forwarded n rc' c ∉ t1) as Hno by (intros n rc' c Hin; by specialize (Hq _ Hin)).
  destruct up as [[n u]|].
  2:{ intros [= <- <- <-]. split; [done|]. intros n rc' c. rewrite elem_of_app, list_elem_of_singleton.
      intros [Hin|Hin]; [by destruct (Hno _ _ _ Hin)|done]. }
  destruct (if timed_out io then _ else _) as [cs2 t2] eqn:E2.
  assert (ho cs2 = ho cs /\ forall n rc' c, Forwarded n rc' c ∉ t2) as [Hho2 Hno2].
  { destruct (timed_out io).
    - split; [by rewrite (record_decision_ho _ _ _ _ _ _ E2)|]. intros ? ? ?. by eapply quiet_no_forward, record_decision_quiet.
    - injection E2 as <- <-. split; [done|]. intros ? ? ? H. by apply elem_of_nil in H. }
  set (fw := t1 ++ [Forwarded n rc (credentialIdentity rc)] ++ t2).
  assert (forall n' rc' c t', (forall a b d, Forwarded a b d ∉ t') -> Forwarded n' rc' c ∈ fw ++ t' -> rc' = rc /\ c = credentialIdentity rc) as Hfw.
  { intros n' rc' c t' Ht'. unfold fw. rewrite !elem_of_app, list_elem_of_singleton.
    intros [[Hin|[[= -> -> ->]|Hin]]|Hin]; [by destruct (Hno _ _ _ Hin)|done|by destruct (Hno2 _ _ _ Hin)|by destruct (Ht' _ _ _ Hin)]. }
  assert (forall t', forallb (fun x => negb (forwards x)) t' = true -> forall a b d, Forwarded a b d ∉ t') as Hlit.
  { intros t' Ht' a b d Hin. rewrite forallb_forall in Ht'. by specialize (Ht' _ (proj1 (list_elem_of_In _ _) Hin)). }
  assert (forall cs3 d r f t3 more, record_decision cs2 d r f = (cs3, t3) -> forallb (fun x => negb (forwards x)) more = true ->
    ho cs3 = ho cs /\ forall n' rc' c, Forwarded n' rc' c ∈ fw ++ t3 ++ more -> rc' = rc /\ c = credentialIdentity rc) as Hrd.
  { intros cs3 d r f t3 more E3 Hm. split; [by rewrite (record_decision_ho _ _ _ _ _ _ E3)|]. intros n' rc' c. apply Hfw.
    intros a b d'. rewrite elem_of_app. intros [Hin|Hin]; [|by apply (Hlit _ Hm) in Hin].
    by apply (quiet_no_forward cs2 cs3) in Hin; [|by eapply record_decision_quiet]. }
  destruct (io_write io) as [|malformed].
  - destruct (io_response io) as [[]|].
    + destruct (resp_Close io), (req_Close io); intros [= <- <- <-]; (split; [done|]); intros n' rc' c; apply Hfw, Hlit; done.
    + destruct (record_decision cs2 _ _ _) as [cs3 t3] eqn:E3. intros [= <- <- <-]. by apply (Hrd _ _ _ _ _ _ E3).
    + destruct (record_decision cs2 _ _ _) as [cs3 t3] eqn:E3. intros [= <- <- <-]. by apply (Hrd _ _ _ _ _ _ E3).
    + destruct (timed_out io); [intros [= <- <- <-]; (split; [done|]); intros n' rc' c; apply Hfw, Hlit; done|].
      destruct (record_decision cs2 _ _ _) as [cs3 t3] eqn:E3. intros [= <- <- <-]. by apply (Hrd _ _ _ _ _ _ E3).
  - destruct (timed_out io); [intros [= <- <- <-]; (split; [done|]); intros n' rc' c; apply Hfw, Hlit; done|].
    destruct (record_decision cs2 _ _ _) as [cs3 t3] eqn:E3. intros [= <- <- <-]. rewrite <- app_assoc.
    apply (Hrd _ _ _ _ _ _ E3). by destruct malformed.
Qed.

Context (R : relation E) `{!PreOrder R}.
(** What is known of the requests that net/http parses, with the heads they were read from. *)
Context (P : ParsedRequest -> gostring -> Prop).
Context (R_now : forall e, R e (Now e).2) (R_Execute : forall e rc, R e (Execute p e rc).1.1.1).

(** [rc] came out of the pipeline with an allow, between [e] and [e'], for a request validated on a
    connection with handover [h]. *)
Definition admitted (e e' : E) (h : Handover) (rc : RequestContext) : Prop :=
  exists cs now r req head e1 e2 steps d,
    ho cs = h /\ P req head /\ Validate (Some req) head = (Some r, None) /\
    Execute p e1 (Some (request_context cs now r)) = (e2, Some rc, steps, d) /\ IsAllow d = true /\ R e e1 /\ R e2 e'.

Lemma admitted_later e0 e e' e1 h rc : R e0 e -> R e' e1 -> admitted e e' h rc -> admitted e0 e1 h rc.
Proof.
  intros H0 H1 (cs & now & r & req & head & a1 & a2 & steps & d & Hh & HP & Hv & Hx & Ha & HR1 & HR2).
  exists cs, now, r, req, head, a1, a2, steps, d. split_and!; try done; by etrans.
Qed.

Definition input_P (i : input) : Prop := forall req head, slot i = true -> in_read i = ReadOk (Some req) head -> P req head.

Lemma serveOne_forward e cs i e' cs' t b : input_P i -> serveOne p e cs i = (e', cs', t, b) ->
  (ho cs' = ho cs /\ R e e') /\ forall n rc c, Forwarded n rc c ∈ t -> admitted e e' (ho cs) rc /\ c = credentialIdentity rc.
Proof.
  unfold serveOne, input_P. intros HP.
  assert (forall rej (e' : E) cs' t b, (let '(cs1, t1) := rejectAndWrite cs rej in (e, cs1, t1, false)) = (e', cs', t, b) ->
    (ho cs' = ho cs /\ R e e') /\ forall n rc c, Forwarded n rc c ∈ t -> admitted e e' (ho cs) rc /\ c = credentialIdentity rc) as Hrej.
  { intros rej e1 cs1 t1 b1. destruct (rejectAndWrite cs rej) as [cs2 t2] eqn:E2. intros [= <- <- <- <-].
    split; [by apply rejectAndWrite_ho in E2|]. intros n rc c Hin. apply rejectAndWrite_quiet in E2.
    by apply (quiet_no_forward _ _ _ _ _ _ E2) in Hin. }
  assert (forall (e1 e' : E) cs' t b, R e e1 -> (e1, cs, [], false) = (e', cs', t, b) ->
    (ho cs' = ho cs /\ R e e') /\ forall n rc c, Forwarded n rc c ∈ t -> admitted e e' (ho cs) rc /\ c = credentialIdentity rc) as Hnop.
  { intros e1 e2 cs1 t1 b1 HR [= <- <- <- <-]. split; [done|]. intros n rc c Hin. by apply elem_of_nil in Hin. }
  destruct (slot i); cbn [negb]; [|apply Hrej]. destruct (in_read i) as [[req|] head| | |]; [|by apply Hnop|apply Hrej..].
  specialize (HP req head eq_refl eq_refl).
  destruct (Validate (Some req) head) as [[r|] [rej|]] eqn:Ev; [apply Hrej| |apply Hrej|by apply Hnop].
  pose proof (R_now e) as Rn. destruct (Now e) as [now e1] eqn:En. cbn [snd] in Rn.
  pose proof (R_Execute e1 (Some (request_context cs now r))) as Rx.
  destruct (Execute p e1 _) as [[[e2 rc] tr] d] eqn:Ex. cbn [fst] in Rx. assert (R e e2) as Re2 by (by etrans).
  destruct (IsAllow d) eqn:Ea; cbn [negb].
  - destruct rc as [rc|]; [|by apply Hnop]. destruct (relay cs rc (in_io i)) as [[cs1 t1] ok] eqn:E1.
    apply relay_forward in E1 as [Hho Hf].
    assert (forall n rc' c, Forwarded n rc' c ∈ t1 -> admitted e e2 (ho cs) rc' /\ c = credentialIdentity rc') as Hadm.
    { intros n rc' c Hin. destruct (Hf _ _ _ Hin) as [-> ->]. split; [|done]. by exists cs, now, r, req, head, e1, e2, tr, d. }
    destruct ok; cbn [negb]; [|by intros [= <- <- <- <-]]. destruct (next_byte i); [|by intros [= <- <- <- <-]].
    destruct (rejectAndWrite cs1 pipelining_rejection) as [cs2 t2] eqn:E2. intros [= <- <- <- <-].
    split; [by rewrite (rejectAndWrite_ho _ _ _ _ E2)|]. intros n rc' c [Hin|Hin]%elem_of_app; [by eapply Hadm|].
    apply rejectAndWrite_quiet in E2. by apply (quiet_no_forward _ _ _ _ _ _ E2) in Hin.
  - destruct (record_decision cs _ _ _) as [cs1 t1] eqn:E1. intros [= <- <- <- <-].
    split; [by apply record_decision_ho in E1|]. intros n rc' c [Hin|Hin]%elem_of_app.
    + apply record_decision_quiet in E1. by apply (quiet_no_forward _ _ _ _ _ _ E1) in Hin.
    + case_bool_decide; [by apply elem_of_nil in Hin|by apply list_elem_of_singleton in Hin].
Qed.

Lemma serve_loop_forward ins : Forall input_P ins -> forall e cs e' cs' t, serve_loop p e cs ins = (e', cs', t) ->
  R e e' /\ forall n rc c, Forwarded n rc c ∈ t -> admitted e e' (ho cs) rc /\ c = credentialIdentity rc.
Proof.
  induction 1 as [|i ins Hi _ IH]; intros e cs e' cs' t; cbn [serve_loop].
  { intros [= <- <- <-]. split; [done|]. intros n rc c Hin. by apply elem_of_nil in Hin. }
  destruct (serveOne p e cs i) as [[[e1 cs1] t1] keep] eqn:E1. apply serveOne_forward in E1 as [[Hho HR] Hf]; [|done].
  destruct keep; cbn [negb]; [|by intros [= <- <- <-]]. destruct (buffered i).
  - destruct (rejectAndWrite cs1 pipelining_rejection) as [cs2 t2] eqn:E2. intros [= <- <- <-]. split; [done|].
    intros n rc c [Hin|Hin]%elem_of_app; [by eapply Hf|].
    apply rejectAndWrite_quiet in E2. by apply (quiet_no_forward _ _ _ _ _ _ E2) in Hin.
  - destruct (serve_loop p e1 cs1 ins) as [[e2 cs2] t2] eqn:E2. apply IH in E2 as [HR2 Hf2]. intros [= <- <- <-].
    split; [by etrans|]. intros n rc c [Hin|Hin]%elem_of_app.
    + destruct (Hf _ _ _ Hin) as [Had ->]. split; [|done]. by apply (admitted_later e e e1 e2).
    + rewrite Hho in Hf2. destruct (Hf2 _ _ _ Hin) as [Had ->]. split; [|done]. by apply (admitted_later e e1 e2 e2).
Qed.

Lemma Serve_forward e h ins n rc c : Forall input_P ins -> Forwarded n rc c ∈ (Serve p e h ins).2 ->
  handoverRejection h = None /\ admitted e (Serve p e h ins).1 h rc /\ c = credentialIdentity rc.
Proof.
  intros HP. unfold Serve. destruct (handoverRejection h) as [j|]; [intros H; by apply list_elem_of_singleton in H|].
  destruct (serve_loop p e _ ins) as [[e' cs'] t] eqn:El. simpl. intros [Hin|Hin]%elem_of_app.
  - split; [done|]. apply serve_loop_forward in El as [_ El]; [|done]. apply (El _ _ _ Hin).
  - pose proof (close_effect_quiet) as Hq. destruct (upstream cs') as [u|]; [|by apply elem_of_nil in Hin].
    specialize (Hq u). rewrite Forall_forall in Hq. by specialize (Hq _ Hin).
Qed.
End Forwarding.

Section Whole.
Context `{U : Unicode} `{S : Sha256} `{N : NetURL} {E : Type} `{V : Services E}.
Context (MaxStaleness : Duration) (pod : AuditIdentity).

(** C1: end to end.  Any request that leaves the proxy was read from this connection, an intercepted TLS connection
    with a known original destination, passed [Validate] on the raw head it came with, and was allowed by the pipeline
    in a run that started from exactly the validated request: a rule of a snapshot that the store returned during that
    run, no older than the bound, matches the host, the port and the path that the relay is given, the path as the
    URL's encoded form ([wire_path] in Forward.v says what is written of it).  That host is the name the client put in
    its SNI (when it sent one), the port is the one the kernel attested, the agent's own credentials and provenance
    headers are gone, and the only Authorization header is the token that the broker returned, during that run, for the
    credential of that rule.  It leaves on an upstream connection that was dialled earlier for that host and under the
    identity of that very token. *)
Theorem forwarded_request_sound e h ins n rc c :
  let '(e', t) := Serve (production MaxStaleness pod) e h ins in
  Forwarded n rc c ∈ t ->
  IsTLS h = true /\ ap_port (OriginalDst h) <> 0 /\
  exists i req head v cs now a steps d a',
    (i ∈ ins /\ slot i = true /\ in_read i = ReadOk (Some req) head /\ Validate (Some req) head = (Some v, None) /\ ho cs = h) /\
    (passes e a /\ Execute (production MaxStaleness pod) a (Some (request_context cs now v)) = (a', Some rc, steps, d) /\
     IsAllow d = true /\ passes a' e') /\
  exists e1 e2 snap age e3 e4 tr r h' t1 t2,
    (passes a e1 /\ svc_current e1 = (e2, Some (snap, age)) /\ passes e2 a' /\
     0 <= age < maxStaleness (match_stage MaxStaleness) /\
     c_MatchResult rc = Match snap (c_Facts rc) /\ Matched (c_MatchResult rc) = true) /\
    ToLower (ToLower (ho_SNI h)) ∈ [[]; rf_Identity (c_Facts rc)] /\
    rf_Port (c_Facts rc) = ap_port (OriginalDst h) /\ rf_Method (c_Facts rc) = pr_Method v /\
    c_Request rc = Some r /\ rq_Host r = rf_Identity (c_Facts rc) /\
    (exists u, rq_URL r = Some u /\ ru_RawPath u = rf_Path (c_Facts rc)) /\
    match mr_Credential (c_MatchResult rc) with
    | None => tr = zero_result
    | Some cred => passes a e3 /\ svc_get e3 (toTokenSelector (Some cred)) = (e4, Ok tr) /\ passes e4 a'
    end /\
    rq_Header r = Some (outgoing h' (mr_Credential (c_MatchResult rc)) (Reveal (tr_Token tr))) /\
    (h' ⊆ pr_Header v /\ forall k, shouldStrip (ToLower k) = true \/ hopByHop (ToLower k) = true -> h' !! k = None) /\
    t = t1 ++ Forwarded n rc c :: t2 /\ Dialled n (rf_Identity (c_Facts rc)) c ∈ t1 /\
    match Identity (tr_Resolved tr) with [] => c = bs "none" | id => c = id end.
Proof.
  destruct (Serve (production MaxStaleness pod) e h ins) as [e' t] eqn:Es. intros Hin.
  assert (Forwarded n rc c ∈ (Serve (production MaxStaleness pod) e h ins).2) as Hs by (by rewrite Es).
  pose proof (Serve_isolated (production MaxStaleness pod) e h ins) as Hi. rewrite Es in Hi. cbn [snd] in Hi.
  apply (isolated_in _ _ n rc c) in Hi as (Hname & t1 & t2 & Ht & Hd); [|done].
  rewrite app_nil_r, list_elem_of_In, <- in_rev, <- list_elem_of_In in Hd.
  pose proof (stable_order passes stable_passes) as Hpre.
  apply (Serve_forward _ passes (fun req head => exists i, i ∈ ins /\ slot i = true /\ in_read i = ReadOk (Some req) head))
    in Hs as (Hho & (cs & now & v & req & head & a & a' & steps & d & <- & (i & Hii & Hsl & Hrd) & Hv & Hx & Ha & R1 & R2) & _).
  2: { intros e0. apply (stable_now _ stable_passes). }
  2: { intros e0 rc0. apply Execute_keeps, stable_passes. }
  2: { apply Forall_forall. intros i Hii req head Hsl Hrd. by exists i. }
  unfold handoverRejection in Hho. destruct (TLSConn (ho cs)); [|done]. destruct (IsTLS (ho cs)); [|done]. cbn in Hho.
  split; [done|]. split.
  { unfold isValidOriginalDst in Hho. intros E0. rewrite E0 in Hho. by rewrite andb_false_r in Hho. }
  rewrite Es in R2. exists i, req, head, v, cs, now, a, steps, d, a'. split; [done|]. split; [done|].
  assert (c_Request (request_context cs now v) = Some (to_request v)) as Hr
    by (unfold request_context; by destruct (default _ _)).
  destruct (allow_facts MaxStaleness pod passes _ _ _ _ _ _ _ (pr_Header v) stable_passes Hr eq_refl Hx Ha)
    as (e1 & e2 & snap & age & e3 & e4 & tr & r' & h' & ev & (H1 & H2 & H3 & H4 & H5 & H6 & _ & H8 & H9 & H10 & H11) & _ & Hag & _ & Hp
        & [P1 P2] & [P3 P4] & <- & Hsub & _ & Hme & _).
  exists e1, e2, snap, age, e3, e4, (c_TokenResult rc), r', h', t1, t2.
  assert (SNI (c_Identity (request_context cs now v)) = ToLower (ho_SNI (ho cs)) /\
          DestinationPort (c_Identity (request_context cs now v)) = ap_port (OriginalDst (ho cs))) as [Esni Edst]
    by (unfold request_context; by destruct (default _ _)).
  rewrite Esni in Hag. rewrite Edst in Hp. apply agreed_identity_ok in Hag as (_ & Hsni & _).
  split_and!; try done; try lia. by destruct (mr_Credential (c_MatchResult rc)).
Qed.
End Whole.

(** ** A concrete connection *)

Definition demo_handover : Handover :=
  {| TLSConn := true; IsTLS := true; OriginalDst := {| ap_valid := true; ap_is4 := true; ap_port := 443 |};
     ho_SNI := "api.example.com"; ConnID := "c1" |}.
Definition demo_io : relay_io :=
  {| dial_ok := true; io_write := WriteOk; timed_out := false; io_response := Some ResponseWritten;
     resp_Close := false; req_Close := false |}.
Definition get_head : gostring := crlf_join [bs "GET /v1/users HTTP/1.1"; bs "Host: api.example.com"; bs ""].
Definition get_request : ParsedRequest :=
  {| pr_Method := "GET"; pr_ProtoMajor := 1; pr_ProtoMinor := 1;
     pr_URL := Some {| pu_Scheme := []; pu_Host := []; pu_Path := "/v1/users"; pu_RawPath := [] |};
     pr_RequestURI := "/v1/users"; pr_Host := "api.example.com"; pr_Header := ∅;
     pr_Trailer := ∅; pr_TransferEncoding := []; pr_ContentLength := 0 |}.
Definition demo_input : input :=
  {| slot := true; in_read := ReadOk (Some get_request) get_head; in_io := demo_io; next_byte := false; buffered := false |}.
Notation demo_serve :=
  (Serve (U := ascii_only) (S := sha_id) (N := opaque_urls) (C := @svc_clock Z demo_services)
    (production (U := ascii_only) (V := demo_services) 0 no_pod) 0 demo_handover [demo_input; demo_input]).

(** The effects of a run, by kind. *)
Definition shape (x : effect) : gostring :=
  match x with
  | Rejected _ => "rejected" | Decisions _ _ _ => "decision" | WroteStatus _ => "status" | WroteDeny => "deny"
  | Dialled _ _ _ => "dial" | Forwarded _ _ _ => "forward" | ClosedUpstream _ => "close"
  end.

Lemma demo_serve_shape : map shape demo_serve.2 = [bs "dial"; bs "forward"; bs "forward"; bs "close"].
Proof. vm_compute. reflexivity. Qed.

Lemma forwarded_request_sound_witness :
  exists n rc c i req head v, Forwarded n rc c ∈ demo_serve.2 /\ rf_Port (c_Facts rc) = 443 /\
    i ∈ [demo_input; demo_input] /\ in_read i = ReadOk (Some req) head /\ Validate (U := ascii_only) (Some req) head = (Some v, None).
Proof.
  pose proof demo_serve_shape as Hs.
  pose proof (forwarded_request_sound (U := ascii_only) (S := sha_id) (N := opaque_urls) (V := demo_services) 0 no_pod 0
    demo_handover [demo_input; demo_input]) as H.
  destruct demo_serve as [e t]. cbn [snd] in Hs |- *.
  destruct t as [|x0 [|[ | | | | | n rc c | ] t]]; try discriminate Hs.
  destruct (H n rc c) as (_ & _ & i & req & head & v & cs & now & a & steps & d & a' & (Hi & _ & Hr & Hv & _) & _ &
    e1 & e2 & snap & age & e3 & e4 & tr & r & h' & t1 & t2 & _ & _ & Hp & _); [right; left|].
  exists n, rc, c, i, req, head, v. split; [right; left|]. split; [exact Hp|]. split; [exact Hi|]. split; [exact Hr|exact Hv].
Defined.
