(* ===== verification/Forward.v ===== *)
(** * What a forwarded request looks like on the wire

    The pipeline leaves a request with a host, a URL and headers; net/url and the relay turn it into bytes.
    This file models [URL.setPath], [URL.EscapedPath] and [URL.RequestURI] of net/url, says exactly when the path on the
    wire is the path that was matched, and joins the request path to the messages of Relay.v. *)

From S2P Require Import Prelude GoStrings GoRuntime Canonicalize Compile Match Credential Decision Stages Runner Enforcement Limits RawHead Validate Handler Wire Relay RequestWrite EndToEnd.
#[local] Open Scope Z_scope.

(** ** Paths of net/url *)

(** [shouldEscape] in mode [encodePath]. *)
Definition shouldEscape (c : ascii) : bool :=
  if is_lower c || is_upper c || is_digit c then false
  else negb (ContainsByte (bs "-_.~$&+,/:;=@") c).

Definition upperhex (d : Z) : ascii := byte_of (if d <? 10 then 48 + d else 55 + d).
Definition escape_byte (c : ascii) : gostring :=
  if shouldEscape c then ["%"%char; upperhex (Z.shiftr (code c) 4); upperhex (Z.land (code c) 15)] else [c].
Definition escape (s : gostring) : gostring := concat (map escape_byte s).

Definition validEncoded_byte (c : ascii) : bool := ContainsByte (bs "!$&'()*+,;=:@[]%") c || negb (shouldEscape c).
Definition validEncoded (s : gostring) : bool := forallb validEncoded_byte s.

(** [None] is an [EscapeError]; [RawPath] is set only when it is not the default encoding of [Path]. *)
Definition setPath (p : gostring) : option ReqURL :=
  path ← PathUnescape p; Some {| ru_Path := path; ru_RawPath := if str_eqb p (escape path) then [] else p |}.

Definition EscapedPath (u : ReqURL) : gostring :=
  if negb (str_eqb (ru_RawPath u) []) && validEncoded (ru_RawPath u) && bool_decide (PathUnescape (ru_RawPath u) = Some (ru_Path u)) then ru_RawPath u
  else if str_eqb (ru_Path u) "*" then "*"
  else escape (ru_Path u).

Definition url_RequestURI (u : ReqURL) (forceQuery : bool) (query : gostring) : gostring :=
  let result := if str_eqb (EscapedPath u) [] then bs "/" else EscapedPath u in
  if forceQuery || negb (str_eqb query []) then result ++ "?"%char :: query else result.

(** ** The path on the wire *)

Lemma escape_byte_valid c : forallb validEncoded_byte (escape_byte c) = true.
Proof. every_byte c. Qed.
Lemma escape_valid s : validEncoded (escape s) = true.
Proof.
  unfold validEncoded, escape. induction s as [|c s IH]; [done|]. cbn [map concat]. by rewrite forallb_app, escape_byte_valid, IH.
Qed.
Definition no_ctl (s : gostring) : Prop := Forall (fun c => is_ctl c = false) s.
Lemma no_ctl_existsb s : no_ctl s -> existsb is_ctl s = false.
Proof. induction 1 as [|c s Hc _ IH]; [done|]. cbn [existsb]. by rewrite Hc. Qed.
Lemma no_ctl_plain s : no_ctl s -> plain s.
Proof. intros H. eapply Forall_impl; [exact H|]. intros c. every_byte c. Qed.
Lemma validEncoded_byte_ctl c : validEncoded_byte c = true -> is_ctl c = false.
Proof. every_byte c. Qed.
Lemma validEncoded_no_ctl s : validEncoded s = true -> no_ctl s.
Proof.
  unfold validEncoded, no_ctl. rewrite forallb_forall, Forall_forall. intros H c Hc. apply validEncoded_byte_ctl, H. by apply list_elem_of_In.
Qed.

(** Whatever the URL, its escaped path is on one line. *)
Lemma EscapedPath_no_ctl u : no_ctl (EscapedPath u).
Proof.
  unfold EscapedPath. destruct (_ && _ && _) eqn:E; [|destruct (str_eqb (ru_Path u) _); [by repeat constructor|apply validEncoded_no_ctl, escape_valid]].
  apply andb_true_iff in E as [[_ E]%andb_true_iff _]. by apply validEncoded_no_ctl.
Qed.
Lemma url_RequestURI_ok u force query : no_ctl query -> url_RequestURI u force query <> [] /\ no_ctl (url_RequestURI u force query).
Proof.
  intros Hq. unfold url_RequestURI. set (x := if str_eqb _ _ then _ else _). assert (x <> [] /\ no_ctl x) as [Hx1 Hx2].
  { unfold x. destruct (str_eqb _ _) eqn:E; [by split; [|by repeat constructor]|]. split; [by apply str_eqb_neq|apply EscapedPath_no_ctl]. }
  destruct (_ || _); [|done]. split; [by destruct x|]. apply Forall_app. split; [done|]. by constructor.
Qed.

Lemma canonical_unescapes p : canonical p -> exists path, PathUnescape p = Some path.
Proof. intros [Hs _]. by apply stable_unescapes in Hs as [path Hp]; exists path. Qed.
Lemma canonical_slash p : canonical p -> exists q, p = "/"%char :: q.
Proof. intros (_ & _ & _ & segs & tr & _ & ->). by eexists. Qed.

Lemma unescape_slash q path : PathUnescape ("/"%char :: q) = Some path -> exists path', path = "/"%char :: path'.
Proof. cbn. destruct (PathUnescape q); [|done]. intros [= <-]. by eexists. Qed.

(** C14: The matched path is the path on the wire exactly when net/url accepts it as it is.  A canonical path is
    forwarded byte for byte if all its bytes may stand in an encoded path; if one may not (a space, a bar, a quote, a byte
    outside ASCII), the decoded path is encoded again, and what is forwarded is another string. *)
Theorem wire_path p : canonical p -> (EscapedPath (canonical_url p) = p <-> validEncoded p = true).
Proof.
  intros Hc. destruct (canonical_unescapes p Hc) as [path Hp]. destruct (canonical_slash p Hc) as [q ->]. unfold EscapedPath, canonical_url. cbn [ru_RawPath ru_Path].
  rewrite Hp. cbn [default]. rewrite bool_decide_eq_true_2 by done. cbn [str_eqb]. rewrite (proj2 (str_eqb_neq _ _)) by done. cbn [negb andb]. rewrite andb_true_r.
  destruct (validEncoded ("/"%char :: q)) eqn:E; [done|]. apply unescape_slash in Hp as [path' ->].
  rewrite (proj2 (str_eqb_neq _ _)) by done. split; [|done]. intros H. rewrite <- H in E. by rewrite escape_valid in E.
Qed.

(** One canonical path on each side: the first is forwarded as it was matched, the second is not. *)
Lemma wire_path_witness :
  (canonical "/v1/users/a%2Fb" /\ (EscapedPath (canonical_url "/v1/users/a%2Fb") = bs "/v1/users/a%2Fb" <-> validEncoded "/v1/users/a%2Fb" = true) /\
   validEncoded "/v1/users/a%2Fb" = true) /\
  (canonical "/v1/a|b" /\ (EscapedPath (canonical_url "/v1/a|b") = bs "/v1/a|b" <-> validEncoded "/v1/a|b" = true) /\ validEncoded "/v1/a|b" = false).
Proof.
  assert (canonical "/v1/users/a%2Fb") as H1 by by apply (canonicalize_canonical "/v1/users/a%2Fb").
  assert (canonical "/v1/a|b") as H2 by by apply (canonicalize_canonical "/v1/a|b").
  split; (split; [assumption|]); (split; [apply wire_path; assumption|reflexivity]).
Defined.

(** ** Hosts *)

Definition host_byte (c : ascii) : Prop := is_lower c || is_upper c || is_digit c || ContainsByte (bs ".-:") c = true.

Lemma ipv4_bytes s : forall val len pos first, ipv4_fields s val len pos first = true -> Forall host_byte s.
Proof.
  induction s as [|c s IH]; intros val len pos first; [constructor|]. cbn [ipv4_fields]. destruct (is_digit c) eqn:Ed.
  - destruct (_ && _); [done|]. destruct (_ <? _); [done|]. intros H. constructor; [|by eapply IH]. unfold host_byte. rewrite Ed. by rewrite orb_true_r.
  - destruct (ascii_eqb c ".") eqn:Ec; [|done]. destruct (_ || _); [done|]. destruct (_ =? _); [done|]. intros H. constructor; [|by eapply IH].
    by apply ascii_eqb_eq in Ec as ->.
Qed.
Lemma hex_group_bytes s : forall off k rest, hex_group s off = Some (k, rest) -> exists pre, s = pre ++ rest /\ Forall host_byte pre.
Proof.
  induction s as [|c s IH]; intros off k rest; cbn [hex_group]; [intros [= <- <-]; by exists []|].
  destruct (hex_value c) eqn:Ev; [|intros [= <- <-]; by exists []]. destruct (_ <? _)%nat; [done|].
  intros (pre & -> & Hp)%IH. exists (c :: pre). split; [done|]. constructor; [|done]. revert Ev. unfold host_byte. every_byte c.
Qed.
Lemma ipv6_bytes n : forall s ell, ipv6_groups n s ell = true -> Forall host_byte s.
Proof.
  induction n as [|n IH]; intros s ell; cbn [ipv6_groups]; [intros [E _]%andb_true_iff; by apply bool_decide_eq_true in E as ->|].
  destruct (hex_group s 0) as [[[|k] rest]|] eqn:Eg; [done| |done]. apply hex_group_bytes in Eg as (pre & -> & Hpre).
  destruct rest as [|c more]; [intros _; by rewrite app_nil_r|]. destruct (ascii_eqb c ".") eqn:Ed.
  - destruct (_ && _); [done|]. destruct (_ <? _)%nat; [done|]. intros [H _]%andb_true_iff. by eapply ipv4_bytes.
  - destruct (ascii_eqb c ":") eqn:Ec; [|done]. apply ascii_eqb_eq in Ec as ->. cbn [negb]. destruct more as [|d more]; [done|].
    destruct (ascii_eqb d ":") eqn:Ec2.
    + apply ascii_eqb_eq in Ec2 as ->. destruct ell; [done|]. intros H. apply Forall_app. split; [done|]. do 2 (constructor; [done|]).
      case_bool_decide; [by subst|]. by eapply IH.
    + intros H%IH. apply Forall_app. split; [done|]. by constructor.
Qed.
Lemma parse_ipv6_bytes s : parse_ipv6 s = true -> Forall host_byte s.
Proof.
  unfold parse_ipv6. repeat case_match; subst; try apply ipv6_bytes. all: intros H; do 2 (constructor; [done|]).
  - case_bool_decide; [by subst|done].
  - by eapply ipv6_bytes.
Qed.

Lemma host_byte_facts c : host_byte c -> is_ascii c = true /\ is_nl c = false /\ is_space c = false /\ host_byte (lower_byte c).
Proof. unfold host_byte. every_byte c. Qed.

Section Hosts.
Context `{U : Unicode}.

Lemma ToLower_host s : Forall host_byte s -> Forall host_byte (ToLower s) /\ (s <> [] -> ToLower s <> []).
Proof.
  intros Hs. assert (all_ascii s = true) as Ha.
  { unfold all_ascii. rewrite forallb_forall. intros c Hc. rewrite Forall_forall in Hs. by apply host_byte_facts, Hs, list_elem_of_In. }
  rewrite (ToLower_ascii s Ha). split; [|by destruct s]. apply Forall_map. eapply Forall_impl; [exact Hs|]. intros c Hc. by apply host_byte_facts.
Qed.

Lemma valid_ipv6_bytes s : validAuthorityIPv6Literal s = true -> s <> [] /\ Forall host_byte s.
Proof.
  unfold validAuthorityIPv6Literal. destruct (str_eqb s []) eqn:E; [done|]. apply str_eqb_neq in E. unfold ParseAddr.
  intros H. split; [done|]. repeat (case_match; simplify_eq/=; try done); try (by apply parse_ipv6_bytes).
  apply str_eqb_eq in H. case_bool_decide; done.
Qed.
Lemma valid_host_bytes s : validAuthorityHost s = true -> Forall host_byte s.
Proof.
  unfold validAuthorityHost. rewrite forallb_forall, Forall_forall. intros H c Hc%list_elem_of_In%H. revert Hc. unfold host_byte. every_byte c.
Qed.

Lemma splitAuthority_host a host port : splitAuthority a = Some (host, port) -> host <> [] /\ Forall host_byte host.
Proof.
  assert (forall x, x <> [] -> Forall host_byte x -> ToLower x <> [] /\ Forall host_byte (ToLower x)) as Hl
    by (intros x Hne Hx; destruct (ToLower_host x Hx); auto).
  unfold splitAuthority. destruct (str_eqb (TrimSpace a) []) eqn:E0; [done|]. apply str_eqb_neq in E0.
  destruct (_ && _).
  - destruct (validAuthorityIPv6Literal _) eqn:Ev; [|done]. apply valid_ipv6_bytes in Ev as [? ?]. intros [= <- _]. by apply Hl.
  - destruct (ContainsByte _ ":"); cbn [negb].
    + destruct (SplitHostPort _) as [[h pt]|]; [|done]. destruct (str_eqb h []) eqn:Eh; [done|]. apply str_eqb_neq in Eh.
      assert (forall b, (if ContainsByte h ":" then negb (validAuthorityIPv6Literal h) else negb (validAuthorityHost h)) = b -> b = false -> Forall host_byte h) as Hb.
      { intros b <-. destruct (ContainsByte h ":"); intros ?%negb_false_iff; [by apply valid_ipv6_bytes|by apply valid_host_bytes]. }
      destruct (if ContainsByte h ":" then _ else _) eqn:Ei; [done|]. specialize (Hb _ eq_refl eq_refl).
      destruct (Atoi pt); [|done]. destruct (_ || _); [done|]. intros [= <- _]. by apply Hl.
    + destruct (validAuthorityHost _) eqn:Ev; [|done]. intros [= <- _]. by apply Hl; [|apply valid_host_bytes].
Qed.

Lemma host_trimmed s : Forall host_byte s -> plain s /\ Trim is_space s = s.
Proof.
  intros Hs. split; [eapply Forall_impl; [exact Hs|]; intros c Hc; by apply host_byte_facts|].
  unfold Trim, TrimRight. rewrite (TrimLeft_id is_space s); [rewrite (TrimLeft_id is_space (rev s)); [apply rev_involutive|]|].
  - intros c r E. assert (In c (rev s)) as Hc by (rewrite E; simpl; auto). apply in_rev, list_elem_of_In in Hc. rewrite Forall_forall in Hs. by apply host_byte_facts, Hs.
  - intros c r E. rewrite E in Hs. apply Forall_cons in Hs as [Hc _]. by apply host_byte_facts.
Qed.
End Hosts.

(** ** From the parsed request to the relay *)

(** What [http.ReadRequest] leaves in a request: a method on one line; header names that are tokens in canonical
    form; Host and Transfer-Encoding taken out of the header; no transfer coding but chunked, with a negative length, and without it a
    Content-Length that reads as the length, if there is one. *)
Record http_parsed (req : ParsedRequest) : Prop := {
  hp_method : pr_Method req <> [] /\ plain (pr_Method req);
  hp_names : forall k, is_Some (pr_Header req !! k) -> validHeaderName k = true /\ CanonicalHeaderKey k = k;
  hp_removed : pr_Header req !! bs "Host" = None /\ pr_Header req !! bs "Transfer-Encoding" = None;
  hp_coding : pr_TransferEncoding req = [] \/ (pr_TransferEncoding req = [bs "chunked"] /\ pr_ContentLength req < 0);
  hp_length : pr_TransferEncoding req = [] -> pr_Header req !! bs "Content-Length" = None \/
    exists v, pr_Header req !! bs "Content-Length" = Some [v] /\ read_number 10 v = Some (pr_ContentLength req)
}.

(** Names in canonical form that differ at most in case are equal. *)
Lemma canonical_byte_lower c : ascii_eqb (lower_byte c) "-" = ascii_eqb c "-" /\ lower_byte (lower_byte c) = lower_byte c /\
  (if is_lower c then byte_of (code c - 32) else c) = (if is_lower (lower_byte c) then byte_of (code (lower_byte c) - 32) else lower_byte c).
Proof. every_byte c. Qed.
Lemma canonical_bytes_lower s : forall upper, canonical_bytes upper s = canonical_bytes upper (map lower_byte s).
Proof.
  induction s as [|c s IH]; intros upper; [done|]. cbn [map canonical_bytes]. destruct (canonical_byte_lower c) as (-> & -> & <-). by rewrite <- IH.
Qed.
Lemma canonical_names k K : validHeaderName k = true -> validHeaderName K = true -> CanonicalHeaderKey k = k -> CanonicalHeaderKey K = K ->
  map lower_byte k = map lower_byte K -> k = K.
Proof. unfold CanonicalHeaderKey. intros -> -> Hk HK H. etrans; [symmetry; exact Hk|]. by rewrite canonical_bytes_lower, H, <- canonical_bytes_lower. Qed.

Section Forwarded.
Context `{U : Unicode}.

(** What validation leaves as it was. *)
Lemma Validate_keeps r head r' : Validate (Some r) head = (Some r', None) ->
  pr_Header r' ⊆ pr_Header r /\ pr_Method r' = pr_Method r /\ pr_TransferEncoding r' = pr_TransferEncoding r /\
  pr_ContentLength r' = pr_ContentLength r /\ (pr_TransferEncoding r = [] -> 0 <= pr_ContentLength r) /\ is_Some (splitAuthority (pr_Host r')).
Proof.
  unfold Validate. destruct (ScanRawHead head); [done|]. destruct (pr_URL r) as [u|] eqn:Eu; [|done].
  destruct (_ || _); [done|]. destruct (str_eqb _ _); [done|]. destruct (hasUpgradeHeaders r); [done|].
  destruct (validateTarget r u head) as [r1 [j|]] eqn:Et; [done|].
  apply validateTarget_ok in Et as (M1 & H1 & T1 & Ho1 & TE1 & CL1 & _).
  destruct (splitAuthority (pr_Host r1)) as [[host port]|] eqn:Es; [|done].
  destruct (validateFraming r1 head) eqn:Ef; [done|]. apply validateFraming_ok in Ef as [_ Ef].
  assert (pr_TransferEncoding r1 = [] -> 0 <= pr_ContentLength r1) as Hcl by (intros Ht; destruct Ef as [[_ ?]|(te & Hte & _)]; [done|congruence]).
  unfold validateExpect. destruct (Values (pr_Header r1) "Expect") as [|v [|? ?]]; [| |done].
  - intros [= <- _]. split_and!; [by rewrite H1|congruence|congruence|congruence|intros; rewrite <- CL1; apply Hcl; congruence|by rewrite Es].
  - destruct (EqualFold _ _); [|done]. intros [= <- _]. cbn. split_and!; [rewrite <- H1; apply delete_subseteq|congruence|congruence|congruence|intros; rewrite <- CL1; apply Hcl; congruence|by rewrite Es].
Qed.

(** [cloneRequest] of the request that the pipeline left, with an empty [RequestURI], and with the framing, the query and the
    body that net/http read.  [URL.Opaque] is empty: [validateTarget] refuses the targets that have one, since they have no host. *)
Definition out_request_of (r : Request) (u : ReqURL) (h : Header) (parsed : ParsedRequest) (forceQuery : bool) (query : gostring) (b : option body) : out_request :=
  {| o_Method := rq_Method r; o_RequestURI := url_RequestURI u forceQuery query; o_Host := rq_Host r;
     o_URLHost := default [] (pu_Host <$> pr_URL parsed); o_Header := h; o_TransferEncoding := pr_TransferEncoding parsed;
     o_ContentLength := pr_ContentLength parsed; o_Body := b |}.

(** The body that goes with it: none if its length is zero; the reader of a sized body delivers as many bytes as
    announced, or an error. *)
Definition body_delivers (parsed : ParsedRequest) (b : option body) : Prop :=
  (b = None <-> pr_ContentLength parsed = 0) /\
  (pr_TransferEncoding parsed = [] -> forall b', b = Some b' ->
     let n := Z.of_nat (length (concat (reads b'))) in if body_ok b' then n = pr_ContentLength parsed else n < pr_ContentLength parsed).

Lemma outgoing_keys h cred tok k : is_Some (outgoing h cred tok !! k) -> k = bs "Authorization" \/ is_Some (h !! k).
Proof.
  intros H. unfold outgoing, Set_ in H. destruct cred; [destruct (str_eqb tok [])|]; [by right| |by right].
  destruct (decide (k = bs "Authorization")) as [->|Hk]; [by left|right]. by rewrite lookup_insert_ne in H.
Qed.
Lemma outgoing_other h cred tok k : k <> bs "Authorization" -> outgoing h cred tok !! k = h !! k.
Proof. intros Hk. unfold outgoing, Set_. destruct cred; [destruct (str_eqb tok [])|]; [done|by rewrite lookup_insert_ne|done]. Qed.
Lemma subset_lookup (h g : Header) k : h ⊆ g -> h !! k = None \/ h !! k = g !! k.
Proof. intros Hs. destruct (h !! k) eqn:E; [right|by left]. symmetry. by eapply lookup_weaken. Qed.

(** What the pipeline leaves can be written. *)
Lemma forwarded_relayed r p h cred tok req force query b :
  http_parsed req -> rq_Method r = pr_Method req -> (pr_TransferEncoding req = [] -> 0 <= pr_ContentLength req) ->
  h ⊆ pr_Header req -> rq_Host r <> [] -> Forall host_byte (rq_Host r) -> no_ctl query -> body_delivers req b ->
  relayed (out_request_of r (canonical_url p) (outgoing h cred tok) req force query b).
Proof.
  intros [Hm Hn [Hr1 Hr2] Hco Hle] EM Hcl Hsub Hne Hhost Hq Hb.
  assert (forall k, k ∈ framing_names -> k <> bs "Authorization") as Hna.
  { unfold framing_names. intros k Hk ->. rewrite !elem_of_cons, elem_of_nil in Hk. naive_solver. }
  destruct (url_RequestURI_ok (canonical_url p) force query Hq) as [Hu1 Hu2].
  assert (head_host (out_request_of r (canonical_url p) (outgoing h cred tok) req force query b) = rq_Host r) as Eh.
  { unfold head_host. cbn. by rewrite (proj2 (str_eqb_neq _ _) Hne). }
  split.
  - unfold request_line, head_target. cbn [o_Method o_RequestURI out_request_of]. rewrite EM, (proj2 (str_eqb_neq _ _) Hu1).
    apply Forall_app. split; [apply Hm|]. constructor; [done|]. apply Forall_app. split; [by apply no_ctl_plain|]. by repeat constructor.
  - rewrite Eh. destruct (host_trimmed _ Hhost). done.
  - intros K k HK Hk Hlow. cbn in Hk. apply outgoing_keys in Hk as [->|Hk].
    + unfold framing_names in HK. rewrite !elem_of_cons, elem_of_nil in HK. destruct HK as [->|[->|[->|[]]]]; by vm_compute in Hlow.
    + destruct (subset_lookup h _ k Hsub) as [E|E]; [rewrite E in Hk; by destruct Hk|]. rewrite E in Hk. destruct (Hn k Hk).
      apply canonical_names; try done; unfold framing_names in HK; rewrite !elem_of_cons, elem_of_nil in HK; destruct HK as [->|[->|[->|[]]]]; done.
  - cbn. rewrite !outgoing_other by done. destruct (subset_lookup h _ (bs "Host") Hsub) as [->| ->], (subset_lookup h _ (bs "Transfer-Encoding") Hsub) as [->| ->]; done.
  - unfold usesChunkedTransferEncoding. cbn [out_request_of o_TransferEncoding o_ContentLength o_Header o_Body]. intros Hc.
    assert (pr_TransferEncoding req = []) as Ht by (destruct Hco as [?|[E _]]; [done|by rewrite E in Hc]). split_and!; [by apply Hcl| |].
    + rewrite outgoing_other by done. destruct (subset_lookup h _ (bs "Content-Length") Hsub) as [->| ->]; [by left|by apply Hle].
    + destruct Hb as [Hb1 Hb2]. destruct b as [b|]; [by apply Hb2|by apply Hb1].
Qed.

(** Authorization is not a framing name. *)
Lemma head_header_auth req : head_header req !! bs "Authorization" = o_Header req !! bs "Authorization".
Proof. unfold head_header, Set_. destruct (usesChunkedTransferEncoding req); cbn [negb]; rewrite ?andb_false_r, ?andb_true_r; [|case_match]; by simplify_map_eq. Qed.

(** The token that goes out for a match with credential [cred]. *)
Definition sent_token (cred : option CredentialSelector) (tok : gostring) : list gostring :=
  match cred with Some _ => if str_eqb tok [] then [] else [clean (bearer tok)] | None => [] end.
(** The fields a forwarded request may have: the ones that are pinned by themselves (the host, the credential and the framing);
    the two that net/http may add, with their values; and a field of the agent's own header, with a value that it has there, cleaned of
    line breaks and surrounding space, if it is neither stripped nor hop-by-hop. *)
Definition field_allowed (agent : Header) (f : gostring * gostring) : Prop :=
  f.1 ∈ bs "Authorization" :: framing_names \/
  f ∈ [(bs "Connection", bs "close"); (bs "User-Agent", bs "Go-http-client/1.1")] \/
  (shouldStrip (ToLower f.1) = false /\ hopByHop (ToLower f.1) = false /\ exists vs v, agent !! f.1 = Some vs /\ v ∈ vs /\ f.2 = clean v).

(** Authorization has one spelling in the header, and one value, the broker's. *)
Lemma agent_fields g h cred tok req :
  http_parsed req -> h ⊆ pr_Header req -> (forall k, shouldStrip (ToLower k) = true \/ hopByHop (ToLower k) = true -> h !! k = None) ->
  (forall k vs, g !! k = Some vs -> k ∈ framing_names \/ outgoing h cred tok !! k = Some vs) ->
  g !! bs "Authorization" = outgoing h cred tok !! bs "Authorization" ->
  Forall (field_allowed (pr_Header req)) (header_fields g) /\ field_values "authorization" (header_fields g) = sent_token cred tok.
Proof.
  intros Hp Hsub Hstrip Hg Ha.
  assert (forall k vs, g !! k = Some vs -> k ∈ framing_names \/ k = bs "Authorization" \/ h !! k = Some vs) as Hkeys.
  { intros k vs [?|Hk]%Hg; [by left|]. destruct (decide (k = bs "Authorization")) as [->|Hne]; [by auto|]. rewrite outgoing_other in Hk by done. by auto. }
  split.
  - apply Forall_forall. intros f (vs & v & Hf & Hin & Ev)%header_fields_in. unfold field_allowed. apply Hkeys in Hf as [Hf|[Hf|Hv]]; [left; by right|left; rewrite Hf; by left|].
    right. right. destruct (shouldStrip (ToLower f.1)) eqn:E1; [by rewrite Hstrip in Hv by auto|]. destruct (hopByHop (ToLower f.1)) eqn:E2; [by rewrite Hstrip in Hv by auto|].
    split_and!; [done|done|]. exists vs, v. split_and!; [by eapply lookup_weaken|done|done].
  - change (bs "authorization") with (map lower_byte (bs "Authorization")). rewrite field_values_header; [|done|done|].
    + assert (h !! bs "Authorization" = None) as Hn by (apply Hstrip; left; reflexivity). unfold Values. rewrite Ha.
      unfold outgoing, sent_token, Set_. destruct cred; [destruct (str_eqb tok [])|]; [by rewrite Hn|by rewrite lookup_insert_eq|by rewrite Hn].
    + intros k [vs Hk] Hlow. apply Hkeys in Hk as [Hk|[Hk|Hk]]; [|done|].
      * exfalso. unfold framing_names in Hk. rewrite !elem_of_cons, elem_of_nil in Hk. destruct Hk as [->|[->|[->|[]]]]; by vm_compute in Hlow.
      * destruct (hp_names req Hp k) as [? ?]; [eexists; by eapply lookup_weaken|]. by apply canonical_names.
Qed.

(** The fields that the proxy adds to the header's are allowed, and none is an Authorization. *)
Definition own_field (f : gostring * gostring) : bool :=
  existsb (str_eqb f.1) framing_names || (str_eqb f.1 "Connection" && str_eqb f.2 "close").
Lemma own_fields agent l : forallb own_field l = true -> Forall (field_allowed agent) l /\ field_values "authorization" l = [].
Proof.
  induction l as [|[k v] l IH]; [done|]. cbn [forallb]. intros [Hf Hl]%andb_true_iff. destruct (IH Hl) as [IH1 IH2].
  assert (field_allowed agent (k, v) /\ field_values "authorization" [(k, v)] = []) as [H1 H2].
  { unfold own_field, framing_names in Hf. cbn [existsb fst snd] in Hf. rewrite !orb_true_iff, andb_true_iff, !str_eqb_eq in Hf. unfold field_allowed, framing_names. cbn [fst].
    rewrite !elem_of_cons. destruct Hf as [[->|[->|[->|Hf]]]|[-> ->]]; [| | |done|]; (split; [|done]); auto 10. }
  split; [by constructor|]. change ((k, v) :: l) with ([(k, v)] ++ l). by rewrite field_values_app, H2.
Qed.

(** The User-Agent that net/http writes is the agent's first one, or its default. *)
Lemma user_agent_allowed h cred tok agent : h ⊆ agent ->
  (forall k, shouldStrip (ToLower k) = true \/ hopByHop (ToLower k) = true -> h !! k = None) ->
  Forall (field_allowed agent) (user_agent (outgoing h cred tok)) /\ field_values "authorization" (user_agent (outgoing h cred tok)) = [].
Proof.
  intros Hsub Hstrip. unfold user_agent. destruct (str_eqb _ []) eqn:E; [by split; [constructor|]|]. split; [|done]. constructor; [|constructor].
  unfold Get, Values in *. rewrite (outgoing_other h cred tok (bs "User-Agent")) in * by done. destruct (h !! bs "User-Agent") as [vs|] eqn:Eu; [|right; left; by right; left].
  right. right. cbn [fst snd]. cbn [default] in *. destruct (shouldStrip _) eqn:E1; [by rewrite Hstrip in Eu by auto|]. destruct (hopByHop _) eqn:E2; [by rewrite Hstrip in Eu by auto|].
  split_and!; [done..|]. destruct vs as [|v vs]; [done|]. exists (v :: vs), v. split_and!; [by eapply lookup_weaken|by left|done].
Qed.

Lemma forwarded_framed r p h req force query b :
  http_parsed req -> rq_Method r = pr_Method req -> no_ctl query -> body_delivers req b ->
  framed (out_request_of r (canonical_url p) h req force query b).
Proof.
  intros Hp EM Hq [Hb _]. destruct (url_RequestURI_ok (canonical_url p) force query Hq) as [Hu1 Hu2]. split; cbn.
  - rewrite EM. apply (hp_method req Hp).
  - split; [done|by apply no_ctl_existsb].
  - destruct (hp_coding req Hp) as [->|[-> Hl]]; [left|right]; [split; [done|by rewrite Hb]|]. split_and!; [done| |lia].
    destruct b; [by eexists|]. destruct Hb as [Hb _]. specialize (Hb eq_refl). lia.
Qed.

Lemma host_value_host punycode host : Forall host_byte host -> host_value punycode host = Some host.
Proof.
  intros Hh. assert (Forall (fun c => is_ascii c && validHostByte c && negb (ascii_eqb c "[") = true) host) as Hc.
  { eapply Forall_impl; [exact Hh|]. intros c. unfold host_byte. every_byte c. }
  assert (forallb (fun c => is_ascii c && validHostByte c && negb (ascii_eqb c "[")) host = true) as Hf
    by (apply forallb_forall; intros c Hin; rewrite Forall_forall in Hc; by apply Hc, list_elem_of_In).
  unfold host_value, all_ascii. assert (forallb is_ascii host = true /\ forallb validHostByte host = true) as [-> Hv].
  { rewrite !forallb_forall in *. split; intros c Hin; specialize (Hf c Hin); rewrite !andb_true_iff in Hf; tauto. }
  cbn [mbind option_bind]. rewrite Hv. unfold removeZone. destruct host as [|c host]; [done|]. apply Forall_cons in Hc as [Hc _].
  rewrite !andb_true_iff, negb_true_iff in Hc. assert (HasPrefix (c :: host) "[" = false) as Hx; [|by rewrite Hx]. destruct Hc as [_ Hc].
  change (ascii_eqb "[" c && HasPrefix host [] = false). destruct (ascii_eqb "[" c) eqn:E; [|done]. apply ascii_eqb_eq in E as <-. done.
Qed.

(** What the upstream may have received when the relay has written, or failed to write, the request [out] to it. *)
Definition delivered (agent : Header) (expect : bool) (out : out_request) (token : list gostring) (short : nat -> option nat) (r : wire * bool) : Prop :=
  let '(s, ok) := r in
  (if ok then exists m, read_message (up s) = Some (m, []) /\ ms_line m = request_line out /\ field_values "host" (ms_fields m) = [head_host out] /\
     field_values "authorization" (ms_fields m) = token /\ Forall (field_allowed agent) (ms_fields m) /\ ms_body m = content out
   else read_message (up s) = None \/ (expect = true /\ content out = [] /\ down s <> continue_line)) /\
  ((forall n, short n = None) -> body_fine out = true -> ok = true).

Section Deliver.
Context (punycode : gostring -> option gostring) (short : nat -> option nat) (cuts : gostring -> list gostring) (flushed : nat) `{B : !Buffered cuts}.

Lemma host_once x l : length (field_values "host" ((bs "Host", x) :: l)) = 1%nat -> field_values "host" ((bs "Host", x) :: l) = [x].
Proof.
  change (field_values "host" ((bs "Host", x) :: l)) with (x :: field_values "host" l). intros [= Hl]. by apply length_zero_iff_nil in Hl as ->.
Qed.

(** Whichever way it is written, a request that can be relayed is delivered. *)
Lemma relay_delivers r p h cred tok req force query b expect close probed :
  http_parsed req -> rq_Method r = pr_Method req -> (pr_TransferEncoding req = [] -> 0 <= pr_ContentLength req) -> h ⊆ pr_Header req ->
  (forall k, shouldStrip (ToLower k) = true \/ hopByHop (ToLower k) = true -> h !! k = None) ->
  rq_Host r <> [] -> Forall host_byte (rq_Host r) -> no_ctl query -> body_delivers req b ->
  let out := out_request_of r (canonical_url p) (outgoing h cred tok) req force query b in
  delivered (pr_Header req) expect out (sent_token cred tok) short
    (writeUpstreamRequest short (request_Write punycode short cuts flushed probed close None) out expect blank_wire).
Proof.
  intros Hp EM Hcl Hsub Hstrip Hne Hhost Hq Hb out.
  assert (relayed out) as Hr by (by apply forwarded_relayed). assert (framed out) as Hf by (by apply forwarded_framed).
  assert (head_host out = rq_Host r) as Eh by (unfold head_host; cbn; by rewrite (proj2 (str_eqb_neq _ _) Hne)).
  destruct expect.
  - pose proof (continue_one_or_none short (request_Write punycode short cuts flushed probed close None) out Hr) as H.
    destruct (writeUpstreamRequest _ _ _ _ _) as [s ok]. destruct H as [H Hsure]. split; [|done]. destruct ok; [destruct H as [H _]|destruct H as [H|(Hu & Hz & Hd)]; [by left|right]].
    + destruct (head_framing out Hr) as (F1 & F2 & _). eexists. split; [exact H|]. cbn [ms_line ms_fields ms_body].
      assert (head_fields out = [(bs "Host", head_host out)] ++ header_fields (head_header out)) as El.
      { unfold head_fields. rewrite Eh. by rewrite (proj2 (str_eqb_neq _ _) Hne). }
      destruct (agent_fields (head_header out) h cred tok req Hp Hsub Hstrip (head_header_keys out) (head_header_auth out)) as [A1 A2].
      destruct (own_fields (pr_Header req) [(bs "Host", head_host out)] eq_refl) as [O1 O2].
      split_and!; [done|rewrite El in F2 |- *; by apply host_once|rewrite El, field_values_app, O2; done|rewrite El, Forall_app; done|done].
    + split_and!; [done| |done]. destruct (rl_length out Hr Hu) as (_ & _ & Hbody). unfold content. destruct (o_Body out) as [b'|]; [|done].
      cbn zeta in Hbody. rewrite Hz in Hbody. apply length_zero_iff_nil. destruct (body_ok b'); lia.
  - unfold writeUpstreamRequest. cbn [negb].
    pose proof (request_Write_one punycode short cuts flushed probed close out Hr Hf) as H. rewrite Eh in H. specialize (H (host_value_host punycode _ Hhost)).
    destruct (request_Write _ _ _ _ _ _ _ _ _) as [s ok]. destruct H as (_ & H & Hsure). split; [|done]. destruct ok; [|by left].
    destruct (written_framing close out Hr Hf) as (F1 & F2 & _). eexists. split; [exact H|]. cbn [ms_line ms_fields ms_body].
    set (own := (bs "Host", head_host out) :: user_agent (o_Header out) ++ connection_field close (o_Header out) ++ framing_field (o_Method out) (written_transfer out)).
    assert (written_fields close out = own ++ header_fields (writeSubset (o_Header out))) as El.
    { unfold written_fields, transfer_fields, own. cbn [stdpp.option.from_option id]. cbn [app]. by rewrite <- !app_assoc. }
    assert (Forall (field_allowed (pr_Header req)) own /\ field_values "authorization" own = []) as [O1 O2].
    { destruct (user_agent_allowed h cred tok (pr_Header req) Hsub Hstrip) as [U1 U2].
      destruct (own_fields (pr_Header req) [(bs "Host", head_host out)] eq_refl) as [O1 O2].
      destruct (own_fields (pr_Header req) (connection_field close (o_Header out) ++ framing_field (o_Method out) (written_transfer out))) as [O3 O4].
      { rewrite forallb_app. unfold connection_field, framing_field. repeat case_match; done. }
      unfold own. change (user_agent (o_Header out)) with (user_agent (outgoing h cred tok)). change (?x :: ?l) with ([x] ++ l). rewrite !Forall_app in *. rewrite !field_values_app in *. rewrite O2, U2. cbn [app]. split_and!; try done; apply O3. }
    destruct (agent_fields (writeSubset (o_Header out)) h cred tok req Hp Hsub Hstrip) as [A1 A2].
    { intros k vs [Hk _]%map_lookup_filter_Some. by right. }
    { cbn [o_Header out_request_of out]. destruct (outgoing h cred tok !! bs "Authorization") as [v|] eqn:Ea; [apply map_lookup_filter_Some_2|apply map_lookup_filter_None_2; by left]; [done|].
      cbn. unfold reqWriteExcludeHeader. rewrite !elem_of_cons, elem_of_nil. naive_solver. }
    split_and!; [done|by apply host_once|rewrite El, field_values_app, O2; done|rewrite El, Forall_app; done|done].
Qed.
End Deliver.
End Forwarded.

Section Whole.
Context `{U : Unicode} `{S : Sha256} `{N : NetURL} {E : Type} `{V : Services E}.
Context (MaxStaleness : Duration) (pod : AuditIdentity).

(** The host that the pipeline leaves is a name or an address of the request's authority. *)
Lemma agreed_host cs now r r' id host port : splitAuthority (pr_Host r) = Some (host, port) -> rq_Host r' = id ->
  agreed_identity (ToLower (SNI (c_Identity (request_context cs now r)))) (ToLower (AuthorityHost (c_Identity (request_context cs now r)))) = Ok id ->
  rq_Host r' <> [] /\ Forall host_byte (rq_Host r').
Proof.
  intros Hs -> Ha. unfold request_context in Ha. rewrite Hs in Ha. cbn in Ha. apply splitAuthority_host in Hs as [Hne Hh].
  destruct (ToLower_host host Hh) as [Hh' Hne']. apply agreed_identity_ok in Ha as (Hid & _ & Hin). rewrite !elem_of_cons, elem_of_nil in Hin.
  destruct Hin as [E1|[<-|[]]]; [|done]. by apply Hne' in Hne.
Qed.

(** C4: what the upstream reads of a forwarded request.  For every request that net/http can have parsed and the proxy forwards, with [Request.Write] or
    in the relay's own steps after a 100-continue, however its writes are cut and wherever they fail: if the relay
    reports success, a strict reader finds exactly one request on the connection.  Its line has the matched method and the
    escaped form of the URL that the pipeline left, its only Host is the matched identity, its only Authorization is the token the broker gave for
    the matched rule's credential, its body is what the client delivered, and every other field is framing, a Connection: close, net/http's
    default User-Agent, or a field of the agent's request, with a value it had there, that is neither stripped nor hop-by-hop.  If it reports
    failure, no complete request was sent, unless it has no body and only the 100-continue could not be delivered.  Without failures it succeeds.
    (Requests that declare trailers: [undeclared_trailer_forwarded].) *)
Theorem forwarded_wire e h ins n rc c :
  Forall (input_P (fun req _ => http_parsed req)) ins -> Forwarded n rc c ∈ (Serve (production MaxStaleness pod) e h ins).2 ->
  exists req head r hd e3 e4 tr, ReadOk (Some req) head ∈ map in_read ins /\ c_Request rc = Some r /\ rq_URL r = Some (canonical_url (rf_Path (c_Facts rc))) /\ rq_Header r = Some hd /\
    match mr_Credential (c_MatchResult rc) with
    | None => tr = zero_result
    | Some cred => passes e e3 /\ svc_get e3 (toTokenSelector (Some cred)) = (e4, Ok tr) /\ passes e4 (Serve (production MaxStaleness pod) e h ins).1
    end /\
    forall force query b, no_ctl query -> body_delivers req b ->
      let out := out_request_of r (canonical_url (rf_Path (c_Facts rc))) hd req force query b in
      (request_line out = rf_Method (c_Facts rc) ++ " "%char :: url_RequestURI (canonical_url (rf_Path (c_Facts rc))) force query ++ bs " HTTP/1.1" /\
       head_host out = rf_Identity (c_Facts rc)) /\
      forall punycode short cuts flushed expect close probed, Buffered cuts ->
        delivered (pr_Header req) expect out (sent_token (mr_Credential (c_MatchResult rc)) (Reveal (tr_Token tr))) short
          (writeUpstreamRequest short (request_Write punycode short cuts flushed probed close None) out expect blank_wire).
Proof.
  intros Hins Hin. pose proof (stable_order passes stable_passes) as Hpre.
  apply (Serve_forward _ passes (fun req head => http_parsed req /\ ReadOk (Some req) head ∈ map in_read ins))
    in Hin as (Hho & (cs & now & r & req & head & a1 & a2 & steps & d & <- & [HP Hread] & Hv & Hx & Ha & R1 & R2) & Hc).
  2: { intros e0. apply (stable_now _ stable_passes). }
  2: { intros e0 rc0. apply Execute_keeps, stable_passes. }
  2: { rewrite Forall_forall in Hins |- *. intros i Hi req head Hsl Hr. split; [by apply (Hins i Hi req head)|]. rewrite <- Hr. by apply list_elem_of_fmap_2. }
  assert (c_Request (request_context cs now r) = Some (to_request r)) as Hr by (unfold request_context; by destruct (default _ _)).
  destruct (allow_facts MaxStaleness pod passes _ _ _ _ _ _ _ (pr_Header r) stable_passes Hr eq_refl Hx Ha)
    as (e1 & e2 & snap & age & e3 & e4 & tr & r' & h' & ev & (_ & _ & _ & _ & H5 & H6 & _ & _ & H9 & H10 & H11) & _ & Hag & _ & _ & _ & [P3 P4] & _ & Hsub & Hme & Hfm & Hurl).
  apply Validate_keeps in Hv as (Hk1 & Hk2 & Hk3 & Hk4 & Hk5 & [[host port] Hk6]).
  destruct (agreed_host cs now r r' _ host port Hk6 H6 Hag) as [Hne Hhost].
  cbn [to_request rq_Method] in Hme, Hfm. exists req, head, r', (outgoing h' (mr_Credential (c_MatchResult rc)) (Reveal (tr_Token tr))), e3, e4, tr.
  split_and!; [done|done|done|done|by destruct (mr_Credential (c_MatchResult rc)); [split_and!; [by etrans|done|by etrans]|]|].
  intros force query b Hq Hb. split.
  - unfold request_line, head_target, head_host. cbn [o_Method o_RequestURI o_Host out_request_of]. rewrite (proj2 (str_eqb_neq _ _) Hne), Hme, Hfm.
    destruct (url_RequestURI_ok (canonical_url (rf_Path (c_Facts rc))) force query Hq) as [Hu _]. by rewrite (proj2 (str_eqb_neq _ _) Hu).
  - intros punycode short cuts flushed expect close probed HB. apply relay_delivers; try done; [congruence|]. by etrans.
Qed.
End Whole.

(** ** Concrete requests *)

(** A writer without a buffer. *)
Definition at_once (b : gostring) : list gostring := if str_eqb b [] then [] else [b].
Instance at_once_buffered : Buffered at_once.
Proof.
  split; intros b; unfold at_once; destruct (str_eqb b []) eqn:E; [apply str_eqb_eq in E as ->; done|cbn; by rewrite app_nil_r|constructor|].
  constructor; [by apply str_eqb_neq|constructor].
Qed.
Definition no_punycode (host : gostring) : option gostring := None.

Lemma get_request_parsed : http_parsed get_request.
Proof. split; cbn; [by split; [|by repeat constructor]|by intros k []|done|by left|by left]. Qed.

Lemma get_request_body : body_delivers get_request None.
Proof. split; [done|by intros _ b' [=]]. Qed.

Lemma forwarded_wire_witness : exists n rc c m, Forwarded n rc c ∈ demo_serve.2 /\
  ms_line m = rf_Method (c_Facts rc) ++ " "%char :: url_RequestURI (canonical_url (rf_Path (c_Facts rc))) false [] ++ bs " HTTP/1.1" /\
  field_values "host" (ms_fields m) = [rf_Identity (c_Facts rc)] /\ Forall (field_allowed (U := ascii_only) ∅) (ms_fields m).
Proof.
  pose proof demo_serve_shape as Hs. destruct demo_serve as [e t] eqn:Es. cbn [snd] in Hs |- *.
  destruct t as [|x0 [|[ | | | | | n rc c | ] t]]; try discriminate Hs.
  assert (Forwarded n rc c ∈ demo_serve.2) as Hin by (rewrite Es; right; left).
  assert (Forall (input_P (fun req _ => http_parsed req)) [demo_input; demo_input]) as Hi.
  { assert (input_P (fun req _ => http_parsed req) demo_input) as H by (intros req head _ [= <- <-]; exact get_request_parsed).
    constructor; [exact H|constructor; [exact H|constructor]]. }
  destruct (forwarded_wire (U := ascii_only) (S := sha_id) (N := opaque_urls) (V := demo_services) _ _ _ _ _ _ _ _ Hi Hin) as (req & head & r & hd & e3 & e4 & tr & Hread & _ & _ & _ & _ & H).
  assert (req = get_request) as -> by (cbn in Hread; rewrite !elem_of_cons, elem_of_nil in Hread; destruct Hread as [[= H1 _]|[[= H1 _]|[]]]; exact H1).
  destruct (H false [] None (List.Forall_nil _) get_request_body) as [[Hline Hhost] Hdel].
  specialize (Hdel no_punycode (fun _ => None) at_once 0%nat false false false _).
  destruct (writeUpstreamRequest _ _ _ _ _) as [s ok]. destruct Hdel as [Hd Hsure]. rewrite (Hsure (fun _ => eq_refl) eq_refl) in Hd.
  destruct Hd as (m & _ & M1 & M2 & _ & M4 & _). exists n, rc, c, m. rewrite Es in Hin. split; [exact Hin|]. rewrite M1, M2. split; [exact Hline|]. split; [rewrite Hhost; reflexivity|exact M4].
Defined.

(** *** An encoded slash that becomes a slash *)

(** One rule: GET on [/v1/users] and below. *)
Definition users_only : compiledSnapshot :=
  match Compile (U := ascii_only) (S := sha_id) (O := merge_sort_slice)
    [sample_policy "api" [sample_rule "read" "api.example.com" [bs "GET"] [{| pm_Type := "Prefix"; pm_Value := "/v1/users" |}] (Some graph_credential)]] with
  | Ok s => s | Err _ => {| version := []; rules := [] |} end.
Definition users_services : Services Z :=
  {| svc_clock := tick_clock; svc_current e := (e, Some (users_only, Second)); svc_get := @svc_get Z demo_services; svc_record := @svc_record Z demo_services |}.

Definition sly_target : gostring := bs "/v1/users/|%2F..%2F..%2F..%2Fadmin".
Definition sly_request (target : gostring) : ParsedRequest :=
  let u := default {| ru_Path := []; ru_RawPath := [] |} (setPath target) in
  {| pr_Method := "GET"; pr_ProtoMajor := 1; pr_ProtoMinor := 1;
     pr_URL := Some {| pu_Scheme := []; pu_Host := []; pu_Path := ru_Path u; pu_RawPath := ru_RawPath u |};
     pr_RequestURI := target; pr_Host := "api.example.com"; pr_Header := ∅; pr_Trailer := ∅; pr_TransferEncoding := []; pr_ContentLength := 0 |}.
Definition sly_input (target : gostring) : input :=
  {| slot := true; in_read := ReadOk (Some (sly_request target)) (crlf_join [bs "GET " ++ target ++ bs " HTTP/1.1"; bs "Host: api.example.com"; bs ""]);
     in_io := demo_io; next_byte := false; buffered := false |}.
(** The escaped paths of the requests that are forwarded. *)
Definition sent_paths (t : list effect) : list gostring :=
  concat (map (fun x => match x with
                        | Forwarded _ rc _ => match c_Request rc with Some r => from_option (fun u => [EscapedPath u]) [] (rq_URL r) | None => [] end
                        | _ => [] end) t).
Definition users_serve (target : gostring) : list effect :=
  (Serve (U := ascii_only) (S := sha_id) (N := opaque_urls) (C := @svc_clock Z users_services)
     (production (U := ascii_only) (V := users_services) 0 no_pod) 0 demo_handover [sly_input target]).2.

(** The policy allows GET below [/v1/users] only, and refuses [/admin]; the proxy forwards, with the broker's token, a request whose
    path a server resolves to [/admin].  The matched path keeps [%2F], but net/url does not accept its bar, and encodes the
    decoded path instead, in which the encoded slashes are slashes. *)
Lemma encoded_slash_bypass :
  sent_paths (users_serve "/admin") = [] /\
  sent_paths (users_serve sly_target) = [bs "/v1/users/%7C/../../../admin"] /\
  CanonicalizePath "/v1/users/%7C/../../../admin" = Ok (bs "/admin").
Proof. split_and!; vm_compute; reflexivity. Qed.

(** *** A trailer that was not declared *)

Definition trailer_head : gostring :=
  crlf_join [bs "POST /v1/users HTTP/1.1"; bs "Host: api.example.com"; bs "Transfer-Encoding: chunked"; bs "Trailer: X-Sum"; bs ""].
(** The request as it is parsed: the Trailer header has been moved to the trailer map. *)
Definition trailer_request : ParsedRequest :=
  {| pr_Method := "POST"; pr_ProtoMajor := 1; pr_ProtoMinor := 1;
     pr_URL := Some {| pu_Scheme := []; pu_Host := []; pu_Path := "/v1/users"; pu_RawPath := [] |};
     pr_RequestURI := "/v1/users"; pr_Host := "api.example.com"; pr_Header := ∅;
     pr_Trailer := {[ bs "X-Sum" := [] ]}; pr_TransferEncoding := [bs "chunked"]; pr_ContentLength := -1 |}.

(** Validation and sanitisation look at the trailers that the head declares.  Those that the client sends at the end of the body are merged by
    net/http into the same map, declared or not, and [Request.Write] sends the whole map: the agent's Authorization reaches the upstream. *)
Lemma undeclared_trailer_forwarded :
  exists r, Validate (U := ascii_only) (Some trailer_request) trailer_head = (Some r, None) /\
  let r' := sanitise_request (U := ascii_only) (to_request r) in
  let tr := {| tr_declared := (map_to_list (default ∅ (rq_Trailer r'))).*1;
               tr_received := {[ bs "X-Sum" := [bs "1"]; bs "Authorization" := [bs "Bearer agent"]; bs "X-Forwarded-For" := [bs "10.0.0.1"] ]} |} in
  let out := out_request_of r' (canonical_url "/v1/users") (outgoing ∅ (Some graph_credential) "tok") r false [] (Some {| reads := [bs "hi"]; body_ok := true |}) in
  request_bytes no_punycode false false (Some tr) out =
    (crlf_join [bs "POST /v1/users HTTP/1.1"; bs "Host: api.example.com"; bs "User-Agent: Go-http-client/1.1"; bs "Transfer-Encoding: chunked";
                bs "Trailer: X-Sum"; bs "Authorization: Bearer tok"; bs ""; bs "2"; bs "hi"; bs "0";
                bs "Authorization: Bearer agent"; bs "X-Forwarded-For: 10.0.0.1"; bs "X-Sum: 1"; bs ""], true).
Proof. eexists. split; [vm_compute; reflexivity|vm_compute; reflexivity]. Qed.
