(* ===== verification/Response.v ===== *)
(** * The response side of [relay.go]: [http.ReadResponse], the strip, the limit and [Response.Write]

    Which response the proxy takes from the upstream connection, how net/http frames it again for the client, and what a
    strict client reads.  The writes of [Response.Write] are not buffered: each of them may fail.  The record [wire] of Relay.v is
    used with the client's connection as the one that is written to. *)

From S2P Require Import Prelude GoStrings GoRuntime Decision Stages RawHead Validate Limits Handler Wire Relay RequestWrite.
#[local] Open Scope Z_scope.

(** ** [http.ReadResponse] *)

(** [ParseHTTPVersion]. *)
Definition parse_digit (c : ascii) : option Z := if is_digit c then Some (code c - 48) else None.
Definition ParseHTTPVersion (vers : gostring) : option (Z * Z) :=
  if HasPrefix vers "HTTP/" then
    match drop 5 vers with
    | [a; dot; b] => if ascii_eqb dot "." then major ← parse_digit a; minor ← parse_digit b; Some (major, minor) else None
    | _ => None
    end
  else None.

(** The version, [Status] and [StatusCode]. *)
Definition parse_status (line : gostring) : option (Z * Z * gostring * Z) :=
  i ← IndexByte line " ";
  let status := TrimLeft (fun c => ascii_eqb c " ") (drop (i + 1) line) in
  let statusCode := match IndexByte status " " with Some j => take j status | None => status end in
  if negb (length statusCode =? 3)%nat then None
  else
    statusCode ← Atoi statusCode;
    if statusCode <? 0 then None
    else '(major, minor) ← ParseHTTPVersion (take i line); Some (major, minor, status, statusCode).

Definition bodyAllowedForStatus (status : Z) : bool :=
  negb ((100 <=? status) && (status <=? 199)) && negb (status =? 204) && negb (status =? 304).
Definition noResponseBodyExpected (requestMethod : gostring) : bool := str_eqb requestMethod "HEAD".

(** [httpguts.HeaderValuesContainsToken]. *)
Definition containsToken (values : list gostring) (token : gostring) : bool :=
  existsb (fun v => existsb (fun x => str_eqb (map lower_byte (Trim is_blank x)) token) (Split v ",")) values.
Definition shouldClose (major minor : Z) (h : Header) : bool :=
  if major <? 1 then true
  else
    let conv := Values h "Connection" in
    if (major =? 1) && (minor =? 0) then containsToken conv "close" || negb (containsToken conv "keep-alive") else containsToken conv "close".

(** [-1] is no length; [None] is an error. *)
Definition parseContentLength (clHeaders : list gostring) : option Z :=
  match clHeaders with
  | [] => Some (-1)
  | cl :: _ => n ← read_number 10 (Trim is_space cl); if n <? 2 ^ 63 then Some n else None
  end.

Definition fixLength (status : Z) (requestMethod : gostring) (contentLens : list gostring) (chunked : bool) : option Z :=
  match contentLens with
  | first :: rest => if existsb (fun ct => negb (str_eqb (Trim is_space first) (Trim is_space ct))) rest then None else Some tt
  | [] => Some tt
  end ;;
  n ← parseContentLength contentLens;
  if noResponseBodyExpected requestMethod then Some 0
  else if negb (bodyAllowedForStatus status) then Some 0
  else if chunked then Some (-1)
  else Some n.

(** [parseTransferEncoding]: whether the body is chunked. *)
Definition parseTransferEncoding (major minor : Z) (h : Header) : option bool :=
  match h !! bs "Transfer-Encoding" with
  | None => Some false
  | Some raw =>
      if negb ((1 <? major) || (major =? 1) && (1 <=? minor)) then Some false
      else match raw with [te] => if str_eqb (map lower_byte te) "chunked" then Some true else None | _ => None end
  end.

(** [fixTrailer]: the declared names. *)
Definition fixTrailer (h : Header) (chunked : bool) : option (option (list gostring)) :=
  match h !! bs "Trailer" with
  | None => Some None
  | Some vv =>
      if negb chunked then Some None
      else
        let keys := remove_dups (map CanonicalHeaderKey (List.filter nonempty (map (Trim is_space) (concat (map (fun v => Split v ",") vv))))) in
        if existsb (fun k => bool_decide (k ∈ [bs "Transfer-Encoding"; bs "Trailer"; bs "Content-Length"])) keys then None
        else Some (if bool_decide (keys = []) then None else Some keys)
  end.

Record response := {
  rs_major : Z; rs_minor : Z; rs_Status : gostring; rs_StatusCode : Z; rs_Header : Header;
  rs_ContentLength : Z; rs_TransferEncoding : list gostring; rs_Close : bool; rs_Trailer : option (list gostring)
}.

Definition fixPragmaCacheControl (h : Header) : Header :=
  if str_eqb (Get h "Pragma") "no-cache" then match h !! bs "Cache-Control" with None => <[bs "Cache-Control" := [bs "no-cache"]]> h | Some _ => h end else h.

(** Where the body comes from. *)
Inductive body_source := NoBody | FromChunks | FromLength (n : Z) | UntilClose.

(** The status line and the header, read by net/textproto, and [readTransfer].  What it does to Content-Length and Trailer in the header
    map is left out: [Response.Write] excludes both. *)
Definition ReadResponse (requestMethod line : gostring) (h : Header) : option (response * body_source) :=
  '(major, minor, status, statusCode) ← parse_status line;
  chunked ← parseTransferEncoding major minor h;
  realLength ← fixLength statusCode requestMethod (Values h "Content-Length") chunked;
  length ← (if noResponseBodyExpected requestMethod then parseContentLength (Values h "Content-Length") else Some realLength);
  trailer ← fixTrailer h chunked;
  let close := shouldClose major minor h || (realLength =? -1) && negb chunked && bodyAllowedForStatus statusCode in
  let source :=
    if chunked : bool then if noResponseBodyExpected requestMethod || negb (bodyAllowedForStatus statusCode) then NoBody else FromChunks
    else if realLength =? 0 then NoBody
    else if 0 <? realLength then FromLength realLength
    else if close then UntilClose else NoBody in
  Some ({| rs_major := major; rs_minor := minor; rs_Status := status; rs_StatusCode := statusCode;
           rs_Header := delete (bs "Transfer-Encoding") (fixPragmaCacheControl h); rs_ContentLength := length;
           rs_TransferEncoding := if chunked then [bs "chunked"] else []; rs_Close := close; rs_Trailer := trailer |}, source).

(** ** The relay *)

(** [newResponseBodyLimitReader]: the reads of a body under a limit.  The read that crosses it is delivered, with the error. *)
Fixpoint limit_reads (limit count : Z) (l : list gostring) (ok : bool) : body :=
  match l with
  | [] => {| reads := []; body_ok := ok |}
  | d :: l =>
      let count := wrap64 (count + Z.of_nat (length d)) in
      if limit <? count then {| reads := [d]; body_ok := false |}
      else let b := limit_reads limit count l ok in {| reads := d :: reads b; body_ok := body_ok b |}
  end.
Definition limit_body (limit : Z) (b : body) : body := limit_reads limit 0 (reads b) (body_ok b).

(** [stripHopByHop(resp.Header)]. *)
Definition stripped `{U : Unicode} (r : response) : response :=
  {| rs_major := rs_major r; rs_minor := rs_minor r; rs_Status := rs_Status r; rs_StatusCode := rs_StatusCode r;
     rs_Header := stripHopByHop (rs_Header r); rs_ContentLength := rs_ContentLength r; rs_TransferEncoding := rs_TransferEncoding r;
     rs_Close := rs_Close r; rs_Trailer := rs_Trailer r |}.

(** ** [Response.Write] *)

Definition digit (d : Z) : ascii := byte_of (48 + d).
Definition pad3 (n : Z) : gostring := [digit (n / 100 mod 10); digit (n / 10 mod 10); digit (n mod 10)].
Definition TrimPrefix (s p : gostring) : gostring := if HasPrefix s p then drop (length p) s else s.

(** The status line; [Status] is not empty, since it begins with the code. *)
Definition status_line (r : response) : gostring :=
  bs "HTTP/" ++ digit (rs_major r) :: "."%char :: digit (rs_minor r) :: " "%char :: pad3 (rs_StatusCode r) ++ " "%char ::
  TrimPrefix (rs_Status r) (Itoa (Z.to_nat (rs_StatusCode r)) ++ bs " ").

(** The probe of a body whose length is announced as zero: the length and the body to write, or the error of the read. *)
Definition probe_body (length : Z) (b : body) : option (Z * body) :=
  if negb (length =? 0) then Some (length, b)
  else match reads b with
       | [] => if body_ok b then Some (0, b) else None
       | [] :: _ => Some (0, {| reads := []; body_ok := true |})
       | (c :: d) :: l => Some (-1, {| reads := [c] :: d :: l; body_ok := body_ok b |})
       end.

(** [newTransferWriter] of a response. *)
Definition atLeastHTTP11 (r : response) : bool := (1 <? rs_major r) || (rs_major r =? 1) && (1 <=? rs_minor r).
Definition response_transfer (method : gostring) (r : response) (length : Z) (b : body) : transferWriter :=
  let head := noResponseBodyExpected method in
  let te := if head || atLeastHTTP11 r then rs_TransferEncoding r else [] in
  {| t_Body := if head then None else Some b; t_TransferEncoding := te; t_ContentLength := if chunked te then -1 else length |}.

Definition respExcludeHeader : list gostring := [bs "Content-Length"; bs "Transfer-Encoding"; bs "Trailer"].
Definition response_subset (h : Header) : Header := filter (fun kv => kv.1 ∉ respExcludeHeader) h.

Definition gives_up_keep_alive (r : response) (length : Z) : bool :=
  rs_Close r || (length =? -1) && atLeastHTTP11 r && negb (chunked (rs_TransferEncoding r)).
Definition zero_field (method : gostring) (r : response) (length : Z) (t : transferWriter) : list (gostring * gostring) :=
  if (length =? 0) && negb (chunked (t_TransferEncoding t)) && negb (shouldSendContentLength method t) && bodyAllowedForStatus (rs_StatusCode r)
  then [(bs "Content-Length", bs "0")] else [].
Definition trailer_field (r : response) (t : transferWriter) : list (gostring * gostring) :=
  match rs_Trailer r with
  | Some keys => if chunked (t_TransferEncoding t) then [(bs "Trailer", Join (sort_Strings keys) ",")] else []
  | None => []
  end.
Definition response_fields (method : gostring) (r : response) (length : Z) (t : transferWriter) : list (gostring * gostring) :=
  connection_field (gives_up_keep_alive r length) (rs_Header r) ++ framing_field method t ++ trailer_field r t ++
  header_fields (response_subset (rs_Header r)) ++ zero_field method r length t.

(** The writes of the head: a field of the transfer writer is one write, or two with a number; one of the header is four. *)
Definition framing_writes (method : gostring) (t : transferWriter) : list gostring :=
  if shouldSendContentLength method t then [bs "Content-Length: "; Itoa (Z.to_nat (t_ContentLength t)) ++ crlf] else map field_line (framing_field method t).
Definition head_writes (method : gostring) (r : response) (length : Z) (t : transferWriter) : list gostring :=
  map field_line (connection_field (gives_up_keep_alive r length) (rs_Header r)) ++ framing_writes method t ++ map field_line (trailer_field r t) ++
  concat (map (fun '(k, v) => [k; bs ": "; v; crlf]) (header_fields (response_subset (rs_Header r)))) ++ map field_line (zero_field method r length t).

(** [io.LimitReader]. *)
Fixpoint cut_reads (n : nat) (l : list gostring) : list gostring :=
  match l with [] => [] | d :: l => take n d :: cut_reads (n - length d) l end.

Section Write.
Context (short : nat -> option nat).

(** [writeBody]; [received] is the trailer that came with the body. *)
Definition write_body (received : Header) (r : response) (t : transferWriter) : act :=
  match t_Body t with
  | None => nothing
  | Some b =>
      if chunked (t_TransferEncoding t) then
        and_then (io_Copy (chunked_Write short) b)
          (and_then (chunked_Close short)
            (and_then (if rs_Trailer r is Some _ then header_Write short received else nothing) (put short Upstream crlf)))
      else if t_ContentLength t =? -1 then io_Copy (put short Upstream) b
      else and_then (copy_reads (put short Upstream) (cut_reads (Z.to_nat (t_ContentLength t)) (reads b)))
             (fun s => (s, body_ok b && (Z.of_nat (length (concat (reads b))) =? t_ContentLength t)))
  end.

Definition response_Write (received : Header) (method : gostring) (r : response) (b : body) : act :=
  and_then (put short Upstream (status_line r ++ crlf))
    match probe_body (rs_ContentLength r) b with
    | None => fun s => (s, false)
    | Some (length, b) =>
        let t := response_transfer method r length b in
        and_then (puts short (head_writes method r length t)) (and_then (put short Upstream crlf) (write_body received r t))
    end.
End Write.

(** ** What a client reads *)

Definition status_of (line : gostring) : option Z := i ← IndexByte line " "; read_number 10 (take 3 (drop (i + 1) line)).

(** The response, whether its end is the end of the connection, and the bytes after it; [None] as long as it is not complete. *)
Definition read_response (head : bool) (s : gostring) : option (message * bool * gostring) :=
  '(line, r) ← read_line s;
  '(fs, r) ← read_fields (length r) r;
  status ← status_of line;
  if head || negb (bodyAllowedForStatus status) then Some ({| ms_line := line; ms_fields := fs; ms_body := [] |}, false, r)
  else if bool_decide (field_values "transfer-encoding" fs = [] /\ field_values "content-length" fs = [])
  then Some ({| ms_line := line; ms_fields := fs; ms_body := r |}, true, [])
  else f ← read_framing fs; '(b, r) ← read_body f r; Some ({| ms_line := line; ms_fields := fs; ms_body := b |}, false, r).

(** A head that was written is read back, and leaves the body to be read. *)
Lemma read_written_response head line fs status x : plain line -> Forall field_ok fs -> status_of line = Some status ->
  read_response head (((line ++ crlf) ++ concat (map field_line fs) ++ crlf) ++ x) =
  if head || negb (bodyAllowedForStatus status) then Some ({| ms_line := line; ms_fields := fs; ms_body := [] |}, false, x)
  else if bool_decide (field_values "transfer-encoding" fs = [] /\ field_values "content-length" fs = [])
  then Some ({| ms_line := line; ms_fields := fs; ms_body := x |}, true, [])
  else f ← read_framing fs; '(b, r) ← read_body f x; Some ({| ms_line := line; ms_fields := fs; ms_body := b |}, false, r).
Proof.
  intros Hl Hf Hs. unfold read_response. rewrite <- !app_assoc, read_line_app by done. cbn [mbind option_bind]. rewrite read_fields_app; [|done|].
  - cbn [mbind option_bind]. by rewrite Hs.
  - rewrite length_app. pose proof (field_lines_length fs). rewrite length_app. simpl. lia.
Qed.

(** More input does not change a response that has its own end. *)
Lemma read_response_more head s q m r : read_response head s = Some (m, false, r) -> read_response head (s ++ q) = Some (m, false, r ++ q).
Proof.
  unfold read_response. intros (x & Hx & E)%bind_Some. destruct x as [l r1]. destruct (read_line_more _ q _ _ Hx) as [-> _]. cbn [mbind option_bind].
  apply bind_Some in E as ([fs r2] & Hf & E). rewrite (read_fields_more (length r1) (length (r1 ++ q)) _ q _ _ ltac:(rewrite length_app; lia) Hf). cbn [mbind option_bind].
  apply bind_Some in E as (st & -> & E). cbn [mbind option_bind]. destruct (head || _); [by injection E as <- <-|]. case_bool_decide; [done|].
  apply bind_Some in E as (f & -> & E). cbn [mbind option_bind]. apply bind_Some in E as ([b r3] & Hb & [= <- <-]).
  destruct f; cbn [read_body] in *; [|by rewrite (read_bytes_more _ _ q _ _ Hb)].
  by rewrite (read_chunks_more (length r2) (length (r2 ++ q)) _ q _ _ ltac:(rewrite length_app; lia) Hb).
Qed.

(** ** The status line *)

Lemma is_digit_range c : is_digit c = true -> 0 <= code c - 48 <= 9.
Proof. unfold is_digit, between. change (code "0") with 48. change (code "9") with 57. intros [?%Z.leb_le ?%Z.leb_le]%andb_true_iff. lia. Qed.
Lemma digits_value_bound s : forall acc v, 0 <= acc -> digits_value acc s = Some v -> 0 <= v < (acc + 1) * 10 ^ Z.of_nat (length s).
Proof.
  induction s as [|c s IH]; intros acc v Ha; cbn [digits_value length]; [intros [= <-]; cbn; lia|]. destruct (is_digit c) eqn:Ec; [|done].
  apply is_digit_range in Ec.
  intros Hv. apply IH in Hv; [|lia]. rewrite Nat2Z.inj_succ, Z.pow_succ_r by lia. pose proof (Z.pow_nonneg 10 (Z.of_nat (length s)) ltac:(lia)). nia.
Qed.
Lemma Atoi_3_digits s v : length s = 3%nat -> Atoi s = Some v -> v <= 999.
Proof.
  intros Hl. assert (forall ds w, (length ds <= 3)%nat -> digits_value 0 ds = Some w -> w <= 999) as H.
  { intros ds w Hds Hw. apply digits_value_bound in Hw; [|lia]. assert (10 ^ Z.of_nat (length ds) <= 10 ^ 3) by (apply Z.pow_le_mono_r; lia). lia. }
  assert (forall (neg : bool) ds, (length ds <= 3)%nat -> match ds with [] => None | _ => match digits_value 0 ds with None => None
     | Some w => if neg then if w <=? max_int + 1 then Some (- w) else None else if w <=? max_int then Some w else None end end = Some v -> v <= 999) as Hsigned.
  { intros neg ds Hds. destruct ds as [|c ds]; [done|]. destruct (digits_value 0 (c :: ds)) as [w|] eqn:E; [|done]. pose proof (digits_value_bound _ 0 w ltac:(lia) E).
    apply H in E; [|done]. destruct neg, (w <=? _); intros [= <-]; lia. }
  unfold Atoi. cbv zeta. destruct s as [|c s]; [done|]. simpl in Hl. destruct (decide (c = "-"%char)) as [->|Hm]; [apply (Hsigned true); lia|].
  destruct (decide (c = "+"%char)) as [->|Hp]; [apply (Hsigned false); lia|].
  destruct c as [[] [] [] [] [] [] [] []]; try done; match goal with |- context [digits_value 0 ?l] => apply (Hsigned false l) end; simpl; lia.
Qed.

Lemma parse_digit_range c d : parse_digit c = Some d -> 0 <= d <= 9.
Proof. unfold parse_digit. destruct (is_digit c) eqn:E; [|done]. intros [= <-]. by apply is_digit_range. Qed.

Lemma parse_status_range line major minor status code : plain line -> parse_status line = Some (major, minor, status, code) ->
  0 <= major <= 9 /\ 0 <= minor <= 9 /\ 0 <= code <= 999 /\ plain status.
Proof.
  intros Hp. unfold parse_status. intros (i & _ & E)%bind_Some. cbv zeta in E.
  revert E. generalize (match IndexByte (TrimLeft (fun c => ascii_eqb c " ") (drop (i + 1) line)) " " with
    | Some j => take j (TrimLeft (fun c => ascii_eqb c " ") (drop (i + 1) line)) | None => TrimLeft (fun c => ascii_eqb c " ") (drop (i + 1) line) end) as digits.
  intros digits E. destruct (Nat.eqb_spec (length digits) 3) as [Hl|]; [|done]. cbn [negb] in E.
  apply bind_Some in E as (c & Hc & E). apply Atoi_3_digits in Hc; [|done]. destruct (Z.ltb_spec c 0); [done|]. apply bind_Some in E as ([a b] & Hv & [= -> -> <- ->]).
  unfold ParseHTTPVersion in Hv. destruct (HasPrefix _ _); [|done]. destruct (drop 5 _) as [|x [|dot [|y [|]]]]; try done. destruct (ascii_eqb dot "."); [|done].
  apply bind_Some in Hv as (m1 & ?%parse_digit_range & (m2 & ?%parse_digit_range & [= -> ->])%bind_Some). split_and!; try lia.
  destruct (TrimLeft_suffix (fun c => ascii_eqb c " ") (drop (i + 1) line)) as [x0 Hx]. unfold plain in *. rewrite <- (take_drop (i + 1) line), Hx in Hp.
  by apply Forall_app in Hp as [_ [_ Hp]%Forall_app].
Qed.

Lemma hex_value_digit d : 0 <= d <= 9 -> hex_value (digit d) = Some d.
Proof. intros Hd. rewrite <- hex_value_lower by lia. unfold hex_lower, digit. by rewrite (proj2 (Z.ltb_lt d 10)) by lia. Qed.
Lemma digit_plain d : 0 <= d <= 9 -> is_nl (digit d) = false /\ digit d <> " "%char.
Proof. intros Hd%hex_value_digit. split; [by eapply hex_value_plain|]. intros E. by rewrite E in Hd. Qed.

Lemma read_pad3 n : 0 <= n <= 999 -> read_number 10 (pad3 n) = Some n.
Proof.
  intros Hn. unfold pad3, read_number. cbn [read_digits]. rewrite !hex_value_digit by (pose proof (Z.mod_pos_bound (n / 100) 10); pose proof (Z.mod_pos_bound (n / 10) 10); pose proof (Z.mod_pos_bound n 10); lia).
  rewrite !(proj2 (Z.ltb_lt _ _)) by (apply Z.mod_pos_bound; lia). f_equal. Z.to_euclidean_division_equations. lia.
Qed.

Lemma status_line_ok r : 0 <= rs_major r <= 9 -> 0 <= rs_minor r <= 9 -> 0 <= rs_StatusCode r <= 999 -> plain (rs_Status r) ->
  plain (status_line r) /\ status_of (status_line r) = Some (rs_StatusCode r).
Proof.
  intros [Hm1 Hm2]%digit_plain [Hn1 Hn2]%digit_plain Hc Hs. unfold status_line. split.
  - unfold pad3. assert (forall x, is_nl (digit (x mod 10)) = false) as Hd by (intros x; apply digit_plain; pose proof (Z.mod_pos_bound x 10); lia).
    repeat (constructor; [first [done|apply Hd]|]). unfold TrimPrefix. destruct (HasPrefix _ _); [|done].
    rewrite <- (take_drop (length (Itoa (Z.to_nat (rs_StatusCode r)) ++ bs " ")) (rs_Status r)) in Hs. by apply Forall_app in Hs as [_ Hs].
  - unfold status_of. set (t := TrimPrefix _ _). change (bs "HTTP/" ++ ?a :: ?b :: ?c :: ?d :: ?e) with ((bs "HTTP/" ++ [a; b; c]) ++ d :: e).
    rewrite IndexByte_app; [|by rewrite list_elem_of_In; simpl; intuition]. cbn [mbind option_bind].
    change (take 3 (drop _ _)) with (pad3 (rs_StatusCode r)). by apply read_pad3.
Qed.

(** ** The framing that was read and the framing that is written *)

Definition expects_body (method : gostring) (r : response) : bool := negb (noResponseBodyExpected method) && bodyAllowedForStatus (rs_StatusCode r).

(** What [ReadResponse] can return.  A chunked coding on a response that has no body is left out below ([coded]). *)
Inductive framed_as (method : gostring) (r : response) : body_source -> Prop :=
| as_chunks : expects_body method r = true -> atLeastHTTP11 r = true -> rs_TransferEncoding r = [bs "chunked"] -> rs_ContentLength r = -1 -> framed_as method r FromChunks
| as_length n : expects_body method r = true -> rs_TransferEncoding r = [] -> rs_ContentLength r = n -> 0 < n -> framed_as method r (FromLength n)
| as_close : expects_body method r = true -> rs_TransferEncoding r = [] -> rs_ContentLength r = -1 -> rs_Close r = true -> framed_as method r UntilClose
| as_empty : rs_TransferEncoding r = [] -> noResponseBodyExpected method = true \/ rs_ContentLength r = 0 -> -1 <= rs_ContentLength r -> framed_as method r NoBody
| as_coded : expects_body method r = false -> atLeastHTTP11 r = true -> rs_TransferEncoding r = [bs "chunked"] ->
    noResponseBodyExpected method = true \/ rs_ContentLength r = 0 -> -1 <= rs_ContentLength r -> framed_as method r NoBody.

(** The end of a chunked body, written after a response that has none but says it is chunked. *)
Definition stray (method : gostring) (r : response) (src : body_source) : gostring :=
  match src with NoBody => if chunked (rs_TransferEncoding r) && negb (noResponseBodyExpected method) then last_chunk else [] | _ => [] end.

Lemma parseContentLength_range cls n : parseContentLength cls = Some n -> -1 <= n.
Proof.
  destruct cls as [|cl cls]; cbn [parseContentLength]; [by intros [= <-]|]. intros (k & Hk & E)%bind_Some. destruct (k <? _); [|done]. injection E as <-.
  unfold read_number in Hk. destruct (Trim is_space cl) as [|c l]; [done|]. enough (forall s acc v, 0 <= acc -> read_digits 10 acc s = Some v -> 0 <= v) as H by (apply H in Hk; lia).
  clear. induction s as [|c s IH]; intros acc v Ha; cbn [read_digits]; [intros [= <-]; lia|]. destruct (hex_value c) as [d|] eqn:E; [|done].
  destruct (d <? 10); [|done]. apply IH. enough (0 <= d) by lia. unfold hex_value, is_digit, between in E. pose proof (code_bound c).
  repeat (destruct (_ && _) eqn:Eb in E; [apply andb_true_iff in Eb as [?%Z.leb_le ?%Z.leb_le]; injection E as <-; unfold code in *; cbn in *; lia|clear Eb]). done.
Qed.

Lemma ReadResponse_framed method line h r src : ReadResponse method line h = Some (r, src) ->
  framed_as method r src /\ parse_status line = Some (rs_major r, rs_minor r, rs_Status r, rs_StatusCode r) /\ (rs_Trailer r <> None -> is_Some (h !! bs "Trailer")) /\
  rs_Header r = delete (bs "Transfer-Encoding") (fixPragmaCacheControl h).
Proof.
  unfold ReadResponse. intros ([[[major minor] status] code] & Hst & (chk & Hchk & (len & Hlen & (cl & Hcl & (tr & Htr & E)%bind_Some)%bind_Some)%bind_Some)%bind_Some)%bind_Some.
  injection E as <- <-. cbn. split_and!; [|done| |done].
  - unfold fixLength in Hlen. apply bind_Some in Hlen as ([] & _ & (n & Hn & Hlen)%bind_Some). pose proof (parseContentLength_range _ _ Hn) as Hr.
    unfold expects_body in *. cbn [rs_StatusCode rs_TransferEncoding] in *. destruct chk.
    + assert (atLeastHTTP11 {| rs_major := major; rs_minor := minor; rs_Status := status; rs_StatusCode := code; rs_Header := delete (bs "Transfer-Encoding") (fixPragmaCacheControl h);
        rs_ContentLength := cl; rs_TransferEncoding := [bs "chunked"]; rs_Close := shouldClose major minor h || (len =? -1) && negb true && bodyAllowedForStatus code; rs_Trailer := tr |} = true) as H11.
      { unfold parseTransferEncoding in Hchk. destruct (h !! _); [|done]. unfold atLeastHTTP11. cbn. by destruct (_ || _). }
      destruct (noResponseBodyExpected method) eqn:Eh; cbn [orb] in *.
      * apply as_coded; [by unfold expects_body; rewrite Eh|done|done|by left|]. cbn. by apply parseContentLength_range in Hcl.
      * destruct (bodyAllowedForStatus code) eqn:Ea; cbn [negb] in *; simplify_eq.
        -- apply as_chunks; [by unfold expects_body; cbn; rewrite Eh, Ea|done|done|done].
        -- apply as_coded; [by unfold expects_body; cbn; rewrite Eh, Ea|done|done|by right|done].
    + destruct (noResponseBodyExpected method) eqn:Eh.
      * injection Hlen as <-. cbn. apply as_empty; [done|by left|]. cbn. by apply parseContentLength_range in Hcl.
      * destruct (bodyAllowedForStatus code) eqn:Ea; cbn in *; simplify_eq; [|by apply as_empty; [done|right|]].
        destruct (Z.eqb_spec cl 0) as [->|Hz]; [by apply as_empty; [done|right|]|]. destruct (Z.ltb_spec 0 cl) as [Hp|Hp].
        -- apply as_length; [by unfold expects_body; cbn; rewrite Eh, Ea|done|done|done].
        -- assert (cl = -1) as -> by lia. change (-1 =? -1) with true. cbn [andb]. rewrite orb_true_r.
           apply as_close; [by unfold expects_body; cbn; rewrite Eh, Ea|done..].
  - unfold fixTrailer in Htr. destruct (h !! bs "Trailer"); [by eexists|]. injection Htr as <-. done.
Qed.

(** Names that frame a message are spelled in one way, as net/textproto leaves them. *)
Definition one_spelling (h : Header) : Prop := forall K k, K ∈ framing_names -> is_Some (h !! k) -> map lower_byte k = map lower_byte K -> k = K.

Definition coding_values (src : body_source) : list gostring := match src with FromChunks => [bs "chunked"] | _ => [] end.
Definition length_values (src : body_source) : list gostring := match src with FromLength n => [Itoa (Z.to_nat n)] | NoBody => [bs "0"] | _ => [] end.

Section Fields.
Context (method : gostring) (r : response) (src : body_source) (b : body).
Hypothesis Hfr : framed_as method r src.
Hypothesis Hone : one_spelling (rs_Header r).
Hypothesis Htr : rs_Trailer r = None.
Notation t := (response_transfer method r (rs_ContentLength r) b).
Notation fs := (response_fields method r (rs_ContentLength r) t).

Lemma transfer_coding : t_TransferEncoding t = rs_TransferEncoding r /\ t_ContentLength t = (if chunked (rs_TransferEncoding r) then -1 else rs_ContentLength r) /\
  (src = NoBody \/ rs_TransferEncoding r = coding_values src).
Proof using Hfr.
  unfold response_transfer. cbn. destruct Hfr as [_ Ha Hte Hcl|n _ Hte Hcl _|_ Hte Hcl _|Hte _ _|_ Ha Hte _ _]; rewrite Hte; cbn.
  - rewrite Ha, orb_true_r. auto.
  - destruct (_ || _); auto.
  - destruct (_ || _); auto.
  - destruct (_ || _); auto.
  - rewrite Ha, orb_true_r. auto.
Qed.

Lemma transfer_own_fields : Forall field_ok (framing_field method t ++ zero_field method r (rs_ContentLength r) t) /\
  (expects_body method r = true ->
   field_values "transfer-encoding" (framing_field method t ++ zero_field method r (rs_ContentLength r) t) = coding_values src /\
   field_values "content-length" (framing_field method t ++ zero_field method r (rs_ContentLength r) t) = length_values src).
Proof using Hfr.
  destruct transfer_coding as (Ht & Hl & _). unfold framing_field, zero_field, shouldSendContentLength. rewrite Ht, Hl.
  assert (Forall field_ok [(bs "Content-Length", bs "0")]) as H0 by (constructor; [apply (number_field 0); lia|done]).
  destruct Hfr as [He Ha Hte Hcl|n He Hte Hcl Hn|He Hte Hcl Hc|Hte He Hcl|He Ha Hte Hh Hcl]; rewrite Hte; cbn [coding_values chunked length_values]; unfold expects_body in *.
  - rewrite Hcl. split; [|done]. constructor; [|done]. split_and!; try done; by repeat constructor.
  - rewrite Hcl. destruct (Z.ltb_spec 0 n); [|lia]. rewrite andb_false_r, !app_nil_r. split; [constructor; [apply number_field; lia|done]|done].
  - rewrite Hcl. split; [constructor|done].
  - destruct (Z.eqb_spec (rs_ContentLength r) 0) as [->|Hz]; cbn [Z.ltb Z.compare].
    + destruct (bool_decide (method ∈ _)); cbn [negb andb app];
      [by change (bs "Content-Length", Itoa (Z.to_nat 0)) with (bs "Content-Length", bs "0")|].
      rewrite bool_decide_eq_false_2 by done. cbn [negb andb]. destruct (bodyAllowedForStatus _); [done|]. split; [constructor|]. by rewrite andb_false_r.
    + destruct He as [-> |]; [|done]. cbn [negb andb]. split; [|done]. rewrite app_nil_r. destruct (Z.ltb_spec 0 (rs_ContentLength r)); [constructor; [apply number_field; lia|done]|].
      destruct (Z.ltb_spec (rs_ContentLength r) 0); [constructor|lia].
  - rewrite He. split; [|done]. cbn [negb andb]. rewrite andb_false_r. cbn [andb]. rewrite app_nil_r. constructor; [|done]. split_and!; try done; by repeat constructor.
Qed.

Lemma written_fields_ok : Forall field_ok fs /\
  (expects_body method r = true -> field_values "transfer-encoding" fs = coding_values src /\ field_values "content-length" fs = length_values src).
Proof using Hfr Hone Htr.
  unfold response_fields, trailer_field. rewrite Htr. cbn [app]. destruct (connection_fields (gives_up_keep_alive r (rs_ContentLength r)) (rs_Header r)) as [Hc1 Hc2].
  destruct transfer_own_fields as [Ho1 Ho2]. apply Forall_app in Ho1 as [Hf Hz].
  split; [rewrite !Forall_app; split_and!; [done|done|apply header_fields_ok|done]|]. intros [H1 H2]%Ho2. rewrite field_values_app in H1, H2.
  assert (forall K, K ∈ respExcludeHeader -> K ∈ framing_names -> validHeaderName K = true -> field_values (map lower_byte K) (header_fields (response_subset (rs_Header r))) = []) as Hx.
  { intros K HK HK' Hv. apply excluded_none; [done|intros k; by apply Hone|done|]. intros ->. unfold framing_names in HK'. by rewrite !elem_of_cons, elem_of_nil in HK'; naive_solver. }
  split; rewrite !field_values_app, Hc2 by (unfold framing_lower; rewrite !elem_of_cons; tauto); cbn [app].
  - change (bs "transfer-encoding") with (map lower_byte (bs "Transfer-Encoding")). rewrite (Hx (bs "Transfer-Encoding")); [done|..|done]; unfold respExcludeHeader, framing_names; rewrite !elem_of_cons; tauto.
  - change (bs "content-length") with (map lower_byte (bs "Content-Length")). rewrite (Hx (bs "Content-Length")); [done|..|done]; unfold respExcludeHeader, framing_names; rewrite !elem_of_cons; tauto.
Qed.
End Fields.

(** ** The limit *)

(** The reads under the limit are those of [responseBodyLimitReader]: here on a body that yields one piece after the other. *)
Definition pop : reader (list gostring) := fun l _ => match l with [] => ([], [], Some (Errorf "EOF")) | d :: l => (l, d, None) end.
Lemma limit_reads_Read limit l n : forall count, 
  let '(rd, out, _) := ResponseLimit.relay pop {| ResponseLimit.inner := l; ResponseLimit.limit := limit; ResponseLimit.count := count; ResponseLimit.exceeded := false |} (repeat n (length l)) in
  out = concat (reads (limit_reads limit count l true)) /\ ResponseLimit.Exceeded rd = negb (body_ok (limit_reads limit count l true)).
Proof.
  induction l as [|d l IH]; intros count; [done|]. cbn [length repeat ResponseLimit.relay]. unfold ResponseLimit.Read. cbn [ResponseLimit.exceeded ResponseLimit.inner pop ResponseLimit.count ResponseLimit.limit].
  cbn [limit_reads]. destruct (limit <? wrap64 (count + Z.of_nat (length d))); [cbn; by rewrite app_nil_r|].
  specialize (IH (wrap64 (count + Z.of_nat (length d)))). destruct (ResponseLimit.relay pop _ _) as [[rd out] err]. destruct IH as [-> ->]. done.
Qed.

Lemma limit_reads_spec limit l ok : forall count, 0 <= count <= limit -> limit < 2 ^ 62 -> Forall (fun d => Z.of_nat (length d) < 2 ^ 62) l ->
  (count + Z.of_nat (length (concat l)) <= limit /\ limit_reads limit count l ok = {| reads := l; body_ok := ok |}) \/
  (limit < count + Z.of_nat (length (concat l)) /\ body_ok (limit_reads limit count l ok) = false /\ reads (limit_reads limit count l ok) `prefix_of` l).
Proof.
  induction l as [|d l IH]; intros count Hc Hl Hd; cbn [limit_reads concat length]; [left; split; [lia|done]|].
  apply Forall_cons in Hd as [Hd1 Hd]. rewrite wrap64_id by (unfold in_int64; lia). rewrite length_app. destruct (Z.ltb_spec limit (count + Z.of_nat (length d))).
  - right. cbn. split_and!; [lia|done|]. by exists l.
  - destruct (IH (count + Z.of_nat (length d)) ltac:(lia) Hl Hd) as [[H1 ->]|(H1 & H2 & H3)]; [left; split; [lia|done]|right]. cbn. split_and!; [lia|done|]. by apply prefix_cons.
Qed.

(** ** Prefixes *)

Lemma read_response_closes head s q m r : read_response head s = Some (m, true, r) -> exists m', read_response head (s ++ q) = Some (m', true, []).
Proof.
  unfold read_response. intros (x & Hx & E)%bind_Some. destruct x as [l r1]. destruct (read_line_more _ q _ _ Hx) as [-> _]. cbn [mbind option_bind].
  apply bind_Some in E as ([fs r2] & Hf & E). rewrite (read_fields_more (length r1) (length (r1 ++ q)) _ q _ _ ltac:(rewrite length_app; lia) Hf). cbn [mbind option_bind].
  apply bind_Some in E as (st & -> & E). cbn [mbind option_bind]. destruct (head || _); [done|]. case_bool_decide; [by eexists|].
  apply bind_Some in E as (f & -> & E). cbn [mbind option_bind]. apply bind_Some in E as ([b r3] & Hb & [=]).
Qed.
(** A proper part of a response that has its own end is none; nor is any part of what is not a response. *)
Lemma read_response_prefix head s q m : q <> [] -> read_response head (s ++ q) = Some (m, false, []) -> read_response head s = None.
Proof.
  intros Hq Hm. destruct (read_response head s) as [[[m' c] r]|] eqn:E; [|done]. destruct c.
  - apply (read_response_closes _ _ q) in E as [m'' E]. congruence.
  - apply (read_response_more _ _ q) in E. rewrite E in Hm. injection Hm as _ Hr. by apply app_nil in Hr as [_ ->].
Qed.
Lemma read_response_none head s q : read_response head (s ++ q) = None -> read_response head s = None.
Proof.
  intros Hn. destruct (read_response head s) as [[[m' c] r]|] eqn:E; [|done]. destruct c; [apply (read_response_closes _ _ q) in E as [m'' E]|apply (read_response_more _ _ q) in E]; congruence.
Qed.

(** ** Writing *)

Section Written.
Context (short : nat -> option nat).

(** A step that fails after a part of [t]. *)
Definition stops (t : gostring) (a : act) : Prop := forall s, let '(s', ok) := a s in ok = false /\ down s' = down s /\ exists p q, up s' = up s ++ p /\ p ++ q = t.
Lemma stops_then t u a b : sends false t a -> stops u b -> stops (t ++ u) (and_then a b).
Proof.
  intros Ha Hb s. unfold and_then. specialize (Ha s). destruct (a s) as [s1 ok]. destruct Ha as [Hd Ha]. destruct ok.
  - specialize (Hb s1). destruct (b s1) as [s2 ok]. destruct Hb as (-> & Hd2 & p & q & Hp & <-). split_and!; [done|congruence|]. exists (t ++ p), q. by rewrite Hp, Ha, !app_assoc.
  - split_and!; [done|done|]. destruct Ha as (p & q & Hp & <- & _). exists p, (q ++ u). by rewrite app_assoc.
Qed.
Lemma stops_before t a b : stops t a -> stops t (and_then a b).
Proof. intros Ha s. unfold and_then. specialize (Ha s). destruct (a s) as [s1 ok]. by destruct Ha as (-> & Ha). Qed.
Lemma stops_now : stops [] (fun s => (s, false)).
Proof. intros s. split_and!; [done|done|]. exists [], []. by rewrite app_nil_r. Qed.

Lemma cut_reads_concat l : forall n, concat (cut_reads n l) = take n (concat l).
Proof. induction l as [|d l IH]; intros n; cbn [cut_reads concat]; [by rewrite take_nil|]. by rewrite IH, take_app. Qed.

Lemma sends_if strict t a (ok : bool) : sends strict t a -> ok = true -> sends strict t (and_then a (fun s => (s, ok))).
Proof. intros Ha -> s. unfold and_then. specialize (Ha s). by destruct (a s) as [s1 []]. Qed.

(** The bytes of the head and of the body. *)
Lemma head_writes_bytes method r n t : concat (head_writes method r n t) = concat (map field_line (response_fields method r n t)).
Proof.
  unfold head_writes, response_fields. rewrite !concat_app, !map_app, !concat_app. f_equal. f_equal; [|f_equal; f_equal].
  - unfold framing_writes, framing_field. destruct (shouldSendContentLength method t); [|done]. cbn [map concat]. unfold field_line. cbn. by rewrite !app_nil_r.
  - induction (header_fields _) as [|[k v] fs IH]; [done|]. cbn [map concat]. rewrite concat_app, IH. done.
Qed.

Definition chunks (b : body) : gostring := concat (map chunk_line (List.filter nonempty (reads b))).
Definition body_text (t : transferWriter) : gostring :=
  match t_Body t with
  | None => []
  | Some b => if chunked (t_TransferEncoding t) then chunks b ++ if body_ok b then last_chunk else []
              else if t_ContentLength t =? -1 then concat (reads b) else take (Z.to_nat (t_ContentLength t)) (concat (reads b))
  end.
Definition body_good (t : transferWriter) : bool :=
  match t_Body t with
  | None => true
  | Some b => if chunked (t_TransferEncoding t) || (t_ContentLength t =? -1) then body_ok b else body_ok b && (Z.of_nat (length (concat (reads b))) =? t_ContentLength t)
  end.

Lemma write_body_sends received r t : rs_Trailer r = None ->
  (if body_good t then sends true (body_text t) else stops (body_text t)) (write_body short received r t).
Proof.
  intros Htr. unfold write_body, body_text, body_good. rewrite Htr. destruct (t_Body t) as [b|]; [|apply sends_nothing].
  pose proof (sends_copy (put short Upstream) id (reads b) (sends_put short)) as Hraw. rewrite map_id, concat_nonempty in Hraw.
  destruct (chunked (t_TransferEncoding t)); cbn [orb]; [|destruct (t_ContentLength t =? -1)].
  - pose proof (sends_copy (chunked_Write short) chunk_line (reads b) (sends_chunk short)) as Hc. fold (chunks b) in Hc. unfold io_Copy. destruct (body_ok b) eqn:Eb.
    + apply sends_then_strict; [by apply sends_if|]. change last_chunk with ((bs "0" ++ crlf) ++ [] ++ crlf).
      apply sends_then_strict; [by apply sends_put|]. apply sends_then_strict; [apply sends_nothing|by apply sends_put].
    + apply stops_before. apply stops_then; [by apply sends_weaken|apply stops_now].
  - unfold io_Copy. destruct (body_ok b) eqn:Eb; [by apply sends_if|]. rewrite <- (app_nil_r (concat (reads b))). apply stops_then; [by apply sends_weaken|apply stops_now].
  - pose proof (sends_copy (put short Upstream) id (cut_reads (Z.to_nat (t_ContentLength t)) (reads b)) (sends_put short)) as Hcut.
    rewrite map_id, concat_nonempty, cut_reads_concat in Hcut. destruct (body_ok b && _); [by apply sends_if|]. rewrite <- (app_nil_r (take _ _)). apply stops_then; [by apply sends_weaken|apply stops_now].
Qed.

Lemma sure_write_body received r t : body_good t = true -> sure short (write_body short received r t).
Proof.
  intros Hg H s. pose proof (fun l => sure_copy short (put short Upstream) l (sure_put short Upstream) H) as Hraw.
  pose proof (fun l => sure_copy short (chunked_Write short) l (fun d => sure_puts short _) H) as Hch. unfold write_body, body_good, io_Copy, and_then in *.
  destruct (t_Body t) as [b|]; [|done]. destruct (chunked _); cbn [orb] in Hg.
  - specialize (Hch (reads b) s). destruct (copy_reads (chunked_Write short) (reads b) s) as [s1 ok]. cbn in Hch. subst ok. rewrite Hg.
    assert (sure short (and_then (chunked_Close short) (and_then (if rs_Trailer r is Some _ then header_Write short received else nothing) (put short Upstream crlf)))) as Hs.
    { apply sure_then; [apply sure_put|]. apply sure_then; [|apply sure_put]. destruct (rs_Trailer r); [apply sure_puts|apply sure_nothing]. }
    exact (Hs H s1).
  - destruct (t_ContentLength t =? -1).
    + specialize (Hraw (reads b) s). destruct (copy_reads _ (reads b) s) as [s1 ok]. cbn in Hraw. subst ok. done.
    + specialize (Hraw (cut_reads (Z.to_nat (t_ContentLength t)) (reads b)) s). destruct (copy_reads _ _ s) as [s1 ok]. cbn in Hraw. subst ok. done.
Qed.

(** The whole response, when the probe finds what was announced. *)
Definition response_head method r n t : gostring := (status_line r ++ crlf) ++ concat (map field_line (response_fields method r n t)) ++ crlf.
Lemma response_Write_sends received method r b : rs_Trailer r = None -> probe_body (rs_ContentLength r) b = Some (rs_ContentLength r, b) ->
  let t := response_transfer method r (rs_ContentLength r) b in
  (if body_good t then sends true (response_head method r (rs_ContentLength r) t ++ body_text t)
   else stops (response_head method r (rs_ContentLength r) t ++ body_text t)) (response_Write short received method r b) /\
  (body_good t = true -> sure short (response_Write short received method r b)).
Proof.
  intros Htr Hp t. unfold response_Write. rewrite Hp. fold t. pose proof (write_body_sends received r t Htr) as Hb. split.
  - unfold response_head. rewrite <- head_writes_bytes, <- !app_assoc.
    assert (forall u, u <> [] -> crlf ++ u <> []) as Hne by by intros u _.
    destruct (body_good t); rewrite (app_assoc (status_line r)).
    + apply sends_then; [apply sends_put_any| |by intros _ [_ ?]%app_nil]. apply sends_then; [apply sends_puts| |by intros _ ?]. apply sends_then_strict; [by apply sends_put|done].
    + apply stops_then; [apply sends_put_any|]. apply stops_then; [apply sends_puts|]. apply stops_then; [apply sends_put_any|done].
  - intros Hg. apply sure_then; [apply sure_put|]. apply sure_then; [apply sure_puts|]. apply sure_then; [apply sure_put|by apply sure_write_body].
Qed.
End Written.

(** ** One response or none *)

(** What the reader of the body delivers: nothing, or as many bytes as announced or an error. *)
Definition delivers (src : body_source) (b : body) : Prop :=
  match src with
  | NoBody => b = {| reads := []; body_ok := true |}
  | FromLength n => let k := Z.of_nat (length (concat (reads b))) in if body_ok b then k = n else k < n
  | FromChunks | UntilClose => True
  end.
Definition until_close (src : body_source) : bool := match src with UntilClose => true | _ => false end.

Section Read.
Context (method : gostring) (r : response) (src : body_source) (b : body).
Hypothesis Hfr : framed_as method r src.
Hypothesis Hone : one_spelling (rs_Header r).
Hypothesis Htr : rs_Trailer r = None.
Hypothesis Hline : plain (status_line r) /\ status_of (status_line r) = Some (rs_StatusCode r).
Notation t := (response_transfer method r (rs_ContentLength r) b).
Notation fs := (response_fields method r (rs_ContentLength r) t).
Notation head := (response_head method r (rs_ContentLength r) t).

Lemma read_response_head x : read_response (noResponseBodyExpected method) (head ++ x) =
  if negb (expects_body method r) then Some ({| ms_line := status_line r; ms_fields := fs; ms_body := [] |}, false, x)
  else match src with
       | UntilClose => Some ({| ms_line := status_line r; ms_fields := fs; ms_body := x |}, true, [])
       | FromChunks => '(y, z) ← read_chunks (length x) x; Some ({| ms_line := status_line r; ms_fields := fs; ms_body := y |}, false, z)
       | FromLength n => '(y, z) ← read_bytes (Z.to_nat n) x; Some ({| ms_line := status_line r; ms_fields := fs; ms_body := y |}, false, z)
       | NoBody => Some ({| ms_line := status_line r; ms_fields := fs; ms_body := [] |}, false, x)
       end.
Proof using Hfr Hone Htr Hline.
  destruct Hline as [Hp Hs]. destruct (written_fields_ok method r src b Hfr Hone Htr) as [Hok Hv]. unfold response_head. rewrite (read_written_response _ _ _ _ _ Hp Hok Hs).
  unfold expects_body. rewrite negb_andb, negb_involutive. destruct (_ || _) eqn:E; [done|]. apply orb_false_iff in E as [E1 E2]. rewrite negb_false_iff in E2.
  destruct Hv as [Hte Hcl]; [unfold expects_body; by rewrite E1, E2|]. unfold read_framing. rewrite Hte, Hcl.
  destruct src as [| |n|]; cbn [coding_values length_values]; [rewrite bool_decide_eq_false_2 by (by intros [_ ?])|rewrite bool_decide_eq_false_2 by (by intros [? _])|rewrite bool_decide_eq_false_2 by (by intros [_ ?])|by rewrite bool_decide_eq_true_2].
  - done.
  - cbn [str_eqb]. rewrite str_eqb_refl. done.
  - rewrite read_Itoa. cbn [mbind option_bind read_body]. by rewrite Nat2Z.id.
Qed.

(** A body that is complete if it ends without an error. *)
Definition fits : Prop :=
  match src with
  | NoBody => b = {| reads := []; body_ok := true |}
  | FromLength n => body_ok b = true -> Z.of_nat (length (concat (reads b))) = n
  | FromChunks | UntilClose => True
  end.

Lemma transfer_good : fits -> body_good t = body_ok b.
Proof using Hfr.
  unfold fits. intros Hd. destruct (transfer_coding method r src b Hfr) as (Ht & Hl & _). unfold body_good. rewrite Ht, Hl. unfold response_transfer. cbn [t_Body].
  destruct Hfr as [He _ Hte _|n He Hte Hcl Hn|He Hte Hcl _|Hte He _|_ _ Hte _ _]; rewrite Hte; cbn [chunked orb]; unfold expects_body in *.
  - by destruct (noResponseBodyExpected method).
  - destruct (noResponseBodyExpected method); [done|]. rewrite Hcl. destruct (Z.eqb_spec n (-1)); [lia|]. destruct (body_ok b); [|done]. by apply Z.eqb_eq, Hd.
  - destruct (noResponseBodyExpected method); [done|]. by rewrite Hcl.
  - subst b. cbn. destruct (noResponseBodyExpected method); [done|]. destruct He as [|Hcl]; [done|]. by rewrite Hcl.
  - subst b. by destruct (noResponseBodyExpected method).
Qed.

Lemma transfer_text : fits -> body_text t =
  match src with
  | NoBody => stray method r src
  | FromChunks => chunks b ++ if body_ok b then last_chunk else []
  | FromLength n => take (Z.to_nat n) (concat (reads b))
  | UntilClose => concat (reads b)
  end.
Proof using Hfr.
  unfold fits. intros Hd. destruct (transfer_coding method r src b Hfr) as (Ht & Hl & _). unfold body_text. rewrite Ht, Hl. unfold response_transfer. cbn [t_Body].
  destruct Hfr as [He _ Hte _|n He Hte Hcl Hn|He Hte Hcl _|Hte He _|_ _ Hte _ _]; cbn [stray]; rewrite Hte; cbn [chunked andb]; unfold expects_body in *.
  - by destruct (noResponseBodyExpected method).
  - destruct (noResponseBodyExpected method); [done|]. rewrite Hcl. destruct (Z.eqb_spec n (-1)); [lia|done].
  - destruct (noResponseBodyExpected method); [done|]. by rewrite Hcl.
  - subst b. destruct (noResponseBodyExpected method); [done|]. cbn. destruct (_ =? -1); [done|apply take_nil].
  - subst b. by destruct (noResponseBodyExpected method).
Qed.

(** A complete body gives one response with that body. *)
Lemma read_complete : fits -> body_ok b = true -> read_response (noResponseBodyExpected method) (head ++ body_text t) =
  Some ({| ms_line := status_line r; ms_fields := fs; ms_body := concat (reads b) |}, until_close src, stray method r src).
Proof using Hfr Hone Htr Hline.
  intros Hd Hok. rewrite read_response_head, (transfer_text Hd). unfold fits in Hd. destruct Hfr as [He _ _ _|n He _ Hcl Hn|He _ Hcl _|_ _ _|_ _ _ _ _]; try rewrite He; cbn [negb until_close].
  - rewrite Hok. unfold chunks. pose proof (chunk_lines_length (List.filter nonempty (reads b))) as Hl. rewrite <- (app_nil_r last_chunk) at 2. rewrite read_chunks_app; [|apply filter_nonempty|rewrite length_app; simpl; lia].
    cbn [mbind option_bind]. by rewrite concat_nonempty.
  - specialize (Hd Hok). rewrite take_ge by lia. unfold read_bytes. rewrite (proj2 (Nat.leb_le _ _)), take_ge, drop_ge by lia. done.
  - done.
  - subst b. by destruct (negb (expects_body _ _)).
  - subst b. by destruct (negb (expects_body _ _)).
Qed.

(** A body that is not complete gives none, unless its end is the end of the connection, or it was cut after its last byte. *)
Lemma read_incomplete : fits -> body_ok b = false -> src = UntilClose \/ (exists n, src = FromLength n /\ n <= Z.of_nat (length (concat (reads b)))) \/
  read_response (noResponseBodyExpected method) (head ++ body_text t) = None.
Proof using Hfr Hone Htr Hline.
  intros Hd Hok. rewrite read_response_head, (transfer_text Hd). unfold fits in Hd. destruct Hfr as [He _ _ _|n He _ Hcl Hn|He _ Hcl _|_ _ _|_ _ _ _ _]; try rewrite He; cbn [negb].
  - do 2 right. rewrite Hok, app_nil_r. unfold chunks. set (ds := List.filter nonempty (reads b)).
    rewrite <- (app_nil_r (concat (map chunk_line ds))) at 2. rewrite (read_chunks_cut _ ds (concat (map chunk_line ds)) [] []); [done|apply filter_nonempty|by rewrite app_nil_r|apply prefix_nil].
  - right. destruct (decide (n <= Z.of_nat (length (concat (reads b))))) as [Hle|Hgt]; [left; by exists n|right]. unfold read_bytes. rewrite length_take.
    destruct (Nat.leb_spec (Z.to_nat n) (Z.to_nat n `min` length (concat (reads b)))); [lia|done].
  - by left.
  - by subst b.
  - by subst b.
Qed.
End Read.

Section Relay.
Context `{U : Unicode} (short : nat -> option nat).

(** The end of [relay]: the limit, the strip and [resp.Write]. *)
Definition relayResponse (limit : Z) (received : Header) (method : gostring) (r : response) (b : body) : act :=
  response_Write short received method (stripped r) (limit_body limit b).

Lemma stripped_framed method r src : framed_as method r src -> framed_as method (stripped r) src.
Proof. destruct 1; by constructor. Qed.

(** A header that goes out was in the response, and is neither hop-by-hop nor nominated by its Connection header. *)
Definition end_to_end (h : Header) (k : gostring) : Prop :=
  (is_Some (h !! k) \/ k = bs "Cache-Control") /\ k ∉ map CanonicalHeaderKey hopByHopNames /\ k ∉ map CanonicalHeaderKey (connectionTokenNames (Values h "Connection")).
Lemma fixPragma_lookup h k : k <> bs "Cache-Control" -> fixPragmaCacheControl h !! k = h !! k.
Proof. intros Hk. unfold fixPragmaCacheControl. destruct (str_eqb _ _); [|done]. destruct (h !! bs "Cache-Control"); [done|]. by rewrite lookup_insert_ne. Qed.
Lemma stripped_keys h k : is_Some (stripHopByHop (delete (bs "Transfer-Encoding") (fixPragmaCacheControl h)) !! k) -> end_to_end h k.
Proof.
  rewrite stripHopByHop_lookup. assert (Values (delete (bs "Transfer-Encoding") (fixPragmaCacheControl h)) "Connection" = Values h "Connection") as ->.
  { unfold Values. rewrite lookup_delete_ne by done. by rewrite fixPragma_lookup. }
  destruct (decide _) as [|Hn]; [by intros []|]. intros Hk. split; [|tauto]. destruct (decide (k = bs "Transfer-Encoding")) as [->|Ht]; [by rewrite lookup_delete_eq in Hk; destruct Hk|].
  rewrite lookup_delete_ne in Hk by done. destruct (decide (k = bs "Cache-Control")) as [->|Hc]; [by right|left]. by rewrite fixPragma_lookup in Hk.
Qed.
Lemma stripped_spelling h : one_spelling h -> one_spelling (stripHopByHop (delete (bs "Transfer-Encoding") (fixPragmaCacheControl h))).
Proof.
  intros Hone K k HK [[Hk| ->] _]%stripped_keys Hlow; [by apply Hone|]. unfold framing_names in HK. rewrite !elem_of_cons, elem_of_nil in HK. destruct HK as [->|[->|[->|[]]]]; by vm_compute in Hlow.
Qed.
Lemma stripped_fields method r t h f : rs_Header r = delete (bs "Transfer-Encoding") (fixPragmaCacheControl h) -> rs_Trailer r = None ->
  f ∈ response_fields method (stripped r) (rs_ContentLength r) t -> f = (bs "Connection", bs "close") \/ f.1 ∈ framing_names \/ end_to_end h f.1.
Proof.
  intros Hh Htr. unfold response_fields, trailer_field, connection_field, framing_field, zero_field. cbn [rs_Trailer stripped rs_Header]. rewrite Htr, Hh, !elem_of_app. cbn [app].
  assert (forall (c : bool) K v, K ∈ framing_names -> f ∈ (if c then [(K, v)] else []) -> f.1 ∈ framing_names) as Hown.
  { intros [] K v HK Hf; [|by apply elem_of_nil in Hf]. by apply list_elem_of_singleton in Hf as ->. }
  assert (bs "Content-Length" ∈ framing_names /\ bs "Transfer-Encoding" ∈ framing_names) as [? ?] by (unfold framing_names; rewrite !elem_of_cons; tauto).
  intros [Hf|[Hf|[Hf|[Hf|Hf]]]].
  - destruct (_ && _); [|by apply elem_of_nil in Hf]. left. by apply list_elem_of_singleton in Hf.
  - right; left. destruct (shouldSendContentLength _ _); [by apply (Hown true (bs "Content-Length") (Itoa (Z.to_nat (t_ContentLength t))))|by eapply Hown].
  - by apply elem_of_nil in Hf.
  - do 2 right. apply header_fields_in in Hf as (vs & v & [Hf _]%map_lookup_filter_Some & _). apply stripped_keys. by eexists.
  - right; left. eapply Hown; [|exact Hf]. done.
Qed.

(** C7: what [relay] does with the answer of the upstream.  For every response without a Trailer header that net/http reads, under whatever failures of
    the client's connection: if the write succeeds, the body was complete and within the limit, and a strict client reads one response, with the
    upstream's status, its body, and no hop-by-hop header; a response whose end is the end of the connection tells the client so.  Nothing follows
    it, except that a response that may not have a body but came with Transfer-Encoding chunked (to anything but HEAD) is followed by the stray end of a chunked
    body ([coded_304_desynchronises]).  If the write fails, the client has no complete response, unless in that case, or its end is the end of
    the connection, or the body crosses the limit within its last read ([oversized_response_delivered]).  Without failures a complete body
    within the limit succeeds. *)
Theorem response_one_message limit received method line h r src b :
  ReadResponse method line h = Some (r, src) -> plain line -> one_spelling h -> h !! bs "Trailer" = None -> delivers src b ->
  0 <= limit < 2 ^ 62 -> Forall (fun d => Z.of_nat (length d) < 2 ^ 62) (reads b) ->
  let '(s, ok) := relayResponse limit received method r b blank_wire in
  let within := Z.of_nat (length (concat (reads b))) <= limit in
  (if ok then within /\ body_ok b = true /\ exists fs,
     read_response (noResponseBodyExpected method) (up s) = Some ({| ms_line := status_line r; ms_fields := fs; ms_body := concat (reads b) |}, until_close src, stray method r src) /\
     (forall f, f ∈ fs -> f = (bs "Connection", bs "close") \/ f.1 ∈ framing_names \/ end_to_end h f.1) /\
     (src = UntilClose -> (bs "Connection", bs "close") ∈ fs)
   else src = UntilClose \/ ((exists n, src = FromLength n) /\ ~ within) \/ stray method r src <> [] \/ read_response (noResponseBodyExpected method) (up s) = None) /\
  ((forall n, short n = None) -> body_ok b = true -> within -> ok = true).
Proof.
  intros Hread Hline Hone Htrail Hdel Hlim Hsz. destruct (ReadResponse_framed _ _ _ _ _ Hread) as (Hfr & Hst & Htr & Hh).
  assert (rs_Trailer r = None) as Htr0 by (destruct (rs_Trailer r); [|done]; destruct Htr as [v Hv]; [done|congruence]).
  destruct (parse_status_range _ _ _ _ _ Hline Hst) as (Hma & Hmi & Hco & Hpl). pose proof (status_line_ok (stripped r) Hma Hmi Hco Hpl) as Hsl.
  pose proof (stripped_framed _ _ _ Hfr) as Hfr'. assert (one_spelling (rs_Header (stripped r))) as Hone' by (cbn; rewrite Hh; by apply stripped_spelling).
  unfold relayResponse. set (b' := limit_body limit b). set (t := response_transfer method (stripped r) (rs_ContentLength (stripped r)) b').
  assert ((Z.of_nat (length (concat (reads b))) <= limit /\ b' = b) \/ (limit < Z.of_nat (length (concat (reads b))) /\ body_ok b' = false)) as Hb'.
  { unfold b', limit_body. destruct (limit_reads_spec limit (reads b) (body_ok b) 0 ltac:(lia) ltac:(lia) Hsz) as [[H1 ->]|(H1 & H2 & _)]; [left; split; [lia|by destruct b]|right; split; [lia|done]]. }
  assert (fits src b') as Hfits.
  { destruct Hb' as [[_ ->]|[Hex Hbad]]; unfold fits, delivers in *; destruct src as [| |n|]; try done; [by intros Hok; rewrite Hok in Hdel|subst b; simpl in Hex; lia|by rewrite Hbad]. }
  assert (probe_body (rs_ContentLength (stripped r)) b' = Some (rs_ContentLength (stripped r), b')) as Hprobe.
  { unfold probe_body. destruct (Z.eqb_spec (rs_ContentLength (stripped r)) 0) as [E|]; [|done]. cbn [negb]. destruct Hfr' as [_ _ _ Hc|n _ _ Hc Hn|_ _ Hc _|_ _ _|_ _ _ _ _]; try lia; cbn in Hfits; by rewrite Hfits, E. }
  destruct (response_Write_sends short received method (stripped r) b' Htr0 Hprobe) as [Hsend Hsure]. fold t in Hsend, Hsure.
  pose proof (transfer_good method (stripped r) src b' Hfr' Hfits) as Hg. fold t in Hg. rewrite Hg in Hsend, Hsure.
  pose proof (read_complete method (stripped r) src b' Hfr' Hone' Htr0 Hsl Hfits) as Hgood. pose proof (read_incomplete method (stripped r) src b' Hfr' Hone' Htr0 Hsl Hfits) as Hbad. fold t in Hgood, Hbad.
  destruct (body_ok b') eqn:Eok.
  - destruct Hb' as [[Hin Eb]|[_ ?]]; [|done]. rewrite Eb in Eok. specialize (Hgood eq_refl). specialize (Hsend blank_wire). specialize (fun H => Hsure eq_refl H blank_wire) as Hsure'.
    destruct (response_Write short received method (stripped r) b' blank_wire) as [s ok]. destruct Hsend as [_ Hsend]. cbn [blank_wire up app] in Hsend. cbn zeta. split; [|by intros H _ _; apply Hsure' in H].
    destruct ok.
    + rewrite Hsend, Hgood, Eb. split_and!; [done|done|]. eexists. split; [done|]. split; [intros f; exact (stripped_fields method r t h f Hh Htr0)|].
      intros Hsrc. subst src. unfold response_fields, connection_field. rewrite !elem_of_app. left. assert (rs_Close (stripped r) = true) as Hc by by inversion Hfr'. unfold gives_up_keep_alive. rewrite Hc. cbn [orb andb].
      assert (Get (rs_Header (stripped r)) "Connection" = []) as ->; [|by left]. unfold Get, Values. change (rs_Header (stripped r)) with (stripHopByHop (rs_Header r)). rewrite stripHopByHop_lookup. rewrite decide_True; [done|]. left. apply list_elem_of_In. by left.
    + destruct Hsend as (p & q & -> & Hpq & Hq). destruct (until_close src) eqn:Euc; [left; by destruct src|]. do 2 right.
      destruct (decide (stray method r src = [])) as [Es|]; [right|by left]. eapply (read_response_prefix _ p q); [by apply Hq|]. rewrite Hpq, Hgood. change (stray method (stripped r) src) with (stray method r src). by rewrite Es.
  - specialize (Hsend blank_wire). destruct (response_Write short received method (stripped r) b' blank_wire) as [s ok]. destruct Hsend as (-> & _ & p & q & Hp & Hpq). cbn [blank_wire up app] in Hp. cbn zeta.
    split; [|intros _ Hok Hin; destruct Hb' as [[_ ->]|[? _]]; [congruence|lia]]. destruct (Hbad eq_refl) as [?|[(n & Hn & Hle)|Hnone]]; [by left| |].
    + right; left. split; [by exists n|]. intros Hin. destruct Hb' as [[_ Eb]|[? _]]; [|lia]. rewrite Eb in *. subst src. cbn in Hdel. rewrite Eok in Hdel. lia.
    + do 3 right. eapply read_response_none. by rewrite Hp, Hpq.
Qed.
End Relay.

(** ** Examples *)

Definition ok_line : gostring := "HTTP/1.1 200 OK".
Definition five : body := {| reads := [bs "hello"]; body_ok := true |}.
Definition five_header : Header := {[ bs "Content-Length" := [bs "5"]; bs "Connection" := [bs "x-internal"]; bs "X-Internal" := [bs "1"]; bs "X-Kept" := [bs "2"] ]}.

Lemma five_spelling : one_spelling five_header.
Proof.
  intros K k HK Hk Hlow. assert (k ∈ [bs "Content-Length"; bs "Connection"; bs "X-Internal"; bs "X-Kept"]) as Hin.
  { revert Hk. unfold five_header. rewrite !elem_of_cons. destruct (decide (k = bs "Content-Length")) as [->|?]; [auto|]. destruct (decide (k = bs "Connection")) as [->|?]; [auto|].
    destruct (decide (k = bs "X-Internal")) as [->|?]; [auto|]. destruct (decide (k = bs "X-Kept")) as [->|?]; [auto|].
    rewrite !lookup_insert_ne, lookup_singleton_ne by congruence. by intros []. }
  rewrite !elem_of_cons, elem_of_nil in Hin. unfold framing_names in HK. rewrite !elem_of_cons, elem_of_nil in HK.
  destruct Hin as [->|[->|[->|[->|[]]]]], HK as [->|[->|[->|[]]]]; by vm_compute in Hlow.
Qed.

Notation five_response := (fst <$> ReadResponse "GET" ok_line five_header).
Lemma response_one_message_witness : exists r, five_response = Some r /\
  let '(s, ok) := relayResponse (U := ascii_only) (fun _ => None) 5 ∅ "GET" r five blank_wire in
  ok = true /\ exists fs, read_response false (up s) = Some ({| ms_line := ok_line; ms_fields := fs; ms_body := "hello" |}, false, []).
Proof.
  destruct (ReadResponse "GET" ok_line five_header) as [[r src]|] eqn:E; [|by vm_compute in E]. exists r. split; [done|].
  assert (rs_TransferEncoding r = [] /\ src = FromLength 5 /\ status_line r = ok_line) as (H1 & H2 & H3) by (vm_compute in E; injection E as <- <-; done).
  pose proof (response_one_message (U := ascii_only) (fun _ => None) 5 ∅ "GET" ok_line five_header r src five E ltac:(by repeat constructor) five_spelling eq_refl
    ltac:(by rewrite H2) ltac:(lia) ltac:(by repeat constructor)) as H.
  destruct (relayResponse _ _ _ _ _ _ _) as [s ok]. destruct H as [Hok Hsure]. rewrite (Hsure (fun _ => eq_refl) eq_refl ltac:(done)) in *. split; [reflexivity|].
  destruct Hok as (_ & _ & fs & Hread & _). exists fs. rewrite H2, H3 in Hread. cbn [stray until_close] in Hread. exact Hread.
Defined.

(** The limit counts a read after it was made: a body of five bytes that comes in one read is refused under a limit of four, after the client was
    given all of it. *)
Lemma oversized_response_delivered : exists r, five_response = Some r /\
  let '(s, ok) := relayResponse (U := ascii_only) (fun _ => None) 4 ∅ "GET" r five blank_wire in
  ok = false /\ (fun m => ms_body m.1.1) <$> read_response false (up s) = Some (bs "hello").
Proof. destruct (ReadResponse "GET" ok_line five_header) as [[r src]|] eqn:E; [|by vm_compute in E]. exists r. split; [done|]. vm_compute in E. injection E as <- _. by vm_compute. Qed.

(** ** Three ways to lose the place in the stream *)

(** A relay whose response ends with the connection keeps the client's connection. *)
Lemma close_is_not_relayed cs rc io : dial_ok io = true -> io_write io = WriteOk -> io_response io = Some ResponseWritten -> req_Close io = false ->
  (Handler.relay cs rc io).2 = true.
Proof.
  intros Hd Hw Hr Hc. unfold Handler.relay. destruct (ensureUpstream cs rc (credentialIdentity rc) io) as [[cs1 t1] up] eqn:E.
  assert (is_Some up) as [[n u] ->].
  { unfold ensureUpstream in E. rewrite Hd in E. cbn [negb] in E. repeat (case_match; simplify_eq; try done). }
  destruct (if timed_out io then _ else _) as [cs2 t2]. rewrite Hw, Hr, Hc. destruct (if resp_Close io then _ else _) as [cs3 t3]. done.
Qed.

(** An answer without a length: the client is told that the body ends with the connection, but [relay] returns true and the connection stays; what the proxy
    writes next, be it the response to another request or a 400, is read as more of the same body. *)
Lemma close_delimited_kept_open x : exists r, fst <$> ReadResponse "GET" ok_line ∅ = Some r /\ rs_Close r = true /\
  let '(s, ok) := relayResponse (U := ascii_only) (fun _ => None) 5 ∅ "GET" r five blank_wire in
  ok = true /\ exists fs, read_response false (up s ++ x) = Some ({| ms_line := ok_line; ms_fields := fs; ms_body := bs "hello" ++ x |}, true, []).
Proof.
  eexists. split; [by vm_compute|]. split; [done|]. destruct (relayResponse _ _ _ _ _ _ _) as [s ok] eqn:E. vm_compute in E. injection E as <- <-. split; [done|].
  eexists. cbn [up]. vm_compute. done.
Qed.

(** A response that has no body by its status but comes with Transfer-Encoding chunked is forwarded with that field and with the end of a chunked body.
    The client, which knows that a 304 has no body, finds those five bytes where the next response should begin. *)
Definition coded_header : Header := {[ bs "Transfer-Encoding" := [bs "chunked"] ]}.
Lemma coded_304_desynchronises next : exists r, ReadResponse "GET" "HTTP/1.1 304 Not Modified" coded_header = Some (r, NoBody) /\
  let '(s, ok) := relayResponse (U := ascii_only) (fun _ => None) 5 ∅ "GET" r {| reads := []; body_ok := true |} blank_wire in
  ok = true /\ (fun x => x.2) <$> read_response false (up s ++ next) = Some (last_chunk ++ next) /\ read_response false (last_chunk ++ next) = None.
Proof.
  eexists. split; [by vm_compute|]. destruct (relayResponse _ _ _ _ _ _ _) as [s ok] eqn:E. vm_compute in E. injection E as <- <-. split; [done|].
  split; [by vm_compute|]. by vm_compute.
Qed.

(** The answer as the proxy takes it from a strict stream, with the bytes that it leaves on the connection. *)
Definition to_header (fs : list (gostring * gostring)) : Header :=
  fold_left (fun h '(k, v) => <[CanonicalHeaderKey k := Values h (CanonicalHeaderKey k) ++ [v]]> h) fs ∅.
Definition take_response (method stream : gostring) : option (response * body * gostring) :=
  '(line, rest) ← read_line stream;
  '(fs, rest) ← read_fields (length rest) rest;
  '(r, src) ← ReadResponse method line (to_header fs);
  let piece d := {| reads := [d]; body_ok := true |} in
  match src with
  | NoBody => Some (r, {| reads := []; body_ok := true |}, rest)
  | FromChunks => '(d, rest) ← read_chunks (length rest) rest; Some (r, piece d, rest)
  | FromLength n => '(d, rest) ← read_bytes (Z.to_nat n) rest; Some (r, piece d, rest)
  | UntilClose => Some (r, piece rest, [])
  end.

Definition early_hints : gostring := bs "HTTP/1.1 103 Early Hints" ++ crlf ++ bs "Link: </a.css>" ++ crlf ++ crlf.
Definition answer (text : gostring) : gostring := bs "HTTP/1.1 200 OK" ++ crlf ++ bs "Content-Length: 3" ++ crlf ++ crlf ++ text.

(** An interim response is taken for the response: the client is given nothing but it, the upstream connection stays in use with the final answer on it,
    and a second request on it gets the answer to the first. *)
Lemma interim_answers_next_request :
  (fun x => (rs_StatusCode x.1.1, rs_Close x.1.1, x.2)) <$> take_response "GET" (early_hints ++ answer "one") = Some (103, false, answer "one") /\
  (fun x => (rs_StatusCode x.1.1, concat (reads x.1.2), x.2)) <$> take_response "GET" (answer "one" ++ answer "two") = Some (200, bs "one", answer "two").
Proof. by split; vm_compute. Qed.
