(* ===== verification/ServerName.v ===== *)
(** * [internal/dataplane/tlsterm]: server names and leaf options

    [sni.go] and [leafoptions.go]. *)

From S2P Require Import Prelude GoStrings GoRuntime.
From Stdlib Require Import SpecFloat.
#[local] Open Scope Z_scope.

Definition maxSNIBytes : nat := 255.
Definition maxLabelBytes : nat := 63.

Inductive sni_error := ErrEmptySNI | ErrSNITooLong | ErrInvalidSNI.

Definition isLDH (s : gostring) : bool := forallb (fun c => is_lower c || is_digit c || ascii_eqb c "-") s.

(** The checks of one label. *)
Definition label_ok (label : gostring) : bool :=
  if str_eqb label [] then false
  else if ContainsByte label "*" then false
  else if (maxLabelBytes <? length label)%nat then false
  else if HasPrefix label "-" || HasSuffix label "-" then false
  else isLDH label.

Section Canonicalise.
Context `{U : Unicode}.

Definition CanonicaliseServerName (name : gostring) : result sni_error gostring :=
  if str_eqb name [] then Err ErrEmptySNI
  else
    let name := TrimSuffixByte name "." in
    if (maxSNIBytes <? length name)%nat then Err ErrSNITooLong
    else
      let name := ToLower name in
      if bool_decide (is_Some (ParseAddr name)) then Err ErrInvalidSNI
      else if negb (ContainsByte name ".") then Err ErrInvalidSNI
      else
        let labels := Split name "." in
        if negb (forallb label_ok labels) then Err ErrInvalidSNI
        else Ok (Join labels ".").
End Canonicalise.

Example CanonicaliseServerName_examples :
  map (CanonicaliseServerName (U := ascii_only))
    [bs "API.Example.com."; bs ""; bs "localhost"; bs "10.0.0.1"; bs "a..b"; bs "*.example.com"; bs "-a.b"; bs "a_b.c"]
  = [Ok (bs "api.example.com"); Err ErrEmptySNI; Err ErrInvalidSNI; Err ErrInvalidSNI; Err ErrInvalidSNI;
     Err ErrInvalidSNI; Err ErrInvalidSNI; Err ErrInvalidSNI].
Proof. vm_compute. reflexivity. Qed.

(** ** Shape and stability of canonical names *)

Lemma isLDH_lower s : isLDH s = true -> all_ascii s = true /\ map lower_byte s = s /\ "."%char ∉ s.
Proof.
  unfold isLDH, all_ascii. induction s as [|c s IH]; simpl; [intros _; split_and!; [done|done|apply not_elem_of_nil]|].
  rewrite andb_true_iff. intros [Hc Hs]. destruct (IH Hs) as (H1 & H2 & H3).
  assert (is_ascii c = true /\ lower_byte c = c /\ c <> "."%char) as (E1 & E2 & E3).
  { revert Hc. clear. every_byte c. }
  rewrite E1, E2, H1, H2. split_and!; [done|done|]. rewrite not_elem_of_cons. split; [congruence|done].
Qed.

Lemma label_ok_spec l : label_ok l = true ->
  l <> [] /\ (length l <= maxLabelBytes)%nat /\ isLDH l = true /\ HasPrefix l "-" = false /\ HasSuffix l "-" = false.
Proof.
  unfold label_ok. destruct (str_eqb l []) eqn:E; [done|]. destruct (ContainsByte l "*"); [done|].
  destruct (Nat.ltb_spec maxLabelBytes (length l)); [done|]. destruct (HasPrefix l "-"), (HasSuffix l "-"); simpl; try done.
  intros ->. split_and!; try done. intros ->. done.
Qed.

Lemma Join_all (P : ascii -> bool) l c : P c = true -> Forall (fun s => forallb P s = true) l -> forallb P (Join l c) = true.
Proof.
  intros Hc. induction 1 as [|x l Hx _ IH]; [done|]. destruct l as [|y l]; [by simpl|].
  rewrite Join_cons, forallb_app, Hx. simpl. by rewrite Hc.
Qed.

(** A name whose labels are not empty does not end in a dot. *)
Lemma no_root_dot s : Forall (fun l => l <> []) (Split s ".") -> TrimSuffixByte s "." = s.
Proof.
  intros Hl. unfold TrimSuffixByte. destruct (rev s) as [|d r] eqn:Er; [done|]. destruct (ascii_eqb d ".") eqn:Edot; [|done].
  apply ascii_eqb_eq in Edot as ->. exfalso. apply (f_equal (@rev _)) in Er. rewrite rev_involutive in Er. simpl in Er.
  rewrite Er, Split_app in Hl. rewrite Forall_app in Hl. destruct Hl as [_ Hl]. simpl in Hl. by apply Forall_cons in Hl as [Hl _].
Qed.

Section CanonicaliseTheorems.
Context `{U : Unicode}.

(** A server name that is accepted is in canonical form.  It is the input in lower
    case without its trailing root dot, which had at most 255 bytes; it has at least
    two labels, each of 1 to 63 lower-case letters, digits and inner hyphens, so no
    wildcard; it is not an IP literal; and canonicalising it again changes nothing
    (unless the Unicode tables made the name longer than 255 bytes), so it can serve
    as a cache and policy key. *)
Theorem CanonicaliseServerName_canonical name s :
  CanonicaliseServerName name = Ok s ->
  s = ToLower (TrimSuffixByte name ".") /\ (length (TrimSuffixByte name ".") <= 255)%nat /\
  (2 <= length (Split s "."))%nat /\
  Forall (fun l => l <> [] /\ (length l <= 63)%nat /\ isLDH l = true /\ HasPrefix l "-" = false /\ HasSuffix l "-" = false)
    (Split s ".") /\
  ParseAddr s = None /\
  ((length s <= 255)%nat -> CanonicaliseServerName s = Ok s).
Proof.
  unfold CanonicaliseServerName. destruct (str_eqb name []); [done|]. set (t := TrimSuffixByte name ".").
  destruct (Nat.ltb_spec maxSNIBytes (length t)) as [|Hlen]; [done|].
  destruct (bool_decide _) eqn:Ep; [done|]. apply bool_decide_eq_false in Ep.
  destruct (ContainsByte (ToLower t) ".") eqn:Ed; [|done]. cbn [negb].
  destruct (forallb label_ok (Split (ToLower t) ".")) eqn:El; [|done]. cbn [negb]. rewrite Join_Split. intros [= <-].
  assert (ParseAddr (ToLower t) = None) as Hp by (destruct (ParseAddr (ToLower t)); [by destruct Ep|done]).
  assert (Forall (fun l => label_ok l = true) (Split (ToLower t) ".")) as Hl.
  { apply Forall_forall. intros l Hin. rewrite forallb_forall in El. by apply El, list_elem_of_In. }
  set (s := ToLower t) in *. split_and!; try done.
  - apply ContainsByte_spec, list_elem_of_split in Ed as (a & b & E). rewrite E, Split_app, length_app.
    destruct (Split_cons a ".") as (x & r & ->), (Split_cons b ".") as (y & q & ->). simpl. lia.
  - eapply Forall_impl; [exact Hl|]. intros l. apply label_ok_spec.
  - intros Hs.
    assert (all_ascii s = true /\ map lower_byte s = s) as [Ha Hlow].
    { rewrite <- (Join_Split s "."). split.
      - apply Join_all; [done|]. eapply Forall_impl; [exact Hl|]. intros l Hok. apply label_ok_spec in Hok as (_ & _ & H%isLDH_lower & _). apply H.
      - generalize (Split s ".") Hl. clear. induction 1 as [|x l Hx _ IH]; [done|].
        apply label_ok_spec in Hx as (_ & _ & Hx%isLDH_lower & _). destruct Hx as (_ & Hx & _).
        destruct l as [|y l]; [done|]. by rewrite Join_cons, map_app, Hx; cbn [map]; rewrite IH. }
    assert (TrimSuffixByte s "." = s) as Ht.
    { apply no_root_dot. eapply Forall_impl; [exact Hl|]. intros l Hok. by apply label_ok_spec in Hok as (? & _). }
    assert (str_eqb s [] = false) as ->.
    { destruct s; [done|]. by apply not_true_iff_false; rewrite str_eqb_eq. }
    rewrite Ht. destruct (Nat.ltb_spec maxSNIBytes (length s)); [unfold maxSNIBytes in *; lia|].
    rewrite (ToLower_ascii s Ha), Hlow, Hp. rewrite bool_decide_eq_false_2 by (by intros [? ?]).
    rewrite Ed, El. cbn [negb]. by rewrite Join_Split.
Qed.

(** A canonical name that is accepted again is accepted as itself. *)
Lemma CanonicaliseServerName_again name s s' : CanonicaliseServerName name = Ok s -> CanonicaliseServerName s = Ok s' -> s' = s.
Proof.
  intros (_ & _ & _ & Hl & _ & Hi)%CanonicaliseServerName_canonical H. pose proof H as (_ & Hlen & _)%CanonicaliseServerName_canonical.
  rewrite no_root_dot in Hlen by (eapply Forall_impl; [exact Hl|]; by intros l (? & _)). rewrite Hi in H by done. congruence.
Qed.
End CanonicaliseTheorems.

Lemma CanonicaliseServerName_canonical_witness :
  CanonicaliseServerName (U := ascii_only) (bs "api.example.com") = Ok (bs "api.example.com").
Proof.
  apply (CanonicaliseServerName_canonical (U := ascii_only) (bs "API.Example.com.")); [vm_compute; reflexivity|].
  simpl. lia.
Defined.

(** ** [LeafOptions] *)

(** [MintRate] is a [float64]; a NaN compares with nothing. *)
Record LeafOptions := {
  CacheEntries : Z; CacheTTL : Duration; LeafLifetime : Duration; Backdate : Duration; MintRate : spec_float; MintBurst : Z;
  lo_NextProtos : list gostring; MinVersion : Z; AllowSelfSignedCA : bool
}.

Inductive leaf_options_error :=
| ErrMissingLeafLifetime | ErrMissingCacheTTL | ErrInvalidLifetimeOrdering | ErrMissingMinVersion | ErrMinVersionTooLow
| ErrMissingNextProtos | ErrInvalidNextProtos | ErrInvalidCacheEntries | ErrInvalidMintRate | ErrInvalidMintBurst | ErrInvalidBackdate.

Definition allowedNextProtos : list gostring := [bs "h2"; bs "http/1.1"].
Definition VersionTLS12 : Z := 0x0303.

Definition LeafOptions_Validate (o : LeafOptions) : option leaf_options_error :=
  if LeafLifetime o =? 0 then Some ErrMissingLeafLifetime
  else if CacheTTL o <=? 0 then Some ErrMissingCacheTTL
  else if LeafLifetime o <=? CacheTTL o then Some ErrInvalidLifetimeOrdering
  else if MinVersion o =? 0 then Some ErrMissingMinVersion
  else if MinVersion o <? VersionTLS12 then Some ErrMinVersionTooLow
  else if (length (lo_NextProtos o) =? 0)%nat then Some ErrMissingNextProtos
  else if negb (forallb (fun p => bool_decide (p ∈ allowedNextProtos)) (lo_NextProtos o)) then Some ErrInvalidNextProtos
  else if (CacheEntries o <? 16) || (65536 <? CacheEntries o) then Some ErrInvalidCacheEntries
  else if SFleb (MintRate o) (S754_zero false) then Some ErrInvalidMintRate
  else if MintBurst o <? 1 then Some ErrInvalidMintBurst
  else if Backdate o <? 0 then Some ErrInvalidBackdate
  else None.

(** Accepted options keep a cached leaf within its lifetime and the handshake at TLS
    1.2 or above with a known protocol; the mint rate is positive or not a number. *)
Lemma LeafOptions_Validate_ok o : LeafOptions_Validate o = None ->
  0 < CacheTTL o < LeafLifetime o /\ VersionTLS12 <= MinVersion o /\ lo_NextProtos o <> [] /\
  Forall (fun p => p ∈ allowedNextProtos) (lo_NextProtos o) /\ 16 <= CacheEntries o <= 65536 /\
  SFleb (MintRate o) (S754_zero false) = false /\ 1 <= MintBurst o /\ 0 <= Backdate o.
Proof.
  unfold LeafOptions_Validate.
  destruct (Z.eqb_spec (LeafLifetime o) 0); [done|]. destruct (Z.leb_spec (CacheTTL o) 0); [done|].
  destruct (Z.leb_spec (LeafLifetime o) (CacheTTL o)); [done|]. destruct (Z.eqb_spec (MinVersion o) 0); [done|].
  destruct (Z.ltb_spec (MinVersion o) VersionTLS12); [done|]. destruct (Nat.eqb_spec (length (lo_NextProtos o)) 0) as [|Hl]; [done|].
  destruct (forallb _ _) eqn:Ef; [|done]. cbn [negb].
  destruct (Z.ltb_spec (CacheEntries o) 16); [done|]. destruct (Z.ltb_spec 65536 (CacheEntries o)); [done|]. cbn [orb].
  destruct (SFleb _ _); [done|]. destruct (Z.ltb_spec (MintBurst o) 1); [done|]. destruct (Z.ltb_spec (Backdate o) 0); [done|].
  intros _. split_and!; try done; try lia.
  - intros E. by rewrite E in Hl.
  - apply Forall_forall. intros p Hp. rewrite forallb_forall in Ef. apply list_elem_of_In, Ef in Hp. by apply bool_decide_eq_true in Hp.
Qed.
