(* ===== verification/Metrics.v ===== *)
(** * [internal/audit]: the metric vocabulary

    The enumerations of [labels.go] and [labels_slice2.go] behind the metric labels
    of the data plane, with the label of each constant and the parsers of label
    strings.  The branches of the [String] methods for integers outside an enumeration
    have no counterpart.  The names of [AcquireErrorClass] and [RejectClass] differ
    from the code's, which has enumerations of those names in several packages; the
    constants of [TransportKind] drop the prefix [Transport] for the same reason.  The
    calls of a [MetricsRecorder] that the modelled code makes are values of
    [metric].  The remaining labels and the Prometheus recorder are in Prom.v. *)

From S2P Require Import Prelude GoStrings GoRuntime Compile Match Decision.
#[local] Open Scope Z_scope.

Inductive StageName :=
  | StageUnknown | StageSanitise | StageIdentity | StageMatch | StageAcquire | StageInject
  | StageAcceptDispatch | StageTLSConfigBuild | StageLeafMint | StageUpstreamDial | StageResolve.
#[global] Instance StageName_eq_dec : EqDecision StageName.
Proof. solve_decision. Defined.
Definition StageName_String (x : StageName) : gostring :=
  match x with
  | StageUnknown => "unknown"
  | StageSanitise => "sanitise"
  | StageIdentity => "identity"
  | StageMatch => "match"
  | StageAcquire => "acquire"
  | StageInject => "inject"
  | StageAcceptDispatch => "accept_to_dispatch"
  | StageTLSConfigBuild => "tls_config_build"
  | StageLeafMint => "leaf_mint"
  | StageUpstreamDial => "upstream_dial"
  | StageResolve => "resolve"
  end.

Inductive BoundName :=
  | BoundNone | BoundMaxInflightRequests | BoundPipelining | BoundMaxHeaderBytes
  | BoundRequestHeaderReadTimeout | BoundHandover | BoundMaxResponseBody | BoundHandshakeRate.
#[global] Instance BoundName_eq_dec : EqDecision BoundName.
Proof. solve_decision. Defined.
Definition BoundName_String (x : BoundName) : gostring :=
  match x with
  | BoundNone => "none"
  | BoundMaxInflightRequests => "max_inflight_requests"
  | BoundPipelining => "pipelining"
  | BoundMaxHeaderBytes => "max_header_bytes"
  | BoundRequestHeaderReadTimeout => "request_header_read_timeout"
  | BoundHandover => "handover"
  | BoundMaxResponseBody => "max_response_body"
  | BoundHandshakeRate => "handshake_rate"
  end.

Definition BoundNameFromString (s : gostring) : BoundName :=
  if str_eqb s "max_inflight_requests" then BoundMaxInflightRequests
  else if str_eqb s "pipelining" then BoundPipelining
  else if str_eqb s "max_header_bytes" then BoundMaxHeaderBytes
  else if str_eqb s "request_header_read_timeout" then BoundRequestHeaderReadTimeout
  else if str_eqb s "handover" then BoundHandover
  else if str_eqb s "max_response_body" then BoundMaxResponseBody
  else if str_eqb s "handshake_rate" then BoundHandshakeRate
  else BoundNone.

Inductive TransportKind := KindTLS | KindPlaintext.
#[global] Instance TransportKind_eq_dec : EqDecision TransportKind.
Proof. solve_decision. Defined.
Definition TransportKind_String (x : TransportKind) : gostring :=
  match x with
  | KindTLS => "tls"
  | KindPlaintext => "plaintext"
  end.

Inductive AuditRecordKind := AuditRecordDecision | AuditRecordCompletion.
#[global] Instance AuditRecordKind_eq_dec : EqDecision AuditRecordKind.
Proof. solve_decision. Defined.
Definition AuditRecordKind_String (x : AuditRecordKind) : gostring :=
  match x with
  | AuditRecordDecision => "decision"
  | AuditRecordCompletion => "completion"
  end.

Inductive MetricRejectClass :=
  | RejectClassNone | RejectClassNoOriginalDst | RejectClassLoopGuard | RejectClassNoSNI
  | RejectClassHandshake | RejectClassUnsupportedProtocol | RejectClassIdentityMismatch
  | RejectClassResourceLimit | RejectClassPlaintextUnresolvable
  | RejectClassPlaintextRegistryUnavail.
#[global] Instance MetricRejectClass_eq_dec : EqDecision MetricRejectClass.
Proof. solve_decision. Defined.
Definition MetricRejectClass_String (x : MetricRejectClass) : gostring :=
  match x with
  | RejectClassNone => "none"
  | RejectClassNoOriginalDst => "no_original_dst"
  | RejectClassLoopGuard => "loop_guard"
  | RejectClassNoSNI => "no_sni"
  | RejectClassHandshake => "handshake"
  | RejectClassUnsupportedProtocol => "unsupported_protocol"
  | RejectClassIdentityMismatch => "identity_mismatch"
  | RejectClassResourceLimit => "resource_limit"
  | RejectClassPlaintextUnresolvable => "plaintext_unresolvable"
  | RejectClassPlaintextRegistryUnavail => "plaintext_registry_unavailable"
  end.

Definition MetricRejectClassFromString (s : gostring) : MetricRejectClass :=
  if str_eqb s "no_original_dst" then RejectClassNoOriginalDst
  else if str_eqb s "loop_guard" then RejectClassLoopGuard
  else if str_eqb s "no_sni" then RejectClassNoSNI
  else if str_eqb s "handshake" then RejectClassHandshake
  else if str_eqb s "unsupported_protocol" then RejectClassUnsupportedProtocol
  else if str_eqb s "identity_mismatch" then RejectClassIdentityMismatch
  else if str_eqb s "resource_limit" then RejectClassResourceLimit
  else if str_eqb s "plaintext_unresolvable" then RejectClassPlaintextUnresolvable
  else if str_eqb s "plaintext_registry_unavailable" then RejectClassPlaintextRegistryUnavail
  else RejectClassNone.

Inductive LabelErrorClass := LabelErrorNone | LabelErrorTransient | LabelErrorPermanent | LabelErrorLocal.
#[global] Instance LabelErrorClass_eq_dec : EqDecision LabelErrorClass.
Proof. solve_decision. Defined.
Definition LabelErrorClass_String (x : LabelErrorClass) : gostring :=
  match x with
  | LabelErrorNone => "none"
  | LabelErrorTransient => "transient"
  | LabelErrorPermanent => "permanent"
  | LabelErrorLocal => "local"
  end.

Definition LabelErrorClassFromString (s : gostring) : LabelErrorClass :=
  if str_eqb s "transient" then LabelErrorTransient
  else if str_eqb s "permanent" then LabelErrorPermanent
  else if str_eqb s "local" then LabelErrorLocal
  else LabelErrorNone.

(** One call of [MetricsRecorder.Decisions]. *)
Record sample := Sample { s_disposition : Disposition; s_reason : DenyReason; s_transport : TransportKind; s_fault : bool }.
#[global] Instance sample_eq_dec : EqDecision sample.
Proof. solve_decision. Defined.

(** The calls of a [MetricsRecorder], without measured durations. *)
Inductive metric :=
| MDecisions (s : sample)
| MStageDuration (stage : StageName)
| MTransportReject (class : MetricRejectClass) (bound : BoundName)
| MLeafCacheHit
| MLeafCacheMiss
| MAuditRecord (kind : AuditRecordKind)
| MAuditWriteDuration
| MAuditUnavailable (unavailable : bool).
#[global] Instance metric_eq_dec : EqDecision metric.
Proof. solve_decision. Defined.

Definition is_decision_metric (m : metric) : bool := match m with MDecisions _ => true | _ => false end.
Definition count_decisions (ms : list metric) : nat := length (filter (fun m => is_decision_metric m = true) ms).

Lemma count_decisions_app ms ms' : count_decisions (ms ++ ms') = (count_decisions ms + count_decisions ms')%nat.
Proof. unfold count_decisions. by rewrite filter_app, length_app. Qed.

(** The parsers invert the labels, so no constant is folded into another one. *)
Lemma RejectClass_round_trip r : MetricRejectClassFromString (MetricRejectClass_String r) = r.
Proof. by destruct r; vm_compute. Qed.
Lemma BoundName_round_trip b : BoundNameFromString (BoundName_String b) = b.
Proof. by destruct b; vm_compute. Qed.
Lemma LabelErrorClass_round_trip c : LabelErrorClassFromString (LabelErrorClass_String c) = c.
Proof. by destruct c; vm_compute. Qed.

(** ** Metrics of concurrent tasks, each with the index of the task that recorded it *)

Definition by_task (i : nat) (ms : list metric) : list (nat * metric) := map (pair i) ms.
Definition metrics_of (i : nat) (ms : list (nat * metric)) : list metric := map snd (filter (fun x => x.1 = i) ms).

Lemma metrics_of_app i ms ms' : metrics_of i (ms ++ ms') = metrics_of i ms ++ metrics_of i ms'.
Proof. unfold metrics_of. by rewrite filter_app, map_app. Qed.

Lemma metrics_of_by_task i j ms : metrics_of i (by_task j ms) = if bool_decide (j = i) then ms else [].
Proof.
  unfold metrics_of, by_task. induction ms as [|m ms IH]; [by destruct (bool_decide _)|].
  cbn [map]. rewrite filter_cons. simpl. case_decide; case_bool_decide; try done.
  simpl. by rewrite IH.
Qed.

Create HintDb metrics.
#[export] Hint Rewrite count_decisions_app metrics_of_app metrics_of_by_task : metrics.
