(* ===== verification/Discriminator.v ===== *)
(** * [internal/dataplane/listener]: protocol discrimination

    [discriminator.go] and the protocol part of [types.go].  [Classify] peeks at
    the first bytes of an accepted connection through a [bufio.Reader] and returns
    a connection that replays them.  A connection is any implementation of the
    class [NetConn]; the layers that the code stacks ([bufioConn] on the socket,
    [peekedConn] on [bufioConn]) are written against that class. *)

From S2P Require Import Prelude GoStrings GoRuntime Compile Match Decision Metrics.
#[local] Open Scope Z_scope.

Inductive Protocol := ProtocolUnknown | ProtocolTLS | ProtocolHTTP1 | ProtocolH2CPreface.
#[global] Instance Protocol_eq_dec : EqDecision Protocol.
Proof. solve_decision. Defined.

Definition Protocol_String (p : Protocol) : gostring :=
  match p with
  | ProtocolTLS => "tls"
  | ProtocolHTTP1 => "http/1.1"
  | ProtocolH2CPreface => "h2c"
  | ProtocolUnknown => "unknown"
  end.

(** The transport a framing is evaluated under; [None] is [("", false)]. *)
Definition Protocol_Transport (p : Protocol) : option Transport :=
  match p with
  | ProtocolTLS => Some TransportTLS
  | ProtocolHTTP1 => Some TransportPlaintext
  | _ => None
  end.

Definition transportKindOf (p : Protocol) : TransportKind :=
  if bool_decide (p = ProtocolTLS) then KindTLS else KindPlaintext.

(** ** Classification of the leading bytes *)

Definition PeekSize : nat := 24.
Definition maxZeroProgressReads : nat := 100.
Definition discardScratchSize : nat := PeekSize.

Definition h2cPreface : gostring :=
  bs "PRI * HTTP/2.0" ++ crlf ++ crlf ++ bs "SM" ++ crlf ++ crlf.

Definition httpMethods : list gostring :=
  [bs "GET "; bs "POST "; bs "PUT "; bs "DELETE "; bs "HEAD "; bs "OPTIONS "; bs "PATCH "; bs "CONNECT "; bs "TRACE "].

(** [len(b) >= len(m) && bytes.Equal(b[:len(m)], m)]. *)
Definition starts_with (b m : gostring) : bool :=
  (length m <=? length b)%nat && str_eqb (take (length m) b) m.

Definition isHTTP1RequestLine (b : gostring) : bool := existsb (starts_with b) httpMethods.

Definition is_tls_record (b : gostring) : bool :=
  match b with
  | b0 :: b1 :: b2 :: _ => (code b0 =? 0x16) && (code b1 =? 0x03) && (0x01 <=? code b2) && (code b2 <=? 0x04)
  | _ => false
  end.

Definition classifyBytes (b : gostring) : Protocol :=
  if starts_with b h2cPreface then ProtocolH2CPreface
  else if is_tls_record b then ProtocolTLS
  else if isHTTP1RequestLine b then ProtocolHTTP1
  else ProtocolUnknown.

(** ** Connections *)

(** Errors of reads, as [errors.Is] tells them apart. *)
Inductive io_error := EOF | ErrUnexpectedEOF | ErrDeadlineExceeded | ErrNoProgress | ErrBufferFull | OtherIO (n : Z).
#[global] Instance io_error_eq_dec : EqDecision io_error.
Proof. solve_decision. Defined.

(** A [net.Conn] with its state: [Read] into a buffer of [n] bytes returns at most
    [n] bytes, possibly with an error; [SetReadDeadline] reports whether it failed. *)
Class NetConn (C : Type) := {
  conn_Read : nat -> C -> gostring * option io_error * C;
  conn_SetReadDeadline : option Time -> C -> bool * C;
  conn_Read_len : forall n c, (length (conn_Read n c).1.1 <= n)%nat
}.

(** ** [bufio.Reader] of size [PeekSize]: the bytes between [r] and [w], and [err] *)
Record bufioReader := { b_buf : gostring; b_err : option io_error }.
Definition NewReaderSize : bufioReader := {| b_buf := []; b_err := None |}.
Definition maxConsecutiveEmptyReads : nat := 100.

Section Bufio.
Context `{NetConn C}.

Fixpoint fill (i : nat) (br : bufioReader) (c : C) : bufioReader * C :=
  match i with
  | O => ({| b_buf := b_buf br; b_err := Some ErrNoProgress |}, c)
  | S i =>
      let '(x, e, c) := conn_Read (PeekSize - length (b_buf br)) c in
      let br := {| b_buf := b_buf br ++ x; b_err := e |} in
      if bool_decide (is_Some e) then (br, c)
      else if (0 <? length x)%nat then (br, c)
      else fill i br c
  end.

Fixpoint peek_loop (fuel n : nat) (br : bufioReader) (c : C) : bufioReader * C :=
  match fuel with
  | O => (br, c)
  | S fuel =>
      if (length (b_buf br) <? n)%nat && (length (b_buf br) <? PeekSize)%nat && bool_decide (b_err br = None) then
        let '(br, c) := fill maxConsecutiveEmptyReads br c in peek_loop fuel n br c
      else (br, c)
  end.

Definition Peek (n : nat) (br : bufioReader) (c : C) : gostring * option io_error * bufioReader * C :=
  let '(br, c) := peek_loop (S PeekSize) n br c in
  if (PeekSize <? n)%nat then (b_buf br, Some ErrBufferFull, br, c)
  else if (length (b_buf br) <? n)%nat then
    let e := match b_err br with Some e => e | None => ErrBufferFull end in
    (b_buf br, Some e, {| b_buf := b_buf br; b_err := None |}, c)
  else (take n (b_buf br), None, br, c).

Definition bufio_Read (n : nat) (br : bufioReader) (c : C) : gostring * option io_error * (bufioReader * C) :=
  if (n =? 0)%nat then
    if (0 <? length (b_buf br))%nat then ([], None, (br, c))
    else ([], b_err br, ({| b_buf := b_buf br; b_err := None |}, c))
  else match b_buf br with
  | [] =>
      match b_err br with
      | Some e => ([], Some e, ({| b_buf := []; b_err := None |}, c))
      | None =>
          if (PeekSize <=? n)%nat then
            let '(x, e, c) := conn_Read n c in (x, e, ({| b_buf := []; b_err := None |}, c))
          else
            let '(x, e, c) := conn_Read PeekSize c in
            if (length x =? 0)%nat then ([], e, ({| b_buf := []; b_err := None |}, c))
            else (take n x, None, ({| b_buf := drop n x; b_err := e |}, c))
      end
  | buf => (take n buf, None, ({| b_buf := drop n buf; b_err := b_err br |}, c))
  end.
End Bufio.

Lemma bufio_Read_len `{NetConn C} n br (c : C) : (length (bufio_Read n br c).1.1 <= n)%nat.
Proof.
  unfold bufio_Read. destruct (n =? 0)%nat; [destruct (0 <? _)%nat; simpl; lia|].
  destruct (b_buf br) as [|a buf].
  - destruct (b_err br); [simpl; lia|]. destruct (PeekSize <=? n)%nat.
    + pose proof (conn_Read_len n c). by destruct (conn_Read n c) as [[x e] c'].
    + destruct (conn_Read PeekSize c) as [[x e] c']. destruct (_ =? 0)%nat; simpl; [lia|].
      rewrite length_take. lia.
  - cbn [fst]. rewrite length_take. lia.
Qed.

(** [bufioConn]: reads go through the buffered reader, everything else to the
    embedded connection. *)
Record bufioConn (C : Type) := { bc_Conn : C; bc_br : bufioReader }.
Arguments bc_Conn {C}.
Arguments bc_br {C}.

Definition bufioConn_Read `{NetConn C} (n : nat) (b : bufioConn C) : gostring * option io_error * bufioConn C :=
  let '(x, e, (br, c)) := bufio_Read n (bc_br b) (bc_Conn b) in (x, e, {| bc_Conn := c; bc_br := br |}).

Lemma bufioConn_Read_len `{NetConn C} n (b : bufioConn C) : (length (bufioConn_Read n b).1.1 <= n)%nat.
Proof.
  pose proof (bufio_Read_len n (bc_br b) (bc_Conn b)). unfold bufioConn_Read.
  by destruct (bufio_Read n (bc_br b) (bc_Conn b)) as [[x e] [br c]].
Qed.

#[global] Instance bufioConn_NetConn `{NetConn C} : NetConn (bufioConn C) := {|
  conn_Read := bufioConn_Read;
  conn_SetReadDeadline t b :=
    let '(failed, c) := conn_SetReadDeadline t (bc_Conn b) in (failed, {| bc_Conn := c; bc_br := bc_br b |});
  conn_Read_len := bufioConn_Read_len
|}.

(** [peekedConn]: the peeked bytes not yet replayed and the number of bytes still
    to be discarded from the connection. *)
Record peekedConn (D : Type) := { p_Conn : D; p_buffered : gostring; p_skipPending : nat }.
Arguments p_Conn {D}.
Arguments p_buffered {D}.
Arguments p_skipPending {D}.

Definition NewPeekedConn {D} (conn : D) (peeked : gostring) : peekedConn D :=
  {| p_Conn := conn; p_buffered := peeked; p_skipPending := length peeked |}.

Section Peeked.
Context `{NetConn D}.

(** The discard loop: the error it returns early with, what is left to skip, and
    the connection.  Each iteration lowers [skip] or raises [zeroStreak], which
    [discard_bound] turns into a bound on the iterations. *)
Definition discard_bound (skip zeroStreak : nat) : nat :=
  skip * maxZeroProgressReads + (maxZeroProgressReads - zeroStreak).

Fixpoint discard (fuel : nat) (skip zeroStreak : nat) (c : D) : option io_error * nat * D :=
  match fuel with
  | O => (Some ErrNoProgress, skip, c)
  | S fuel =>
      if (0 <? skip)%nat then
        let '(x, e, c) := conn_Read (Nat.min skip discardScratchSize) c in
        let dn := length x in
        let skip := (skip - dn)%nat in
        match e with
        | Some e => (Some e, skip, c)
        | None =>
            if (dn =? 0)%nat then
              let zeroStreak := S zeroStreak in
              if (maxZeroProgressReads <=? zeroStreak)%nat then (Some ErrNoProgress, skip, c)
              else discard fuel skip zeroStreak c
            else discard fuel skip 0 c
        end
      else (None, skip, c)
  end.

Definition peeked_Read (n : nat) (p : peekedConn D) : gostring * option io_error * peekedConn D :=
  if (n =? 0)%nat then ([], None, p)
  else
    let out := take n (p_buffered p) in
    let rest := drop n (p_buffered p) in
    if (0 <? length (p_buffered p))%nat && (length out =? n)%nat then
      (out, None, {| p_Conn := p_Conn p; p_buffered := rest; p_skipPending := p_skipPending p |})
    else
      let '(e, skip, c) := discard (S (discard_bound (p_skipPending p) 0)) (p_skipPending p) 0 (p_Conn p) in
      match e with
      | Some e => (out, Some e, {| p_Conn := c; p_buffered := rest; p_skipPending := skip |})
      | None =>
          let '(more, e, c) := conn_Read (n - length out) c in
          (out ++ more, e, {| p_Conn := c; p_buffered := rest; p_skipPending := skip |})
      end.

(** Successive reads by the owner of the connection, errors ignored. *)
Fixpoint reads (ns : list nat) (p : peekedConn D) : list gostring * peekedConn D :=
  match ns with
  | [] => ([], p)
  | n :: ns => let '(x, _, p) := peeked_Read n p in let '(xs, p) := reads ns p in (x :: xs, p)
  end.
End Peeked.

(** ** [Classify] *)

Inductive listener_error := ErrMissingConn | ErrSetDeadlineFailed | ErrPeekTimeout | ErrPeekFailed (e : io_error).

Record Discriminator := { peekTimeout : Duration; has_metrics : bool }.

Definition isDeadlineExceeded (e : io_error) : bool := bool_decide (e = ErrDeadlineExceeded).

Section Classify.
Context `{NetConn C}.

Definition classify_result : Type := Protocol * option (peekedConn (bufioConn C)) * option listener_error * list sample * C.

(** From [bufio.NewReaderSize] to the [return] before the deferred call: the
    protocol, the peeked bytes and the reader, or the error. *)
Definition classify_peek (d : Discriminator) (c : C)
  : result listener_error (Protocol * gostring * bufioReader) * list sample * C :=
  let '(peeked, peekErr, br, c) := Peek PeekSize NewReaderSize c in
  let accept :=
    let p := classifyBytes peeked in
    (Ok (p, peeked, br),
     if bool_decide (p = ProtocolUnknown) && has_metrics d
     then [Sample DispositionDeny ReasonUnsupportedProtocol KindPlaintext false] else [], c) in
  match peekErr with
  | Some e =>
      if isDeadlineExceeded e then (Err ErrPeekTimeout, [], c)
      else if negb (bool_decide (e = EOF)) && negb (bool_decide (e = ErrUnexpectedEOF)) then (Err (ErrPeekFailed e), [], c)
      else accept
  | None => accept
  end.

Definition classify_return (r : result listener_error (Protocol * gostring * bufioReader)) (ms : list sample) (c : C)
  : classify_result :=
  match r with
  | Ok (p, peeked, br) => (p, Some (NewPeekedConn {| bc_Conn := c; bc_br := br |} peeked), None, ms, c)
  | Err e => (ProtocolUnknown, None, Some e, ms, c)
  end.

(** The body for a connection that is not nil; the deadline is set first and cleared
    by the deferred call. *)
Definition classify_conn (d : Discriminator) (now : Time) (c : C) : classify_result :=
  if 0 <? peekTimeout d then
    let '(failed, c) := conn_SetReadDeadline (Some (Add now (peekTimeout d))) c in
    if (failed : bool) then (ProtocolUnknown, None, Some ErrSetDeadlineFailed, [], c)
    else
      let '(r, ms, c) := classify_peek d c in
      let '(clear_failed, c) := conn_SetReadDeadline None c in
      match r with
      | Ok _ => if (clear_failed : bool) then (ProtocolUnknown, None, Some ErrSetDeadlineFailed, ms, c)
                else classify_return r ms c
      | Err _ => classify_return r ms c
      end
  else let '(r, ms, c) := classify_peek d c in classify_return r ms c.

Definition Classify (d : Discriminator) (now : Time) (conn : option C)
  : Protocol * option (peekedConn (bufioConn C)) * option listener_error * list sample * option C :=
  match conn with
  | None => (ProtocolUnknown, None, Some ErrMissingConn, [], None)
  | Some c => let '(p, r, e, ms, c) := classify_conn d now c in (p, r, e, ms, Some c)
  end.
End Classify.

(** A connection that delivers the given chunks, one per read, and then [EOF]. *)
Definition script_Read (n : nat) (c : list gostring) : gostring * option io_error * list gostring :=
  match c with
  | [] => ([], Some EOF, [])
  | x :: c => if (length x <=? n)%nat then (x, None, c) else (take n x, None, drop n x :: c)
  end.
Lemma script_Read_len n c : (length (script_Read n c).1.1 <= n)%nat.
Proof. destruct c as [|x c]; simpl; [lia|]. destruct (Nat.leb_spec (length x) n); simpl; [lia|]. rewrite length_take. lia. Qed.
Definition script_conn : NetConn (list gostring) :=
  {| conn_Read := script_Read; conn_SetReadDeadline _ c := (false, c); conn_Read_len := script_Read_len |}.

Definition example_disc : Discriminator := {| peekTimeout := 10 * Second; has_metrics := true |}.
Notation example_chunks := [bs "GET /abc HT"; bs "TP/1.1"; crlf ++ bs "Host: a.example"; crlf ++ crlf].

Example Classify_examples :
  classifyBytes h2cPreface = ProtocolH2CPreface /\
  classifyBytes ["022"%char; "003"%char; "001"%char; "002"%char] = ProtocolTLS /\
  classifyBytes ["022"%char; "003"%char; "000"%char; "002"%char] = ProtocolUnknown /\
  classifyBytes (bs "POST /x") = ProtocolHTTP1 /\ classifyBytes (bs "post /x") = ProtocolUnknown /\ classifyBytes [] = ProtocolUnknown.
Proof. split_and!; vm_compute; reflexivity. Qed.

(** ** The replay connection is transparent *)

(** The bytes that reads on a connection, whatever their buffer sizes and whatever
    deadlines were set in between, take from it between two of its states. *)
Inductive received `{NetConn C} : C -> gostring -> C -> Prop :=
| received_nil c : received c [] c
| received_read n c x e c1 y c2 : conn_Read n c = (x, e, c1) -> received c1 y c2 -> received c (x ++ y) c2
| received_deadline t c f c1 y c2 : conn_SetReadDeadline t c = (f, c1) -> received c1 y c2 -> received c y c2.

Section Transparency.
Context `{NetConn C}.

Lemma received_trans (c1 : C) x c2 y c3 : received c1 x c2 -> received c2 y c3 -> received c1 (x ++ y) c3.
Proof.
  induction 1; intros; [done| |].
  - rewrite <- app_assoc. econstructor; eauto.
  - eapply received_deadline; eauto.
Qed.

Lemma received_one n (c : C) x e c1 : conn_Read n c = (x, e, c1) -> received c x c1.
Proof. intros E. rewrite <- (app_nil_r x). econstructor; [exact E|constructor]. Qed.

Lemma received_clear t (c : C) f c1 : conn_SetReadDeadline t c = (f, c1) -> received c [] c1.
Proof. intros E. eapply received_deadline; [exact E|constructor]. Qed.

Lemma fill_received i br (c : C) br' c' : fill i br c = (br', c') ->
  exists x, received c x c' /\ b_buf br' = b_buf br ++ x /\
    ((length (b_buf br) <= PeekSize)%nat -> (length (b_buf br') <= PeekSize)%nat).
Proof.
  revert br c. induction i as [|i IH]; cbn [fill]; intros br c E.
  - simplify_eq. exists []. rewrite app_nil_r. split_and!; [constructor|done|done].
  - destruct (conn_Read _ c) as [[x e] c1] eqn:Er. pose proof (received_one _ _ _ _ _ Er) as R.
    pose proof (conn_Read_len (PeekSize - length (b_buf br)) c) as L. rewrite Er in L. cbn [fst] in L.
    assert ((length (b_buf br) <= PeekSize)%nat -> (length (b_buf br ++ x) <= PeekSize)%nat) by (rewrite length_app; lia).
    destruct (bool_decide _); [simplify_eq; exists x; done|]. destruct (0 <? length x)%nat; [simplify_eq; exists x; done|].
    apply IH in E as (y & Ry & Ey & Ly). exists (x ++ y). rewrite Ey. cbn [b_buf] in *. rewrite <- app_assoc.
    split_and!; [by eapply received_trans|done|]. intros. rewrite app_assoc, <- Ey. auto.
Qed.

Lemma peek_loop_received fuel n br (c : C) br' c' : peek_loop fuel n br c = (br', c') ->
  exists x, received c x c' /\ b_buf br' = b_buf br ++ x /\
    ((length (b_buf br) <= PeekSize)%nat -> (length (b_buf br') <= PeekSize)%nat).
Proof.
  revert br c. induction fuel as [|fuel IH]; cbn [peek_loop]; intros br c E.
  - simplify_eq. exists []. rewrite app_nil_r. split_and!; [constructor|done|done].
  - destruct (_ && _ && _).
    + destruct (fill _ br c) as [br1 c1] eqn:Ef. apply fill_received in Ef as (x & Rx & Ex & Lx).
      apply IH in E as (y & Ry & Ey & Ly). exists (x ++ y). rewrite Ey, Ex, app_assoc.
      split_and!; [by eapply received_trans|done|]. rewrite <- Ex, <- Ey. auto.
    + simplify_eq. exists []. rewrite app_nil_r. split_and!; [constructor|done|done].
Qed.

(** Each [fill] adds a byte or ends with an error, so the loop of [Peek] stops by its
    own condition before the fuel runs out. *)
Lemma fill_progress i br (c : C) br' c' : fill i br c = (br', c') ->
  b_err br' <> None \/ (length (b_buf br) < length (b_buf br'))%nat.
Proof.
  revert br c. induction i as [|i IH]; cbn [fill]; intros br c E; [simplify_eq; by left|].
  destruct (conn_Read _ c) as [[x e] c1]. case_bool_decide as He; [simplify_eq; left; by destruct He as [? ->]|].
  destruct (Nat.ltb_spec 0 (length x)).
  - simplify_eq. right. cbn [b_buf]. rewrite length_app. lia.
  - apply IH in E as [|E]; [by left|right]. cbn [b_buf] in E. rewrite length_app in E. lia.
Qed.

Lemma peek_loop_ends fuel n br (c : C) br' c' :
  (PeekSize - length (b_buf br) < fuel)%nat -> peek_loop fuel n br c = (br', c') ->
  (n <= length (b_buf br'))%nat \/ (PeekSize <= length (b_buf br'))%nat \/ b_err br' <> None.
Proof.
  revert br c. induction fuel as [|fuel IH]; cbn [peek_loop]; intros br c Hf E; [lia|].
  destruct (Nat.ltb_spec (length (b_buf br)) n); cbn [andb] in E; [|simplify_eq; by left].
  destruct (Nat.ltb_spec (length (b_buf br)) PeekSize); cbn [andb] in E; [|simplify_eq; by right; left].
  case_bool_decide; [|simplify_eq; by right; right].
  destruct (fill _ br c) as [br1 c1] eqn:Ef. apply fill_progress in Ef as [He|Hl]; [|apply (IH br1 c1); [lia|done]].
  destruct fuel as [|fuel]; cbn [peek_loop] in E; [simplify_eq; by right; right|].
  rewrite (bool_decide_false _ He), andb_false_r in E. simplify_eq. by right; right.
Qed.

(** Peeking at the whole buffer returns exactly what it holds. *)
Lemma Peek_received (c : C) peeked e br' c' : Peek PeekSize NewReaderSize c = (peeked, e, br', c') ->
  received c peeked c' /\ b_buf br' = peeked /\ (length peeked <= PeekSize)%nat.
Proof.
  unfold Peek. destruct (peek_loop _ _ _ c) as [br c1] eqn:Ep. apply peek_loop_received in Ep as (x & Rx & Ex & Lx).
  cbn [b_buf NewReaderSize app] in Ex, Lx. rewrite Ex in *. assert (length x <= PeekSize)%nat by (apply Lx; simpl; lia).
  replace (PeekSize <? PeekSize)%nat with false by done.
  destruct (length x <? PeekSize)%nat; intros [= <- <- <- <-]; cbn [b_buf]; [done|].
  rewrite take_ge by lia. done.
Qed.

Lemma bufio_Read_received n br (c : C) o e br' c' : bufio_Read n br c = (o, e, (br', c')) ->
  exists x, received c x c' /\ b_buf br ++ x = o ++ b_buf br' /\
    ((length (b_buf br) <= PeekSize)%nat -> (length (b_buf br') <= PeekSize)%nat).
Proof.
  unfold bufio_Read. destruct (n =? 0)%nat.
  { exists []. rewrite app_nil_r. destruct (0 <? _)%nat; simplify_eq; split_and!; try done; constructor. }
  destruct (b_buf br) as [|a buf] eqn:Eb.
  - destruct (b_err br).
    { intros. simplify_eq. exists []. split_and!; [constructor|done|simpl; lia]. }
    destruct (PeekSize <=? n)%nat.
    + destruct (conn_Read n c) as [[x e'] c1] eqn:Er. intros. simplify_eq. exists o. cbn [b_buf].
      rewrite app_nil_r. split_and!; [by eapply received_one|done|simpl; lia].
    + pose proof (conn_Read_len PeekSize c) as L.
      destruct (conn_Read PeekSize c) as [[x e'] c1] eqn:Er. cbn [fst] in L. destruct (Nat.eqb_spec (length x) 0) as [Hx|Hx].
      * apply nil_length_inv in Hx as ->. intros. simplify_eq. exists []. split_and!; [by eapply received_one|done|simpl; lia].
      * intros. simplify_eq. exists x. cbn [b_buf app]. rewrite take_drop. split_and!; [by eapply received_one|done|].
        rewrite length_drop. lia.
  - intros. simplify_eq. exists []. cbn [b_buf]. rewrite app_nil_r, take_drop. split_and!; [constructor|done|].
    rewrite length_drop. lia.
Qed.
End Transparency.

(** The fuel of the discard loop is enough: more does not change its result. *)
Lemma discard_enough `{NetConn D} f1 f2 skip z (c : D) :
  (z < maxZeroProgressReads)%nat -> (discard_bound skip z < f1)%nat -> (discard_bound skip z < f2)%nat ->
  discard f1 skip z c = discard f2 skip z c.
Proof.
  revert f2 skip z c. induction f1 as [|f1 IH]; intros [|f2] skip z c Hz H1 H2; try lia.
  cbn [discard]. destruct (Nat.ltb_spec 0 skip); [|done]. destruct (conn_Read _ c) as [[x e] c1].
  destruct e; [done|]. unfold discard_bound in *. destruct (Nat.eqb_spec (length x) 0) as [->|].
  - destruct (Nat.leb_spec maxZeroProgressReads (S z)); [done|]. apply IH; unfold discard_bound; lia.
  - assert (((skip - length x) * maxZeroProgressReads + maxZeroProgressReads <= skip * maxZeroProgressReads)%nat).
    { assert (skip - length x + 1 <= skip)%nat as L by lia. apply (Nat.mul_le_mono_r _ _ maxZeroProgressReads) in L. lia. }
    apply IH; unfold discard_bound, maxZeroProgressReads in *; lia.
Qed.

Section Replay.
Context `{NetConn C}.
Implicit Types p : peekedConn (bufioConn C).

Definition replay_buf p : gostring := b_buf (bc_br (p_Conn p)).
Definition replay_conn p : C := bc_Conn (p_Conn p).

(** What the replay connection has taken from the socket and not delivered. *)
Definition pending p : gostring := p_buffered p ++ drop (p_skipPending p) (replay_buf p).

Definition replay_inv p : Prop :=
  (length (replay_buf p) <= PeekSize)%nat /\ (length (p_buffered p) <= PeekSize)%nat /\
  ((p_skipPending p = 0%nat /\ p_buffered p = []) \/ (p_skipPending p = length (replay_buf p) /\ (0 < p_skipPending p)%nat)).

(** The bytes to skip are all in the reader's buffer, so one read removes them. *)
Lemma discard_replay (b : bufioConn C) k :
  (0 < length (b_buf (bc_br b)) <= PeekSize)%nat ->
  discard (S (S k)) (length (b_buf (bc_br b))) 0 b =
    (None, 0%nat, {| bc_Conn := bc_Conn b; bc_br := {| b_buf := []; b_err := b_err (bc_br b) |} |}).
Proof.
  intros L. cbn [discard]. destruct (Nat.ltb_spec 0 (length (b_buf (bc_br b)))); [|lia].
  rewrite Nat.min_l by (unfold discardScratchSize; lia). cbn [conn_Read bufioConn_NetConn]. unfold bufioConn_Read, bufio_Read.
  destruct (Nat.eqb_spec (length (b_buf (bc_br b))) 0); [lia|]. destruct (b_buf (bc_br b)) as [|a buf]; [simpl in *; lia|].
  rewrite (take_ge (a :: buf)), (drop_ge (a :: buf)) by lia. by rewrite Nat.sub_diag.
Qed.

Lemma peeked_Read_spec n p o e p' : replay_inv p -> peeked_Read n p = (o, e, p') ->
  replay_inv p' /\ exists x, received (replay_conn p) x (replay_conn p') /\ pending p ++ x = o ++ pending p'.
Proof.
  intros (Lb & Lp & Hs). unfold peeked_Read.
  destruct (Nat.eqb_spec n 0); [intros; simplify_eq; split; [done|]; exists []; rewrite app_nil_r; split; [constructor|done]|].
  destruct (_ && _) eqn:Eq.
  { intros. simplify_eq. apply andb_true_iff in Eq as [H1%Nat.ltb_lt _]. destruct Hs as [[_ Hs]|Hs]; [rewrite Hs in H1; simpl in H1; lia|].
    split. { split_and!; [done|cbn [p_buffered]; rewrite length_drop; lia|by right]. }
    exists []. split; [constructor|]. unfold pending, replay_buf. cbn. by rewrite app_nil_r, app_assoc, take_drop. }
  assert (take n (p_buffered p) = p_buffered p /\ drop n (p_buffered p) = []) as [-> ->].
  { destruct (Nat.ltb_spec 0 (length (p_buffered p))) as [|Hl]; cbn [andb] in Eq.
    - apply Nat.eqb_neq in Eq. rewrite length_take in Eq. split; [apply take_ge|apply drop_ge]; lia.
    - assert (p_buffered p = []) as -> by (apply nil_length_inv; lia). by rewrite take_nil, drop_nil. }
  assert (exists br, discard (S (discard_bound (p_skipPending p) 0)) (p_skipPending p) 0 (p_Conn p) =
      (None, 0%nat, {| bc_Conn := replay_conn p; bc_br := br |}) /\ b_buf br = drop (p_skipPending p) (replay_buf p)) as (br & -> & Ebr).
  { destruct Hs as [[-> _]|[Hs Hp]].
    - exists (bc_br (p_Conn p)). cbn [discard]. unfold replay_conn. split; [|done]. cbn. by destruct (p_Conn p).
    - rewrite Hs in *. exists {| b_buf := []; b_err := b_err (bc_br (p_Conn p)) |}. cbn [b_buf]. rewrite drop_ge by lia. split; [|done].
      unfold discard_bound. replace (_ + _)%nat with (S (length (replay_buf p) * maxZeroProgressReads + 99)) by (simpl; lia).
      apply discard_replay. unfold replay_buf in *. lia. }
  cbn [conn_Read bufioConn_NetConn]. unfold bufioConn_Read. cbn [bc_br bc_Conn].
  destruct (bufio_Read _ br _) as [[more e'] [br' c']] eqn:Er. apply bufio_Read_received in Er as (x & Rx & Ex & Lx).
  intros. simplify_eq. assert (length (b_buf br') <= PeekSize)%nat by (apply Lx; rewrite Ebr, length_drop; lia).
  split. { split_and!; [done|simpl; lia|by left]. }
  exists x. split; [exact Rx|]. unfold pending, replay_buf at 2. cbn [p_buffered p_skipPending p_Conn bc_br].
  rewrite <- Ebr, <- !app_assoc, Ex. by rewrite drop_0.
Qed.

Lemma reads_spec ns p os p' : replay_inv p -> reads ns p = (os, p') ->
  replay_inv p' /\ exists x, received (replay_conn p) x (replay_conn p') /\ pending p ++ x = concat os ++ pending p'.
Proof.
  revert p os. induction ns as [|n ns IH]; cbn [reads]; intros p os Hi E.
  - simplify_eq. split; [done|]. exists []. rewrite app_nil_r. split; [constructor|done].
  - destruct (peeked_Read n p) as [[o e] p1] eqn:Er. destruct (reads ns p1) as [os1 p2] eqn:Es. simplify_eq.
    apply peeked_Read_spec in Er as (Hi1 & x & Rx & Ex); [|done]. apply IH in Es as (Hi2 & y & Ry & Ey); [|done].
    split; [done|]. exists (x ++ y). split; [by eapply received_trans|]. cbn [concat]. by rewrite app_assoc, Ex, <- !app_assoc, Ey.
Qed.

Lemma NewPeekedConn_inv (c : C) br peeked : b_buf br = peeked -> (length peeked <= PeekSize)%nat ->
  replay_inv (NewPeekedConn {| bc_Conn := c; bc_br := br |} peeked) /\
  pending (NewPeekedConn {| bc_Conn := c; bc_br := br |} peeked) = peeked.
Proof.
  intros E L. unfold replay_inv, pending, replay_buf. cbn. rewrite E. split; [|by rewrite drop_ge, app_nil_r by lia].
  split_and!; [done|done|]. destruct peeked as [|a peeked]; [by left|right]. simpl. split; [done|lia].
Qed.

Lemma classify_peek_ok d (c : C) (p : Protocol) peeked br ms c' : classify_peek d c = (Ok (p, peeked, br), ms, c') ->
  received c peeked c' /\ b_buf br = peeked /\ (length peeked <= PeekSize)%nat /\ p = classifyBytes peeked /\
  ms = (if bool_decide (p = ProtocolUnknown) && has_metrics d
        then [Sample DispositionDeny ReasonUnsupportedProtocol KindPlaintext false] else []).
Proof.
  unfold classify_peek. destruct (Peek PeekSize NewReaderSize c) as [[[pk e] br1] c1] eqn:Ep. apply Peek_received in Ep as (R & B & L).
  destruct e as [e|]; [destruct (isDeadlineExceeded e); [done|]; destruct (_ && _); [done|]|]; intros; by simplify_eq.
Qed.

Lemma Classify_ok d now (c : C) (p : Protocol) r ms co : Classify d now (Some c) = (p, Some r, None, ms, co) ->
  exists c1 peeked br c2 c', received c [] c1 /\ classify_peek d c1 = (Ok (p, peeked, br), ms, c2) /\ received c2 [] c' /\
    co = Some c' /\ r = NewPeekedConn {| bc_Conn := c'; bc_br := br |} peeked.
Proof.
  unfold Classify, classify_conn. destruct (0 <? peekTimeout d).
  - destruct (conn_SetReadDeadline _ c) as [f c1] eqn:Ed. destruct f; [done|].
    destruct (classify_peek d c1) as [[rs ms'] c2] eqn:Ep. destruct (conn_SetReadDeadline None c2) as [f c'] eqn:Ec.
    destruct rs as [[[p' pk] br]|e]; [|done]. destruct f; [done|]. cbn [classify_return]. intros. simplify_eq.
    exists c1, pk, br, c2, c'. split_and!; try done; by eapply received_clear.
  - destruct (classify_peek d c) as [[rs ms'] c2] eqn:Ep. destruct rs as [[[p' pk] br]|e]; [|done].
    cbn [classify_return]. intros. simplify_eq. exists c, pk, br, c2, c2. split_and!; try done; constructor.
Qed.

(** C36: peeking does not change what the connection's owner reads.  When
    classification returns a connection, the protocol is the one of the first bytes
    of the stream, at most 24 of them, an unknown framing is counted as one clean
    denial of a plaintext connection, and after any sequence of reads on the returned
    connection the bytes delivered, followed by the at most 24 bytes it still holds,
    are exactly the bytes taken from the socket since it was accepted: none lost,
    duplicated or reordered. *)
Theorem Classify_replays_stream d now (c : C) (p : Protocol) r ms co :
  Classify d now (Some c) = (p, Some r, None, ms, co) ->
  exists seen, (length seen <= PeekSize)%nat /\ p = classifyBytes seen /\
    ms = (if bool_decide (p = ProtocolUnknown) && has_metrics d
          then [Sample DispositionDeny ReasonUnsupportedProtocol KindPlaintext false] else []) /\
    forall ns os r', reads ns r = (os, r') ->
      (length (pending r') <= PeekSize)%nat /\
      received c (concat os ++ pending r') (replay_conn r') /\
      exists later, concat os ++ pending r' = seen ++ later.
Proof.
  intros (c1 & seen & br & c2 & c' & R0 & (R1 & B & L & Ep & Em)%classify_peek_ok & R2 & -> & ->)%Classify_ok.
  exists seen. split_and!; try done. intros ns os r' (I & x & Rx & Ex)%reads_spec; [|by apply NewPeekedConn_inv].
  destruct (NewPeekedConn_inv c' br seen B L) as [_ Epend]. rewrite Epend in Ex. rewrite <- Ex. split_and!.
  - destruct I as (L1 & L2 & I). unfold pending. rewrite length_app, length_drop. destruct I as [[_ ->]|[-> _]]; simpl; lia.
  - eapply (received_trans c [] c1); [done|]. eapply received_trans; [exact R1|]. eapply (received_trans c2 [] c'); [done|]. exact Rx.
  - by exists x.
Qed.
End Replay.

Notation example_run := (Classify (H := script_conn) example_disc 0 (Some example_chunks)).
Lemma Classify_replays_stream_witness :
  exists r', received (H := script_conn) example_chunks (concat example_chunks) (replay_conn r').
Proof.
  destruct example_run as [[[[p r] e] ms] co] eqn:E.
  destruct r as [r|]; [|vm_compute in E; discriminate]. destruct e as [e|]; [vm_compute in E; discriminate|].
  destruct (Classify_replays_stream (H := script_conn) _ _ _ _ _ _ _ E) as (seen & _ & _ & _ & Hr).
  destruct (reads (H := bufioConn_NetConn (H := script_conn)) [10%nat; 20%nat; 40%nat; 5%nat; 40%nat] r) as [os r'] eqn:Er.
  destruct (Hr _ _ _ Er) as (_ & R & _). exists r'.
  assert (concat os ++ pending r' = concat example_chunks) as <-; [|exact R].
  vm_compute in E. simplify_eq. vm_compute in Er. simplify_eq. vm_compute. reflexivity.
Defined.
