(* ===== verification/Upstream.v ===== *)
(** * [internal/dataplane/upstream]: the upstream dialer

    [direct.go], [upstream_options.go] and the self-dial registry
    [listener/selfdial.go].  Package [net] and the TLS handshake are the outcomes
    handed to the definitions: the local address of a new socket, or the failure to
    connect, and whether the handshake succeeded.  The dialer's shared state is its
    semaphore and the registry; concurrent calls of [DialUpstream] and [Close] are
    interleavings of the atomic actions that each performs on that state. *)

From S2P Require Import Prelude GoStrings GoRuntime Compile Match Decision Metrics.
#[local] Open Scope Z_scope.

(** ** Package [netip] *)

Inductive Addr := NoAddr | Addr4 (ip : Z) | Addr6 (ip : Z).
#[global] Instance Addr_eq_dec : EqDecision Addr.
Proof. solve_decision. Defined.
#[global] Instance Addr_countable : Countable Addr.
Proof.
  refine (inj_countable'
    (fun a => match a with NoAddr => inl tt | Addr4 z => inr (inl z) | Addr6 z => inr (inr z) end)
    (fun x => match x with inl _ => NoAddr | inr (inl z) => Addr4 z | inr (inr z) => Addr6 z end) _).
  by intros [].
Defined.

Definition Addr_IsValid (a : Addr) : bool := negb (bool_decide (a = NoAddr)).
Definition Is4 (a : Addr) : bool := match a with Addr4 _ => true | _ => false end.
Definition Is4In6 (a : Addr) : bool := match a with Addr6 ip => Z.shiftr ip 32 =? 0xffff | _ => false end.
Definition Unmap (a : Addr) : Addr :=
  match a with Addr6 ip => if Is4In6 a then Addr4 (ip mod 2 ^ 32) else a | _ => a end.
Definition IsLoopback (a : Addr) : bool :=
  match Unmap a with Addr4 ip => Z.shiftr ip 24 =? 127 | Addr6 ip => ip =? 1 | NoAddr => false end.

Definition be_value (s : gostring) : Z := fold_left (fun acc c => acc * 256 + code c) s 0.
Definition AddrFromSlice (s : gostring) : option Addr :=
  if (length s =? 4)%nat then Some (Addr4 (be_value s))
  else if (length s =? 16)%nat then Some (Addr6 (be_value s)) else None.

Record AddrPort := AddrPortFrom { ap_Addr : Addr; ap_Port : Z }.
#[global] Instance AddrPort_eq_dec : EqDecision AddrPort.
Proof. solve_decision. Defined.
#[global] Instance AddrPort_countable : Countable AddrPort.
Proof.
  refine (inj_countable' (fun a => (ap_Addr a, ap_Port a)) (fun x => AddrPortFrom x.1 x.2) _). by intros [].
Defined.
Definition AddrPort_IsValid (a : AddrPort) : bool := Addr_IsValid (ap_Addr a).

(** ** [SelfDialRegistry] *)

Notation SelfDialRegistry := (gset AddrPort).
Definition NewSelfDialRegistry : SelfDialRegistry := ∅.
(** [None] is [ErrInvalidAddr]. *)
Definition registry_Add (addr : AddrPort) (r : SelfDialRegistry) : option SelfDialRegistry :=
  if negb (AddrPort_IsValid addr) then None else Some ({[addr]} ∪ r).
Definition registry_Contains (addr : AddrPort) (r : SelfDialRegistry) : bool := bool_decide (addr ∈ r).
Definition registry_Remove (addr : AddrPort) (r : SelfDialRegistry) : SelfDialRegistry := r ∖ {[addr]}.

(** ** Options and construction *)

Record UpstreamOptions := {
  DialTimeout : Duration;
  HandshakeTimeout : Duration;
  MaxConcurrentDials : Z;
  ProxyUID : Z;
  ListenerPort : Z;
  NextProtos : list gostring
}.

Inductive options_error :=
| ErrMissingDialTimeout | ErrInvalidDialTimeout | ErrInvalidProxyUID | ErrInvalidMaxConcurrentDials.

Definition UpstreamOptions_Validate (o : UpstreamOptions) : option options_error :=
  if DialTimeout o =? 0 then Some ErrMissingDialTimeout
  else if DialTimeout o <? 0 then Some ErrInvalidDialTimeout
  else if ProxyUID o =? 0 then Some ErrInvalidProxyUID
  else if MaxConcurrentDials o <=? 0 then Some ErrInvalidMaxConcurrentDials
  else None.

Record DirectDialer := {
  nextProtos : list gostring;
  connectTO : Duration;
  handshakeTO : Duration;
  listenerP : Z;
  sem_cap : nat
}.

Inductive new_error := ErrMissingRegistry | ErrMissingMetrics | ErrInvalidOptions (e : options_error).

(** [reg] and [m] say whether the arguments are not nil. *)
Definition NewDirectDialer (opts : UpstreamOptions) (reg m : bool) : result new_error DirectDialer :=
  if negb reg then Err ErrMissingRegistry
  else if negb m then Err ErrMissingMetrics
  else match UpstreamOptions_Validate opts with
  | Some e => Err (ErrInvalidOptions e)
  | None => Ok {| nextProtos := NextProtos opts; connectTO := DialTimeout opts; handshakeTO := HandshakeTimeout opts;
                  listenerP := ListenerPort opts; sem_cap := Z.to_nat (MaxConcurrentDials opts) |}
  end.

(** ** [DialUpstream] *)

Inductive dial_error :=
| ErrInvalidAddr | ErrUnsupportedAddrFamily | ErrEmptyServerName | ErrLoopGuard | ErrUpstreamConcurrency
| ErrDial | ErrLocalAddrType | ErrRegistryAdd | ErrLocalAddr | ErrHandshake.

Definition isSelfDial (d : DirectDialer) (reg : SelfDialRegistry) (addr : AddrPort) : bool :=
  if IsLoopback (ap_Addr addr) && (ap_Port addr =? listenerP d) then true else registry_Contains addr reg.

Definition deny (reason : DenyReason) (fault : bool) : metric := MDecisions (Sample DispositionDeny reason KindTLS fault).

(** The checks before the semaphore, up to the loop guard. *)
Definition dial_check (d : DirectDialer) (reg : SelfDialRegistry) (addr : AddrPort) (serverName : gostring)
  : option (dial_error * list metric) :=
  if negb (AddrPort_IsValid addr) || (ap_Port addr =? 0) then Some (ErrInvalidAddr, [deny ReasonInternal true])
  else if negb (Is4 (ap_Addr addr)) then Some (ErrUnsupportedAddrFamily, [deny ReasonInternal true])
  else if str_eqb serverName [] then Some (ErrEmptyServerName, [deny ReasonInternal true])
  else if isSelfDial d reg addr then Some (ErrLoopGuard, [deny ReasonLoopGuard false])
  else None.

(** [tcp.LocalAddr()] of the connected socket. *)
Inductive local_addr := LocalOther | LocalTCP (IP : gostring) (Port : Z).

(** What follows [DialContext] up to the registration of the local address, with
    [None] for a failed dial.  On an error the slot is released. *)
Definition dial_connected (tcp : option local_addr) (reg : SelfDialRegistry)
  : result (dial_error * list metric) (AddrPort * SelfDialRegistry) :=
  match tcp with
  | None => Err (ErrDial, [deny ReasonDialFailed true; MStageDuration StageUpstreamDial])
  | Some LocalOther => Err (ErrLocalAddrType, [deny ReasonInternal true; MStageDuration StageUpstreamDial])
  | Some (LocalTCP ip port) =>
      match AddrFromSlice ip with
      | Some local =>
          let localAddrPort := AddrPortFrom (Unmap local) (uint16 port) in
          match registry_Add localAddrPort reg with
          | Some reg => Ok (localAddrPort, reg)
          | None => Err (ErrRegistryAdd, [deny ReasonRegistryAddFailed true; MStageDuration StageUpstreamDial])
          end
      | None => Err (ErrLocalAddr, [deny ReasonRegistryAddFailed true; MStageDuration StageUpstreamDial])
      end
  end.

(** [if addr.IsValid() { registry.Remove(addr) }]. *)
Definition remove_valid (addr : AddrPort) (reg : SelfDialRegistry) : SelfDialRegistry :=
  if AddrPort_IsValid addr then registry_Remove addr reg else reg.

Definition handshake_failed : list metric := [deny ReasonHandshakeFailed true; MStageDuration StageUpstreamDial].
Definition handshake_done : list metric := [MStageDuration StageUpstreamDial].

(** A call that runs without interference: the local address of the connection it
    returns, or the error; the metrics; the slots in use and the registry after it. *)
Definition DialUpstream (d : DirectDialer) (addr : AddrPort) (serverName : gostring)
    (tcp : option local_addr) (handshake : bool) (sem : nat) (reg : SelfDialRegistry)
  : result dial_error AddrPort * list metric * (nat * SelfDialRegistry) :=
  match dial_check d reg addr serverName with
  | Some (e, ms) => (Err e, ms, (sem, reg))
  | None =>
      if (sem_cap d <=? sem)%nat then (Err ErrUpstreamConcurrency, [deny ReasonResourceLimit false], (sem, reg))
      else
        let sem := S sem in
        match dial_connected tcp reg with
        | Err (e, ms) => (Err e, ms, (pred sem, reg))
        | Ok (local, reg) =>
            if negb handshake then (Err ErrHandshake, handshake_failed, (pred sem, remove_valid local reg))
            else (Ok local, handshake_done, (sem, reg))
        end
  end.

(** [upstreamConn.Close] without interference; [closed] is the flag it swaps. *)
Definition upstreamConn_Close (closed : bool) (addr : AddrPort) (sem : nat) (reg : SelfDialRegistry)
  : bool * (nat * SelfDialRegistry) :=
  if negb closed then (true, (pred sem, remove_valid addr reg)) else (closed, (sem, reg)).

(** ** Interleavings

    One task per call of [DialUpstream]; its status is the point its goroutine, or
    the goroutine that closes the connection, has reached. *)

Inductive dial_status :=
| Checked                          (* past the loop guard *)
| Dialing                          (* holds a slot *)
| Handshaking (local : AddrPort)   (* registered *)
| Aborting (local : AddrPort)      (* handshake failed, still registered *)
| Aborted                          (* no longer registered, still holds its slot *)
| Failed (e : dial_error)
| Open (local : AddrPort)
| Closing (local : AddrPort)       (* [closed] is set *)
| Releasing                        (* no longer registered, still holds its slot *)
| Closed.

Record task := Task { t_addr : AddrPort; t_serverName : gostring; t_status : dial_status }.

Record dialer_state := {
  ds_sem : nat;
  ds_registry : SelfDialRegistry;
  ds_tasks : list task;
  ds_metrics : list (nat * metric)
}.

Definition dialer_init : dialer_state :=
  {| ds_sem := 0; ds_registry := NewSelfDialRegistry; ds_tasks := []; ds_metrics := [] |}.

(** Task [i] moves to [st]; the semaphore, the registry and the metrics change. *)
Definition move (s : dialer_state) (i : nat) (t : task) (st : dial_status) (sem : nat) (reg : SelfDialRegistry) (ms : list metric)
  : dialer_state :=
  {| ds_sem := sem; ds_registry := reg; ds_tasks := <[i := Task (t_addr t) (t_serverName t) st]> (ds_tasks s);
     ds_metrics := ds_metrics s ++ by_task i ms |}.

Inductive dial_step (d : DirectDialer) (s : dialer_state) : dialer_state -> Prop :=
| step_call addr sn :
    dial_step d s
      {| ds_sem := ds_sem s; ds_registry := ds_registry s;
         ds_tasks := ds_tasks s ++
           [Task addr sn (match dial_check d (ds_registry s) addr sn with Some (e, _) => Failed e | None => Checked end)];
         ds_metrics := ds_metrics s ++ by_task (length (ds_tasks s))
           (match dial_check d (ds_registry s) addr sn with Some (_, ms) => ms | None => [] end) |}
| step_acquire i t :
    ds_tasks s !! i = Some t -> t_status t = Checked ->
    dial_step d s
      (if (sem_cap d <=? ds_sem s)%nat
       then move s i t (Failed ErrUpstreamConcurrency) (ds_sem s) (ds_registry s) [deny ReasonResourceLimit false]
       else move s i t Dialing (S (ds_sem s)) (ds_registry s) [])
| step_connect i t tcp :
    ds_tasks s !! i = Some t -> t_status t = Dialing ->
    dial_step d s
      (match dial_connected tcp (ds_registry s) with
       | Err (e, ms) => move s i t (Failed e) (pred (ds_sem s)) (ds_registry s) ms
       | Ok (local, reg) => move s i t (Handshaking local) (ds_sem s) reg []
       end)
| step_handshake i t local (ok : bool) :
    ds_tasks s !! i = Some t -> t_status t = Handshaking local ->
    dial_step d s
      (if ok then move s i t (Open local) (ds_sem s) (ds_registry s) handshake_done
       else move s i t (Aborting local) (ds_sem s) (ds_registry s) [])
| step_abort_remove i t local :
    ds_tasks s !! i = Some t -> t_status t = Aborting local ->
    dial_step d s (move s i t Aborted (ds_sem s) (remove_valid local (ds_registry s)) [])
| step_abort_release i t :
    ds_tasks s !! i = Some t -> t_status t = Aborted ->
    dial_step d s (move s i t (Failed ErrHandshake) (pred (ds_sem s)) (ds_registry s) handshake_failed)
| step_close i t local :
    ds_tasks s !! i = Some t -> t_status t = Open local ->
    dial_step d s (move s i t (Closing local) (ds_sem s) (ds_registry s) [])
| step_close_remove i t local :
    ds_tasks s !! i = Some t -> t_status t = Closing local ->
    dial_step d s (move s i t Releasing (ds_sem s) (remove_valid local (ds_registry s)) [])
| step_close_release i t :
    ds_tasks s !! i = Some t -> t_status t = Releasing ->
    dial_step d s (move s i t Closed (pred (ds_sem s)) (ds_registry s) []).

Inductive dial_reachable (d : DirectDialer) : dialer_state -> Prop :=
| reach_init : dial_reachable d dialer_init
| reach_step s s' : dial_reachable d s -> dial_step d s s' -> dial_reachable d s'.

(** ** Accounting invariant *)

(** The task occupies a slot of the semaphore. *)
Definition holds_slot (t : task) : bool :=
  match t_status t with
  | Dialing | Handshaking _ | Aborting _ | Aborted | Open _ | Closing _ | Releasing => true
  | _ => false
  end.

(** The address under which the task is registered. *)
Definition registered_as (t : task) : option AddrPort :=
  match t_status t with Handshaking a | Aborting a | Open a | Closing a => Some a | _ => None end.

(** [DialUpstream] has returned an error. *)
Definition failed (t : task) : bool := match t_status t with Failed _ => true | _ => false end.

(** The call has returned an error, or its connection has been closed. *)
Definition settled (t : task) : bool := match t_status t with Failed _ | Closed => true | _ => false end.

Definition slots (ts : list task) : nat := countb holds_slot ts.

(** A destination the loop guard lets through. *)
Definition dialable (d : DirectDialer) (t : task) : Prop :=
  AddrPort_IsValid (t_addr t) = true /\ ap_Port (t_addr t) <> 0 /\ Is4 (ap_Addr (t_addr t)) = true /\
  t_serverName t <> [] /\ ~ (IsLoopback (ap_Addr (t_addr t)) = true /\ ap_Port (t_addr t) = listenerP d).

Record dialer_inv (d : DirectDialer) (s : dialer_state) : Prop := {
  di_slots : ds_sem s = slots (ds_tasks s);
  di_cap : (ds_sem s <= sem_cap d)%nat;
  di_registry : forall a, a ∈ ds_registry s -> exists i t, ds_tasks s !! i = Some t /\ registered_as t = Some a;
  di_valid : forall i t a, ds_tasks s !! i = Some t -> registered_as t = Some a -> AddrPort_IsValid a = true;
  di_metrics : forall i, count_decisions (metrics_of i (ds_metrics s)) =
    match ds_tasks s !! i with Some t => if failed t then 1%nat else 0%nat | None => 0%nat end;
  di_dialable : forall i t, ds_tasks s !! i = Some t -> failed t = false -> dialable d t
}.

(** A step of one task preserves the invariant when it accounts for what it does. *)
Lemma move_inv d s i t st sem reg ms (t' := Task (t_addr t) (t_serverName t) st) :
  dialer_inv d s -> ds_tasks s !! i = Some t -> failed t = false ->
  (sem + b2n (holds_slot t) = ds_sem s + b2n (holds_slot t'))%nat -> (sem <= sem_cap d)%nat ->
  (forall a, a ∈ reg -> a ∈ ds_registry s \/ registered_as t' = Some a) ->
  (forall a, a ∈ reg -> registered_as t = Some a -> registered_as t' = Some a) ->
  (forall a, registered_as t' = Some a -> AddrPort_IsValid a = true) ->
  count_decisions ms = b2n (failed t') ->
  dialer_inv d (move s i t st sem reg ms).
Proof.
  intros I Hi Hf Hs Hc Hr Hr' Hv Hm. destruct I as [I1 I2 I3 I4 I5 I6].
  assert (Hii : (<[i := t']> (ds_tasks s)) !! i = Some t') by (apply list_lookup_insert_eq; by eapply lookup_lt_Some).
  split; cbn [ds_sem ds_tasks ds_registry ds_metrics move]; fold t'.
  - pose proof (countb_insert holds_slot (ds_tasks s) i t t' Hi). unfold t', slots in *. lia.
  - done.
  - intros a Ha. destruct (Hr a Ha) as [Hold|Hnew]; [|by exists i, t'].
    destruct (I3 a Hold) as (j & u & Hj & Hu). destruct (decide (i = j)) as [<-|].
    + exists i, t'. split; [done|]. apply Hr'; [done|congruence].
    + exists j, u. by rewrite list_lookup_insert_ne.
  - intros j u a Hj. destruct (decide (i = j)) as [<-|]; [rewrite Hii in Hj; intros; simplify_eq; auto|].
    rewrite list_lookup_insert_ne in Hj by done. eauto.
  - intros j. autorewrite with metrics. rewrite I5. destruct (decide (i = j)) as [<-|Hne].
    + rewrite Hii, Hi, Hf, bool_decide_true by done. cbn [plus]. rewrite Hm. by destruct (failed t').
    + rewrite list_lookup_insert_ne, bool_decide_false by done. by rewrite Nat.add_0_r.
  - intros j u Hj Hu. destruct (decide (i = j)) as [<-|].
    + rewrite Hii in Hj. simplify_eq. apply (I6 i t); done.
    + rewrite list_lookup_insert_ne in Hj by done. eauto.
Qed.

Lemma remove_valid_spec a b reg : AddrPort_IsValid b = true -> a ∈ remove_valid b reg -> a ∈ reg /\ a <> b.
Proof. unfold remove_valid, registry_Remove. intros ->. set_solver. Qed.

Lemma dial_check_count d reg addr sn :
  count_decisions (match dial_check d reg addr sn with Some (_, ms) => ms | None => [] end) =
  match dial_check d reg addr sn with Some _ => 1%nat | None => 0%nat end.
Proof.
  unfold dial_check. destruct (_ || _); [done|]. destruct (negb (Is4 _)); [done|]. destruct (str_eqb _ _); [done|].
  by destruct (isSelfDial _ _ _).
Qed.

Lemma dial_check_pass d reg addr sn : dial_check d reg addr sn = None -> dialable d (Task addr sn Checked).
Proof.
  unfold dial_check, dialable. cbn [t_addr t_serverName]. destruct (AddrPort_IsValid addr); [|done]. cbn [negb orb].
  destruct (Z.eqb_spec (ap_Port addr) 0); [done|]. destruct (Is4 (ap_Addr addr)); [|done]. cbn [negb].
  destruct (str_eqb sn []) eqn:Es; [done|]. destruct (isSelfDial d reg addr) eqn:El; [done|]. intros _. split_and!; try done.
  - intros ->. done.
  - intros [H1 H2]. unfold isSelfDial in El. by rewrite H1, H2, Z.eqb_refl in El.
Qed.

Lemma dial_connected_ok tcp reg local reg' : dial_connected tcp reg = Ok (local, reg') ->
  AddrPort_IsValid local = true /\ reg' = {[local]} ∪ reg.
Proof.
  unfold dial_connected, registry_Add. destruct tcp as [[|ip port]|]; try done. destruct (AddrFromSlice ip); [|done].
  destruct (AddrPort_IsValid _) eqn:Ev; [|done]. intros [= <- <-]. done.
Qed.

Lemma dial_connected_err tcp reg e ms : dial_connected tcp reg = Err (e, ms) -> count_decisions ms = 1%nat.
Proof. unfold dial_connected. intros. by repeat case_match; simplify_eq. Qed.

(** The side conditions of [move_inv] that the task's status decides. *)
Ltac moved Ht :=
  apply move_inv; unfold failed, holds_slot, registered_as; cbn [t_status]; rewrite ?Ht; cbn [b2n]; auto; try done; try lia.

Ltac slot_facts s I Hi :=
  pose proof (countb_pos holds_slot _ _ _ Hi) as Hpos; fold (slots (ds_tasks s)) in Hpos; rewrite <- (di_slots _ _ I) in Hpos; pose proof (di_cap _ _ I) as Hcap.

Lemma dialer_inv_step d s s' : dialer_inv d s -> dial_step d s s' -> dialer_inv d s'.
Proof.
  intros I Hstep.
  destruct Hstep as [addr sn|i t Hi Ht|i t tcp Hi Ht|i t local ok Hi Ht|i t local Hi Ht|i t Hi Ht|i t local Hi Ht|i t local Hi Ht|i t Hi Ht];
    [|slot_facts s I Hi; unfold holds_slot in Hpos; rewrite Ht in Hpos..].
  - destruct I as [I1 I2 I3 I4 I5 I6]. pose proof (dial_check_count d (ds_registry s) addr sn) as Hcnt.
    pose proof (dial_check_pass d (ds_registry s) addr sn) as Hpass.
    set (st := match dial_check d (ds_registry s) addr sn with Some (e, _) => Failed e | None => Checked end) in *.
    assert (registered_as (Task addr sn st) = None /\ holds_slot (Task addr sn st) = false) as [Hreg Hslot]
      by (unfold st, registered_as, holds_slot; cbn; by destruct (dial_check _ _ _ _) as [[]|]).
    split; cbn [ds_sem ds_tasks ds_registry ds_metrics].
    + unfold slots. rewrite countb_snoc, Hslot, Nat.add_0_r. exact I1.
    + done.
    + intros a (j & u & Hj & Hu)%I3. exists j, u. split; [by apply lookup_app_l_Some|done].
    + intros j u a [Hj|[_ ->]]%lookup_snoc_inv; [eauto|congruence].
    + intros j. autorewrite with metrics. rewrite I5. case_bool_decide as E.
      * subst j. rewrite lookup_ge_None_2, list_lookup_middle by done. rewrite Hcnt. unfold st, failed. cbn. by destruct (dial_check _ _ _ _) as [[]|].
      * destruct (decide (j < length (ds_tasks s))%nat); [by rewrite lookup_app_l, Nat.add_0_r by done|].
        rewrite !lookup_ge_None_2 by (rewrite ?length_app; simpl; lia). done.
    + intros j u [Hj|[_ ->]]%lookup_snoc_inv; [eauto|].
      unfold failed, st. cbn. destruct (dial_check _ _ _ _) as [[]|]; [done|]. intros _. by apply Hpass.
  - destruct (Nat.leb_spec (sem_cap d) (ds_sem s)); moved Ht.
  - destruct (dial_connected tcp (ds_registry s)) as [[local reg]|[e ms]] eqn:E.
    + apply dial_connected_ok in E as [Hv ->]. moved Ht.
      * intros a. rewrite elem_of_union, elem_of_singleton. intros [->|]; auto.
      * by intros a [= <-].
    + apply dial_connected_err in E. moved Ht.
  - assert (AddrPort_IsValid local = true) by (eapply (di_valid _ _ I); [exact Hi|unfold registered_as; by rewrite Ht]).
    destruct ok; moved Ht; by intros a [= <-].
  - assert (AddrPort_IsValid local = true) as Hv by (eapply (di_valid _ _ I); [exact Hi|unfold registered_as; by rewrite Ht]).
    moved Ht; intros a [Ha Hne]%(remove_valid_spec _ _ _ Hv); [by left|congruence].
  - moved Ht.
  - assert (AddrPort_IsValid local = true) by (eapply (di_valid _ _ I); [exact Hi|unfold registered_as; by rewrite Ht]).
    moved Ht; by intros a [= <-].
  - assert (AddrPort_IsValid local = true) as Hv by (eapply (di_valid _ _ I); [exact Hi|unfold registered_as; by rewrite Ht]).
    moved Ht; intros a [Ha Hne]%(remove_valid_spec _ _ _ Hv); [by left|congruence].
  - moved Ht.
Qed.

Lemma dial_reachable_inv d s : dial_reachable d s -> dialer_inv d s.
Proof.
  induction 1; [|by eapply dialer_inv_step]. split; cbn; try done; lia || set_solver.
Qed.

(** ** An uninterrupted call is a run of the steps *)

(** One more step of the newest task. *)
Lemma step_last d s s1 i ts t st sem reg ms ms0 :
  rtc (dial_step d) s s1 -> i = length ts -> ds_tasks s1 = ts ++ [t] -> ds_metrics s1 = ds_metrics s ++ by_task i ms0 ->
  dial_step d s1 (move s1 i t st sem reg ms) ->
  exists s2, rtc (dial_step d) s s2 /\ ds_sem s2 = sem /\ ds_registry s2 = reg /\
    ds_tasks s2 = ts ++ [Task (t_addr t) (t_serverName t) st] /\ ds_metrics s2 = ds_metrics s ++ by_task i (ms0 ++ ms).
Proof.
  intros Hr -> Ht Hm Hs. eexists. split; [eapply rtc_r; eassumption|]. cbn [move ds_sem ds_registry ds_tasks ds_metrics].
  split_and!; [done|done|by rewrite Ht, insert_last|]. by rewrite Hm, <- app_assoc; unfold by_task; rewrite map_app.
Qed.

Definition outcome (r : result dial_error AddrPort) : dial_status := match r with Ok a => Open a | Err e => Failed e end.

Lemma DialUpstream_steps d addr sn tcp hs s r ms sem reg :
  DialUpstream d addr sn tcp hs (ds_sem s) (ds_registry s) = (r, ms, (sem, reg)) ->
  exists s', rtc (dial_step d) s s' /\ ds_sem s' = sem /\ ds_registry s' = reg /\
    ds_tasks s' = ds_tasks s ++ [Task addr sn (outcome r)] /\
    ds_metrics s' = ds_metrics s ++ by_task (length (ds_tasks s)) ms.
Proof.
  pose proof (step_call d s addr sn) as Hcall. unfold DialUpstream. destruct (dial_check _ _ _ _) as [[e ms']|].
  { intros. simplify_eq. eexists. split; [by apply rtc_once|]. done. }
  set (i := length (ds_tasks s)) in *.
  match type of Hcall with dial_step _ _ ?x => set (s1 := x) in * end.
  pose proof (step_acquire d s1 i _ (lookup_last _ _) eq_refl) as Hacq. cbn [ds_sem s1] in Hacq.
  destruct (sem_cap d <=? ds_sem s)%nat.
  { intros. simplify_eq. eapply (step_last d s s1) in Hacq; cycle 1; [by apply rtc_once|done..|exact Hacq]. }
  eapply (step_last d s s1) in Hacq as (s2 & R2 & Es2 & Er2 & Et2 & Em2); [|by apply rtc_once|done..].
  cbn [ds_registry s1] in Er2. assert (L2 : ds_tasks s2 !! i = Some (Task addr sn Dialing)) by (rewrite Et2; apply lookup_last).
  pose proof (step_connect d s2 i _ tcp L2 eq_refl) as Hcon. rewrite Er2, Es2 in Hcon.
  destruct (dial_connected tcp (ds_registry s)) as [[local reg']|[e ms']].
  2: { intros. simplify_eq. eapply (step_last d s s2) in Hcon; cycle 1; [done..|exact Hcon]. }
  eapply (step_last d s s2) in Hcon as (s3 & R3 & Es3 & Er3 & Et3 & Em3); [|done..].
  assert (L3 : ds_tasks s3 !! i = Some (Task addr sn (Handshaking local))) by (rewrite Et3; apply lookup_last).
  pose proof (step_handshake d s3 i _ local hs L3 eq_refl) as Hhs. rewrite Er3, Es3 in Hhs.
  destruct hs; cbn [negb].
  { intros. simplify_eq. eapply (step_last d s s3) in Hhs; cycle 1; [done..|exact Hhs]. }
  eapply (step_last d s s3) in Hhs as (s4 & R4 & Es4 & Er4 & Et4 & Em4); [|done..].
  assert (L4 : ds_tasks s4 !! i = Some (Task addr sn (Aborting local))) by (rewrite Et4; apply lookup_last).
  pose proof (step_abort_remove d s4 i _ local L4 eq_refl) as Hrm. rewrite Er4, Es4 in Hrm.
  eapply (step_last d s s4) in Hrm as (s5 & R5 & Es5 & Er5 & Et5 & Em5); [|done..].
  assert (L5 : ds_tasks s5 !! i = Some (Task addr sn Aborted)) by (rewrite Et5; apply lookup_last).
  pose proof (step_abort_release d s5 i _ L5 eq_refl) as Hrel. rewrite Er5, Es5 in Hrel.
  intros. simplify_eq. eapply (step_last d s s5) in Hrel; cycle 1; [done..|exact Hrel].
Qed.

(** C18: the dialer's books are right in every interleaving of concurrent dials and
    closes.  The semaphore counts exactly the calls and connections that occupy a slot
    and stays within the configured bound; every registered address belongs to a
    connection in progress; a dial that has returned an error has recorded exactly one
    decision sample and every other one none; a dial past its checks goes to a valid
    IPv4 address with a non-zero port and a server name, and not to the proxy's own
    listener port on a loopback address; and once every dial has failed or been closed,
    no slot and no registration is left. *)
Theorem dialer_accounting d s :
  dial_reachable d s ->
  ds_sem s = slots (ds_tasks s) /\ (ds_sem s <= sem_cap d)%nat /\
  (forall a, a ∈ ds_registry s -> exists i t, ds_tasks s !! i = Some t /\ registered_as t = Some a) /\
  (forall i t, ds_tasks s !! i = Some t ->
    count_decisions (metrics_of i (ds_metrics s)) = (if failed t then 1%nat else 0%nat) /\ (failed t = false -> dialable d t)) /\
  (Forall (fun t => settled t = true) (ds_tasks s) -> ds_sem s = 0%nat /\ ds_registry s = ∅).
Proof.
  intros [I1 I2 I3 I4 I5 I6]%dial_reachable_inv. split_and!; [done|done|done| |].
  - intros i t Hi. specialize (I5 i). rewrite Hi in I5. eauto.
  - intros Hs. split.
    + rewrite I1. apply countb_none. eapply Forall_impl; [exact Hs|].
      intros t. unfold settled, holds_slot. by destruct (t_status t).
    + apply set_eq. intros a. split; [|set_solver]. intros (i & t & Hi & Ha)%I3.
      eapply Forall_lookup_1 in Hs; [|exact Hi]. unfold settled, registered_as in *. by destruct (t_status t).
Qed.

Lemma dial_reachable_rtc d s s' : dial_reachable d s -> rtc (dial_step d) s s' -> dial_reachable d s'.
Proof. intros Hs Hr. induction Hr; [done|]. eauto using dial_reachable. Qed.

Definition example_dialer : DirectDialer :=
  {| nextProtos := [bs "http/1.1"]; connectTO := 5 * Second; handshakeTO := 5 * Second; listenerP := 15001; sem_cap := 1 |}.
Definition example_dest : AddrPort := AddrPortFrom (Addr4 0x5db8d822) 443.
Definition example_local : local_addr := LocalTCP ["010"; "000"; "000"; "007"]%char 40000.

Example DialUpstream_examples :
  (DialUpstream example_dialer example_dest "api.example.com" (Some example_local) true 0 ∅).1.1
    = Ok (AddrPortFrom (Addr4 0x0a000007) 40000) /\
  (DialUpstream example_dialer example_dest "api.example.com" (Some example_local) true 1 ∅).1.1 = Err ErrUpstreamConcurrency /\
  (DialUpstream example_dialer (AddrPortFrom (Addr4 0x7f000001) 15001) "a.b" (Some example_local) true 0 ∅).1.1 = Err ErrLoopGuard /\
  (DialUpstream example_dialer (AddrPortFrom (Addr6 1) 443) "a.b" (Some example_local) true 0 ∅).1.1 = Err ErrUnsupportedAddrFamily.
Proof. split_and!; vm_compute; reflexivity. Qed.

Lemma dialer_accounting_witness :
  exists s, ds_sem s = 1%nat /\ ds_sem s = slots (ds_tasks s) /\ length (ds_tasks s) = 1%nat.
Proof.
  destruct (DialUpstream example_dialer example_dest (bs "api.example.com") (Some example_local) true
    (ds_sem dialer_init) (ds_registry dialer_init)) as [[r ms] [sem reg]] eqn:E.
  destruct (DialUpstream_steps _ _ _ _ _ _ _ _ _ _ E) as (s & R & Es & _ & Et & _).
  exists s. destruct (dialer_accounting example_dialer s) as (A & _).
  { eapply dial_reachable_rtc; [constructor|exact R]. }
  split_and!; [|exact A|by rewrite Et].
  rewrite Es. assert (E2 := f_equal (fun x => x.2.1) E). vm_compute in E2. by symmetry.
Defined.
