(* ===== verification/AuditRecord.v ===== *)
(** * [internal/audit]: audit records and the rejection recorder

    [encoder.go] up to [json.Marshal], [rejection.go] and [emergency_channel.go].  The
    nested record is modelled as the structure that is marshalled; a field with
    [omitempty] is omitted when it has its zero value, and a nil pointer is [None].
    [time.Format] with the layout [rfc3339Millis] is a parameter. *)

From S2P Require Import Prelude GoStrings GoRuntime Canonicalize Compile Match Credential Decision Stages Runner Metrics.
#[local] Open Scope Z_scope.

Definition auditRecordSchema : gostring := "aksh.dev/audit/v1".
Definition identityNone : gostring := "none".

Record podBlock := { pb_Namespace : gostring; pb_Name : gostring; pb_UID : gostring }.
Record agentBlock := { ab_ServiceAccount : gostring }.
Record decisionBlock := { db_Disposition : gostring; db_Reason : gostring; db_Fault : bool; db_FaultClass : option gostring }.
Record requestBlock := {
  rb_Identity : gostring; rb_Method : gostring; rb_Path : gostring; rb_Port : Z; rb_Transport : gostring;
  rb_ServiceUID : gostring; rb_ServiceGeneration : option Z
}.
Record policyBlock := { plb_Ref : gostring; plb_Version : gostring; plb_EvaluatorVersion : gostring; plb_Ambiguous : bool }.
Record credentialBlock := {
  cb_Identity : gostring; cb_Provider : gostring; cb_Resource : gostring; cb_Scopes : list gostring;
  cb_CacheHit : option bool; cb_ExpiresAt : gostring
}.
Record timingsBlock := { tb_TotalUS : Z; tb_MatchUS : Z; tb_AcquireUS : Z; tb_AuditUS : Z }.
Record auditRecord := {
  r_Schema : gostring; r_TS : gostring; r_RequestID : gostring; r_Pod : podBlock; r_Agent : agentBlock;
  r_Decision : decisionBlock; r_Request : requestBlock; r_Policy : policyBlock; r_Credential : credentialBlock;
  r_Timings : timingsBlock
}.
Record completionBlock := { cpb_Status : Z; cpb_Bytes : Z; cpb_DurationUS : Z }.
Record completionRecord := {
  cr_Schema : gostring; cr_TS : gostring; cr_RequestID : gostring; cr_Kind : gostring; cr_Completion : completionBlock
}.

(** [fmt.Sprintf("disposition(%d)", n)]. *)
Definition disposition_number (n : Z) : gostring := bs "disposition(" ++ bs (pretty n) ++ bs ")".

Definition Disposition_String (d : Disposition) : gostring :=
  match d with
  | DispositionInvalid => "invalid"
  | DispositionAllow => "allow"
  | DispositionDeny => "deny"
  | DispositionPending => "pending"
  | DispositionOther n => disposition_number n
  end.

(** The text of a [policy.Transport]. *)
Definition Transport_string (t : Transport) : gostring :=
  match t with TransportTLS => "tls" | TransportPlaintext => "plaintext" | TransportUnset => "" end.

(** [Duration.Microseconds]: division that rounds toward zero. *)
Definition Microseconds (d : Duration) : Z := Z.quot d 1000.

Section Encoder.
Context (format : Time -> gostring).

Definition buildDecision (ev : AuditEvent) : decisionBlock :=
  {| db_Disposition := Disposition_String (ev_Disposition ev); db_Reason := DenyReason_String (ev_DenyReason ev);
     db_Fault := ev_Fault ev; db_FaultClass := if ev_Fault ev then Some (FaultClass_String (ev_FaultClass ev)) else None |}.

Definition buildRequest (ev : AuditEvent) : requestBlock :=
  if str_eqb (ev_Identity ev) [] then
    {| rb_Identity := identityNone; rb_Method := []; rb_Path := []; rb_Port := 0; rb_Transport := [];
       rb_ServiceUID := []; rb_ServiceGeneration := None |}
  else
    let plaintext := bool_decide (ev_Transport ev = TransportPlaintext) in
    {| rb_Identity := ev_Identity ev; rb_Method := ev_Method ev; rb_Path := ev_Path ev; rb_Port := ev_Port ev;
       rb_Transport := Transport_string (ev_Transport ev);
       rb_ServiceUID := if plaintext then ev_ServiceUID ev else [];
       rb_ServiceGeneration := if plaintext then Some (ev_ServiceGeneration ev) else None |}.

Definition buildPolicy (ev : AuditEvent) : policyBlock :=
  {| plb_Ref := ev_RuleName ev; plb_Version := ev_PolicyVersion ev; plb_EvaluatorVersion := ev_EvaluatorVersion ev;
     plb_Ambiguous := ev_Ambiguous ev |}.

Definition buildCredential (ev : AuditEvent) : credentialBlock :=
  if str_eqb (ev_CredentialID ev) [] then
    {| cb_Identity := identityNone; cb_Provider := []; cb_Resource := []; cb_Scopes := []; cb_CacheHit := None; cb_ExpiresAt := [] |}
  else
    {| cb_Identity := ev_CredentialID ev; cb_Provider := ev_CredentialProvider ev; cb_Resource := ev_CredentialResource ev;
       cb_Scopes := ev_CredentialScopes ev; cb_CacheHit := Some (ev_CacheHit ev);
       cb_ExpiresAt := if negb (IsZero (ev_CredentialExpiresAt ev)) then format (ev_CredentialExpiresAt ev) else [] |}.

Definition record_timings (ev : AuditEvent) : timingsBlock :=
  {| tb_TotalUS := Microseconds (at_Total (ev_Timings ev)); tb_MatchUS := Microseconds (at_Match (ev_Timings ev));
     tb_AcquireUS := Microseconds (at_Acquire (ev_Timings ev)); tb_AuditUS := Microseconds (at_Audit (ev_Timings ev)) |}.

Definition buildAuditRecord (ev : AuditEvent) : auditRecord := {|
  r_Schema := auditRecordSchema;
  r_TS := format (ev_Timestamp ev);
  r_RequestID := ev_RequestID ev;
  r_Pod := {| pb_Namespace := ev_PodNamespace ev; pb_Name := ev_PodName ev; pb_UID := ev_PodUID ev |};
  r_Agent := {| ab_ServiceAccount := ev_AgentServiceAccount ev |};
  r_Decision := buildDecision ev;
  r_Request := buildRequest ev;
  r_Policy := buildPolicy ev;
  r_Credential := buildCredential ev;
  r_Timings := record_timings ev
|}.

(** The record that [EncodeCompletion] marshals. *)
Definition completion_record (ev : AuditEvent) : completionRecord := {|
  cr_Schema := auditRecordSchema; cr_TS := format (ev_Timestamp ev); cr_RequestID := ev_RequestID ev; cr_Kind := "completion";
  cr_Completion := {| cpb_Status := ev_CompletionStatus ev; cpb_Bytes := ev_CompletionBytes ev;
                      cpb_DurationUS := Microseconds (ev_CompletionDuration ev) |}
|}.
End Encoder.

(** ** Rejections *)

Record AuditRejection := {
  rj_Class : gostring; rj_Reason : DenyReason; rj_Bound : gostring; rj_Fault : bool; rj_RequestID : gostring;
  rj_ConnID : gostring; rj_Port : Z; rj_Method : gostring; rj_Path : gostring
}.

Definition rejectionAuditEvent (now : Time) (rej : AuditRejection) : AuditEvent := {|
  ev_Timestamp := now; ev_RequestID := rj_RequestID rej; ev_Identity := []; ev_Method := rj_Method rej; ev_Path := rj_Path rej;
  ev_Port := rj_Port rej; ev_Disposition := DispositionDeny; ev_DenyReason := rj_Reason rej; ev_Fault := rj_Fault rej;
  ev_FaultClass := if rj_Fault rej then FaultClassLocal else FaultClassNone;
  ev_PolicyVersion := []; ev_RuleName := []; ev_CredentialID := "none"; ev_CacheHit := false; ev_Ambiguous := false;
  ev_PodNamespace := []; ev_PodName := []; ev_PodUID := []; ev_AgentServiceAccount := []; ev_Transport := TransportUnset;
  ev_ServiceUID := []; ev_ServiceGeneration := 0; ev_EvaluatorVersion := []; ev_CredentialProvider := [];
  ev_CredentialResource := []; ev_CredentialScopes := []; ev_CredentialExpiresAt := zero_time;
  ev_Timings := {| at_Total := 0; at_Match := 0; at_Acquire := 0; at_Audit := 0 |};
  ev_CompletionStatus := 0; ev_CompletionBytes := 0; ev_CompletionDuration := 0
|}.

Definition rejectionMetricReason (rej : AuditRejection) : gostring :=
  if str_eqb (rj_Class rej) [] then DenyReason_String (rj_Reason rej)
  else if negb (str_eqb (rj_Bound rej) []) then rj_Class rej ++ bs ":" ++ rj_Bound rej
  else rj_Class rej.

(** ** [EmergencyChannel]

    The state under its lock, with the last values given to the gauge and to the
    readiness sink and the lines written to the application stream. *)
Record EmergencyChannel := {
  ec_ready : bool; ec_transitions : Z; ec_gauge : bool; ec_readiness : bool; ec_stderr : list gostring
}.
Definition NewEmergencyChannel : EmergencyChannel :=
  {| ec_ready := true; ec_transitions := 0; ec_gauge := false; ec_readiness := true; ec_stderr := [] |}.

Definition setState (ready : bool) (e : EmergencyChannel) : EmergencyChannel :=
  {| ec_ready := ready;
     ec_transitions := if negb (Bool.eqb (ec_ready e) ready) then (ec_transitions e + 1) mod 2 ^ 64 else ec_transitions e;
     ec_gauge := negb ready; ec_readiness := ready; ec_stderr := ec_stderr e |}.

Definition emergency_line (cause : gostring) : gostring :=
  bs "aksh: audit unavailable (fail-closed): " ++ cause ++ [chr_lf].

Definition Signal (cause : gostring) (e : EmergencyChannel) : EmergencyChannel :=
  setState false {| ec_ready := ec_ready e; ec_transitions := ec_transitions e; ec_gauge := ec_gauge e;
                    ec_readiness := ec_readiness e; ec_stderr := ec_stderr e ++ [emergency_line cause] |}.
Definition Recover (e : EmergencyChannel) : EmergencyChannel := setState true e.

Inductive emergency_op := OpSignal (cause : gostring) | OpRecover.
Definition emergency_run (ops : list emergency_op) (e : EmergencyChannel) : EmergencyChannel :=
  fold_left (fun e op => match op with OpSignal c => Signal c e | OpRecover => Recover e end) ops e.

Lemma emergency_consistent ops : let e := emergency_run ops NewEmergencyChannel in
  ec_gauge e = negb (ec_ready e) /\ ec_readiness e = ec_ready e.
Proof.
  assert (forall e, ec_gauge e = negb (ec_ready e) /\ ec_readiness e = ec_ready e ->
    ec_gauge (emergency_run ops e) = negb (ec_ready (emergency_run ops e)) /\
    ec_readiness (emergency_run ops e) = ec_ready (emergency_run ops e)) as H; [|by apply H].
  induction ops as [|[c|] ops IH]; intros e He; simpl; auto.
Qed.

(** ** [RejectionRecorder]

    [rr_slots] is the number of occupied slots, one per goroutine that still writes
    its record to the sink; [rr_pending] are the events of those goroutines. *)
Record RejectionRecorder := {
  rr_timeout : Duration; rr_cap : nat; rr_slots : nat; rr_dropped : Z;
  rr_pending : list AuditRejection; rr_metrics : list metric; rr_emergency : list gostring
}.

Definition defaultRejectionAuditTimeout : Duration := 250 * Millisecond.

Definition NewRejectionRecorder (maxConcurrent : Z) (timeout : Duration) : RejectionRecorder :=
  {| rr_timeout := if timeout <=? 0 then defaultRejectionAuditTimeout else timeout;
     rr_cap := Z.to_nat (if maxConcurrent <=? 0 then 1 else maxConcurrent);
     rr_slots := 0; rr_dropped := 0; rr_pending := []; rr_metrics := []; rr_emergency := [] |}.

(** [Record], up to the start of the goroutine. *)
Definition rr_Record (rej : AuditRejection) (r : RejectionRecorder) : RejectionRecorder :=
  if (rr_cap r <=? rr_slots r)%nat then
    {| rr_timeout := rr_timeout r; rr_cap := rr_cap r; rr_slots := rr_slots r; rr_dropped := (rr_dropped r + 1) mod 2 ^ 64;
       rr_pending := rr_pending r; rr_metrics := rr_metrics r;
       rr_emergency := rr_emergency r ++ [bs "rejection audit dropped: " ++ rejectionMetricReason rej] |}
  else
    {| rr_timeout := rr_timeout r; rr_cap := rr_cap r; rr_slots := S (rr_slots r); rr_dropped := rr_dropped r;
       rr_pending := rr_pending r ++ [rej];
       rr_metrics := rr_metrics r ++
         [MTransportReject (MetricRejectClassFromString (rj_Class rej)) (BoundNameFromString (rj_Bound rej))];
       rr_emergency := rr_emergency r |}.

(** The end of goroutine [i], with the sink's error; [release] panics, here [None],
    when no slot is occupied. *)
Definition rr_finish (i : nat) (err : option gostring) (r : RejectionRecorder) : option RejectionRecorder :=
  match rr_slots r with
  | O => None
  | S n => Some {| rr_timeout := rr_timeout r; rr_cap := rr_cap r; rr_slots := n; rr_dropped := rr_dropped r;
                   rr_pending := delete i (rr_pending r); rr_metrics := rr_metrics r;
                   rr_emergency := match err with
                     | Some e => rr_emergency r ++ [bs "rejection audit failed: " ++ e] | None => rr_emergency r end |}
  end.

Inductive rr_step : RejectionRecorder -> RejectionRecorder -> Prop :=
| rr_step_record rej r : rr_step r (rr_Record rej r)
| rr_step_finish i err r r' : (i < length (rr_pending r))%nat -> rr_finish i err r = Some r' -> rr_step r r'.

(** The number of records in flight is the number of occupied slots and stays within
    the bound; a goroutine that ends finds its slot occupied, so [release] does not
    panic. *)
Lemma rejection_recorder_bounded maxConcurrent timeout r :
  rtc rr_step (NewRejectionRecorder maxConcurrent timeout) r ->
  length (rr_pending r) = rr_slots r /\ (rr_slots r <= rr_cap r)%nat /\ (0 < rr_cap r)%nat /\
  forall i err, (i < length (rr_pending r))%nat -> is_Some (rr_finish i err r).
Proof.
  intros H. assert (length (rr_pending r) = rr_slots r /\ (rr_slots r <= rr_cap r)%nat /\ (0 < rr_cap r)%nat) as (H1 & H2 & H3).
  { apply (rtc_ind_r (R := rr_step) (fun r => length (rr_pending r) = rr_slots r /\ (rr_slots r <= rr_cap r)%nat /\ (0 < rr_cap r)%nat)
      (NewRejectionRecorder maxConcurrent timeout)); [| |exact H].
    - cbn. destruct (Z.leb_spec maxConcurrent 0); lia.
    - intros x y _ Hstep (H1 & H2 & H3). destruct Hstep as [rej x|i err x x' Hi Hf].
      + unfold rr_Record. destruct (Nat.leb_spec (rr_cap x) (rr_slots x)); cbn; [done|]. rewrite length_app. simpl. lia.
      + unfold rr_finish in Hf. destruct (rr_slots x); [done|]. simplify_eq/=.
        rewrite length_delete by (by apply lookup_lt_is_Some). lia. }
  split_and!; [done..|]. intros i err Hi. unfold rr_finish. destruct (rr_slots r); [lia|by eexists].
Qed.

(** ** What reaches the record *)

Section Noninterference.
Context `{U : Unicode} `{S : Sha256} `{N : NetURL} {E : Type} (format : Time -> gostring).

(** The parts of a request context that an audit record may show: the canonical
    facts, the match result, the identity of the credential and whether it was
    cached, and the measurements. *)
Definition same_audited (rc rc' : RequestContext) : Prop :=
  c_Facts rc = c_Facts rc' /\ c_MatchResult rc = c_MatchResult rc' /\ c_RequestID rc = c_RequestID rc' /\
  c_StartTime rc = c_StartTime rc' /\ c_Timings rc = c_Timings rc' /\
  tr_Resolved (c_TokenResult rc) = tr_Resolved (c_TokenResult rc') /\
  tr_CacheHit (c_TokenResult rc) = tr_CacheHit (c_TokenResult rc').

(** C37: audit records carry neither credentials nor unvalidated input.  The record of a
    pipeline decision is the same for any two requests that agree on their canonical
    facts, match result, credential identity and measurements, whatever their tokens,
    headers, original URLs and error texts; the record of a request refused before the
    pipeline depends only on the reason, the fault flag and the request identifier,
    whatever method, path, port, class or connection it came with; and a record whose
    identity was not validated shows no request data at all.  The design of the request
    path wants the port, method and path of a refused request on record; the encoder
    drops them ([rejection_port_not_recorded]). *)
Theorem audit_record_noninterference (p : Pipeline E) now now' :
  (forall rc rc' d d', same_audited rc rc' -> disposition d = disposition d' -> Reason d = Reason d' ->
     Fault d = Fault d' -> faultClass d = faultClass d' ->
     buildAuditRecord format (buildAuditEvent p now now' rc d) = buildAuditRecord format (buildAuditEvent p now now' rc' d')) /\
  (forall rej rej', rj_Reason rej = rj_Reason rej' -> rj_Fault rej = rj_Fault rej' -> rj_RequestID rej = rj_RequestID rej' ->
     buildAuditRecord format (rejectionAuditEvent now rej) = buildAuditRecord format (rejectionAuditEvent now rej')) /\
  (forall ev, ev_Identity ev = [] ->
     r_Request (buildAuditRecord format ev) =
       {| rb_Identity := identityNone; rb_Method := []; rb_Path := []; rb_Port := 0; rb_Transport := [];
          rb_ServiceUID := []; rb_ServiceGeneration := None |}).
Proof.
  split_and!.
  - intros rc rc' d d' (H1 & H2 & H3 & H4 & H5 & H6 & H7) E1 E2 E3 E4. f_equal. unfold buildAuditEvent.
    assert (audit_credential rc = audit_credential rc') as -> by (unfold audit_credential; by rewrite H6, H2).
    assert (buildTimings now' rc = buildTimings now' rc') as -> by (unfold buildTimings, timing; by rewrite H4, H5).
    by rewrite H1, H2, H3, H7, E1, E2, E3, E4.
  - intros rej rej' H1 H2 H3. unfold buildAuditRecord, rejectionAuditEvent, buildDecision, buildRequest, buildCredential, buildPolicy,
      record_timings. cbn. by rewrite H1, H2, H3.
  - intros ev H. unfold buildAuditRecord, buildRequest. cbn. by rewrite H.
Qed.

Lemma Resolve_identity (Hsha : forall s, sha256_hex s <> []) cs r : Resolve cs = Ok r -> Identity r <> [].
Proof.
  unfold Resolve. destruct (IsEmpty cs); [by intros [= <-]|]. destruct (first_invalid _); [done|]. intros [= <-]. apply Hsha.
Qed.

(** No record omits the rest of its credential block.  Both producers of events put
    the word [none] for a missing credential, so the encoder's early return for an
    empty identity is never taken and the record claims a cache state, [cacheHit],
    for a credential that does not exist.  (A SHA-256 digest in hexadecimal is never
    empty.) *)
Theorem credential_block_never_omitted (p : Pipeline E) now now' rc d rej
    (Hsha : forall s, sha256_hex s <> []) :
  cb_CacheHit (r_Credential (buildAuditRecord format (buildAuditEvent p now now' rc d))) = Some (tr_CacheHit (c_TokenResult rc)) /\
  cb_CacheHit (r_Credential (buildAuditRecord format (rejectionAuditEvent now rej))) = Some false.
Proof.
  split; [|done]. unfold buildAuditRecord, buildCredential. cbn.
  destruct (str_eqb (audit_credential rc) []) eqn:E0; [|done]. apply str_eqb_eq in E0. exfalso. revert E0. unfold audit_credential.
  destruct (str_eqb (Identity (tr_Resolved (c_TokenResult rc))) []) eqn:E1; cbn [negb].
  - destruct (mr_Credential _); [|done]. destruct (Resolve _) eqn:E2; [|done]. by eapply (Resolve_identity Hsha).
  - intros E0. rewrite E0 in E1. done.
Qed.
End Noninterference.

Definition example_rejection : AuditRejection :=
  {| rj_Class := "unsupported_protocol"; rj_Reason := ReasonUnsupportedProtocol; rj_Bound := []; rj_Fault := false;
     rj_RequestID := "c1-1"; rj_ConnID := "c1"; rj_Port := 443; rj_Method := "GET"; rj_Path := "/secret" |}.
Definition sha_tagged : Sha256 := fun s => bs "h" ++ s.

Lemma audit_record_noninterference_witness :
  buildAuditRecord (fun _ => []) (rejectionAuditEvent 0 example_rejection) =
  buildAuditRecord (fun _ => []) (rejectionAuditEvent 0
    {| rj_Class := "resource_limit"; rj_Reason := ReasonUnsupportedProtocol; rj_Bound := "pipelining"; rj_Fault := false;
       rj_RequestID := "c1-1"; rj_ConnID := "c2"; rj_Port := 80; rj_Method := "POST"; rj_Path := "/other" |}).
Proof.
  apply (audit_record_noninterference (U := ascii_only) (S := sha_tagged) (N := opaque_urls) (fun _ => [])
    (NewPipeline (E := unit) [] None []) 0 0); reflexivity.
Defined.

Lemma credential_block_never_omitted_witness :
  cb_CacheHit (r_Credential (buildAuditRecord (fun _ => []) (rejectionAuditEvent 0 example_rejection))) = Some false.
Proof.
  apply (credential_block_never_omitted (U := ascii_only) (S := sha_tagged) (N := opaque_urls) (fun _ => [])
    (NewPipeline (E := unit) [] None []) 0 0
    {| c_Request := None; c_Identity := {| SNI := []; AuthorityHost := []; AuthorityPort := 0; DestinationPort := 0 |};
       c_Transport := TransportUnset; c_Facts := zero_facts; c_MatchResult := no_match; c_TokenResult := zero_result;
       c_Decision := zero_decision; c_StartTime := 0; c_RequestID := []; c_Timings := None |}
    Allow). intros s. discriminate.
Defined.

(** S1b (9.2 and 18.2) has the record of a refused request carry its port, and its
    method and path when they were parsed: the event does, the encoded record does not. *)
Lemma rejection_port_not_recorded :
  ev_Port (rejectionAuditEvent 0 example_rejection) = 443 /\
  rb_Port (r_Request (buildAuditRecord (fun _ => []) (rejectionAuditEvent 0 example_rejection))) = 0 /\
  rb_Method (r_Request (buildAuditRecord (fun _ => []) (rejectionAuditEvent 0 example_rejection))) = [] /\
  rb_Path (r_Request (buildAuditRecord (fun _ => []) (rejectionAuditEvent 0 example_rejection))) = [].
Proof. by vm_compute. Qed.
