(* ===== verification/Intake.v ===== *)
(** * [internal/dataplane/requestpath/handler.go]: from the connection to the parsed request

    What stands between the TLS connection and [http.ReadRequest]: the wait for a first byte, which is put back in
    front of the connection, the head guard with its capture, and the raw head that is validated.  The reads of the
    buffered reader over the guard are given by their sizes.  The rest of the file is what is written to the client and to the
    audit recorder when a request is refused. *)

From S2P Require Import Prelude GoStrings GoRuntime Decision Limits RawHead Validate Handler Wire Metrics AuditRecord.
#[local] Open Scope Z_scope.

(** ** Errors of a connection *)

Definition io_EOF : error := Errorf "EOF".
Definition io_ErrClosedPipe : error := Errorf "io: read/write on closed pipe".
Definition net_ErrClosed : error := Errorf "use of closed network connection".
Definition ErrBufferFull : error := Errorf "bufio: buffer full".

(** [errors.Is] for an error that is compared by identity. *)
Fixpoint errors_Is (e target : error) : bool :=
  match e with
  | Wrapf _ e' => errors_Is e' target
  | Errorf m => match target with Errorf m' => str_eqb m m' | _ => false end
  | Canceled => match target with Canceled => true | _ => false end
  | DeadlineExceeded => match target with DeadlineExceeded => true | _ => false end
  | AcquireError _ _ cause => match cause with Some e' => errors_Is e' target | None => false end
  end.

(** [isTimeout]: a deadline in the chain of the error. *)
Definition isTimeout (err : option error) : bool := match err with Some e => errors_Is e DeadlineExceeded | None => false end.

(** ** [prependConn] *)

Section Conn.
Context {R : Type} (read : reader R).

Record prependConn := { pc_Conn : R; pc_prefix : gostring }.

Definition Prepend (c : prependConn) (p : gostring) : prependConn :=
  if (length p =? 0)%nat then c else {| pc_Conn := pc_Conn c; pc_prefix := p ++ pc_prefix c |}.

Definition pc_Read : reader prependConn := fun c n =>
  if (0 <? length (pc_prefix c))%nat then ({| pc_Conn := pc_Conn c; pc_prefix := drop n (pc_prefix c) |}, take n (pc_prefix c), None)
  else let '(r, b, err) := read (pc_Conn c) n in ({| pc_Conn := r; pc_prefix := pc_prefix c |}, b, err).

(** [waitForRequest]; [None] is no error.  The deadline could be set; the context, if there is one, ended during the read. *)
Definition waitForRequest (deadline : option error) (ctxDone : bool) (source : prependConn) : prependConn * option error :=
  match deadline with
  | Some e => (source, Some e)
  | None =>
      let '(r, b, err) := read (pc_Conn source) 1%nat in
      let source := {| pc_Conn := r; pc_prefix := pc_prefix source |} in
      if (0 <? length b)%nat then (Prepend source b, None)
      else if ctxDone && isTimeout err then (source, Some Canceled) else (source, err)
  end.

(** What [Serve] returns when the wait fails. *)
Definition wait_result (e : error) : option error :=
  if errors_Is e io_EOF || errors_Is e io_ErrClosedPipe || errors_Is e net_ErrClosed || isTimeout (Some e) || errors_Is e Canceled then None else Some e.

(** [hasImmediateNextByte]. *)
Definition hasImmediateNextByte (deadline : option error) (r : R) : R * bool :=
  match deadline with
  | Some _ => (r, false)
  | None => let '(r, b, err) := read r 1%nat in (r, if (0 <? length b)%nat then true else match err with None => true | Some _ => false end)
  end.
End Conn.
Arguments prependConn : clear implicits.

(** ** [readRequest] *)

(** The raw head: the capture up to its first empty line. *)
Definition raw_head (captured : gostring) : gostring :=
  match Index captured (crlf ++ crlf) with Some e => take (e + 4) captured | None => captured end.

(** The result, given what [http.ReadRequest] returns and the capture. *)
Definition readRequest (MaxHeaderBytes : Z) (parsed : result error (option ParsedRequest)) (captured : gostring) : read_result :=
  let rawHead := raw_head captured in
  match parsed with
  | Ok req => ReadOk req rawHead
  | Err err =>
      if errors_Is err ErrHeadTooLarge || errors_Is err ErrBufferFull || (MaxHeaderBytes <=? Z.of_nat (length rawHead)) then ReadTooLarge
      else if isTimeout (Some err) then ReadTimeout
      else ReadMalformed
  end.

Definition stringsLower `{U : Unicode} (s : gostring) : gostring := if str_eqb s [] then [] else ToLower s.

Definition hasContinueExpectation `{U : Unicode} (req : ParsedRequest) : bool :=
  match Values (pr_Header req) "Expect" with [v] => EqualFold (TrimSpace v) "100-continue" | _ => false end.

(** [syntheticRawHead]; [fields] is the header in the order of the iteration over the map, and [uri] the URL's request URI. *)
Definition syntheticRawHead `{U : Unicode} (req : option ParsedRequest) (uri : gostring) (fields : list (gostring * list gostring)) : gostring :=
  match req with
  | None => []
  | Some r =>
      let target := pr_RequestURI r in
      let target := if str_eqb target [] then match pr_URL r with Some _ => uri | None => [] end else target in
      let target := if str_eqb target [] then bs "/" else target in
      (pr_Method r ++ " "%char :: target ++ bs " HTTP/1.1" ++ crlf) ++
      (if str_eqb (pr_Host r) [] then [] else bs "Host: " ++ pr_Host r ++ crlf) ++
      concat (map (fun '(name, values) => if EqualFold name "Host" then [] else concat (map (fun v => name ++ bs ": " ++ v ++ crlf) values)) fields) ++ crlf
  end.

(** ** Refusals *)

Definition recordRejection (rej : RawHead.Rejection) (reject : option RejectionRecorder) : option RejectionRecorder :=
  match reject with
  | None => None
  | Some r => Some (rr_Record {| AuditRecord.rj_Class := RejectClass_String (RawHead.rj_Class rej); AuditRecord.rj_Reason := RawHead.rj_Reason rej;
      AuditRecord.rj_Bound := RawHead.rj_Bound rej; AuditRecord.rj_Fault := RawHead.rj_Fault rej; AuditRecord.rj_RequestID := RawHead.rj_RequestID rej;
      AuditRecord.rj_ConnID := RawHead.rj_ConnID rej; AuditRecord.rj_Port := RawHead.rj_Port rej; AuditRecord.rj_Method := RawHead.rj_Method rej;
      AuditRecord.rj_Path := RawHead.rj_Path rej |} r)
  end.

(** [http.StatusText] of the codes that are used. *)
Definition StatusText (code : Z) : gostring :=
  if code =? 400 then "Bad Request" else if code =? 403 then "Forbidden" else if code =? 431 then "Request Header Fields Too Large" else [].
Definition status_bytes (code : Z) : gostring :=
  bs "HTTP/1.1 " ++ Itoa (Z.to_nat code) ++ " "%char :: StatusText code ++ crlf ++ bs "Connection: close" ++ crlf ++ bs "Content-Length: 0" ++ crlf ++ crlf.
(** The bytes of an effect on the client's connection. *)
Definition uniform_deny : gostring :=
  bs "HTTP/1.1 403 Forbidden" ++ crlf ++ bs "Connection: close" ++ crlf ++ bs "Content-Length: 0" ++ crlf ++ crlf.
Definition client_bytes (x : effect) : gostring :=
  match x with WroteStatus code => status_bytes code | WroteDeny => uniform_deny | _ => [] end.

Definition malformedChunkedBodyError (text : option gostring) : bool :=
  match text with
  | None => false
  | Some text => Contains text "malformed chunked encoding" || Contains text "chunk length" || Contains text "invalid byte"
  end.

(** ** Bytes arrive in order *)

(** A reader that delivers the bytes of a stream in order. *)
Class Ordered {R} (read : reader R) (stream : R -> gostring) : Prop :=
  ordered : forall r n, stream r = (read r n).1.2 ++ stream (read r n).1.1 /\ (length (read r n).1.2 <= n)%nat.

Section Stream.
Context {R : Type} (read : reader R) (stream : R -> gostring) `{O : !Ordered read stream}.

Definition pc_stream (c : prependConn R) : gostring := pc_prefix c ++ stream (pc_Conn c).

#[global] Instance pc_ordered : Ordered (pc_Read read) pc_stream.
Proof.
  intros [r p] n. unfold pc_Read, pc_stream. cbn [pc_Conn pc_prefix]. destruct (Nat.ltb_spec 0 (length p)) as [Hp|Hp]; cbn [fst snd pc_Conn pc_prefix].
  - rewrite app_assoc, take_drop. split; [done|]. rewrite length_take. lia.
  - assert (p = []) as -> by (apply length_zero_iff_nil; lia). destruct (O r n) as [H1 H2]. destruct (read r n) as [[r' b] err]. done.
Qed.

Lemma ordered_well_behaved : well_behaved read.
Proof. intros r n. apply O. Qed.

(** The guard takes nothing from the stream and adds nothing to it. *)
Lemma guard_ordered g n : let '(g', b, _) := HeadGuard.Read read g n in stream (HeadGuard.inner g) = b ++ stream (HeadGuard.inner g').
Proof.
  unfold HeadGuard.Read. destruct (negb (HeadGuard.armed g)).
  - destruct (O (HeadGuard.inner g) n) as [H _]. destruct (read (HeadGuard.inner g) n) as [[r b] err]. done.
  - destruct (_ <=? 0); [done|]. set (k := Z.to_nat _). destruct (O (HeadGuard.inner g) k) as [H _]. destruct (read (HeadGuard.inner g) k) as [[r b] err].
    destruct err; [|destruct (_ && _)]; done.
Qed.
Lemma reads_ordered lens : forall g, let '(g', b) := HeadGuard.reads read g lens in stream (HeadGuard.inner g) = b ++ stream (HeadGuard.inner g').
Proof.
  induction lens as [|n lens IH]; intros g; cbn [HeadGuard.reads]; [done|]. pose proof (guard_ordered g n) as H. destruct (HeadGuard.Read read g n) as [[g1 b1] e1].
  specialize (IH g1). destruct (HeadGuard.reads read g1 lens) as [g2 b2]. rewrite H, IH. by rewrite app_assoc.
Qed.

(** The byte that the wait reads is not lost. *)
Lemma wait_keeps deadline ctxDone c : pc_prefix c = [] ->
  let '(c', err) := waitForRequest read deadline ctxDone c in
  pc_stream c' = pc_stream c /\ (length (pc_prefix c') <= 1)%nat /\ (deadline = None -> err = None -> pc_prefix c' = [] -> (read (pc_Conn c) 1%nat).2 = None).
Proof.
  intros Hp. unfold waitForRequest, pc_stream. rewrite Hp. destruct deadline as [e|]; [by rewrite Hp; split_and!; [|simpl; lia|]|].
  destruct (O (pc_Conn c) 1%nat) as [H1 H2]. destruct (read (pc_Conn c) 1%nat) as [[r b] err]. cbn [fst snd] in H1, H2. destruct (Nat.ltb_spec 0 (length b)) as [Hb|Hb].
  - unfold Prepend. destruct (Nat.eqb_spec (length b) 0); [lia|]. cbn [pc_Conn pc_prefix]. rewrite app_nil_r. split_and!; [by rewrite H1|done|]. intros _ _ ->. simpl in Hb. lia.
  - assert (b = []) as -> by (apply length_zero_iff_nil; lia). destruct (_ && _); cbn; split_and!; by (done || lia).
Qed.
End Stream.

(** ** The head that is validated is the head that was parsed *)

(** Where [http.ReadRequest] stops: after the first line that is empty, of lines that end in LF or CR LF. *)
Inductive line_state := AtStart | OneCR | Inside.
Fixpoint head_end (st : line_state) (s : gostring) : option nat :=
  match s with
  | [] => None
  | c :: r =>
      if ascii_eqb c chr_lf then match st with Inside => S <$> head_end AtStart r | _ => Some 1%nat end
      else S <$> head_end (match st with AtStart => if ascii_eqb c chr_cr then OneCR else Inside | _ => Inside end) r
  end.
Definition parsed_head (s : gostring) : option gostring := (fun n => take n s) <$> head_end AtStart s.

Lemma head_end_line l s : l <> [] -> plain l -> head_end AtStart (l ++ crlf ++ s) = (fun n => length l + 2 + n)%nat <$> head_end AtStart s.
Proof.
  intros Hne Hl. assert (forall l, plain l -> head_end Inside (l ++ crlf ++ s) = (fun n => length l + 2 + n)%nat <$> head_end AtStart s) as Hin.
  { clear. induction l as [|c l IH]; intros Hl.
    - cbn. destruct (head_end AtStart s); done.
    - apply Forall_cons in Hl as [Hc Hl]. cbn [app head_end]. unfold is_nl in Hc. apply orb_false_iff in Hc as [_ ->]. rewrite (IH Hl). destruct (head_end AtStart s); done. }
  destruct l as [|c l]; [done|]. apply Forall_cons in Hl as [Hc Hl]. cbn [app head_end]. unfold is_nl in Hc. apply orb_false_iff in Hc as [-> ->].
  rewrite (Hin l Hl). destruct (head_end AtStart s); done.
Qed.

(** A text whose line breaks are pairs has a first line. *)
Lemma endings_line s : forall prev, prev <> Some chr_cr -> line_endings_ok prev s = true -> chr_lf ∈ s ->
  exists l r, s = l ++ crlf ++ r /\ plain l /\ line_endings_ok (Some chr_lf) r = true.
Proof.
  induction s as [|c s IH]; intros prev Hp; [by intros _ ?%elem_of_nil|]. cbn [line_endings_ok]. destruct (ascii_eqb c chr_cr) eqn:Ec.
  - apply ascii_eqb_eq in Ec as ->. destruct s as [|d s]; [done|]. intros [Hd%ascii_eqb_eq Hs]%andb_true_iff _. subst d. exists [], s. split_and!; [done|apply plain_nil|done].
  - destruct (ascii_eqb c chr_lf) eqn:El; [intros [H%bool_decide_eq_true _]%andb_true_iff; done|]. apply ascii_eqb_neq in El as Hne. apply ascii_eqb_neq in Ec as Hne'. intros Hs [Hc|Hin]%elem_of_cons; [by rewrite Hc in Hne|].
    destruct (IH (Some c)) as (l & r & -> & Hl & Hr); [by intros [= E]|done|done|].
    exists (c :: l), r. split_and!; [done| |done]. constructor; [|done]. unfold is_nl. by rewrite Ec, El.
Qed.

Lemma Index_spec s sub : match Index s sub with
  | Some e => exists b, s = take e s ++ sub ++ b /\ (e <= length s)%nat /\ forall a' b', s = a' ++ sub ++ b' -> (e <= length a')%nat
  | None => forall a b, s <> a ++ sub ++ b
  end.
Proof.
  induction s as [|c s IH]; cbn [Index]; (destruct (HasPrefix _ sub) eqn:Ep; [apply HasPrefix_spec in Ep as [b Hb]; exists b; rewrite take_0; split_and!; [done|lia|lia]|]).
  - intros a b E. destruct a, sub; try done.
  - destruct (Index s sub) as [e|]; cbn [fmap option_fmap option_map].
    + destruct IH as (b & Hb & Hl & Hmin). exists b. cbn [take length]. split_and!; [simpl; by f_equal|lia|]. intros [|d a'] b'.
      * cbn [app]. intros E. exfalso. rewrite E in Ep. by rewrite HasPrefix_app in Ep.
      * intros [= _ E]. specialize (Hmin _ _ E). cbn. lia.
    + intros [|d a] b; [cbn [app]; intros E; rewrite E in Ep; by rewrite HasPrefix_app in Ep|]. intros [= _ E]. by apply (IH a b).
Qed.

Lemma plain_lf l : plain l -> chr_lf ∉ l.
Proof. unfold plain. rewrite Forall_forall. intros H Hin. by specialize (H _ Hin). Qed.

(** The first empty line of a text whose line breaks are pairs and which ends in its only empty line. *)
Lemma paired_head_end m : forall raw rest prev, (length raw <= m)%nat -> prev <> Some chr_cr -> line_endings_ok prev raw = true ->
  (exists x, raw = x ++ crlf ++ crlf) -> (forall a b, raw = a ++ (crlf ++ crlf) ++ b -> b = []) -> (forall y, raw <> crlf ++ y) ->
  head_end AtStart (raw ++ rest) = Some (length raw).
Proof.
  induction m as [|m IH]; intros raw rest prev Hm Hp Hle [x Hx] Honly Hnot.
  { destruct raw; [by destruct x|simpl in Hm; lia]. }
  destruct (endings_line raw prev Hp Hle) as (l & r & El & Hl & Hr); [rewrite Hx; rewrite !elem_of_app; right; left; by right; left|].
  assert (l <> []) as Hne by (intros ->; by apply (Hnot r)). rewrite El, <- !app_assoc, head_end_line by done. rewrite !length_app. cbn [length].
  assert ((exists y, r = crlf ++ y) \/ (forall y, r <> crlf ++ y)) as [[y Hy]|Hny].
  { destruct (decide (take 2 r = crlf)) as [E|E]; [left; exists (drop 2 r); by rewrite <- E, take_drop|right; intros y ->; by apply E]. }
  - assert (y = []) as -> by (apply (Honly l); by rewrite El, Hy, <- !app_assoc). rewrite Hy, app_nil_r. change (head_end AtStart (crlf ++ rest)) with (Some 2%nat). cbn [fmap option_fmap option_map length crlf]. f_equal. lia.
  - rewrite (IH r rest (Some chr_lf)); [cbn; f_equal; lia| |done|done| | |done].
    + apply (f_equal length) in El. rewrite !length_app in El. simpl in El. lia.
    + rewrite app_assoc in El. rewrite El in Hx. apply app_eq_inv in Hx as [(k & Hk & Hr')|(k & Hk & Hr')]; [|by exists k].
      exfalso. unfold crlf in Hr'. cbn [app] in Hr'.
      destruct k as [|c1 [|c2 [|c3 [|c4 [|? ?]]]]]; cbn [app] in Hr'; simplify_eq; first [by apply (Hny crlf)|by vm_compute in Hr|by apply (Hny [])|idtac].
      change (l ++ crlf = x ++ crlf ++ crlf) in Hk. rewrite app_assoc in Hk. apply (inj (.++ crlf)) in Hk as ->. apply (plain_lf _ Hl). rewrite elem_of_app. right. right. left.
    + intros a b E. apply (Honly (l ++ crlf ++ a)). by rewrite El, E, <- !app_assoc.
Qed.

Section Scanned.
Context `{U : Unicode}.

(** A raw head that passes the scan is the head at which the parser stopped. *)
Lemma scanned_is_parsed captured c : parsed_head captured = Some c -> ScanRawHead (raw_head captured) = None -> raw_head captured = c.
Proof.
  intros Hp Hs. set (raw := raw_head captured) in *. unfold ScanRawHead in Hs. destruct (line_endings_ok None raw) eqn:Hle; [|done]. cbn [negb] in Hs.
  destruct (_ || _) eqn:Hsuf; [done|]. apply orb_false_iff in Hsuf as [_ [x Hx]%negb_false_iff%HasSuffix_spec].
  pose proof (Index_spec raw crlf) as Hi. destruct (Index raw crlf) as [i|]; [|done]. destruct Hi as (_ & _ & _ & Hmin).
  assert (forall y, raw <> crlf ++ y) as Hnot.
  { intros y Hy. specialize (Hmin [] y Hy). assert (i = 0%nat) as -> by (simpl in Hmin; lia). by rewrite Nat.eqb_refl in Hs. }
  clear Hs Hmin. pose proof (Index_spec captured (crlf ++ crlf)) as Hc. unfold raw, raw_head in *. destruct (Index captured (crlf ++ crlf)) as [e|]; [|by destruct (Hc x []); rewrite app_nil_r].
  destruct Hc as (b & Hb & Hl & Hmin).
  assert (captured = take (e + 4) captured ++ b) as Hcap.
  { assert (length (take e captured) = e) as Ha by (rewrite length_take; lia). revert Hb Ha. generalize (take e captured) as a. intros a -> <-.
    rewrite (app_assoc a), (take_app_le (a ++ crlf ++ crlf)), take_ge by (rewrite !length_app; simpl; lia). done. }
  pose proof (f_equal length Hb) as Hlen. rewrite !length_app, length_take in Hlen. change (length crlf) with 2%nat in Hlen.
  assert (length (take (e + 4) captured) = e + 4)%nat as Hlr by (rewrite length_take; lia).
  assert (head_end AtStart (take (e + 4) captured ++ b) = Some (length (take (e + 4) captured))) as He.
  { eapply (paired_head_end (e + 4) _ _ None); [lia|done|done|by exists x| |done]. intros a b' Hab.
    assert (e <= length a)%nat by (apply (Hmin a (b' ++ b)); by rewrite Hcap at 1; rewrite Hab, <- !app_assoc).
    apply (f_equal length) in Hab. rewrite !length_app, Hlr in Hab. change (length crlf) with 2%nat in Hab. apply length_zero_iff_nil. lia. }
  rewrite <- Hcap, Hlr in He. unfold parsed_head in Hp. rewrite He in Hp. by injection Hp as <-.
Qed.

Section Connection.
Context {R : Type} (read : reader R) (stream : R -> gostring) `{O : !Ordered read stream}.

(** C5: the head that is validated is the head that was parsed.  A connection waits for a byte, puts it back, and lets [http.ReadRequest] read
    through the guard, in reads of whatever sizes and with whatever pieces the connection delivers.  The bytes that the parser gets are the next
    bytes of the connection, in order and without loss, and never more than the limit; and if it stops after the head [c] and the raw head
    passes validation, then the raw head is [c]: net/http and the scanner have looked at the same bytes, which the agent cannot make them see
    differently with bare line feeds, folded lines or an early empty line. *)
Theorem validated_head_is_parsed_head deadline ctxDone conn limit lens c r r' :
  let '(source, err) := waitForRequest read deadline ctxDone {| pc_Conn := conn; pc_prefix := [] |} in
  let '(g, b) := HeadGuard.reads (pc_Read read) (HeadGuard.Arm (HeadGuard.NewHeadGuard source limit)) lens in
  err = None -> parsed_head b = Some c -> Validate (Some r) (raw_head (HeadGuard.Head g)) = (r', None) ->
  stream conn = b ++ pc_stream stream (HeadGuard.inner g) /\ (Z.of_nat (length b) <= Z.max 0 limit) /\ c `prefix_of` b /\ raw_head (HeadGuard.Head g) = c.
Proof.
  pose proof (wait_keeps read stream deadline ctxDone {| pc_Conn := conn; pc_prefix := [] |} eq_refl) as Hw.
  destruct (waitForRequest _ _ _ _) as [source err]. destruct Hw as (Hw & _). cbn [pc_stream pc_prefix pc_Conn app] in Hw.
  pose proof (HeadGuard.HeadGuard_budget (pc_Read read) (ordered_well_behaved (pc_Read read) (pc_stream stream)) (HeadGuard.NewHeadGuard source limit) lens) as Hb.
  pose proof (reads_ordered (pc_Read read) (pc_stream stream) lens (HeadGuard.Arm (HeadGuard.NewHeadGuard source limit))) as Ho.
  destruct (HeadGuard.reads _ _ _) as [g b]. cbn [HeadGuard.inner HeadGuard.Arm HeadGuard.NewHeadGuard HeadGuard.limit] in Hb, Ho.
  destruct Hb as (Hh & Hlim & _); [destruct (Z.ltb_spec limit 0); lia|]. intros _ Hp Hv. rewrite Hh in *. split_and!.
  - by rewrite <- Ho.
  - destruct (Z.ltb_spec limit 0); lia.
  - unfold parsed_head in Hp. apply fmap_Some in Hp as (n & _ & ->). apply prefix_take.
  - apply scanned_is_parsed; [done|]. unfold Validate in Hv. by destruct (ScanRawHead (raw_head b)).
Qed.
End Connection.
End Scanned.

(** A connection whose bytes come in pieces of three. *)
Definition piecemeal : reader gostring := fun s n => (drop (Nat.min 3 n) s, take (Nat.min 3 n) s, match s with [] => Some io_EOF | _ => None end).
Instance piecemeal_ordered : Ordered piecemeal (fun s => s).
Proof. intros s n. unfold piecemeal. cbn [fst snd]. rewrite take_drop, length_take. split; [done|lia]. Qed.

Lemma validated_head_is_parsed_head_witness :
  let '(source, err) := waitForRequest piecemeal None false {| pc_Conn := simple_head ++ bs "hello world!"; pc_prefix := [] |} in
  let '(g, b) := HeadGuard.reads (pc_Read piecemeal) (HeadGuard.Arm (HeadGuard.NewHeadGuard source 4096)) (replicate 40 4096%nat) in
  err = None /\ raw_head (HeadGuard.Head g) = simple_head.
Proof.
  pose proof (validated_head_is_parsed_head (U := ascii_only) piecemeal (fun s => s) None false (simple_head ++ bs "hello world!") 4096 (replicate 40 4096%nat)
    simple_head post_request (Validate (U := ascii_only) (Some post_request) simple_head).1) as H.
  destruct (waitForRequest _ _ _ _) as [source err] eqn:Ew. destruct (HeadGuard.reads _ _ _) as [g b] eqn:Er.
  injection Ew as <- <-.
  assert (HeadGuard.Head g = simple_head ++ bs "hello world!") as Eg by (change g with (g, b).1; rewrite <- Er; vm_compute; reflexivity).
  assert (b = simple_head ++ bs "hello world!") as -> by (change b with (g, b).2; rewrite <- Er; vm_compute; reflexivity).
  split; [reflexivity|]. apply H; [reflexivity|vm_compute; reflexivity|rewrite Eg; vm_compute; reflexivity].
Defined.

(** ** What the client sees *)

(** Every refusal that is written is one complete response without a body, which closes the connection; nothing of the request is in it. *)
Lemma refusals_complete x : x ∈ [WroteStatus 400; WroteStatus 431; WroteDeny] ->
  exists line, read_line (client_bytes x) = Some (line, bs "Connection: close" ++ crlf ++ bs "Content-Length: 0" ++ crlf ++ crlf) /\
    read_fields 3 (bs "Connection: close" ++ crlf ++ bs "Content-Length: 0" ++ crlf ++ crlf) = Some ([(bs "Connection", bs "close"); (bs "Content-Length", bs "0")], []).
Proof. rewrite !elem_of_cons, elem_of_nil. intros [->|[->|[->|[]]]]; eexists; (split; vm_compute; reflexivity). Qed.

(** A request that passes validation is relayed with a 100-continue exactly if it had an Expect header. *)
Lemma expectation_honoured `{U : Unicode} r head r' : Validate (Some r) head = (Some r', None) ->
  hasContinueExpectation r = negb (bool_decide (Values (pr_Header r) "Expect" = [])).
Proof.
  unfold Validate. destruct (ScanRawHead head); [done|]. destruct (pr_URL r) as [u|]; [|done]. destruct (_ || _); [done|]. destruct (str_eqb _ _); [done|].
  destruct (hasUpgradeHeaders r); [done|]. destruct (validateTarget r u head) as [r1 [j|]] eqn:Et; [done|]. apply validateTarget_ok in Et as (_ & Eh & _).
  destruct (splitAuthority (pr_Host r1)); [|done]. destruct (validateFraming r1 head); [done|]. unfold validateExpect, hasContinueExpectation. rewrite Eh.
  destruct (Values (pr_Header r) "Expect") as [|v [|? ?]]; [intros _; by rewrite bool_decide_eq_true_2| |done].
  rewrite bool_decide_eq_false_2 by done. by destruct (EqualFold _ _).
Qed.
