(* ===== verification/AuditSink.v ===== *)
(** * [internal/audit]: the buffered sink

    [bufferedsink.go].  Callers of [Record] and [RecordCompletion] and the single writer
    goroutine communicate over a bounded channel; the state machine below interleaves
    their atomic actions.  A call is identified by its index; the submission it sends
    carries that index in place of the channel [done], whose one buffered value is
    kept in [k_done].  Encoded records are byte strings, and a completed or failed
    [write(2)] is an outcome of the step that performs it. *)

From S2P Require Import Prelude GoStrings GoRuntime Compile Match Decision Metrics.
#[local] Open Scope Z_scope.

Definition defaultBufferSize : Z := 256.
Definition defaultFlushInterval : Duration := 100 * Millisecond.

(** The sizes that [NewBufferedSink] settles on. *)
Definition sink_size (bufSize : Z) : nat := Z.to_nat (if bufSize <=? 0 then defaultBufferSize else bufSize).
Definition sink_interval (flush : Duration) : Duration := if flush <=? 0 then defaultFlushInterval else flush.

Record bsSubmission := { sub_id : nat; sub_data : gostring; sub_kind : AuditRecordKind }.

Inductive sink_error := ErrContext | ErrEncode | ErrSinkClosed | ErrAuditBufferFull | ErrWriteFailed.

Inductive call_status :=
| CSending                          (* at the send on the queue *)
| CWaiting                          (* sent, waiting for [done] *)
| CReturned (r : option sink_error).

Record call := { c_data : gostring; c_kind : AuditRecordKind; c_status : call_status }.

Record sink := {
  k_queue : list bsSubmission;
  k_batch : list bsSubmission;
  k_failed : bool;
  k_closed : bool;                                  (* [closeCh] is closed *)
  k_stopped : bool;                                 (* [doneCh] is closed *)
  k_done : gmap nat (option sink_error);
  k_writes : list (list bsSubmission * bool);       (* batches and whether their write completed *)
  k_calls : list call;
  k_metrics : list metric
}.

Definition sink_init : sink :=
  {| k_queue := []; k_batch := []; k_failed := false; k_closed := false; k_stopped := false; k_done := ∅;
     k_writes := []; k_calls := []; k_metrics := [] |}.

(** ** The writer *)

(** [sub.done <- err] for the decision records of a batch. *)
Definition send_done (ok : bool) (batch : list bsSubmission) (done : gmap nat (option sink_error)) : gmap nat (option sink_error) :=
  fold_left (fun m sub => match sub_kind sub with
    | AuditRecordDecision => <[sub_id sub := if ok then None else Some ErrWriteFailed]> m
    | AuditRecordCompletion => m
    end) batch done.

(** The gauge is set on the edges only. *)
Definition unavailable_edge (ok failed : bool) : list metric :=
  if negb ok then (if negb failed then [MAuditUnavailable true] else [])
  else if failed then [MAuditUnavailable false] else [].

(** [flush], with the outcome of the write. *)
Definition flush (ok : bool) (k : sink) : sink :=
  match k_batch k with
  | [] => k
  | batch =>
      {| k_queue := k_queue k; k_batch := []; k_failed := negb ok; k_closed := k_closed k; k_stopped := k_stopped k;
         k_done := send_done ok batch (k_done k); k_writes := k_writes k ++ [(batch, ok)]; k_calls := k_calls k;
         k_metrics := k_metrics k ++ MAuditWriteDuration :: (if ok then map (fun sub => MAuditRecord (sub_kind sub)) batch else []) ++
                      unavailable_edge ok (k_failed k) |}
  end.

(** [drain]: everything in the queue joins the batch.  The loop that receives until the queue is empty is one action with the flush after it: the bound
    on the batch is that at the points where the writer selects. *)
Definition drain (k : sink) : sink :=
  {| k_queue := []; k_batch := k_batch k ++ k_queue k; k_failed := k_failed k; k_closed := k_closed k; k_stopped := k_stopped k;
     k_done := k_done k; k_writes := k_writes k; k_calls := k_calls k; k_metrics := k_metrics k |}.

(** The writer receives one submission, and flushes a full batch. *)
Definition receive (bufSize : nat) (ok : bool) (k : sink) : sink :=
  match k_queue k with
  | [] => k
  | sub :: queue =>
      let k := {| k_queue := queue; k_batch := k_batch k ++ [sub]; k_failed := k_failed k; k_closed := k_closed k;
                  k_stopped := k_stopped k; k_done := k_done k; k_writes := k_writes k; k_calls := k_calls k;
                  k_metrics := k_metrics k |} in
      if (bufSize <=? length (k_batch k))%nat then flush ok k else k
  end.

Definition stop (k : sink) : sink :=
  {| k_queue := k_queue k; k_batch := k_batch k; k_failed := k_failed k; k_closed := k_closed k; k_stopped := true;
     k_done := k_done k; k_writes := k_writes k; k_calls := k_calls k; k_metrics := k_metrics k |}.

Definition close_sink (k : sink) : sink :=
  {| k_queue := k_queue k; k_batch := k_batch k; k_failed := k_failed k; k_closed := true; k_stopped := k_stopped k;
     k_done := k_done k; k_writes := k_writes k; k_calls := k_calls k; k_metrics := k_metrics k |}.

(** ** Callers *)

Definition with_calls (k : sink) (queue : list bsSubmission) (calls : list call) : sink :=
  {| k_queue := queue; k_batch := k_batch k; k_failed := k_failed k; k_closed := k_closed k; k_stopped := k_stopped k;
     k_done := k_done k; k_writes := k_writes k; k_calls := calls; k_metrics := k_metrics k |}.

(** Call [i], whose record is [c], reaches [st]. *)
Definition advance (k : sink) (i : nat) (c : call) (st : call_status) : list call :=
  <[i := {| c_data := c_data c; c_kind := c_kind c; c_status := st |}]> (k_calls k).

(** The submission of call [i]. *)
Definition submission (i : nat) (c : call) : bsSubmission := {| sub_id := i; sub_data := c_data c; sub_kind := c_kind c |}.

(** [RecordCompletion]: a send that drops the record when the queue is full. *)
Definition send_completion (bufSize : nat) (k : sink) (i : nat) (c : call) : sink :=
  with_calls k (if (length (k_queue k) <? bufSize)%nat then k_queue k ++ [submission i c] else k_queue k)
    (advance k i c (CReturned None)).

(** The last [select] of [Record] when [closeCh] is closed. *)
Definition closed_answer (k : sink) (i : nat) : option sink_error :=
  match k_done k !! i with Some werr => werr | None => Some ErrSinkClosed end.

Inductive sink_step (bufSize : nat) (k : sink) : sink -> Prop :=
(* a call whose context is done or whose event does not encode, or after [Close] *)
| step_refused data kind e :
    (e = ErrContext \/ e = ErrEncode \/ (e = ErrSinkClosed /\ k_closed k = true)) ->
    sink_step bufSize k (with_calls k (k_queue k) (k_calls k ++ [{| c_data := data; c_kind := kind; c_status := CReturned (Some e) |}]))
| step_call data kind :
    k_closed k = false ->
    sink_step bufSize k (with_calls k (k_queue k) (k_calls k ++ [{| c_data := data; c_kind := kind; c_status := CSending |}]))
| step_send i c :
    k_calls k !! i = Some c -> c_kind c = AuditRecordDecision -> c_status c = CSending ->
    (length (k_queue k) < bufSize)%nat ->
    sink_step bufSize k (with_calls k (k_queue k ++ [submission i c]) (advance k i c CWaiting))
| step_send_gives_up i c e :
    k_calls k !! i = Some c -> c_kind c = AuditRecordDecision -> c_status c = CSending ->
    (e = ErrContext \/ e = ErrAuditBufferFull \/ (e = ErrSinkClosed /\ k_closed k = true)) ->
    sink_step bufSize k (with_calls k (k_queue k) (advance k i c (CReturned (Some e))))
| step_send_completion i c :
    k_calls k !! i = Some c -> c_kind c = AuditRecordCompletion -> c_status c = CSending ->
    sink_step bufSize k (send_completion bufSize k i c)
| step_done i c werr :
    k_calls k !! i = Some c -> c_status c = CWaiting -> k_done k !! i = Some werr ->
    sink_step bufSize k (with_calls k (k_queue k) (advance k i c (CReturned werr)))
| step_deadline i c :
    k_calls k !! i = Some c -> c_status c = CWaiting ->
    sink_step bufSize k (with_calls k (k_queue k) (advance k i c (CReturned (Some ErrContext))))
| step_closed i c :
    k_calls k !! i = Some c -> c_status c = CWaiting -> k_closed k = true ->
    sink_step bufSize k (with_calls k (k_queue k) (advance k i c (CReturned (closed_answer k i))))
| step_receive ok : k_stopped k = false -> sink_step bufSize k (receive bufSize ok k)
| step_tick ok : k_stopped k = false -> sink_step bufSize k (flush ok k)
| step_flush ok : k_stopped k = false -> sink_step bufSize k (flush ok (drain k))
| step_close : sink_step bufSize k (close_sink k)
| step_stop ok : k_stopped k = false -> k_closed k = true -> sink_step bufSize k (stop (flush ok (drain k))).

(** ** Invariant *)

(** Everything the writer has written or will write, in order. *)
Definition admitted (k : sink) : list bsSubmission := concat (map fst (k_writes k)) ++ k_batch k ++ k_queue k.

Definition last_failed (ws : list (list bsSubmission * bool)) : bool :=
  match last ws with Some (_, ok) => negb ok | None => false end.

Definition answer_of (ok : bool) : option sink_error := if ok then None else Some ErrWriteFailed.

Record sink_core (bufSize : nat) (k : sink) : Prop := {
  si_nodup : NoDup (map sub_id (admitted k));
  si_calls : forall sub, sub ∈ admitted k -> exists c, k_calls k !! sub_id sub = Some c /\ c_status c <> CSending /\ sub = submission (sub_id sub) c;
  si_waiting : forall i c, k_calls k !! i = Some c -> c_status c = CWaiting ->
    c_kind c = AuditRecordDecision /\ submission i c ∈ admitted k;
  si_done : forall i w, k_done k !! i = Some w -> exists b ok sub, (b, ok) ∈ k_writes k /\ sub ∈ b /\ sub_id sub = i /\ w = answer_of ok;
  si_answered : forall b ok sub, (b, ok) ∈ k_writes k -> sub ∈ b -> sub_kind sub = AuditRecordDecision -> is_Some (k_done k !! sub_id sub);
  si_durable : forall i c, k_calls k !! i = Some c -> c_kind c = AuditRecordDecision -> c_status c = CReturned None ->
    exists b, (b, true) ∈ k_writes k /\ submission i c ∈ b;
  si_queue : (length (k_queue k) <= bufSize)%nat;
  si_failed : k_failed k = last_failed (k_writes k)
}.

Record sink_inv (bufSize : nat) (k : sink) : Prop := {
  si_core : sink_core bufSize k;
  si_batch : (length (k_batch k) < bufSize)%nat;
  si_stopped : k_stopped k = true -> k_closed k = true /\ k_batch k = []
}.

Lemma send_done_lookup ok b m i w : send_done ok b m !! i = Some w ->
  m !! i = Some w \/ exists sub, sub ∈ b /\ sub_id sub = i /\ w = answer_of ok.
Proof.
  revert m. unfold send_done. induction b as [|sub b IH]; intros m; cbn [fold_left]; [by left|].
  intros [Hm|(s & Hs & Ei & Ew)]%IH; [|right; exists s; split_and!; [by right|done..]].
  destruct (sub_kind sub); [|by left]. destruct (decide (sub_id sub = i)) as [<-|Hne].
  - rewrite lookup_insert_eq in Hm. simplify_eq. right. exists sub. split_and!; [left|done|by destruct ok].
  - rewrite lookup_insert_ne in Hm by done. by left.
Qed.

Lemma send_done_keeps ok b m i : is_Some (m !! i) -> is_Some (send_done ok b m !! i).
Proof.
  revert m. unfold send_done. induction b as [|sub b IH]; intros m Hm; cbn [fold_left]; [done|]. apply IH.
  destruct (sub_kind sub); [|done]. destruct (decide (sub_id sub = i)) as [<-|Hne].
  - rewrite lookup_insert_eq. by eexists.
  - by rewrite lookup_insert_ne.
Qed.

Lemma send_done_answers ok b m sub : sub ∈ b -> sub_kind sub = AuditRecordDecision -> is_Some (send_done ok b m !! sub_id sub).
Proof.
  intros Hs Hk. revert m. induction b as [|s b IH]; intros m; [by apply not_elem_of_nil in Hs|].
  unfold send_done. cbn [fold_left]. fold (send_done ok b). apply elem_of_cons in Hs as [<-|Hs]; [|by apply IH].
  rewrite Hk. apply send_done_keeps. rewrite lookup_insert_eq. by eexists.
Qed.

Lemma admitted_flush ok k : admitted (flush ok k) = admitted k.
Proof.
  unfold flush. destruct (k_batch k) as [|s b] eqn:E; [done|]. unfold admitted. cbn. rewrite E, map_app, concat_app. cbn.
  by rewrite app_nil_r, <- app_assoc.
Qed.

Lemma admitted_drain k : admitted (drain k) = admitted k.
Proof. unfold admitted, drain. cbn. by rewrite app_nil_r. Qed.

(** The writer's part: the calls are untouched and what is admitted is kept. *)
Lemma sink_core_writer bufSize k k' :
  sink_core bufSize k -> k_calls k' = k_calls k -> admitted k' = admitted k -> (length (k_queue k') <= bufSize)%nat ->
  (exists ws, k_writes k' = k_writes k ++ ws) -> k_failed k' = last_failed (k_writes k') ->
  (forall i w, k_done k' !! i = Some w -> exists b ok sub, (b, ok) ∈ k_writes k' /\ sub ∈ b /\ sub_id sub = i /\ w = answer_of ok) ->
  (forall b ok sub, (b, ok) ∈ k_writes k' -> sub ∈ b -> sub_kind sub = AuditRecordDecision -> is_Some (k_done k' !! sub_id sub)) ->
  sink_core bufSize k'.
Proof.
  intros [] Ec Ea Hq [ws Ew] Hf Hd Ha. split; rewrite ?Ec, ?Ea; try done.
  intros i c Hi Hk Hr. destruct (si_durable0 i c Hi Hk Hr) as (b & Hb & Hs). exists b. split; [|done].
  rewrite Ew. apply elem_of_app. by left.
Qed.

Lemma sink_core_flush bufSize ok k : sink_core bufSize k -> sink_core bufSize (flush ok k).
Proof.
  intros I. pose proof (admitted_flush ok k) as Ea. unfold flush in *. destruct (k_batch k) as [|s b] eqn:E; [done|].
  destruct I as [I1 I2 I3 I4 I5 I6 I7 I8] eqn:EI. eapply sink_core_writer; [exact I|done|exact Ea|done| | | |]; cbn [k_done k_writes k_failed].
  - by eexists.
  - unfold last_failed. rewrite last_snoc. done.
  - intros i w [H|(sub & Hs & Hi & Hw)]%send_done_lookup.
    + destruct (I4 i w H) as (b' & ok' & sub & Hb & ?). exists b', ok', sub. split; [|done]. apply elem_of_app. by left.
    + exists (s :: b), ok, sub. split_and!; [|done..]. apply elem_of_app. right. by left.
  - intros b' ok' sub [Hb|Hb%list_elem_of_singleton]%elem_of_app Hs Hk.
    + apply send_done_keeps. eauto.
    + simplify_eq. by apply send_done_answers.
Qed.

Lemma sink_core_drain bufSize k : sink_core bufSize k -> sink_core bufSize (drain k).
Proof.
  intros I. destruct I as [I1 I2 I3 I4 I5 I6 I7 I8] eqn:EI. eapply sink_core_writer; [exact I|done|apply admitted_drain|simpl; lia| |done..].
  exists []. by rewrite app_nil_r.
Qed.

Lemma flush_batch ok k : k_batch (flush ok k) = [].
Proof. unfold flush. by destruct (k_batch k) eqn:E. Qed.

Lemma flush_flags ok k : k_stopped (flush ok k) = k_stopped k /\ k_closed (flush ok k) = k_closed k.
Proof. unfold flush. by destruct (k_batch k). Qed.

Lemma sink_inv_flush bufSize ok k : (0 < bufSize)%nat -> sink_core bufSize k -> (k_stopped k = true -> k_closed k = true) ->
  sink_inv bufSize (flush ok k).
Proof.
  intros Hb I Hs. destruct (flush_flags ok k) as [E1 E2]. split; [by apply sink_core_flush|by rewrite flush_batch|].
  rewrite E1, E2, flush_batch. auto.
Qed.

(** A caller's part: one call changes its status, or a new one appears, and perhaps a
    submission is queued. *)
Lemma sink_inv_call bufSize k i c st queue (c' := {| c_data := c_data c; c_kind := c_kind c; c_status := st |}) :
  sink_inv bufSize k -> k_calls k !! i = Some c ->
  (queue = k_queue k \/ (queue = k_queue k ++ [submission i c] /\ c_status c = CSending /\ (length (k_queue k) < bufSize)%nat)) ->
  st <> CSending ->
  (st = CWaiting -> c_kind c = AuditRecordDecision /\ queue = k_queue k ++ [submission i c]) ->
  (st = CReturned None -> c_kind c = AuditRecordDecision -> exists b, (b, true) ∈ k_writes k /\ submission i c ∈ b) ->
  sink_inv bufSize (with_calls k queue (advance k i c st)).
Proof.
  intros [[I1 I2 I3 I4 I5 I6 I7 I8] J1 J2] Hi Hq Hst Hw Hr.
  assert (Hii : (<[i := c']> (k_calls k)) !! i = Some c') by (apply list_lookup_insert_eq; by eapply lookup_lt_Some).
  assert (Ea : exists l, admitted (with_calls k queue (advance k i c st)) = admitted k ++ l /\
    (l = [] \/ (l = [submission i c] /\ c_status c = CSending))).
  { unfold admitted. cbn. destruct Hq as [->|(-> & Hs & _)].
    - exists []. rewrite app_nil_r. auto.
    - exists [submission i c]. rewrite !app_assoc. auto. }
  destruct Ea as (l & Ea & Hl). split; [split|done|done]; cbn [k_calls k_writes k_done k_queue k_failed with_calls]; rewrite ?Ea; try done.
  - rewrite map_app. destruct Hl as [->|[-> Hs]]; [by rewrite app_nil_r|]. cbn [map submission sub_id].
    apply NoDup_app. split_and!; [done| |apply NoDup_singleton]. intros x Hx [= ->]%list_elem_of_singleton.
    apply list_elem_of_fmap in Hx as (sub & -> & Hsub). destruct (I2 _ Hsub) as (c0 & Hc0 & Hne & _). congruence.
  - intros sub [Hsub|Hsub]%elem_of_app.
    + destruct (I2 _ Hsub) as (c0 & Hc0 & Hne & Es). unfold advance. fold c'. destruct (decide (i = sub_id sub)) as [->|Hn].
      * exists c'. split_and!; [done|done|]. rewrite Es. simplify_eq. done.
      * exists c0. by rewrite list_lookup_insert_ne.
    + destruct Hl as [->|[-> Hs]]; [by apply not_elem_of_nil in Hsub|]. apply list_elem_of_singleton in Hsub as ->.
      exists c'. unfold advance. fold c'. cbn [sub_id submission]. done.
  - intros j c0 Hj Hc0. unfold advance in Hj. fold c' in Hj. destruct (decide (i = j)) as [<-|Hn].
    + rewrite Hii in Hj. simplify_eq. destruct (Hw Hc0) as [Hk ->]. split; [done|].
      destruct Hl as [->|[-> Hs]]; [|apply elem_of_app; right; by left].
      rewrite app_nil_r in *. unfold admitted in *. cbn in Ea. rewrite !app_assoc in Ea.
      apply (f_equal length) in Ea. rewrite !length_app in Ea. simpl in Ea. lia.
    + rewrite list_lookup_insert_ne in Hj by done. destruct (I3 j c0 Hj Hc0). split; [done|]. apply elem_of_app. by left.
  - intros j c0 Hj Hk Hc0. unfold advance in Hj. fold c' in Hj. destruct (decide (i = j)) as [<-|Hn].
    + rewrite Hii in Hj. simplify_eq. by apply Hr.
    + rewrite list_lookup_insert_ne in Hj by done. eauto.
  - destruct Hq as [->|(-> & _ & Hl')]; [done|]. rewrite length_app. simpl. lia.
Qed.

Lemma sink_inv_new bufSize k c : sink_inv bufSize k -> c_status c <> CWaiting -> c_status c <> CReturned None ->
  sink_inv bufSize (with_calls k (k_queue k) (k_calls k ++ [c])).
Proof.
  intros [[I1 I2 I3 I4 I5 I6 I7 I8] J1 J2] Hw Hr. split; [split|done|done]; cbn [k_calls k_writes k_done k_queue k_failed with_calls]; try done.
  - intros sub Hsub. destruct (I2 sub Hsub) as (c0 & Hc0 & H). exists c0. split; [by apply lookup_app_l_Some|done].
  - intros i c0 [Hi|[_ H]]%lookup_app_Some; [eauto|]. apply list_lookup_singleton_Some in H as [_ <-]. done.
  - intros i c0 [Hi|[_ H]]%lookup_app_Some; [eauto|]. apply list_lookup_singleton_Some in H as [_ <-]. done.
Qed.

(** An answer of nil for a waiting call means that its record was in a completed write. *)
Lemma answer_durable bufSize k i c : sink_core bufSize k -> k_calls k !! i = Some c -> k_done k !! i = Some None ->
  exists b, (b, true) ∈ k_writes k /\ submission i c ∈ b.
Proof.
  intros [I1 I2 I3 I4 I5 I6 I7 I8] Hi Hd. destruct (I4 i None Hd) as (b & ok & sub & Hb & Hs & Ei & Ew).
  destruct ok; [|done]. exists b. split; [done|]. destruct (I2 sub) as (c0 & Hc0 & _ & Es).
  { unfold admitted. apply elem_of_app. left. apply list_elem_of_In, in_concat. exists b. split; [|by apply list_elem_of_In].
    apply in_map_iff. exists (b, true). split; [done|by apply list_elem_of_In]. }
  rewrite Ei in Hc0, Es. rewrite Hi in Hc0. injection Hc0 as <-. by rewrite <- Es.
Qed.

Lemma sink_inv_receive bufSize ok k : (0 < bufSize)%nat -> sink_inv bufSize k -> k_stopped k = false -> sink_inv bufSize (receive bufSize ok k).
Proof.
  intros Hb [I J1 J2] Hs. unfold receive. destruct (k_queue k) as [|s q] eqn:E; [by split|].
  match goal with |- context [flush ok ?x] => set (k1 := x) end.
  assert (sink_core bufSize k1) as I1.
  { eapply sink_core_writer; [exact I|done| | | | | |]; cbn [k1 k_done k_writes k_failed k_queue].
    - unfold admitted, k1. cbn. rewrite E. by rewrite <- app_assoc.
    - pose proof (si_queue _ _ I). rewrite E in *. simpl in *. lia.
    - exists []. by rewrite app_nil_r.
    - apply (si_failed _ _ I).
    - apply (si_done _ _ I).
    - apply (si_answered _ _ I). }
  destruct (Nat.leb_spec bufSize (length (k_batch k1))).
  - apply sink_inv_flush; [done|done|]. cbn [k1 k_stopped]. congruence.
  - split; [done|done|]. cbn [k1 k_stopped]. congruence.
Qed.

Lemma sink_inv_step bufSize k k' : (0 < bufSize)%nat -> sink_inv bufSize k -> sink_step bufSize k k' -> sink_inv bufSize k'.
Proof.
  intros Hb I Hstep. pose proof (si_core _ _ I) as Ic.
  destruct Hstep as [data kind e He|data kind Hc|i c Hi Hk Hs Hl|i c e Hi Hk Hs He|i c Hi Hk Hs|i c w Hi Hs Hd|i c Hi Hs|i c Hi Hs Hc
                    |ok Hs|ok Hs|ok Hs| |ok Hs Hc].
  - by apply sink_inv_new.
  - by apply sink_inv_new.
  - apply sink_inv_call; try done. by right.
  - apply sink_inv_call; try done. by left.
  - unfold send_completion. apply sink_inv_call; try done; [|congruence].
    destruct (Nat.ltb_spec (length (k_queue k)) bufSize); [by right|by left].
  - apply sink_inv_call; try done; [by left|]. intros [= ->] _. by eapply answer_durable.
  - apply sink_inv_call; try done. by left.
  - apply sink_inv_call; try done; [by left|]. unfold closed_answer. destruct (k_done k !! i) as [w|] eqn:E; [|done].
    intros [= ->] _. by eapply answer_durable.
  - by apply sink_inv_receive.
  - apply sink_inv_flush; [done|done|congruence].
  - apply sink_inv_flush; [done|by apply sink_core_drain|]. cbn. congruence.
  - destruct I as [[] J1 J2]. split; [by split|done|]. cbn. intros [_ H]%J2. done.
  - assert (sink_inv bufSize (flush ok (drain k))) as [[] J1 J2].
    { apply sink_inv_flush; [done|by apply sink_core_drain|done]. }
    destruct (flush_flags ok (drain k)) as [_ E]. split; [by split|done|]. cbn [stop k_stopped k_closed k_batch].
    rewrite E, flush_batch. done.
Qed.

Lemma sink_reachable_inv bufSize k : (0 < bufSize)%nat -> rtc (sink_step bufSize) sink_init k -> sink_inv bufSize k.
Proof.
  intros Hb H. apply (rtc_ind_r (R := sink_step bufSize) (sink_inv bufSize) sink_init); [| |exact H].
  - split; [split|done|done]; cbn; try done; try lia; try (intros; set_solver).
    apply NoDup_nil_2.
  - intros x y _ Hs I. by eapply sink_inv_step.
Qed.

Lemma sink_size_pos n : (0 < sink_size n)%nat.
Proof. unfold sink_size, defaultBufferSize. destruct (Z.leb_spec n 0); lia. Qed.

(** The bytes of one write. *)
Definition write_bytes (b : list bsSubmission) : gostring := concat (map sub_data b).

Lemma write_bytes_part b sub : sub ∈ b -> exists pre post, write_bytes b = pre ++ sub_data sub ++ post.
Proof.
  intros (l & r & ->)%list_elem_of_split. exists (write_bytes l), (write_bytes r). unfold write_bytes.
  by rewrite map_app, concat_app.
Qed.

(** C16: a decision record is acknowledged only when it is durable.  In every interleaving
    of callers, timers, flushes and close: if [Record] returned nil, the bytes of its
    record were a contiguous part of one completed write; no record is ever written or
    queued twice; a caller still waiting has its record in the queue or the batch, or
    its answer is available, so no wake-up is lost; the queue never exceeds the
    configured size and the batch stays below it; and the writer considers the sink
    unavailable exactly while its last write failed. *)
Theorem sink_ack_durable n k :
  rtc (sink_step (sink_size n)) sink_init k ->
  (forall i c, k_calls k !! i = Some c -> c_kind c = AuditRecordDecision -> c_status c = CReturned None ->
     exists b pre post, (b, true) ∈ k_writes k /\ submission i c ∈ b /\ write_bytes b = pre ++ c_data c ++ post) /\
  NoDup (map sub_id (admitted k)) /\
  (forall i c, k_calls k !! i = Some c -> c_status c = CWaiting ->
     submission i c ∈ k_batch k ++ k_queue k \/ is_Some (k_done k !! i)) /\
  (length (k_queue k) <= sink_size n)%nat /\ (length (k_batch k) < sink_size n)%nat /\
  k_failed k = last_failed (k_writes k).
Proof.
  intros [[I1 I2 I3 I4 I5 I6 I7 I8] J1 J2]%(sink_reachable_inv _ _ (sink_size_pos n)). split_and!; try done.
  - intros i c Hi Hk Hs. destruct (I6 i c Hi Hk Hs) as (b & Hb & Hsub).
    destruct (write_bytes_part b _ Hsub) as (pre & post & E). by exists b, pre, post.
  - intros i c Hi Hs. destruct (I3 i c Hi Hs) as [Hk Ha]. unfold admitted in Ha. apply elem_of_app in Ha as [Ha|Ha]; [|by left].
    right. apply list_elem_of_In, in_concat in Ha as (b & Hb & Hin). apply in_map_iff in Hb as ([b' ok] & [= ->] & Hb).
    apply (I5 b ok (submission i c)); [by apply list_elem_of_In..|done].
Qed.

(** A run: one decision is recorded, received, written and acknowledged. *)
Definition example_call : call := {| c_data := bs "{}" ++ [chr_lf]; c_kind := AuditRecordDecision; c_status := CSending |}.
Definition run_called : sink := with_calls sink_init (k_queue sink_init) (k_calls sink_init ++ [example_call]).
Definition run_sent : sink := with_calls run_called (k_queue run_called ++ [submission 0 example_call]) (advance run_called 0 example_call CWaiting).
Definition run_written : sink := flush true (receive 4 true run_sent).
Definition waiting_call : call := {| c_data := c_data example_call; c_kind := AuditRecordDecision; c_status := CWaiting |}.
Definition run_acked : sink := with_calls run_written (k_queue run_written) (advance run_written 0 waiting_call (CReturned None)).

Lemma example_run_steps : rtc (sink_step (sink_size 4)) sink_init run_acked.
Proof.
  eapply rtc_l; [by apply (step_call _ _ (c_data example_call) AuditRecordDecision)|].
  eapply rtc_l; [apply (step_send _ run_called 0 example_call); try done; vm_compute; lia|].
  eapply rtc_l; [by apply (step_receive _ run_sent true)|].
  eapply rtc_l; [by apply (step_tick _ (receive 4 true run_sent) true)|].
  apply rtc_once. by apply (step_done _ run_written 0 waiting_call None).
Qed.

Lemma sink_ack_durable_witness : exists b pre post,
  (b, true) ∈ k_writes run_acked /\ write_bytes b = pre ++ (bs "{}" ++ [chr_lf]) ++ post.
Proof.
  destruct (sink_ack_durable 4 run_acked example_run_steps) as [H _].
  destruct (H 0%nat {| c_data := c_data example_call; c_kind := AuditRecordDecision; c_status := CReturned None |} eq_refl eq_refl eq_refl)
    as (b & pre & post & Hb & _ & E). exists b, pre, post. split; [exact Hb|exact E].
Defined.
