(* ===== verification/StreamSink.v ===== *)
(** * [internal/audit/streamsink.go]: the audit stream

    The sink of the production process: one line of JSON per record, written under a lock.  [json.Marshal]
    is the class [JSON]; what the writer does with a line, how much of it reaches the stream and with which
    error, is an answer of the environment. *)

From S2P Require Import Prelude GoStrings GoRuntime Canonicalize Compile Match Credential Decision Stages Runner Metrics AuditRecord.
#[local] Open Scope Z_scope.

(** Marshalled values are compact and control characters in strings are escaped. *)
Class JSON := {
  marshal_record : auditRecord -> result error gostring;
  marshal_completion : completionRecord -> result error gostring;
  marshal_record_line : forall r b, marshal_record r = Ok b -> chr_lf ∉ b;
  marshal_completion_line : forall r b, marshal_completion r = Ok b -> chr_lf ∉ b
}.

Section Sink.
Context `{J : JSON} (format : Time -> gostring).

Definition ndjson (body : result error gostring) : result error gostring :=
  match body with Err e => Err e | Ok body => Ok (body ++ [chr_lf]) end.
Definition Encode (ev : AuditEvent) : result error gostring := ndjson (marshal_record (buildAuditRecord format ev)).
Definition EncodeCompletion (ev : AuditEvent) : result error gostring := ndjson (marshal_completion (completion_record format ev)).

Definition with_ts (ev : AuditEvent) (ts : Time) : AuditEvent := {|
  ev_Timestamp := ts; ev_RequestID := ev_RequestID ev; ev_Identity := ev_Identity ev; ev_Method := ev_Method ev; ev_Path := ev_Path ev;
  ev_Port := ev_Port ev; ev_Disposition := ev_Disposition ev; ev_DenyReason := ev_DenyReason ev; ev_Fault := ev_Fault ev;
  ev_FaultClass := ev_FaultClass ev; ev_PolicyVersion := ev_PolicyVersion ev; ev_RuleName := ev_RuleName ev;
  ev_CredentialID := ev_CredentialID ev; ev_CacheHit := ev_CacheHit ev; ev_Ambiguous := ev_Ambiguous ev;
  ev_PodNamespace := ev_PodNamespace ev; ev_PodName := ev_PodName ev; ev_PodUID := ev_PodUID ev;
  ev_AgentServiceAccount := ev_AgentServiceAccount ev; ev_Transport := ev_Transport ev; ev_ServiceUID := ev_ServiceUID ev;
  ev_ServiceGeneration := ev_ServiceGeneration ev; ev_EvaluatorVersion := ev_EvaluatorVersion ev;
  ev_CredentialProvider := ev_CredentialProvider ev; ev_CredentialResource := ev_CredentialResource ev;
  ev_CredentialScopes := ev_CredentialScopes ev; ev_CredentialExpiresAt := ev_CredentialExpiresAt ev; ev_Timings := ev_Timings ev;
  ev_CompletionStatus := ev_CompletionStatus ev; ev_CompletionBytes := ev_CompletionBytes ev; ev_CompletionDuration := ev_CompletionDuration ev
|}.

(** The sink: what its writer has taken.  The clock and the encoder of [NewStreamSink] are fixed. *)
Record StreamSink := { ss_written : gostring }.
Definition NewStreamSink : StreamSink := {| ss_written := [] |}.

(** [io.Writer]: the number of bytes written, and the error. *)
Definition written : Type := nat * option error.
(** The contract of [io.Writer]: never more than was given, and an error when less. *)
Definition honest (data : gostring) (w : written) : Prop := (w.1 <= length data)%nat /\ (w.2 = None -> w.1 = length data).

(** The section under the lock. *)
Definition write (data : gostring) (w : written) (s : StreamSink) : StreamSink * option error :=
  ({| ss_written := ss_written s ++ take w.1 data |}, w.2).

(** [now]: the clock, which is read when the event has no timestamp. *)
Definition withTimestamp (now : Time) (ev : AuditEvent) : AuditEvent := if IsZero (ev_Timestamp ev) then with_ts ev now else ev.

(** [encode] is [Encode] or [EncodeCompletion]. *)
Definition record_with (encode : AuditEvent -> result error gostring) (ctxErr : option error) (now : Time) (wr : gostring -> written)
    (ev : AuditEvent) (s : StreamSink) : StreamSink * option error :=
  match ctxErr with
  | Some e => (s, Some e)
  | None =>
      match encode (withTimestamp now ev) with
      | Err e => (s, Some e)
      | Ok data => write data (wr data) s
      end
  end.
Definition Record_ := record_with Encode.
Definition RecordCompletion := record_with EncodeCompletion.

(** ** The stream as its readers see it *)

(** One call, in the order in which the lock was taken. *)
Record call := { sc_completion : bool; sc_ctxErr : option error; sc_now : Time; sc_write : gostring -> written; sc_event : AuditEvent }.
Definition sc_run (c : call) (s : StreamSink) : StreamSink * option error :=
  (if sc_completion c then RecordCompletion else Record_) (sc_ctxErr c) (sc_now c) (sc_write c) (sc_event c) s.
Definition sc_body (c : call) : result error gostring :=
  let ev := withTimestamp (sc_now c) (sc_event c) in
  if sc_completion c then marshal_completion (completion_record format ev) else marshal_record (buildAuditRecord format ev).

(** The state after the calls and the bodies of those that returned no error. *)
Fixpoint run_calls (cs : list call) (s : StreamSink) : StreamSink * list gostring :=
  match cs with
  | [] => (s, [])
  | c :: cs =>
      let '(s, err) := sc_run c s in
      let '(s', acked) := run_calls cs s in
      (s', match err, sc_body c with None, Ok body => body :: acked | _, _ => acked end)
  end.

(** A call as it runs: an error before the write, or a write of its line. *)
Lemma sc_run_cases c s :
  (exists e, sc_run c s = (s, Some e)) \/
  exists body, sc_body c = Ok body /\ chr_lf ∉ body /\ sc_run c s = write (body ++ [chr_lf]) (sc_write c (body ++ [chr_lf])) s.
Proof.
  unfold sc_run, sc_body, RecordCompletion, Record_, record_with. destruct (sc_completion c), (sc_ctxErr c) as [e|]; try (left; by exists e).
  - unfold EncodeCompletion. destruct (marshal_completion _) as [body|e] eqn:E; [|left; by exists e]. right. exists body.
    split_and!; try done. by eapply marshal_completion_line.
  - unfold Encode. destruct (marshal_record _) as [body|e] eqn:E; [|left; by exists e]. right. exists body.
    split_and!; try done. by eapply marshal_record_line.
Qed.

Lemma write_acked data w s s' : honest data w -> write data w s = (s', None) -> ss_written s' = ss_written s ++ data.
Proof. intros [_ Hn]. destruct w as [n err]. unfold write. intros [= <- ->]. cbn in Hn |- *. by rewrite Hn, firstn_all. Qed.

Lemma sc_run_grows c s : ss_written s `prefix_of` ss_written (sc_run c s).1.
Proof. destruct (sc_run_cases c s) as [[e ->]|(body & _ & _ & ->)]; [done|]. by eexists. Qed.
Lemma run_calls_grows cs : forall s, ss_written s `prefix_of` ss_written (run_calls cs s).1.
Proof.
  induction cs as [|c cs IH]; intros s; [done|]. cbn [run_calls]. pose proof (sc_run_grows c s) as H. destruct (sc_run c s) as [s1 err].
  pose proof (IH s1) as H1. destruct (run_calls cs s1) as [s2 acked]. cbn in *. by etrans.
Qed.

(** The lines [l], each ended. *)
Definition lines (l : list gostring) : gostring := concat (map (fun b => b ++ [chr_lf]) l).
Lemma lines_Join l : lines l = Join (l ++ [[]]) chr_lf.
Proof.
  unfold lines. induction l as [|b [|b' l] IH]; [done|cbn; by rewrite app_nil_r|].
  change (map _ (b :: b' :: l)) with ((b ++ [chr_lf]) :: map (fun b => b ++ [chr_lf]) (b' :: l)). cbn [concat]. rewrite IH.
  cbn [app Join]. by rewrite <- app_assoc.
Qed.
Lemma Split_lines l : Forall (fun b => chr_lf ∉ b) l -> Split (lines l) chr_lf = l ++ [[]].
Proof.
  intros Hl. rewrite lines_Join. assert (Forall (fun b => chr_lf ∉ b) (l ++ [[]])) as H by (apply Forall_app; by repeat constructor; [|apply not_elem_of_nil]).
  destruct (l ++ [[]]) as [|x r] eqn:E; [by destruct l|]. by apply Split_Join.
Qed.

(** An acknowledged record is in the stream, whole and ended, whatever the other writes did. *)
Lemma acked_in_stream cs s : Forall (fun c => forall data, honest data (sc_write c data)) cs ->
  forall body, body ∈ (run_calls cs s).2 -> exists before after, ss_written (run_calls cs s).1 = before ++ body ++ chr_lf :: after.
Proof.
  revert s. induction cs as [|c cs IH]; intros s Hh body; [by intros ?%not_elem_of_nil|]. apply Forall_cons in Hh as [Hc Hh]. cbn [run_calls].
  destruct (sc_run c s) as [s1 err] eqn:Er. pose proof (run_calls_grows cs s1) as Hg. specialize (IH s1 Hh body).
  destruct (run_calls cs s1) as [s2 acked]. cbn [fst snd] in *. intros Hin.
  assert (body ∈ acked \/ err = None /\ sc_body c = Ok body) as [?|[-> Hb]]; [|by apply IH|].
  { destruct err; [by left|]. destruct (sc_body c) as [b|]; [|by left]. apply elem_of_cons in Hin as [-> |?]; auto. }
  destruct (sc_run_cases c s) as [[e He]|(b & Hb' & _ & Hw)]; [congruence|]. rewrite Hb in Hb'. injection Hb' as <-.
  rewrite Er in Hw. symmetry in Hw. apply write_acked in Hw; [|apply Hc]. destruct Hg as [after ->]. rewrite Hw.
  exists (ss_written s), after. by rewrite <- !app_assoc.
Qed.

(** No write stops in the middle of a line. *)
Definition untorn (c : call) : Prop := forall data, honest data (sc_write c data) /\ ((sc_write c data).2 <> None -> (sc_write c data).1 = 0%nat).

Lemma run_calls_lines cs s : Forall untorn cs ->
  ss_written (run_calls cs s).1 = ss_written s ++ lines (run_calls cs s).2 /\ Forall (fun b => chr_lf ∉ b) (run_calls cs s).2.
Proof.
  revert s. induction cs as [|c cs IH]; intros s Hh; [cbn; by rewrite app_nil_r|]. apply Forall_cons in Hh as [Hc Hh]. cbn [run_calls].
  destruct (sc_run c s) as [s1 err] eqn:Er. specialize (IH s1 Hh). destruct (run_calls cs s1) as [s2 acked]. cbn [fst snd] in *.
  destruct IH as [IH1 IH2]. destruct (sc_run_cases c s) as [[e He]|(b & Hb & Hlf & Hw)].
  - rewrite Er in He. injection He as -> ->. done.
  - rewrite Er in Hw. symmetry in Hw. rewrite Hb. destruct (Hc (b ++ [chr_lf])) as [Hho Hun]. destruct err as [e|].
    + unfold write in Hw. injection Hw as <- Hw. rewrite Hun in IH1 by congruence. cbn in IH1. rewrite app_nil_r in IH1. done.
    + apply write_acked in Hw; [|done]. split; [|by constructor]. rewrite IH1, Hw. unfold lines. cbn [map concat]. by rewrite <- app_assoc.
Qed.

(** The stream is a sequence of records.  Whatever the records hold and in whatever order concurrent
    callers take the lock, as long as no write stops in the middle of a line the
    lines of the stream are exactly the bodies of the acknowledged records, one each, in that order. *)
Theorem stream_is_ndjson cs : Forall untorn cs ->
  let '(s, acked) := run_calls cs NewStreamSink in Split (ss_written s) chr_lf = acked ++ [[]].
Proof.
  intros Hh. pose proof (run_calls_lines cs NewStreamSink Hh) as [H1 H2]. destruct (run_calls cs NewStreamSink) as [s acked].
  cbn [fst snd] in *. rewrite H1. cbn [ss_written NewStreamSink app]. by apply Split_lines.
Qed.
End Sink.

(** ** A torn line *)

(** Bodies without quoting: the request id. *)
Definition plain (s : gostring) : gostring := List.filter (fun c => negb (ascii_eqb c chr_lf)) s.
Lemma plain_line s : chr_lf ∉ plain s.
Proof. intros [_ H]%list_elem_of_In%filter_In. by vm_compute in H. Qed.
#[program] Definition plain_json : JSON :=
  {| marshal_record r := Ok (plain (r_RequestID r)); marshal_completion r := Ok (plain (cr_RequestID r)) |}.
Next Obligation. intros r b [= <-]. apply plain_line. Qed.
Next Obligation. intros r b [= <-]. apply plain_line. Qed.

Definition plain_call (id : gostring) (wr : gostring -> written) : call :=
  {| sc_completion := false; sc_ctxErr := None; sc_now := 5; sc_write := wr;
     sc_event := rejectionAuditEvent 0 {| rj_Class := []; rj_Reason := ReasonInternal; rj_Bound := []; rj_Fault := true; rj_RequestID := id;
       rj_ConnID := []; rj_Port := 0; rj_Method := []; rj_Path := [] |} |}.
Definition whole (data : gostring) : written := (length data, None).
Definition torn (data : gostring) : written := (2%nat, Some (Errorf "no space left on device")).
Definition refused (data : gostring) : written := (0%nat, Some (Errorf "broken pipe")).

Lemma stream_is_ndjson_witness :
  let '(s, acked) := run_calls (J := plain_json) (fun _ => []) [plain_call "r1" whole; plain_call "r2" refused; plain_call "r3" whole] NewStreamSink in
  acked = [bs "r1"; bs "r3"] /\ Split (ss_written s) chr_lf = acked ++ [[]].
Proof.
  pose proof (stream_is_ndjson (J := plain_json) (fun _ => []) [plain_call "r1" whole; plain_call "r2" refused; plain_call "r3" whole]) as H.
  destruct (run_calls _ _ _) as [s acked] eqn:E. split.
  - apply (f_equal snd) in E. vm_compute in E. rewrite <- E. reflexivity.
  - apply H. repeat constructor; cbn; try done; try lia.
Defined.

(** After a write that stopped in the middle of a line the next record is appended to the stump: its call
    returns no error, but no line of the stream is its body. *)
Lemma torn_line_swallows_next :
  let '(s, acked) := run_calls (J := plain_json) (fun _ => []) [plain_call "r1" torn; plain_call "r2" whole] NewStreamSink in
  acked = [bs "r2"] /\ Split (ss_written s) chr_lf = [bs "r1r2"; []].
Proof. vm_compute. done. Qed.
