(* ===== verification/Prom.v ===== *)
(** * [internal/audit/prom.go]: the Prometheus recorder

    The remaining label enumerations ([labels_slice2.go], [labels_slice6.go]), the collectors and their
    registration, and every call of the recorder as a change of the exposed series.  A series is a
    family and the values of its labels; the enumerations are Go integers, and any integer has a label.  The number
    kept with a series is how often it was incremented or observed, or for a gauge the value set (for
    durations in nanoseconds); the buckets of histograms are not modelled. *)

From S2P Require Import Prelude GoStrings GoRuntime Credential Decision Metrics.
#[local] Open Scope Z_scope.

(** ** Labels *)

(** The label of constant number [i] of an enumeration, the default for any other integer. *)
Definition enum_label (labels : list gostring) (other : gostring) (i : Z) : gostring :=
  if i <? 0 then other else default other (labels !! Z.to_nat i).

Definition providers : list gostring := [bs "unknown"; bs "entra"].
Definition ProviderID_String : Z -> gostring := enum_label providers "unknown".
Definition results : list gostring := [bs "unknown"; bs "success"; bs "failure"].
Definition Result_String : Z -> gostring := enum_label results "unknown".
Definition UpstreamResult_String : Z -> gostring := enum_label results "unknown".
Definition error_classes : list gostring := [bs "none"; bs "transient"; bs "permanent"; bs "local"].
Definition AcquireErrorClass_String : Z -> gostring := enum_label error_classes "none".
Definition webhooks : list gostring := [bs "unknown"; bs "mutate"; bs "validate"].
Definition WebhookName_String : Z -> gostring := enum_label webhooks "unknown".
Definition admission_labels : list gostring := [bs "unknown"; bs "allowed"; bs "denied"; bs "errored"].
Definition AdmissionResult_String : Z -> gostring := enum_label admission_labels "unknown".
Definition admission_rules : list gostring :=
  [bs "unknown"; bs "run_as_user"; bs "container_order"; bs "canonical_shape"; bs "capabilities"; bs "process_namespace"; bs "host_network";
   bs "service_account_token"; bs "credential_mounts"; bs "host_users"; bs "istio_sidecar"; bs "ca_trust_read_only"].
Definition AdmissionRule_String : Z -> gostring := enum_label admission_rules "unknown".
Definition configurations : list gostring := [bs "unknown"; bs "mutating"; bs "validating"].
Definition WebhookConfigName_String : Z -> gostring := enum_label configurations "unknown".
Definition patch_results : list gostring := [bs "unknown"; bs "success"; bs "error"].
Definition PatchResult_String : Z -> gostring := enum_label patch_results "unknown".
Definition breaker_states : list gostring := [bs "closed"; bs "open"; bs "half_open"].
Definition BreakerState_String : Z -> gostring := enum_label breaker_states "closed".

(** [Disposition.String]: integers without a name are printed. *)
Definition Disposition_String (d : Disposition) : gostring :=
  match d with
  | DispositionInvalid => "invalid"
  | DispositionAllow => "allow"
  | DispositionDeny => "deny"
  | DispositionPending => "pending"
  | DispositionOther n => bs "disposition(" ++ bs (pretty n) ++ bs ")"
  end.
Definition boolLabel (b : bool) : gostring := if b then "true" else "false".

(** ** The version label *)

(** The bytes of the first rune: one for ASCII and for a byte that begins no valid encoding. *)
Definition cont (lo hi : Z) (o : option ascii) : bool := match o with Some c => (lo <=? code c) && (code c <=? hi) | None => false end.
Definition rune_width (s : gostring) : nat :=
  match s with
  | [] => 0
  | c :: _ =>
      let b := code c in
      let tail lo hi n := cont lo hi (s !! 1%nat) && forallb (fun i => cont 128 191 (s !! i)) (seq 2 (n - 2)) in
      if (194 <=? b) && (b <=? 223) && tail 128 191 2%nat then 2
      else if (b =? 224) && tail 160 191 3%nat then 3
      else if (((225 <=? b) && (b <=? 236)) || (b =? 238) || (b =? 239)) && tail 128 191 3%nat then 3
      else if (b =? 237) && tail 128 159 3%nat then 3
      else if (b =? 240) && tail 144 191 4%nat then 4
      else if (241 <=? b) && (b <=? 243) && tail 128 191 4%nat then 4
      else if (b =? 244) && tail 128 143 4%nat then 4
      else 1
  end.

(** [strings.Map] with the function of [sanitiseVersionLabel]; [skip] bytes belong to the rune before. *)
Fixpoint map_printable (skip : nat) (s : gostring) : gostring :=
  match s with
  | [] => []
  | c :: s' =>
      match skip with
      | S k => map_printable k s'
      | O => (if (32 <=? code c) && (code c <? 127) then c else "_"%char) :: map_printable (pred (rune_width s)) s'
      end
  end.
Definition maxLen : nat := 64.
Definition sanitiseVersionLabel (v : gostring) : gostring := map_printable 0 (if (maxLen <? length v)%nat then take maxLen v else v).

(** ** Families *)

Inductive family :=
| F_decisions | F_stageDuration | F_snapshotAge | F_snapshotVersion | F_policyCompileFailures | F_transportReject | F_leafCacheHits | F_leafCacheMisses
| F_auditRecords | F_auditWriteDuration | F_auditUnavailable | F_caExpiry | F_tokenAcquisitions | F_tokenAcquisitionDuration | F_tokenCacheHits
| F_tokenCacheMisses | F_tokenCacheEvictions | F_tokenRefreshFailures | F_tokenBreakerState | F_upstreamRequests | F_admissionRequests
| F_admissionDuration | F_admissionRejections | F_injectorCertExpiry | F_admissionPatchBytes | F_cabundlePatch | F_webhookTLSErrors | F_proxyCgroupResErrors.
#[global] Instance family_eq_dec : EqDecision family.
Proof. solve_decision. Defined.

Definition collectors : list family :=
  [F_decisions; F_stageDuration; F_snapshotAge; F_snapshotVersion; F_policyCompileFailures; F_transportReject; F_leafCacheHits; F_leafCacheMisses;
   F_auditRecords; F_auditWriteDuration; F_auditUnavailable; F_caExpiry; F_tokenAcquisitions; F_tokenAcquisitionDuration; F_tokenCacheHits;
   F_tokenCacheMisses; F_tokenCacheEvictions; F_tokenRefreshFailures; F_tokenBreakerState; F_upstreamRequests; F_admissionRequests;
   F_admissionDuration; F_admissionRejections; F_injectorCertExpiry; F_admissionPatchBytes; F_cabundlePatch; F_webhookTLSErrors; F_proxyCgroupResErrors].

Definition family_name (f : family) : gostring :=
  match f with
  | F_decisions => "aksh_decisions_total"
  | F_stageDuration => "aksh_decision_duration_seconds"
  | F_snapshotAge => "aksh_policy_snapshot_age_seconds"
  | F_snapshotVersion => "aksh_policy_snapshot_version_info"
  | F_policyCompileFailures => "aksh_policy_compile_failures_total"
  | F_transportReject => "aksh_transport_reject_total"
  | F_leafCacheHits => "aksh_leaf_cache_hits_total"
  | F_leafCacheMisses => "aksh_leaf_cache_misses_total"
  | F_auditRecords => "aksh_audit_records_total"
  | F_auditWriteDuration => "aksh_audit_write_duration_seconds"
  | F_auditUnavailable => "aksh_audit_unavailable"
  | F_caExpiry => "aksh_ca_expiry_seconds"
  | F_tokenAcquisitions => "aksh_token_acquisitions_total"
  | F_tokenAcquisitionDuration => "aksh_token_acquisition_duration_seconds"
  | F_tokenCacheHits => "aksh_token_cache_hits_total"
  | F_tokenCacheMisses => "aksh_token_cache_misses_total"
  | F_tokenCacheEvictions => "aksh_token_cache_evictions_total"
  | F_tokenRefreshFailures => "aksh_token_refresh_failures_total"
  | F_tokenBreakerState => "aksh_token_breaker_state"
  | F_upstreamRequests => "aksh_upstream_requests_total"
  | F_admissionRequests => "aksh_admission_requests_total"
  | F_admissionDuration => "aksh_admission_duration_seconds"
  | F_admissionRejections => "aksh_admission_rejections_total"
  | F_injectorCertExpiry => "aksh_injector_cert_expiry_seconds"
  | F_admissionPatchBytes => "aksh_admission_patch_bytes"
  | F_cabundlePatch => "aksh_webhook_cabundle_patch_total"
  | F_webhookTLSErrors => "aksh_webhook_tls_errors_total"
  | F_proxyCgroupResErrors => "aksh_proxy_cgroup_resolution_errors_total"
  end.

(** ** Registration *)

(** A registry, as the set of names registered; a name can be registered once. *)
Definition Register (reg : gset gostring) (f : family) : option (gset gostring) :=
  if bool_decide (family_name f ∈ reg) then None else Some ({[family_name f]} ∪ reg).
Definition Unregister (reg : gset gostring) (f : family) : gset gostring := reg ∖ {[family_name f]}.

(** The loop, with the rollback of what was registered before a failure; [false] is an error. *)
Fixpoint register_all (reg : gset gostring) (registered : list family) (cs : list family) : gset gostring * bool :=
  match cs with
  | [] => (reg, true)
  | c :: cs =>
      match Register reg c with
      | None => (fold_left Unregister registered reg, false)
      | Some reg => register_all reg (registered ++ [c]) cs
      end
  end.
Inductive recorder_error := ErrNilRegistry | AlreadyRegistered.
Definition NewPromMetricsRecorder (reg : option (gset gostring)) : option (gset gostring) * option recorder_error :=
  match reg with
  | None => (None, Some ErrNilRegistry)
  | Some reg => let '(reg, ok) := register_all reg [] collectors in (Some reg, if ok then None else Some AlreadyRegistered)
  end.

(** ** Calls *)

Inductive call :=
| Decisions (d : Disposition) (r : DenyReason) (t : TransportKind) (fault : bool)
| StageDuration (s : StageName) (d : Duration)
| TransportReject (c : MetricRejectClass) (b : BoundName)
| LeafCacheHit | LeafCacheMiss
| AuditRecord (k : AuditRecordKind) | AuditWriteDuration (d : Duration) | AuditUnavailable (unavailable : bool)
| SnapshotAge (d : Duration) | SnapshotVersion (version : gostring) | PolicyCompileFailure | CAExpiry (d : Duration)
| TokenAcquisition (provider result class : Z) | TokenAcquisitionDuration (provider : Z) (d : Duration)
| TokenCacheHit (provider : Z) | TokenCacheMiss (provider : Z)
| TokenCacheEviction (provider : Z) (credential : gostring) | TokenRefreshFailure (provider : Z) (credential : gostring)
| TokenBreakerState (provider : Z) (credential : gostring) (state : Z)
| UpstreamRequest (result : Z)
| AdmissionRequest (webhook result : Z) | AdmissionDuration (webhook : Z) (d : Duration) | AdmissionRejection (rule : Z)
| InjectorCertExpiry (d : Duration) | AdmissionPatchBytes (n : Z) | CABundlePatch (config result : Z)
| WebhookTLSError | ProxyCgroupResolutionError.

Notation series := (family * list gostring)%type.
Definition recorder := list (series * Z).

(** [WithLabelValues(...)] and a change of its value: a new series starts at zero. *)
Fixpoint touch (s : series) (f : Z -> Z) (r : recorder) : recorder :=
  match r with
  | [] => [(s, f 0)]
  | (s', v) :: r => if bool_decide (s' = s) then (s, f v) :: r else (s', v) :: touch s f r
  end.
Definition inc (f : family) (labels : list gostring) : recorder -> recorder := touch (f, labels) (Z.add 1).
Definition set_to (f : family) (labels : list gostring) (v : Z) : recorder -> recorder := touch (f, labels) (fun _ => v).
(** [GaugeVec.Reset]. *)
Definition reset (f : family) (r : recorder) : recorder := List.filter (fun x => negb (bool_decide (fst (fst x) = f))) r.

Definition record (c : call) (r : recorder) : recorder :=
  match c with
  | Decisions d rs t fault => inc F_decisions [Disposition_String d; DenyReason_String rs; boolLabel fault; TransportKind_String t] r
  | StageDuration s _ => inc F_stageDuration [StageName_String s] r
  | TransportReject c b => inc F_transportReject [MetricRejectClass_String c; BoundName_String b] r
  | LeafCacheHit => inc F_leafCacheHits [] r
  | LeafCacheMiss => inc F_leafCacheMisses [] r
  | AuditRecord k => inc F_auditRecords [AuditRecordKind_String k] r
  | AuditWriteDuration _ => inc F_auditWriteDuration [] r
  | AuditUnavailable b => set_to F_auditUnavailable [] (if b then 1 else 0) r
  | SnapshotAge d => set_to F_snapshotAge [] d r
  | SnapshotVersion v => set_to F_snapshotVersion [sanitiseVersionLabel v] 1 (reset F_snapshotVersion r)
  | PolicyCompileFailure => inc F_policyCompileFailures [] r
  | CAExpiry d => set_to F_caExpiry [] d r
  | TokenAcquisition p x c => inc F_tokenAcquisitions [ProviderID_String p; Result_String x; AcquireErrorClass_String c] r
  | TokenAcquisitionDuration p _ => inc F_tokenAcquisitionDuration [ProviderID_String p] r
  | TokenCacheHit p => inc F_tokenCacheHits [ProviderID_String p] r
  | TokenCacheMiss p => inc F_tokenCacheMisses [ProviderID_String p] r
  | TokenCacheEviction p c => inc F_tokenCacheEvictions [ProviderID_String p; c] r
  | TokenRefreshFailure p c => inc F_tokenRefreshFailures [ProviderID_String p; c] r
  | TokenBreakerState p c s => set_to F_tokenBreakerState [ProviderID_String p; c] s r
  | UpstreamRequest x => inc F_upstreamRequests [UpstreamResult_String x] r
  | AdmissionRequest w x => inc F_admissionRequests [WebhookName_String w; AdmissionResult_String x] r
  | AdmissionDuration w _ => inc F_admissionDuration [WebhookName_String w] r
  | AdmissionRejection x => inc F_admissionRejections [AdmissionRule_String x] r
  | InjectorCertExpiry d => set_to F_injectorCertExpiry [] d r
  | AdmissionPatchBytes _ => inc F_admissionPatchBytes [] r
  | CABundlePatch c x => inc F_cabundlePatch [WebhookConfigName_String c; PatchResult_String x] r
  | WebhookTLSError => inc F_webhookTLSErrors [] r
  | ProxyCgroupResolutionError => inc F_proxyCgroupResErrors [] r
  end.

(** A family without labels has its series from the start. *)
Definition unlabelled : list family :=
  [F_snapshotAge; F_policyCompileFailures; F_leafCacheHits; F_leafCacheMisses; F_auditWriteDuration; F_auditUnavailable; F_caExpiry; F_injectorCertExpiry;
   F_admissionPatchBytes; F_webhookTLSErrors; F_proxyCgroupResErrors].
Definition new_recorder : recorder := map (fun f => ((f, []), 0)) unlabelled.
Definition record_all (calls : list call) : recorder := fold_left (fun r c => record c r) calls new_recorder.

(** ** The label sets *)

Definition dispositions : list gostring := [bs "invalid"; bs "allow"; bs "deny"; bs "pending"].
Definition stages : list gostring := map StageName_String
  [StageUnknown; StageSanitise; StageIdentity; StageMatch; StageAcquire; StageInject; StageAcceptDispatch; StageTLSConfigBuild; StageLeafMint; StageUpstreamDial; StageResolve].
Definition classes : list gostring := map MetricRejectClass_String
  [RejectClassNone; RejectClassNoOriginalDst; RejectClassLoopGuard; RejectClassNoSNI; RejectClassHandshake; RejectClassUnsupportedProtocol;
   RejectClassIdentityMismatch; RejectClassResourceLimit; RejectClassPlaintextUnresolvable; RejectClassPlaintextRegistryUnavail].
Definition bounds : list gostring := map BoundName_String
  [BoundNone; BoundMaxInflightRequests; BoundPipelining; BoundMaxHeaderBytes; BoundRequestHeaderReadTimeout; BoundHandover; BoundMaxResponseBody; BoundHandshakeRate].

(** The values each label of a family can have, given the credentials seen. *)
Definition alphabets (creds : list gostring) (f : family) : list (list gostring) :=
  match f with
  | F_decisions => [dispositions; map DenyReason_String all_reasons; [bs "true"; bs "false"]; [bs "tls"; bs "plaintext"]]
  | F_stageDuration => [stages]
  | F_transportReject => [classes; bounds]
  | F_auditRecords => [[bs "decision"; bs "completion"]]
  | F_tokenAcquisitions => [providers; results; error_classes]
  | F_tokenAcquisitionDuration | F_tokenCacheHits | F_tokenCacheMisses => [providers]
  | F_tokenCacheEvictions | F_tokenRefreshFailures | F_tokenBreakerState => [providers; creds]
  | F_upstreamRequests => [results]
  | F_admissionRequests => [webhooks; admission_labels]
  | F_admissionDuration => [webhooks]
  | F_admissionRejections => [admission_rules]
  | F_cabundlePatch => [configurations; patch_results]
  | _ => []
  end.

Definition printable (s : gostring) : Prop := Forall (fun c => 32 <= code c < 127) s.
(** A series with labels from the sets, or the version with its one bounded label. *)
Definition in_vocabulary (creds : list gostring) (s : series) : Prop :=
  if decide (s.1 = F_snapshotVersion) then exists v, s.2 = [v] /\ (length v <= 64)%nat /\ printable v
  else Forall2 (fun l al => l ∈ al) s.2 (alphabets creds s.1).

(** The credential of a call. *)
Definition credential (c : call) : option gostring :=
  match c with TokenCacheEviction _ x | TokenRefreshFailure _ x | TokenBreakerState _ x _ => Some x | _ => None end.
Definition credentials (calls : list call) : list gostring := remove_dups (omap credential calls).
(** A disposition with a name. *)
Definition named_disposition (c : call) : Prop := match c with Decisions (DispositionOther _) _ _ _ => False | _ => True end.

Lemma enum_label_in labels other i : other ∈ labels -> enum_label labels other i ∈ labels.
Proof.
  intros Ho. unfold enum_label. destruct (i <? 0); [done|]. destruct (labels !! Z.to_nat i) eqn:E; [|done]. cbn. by eapply list_elem_of_lookup_2.
Qed.

Lemma map_printable_ok skip s : (length (map_printable skip s) <= length s)%nat /\ printable (map_printable skip s).
Proof.
  revert skip. induction s as [|c s IH]; intros skip; [split; [done|constructor]|]. destruct skip as [|k]; cbn [map_printable].
  - destruct (IH (pred (rune_width (c :: s)))) as [H1 H2]. split; [cbn [length]; lia|]. constructor; [|done].
    destruct (Z.leb_spec 32 (code c)), (Z.ltb_spec (code c) 127); cbn [andb]; try lia; by vm_compute.
  - destruct (IH k) as [H1 H2]. split; [cbn [length]; lia|done].
Qed.
Lemma sanitiseVersionLabel_ok v : (length (sanitiseVersionLabel v) <= 64)%nat /\ printable (sanitiseVersionLabel v).
Proof.
  unfold sanitiseVersionLabel. destruct (map_printable_ok 0 (if (maxLen <? length v)%nat then take maxLen v else v)) as [H1 H2]. split; [|done].
  revert H1. destruct (Nat.ltb_spec maxLen (length v)); [rewrite length_take|]; unfold maxLen in *; lia.
Qed.

(** ** One call *)

Lemma touch_keys s f r : forall k, k ∈ (touch s f r).*1 <-> k = s \/ k ∈ r.*1.
Proof.
  induction r as [|[s' v] r IH]; intros k; cbn [touch]; [rewrite fmap_cons, elem_of_cons; cbn; set_solver|]. case_bool_decide as E.
  - subst s'. rewrite !fmap_cons, !elem_of_cons. cbn. tauto.
  - rewrite !fmap_cons, !elem_of_cons, IH. cbn. tauto.
Qed.
Lemma touch_nodup s f r : NoDup r.*1 -> NoDup (touch s f r).*1.
Proof.
  induction r as [|[s' v] r IH]; cbn [touch]; intros Hn; [apply NoDup_singleton|]. rewrite fmap_cons in Hn. apply NoDup_cons in Hn as [Hs Hn]. case_bool_decide as E.
  - subst s'. by constructor.
  - rewrite fmap_cons. constructor; [|by apply IH]. cbn. rewrite touch_keys. cbn in Hs. by intros [?|?].
Qed.
Lemma reset_keys f r k : k ∈ (reset f r).*1 <-> k ∈ r.*1 /\ k.1 <> f.
Proof.
  unfold reset. rewrite !list_elem_of_fmap. split.
  - intros (x & -> & Hx). apply list_elem_of_In, List.filter_In in Hx as [Hx Hf]. apply list_elem_of_In in Hx. apply negb_true_iff, bool_decide_eq_false in Hf.
    split; [by exists x|done].
  - intros [(x & -> & Hx) Hf]. exists x. split; [done|]. apply list_elem_of_In, List.filter_In. split; [by apply list_elem_of_In|].
    apply negb_true_iff, bool_decide_eq_false. done.
Qed.
Lemma reset_nodup f r : NoDup r.*1 -> NoDup (reset f r).*1.
Proof.
  unfold reset. induction r as [|x r IH]; [done|]. rewrite fmap_cons. intros [Hx Hn]%NoDup_cons. cbn [List.filter]. destruct (negb _); [|by apply IH].
  rewrite fmap_cons. constructor; [|by apply IH]. intros Hin. apply Hx. by apply (reset_keys f r).
Qed.

(** The series a call writes. *)
Definition written_series (c : call) : series :=
  match record c [] with [(s, _)] => s | _ => (F_decisions, []) end.

Lemma record_keys c r k : k ∈ (record c r).*1 -> k = written_series c \/ (k ∈ r.*1 /\ (k.1 = F_snapshotVersion -> (written_series c).1 <> F_snapshotVersion)).
Proof.
  destruct c; unfold written_series; cbn [record inc set_to touch reset List.filter]; unfold inc, set_to; rewrite touch_keys, ?reset_keys;
    (intros [->|Hk]; [by left|right]); first [by destruct Hk|by split].
Qed.
Lemma record_nodup c r : NoDup r.*1 -> NoDup (record c r).*1.
Proof. intros Hn. destruct c; cbn [record]; unfold inc, set_to; apply touch_nodup; try done. by apply reset_nodup. Qed.

Lemma written_ok creds c : named_disposition c -> (forall x, credential c = Some x -> x ∈ creds) -> in_vocabulary creds (written_series c).
Proof.
  intros Hd Hc. destruct c; unfold written_series, in_vocabulary; cbn [record inc set_to touch reset List.filter fst snd] in *; try (rewrite decide_False by done);
    cbn [alphabets]; try (repeat first [apply Forall2_nil|apply Forall2_cons; split]; first [by apply enum_label_in; set_solver|by apply Hc|idtac]).
  all: try done.
  - destruct d; try done; set_solver.
  - apply list_elem_of_In, in_map, list_elem_of_In. destruct r; set_solver.
  - destruct fault; set_solver.
  - destruct t; set_solver.
  - apply list_elem_of_In, in_map, list_elem_of_In. destruct s; set_solver.
  - apply list_elem_of_In, in_map, list_elem_of_In. destruct c; set_solver.
  - apply list_elem_of_In, in_map, list_elem_of_In. destruct b; set_solver.
  - destruct k; set_solver.
  - rewrite decide_True by done. exists (sanitiseVersionLabel version). split; [done|]. apply sanitiseVersionLabel_ok.
Qed.

(** ** Counting *)

Fixpoint product (als : list (list gostring)) : list (list gostring) :=
  match als with [] => [[]] | al :: als => concat (map (fun x => map (cons x) (product als)) al) end.

Lemma product_in als : forall ls, Forall2 (fun l al => l ∈ al) ls als -> ls ∈ product als.
Proof.
  induction als as [|al als IH]; intros ls H; inversion H as [|l ? ls' ? Hl Hls]; subst; cbn [product]; [by apply list_elem_of_singleton|].
  apply list_elem_of_In, in_concat. exists (map (cons l) (product als)). split.
  - apply in_map_iff. exists l. split; [done|]. by apply list_elem_of_In.
  - apply in_map, list_elem_of_In. by apply IH.
Qed.
Lemma product_length als : length (product als) = fold_right (fun al n => (length al * n)%nat) 1%nat als.
Proof.
  induction als as [|al als IH]; cbn [product fold_right]; [done|]. rewrite <- IH. clear IH. induction al as [|x al IH]; [done|].
  cbn [map concat]. rewrite length_app, length_map, IH. cbn [length]. lia.
Qed.

(** Every series outside the version family. *)
Definition universe (creds : list gostring) : list series := concat (map (fun f => map (pair f) (product (alphabets creds f))) (List.filter (fun f => negb (bool_decide (f = F_snapshotVersion))) collectors)).

Lemma universe_in creds (s : series) : s.1 <> F_snapshotVersion -> in_vocabulary creds s -> s ∈ universe creds.
Proof.
  destruct s as [f ls]. unfold in_vocabulary. cbn [fst snd]. intros Hf. rewrite decide_False by done. intros H. apply list_elem_of_In, in_concat.
  exists (map (pair f) (product (alphabets creds f))). split.
  - apply in_map_iff. exists f. split; [done|]. apply List.filter_In. split; [apply list_elem_of_In; destruct f; set_solver|]. apply negb_true_iff. by apply bool_decide_eq_false.
  - by apply in_map, list_elem_of_In, product_in.
Qed.

Lemma universe_length creds : length (universe creds) = (573 + 6 * length creds)%nat.
Proof.
  unfold universe. change (List.filter _ collectors) with (F_decisions :: F_stageDuration :: F_snapshotAge :: drop 4 collectors). cbn [drop collectors map concat]. rewrite !length_app, !length_map, !product_length. cbn [alphabets fold_right].
  cbn. lia.
Qed.

Lemma record_all_inv creds calls r : Forall named_disposition calls -> (forall c x, c ∈ calls -> credential c = Some x -> x ∈ creds) ->
  NoDup r.*1 -> Forall (in_vocabulary creds) r.*1 -> (forall k k', k ∈ r.*1 -> k' ∈ r.*1 -> k.1 = F_snapshotVersion -> k'.1 = F_snapshotVersion -> k = k') ->
  let r' := fold_left (fun r c => record c r) calls r in
  NoDup r'.*1 /\ Forall (in_vocabulary creds) r'.*1 /\ (forall k k', k ∈ r'.*1 -> k' ∈ r'.*1 -> k.1 = F_snapshotVersion -> k'.1 = F_snapshotVersion -> k = k').
Proof.
  revert r. induction calls as [|c calls IH]; intros r Hn Hc Hnd Hv Hver; [done|]. apply Forall_cons in Hn as [Hn1 Hn]. cbn [fold_left].
  apply IH; [done|intros c' x Hc'; apply Hc; by right|by apply record_nodup| |].
  - apply Forall_forall. intros k [->|[Hk _]]%record_keys; [apply written_ok; [done|]; intros x; apply Hc; by left|]. by apply (proj1 (Forall_forall _ _) Hv).
  - intros k k' [->|[Hk H1]]%record_keys [->|[Hk' H2]]%record_keys E E'; [done|by apply H2 in E'|by apply H1 in E|by apply Hver].
Qed.

Lemma filter_partition_length {A} (p : A -> bool) l : length l = (length (List.filter p l) + length (List.filter (fun x => negb (p x)) l))%nat.
Proof. induction l as [|x l IH]; [done|]. cbn [List.filter length]. destruct (p x); cbn [negb length]; lia. Qed.

(** A key that at most one entry has. *)
Lemma unique_key_length (r : recorder) (p : series -> bool) : NoDup r.*1 ->
  (forall k k', k ∈ r.*1 -> k' ∈ r.*1 -> p k = true -> p k' = true -> k = k') -> (length (List.filter (fun x => p (fst x)) r) <= 1)%nat.
Proof.
  induction r as [|x r IH]; [cbn; lia|]. rewrite fmap_cons. intros [Hx Hn]%NoDup_cons Hu. cbn [List.filter]. destruct (p (fst x)) eqn:E.
  - replace (List.filter _ r) with ([] : recorder); [cbn; lia|]. symmetry. apply length_zero_iff_nil. destruct (List.filter (fun x => p (fst x)) r) as [|y l] eqn:Ef; [done|].
    assert (In y (List.filter (fun x => p (fst x)) r)) as Hy by (rewrite Ef; by left). apply List.filter_In in Hy as [Hy Hp]. apply list_elem_of_In in Hy.
    exfalso. apply Hx. assert (y.1 ∈ r.*1) as Hy1 by (apply list_elem_of_fmap; by exists y). rewrite (Hu (fst x) (fst y)); [done|by left|by right|done|done].
  - apply IH; [done|]. intros k k' Hk Hk'. apply Hu; by right.
Qed.

Definition is_version (f : family) : bool := bool_decide (f = F_snapshotVersion).

(** The number of exposed series does not depend on how much traffic there was.  Whatever calls were
    made, with whatever integers for the enumerated labels, there is one entry per series; each
    label of each series is from the finite set of its family; the version family has at most one series, whose label has at most
    64 printable bytes; and with [n] distinct credentials reported there are at most 574 + 6 n series. *)
Theorem metrics_cardinality calls : Forall named_disposition calls ->
  let r := record_all calls in
  NoDup r.*1 /\ Forall (in_vocabulary (credentials calls)) r.*1 /\
  (length (List.filter (fun x => is_version (fst (fst x))) r) <= 1)%nat /\
  (length r <= 574 + 6 * length (credentials calls))%nat.
Proof.
  intros Hn. cbv zeta. destruct (record_all_inv (credentials calls) calls new_recorder) as (Hnd & Hv & Hver); [done| | |..].
  - intros c x Hc Hx. unfold credentials. apply elem_of_remove_dups, list_elem_of_omap. by exists c.
  - by apply (bool_decide_unpack _); vm_compute.
  - repeat (apply Forall_cons; split; [apply Forall2_nil_2; done|]). constructor.
  - intros k k' Hk _ E. unfold new_recorder in Hk. rewrite <- list_fmap_compose in Hk. apply list_elem_of_fmap in Hk as (f & -> & Hf). cbn in E. subst f.
    unfold unlabelled in Hf. set_solver.
  - fold (record_all calls) in *. set (r := record_all calls) in *. split; [done|]. split; [done|].
    assert (length (List.filter (fun x => is_version (fst (fst x))) r) <= 1)%nat as H1.
    { apply (unique_key_length r (fun k : series => is_version (fst k))); [done|]. intros k k' Hk Hk' E E'. apply bool_decide_eq_true in E, E'. by apply Hver. }
    split; [done|]. rewrite (filter_partition_length (fun x : series * Z => is_version (fst (fst x))) r).
    assert (length (reset F_snapshotVersion r) <= length (universe (credentials calls)))%nat as H2.
    { rewrite <- (length_fmap fst (reset _ _)). apply NoDup_incl_length; [by apply NoDup_ListNoDup, reset_nodup|]. intros k Hk. apply list_elem_of_In, reset_keys in Hk as [Hk Hf].
      apply list_elem_of_In, universe_in; [done|]. by apply (proj1 (Forall_forall _ _) Hv). }
    rewrite universe_length in H2. change (reset F_snapshotVersion r) with (List.filter (fun x : series * Z => negb (is_version (fst (fst x)))) r) in H2. lia.
Qed.

Lemma metrics_cardinality_witness : let calls := [Decisions DispositionDeny ReasonNoMatch KindTLS false; TokenCacheEviction 1 "c1"; AdmissionRejection 99; SnapshotVersion "v1"; SnapshotVersion "v2"] in
  credentials calls = [bs "c1"] /\ (length (record_all calls) <= 580)%nat.
Proof.
  split; [reflexivity|].
  destruct (metrics_cardinality [Decisions DispositionDeny ReasonNoMatch KindTLS false; TokenCacheEviction 1 "c1"; AdmissionRejection 99; SnapshotVersion "v1"; SnapshotVersion "v2"]) as (_ & _ & _ & H);
    [repeat constructor|exact H].
Defined.

Lemma touch_new s f r : s ∉ r.*1 -> length (touch s f r) = S (length r).
Proof.
  induction r as [|[s' v] r IH]; [done|]. rewrite fmap_cons, elem_of_cons. intros Hs. cbn [touch]. rewrite bool_decide_eq_false_2 by (intros ->; tauto).
  cbn [length]. by rewrite IH by tauto.
Qed.

(** The series of the credentials stay after their eviction: ten evictions of ten credentials are ten series, and
    a disposition without a name is a label of its own. *)
Lemma credential_series_stay n : length (record_all (map (fun i => TokenCacheEviction 1 (Itoa i)) (seq 0 n))) = (11 + n)%nat.
Proof.
  assert (forall l r, NoDup l -> (forall i, i ∈ l -> (F_tokenCacheEvictions, [bs "entra"; Itoa i]) ∉ r.*1) ->
    length (fold_left (fun r c => record c r) (map (fun i => TokenCacheEviction 1 (Itoa i)) l) r) = (length r + length l)%nat) as H.
  { induction l as [|i l IH]; intros r Hl Hr; cbn [map fold_left length]; [lia|]. apply NoDup_cons in Hl as [Hi Hl].
    assert (length (record (TokenCacheEviction 1 (Itoa i)) r) = S (length r)) as Hlen.
    { apply touch_new. apply Hr. by left. }
    rewrite IH; [rewrite Hlen; lia|done|]. intros j Hj. cbn [record]. unfold inc. rewrite touch_keys. intros [E|E]; [|by apply (Hr j); [right|]].
    injection E as E. apply (Itoa_inj j i) in E. subst j. done. }
  unfold record_all. rewrite H; [by rewrite length_seq|apply NoDup_seq|]. intros i _ Hin. unfold new_recorder in Hin. rewrite <- list_fmap_compose in Hin.
  apply list_elem_of_fmap in Hin as (f & [=] & _).
Qed.
Lemma unnamed_disposition_label n : Disposition_String (DispositionOther n) ∉ dispositions.
Proof. intros H. unfold dispositions in H. rewrite !elem_of_cons, elem_of_nil in H. cbn in H. naive_solver. Qed.

Lemma unregister_all (registered : list family) (base : gset gostring) : (forall f, f ∈ registered -> family_name f ∉ base) ->
  fold_left Unregister registered (list_to_set (map family_name registered) ∪ base) = base.
Proof.
  assert (forall l (s : gset gostring), fold_left Unregister l s = s ∖ list_to_set (map family_name l)) as H.
  { induction l as [|f l IH]; intros s; cbn [fold_left map list_to_set]; [set_solver|]. rewrite IH. unfold Unregister. set_solver. }
  intros Hb. rewrite H. apply leibniz_equiv. intros x. rewrite elem_of_difference, elem_of_union, elem_of_list_to_set.
  assert (x ∈ base -> x ∉ map family_name registered) as Hx; [|destruct (decide (x ∈ map family_name registered)); tauto].
  intros Hx Hin. apply list_elem_of_In, in_map_iff in Hin as (f & <- & Hf). apply (Hb f); [by apply list_elem_of_In|done].
Qed.

(** Registration is all or nothing, so that a caller can try again on the same registry. *)
Lemma register_all_spec (cs registered : list family) (base : gset gostring) : NoDup (map family_name (registered ++ cs)) ->
  (forall f, f ∈ registered -> family_name f ∉ base) ->
  register_all (list_to_set (map family_name registered) ∪ base) registered cs =
    if forallb (fun f => negb (bool_decide (family_name f ∈ base))) cs
    then (list_to_set (map family_name (registered ++ cs)) ∪ base, true) else (base, false).
Proof.
  revert registered. induction cs as [|c cs IH]; intros registered Hnd Hb; cbn [register_all forallb]; [by rewrite app_nil_r|].
  unfold Register. assert (family_name c ∉@{gset gostring} list_to_set (map family_name registered)) as Hc.
  { rewrite elem_of_list_to_set. intros Hin. rewrite map_app in Hnd. apply NoDup_app in Hnd as (_ & Hd & _). apply (Hd _ Hin). by left. }
  destruct (bool_decide (family_name c ∈ base)) eqn:E.
  - apply bool_decide_eq_true in E. rewrite bool_decide_eq_true_2 by set_solver. cbn [negb andb]. f_equal. apply unregister_all. done.
  - apply bool_decide_eq_false in E. rewrite bool_decide_eq_false_2 by set_solver. cbn [negb andb].
    replace ({[family_name c]} ∪ (list_to_set (map family_name registered) ∪ base)) with
      ((list_to_set (map family_name (registered ++ [c])) : gset gostring) ∪ base) by (rewrite map_app, list_to_set_app_L; cbn; set_solver).
    rewrite IH; [by rewrite <- app_assoc|by rewrite <- app_assoc|]. intros f [Hf|Hf]%elem_of_app; [by apply Hb|]. by apply list_elem_of_singleton in Hf as ->.
Qed.
Lemma NewPromMetricsRecorder_all_or_nothing reg :
  NewPromMetricsRecorder (Some reg) =
    if forallb (fun f => negb (bool_decide (family_name f ∈ reg))) collectors
    then (Some (list_to_set (map family_name collectors) ∪ reg), None) else (Some reg, Some AlreadyRegistered).
Proof.
  unfold NewPromMetricsRecorder. pose proof (register_all_spec collectors [] reg) as H. cbn [map list_to_set app] in H.
  rewrite (left_id_L ∅ (∪)) in H. rewrite H; [by destruct (forallb _ _)| |set_solver]. by apply (bool_decide_unpack _); vm_compute.
Qed.
