(* ===== verification/Capture.v ===== *)
(** * [internal/dataplane/capture]: options, kernel records and destinations

    [options.go], [bypass.go], [byteorder.go], [types.go], [errors.go], the configuration
    image of [preflight.go] and [resolver_linux.go].  Addresses are those of [Upstream];
    a [netip.Prefix] is an address and a length, -1 for the invalid one.

    The records shared with the eBPF programs cross the kernel boundary as bytes: words are
    written in the byte order of the machine, which is the parameter [Endian]; fields in
    network order are words whose bytes are big endian. *)

From S2P Require Import Prelude GoStrings GoRuntime Compile Match Credential Decision Metrics Upstream.
#[local] Open Scope Z_scope.

(** ** [byteorder.go] *)

Class Endian := native_little : bool.

Fixpoint le_bytes (n : nat) (v : Z) : gostring :=
  match n with O => [] | S n => byte_of v :: le_bytes n (v / 256) end.
Definition le_value (s : gostring) : Z := foldr (fun c acc => code c + 256 * acc) 0 s.

(** [binary.BigEndian] and [binary.NativeEndian]: put and read a word of [n] bytes. *)
Definition be_put (n : nat) (v : Z) : gostring := rev (le_bytes n v).
Definition be_get (s : gostring) : Z := le_value (rev s).

Section Words.
Context `{EN : Endian}.
Definition native_put (n : nat) (v : Z) : gostring := if native_little then le_bytes n v else be_put n v.
Definition native_get (s : gostring) : Z := if native_little then le_value s else be_get s.

Definition ntohs (v : Z) : Z := be_get (native_put 2 v).
Definition htons (v : Z) : Z := native_get (be_put 2 v).
Definition ntohl (v : Z) : Z := be_get (native_put 4 v).
Definition htonl (v : Z) : Z := native_get (be_put 4 v).
End Words.

(** ** Prefixes and the bypass list *)

Record Prefix := PrefixOf { pf_Addr : Addr; pf_Bits : Z }.
#[global] Instance Prefix_eq_dec : EqDecision Prefix.
Proof. solve_decision. Defined.

Definition BitLen (a : Addr) : Z := match a with NoAddr => 0 | Addr4 _ => 32 | Addr6 _ => 128 end.
Definition PrefixFrom (a : Addr) (bits : Z) : Prefix :=
  PrefixOf a (if (bits <? 0) || (BitLen a <? bits) then -1 else bits).
Definition Prefix_IsValid (p : Prefix) : bool := (0 <=? pf_Bits p) && Addr_IsValid (pf_Addr p).

(** The bits of an address beyond the prefix are cleared. *)
Definition mask_bits (width bits ip : Z) : Z := Z.shiftl (Z.shiftr ip (width - bits)) (width - bits).
Definition Masked (p : Prefix) : Prefix :=
  match pf_Addr p with
  | NoAddr => p
  | Addr4 ip => PrefixOf (Addr4 (mask_bits 32 (pf_Bits p) ip)) (pf_Bits p)
  | Addr6 ip => PrefixOf (Addr6 (mask_bits 128 (pf_Bits p) ip)) (pf_Bits p)
  end.

Definition minBypassPrefixBits : Z := 8.
Definition maxBypassCIDRs : nat := 64.

Inductive capture_error :=
| ErrMissingConfig | ErrMissingPodPath | ErrMissingHostMount | ErrMissingMetrics | ErrInvalidProxyUID | ErrIPv6Unsupported
| ErrRequiresUnsafeStartup | ErrInvalidAttachCheckInterval | ErrMissingPinRoot | ErrInvalidListenerAddr | ErrInvalidDNSServer
| ErrInvalidBypassCIDR | ErrInvalidMapEntries | ErrInvalidDestMaxAge.

Definition canonicalBypassPrefix (p : Prefix) : option Prefix :=
  if negb (Prefix_IsValid p) then None
  else
    let addr := Unmap (pf_Addr p) in
    if negb (Is4 addr) then None
    else
      let canon := PrefixFrom addr (pf_Bits p) in
      if negb (Prefix_IsValid canon) then None
      else if pf_Bits canon <? minBypassPrefixBits then None
      else if negb (bool_decide (Masked canon = canon)) then None
      else Some canon.

(** [None] is [ErrInvalidBypassCIDR]. *)
Record bypassKey := { bk_PrefixLen : Z; bk_Addr : gostring }.
Definition As4 (a : Addr) : gostring := match a with Addr4 ip => be_put 4 ip | _ => [] end.
Definition bypassKeyFor (p : Prefix) : option bypassKey :=
  canon ← canonicalBypassPrefix p; Some {| bk_PrefixLen := pf_Bits canon; bk_Addr := As4 (pf_Addr canon) |}.

Definition validateBypassCIDRs (prefixes : list Prefix) : option capture_error :=
  if (maxBypassCIDRs <? length prefixes)%nat then Some ErrInvalidBypassCIDR
  else if existsb (fun p => bool_decide (canonicalBypassPrefix p = None)) prefixes then Some ErrInvalidBypassCIDR
  else None.

(** ** Options *)

Record KernelVersion := { Major : Z; Minor : Z }.
#[global] Instance KernelVersion_eq_dec : EqDecision KernelVersion.
Proof. solve_decision. Defined.
Definition AtLeast (v floor : KernelVersion) : bool :=
  if negb (Major v =? Major floor) then Major floor <? Major v else Minor floor <=? Minor v.
Definition MinSupportedKernel : KernelVersion := {| Major := 5; Minor := 15 |}.

Record Options := {
  co_PodPath : gostring; co_HostCgroupMount : gostring; co_LocalCgroupMount : gostring; co_ProcCgroupPath : gostring;
  co_Metrics : bool; co_ProxyUID : Z; co_ProxyGID : Z; co_ListenerAddr : AddrPort; co_DNSServer : AddrPort;
  co_BypassCIDRs : list Prefix; co_CaptureIPv6 : bool; co_MountBPFFS : bool; co_BlockNonTCP : bool; co_RunProbe : bool;
  co_AllowUnsafeStartup : bool; co_AttachCheckInterval : Duration; co_PinLinks : bool; co_PinRoot : gostring;
  co_PinRootPrivate : bool; co_MapEntries : Z; co_DestMaxAge : Duration; co_MinKernel : KernelVersion
}.

Definition noAddrPort : AddrPort := AddrPortFrom NoAddr 0.
Definition DefaultOptions : Options :=
  {| co_PodPath := ""; co_HostCgroupMount := "/host/sys/fs/cgroup"; co_LocalCgroupMount := "/sys/fs/cgroup";
     co_ProcCgroupPath := "/proc/self/cgroup"; co_Metrics := false; co_ProxyUID := 1774; co_ProxyGID := 1774;
     co_ListenerAddr := AddrPortFrom (Addr4 0x7f000001) 15001; co_DNSServer := noAddrPort; co_BypassCIDRs := [];
     co_CaptureIPv6 := false; co_MountBPFFS := false; co_BlockNonTCP := true; co_RunProbe := true;
     co_AllowUnsafeStartup := false; co_AttachCheckInterval := 30 * Second; co_PinLinks := false; co_PinRoot := "/sys/fs/bpf";
     co_PinRootPrivate := false; co_MapEntries := 16384; co_DestMaxAge := 15 * Second; co_MinKernel := MinSupportedKernel |}.

Definition minMapEntries : Z := 1024.
Definition maxMapEntries : Z := 65536.
Definition minDestMaxAge : Duration := 1 * Second.
Definition maxDestMaxAge : Duration := 120 * Second.
Definition minAttachCheckInterval : Duration := 10 * Second.
Definition maxAttachCheckInterval : Duration := 60 * Second.

Definition Options_Validate (o : option Options) : option capture_error :=
  match o with
  | None => Some ErrMissingConfig
  | Some o =>
      if str_eqb (co_PodPath o) "" then Some ErrMissingPodPath
      else if str_eqb (co_HostCgroupMount o) "" then Some ErrMissingHostMount
      else if negb (co_Metrics o) then Some ErrMissingMetrics
      else if co_ProxyUID o =? 0 then Some ErrInvalidProxyUID
      else if co_CaptureIPv6 o then Some ErrIPv6Unsupported
      else if negb (co_BlockNonTCP o) && negb (co_AllowUnsafeStartup o) then Some ErrRequiresUnsafeStartup
      else if negb (co_RunProbe o) && negb (co_AllowUnsafeStartup o) then Some ErrRequiresUnsafeStartup
      else if (co_AttachCheckInterval o <? minAttachCheckInterval) || (maxAttachCheckInterval <? co_AttachCheckInterval o) then
        Some ErrInvalidAttachCheckInterval
      else if co_PinLinks o && str_eqb (co_PinRoot o) "" then Some ErrMissingPinRoot
      else if AddrPort_IsValid (co_ListenerAddr o) &&
              (negb (Is4 (Unmap (ap_Addr (co_ListenerAddr o)))) || negb (IsLoopback (Unmap (ap_Addr (co_ListenerAddr o))))) then
        Some ErrInvalidListenerAddr
      else if AddrPort_IsValid (co_DNSServer o) &&
              (negb (Is4 (Unmap (ap_Addr (co_DNSServer o)))) || (ap_Port (co_DNSServer o) =? 0)) then Some ErrInvalidDNSServer
      else
        match validateBypassCIDRs (co_BypassCIDRs o) with
        | Some e => Some e
        | None =>
            if negb (co_MapEntries o =? 0) && ((co_MapEntries o <? minMapEntries) || (maxMapEntries <? co_MapEntries o)) then
              Some ErrInvalidMapEntries
            else if negb (co_DestMaxAge o =? 0) && ((co_DestMaxAge o <? minDestMaxAge) || (maxDestMaxAge <? co_DestMaxAge o)) then
              Some ErrInvalidDestMaxAge
            else None
        end
  end.

(** ** The configuration image *)

Definition flagCaptureEnabled : Z := Z.shiftl 1 0.
Definition flagBlockNonTCP : Z := Z.shiftl 1 1.
Definition flagDenyIPv6 : Z := Z.shiftl 1 2.
Definition dstIPv4 : Z := Z.shiftl 1 0.
Definition dstIPv6 : Z := Z.shiftl 1 1.

Record akshConfig := {
  ac_ProxyUID : Z; ac_ListenerIP4 : Z; ac_ListenerPort : Z; ac_Flags : Z; ac_DNSIP4 : Z; ac_DNSPort : Z;
  ac_Pad : Z; ac_Pad2 : Z; ac_Reserved : Z
}.
Record akshPairKey := { pk_IP : Z; pk_Port : Z }.
#[global] Instance akshPairKey_eq_dec : EqDecision akshPairKey.
Proof. solve_decision. Defined.
#[global] Instance akshPairKey_countable : Countable akshPairKey.
Proof. refine (inj_countable' (fun k => (pk_IP k, pk_Port k)) (fun x => {| pk_IP := x.1; pk_Port := x.2 |}) _). by intros []. Defined.
Record akshPairValue := { pv_IP : Z; pv_Port : Z; pv_Flags : Z; pv_UID : Z; pv_Pad : Z; pv_StampNS : Z }.

Definition ConfigImageSize : nat := 32.

Section Image.
Context `{EN : Endian}.

(** [binary.Write] of the structure in native byte order. *)
Definition write_config (c : akshConfig) : gostring :=
  native_put 4 (ac_ProxyUID c) ++ native_put 4 (ac_ListenerIP4 c) ++ native_put 2 (ac_ListenerPort c) ++ native_put 2 (ac_Flags c) ++
  native_put 4 (ac_DNSIP4 c) ++ native_put 2 (ac_DNSPort c) ++ native_put 2 (ac_Pad c) ++ native_put 4 (ac_Pad2 c) ++
  native_put 8 (ac_Reserved c).

(** The address and port words of a set address; [None] when it is not IPv4. *)
Definition endpoint_words (a : AddrPort) : option (Z * Z) :=
  if negb (AddrPort_IsValid a) then Some (0, 0)
  else
    let addr := Unmap (ap_Addr a) in
    if negb (Is4 addr) then None else Some (native_get (As4 addr), htons (ap_Port a)).

Definition buildConfigImage (opts : Options) : result capture_error gostring :=
  let flags := Z.lor flagCaptureEnabled (Z.lor (if co_BlockNonTCP opts then flagBlockNonTCP else 0)
                                               (if negb (co_CaptureIPv6 opts) then flagDenyIPv6 else 0)) in
  match endpoint_words (co_ListenerAddr opts) with
  | None => Err ErrInvalidListenerAddr
  | Some (lip, lport) =>
      match endpoint_words (co_DNSServer opts) with
      | None => Err ErrInvalidDNSServer
      | Some (dip, dport) =>
          Ok (write_config {| ac_ProxyUID := co_ProxyUID opts; ac_ListenerIP4 := lip; ac_ListenerPort := lport; ac_Flags := flags;
                              ac_DNSIP4 := dip; ac_DNSPort := dport; ac_Pad := 0; ac_Pad2 := 0; ac_Reserved := 0 |})
      end
  end.

(** ** [resolver_linux.go] *)

Inductive resolve_error :=
| ErrMissingResolver | NilConnection | NotTCP | NotIPv4 | PairMapMiss | ErrMapUnavailable | ErrLoopGuard | FutureStamp | StaleEntry
| NotMarkedIPv4 | PodLocal | InvalidDestination.

(** The errors that wrap [ErrNoOriginalDestination]. *)
Definition is_no_original_destination (e : resolve_error) : bool :=
  match e with ErrMissingResolver | ErrMapUnavailable | ErrLoopGuard => false | _ => true end.

(** [sample]s are the calls of [Decisions]; the pair map is consumed by [LookupAndDelete]. *)
Record BPFDestinationResolver := { br_proxyUID : Z; br_maxAge : Duration }.
Inductive resolver_error := ErrMissingMap | ErrInvalidMaxAge | ErrResolverMissingMetrics.
Definition NewBPFDestinationResolver (pairMap : bool) (opts : Options) : result resolver_error BPFDestinationResolver :=
  if negb pairMap then Err ErrMissingMap
  else if co_DestMaxAge opts <=? 0 then Err ErrInvalidMaxAge
  else if negb (co_Metrics opts) then Err ErrResolverMissingMetrics
  else Ok {| br_proxyUID := co_ProxyUID opts; br_maxAge := co_DestMaxAge opts |}.

(** The peer of a connection: nil, not TCP, or an address. *)
Inductive peer := NoConn | OtherPeer | TCPPeer (a : AddrPort).

Definition lookup_key (addr : Addr) (port : Z) : akshPairKey := {| pk_IP := native_get (As4 addr); pk_Port := port |}.

(** [map_ok] is false when the map cannot be used at all. *)
Definition Resolve (r : option BPFDestinationResolver) (conn : peer) (map_ok : bool) (now : Z) (m : gmap akshPairKey akshPairValue)
  : gmap akshPairKey akshPairValue * result resolve_error AddrPort * list sample :=
  match r with
  | None => (m, Err ErrMissingResolver, [])
  | Some r =>
      match conn with
      | NoConn => (m, Err NilConnection, [])
      | OtherPeer => (m, Err NotTCP, [])
      | TCPPeer peer =>
          let peerAddr := Unmap (ap_Addr peer) in
          if negb (Is4 peerAddr) then (m, Err NotIPv4, [])
          else
            let key := lookup_key peerAddr (ap_Port peer) in
            if negb map_ok then (m, Err ErrMapUnavailable, [])
            else
              match m !! key with
              | None => (m, Err PairMapMiss, [])
              | Some val =>
                  let m := delete key m in
                  if pv_UID val =? br_proxyUID r then (m, Err ErrLoopGuard, [Sample DispositionDeny ReasonLoopGuard KindTLS true])
                  else if now <? pv_StampNS val then (m, Err FutureStamp, [])
                  else if br_maxAge r <? now - pv_StampNS val then (m, Err StaleEntry, [])
                  else if Z.land (pv_Flags val) dstIPv4 =? 0 then (m, Err NotMarkedIPv4, [])
                  else
                    let dst := AddrPortFrom (Addr4 (be_get (native_put 4 (pv_IP val)))) (ntohs (pv_Port val)) in
                    if IsLoopback (ap_Addr dst) then (m, Err PodLocal, [Sample DispositionDeny ReasonPodLocalDestination KindTLS false])
                    else if negb (AddrPort_IsValid dst) || (ap_Port dst =? 0) then (m, Err InvalidDestination, [])
                    else (m, Ok dst, [])
              end
      end
  end.
End Image.

(** ** Words and bytes *)

Lemma byte_of_code c : byte_of (code c) = c.
Proof. apply code_inj. rewrite code_byte_of. apply Z.mod_small. apply code_bound. Qed.

Lemma le_bytes_length n v : length (le_bytes n v) = n.
Proof. revert v. induction n as [|n IH]; intros v; simpl; [done|]. by rewrite IH. Qed.

Lemma le_value_le_bytes n v : le_value (le_bytes n v) = v mod 256 ^ Z.of_nat n.
Proof.
  revert v. induction n as [|n IH]; intros v; [by rewrite Z.mod_1_r|]. cbn [le_bytes].
  change (le_value (byte_of v :: le_bytes n (v / 256))) with (code (byte_of v) + 256 * le_value (le_bytes n (v / 256))).
  rewrite IH, code_byte_of, Nat2Z.inj_succ, Z.pow_succ_r by lia. rewrite Z.rem_mul_r by (try apply Z.pow_pos_nonneg; lia). lia.
Qed.

Lemma le_bytes_le_value s : le_bytes (length s) (le_value s) = s.
Proof.
  induction s as [|c s IH]; [done|]. change (le_value (c :: s)) with (code c + 256 * le_value s). cbn [length le_bytes].
  assert (Hc := code_bound c). f_equal.
  - apply code_inj. rewrite code_byte_of, (Z.mul_comm 256), Z_mod_plus_full. by apply Z.mod_small.
  - rewrite Z.mul_comm, Z_div_plus_full by lia. by rewrite Z.div_small.
Qed.

Lemma be_put_length n v : length (be_put n v) = n.
Proof. unfold be_put. by rewrite length_rev, le_bytes_length. Qed.

Lemma be_get_be_put n v : be_get (be_put n v) = v mod 256 ^ Z.of_nat n.
Proof. unfold be_get, be_put. by rewrite rev_involutive, le_value_le_bytes. Qed.

Lemma be_put_be_get s : be_put (length s) (be_get s) = s.
Proof. unfold be_get, be_put. rewrite <- length_rev, le_bytes_le_value. apply rev_involutive. Qed.

Section WordLemmas.
Context `{EN : Endian}.

Lemma native_put_length n v : length (native_put n v) = n.
Proof. unfold native_put. case_match; [apply le_bytes_length|apply be_put_length]. Qed.

Lemma native_get_native_put n v : native_get (native_put n v) = v mod 256 ^ Z.of_nat n.
Proof. unfold native_get, native_put. case_match; [apply le_value_le_bytes|apply be_get_be_put]. Qed.

Lemma native_put_native_get s : native_put (length s) (native_get s) = s.
Proof. unfold native_get, native_put. case_match; [apply le_bytes_le_value|apply be_put_be_get]. Qed.

(** A word that holds bytes in network order has them in that order in memory. *)
Lemma native_put_be n v : native_put n (native_get (be_put n v)) = be_put n v.
Proof. rewrite <- (be_put_length n v) at 1. apply native_put_native_get. Qed.

(** The byte-order helpers are exact inverses on every word of their width, on machines
    of either byte order. *)
Theorem byte_order_round_trip v :
  (0 <= v < 2 ^ 16 -> ntohs (htons v) = v /\ htons (ntohs v) = v) /\
  (0 <= v < 2 ^ 32 -> ntohl (htonl v) = v /\ htonl (ntohl v) = v).
Proof.
  assert (Hr : forall n, 0 <= v < 256 ^ Z.of_nat n ->
    be_get (native_put n (native_get (be_put n v))) = v /\ native_get (be_put n (be_get (native_put n v))) = v).
  { intros n Hv. split.
    - by rewrite native_put_be, be_get_be_put, Z.mod_small.
    - rewrite <- (native_put_length n v) at 1. rewrite be_put_be_get, native_get_native_put. by apply Z.mod_small. }
  split; intros Hv; [exact (Hr 2%nat Hv)|exact (Hr 4%nat Hv)].
Qed.
End WordLemmas.

(** ** The bypass list *)

Definition wf_addr (a : Addr) : Prop :=
  match a with NoAddr => True | Addr4 ip => 0 <= ip < 2 ^ 32 | Addr6 ip => 0 <= ip < 2 ^ 128 end.

(** How the kernel's longest-prefix-match trie compares a key with an address: the first bits agree. *)
Definition lpm_matches (k : bypassKey) (x : Z) : Prop :=
  Z.shiftr x (32 - bk_PrefixLen k) = Z.shiftr (be_get (bk_Addr k)) (32 - bk_PrefixLen k).

(** The IPv4 addresses of a prefix as its author wrote it, possibly in the IPv4-mapped form. *)
Definition prefix_covers (p : Prefix) (x : Z) : Prop :=
  exists ip, Unmap (pf_Addr p) = Addr4 ip /\ Z.shiftr x (32 - pf_Bits p) = Z.shiftr ip (32 - pf_Bits p).

Lemma Unmap_wf a : wf_addr a -> wf_addr (Unmap a).
Proof.
  destruct a as [|ip|ip]; [exact (fun H => H)..|]. intros H. unfold Unmap. destruct (Is4In6 (Addr6 ip)); [|exact H].
  apply Z.mod_pos_bound. by apply Z.pow_pos_nonneg.
Qed.

Lemma canonicalBypassPrefix_spec p canon : canonicalBypassPrefix p = Some canon ->
  exists ip, Unmap (pf_Addr p) = Addr4 ip /\ canon = PrefixOf (Addr4 ip) (pf_Bits p) /\ 8 <= pf_Bits p <= 32 /\
    mask_bits 32 (pf_Bits p) ip = ip.
Proof.
  unfold canonicalBypassPrefix. destruct (Prefix_IsValid p) eqn:Ev; cbn [negb]; [|done].
  destruct (Unmap (pf_Addr p)) as [|ip|ip]; cbn [Is4 negb]; try done. unfold PrefixFrom. cbn [BitLen].
  destruct (Z.ltb_spec (pf_Bits p) 0), (Z.ltb_spec 32 (pf_Bits p)); cbn [orb]; try done.
  destruct (negb _); [done|]. cbn [pf_Bits]. unfold minBypassPrefixBits. destruct (Z.ltb_spec (pf_Bits p) 8); [done|].
  case_bool_decide as Hm; cbn [negb]; [|done]. intros [= <-]. exists ip. split_and!; [done|done|lia|lia|]. by injection Hm.
Qed.

(** A bypass list that passes validation opens exactly the holes it names, none wider
    than a /8: every entry has a kernel key of four address
    bytes and a length from 8 to 32; the kernel lets an address pass because of that key
    exactly when the address is in the prefix as it was written, and such an address has
    the first octet that was written. *)
Theorem bypass_list_exact ps : validateBypassCIDRs ps = None -> Forall (fun p => wf_addr (pf_Addr p)) ps ->
  (length ps <= 64)%nat /\
  forall p, p ∈ ps -> exists key, bypassKeyFor p = Some key /\ length (bk_Addr key) = 4%nat /\ 8 <= bk_PrefixLen key <= 32 /\
    forall x, 0 <= x < 2 ^ 32 ->
      (lpm_matches key x <-> prefix_covers p x) /\
      (lpm_matches key x -> exists ip, Unmap (pf_Addr p) = Addr4 ip /\ Z.shiftr x 24 = Z.shiftr ip 24).
Proof.
  unfold validateBypassCIDRs, maxBypassCIDRs. destruct (Nat.ltb_spec 64 (length ps)); [done|].
  destruct (existsb _ ps) eqn:Ee; [done|]. intros _ Hwf. split; [lia|]. intros p Hp.
  assert (Hc : canonicalBypassPrefix p <> None).
  { intros Hn. assert (Ht : existsb (fun p => bool_decide (canonicalBypassPrefix p = None)) ps = true); [|congruence].
    apply existsb_exists. exists p. split; [by apply list_elem_of_In|]. by apply bool_decide_eq_true. }
  destruct (canonicalBypassPrefix p) as [canon|] eqn:Ec; [|done]. apply canonicalBypassPrefix_spec in Ec as Hs.
  destruct Hs as (ip & Hu & -> & Hb & Hm). unfold bypassKeyFor. rewrite Ec. cbn [mbind option_bind pf_Addr pf_Bits As4].
  eexists. split; [done|]. cbn [bk_Addr bk_PrefixLen]. rewrite be_put_length. split_and!; [done|lia|lia|]. intros x Hx.
  assert (Hip : 0 <= ip < 2 ^ 32). { assert (Hw := Unmap_wf _ (proj1 (Forall_forall _ _) Hwf p Hp)). by rewrite Hu in Hw. }
  unfold lpm_matches, prefix_covers. cbn [bk_PrefixLen bk_Addr]. rewrite be_get_be_put. change (256 ^ Z.of_nat 4) with (2 ^ 32).
  rewrite (Z.mod_small ip) by exact Hip. split.
  - split; [intros H'; exists ip; split; [exact Hu|exact H']|]. intros (ip' & Hu' & H'). rewrite Hu in Hu'. injection Hu' as ->. exact H'.
  - intros H'. exists ip. split; [done|]. assert (Hs : forall z, Z.shiftr z 24 = Z.shiftr (Z.shiftr z (32 - pf_Bits p)) (pf_Bits p - 8)).
    { intros z. rewrite Z.shiftr_shiftr by lia. f_equal. lia. }
    by rewrite !Hs, H'.
Qed.

(** ** The image the programs read *)

Definition sub_bytes (off n : nat) (s : gostring) : gostring := take n (drop off s).

(** The fields of [struct aksh_config] at their offsets: the two words in host order, the
    addresses and ports as the bytes in memory, and the padding. *)
Record kernel_view := {
  kv_uid : Z; kv_listener_ip : gostring; kv_listener_port : gostring; kv_flags : Z; kv_dns_ip : gostring; kv_dns_port : gostring;
  kv_padding : gostring
}.

(** An endpoint in network order; zeros when there is none. *)
Definition wire_ip (a : AddrPort) : gostring := if AddrPort_IsValid a then As4 (Unmap (ap_Addr a)) else be_put 4 0.
Definition wire_port (a : AddrPort) : gostring := be_put 2 (if AddrPort_IsValid a then ap_Port a else 0).

Section ImageTheorems.
Context `{EN : Endian}.

Definition read_config (image : gostring) : kernel_view :=
  {| kv_uid := native_get (sub_bytes 0 4 image); kv_listener_ip := sub_bytes 4 4 image; kv_listener_port := sub_bytes 8 2 image;
     kv_flags := native_get (sub_bytes 10 2 image); kv_dns_ip := sub_bytes 12 4 image; kv_dns_port := sub_bytes 16 2 image;
     kv_padding := sub_bytes 18 14 image |}.

Lemma sub_bytes_head n v rest : sub_bytes 0 n (native_put n v ++ rest) = native_put n v.
Proof. unfold sub_bytes. rewrite drop_0. apply take_app_length'. symmetry. apply native_put_length. Qed.

Lemma sub_bytes_skip off n k v rest : (k <= off)%nat -> sub_bytes off n (native_put k v ++ rest) = sub_bytes (off - k) n rest.
Proof. intros H. unfold sub_bytes. rewrite drop_app_ge by (rewrite native_put_length; lia). by rewrite native_put_length. Qed.

(** Offsets of the fields of a written structure. *)
Ltac at_offset := unfold write_config; repeat (rewrite sub_bytes_skip by lia; cbn [Nat.sub]); rewrite sub_bytes_head.

Lemma native_put_zero n : native_put n 0 = be_put n 0.
Proof.
  assert (Hz : forall n, le_bytes n 0 = replicate n (byte_of 0)). { clear. induction n as [|n IH]; [done|]. cbn. by rewrite <- IH. }
  unfold native_put, be_put. case_match; [|done]. rewrite Hz. induction n as [|n IH]; [done|].
  rewrite replicate_S at 2. cbn [rev]. rewrite <- IH. by rewrite <- replicate_S_end.
Qed.

Lemma write_config_view c : 0 <= ac_ProxyUID c < 2 ^ 32 -> 0 <= ac_Flags c < 2 ^ 16 -> ac_Pad c = 0 -> ac_Pad2 c = 0 -> ac_Reserved c = 0 ->
  length (write_config c) = 32%nat /\
  read_config (write_config c) =
    {| kv_uid := ac_ProxyUID c; kv_listener_ip := native_put 4 (ac_ListenerIP4 c); kv_listener_port := native_put 2 (ac_ListenerPort c);
       kv_flags := ac_Flags c; kv_dns_ip := native_put 4 (ac_DNSIP4 c); kv_dns_port := native_put 2 (ac_DNSPort c);
       kv_padding := be_put 14 0 |}.
Proof.
  intros Hu Hf H1 H2 H3. split; [unfold write_config; by rewrite !length_app, !native_put_length|]. unfold read_config. f_equal.
  - at_offset. rewrite native_get_native_put. by apply Z.mod_small.
  - by at_offset.
  - by at_offset.
  - at_offset. rewrite native_get_native_put. by apply Z.mod_small.
  - by at_offset.
  - by at_offset.
  - unfold write_config. repeat (rewrite sub_bytes_skip by lia; cbn [Nat.sub]). rewrite H1, H2, H3, !native_put_zero. done.
Qed.

Lemma endpoint_words_wire a ip port : endpoint_words a = Some (ip, port) -> native_put 4 ip = wire_ip a /\ native_put 2 port = wire_port a.
Proof.
  unfold endpoint_words, wire_ip, wire_port, htons. destruct (AddrPort_IsValid a); cbn [negb].
  - destruct (Unmap (ap_Addr a)) as [|x|x]; cbn [Is4 negb]; try done. intros [= <- <-]. cbn [As4]. by rewrite !native_put_be.
  - intros [= <- <-]. by rewrite !native_put_zero.
Qed.

Lemma if_None {A} (b : bool) (e : A) x : (if b then Some e else x) = None <-> b = false /\ x = None.
Proof. destruct b; naive_solver. Qed.

(** An endpoint that is unset, or set to an IPv4 address. *)
Lemma endpoint_words_Some a : (AddrPort_IsValid a = true -> Is4 (Unmap (ap_Addr a)) = true) -> exists ip port, endpoint_words a = Some (ip, port).
Proof.
  intros H. unfold endpoint_words. destruct (AddrPort_IsValid a); cbn [negb]; [|eauto]. rewrite H by done. cbn [negb]. eauto.
Qed.

Lemma Validate_endpoints o : Options_Validate (Some o) = None -> co_CaptureIPv6 o = false /\
  (AddrPort_IsValid (co_ListenerAddr o) = true -> Is4 (Unmap (ap_Addr (co_ListenerAddr o))) = true) /\
  (AddrPort_IsValid (co_DNSServer o) = true -> Is4 (Unmap (ap_Addr (co_DNSServer o))) = true).
Proof.
  unfold Options_Validate. rewrite !if_None. intros (_ & _ & _ & _ & H6 & _ & _ & _ & _ & Hl & Hd & _). split_and!; [done|..].
  - intros Hv. rewrite Hv in Hl. cbn [andb] in Hl. by apply orb_false_iff in Hl as [?%negb_false_iff _].
  - intros Hv. rewrite Hv in Hd. cbn [andb] in Hd. by apply orb_false_iff in Hd as [?%negb_false_iff _].
Qed.

(** C33: the configuration the eBPF programs read is the one that was validated.  For every
    options value that passes [Validate] the image can be built; it has 32 bytes, and at
    the offsets of the C structure the programs find the proxy's user, the listener and
    DNS endpoints in network byte order (zeros for an unset one), the capture and
    deny-IPv6 flags set, the non-TCP flag as configured, and zero padding, whatever
    the byte order of the machine.  For the DNS server zeros disable the exception, as
    documented; for the listener the documentation promises the default instead, which
    neither [Validate] nor [buildConfigImage] applies ([unset_listener_not_defaulted]). *)
Theorem config_image_layout o : Options_Validate (Some o) = None -> 0 <= co_ProxyUID o < 2 ^ 32 ->
  exists image, buildConfigImage o = Ok image /\ length image = ConfigImageSize /\
    read_config image =
      {| kv_uid := co_ProxyUID o; kv_listener_ip := wire_ip (co_ListenerAddr o); kv_listener_port := wire_port (co_ListenerAddr o);
         kv_flags := if co_BlockNonTCP o then 7 else 5; kv_dns_ip := wire_ip (co_DNSServer o); kv_dns_port := wire_port (co_DNSServer o);
         kv_padding := be_put 14 0 |}.
Proof.
  intros (H6 & Hl & Hd)%Validate_endpoints Hu. unfold buildConfigImage. cbv zeta.
  destruct (endpoint_words_Some _ Hl) as (lip & lport & El), (endpoint_words_Some _ Hd) as (dip & dport & Ed). rewrite El, Ed.
  destruct (endpoint_words_wire _ _ _ El) as [<- <-], (endpoint_words_wire _ _ _ Ed) as [<- <-]. eexists. split; [done|].
  rewrite H6. cbn [negb]. split; [by apply write_config_view; try done; cbn; destruct (co_BlockNonTCP o)|].
  etransitivity; [apply write_config_view; try done; cbn; by destruct (co_BlockNonTCP o)|]. cbn. f_equal. by destruct (co_BlockNonTCP o).
Qed.
End ImageTheorems.

(** ** Destinations *)

Section ResolverTheorems.
Context `{EN : Endian}.

(** What the program at [connect] stores for a connection to [ip:port] by [uid] at time [stamp]:
    address and port in network byte order. *)
Definition record_of (ip port uid stamp : Z) : akshPairValue :=
  {| pv_IP := native_get (be_put 4 ip); pv_Port := native_get (be_put 2 port); pv_Flags := dstIPv4; pv_UID := uid; pv_Pad := 0;
     pv_StampNS := stamp |}.

Definition admissible (r : BPFDestinationResolver) (ip port uid stamp now : Z) : Prop :=
  uid <> br_proxyUID r /\ stamp <= now <= stamp + br_maxAge r /\ Z.shiftr ip 24 <> 127 /\ port <> 0.

(** The resolver counts two rejections itself: the loop guard and a pod-local destination. *)
Lemma Resolve_samples r peer map_ok now m m' res ms : Resolve r peer map_ok now m = (m', res, ms) ->
  ms = match res with
       | Err ErrLoopGuard => [Sample DispositionDeny ReasonLoopGuard KindTLS true]
       | Err PodLocal => [Sample DispositionDeny ReasonPodLocalDestination KindTLS false]
       | _ => []
       end.
Proof. unfold Resolve. intros H. by repeat case_match; simplify_eq. Qed.

(** A redirected connection gets back exactly the destination it dialled, once.  When
    the map holds the record that was written for the connection's source address and
    port, [Resolve] answers that address and port if and only if the record is at most
    [DestMaxAge] old and not from the future, was not made by the proxy itself, and is
    neither loopback nor port zero.  In every case the record is consumed: asking again
    for the same source finds nothing. *)
Theorem Resolve_recovers r peer ip port uid stamp now m :
  Is4 (Unmap (ap_Addr peer)) = true -> 0 <= ip < 2 ^ 32 -> 0 <= port < 2 ^ 16 ->
  m !! lookup_key (Unmap (ap_Addr peer)) (ap_Port peer) = Some (record_of ip port uid stamp) ->
  let '(m', res, ms) := Resolve (Some r) (TCPPeer peer) true now m in
  (res = Ok (AddrPortFrom (Addr4 ip) port) <-> admissible r ip port uid stamp now) /\
  (~ admissible r ip port uid stamp now -> exists e, res = Err e /\ (is_no_original_destination e = true \/ e = ErrLoopGuard)) /\
  m' = delete (lookup_key (Unmap (ap_Addr peer)) (ap_Port peer)) m /\
  forall now', Resolve (Some r) (TCPPeer peer) true now' m' = (m', Err PairMapMiss, []).
Proof.
  intros H4 Hip Hport Hm. destruct (Resolve (Some r) (TCPPeer peer) true now m) as [[m' res] ms] eqn:E.
  assert (Hm' : m' = delete (lookup_key (Unmap (ap_Addr peer)) (ap_Port peer)) m).
  { unfold Resolve in E. rewrite H4, Hm in E. cbn [negb] in E. repeat case_match; by simplify_eq. }
  assert (Hres : (res = Ok (AddrPortFrom (Addr4 ip) port) <-> admissible r ip port uid stamp now) /\
    (~ admissible r ip port uid stamp now -> exists e, res = Err e /\ (is_no_original_destination e = true \/ e = ErrLoopGuard))).
  { unfold Resolve in E. rewrite H4, Hm in E. cbn [negb record_of pv_UID pv_StampNS pv_Flags pv_IP pv_Port] in E. unfold ntohs in E.
    rewrite !native_put_be, !be_get_be_put in E. change (256 ^ Z.of_nat 4) with (2 ^ 32) in E. change (256 ^ Z.of_nat 2) with (2 ^ 16) in E.
    rewrite (Z.mod_small ip), (Z.mod_small port) in E by assumption. unfold admissible.
    change (Z.land dstIPv4 dstIPv4 =? 0) with false in E. cbn [ap_Addr ap_Port AddrPort_IsValid Addr_IsValid] in E.
    change (IsLoopback (Addr4 ip)) with (Z.shiftr ip 24 =? 127) in E. change (AddrPort_IsValid (AddrPortFrom (Addr4 ip) port)) with true in E.
    cbn [negb orb] in E.
    destruct (Z.eqb_spec uid (br_proxyUID r)); [simplify_eq; split; [naive_solver|eauto]|].
    destruct (Z.ltb_spec now stamp); [simplify_eq; split; [naive_solver lia|eauto]|].
    destruct (Z.ltb_spec (br_maxAge r) (now - stamp)); [simplify_eq; split; [naive_solver lia|eauto]|].
    destruct (Z.eqb_spec (Z.shiftr ip 24) 127); [simplify_eq; split; [naive_solver|eauto]|].
    destruct (Z.eqb_spec port 0); [simplify_eq; split; [naive_solver|eauto]|].
    simplify_eq. split; [naive_solver lia|]. intros Hn. destruct Hn. split_and!; [done|lia|lia|done|done]. }
  destruct Hres as [Hr1 Hr2]. split_and!; [exact Hr1|exact Hr2|exact Hm'|]. intros now'. unfold Resolve. rewrite H4. cbn [negb].
  by rewrite Hm', lookup_delete_eq.
Qed.
End ResolverTheorems.

(** ** Concrete inputs *)

Definition little_endian : Endian := true.

Definition example_options : Options :=
  {| co_PodPath := "/host/sys/fs/cgroup/kubepods/pod1"; co_HostCgroupMount := "/host/sys/fs/cgroup"; co_LocalCgroupMount := "/sys/fs/cgroup";
     co_ProcCgroupPath := "/proc/self/cgroup"; co_Metrics := true; co_ProxyUID := 1774; co_ProxyGID := 1774;
     co_ListenerAddr := AddrPortFrom (Addr4 0x7f000001) 15001; co_DNSServer := AddrPortFrom (Addr4 0x0a60000a) 53;
     co_BypassCIDRs := [PrefixOf (Addr4 0x0a600000) 12]; co_CaptureIPv6 := false; co_MountBPFFS := true; co_BlockNonTCP := true;
     co_RunProbe := true; co_AllowUnsafeStartup := false; co_AttachCheckInterval := 30 * Second; co_PinLinks := false;
     co_PinRoot := "/sys/fs/bpf"; co_PinRootPrivate := false; co_MapEntries := 0; co_DestMaxAge := 15 * Second;
     co_MinKernel := MinSupportedKernel |}.

Lemma bypass_list_exact_witness : exists key, bypassKeyFor (PrefixOf (Addr4 0x0a600000) 12) = Some key /\ lpm_matches key 0x0a6f0001.
Proof.
  destruct (bypass_list_exact [PrefixOf (Addr4 0x0a600000) 12]) as (_ & H); [by vm_compute|by constructor; [vm_compute; split; congruence|]|].
  destruct (H _ ltac:(by left)) as (key & Hk & _ & _ & Hx). exists key. split; [done|].
  apply (Hx 0x0a6f0001); [by vm_compute; split; congruence|]. exists 0x0a600000. by vm_compute.
Defined.

Lemma config_image_layout_witness : exists image, @buildConfigImage little_endian example_options = Ok image /\ length image = 32%nat.
Proof.
  destruct (@config_image_layout little_endian example_options) as (image & Hi & Hl & _); [by vm_compute|by vm_compute|].
  exists image. split; [exact Hi|exact Hl].
Defined.

Definition example_resolver : BPFDestinationResolver := {| br_proxyUID := 1774; br_maxAge := 15 * Second |}.
Definition example_peer : AddrPort := AddrPortFrom (Addr4 0x0a000002) 40000.
Definition example_map : gmap akshPairKey akshPairValue :=
  {[ @lookup_key little_endian (Addr4 0x0a000002) 40000 := @record_of little_endian 0x5db8d822 443 1000 5 ]}.

Lemma Resolve_recovers_witness :
  (@Resolve little_endian (Some example_resolver) (TCPPeer example_peer) true 6 example_map).1.2 = Ok (AddrPortFrom (Addr4 0x5db8d822) 443).
Proof.
  assert (H := @Resolve_recovers little_endian example_resolver example_peer 0x5db8d822 443 1000 5 6 example_map
    eq_refl ltac:(by vm_compute; split; congruence) ltac:(by vm_compute; split; congruence) ltac:(by vm_compute)).
  destruct (@Resolve little_endian _ _ _ _ _) as [[m' res] ms]. apply H. unfold admissible. vm_compute. split_and!; congruence.
Defined.

(** The kernel floor is an option: [Validate] does not compare it with the supported one, so a
    lower floor is accepted and then used. *)
Lemma kernel_floor_not_enforced : exists o, Options_Validate (Some o) = None /\ AtLeast (co_MinKernel o) MinSupportedKernel = false /\
  AtLeast {| Major := 4; Minor := 9 |} (co_MinKernel o) = true.
Proof.
  exists {| co_PodPath := "/p"; co_HostCgroupMount := "/h"; co_LocalCgroupMount := "/l"; co_ProcCgroupPath := "/c"; co_Metrics := true;
     co_ProxyUID := 1774; co_ProxyGID := 1774; co_ListenerAddr := noAddrPort; co_DNSServer := noAddrPort; co_BypassCIDRs := [];
     co_CaptureIPv6 := false; co_MountBPFFS := false; co_BlockNonTCP := true; co_RunProbe := true; co_AllowUnsafeStartup := false;
     co_AttachCheckInterval := 30 * Second; co_PinLinks := false; co_PinRoot := ""; co_PinRootPrivate := false; co_MapEntries := 0;
     co_DestMaxAge := 0; co_MinKernel := {| Major := 4; Minor := 9 |} |}. by vm_compute.
Qed.

(** The zero listener address is documented to select the default one; the options pass
    [Validate] and the programs are told to redirect to 0.0.0.0:0. *)
Lemma unset_listener_not_defaulted : exists o image, co_ListenerAddr o = noAddrPort /\ Options_Validate (Some o) = None /\
  @buildConfigImage little_endian o = Ok image /\
  kv_listener_ip (@read_config little_endian image) = be_put 4 0 /\ kv_listener_port (@read_config little_endian image) = be_put 2 0.
Proof.
  eexists {| co_PodPath := "/p"; co_HostCgroupMount := "/h"; co_LocalCgroupMount := "/l"; co_ProcCgroupPath := "/c"; co_Metrics := true;
     co_ProxyUID := 1774; co_ProxyGID := 1774; co_ListenerAddr := noAddrPort; co_DNSServer := noAddrPort; co_BypassCIDRs := [];
     co_CaptureIPv6 := false; co_MountBPFFS := false; co_BlockNonTCP := true; co_RunProbe := true; co_AllowUnsafeStartup := false;
     co_AttachCheckInterval := 30 * Second; co_PinLinks := false; co_PinRoot := ""; co_PinRootPrivate := false; co_MapEntries := 0;
     co_DestMaxAge := 0; co_MinKernel := MinSupportedKernel |}, _.
  split_and!; vm_compute; reflexivity.
Qed.
