(* ===== verification/Listener.v ===== *)
(** * [internal/dataplane/listener]: lifecycle and dispatch

    [listener.go] and [options.go].  [Bind], [Serve], [Shutdown], the accept loop and
    one goroutine per connection run concurrently; the state machine interleaves their
    atomic actions (compare-and-swap on the state, the locked sections, sends and
    receives on the semaphore).  The socket calls, the rate limiter, the resolver and
    the connection handler are outcomes chosen by the environment. *)

From S2P Require Import Prelude GoStrings GoRuntime Capture Compile Match Decision Metrics Upstream.
#[local] Open Scope Z_scope.

(** ** Options *)

Record Options := {
  o_Name : gostring; o_ListenAddr : AddrPort; o_Handler : bool; o_Metrics : bool; o_MaxConnections : Z;
  o_PeekTimeout : Duration; o_HandshakeRatePerSecond : Z; o_HandshakeRateBurst : Z; o_BlockNonTCP : bool;
  o_AllowUnsafeStartup : bool
}.

Inductive options_error :=
| ErrMissingOptions | ErrMissingListenAddr | ErrNonLoopbackAddr | ErrMissingName | ErrMissingHandler | ErrMissingMetrics
| ErrInvalidMaxConnections | ErrInvalidPeekTimeout | ErrInvalidHandshakeRate | ErrInvalidHandshakeBurst | ErrRequiresUnsafeStartup.

Definition DefaultOptions : Options :=
  {| o_Name := "listener"; o_ListenAddr := AddrPortFrom (Addr4 0x7f000001) 15001; o_Handler := false; o_Metrics := false;
     o_MaxConnections := 512; o_PeekTimeout := 10 * Second; o_HandshakeRatePerSecond := 50; o_HandshakeRateBurst := 100;
     o_BlockNonTCP := false; o_AllowUnsafeStartup := false |}.

(** [None] is a nil pointer; the result [None] is a nil error. *)
Definition Options_Validate (o : option Options) : option options_error :=
  match o with
  | None => Some ErrMissingOptions
  | Some o =>
      let addr := Unmap (ap_Addr (o_ListenAddr o)) in
      if bool_decide (o_ListenAddr o = AddrPortFrom NoAddr 0) then Some ErrMissingListenAddr
      else if negb (Is4 addr) || negb (IsLoopback addr) then Some ErrNonLoopbackAddr
      else if str_eqb (o_Name o) [] then Some ErrMissingName
      else if negb (o_Handler o) then Some ErrMissingHandler
      else if negb (o_Metrics o) then Some ErrMissingMetrics
      else if o_MaxConnections o <=? 0 then Some ErrInvalidMaxConnections
      else if o_PeekTimeout o <=? 0 then Some ErrInvalidPeekTimeout
      else if o_HandshakeRatePerSecond o <=? 0 then Some ErrInvalidHandshakeRate
      else if o_HandshakeRateBurst o <=? 0 then Some ErrInvalidHandshakeBurst
      else if o_BlockNonTCP o && negb (o_AllowUnsafeStartup o) then Some ErrRequiresUnsafeStartup
      else None
  end.

(** ** State *)

Inductive State := StateNew | StateBinding | StateBound | StateServing | StateClosed.
#[global] Instance State_eq_dec : EqDecision State.
Proof. solve_decision. Defined.

(** Where the [Bind] that reserved the socket is. *)
Inductive bind_pc :=
| BIdle
| BListening        (* state swapped to Binding *)
| BStoring          (* the socket is open *)
| BPublishing       (* [l.ln] is stored *)
| BUndoing.         (* the second swap failed *)

(** Where a call of [Shutdown] is: the number of actions done, of [draining = true],
    [closeSocket] and the four swaps, then waiting, then returned nil or an error. *)
Inductive shutdown_pc := SAt (n : nat) | SWaiting | SReturned (ok : bool).

(** Where the connection's goroutine, or the accept loop on its behalf, is. *)
Inductive conn_status :=
| Accepted
| Slotted           (* sent on [sem] *)
| Running           (* tracked by [wg] *)
| Handling          (* the handler runs *)
| Unwinding         (* socket closed; the remaining deferred calls *)
| Unslotted         (* received from [sem] *)
| Ended.

(** [cn_twice]: a second decision was recorded, because the handler had decided and then panicked, or because the resolver had
    counted the rejection itself. *)
Record conn := Conn { cn_status : conn_status; cn_closed : bool; cn_twice : bool }.

Record listener := {
  l_state : State;
  l_ln : bool;                  (* [l.ln] is not nil *)
  l_sock : option bool;         (* the socket opened by [net.Listen], and whether it is open *)
  l_closeOnce : bool;
  l_bind : bind_pc;
  l_accepting : bool;           (* [Serve]'s loop runs *)
  l_draining : bool;
  l_sem : nat;
  l_wg : nat;
  l_shutdowns : list shutdown_pc;
  l_conns : list conn;
  l_metrics : list (nat * metric)
}.

Definition listener_init : listener :=
  {| l_state := StateNew; l_ln := false; l_sock := None; l_closeOnce := false; l_bind := BIdle; l_accepting := false;
     l_draining := false; l_sem := 0; l_wg := 0; l_shutdowns := []; l_conns := []; l_metrics := [] |}.

(** ** Lifecycle actions *)

(** Assignments to the lifecycle fields. *)
Definition lifecycle (l : listener) st ln sock once bind accepting : listener :=
  {| l_state := st; l_ln := ln; l_sock := sock; l_closeOnce := once; l_bind := bind; l_accepting := accepting;
     l_draining := l_draining l; l_sem := l_sem l; l_wg := l_wg l; l_shutdowns := l_shutdowns l; l_conns := l_conns l;
     l_metrics := l_metrics l |}.

(** [state.CompareAndSwap(old, new)]: whether it swapped and the state after it. *)
Definition cas (old new s : State) : bool * State := if bool_decide (s = old) then (true, new) else (false, s).

Definition set_state (l : listener) (st : State) : listener :=
  lifecycle l st (l_ln l) (l_sock l) (l_closeOnce l) (l_bind l) (l_accepting l).

Definition closeSocket (l : listener) : listener :=
  if l_closeOnce l then l
  else lifecycle l (l_state l) (l_ln l) (if l_ln l then Some false else l_sock l) true (l_bind l) (l_accepting l).

Inductive bind_error := ErrAlreadyBound | ErrBindClosed | ErrListen.

(** The first swap of [Bind]. *)
Definition bind_reserve (l : listener) : result bind_error listener :=
  let '(swapped, st) := cas StateNew StateBinding (l_state l) in
  if swapped then Ok (lifecycle l st (l_ln l) (l_sock l) (l_closeOnce l) BListening (l_accepting l))
  else if bool_decide (st = StateClosed) then Err ErrBindClosed else Err ErrAlreadyBound.

(** [net.Listen], and [rollbackFailedBind] when it fails. *)
Definition bind_listen (ok : bool) (l : listener) : listener :=
  if ok then lifecycle l (l_state l) (l_ln l) (Some true) (l_closeOnce l) BStoring (l_accepting l)
  else lifecycle l (cas StateBinding StateNew (l_state l)).2 (l_ln l) (l_sock l) (l_closeOnce l) BIdle (l_accepting l).

Definition bind_store (l : listener) : listener :=
  lifecycle l (l_state l) true (l_sock l) (l_closeOnce l) BPublishing (l_accepting l).

(** The second swap of [Bind]. *)
Definition bind_publish (l : listener) : listener :=
  let '(swapped, st) := cas StateBinding StateBound (l_state l) in
  lifecycle l st (l_ln l) (l_sock l) (l_closeOnce l) (if swapped then BIdle else BUndoing) (l_accepting l).

(** [l.ln = nil; ln.Close()]. *)
Definition bind_undo (l : listener) : listener :=
  lifecycle l (l_state l) false (Some false) (l_closeOnce l) BIdle (l_accepting l).

Inductive serve_error := ErrNotBound | ErrServeClosed | ErrAlreadyServing.

(** The head of [Serve] up to its swap. *)
Definition serve_start (l : listener) : result serve_error listener :=
  match l_state l with
  | StateNew | StateBinding => Err ErrNotBound
  | StateClosed => Err ErrServeClosed
  | _ =>
      let '(swapped, st) := cas StateBound StateServing (l_state l) in
      if swapped then Ok (lifecycle l st (l_ln l) (l_sock l) (l_closeOnce l) (l_bind l) true)
      else if bool_decide (st = StateClosed) then Err ErrServeClosed else Err ErrAlreadyServing
  end.

(** The accept loop ends: the socket is closed or [Accept] failed for good. *)
Definition serve_end (l : listener) : listener :=
  lifecycle l (cas StateServing StateClosed (l_state l)).2 (l_ln l) (l_sock l) (l_closeOnce l) (l_bind l) false.

Inductive probe_error := ErrProbeNotBound | ErrProbeServing | ErrProbeClosed.
(** The state check of [AcceptProbe]. *)
Definition probe_gate (l : listener) : option probe_error :=
  match l_state l with
  | StateNew | StateBinding => Some ErrProbeNotBound
  | StateServing => Some ErrProbeServing
  | StateClosed => Some ErrProbeClosed
  | StateBound => None
  end.

(** The swaps of [Shutdown], in order. *)
Definition shutdown_cas (n : nat) (s : State) : State :=
  match n with
  | 2%nat => (cas StateServing StateClosed s).2
  | 3%nat => (cas StateBound StateClosed s).2
  | 4%nat => (cas StateBinding StateClosed s).2
  | 5%nat => (cas StateNew StateClosed s).2
  | _ => s
  end.

Definition set_shutdowns (l : listener) (draining : bool) (ss : list shutdown_pc) : listener :=
  {| l_state := l_state l; l_ln := l_ln l; l_sock := l_sock l; l_closeOnce := l_closeOnce l; l_bind := l_bind l;
     l_accepting := l_accepting l; l_draining := draining; l_sem := l_sem l; l_wg := l_wg l; l_shutdowns := ss;
     l_conns := l_conns l; l_metrics := l_metrics l |}.

(** One action of a [Shutdown] that has done [n]. *)
Definition shutdown_action (n : nat) (l : listener) : listener :=
  match n with
  | 0%nat => set_shutdowns l true (l_shutdowns l)
  | 1%nat => closeSocket l
  | _ => set_state l (shutdown_cas n (l_state l))
  end.

Definition shutdown_next (n : nat) : shutdown_pc := if (n <? 5)%nat then SAt (S n) else SWaiting.

(** ** Dispatch *)

Definition rate_rejected : list metric :=
  [deny ReasonResourceLimit false; MTransportReject RejectClassResourceLimit BoundHandshakeRate].
Definition slots_rejected : list metric :=
  [deny ReasonResourceLimit false; MTransportReject RejectClassResourceLimit BoundMaxInflightRequests].
Definition drain_rejected : list metric := [deny ReasonDraining false].

(** The resolver's answer with the decisions that it recorded; the listener may have been built without a resolver. *)
Definition resolve_outcome : Type := option (result resolve_error AddrPort * list sample).
Definition resolver_answer (r : resolve_outcome) : Prop :=
  match r with
  | None => True
  | Some (res, ms) => exists (EN : Endian) resolver peer map_ok now m m', Resolve resolver peer map_ok now m = (m', res, ms)
  end.

(** The goroutine up to [Handle]: its metrics, and whether the handler runs. *)
Definition resolve_metrics (r : resolve_outcome) : list metric * bool :=
  let entered := [MStageDuration StageAcceptDispatch] in
  match r with
  | None => (entered, true)
  | Some (res, ms) =>
      let resolved := entered ++ map MDecisions ms ++ [MStageDuration StageResolve] in
      match res with
      | Ok _ => (resolved, true)
      | Err _ => (resolved ++ [deny ReasonNoOriginalDst false; MTransportReject RejectClassNoOriginalDst BoundNone], false)
      end
  end.
Definition resolver_counted (r : resolve_outcome) : bool := match r with Some (_, _ :: _) => true | _ => false end.

(** A run of the handler: the sample it recorded when it claimed the connection's
    latch, if it did, and how it ended. *)
Inductive handle_result := HReturned (failed : bool) | HPanicked.
Record handle_outcome := { h_decided : option sample; h_result : handle_result }.

(** [Handle], the fallback sample after it and the deferred [recover]. *)
Definition handle_metrics (h : handle_outcome) : list metric :=
  match h_decided h with Some s => [MDecisions s] | None => [] end ++
  match h_result h with
  | HPanicked => [deny ReasonHandlerPanic true]
  | HReturned failed =>
      match h_decided h with
      | Some _ => []
      | None => if failed then [deny ReasonInternal true]
                else [MDecisions (Sample DispositionAllow ReasonNone KindTLS false)]
      end
  end.

Definition set_conns (l : listener) (sem wg : nat) (conns : list conn) (ms : list (nat * metric)) : listener :=
  {| l_state := l_state l; l_ln := l_ln l; l_sock := l_sock l; l_closeOnce := l_closeOnce l; l_bind := l_bind l;
     l_accepting := l_accepting l; l_draining := l_draining l; l_sem := sem; l_wg := wg; l_shutdowns := l_shutdowns l;
     l_conns := conns; l_metrics := ms |}.

(** Connection [i] becomes [c]. *)
Definition at_conn (l : listener) (i : nat) (c : conn) (sem wg : nat) (ms : list metric) : listener :=
  set_conns l sem wg (<[i := c]> (l_conns l)) (l_metrics l ++ by_task i ms).

Definition live (st : conn_status) : conn := Conn st false false.
Definition over (twice : bool) (st : conn_status) : conn := Conn st true twice.

(** The rate limit and the semaphore; [allow] is [handshakeLimiter.Allow()]. *)
Definition dispatch_admit (cap : nat) (allow : bool) (i : nat) (l : listener) : listener :=
  if negb allow then at_conn l i (over false Ended) (l_sem l) (l_wg l) rate_rejected
  else if (cap <=? l_sem l)%nat then at_conn l i (over false Ended) (l_sem l) (l_wg l) slots_rejected
  else at_conn l i (live Slotted) (S (l_sem l)) (l_wg l) [].

(** [trackHandler], and the refusal while draining. *)
Definition dispatch_track (i : nat) (l : listener) : listener :=
  if l_draining l then at_conn l i (over false Ended) (pred (l_sem l)) (l_wg l) drain_rejected
  else at_conn l i (live Running) (l_sem l) (S (l_wg l)) [].

Definition conn_resolve (r : resolve_outcome) (i : nat) (l : listener) : listener :=
  let '(ms, run) := resolve_metrics r in
  at_conn l i (if run then live Handling else over (resolver_counted r) Unwinding) (l_sem l) (l_wg l) ms.

(** The sample of the handler and that of the deferred [recover]. *)
Definition counted_twice (h : handle_outcome) : bool :=
  match h_decided h, h_result h with Some _, HPanicked => true | _, _ => false end.

Definition conn_handle (h : handle_outcome) (i : nat) (l : listener) : listener :=
  at_conn l i (over (counted_twice h) Unwinding) (l_sem l) (l_wg l) (handle_metrics h).

Inductive listener_step (cap : nat) (l : listener) : listener -> Prop :=
| step_bind_reserve l' : bind_reserve l = Ok l' -> listener_step cap l l'
| step_bind_listen ok : l_bind l = BListening -> listener_step cap l (bind_listen ok l)
| step_bind_store : l_bind l = BStoring -> listener_step cap l (bind_store l)
| step_bind_publish : l_bind l = BPublishing -> listener_step cap l (bind_publish l)
| step_bind_undo : l_bind l = BUndoing -> listener_step cap l (bind_undo l)
| step_serve l' : serve_start l = Ok l' -> listener_step cap l l'
(* the context of [Serve] is cancelled *)
| step_serve_cancel : l_accepting l = true -> listener_step cap l (closeSocket l)
| step_serve_end : l_accepting l = true -> listener_step cap l (serve_end l)
| step_accept :
    l_accepting l = true -> l_sock l = Some true ->
    listener_step cap l (set_conns l (l_sem l) (l_wg l) (l_conns l ++ [live Accepted]) (l_metrics l))
| step_admit i c allow :
    l_conns l !! i = Some c -> cn_status c = Accepted -> listener_step cap l (dispatch_admit cap allow i l)
| step_track i c : l_conns l !! i = Some c -> cn_status c = Slotted -> listener_step cap l (dispatch_track i l)
| step_resolve i c r : l_conns l !! i = Some c -> cn_status c = Running -> resolver_answer r -> listener_step cap l (conn_resolve r i l)
| step_handle i c h : l_conns l !! i = Some c -> cn_status c = Handling -> listener_step cap l (conn_handle h i l)
| step_unslot i c :
    l_conns l !! i = Some c -> cn_status c = Unwinding ->
    listener_step cap l (at_conn l i (over (cn_twice c) Unslotted) (pred (l_sem l)) (l_wg l) [])
| step_conn_done i c :
    l_conns l !! i = Some c -> cn_status c = Unslotted ->
    listener_step cap l (at_conn l i (over (cn_twice c) Ended) (l_sem l) (pred (l_wg l)) [])
| step_shutdown_call :
    listener_step cap l (set_shutdowns l (l_draining l) (l_shutdowns l ++ [SAt 0]))
| step_shutdown_action j n :
    l_shutdowns l !! j = Some (SAt n) ->
    listener_step cap l
      (let l := shutdown_action n l in set_shutdowns l (l_draining l) (<[j := shutdown_next n]> (l_shutdowns l)))
| step_shutdown_done j :
    l_shutdowns l !! j = Some SWaiting -> l_wg l = 0%nat ->
    listener_step cap l (set_shutdowns l (l_draining l) (<[j := SReturned true]> (l_shutdowns l)))
| step_shutdown_timeout j :
    l_shutdowns l !! j = Some SWaiting ->
    listener_step cap l (set_shutdowns l (l_draining l) (<[j := SReturned false]> (l_shutdowns l))).

(** ** Invariants *)






Definition socket_ok (l : listener) : Prop :=
  match l_bind l with
  | BIdle =>
      match l_state l with
      | StateNew => l_ln l = false /\ l_sock l = None
      | StateBinding => False
      | StateBound | StateServing => l_ln l = true /\ is_Some (l_sock l)
      | StateClosed => True
      end
  | BListening => (l_state l = StateBinding \/ l_state l = StateClosed) /\ l_ln l = false /\ l_sock l = None
  | BStoring => (l_state l = StateBinding \/ l_state l = StateClosed) /\ l_ln l = false /\ l_sock l = Some true
  | BPublishing => (l_state l = StateBinding \/ l_state l = StateClosed) /\ l_ln l = true /\ is_Some (l_sock l)
  | BUndoing => l_state l = StateClosed /\ is_Some (l_sock l)
  end.








Lemma bind_reserve_ok l l' : bind_reserve l = Ok l' ->
  l_state l = StateNew /\ l' = lifecycle l StateBinding (l_ln l) (l_sock l) (l_closeOnce l) BListening (l_accepting l).
Proof. unfold bind_reserve, cas. case_bool_decide as E; [by intros [= <-]|by case_bool_decide]. Qed.

Lemma serve_start_ok l l' : serve_start l = Ok l' ->
  l_state l = StateBound /\ l' = lifecycle l StateServing (l_ln l) (l_sock l) (l_closeOnce l) (l_bind l) true.
Proof.
  unfold serve_start, cas. destruct (l_state l) eqn:Es; try done; case_bool_decide as E; try done.
  by intros [= <-].
Qed.





(** ** Lifecycle *)

(** The changes of state that the code performs. *)
Definition allowed (s s' : State) : bool :=
  match s, s' with
  | StateNew, StateBinding | StateBinding, StateNew | StateBinding, StateBound | StateBound, StateServing
  | (StateNew | StateBinding | StateBound | StateServing), StateClosed => true
  | _, _ => bool_decide (s = s')
  end.

Lemma allowed_refl s : allowed s s = true.
Proof. by destruct s. Qed.

Lemma cas_snd old new s : (cas old new s).2 = if bool_decide (s = old) then new else s.
Proof. unfold cas. by case_bool_decide. Qed.

Lemma shutdown_cas_spec n s : shutdown_cas n s = s \/ shutdown_cas n s = StateClosed.
Proof. destruct n as [|[|[|[|[|[|n]]]]]]; cbn [shutdown_cas]; rewrite ?cas_snd; try case_bool_decide; auto. Qed.

Lemma socket_ok_close l : socket_ok l -> socket_ok (set_state l StateClosed).
Proof. unfold socket_ok. cbn. destruct (l_bind l), (l_state l); try done; intuition. Qed.

Lemma socket_ok_frame l l' : l_state l' = l_state l -> l_ln l' = l_ln l -> l_sock l' = l_sock l -> l_bind l' = l_bind l ->
  socket_ok l -> socket_ok l'.
Proof. unfold socket_ok. intros -> -> -> ->. done. Qed.

Lemma socket_ok_closeSocket l : socket_ok l -> socket_ok (closeSocket l).
Proof.
  unfold closeSocket. destruct (l_closeOnce l); [done|]. unfold socket_ok. cbn.
  destruct (l_bind l), (l_state l), (l_ln l); try done; intuition (eauto; congruence).
Qed.

Lemma closeSocket_state l : l_state (closeSocket l) = l_state l.
Proof. unfold closeSocket. by destruct (l_closeOnce l). Qed.

Lemma shutdown_action_ok n l : socket_ok l -> socket_ok (shutdown_action n l) /\ allowed (l_state l) (l_state (shutdown_action n l)) = true.
Proof.
  intros H. destruct n as [|[|n]]; cbn [shutdown_action].
  - split; [by apply (socket_ok_frame l)|apply allowed_refl].
  - split; [by apply socket_ok_closeSocket|rewrite closeSocket_state; apply allowed_refl].
  - cbn [l_state set_state lifecycle]. destruct (shutdown_cas_spec (S (S n)) (l_state l)) as [E|E]; rewrite E.
    + split; [by apply (socket_ok_frame l)|apply allowed_refl].
    + split; [by apply socket_ok_close|by destruct (l_state l)].
Qed.

(** The actions of [Bind]. *)
Lemma bind_ok l : socket_ok l ->
  (forall l', bind_reserve l = Ok l' -> socket_ok l' /\ allowed (l_state l) (l_state l') = true) /\
  (l_bind l = BListening -> forall ok, socket_ok (bind_listen ok l) /\ allowed (l_state l) (l_state (bind_listen ok l)) = true) /\
  (l_bind l = BStoring -> socket_ok (bind_store l) /\ allowed (l_state l) (l_state (bind_store l)) = true) /\
  (l_bind l = BPublishing -> socket_ok (bind_publish l) /\ allowed (l_state l) (l_state (bind_publish l)) = true) /\
  (l_bind l = BUndoing -> socket_ok (bind_undo l) /\ allowed (l_state l) (l_state (bind_undo l)) = true).
Proof.
  unfold socket_ok. intros H. split_and!.
  - intros l' [E ->]%bind_reserve_ok. rewrite E in *. cbn. destruct (l_bind l); intuition congruence.
  - intros Hb ok. rewrite Hb in H. destruct H as (E & Hl & Hk). destruct ok; cbn; [split; [done|apply allowed_refl]|].
    rewrite cas_snd. case_bool_decide as Eb; [by rewrite Eb|]. destruct E as [E|E]; [done|]. by rewrite E.
  - intros Hb. rewrite Hb in H. destruct H as (E & Hl & Hk). cbn. rewrite Hk. split; [by eauto|apply allowed_refl].
  - intros Hb. rewrite Hb in H. destruct H as (E & Hl & Hk). unfold bind_publish, cas.
    case_bool_decide as Eb; cbn; [by rewrite Eb|]. destruct E as [E|E]; [done|]. by rewrite E.
  - intros Hb. rewrite Hb in H. destruct H as (E & Hk). cbn. by rewrite E.
Qed.

Lemma lifecycle_step cap l l' : socket_ok l -> listener_step cap l l' -> socket_ok l' /\ allowed (l_state l) (l_state l') = true.
Proof.
  intros H Hstep.
  assert (Hsame : forall l', l_state l' = l_state l -> l_ln l' = l_ln l -> l_sock l' = l_sock l -> l_bind l' = l_bind l ->
    socket_ok l' /\ allowed (l_state l) (l_state l') = true).
  { intros x E1 E2 E3 E4. split; [by apply (socket_ok_frame l)|rewrite E1; apply allowed_refl]. }
  assert (Hconn : forall i c sem wg ms, socket_ok (at_conn l i c sem wg ms) /\ allowed (l_state l) (l_state (at_conn l i c sem wg ms)) = true)
    by (intros; by apply Hsame).
  destruct Hstep as [l' E|ok Hb|Hb|Hb|Hb|l' E|Ha|Ha|Ha Hk|i c allow Hi Hs|i c Hi Hs|i c r Hi Hs|i c h Hi Hs|i c Hi Hs|i c Hi Hs| |j n Hj|j Hj Hw|j Hj].
  - by apply (bind_ok l).
  - by apply (bind_ok l).
  - by apply (bind_ok l).
  - by apply (bind_ok l).
  - by apply (bind_ok l).
  - apply serve_start_ok in E as [E ->]. clear Hsame Hconn. unfold socket_ok in *. rewrite E in *. cbn.
    destruct (l_bind l); intuition congruence.
  - split; [by apply socket_ok_closeSocket|rewrite closeSocket_state; apply allowed_refl].
  - unfold serve_end. cbn. rewrite cas_snd. case_bool_decide as E.
    + split; [by apply (socket_ok_close l) in H|by rewrite E].
    + split; [by apply (socket_ok_frame l)|apply allowed_refl].
  - by apply Hsame.
  - unfold dispatch_admit. destruct allow; cbn [negb]; [destruct (_ <=? _)%nat|]; apply Hconn.
  - unfold dispatch_track. destruct (l_draining l); apply Hconn.
  - unfold conn_resolve. destruct (resolve_metrics r). apply Hconn.
  - apply Hconn.
  - apply Hconn.
  - apply Hconn.
  - by apply Hsame.
  - destruct (shutdown_action_ok n l H) as [H1 H2]. split; [by apply (socket_ok_frame (shutdown_action n l))|done].
  - by apply Hsame.
  - by apply Hsame.
Qed.

Lemma socket_ok_reachable cap l : rtc (listener_step cap) listener_init l -> socket_ok l.
Proof.
  intros H. apply (rtc_ind_r (R := listener_step cap) socket_ok listener_init); [done| |exact H].
  intros x y _ Hs I. by eapply lifecycle_step.
Qed.

(** The lifecycle is safe under concurrent [Bind], [Serve], [AcceptProbe] and
    [Shutdown]: whenever the state is [StateBound] or [StateServing], the listening
    socket has been stored, so no caller that passes its state check uses a nil
    listener; the state moves only along [New], [Binding], [Bound], [Serving],
    [Closed], back from [Binding] to [New], or to [Closed]; and [Closed] is final. *)
Theorem listener_lifecycle cap l l' :
  rtc (listener_step cap) listener_init l -> listener_step cap l l' ->
  (probe_gate l = None \/ l_state l = StateServing -> l_ln l = true /\ is_Some (l_sock l)) /\
  allowed (l_state l) (l_state l') = true /\ (l_state l = StateClosed -> l_state l' = StateClosed).
Proof.
  intros H%socket_ok_reachable Hs. destruct (lifecycle_step _ _ _ H Hs) as [_ Ha]. split_and!; [|done|].
  - unfold probe_gate. intros Hst. unfold socket_ok in H. destruct (l_state l), (l_bind l); intuition congruence.
  - intros E. rewrite E in Ha. by destruct (l_state l').
Qed.

(** ** A race between [Bind] and [Shutdown] *)

(** A listener whose socket is open and whose only means to close it are used up. *)
Definition stuck_open (l : listener) : Prop :=
  l_sock l = Some true /\ l_closeOnce l = true /\ l_bind l = BIdle /\ l_state l <> StateNew.

Lemma stuck_open_step cap l l' : stuck_open l -> listener_step cap l l' -> stuck_open l'.
Proof.
  intros (Hk & Ho & Hb & Hn) Hstep.
  assert (Hclose : closeSocket l = l) by (unfold closeSocket; by rewrite Ho).
  destruct Hstep as [l' E| | | | |l' E|Ha|Ha|Ha _|i c allow Hi Hs|i c Hi Hs|i c r Hi Hs|i c h Hi Hs|i c Hi Hs|i c Hi Hs| |j n Hj|j Hj Hw|j Hj];
    try congruence; try done.
  - apply bind_reserve_ok in E as [E _]. congruence.
  - apply serve_start_ok in E as [_ ->]. done.
  - by rewrite Hclose.
  - unfold stuck_open, serve_end. cbn. rewrite cas_snd. by case_bool_decide.
  - unfold dispatch_admit. destruct allow; cbn [negb]; [destruct (_ <=? _)%nat|]; done.
  - unfold dispatch_track. by destruct (l_draining l).
  - unfold conn_resolve. by destruct (resolve_metrics r).
  - destruct n as [|[|n]]; cbn [shutdown_action]; [done| |].
    + by rewrite Hclose.
    + unfold stuck_open. cbn [set_shutdowns l_sock l_closeOnce l_bind l_state set_state lifecycle].
      destruct (shutdown_cas_spec (S (S n)) (l_state l)) as [-> | ->]; done.
Qed.

Lemma stuck_open_run cap l l' : stuck_open l -> rtc (listener_step cap) l l' -> stuck_open l'.
Proof. intros H Hr. induction Hr; [done|]. eauto using stuck_open_step. Qed.

Definition shutdown_by (n : nat) (l : listener) : listener :=
  let l := shutdown_action n l in set_shutdowns l (l_draining l) (<[0%nat := shutdown_next n]> (l_shutdowns l)).

(** [Shutdown] starts; [Bind] reserves and opens its socket while [Shutdown] finds
    nothing to close; [Bind] publishes between the swaps that would have noticed. *)
Definition race_start : listener := shutdown_by 0 (set_shutdowns listener_init false [SAt 0]).
Definition race_reserved : listener := lifecycle race_start StateBinding false None false BListening false.
Definition race_stored : listener := bind_store (bind_listen true (shutdown_by 1 race_reserved)).
Definition race_bound : listener := bind_publish (shutdown_by 3 (shutdown_by 2 race_stored)).
Definition race_waiting : listener := shutdown_by 5 (shutdown_by 4 race_bound).
Definition race_end : listener := set_shutdowns race_waiting true [SReturned true].

(** One step of a concrete run, with the state after it evaluated. *)
Ltac run_step c :=
  eapply rtc_l; [by c|];
  match goal with |- rtc _ ?x _ => let y := eval vm_compute in x in change x with y end.

Lemma race_steps cap : rtc (listener_step cap) listener_init race_end.
Proof.
  let y := eval vm_compute in race_end in change race_end with y.
  run_step ltac:(apply (step_shutdown_call cap)). run_step ltac:(apply (step_shutdown_action cap _ 0 0)).
  run_step ltac:(apply (step_bind_reserve cap); reflexivity). run_step ltac:(apply (step_shutdown_action cap _ 0 1)).
  run_step ltac:(apply (step_bind_listen cap _ true)). run_step ltac:(apply (step_bind_store cap)).
  run_step ltac:(apply (step_shutdown_action cap _ 0 2)). run_step ltac:(apply (step_shutdown_action cap _ 0 3)).
  run_step ltac:(apply (step_bind_publish cap)). run_step ltac:(apply (step_shutdown_action cap _ 0 4)).
  run_step ltac:(apply (step_shutdown_action cap _ 0 5)). run_step ltac:(apply (step_shutdown_done cap _ 0)).
  apply rtc_refl.
Qed.

(** [Shutdown] can return nil and leave the listener open.  When [Bind] stores its
    socket after [Shutdown] has looked for it and publishes it between [Shutdown]'s
    four swaps of the state, [Shutdown] reports success with the state still
    [StateBound] and the socket listening; [closeSocket] runs only once, so nothing the
    listener does afterwards, another [Shutdown] or a cancelled [Serve] included, ever
    closes it. *)
Theorem shutdown_bind_race cap :
  exists l, rtc (listener_step cap) listener_init l /\ l_shutdowns l = [SReturned true] /\ l_state l = StateBound /\
    forall l', rtc (listener_step cap) l l' -> l_sock l' = Some true.
Proof.
  exists race_end. split; [apply race_steps|]. split; [reflexivity|]. split; [reflexivity|].
  assert (stuck_open race_end) as Hopen by (split_and!; [reflexivity..|vm_compute; discriminate]).
  intros l' Hl. by apply (stuck_open_run cap race_end l' Hopen Hl).
Qed.

(** A run with one connection whose handler returns without deciding. *)
Definition served : listener :=
  lifecycle (bind_publish (bind_store (bind_listen true (lifecycle listener_init StateBinding false None false BListening false))))
    StateServing true (Some true) false BIdle true.
Definition one_conn : listener := set_conns served 0 0 [live Accepted] [].

Lemma served_steps : rtc (listener_step 1) listener_init served.
Proof.
  let y := eval vm_compute in served in change served with y.
  run_step ltac:(apply step_bind_reserve; reflexivity). run_step ltac:(apply (step_bind_listen 1 _ true)).
  run_step ltac:(apply step_bind_store). run_step ltac:(apply step_bind_publish).
  run_step ltac:(apply step_serve; reflexivity). apply rtc_refl.
Qed.



Lemma listener_lifecycle_witness : l_ln served = true.
Proof.
  destruct (listener_lifecycle 1 served one_conn) as [H _].
  - exact served_steps.
  - by apply step_accept.
  - apply H. by right.
Defined.

(** The listener is documented to map every failed resolution to exactly one decision without double counting.  A connection of the
    proxy itself, which the resolver refuses and counts, is counted again. *)
Definition own_resolver : BPFDestinationResolver := {| br_proxyUID := 1774; br_maxAge := 15 * Second |}.
Definition own_peer : AddrPort := AddrPortFrom (Addr4 0x0A000007) 40000.
Definition own_record : akshPairValue := {| pv_IP := 1; pv_Port := 1; pv_Flags := dstIPv4; pv_UID := 1774; pv_Pad := 0; pv_StampNS := 0 |}.
Definition own_answer : resolve_outcome := Some (Err Capture.ErrLoopGuard, [Sample DispositionDeny ReasonLoopGuard KindTLS true]).
Lemma own_answer_given : resolver_answer own_answer.
Proof.
  exists true, (Some own_resolver), (TCPPeer own_peer), true, 0, {[ lookup_key (EN := true) (Unmap (ap_Addr own_peer)) (ap_Port own_peer) := own_record ]}, ∅.
  by vm_compute.
Qed.
Definition own_handled : listener := conn_resolve own_answer 0 (dispatch_track 0 (dispatch_admit 1 true 0 one_conn)).
Lemma loop_guard_counted_twice : rtc (listener_step 1) listener_init own_handled /\ count_decisions (metrics_of 0 (l_metrics own_handled)) = 2%nat.
Proof.
  split; [|done]. etransitivity; [apply served_steps|].
  let y := eval vm_compute in own_handled in change own_handled with y.
  run_step ltac:(apply step_accept). run_step ltac:(apply (step_admit 1 _ 0 (live Accepted) true)).
  run_step ltac:(apply (step_track 1 _ 0 (live Slotted))). run_step ltac:(apply (step_resolve 1 _ 0 (live Running) own_answer); [| |exact own_answer_given]).
  apply rtc_refl.
Qed.
