(* ===== verification/Connection.v ===== *)
(** * [listener/types.go], [handover.go] and the rest of [listener.go]: what the layers of a connection share

    The taxonomy of transport rejections, the identifier of a connection and of its requests, the latch of its one decision
    sample as a shared object, and [AcceptProbe], whose path for listeners without deadlines races a timer against [Accept]. *)

From S2P Require Import Prelude GoStrings Credential Wire Metrics Listener Handler.
#[local] Open Scope Z_scope.

(** ** Transport rejections *)

(** [RejectClass] is an [int]: any value can occur. *)
Definition RejectNone : Z := 0.
Definition RejectNoOriginalDst : Z := 1.
Definition RejectLoopGuard : Z := 2.
Definition RejectNoSNI : Z := 3.
Definition RejectHandshake : Z := 4.
Definition RejectUnsupportedProtocol : Z := 5.
Definition RejectIdentityMismatch : Z := 6.
Definition RejectResourceLimit : Z := 7.
Definition RejectPlaintextUnresolvable : Z := 8.
Definition RejectPlaintextRegistryUnavail : Z := 9.

Definition RejectClass_String (r : Z) : gostring :=
  if r =? RejectNoOriginalDst then "no_original_dst"
  else if r =? RejectLoopGuard then "loop_guard"
  else if r =? RejectNoSNI then "no_sni"
  else if r =? RejectHandshake then "handshake"
  else if r =? RejectUnsupportedProtocol then "unsupported_protocol"
  else if r =? RejectIdentityMismatch then "identity_mismatch"
  else if r =? RejectResourceLimit then "resource_limit"
  else if r =? RejectPlaintextUnresolvable then "plaintext_unresolvable"
  else if r =? RejectPlaintextRegistryUnavail then "plaintext_registry_unavailable"
  else "none".

Definition RejectClass_Code (r : Z) : gostring :=
  if (r <? RejectNoOriginalDst) || (RejectPlaintextRegistryUnavail <? r) then []
  else default [] (map bs ["T1"; "T2"; "T3"; "T4"; "T5"; "T6"; "T7"; "T8"; "T9"]%string !! Z.to_nat (r - RejectNoOriginalDst)).

Ltac outside_classes := unfold RejectClass_Code, RejectClass_String, RejectNoOriginalDst, RejectLoopGuard, RejectNoSNI, RejectHandshake, RejectUnsupportedProtocol,
  RejectIdentityMismatch, RejectResourceLimit, RejectPlaintextUnresolvable, RejectPlaintextRegistryUnavail; repeat (case_match; try lia); done.

(** A code and a label for each rejection, and neither for any other integer: the index of the table is never out of range, and
    the label is one of the metric's closed enumeration, which reads it back. *)
Lemma RejectClass_taxonomy r :
  if (1 <=? r) && (r <=? 9) then RejectClass_Code r = bs "T" ++ Itoa (Z.to_nat r) /\ RejectClass_String r <> bs "none" /\
    MetricRejectClass_String (MetricRejectClassFromString (RejectClass_String r)) = RejectClass_String r
  else RejectClass_Code r = [] /\ RejectClass_String r = bs "none".
Proof.
  destruct (Z.leb_spec 1 r), (Z.leb_spec r 9); cbn [andb].
  - assert (r ∈ seqZ 1 9) as Hr by (apply elem_of_seqZ; lia). change (r ∈ [1; 2; 3; 4; 5; 6; 7; 8; 9]) in Hr.
    by repeat (apply elem_of_cons in Hr as [->|Hr]; [done|]); apply elem_of_nil in Hr.
  - outside_classes.
  - outside_classes.
  - lia.
Qed.

(** ** Identifiers *)

Definition hex_byte (c : ascii) : gostring := [hex_lower (code c / 16); hex_lower (code c mod 16)].
Definition EncodeToString (b : gostring) : gostring := concat (map hex_byte b).
(** [None]: [rand.Read] fails. *)
Definition newConnID (rand : option gostring) : gostring :=
  match rand with None => [] | Some b => EncodeToString b end.

Lemma hex_lower_inj a b : 0 <= a < 16 -> 0 <= b < 16 -> hex_lower a = hex_lower b -> a = b.
Proof. intros Ha%hex_value_lower Hb%hex_value_lower H. congruence. Qed.
Lemma code_nibbles c : 0 <= code c / 16 < 16 /\ 0 <= code c mod 16 < 16.
Proof. pose proof (code_bound c). split; [split; [apply Z.div_pos|apply Z.div_lt_upper_bound]; lia|by apply Z.mod_pos_bound]. Qed.
Lemma hex_byte_inj a b : hex_byte a = hex_byte b -> a = b.
Proof.
  intros [= H1 H2]. destruct (code_nibbles a), (code_nibbles b). apply hex_lower_inj in H1; [|done..]. apply hex_lower_inj in H2; [|done..].
  apply code_inj. rewrite (Z.div_mod (code a) 16), (Z.div_mod (code b) 16) by done. by rewrite H1, H2.
Qed.
Lemma EncodeToString_inj a : forall b, EncodeToString a = EncodeToString b -> a = b.
Proof.
  induction a as [|x a IH]; intros [|y b]; try done. unfold EncodeToString. cbn [map concat]. intros H.
  change ((hex_byte x ++ EncodeToString a) = (hex_byte y ++ EncodeToString b)) in H. apply app_inj_1 in H as [H1%hex_byte_inj H2]; [|done].
  by rewrite H1, (IH b H2).
Qed.
Lemma EncodeToString_length b : length (EncodeToString b) = (2 * length b)%nat.
Proof. induction b as [|x b IH]; [done|]. unfold EncodeToString in *. cbn. rewrite IH. lia. Qed.

(** What [rand.Read] leaves in the array of sixteen bytes. *)
Definition drawn (rand : option gostring) : Prop := match rand with None => True | Some b => length b = 16%nat end.

Lemma newConnID_inj r r' : drawn r -> drawn r' -> newConnID r = newConnID r' -> r = r'.
Proof.
  destruct r as [b|], r' as [b'|]; cbn; intros Hl Hl' H; try done.
  - by rewrite (EncodeToString_inj _ _ H).
  - apply (f_equal length) in H. rewrite EncodeToString_length in H. cbn in H. lia.
  - apply (f_equal length) in H. rewrite EncodeToString_length in H. cbn in H. lia.
Qed.
Lemma hex_not_r b rest tail : EncodeToString b ++ rest = "r"%char :: tail -> b = [].
Proof.
  destruct b as [|x b]; [done|]. unfold EncodeToString. cbn. intros [= H _]. destruct (code_nibbles x) as [Hx _].
  apply hex_value_lower in Hx. rewrite H in Hx. done.
Qed.

(** Request identifiers tell requests apart: two requests have the same one only if they have the same ordinal on connections
    with the same random draw, and the fallback of a failed draw is never the identifier of a request on a connection that has one. *)
Theorem request_ids_distinct r r' n n' :
  drawn r -> drawn r' -> requestID (newConnID r) n = requestID (newConnID r') n' -> r = r' /\ n = n'.
Proof.
  intros Hr Hr'. unfold requestID. destruct (str_eqb (newConnID r) []) eqn:E, (str_eqb (newConnID r') []) eqn:E'.
  - apply str_eqb_eq in E, E'. intros [_ H]%app_inj_1; [|done]. split; [apply newConnID_inj; congruence|by apply Itoa_inj].
  - destruct r' as [b|]; [|done]. intros H. symmetry in H. apply hex_not_r in H as ->. done.
  - destruct r as [b|]; [|done]. intros H. apply hex_not_r in H as ->. done.
  - destruct r as [b|], r' as [b'|]; try done. cbn in *. intros [H1 H2]%app_inj_1; [|by rewrite !EncodeToString_length, Hr, Hr'].
    apply EncodeToString_inj in H1 as ->. apply app_inj_1 in H2 as [_ H2]; [|done]. by apply Itoa_inj in H2 as ->.
Qed.
Lemma request_ids_distinct_witness :
  requestID (newConnID (Some (repeat "a"%char 16))) 1 <> requestID (newConnID (Some (repeat "a"%char 16))) 2 /\
  requestID (newConnID None) 1 <> requestID (newConnID (Some (repeat "a"%char 16))) 1.
Proof. by split; intros [H1 H2]%request_ids_distinct. Defined.

(** ** The latch *)

(** The latches of the process, by address; a compare-and-swap is one atomic step, so a run of several goroutines is a sequence of claims. *)
Notation latches := (list bool).
Definition latch_CompareAndSwap (p : nat) (s : latches) : latches * bool :=
  match s !! p with Some false => (<[p := true]> s, true) | _ => (s, false) end.

(** A pointer to a [ConnContext] is the address of the latch in it; [None] is nil. *)
Definition ConnContext_MarkDecided (c : option nat) (s : latches) : latches * bool :=
  match c with None => (s, false) | Some p => latch_CompareAndSwap p s end.
Definition ConnContext_Decided (c : option nat) (s : latches) : bool :=
  match c with None => false | Some p => default false (s !! p) end.
Definition DecisionLatch (c : option nat) : option nat := c.
(** [Handover.MarkDecided]; the argument is its field [decided]. *)
Definition Handover_MarkDecided (decided : option nat) (s : latches) : latches * bool :=
  match decided with None => (s, true) | Some p => latch_CompareAndSwap p s end.

(** The layers: those that hold the context of a connection, and those that hold the handover made from it. *)
Inductive site := InContext (c : option nat) | InHandover (c : option nat).
Definition of_conn (x : site) : option nat := match x with InContext c | InHandover c => c end.
Definition claim (x : site) (s : latches) : latches * bool :=
  match x with InContext c => ConnContext_MarkDecided c s | InHandover c => Handover_MarkDecided (DecisionLatch c) s end.
Fixpoint claims (xs : list site) (s : latches) : latches * list bool :=
  match xs with
  | [] => (s, [])
  | x :: xs => let '(s, won) := claim x s in let '(s, ws) := claims xs s in (s, won :: ws)
  end.
(** The claims that won on connection [p]. *)
Definition wins (p : nat) (xs : list site) (ws : list bool) : nat :=
  length (filter (fun '(x, won) => of_conn x = Some p /\ won = true) (zip xs ws)).
Definition tries (p : nat) (xs : list site) : nat := length (filter (fun x => of_conn x = Some p) xs).

Lemma claim_lookup x (s : latches) p : (claim x s).1 !! p = if bool_decide (of_conn x = Some p) then const true <$> s !! p else s !! p.
Proof.
  assert (forall q, (latch_CompareAndSwap q s).1 !! p = if bool_decide (Some q = Some p) then const true <$> s !! p else s !! p) as H.
  { intros q. unfold latch_CompareAndSwap. destruct (decide (q = p)) as [->|Hq].
    - rewrite bool_decide_eq_true_2 by done. destruct (s !! p) as [[]|] eqn:E; cbn [fst]; rewrite ?E; [done| |done].
      by rewrite list_lookup_insert_eq by by eapply lookup_lt_Some.
    - rewrite bool_decide_eq_false_2 by congruence. destruct (s !! q) as [[]|]; cbn [fst]; [done| |done]. by rewrite list_lookup_insert_ne. }
  by destruct x as [[q|]|[q|]]; cbn.
Qed.
Lemma claim_wins x (s : latches) p b : of_conn x = Some p -> s !! p = Some b -> (claim x s).2 = negb b.
Proof. destruct x; cbn; intros -> H; cbn; unfold latch_CompareAndSwap; rewrite H; by destruct b. Qed.

(** Of all the claims on one connection's latch, through its context or through the copies of its handover, the first wins and no other,
    whatever happens on other connections in between; so a connection has one decision sample if any layer reaches a verdict. *)
Lemma latch_claimed_once xs : forall (s : latches) (p : nat) (b : bool), s !! p = Some b ->
  wins p xs (claims xs s).2 = (if b then 0 else Nat.min 1 (tries p xs))%nat /\
  ConnContext_Decided (Some p) (claims xs s).1 = b || (0 <? tries p xs)%nat.
Proof.
  induction xs as [|x xs IH]; intros s p b Hb.
  - cbn. rewrite Hb. by destruct b.
  - cbn [claims]. pose proof (claim_lookup x s p) as Hl. pose proof (claim_wins x s p b) as Hw. destruct (claim x s) as [s' won]. cbn [fst snd] in *. rewrite Hb in Hl.
    unfold wins, tries in *. rewrite filter_cons. destruct (decide (of_conn x = Some p)) as [Hx|Hx].
    + rewrite bool_decide_eq_true_2 in Hl by done. specialize (IH s' p true Hl). destruct (claims xs s') as [s'' ws]. cbn [fst snd zip zip_with] in *. rewrite filter_cons.
      rewrite (Hw Hx Hb). destruct IH as [IH1 IH2]. destruct b; cbn [negb].
      * rewrite decide_False by naive_solver. by rewrite IH1, IH2.
      * rewrite decide_True by done. cbn [length]. rewrite IH1, IH2. split; [lia|done].
    + rewrite bool_decide_eq_false_2 in Hl by done. specialize (IH s' p b Hl). destruct (claims xs s') as [s'' ws]. cbn [fst snd zip zip_with] in *. rewrite filter_cons.
      rewrite decide_False by naive_solver. done.
Qed.

(** ** [AcceptProbe] *)

Inductive accepted := Accepted_conn (c : nat) | AcceptClosed | AcceptDeadline | AcceptOther.
Inductive probe_failure := ProbeGate (e : probe_error) | ProbeDeadline | ProbeOther.

Definition translateAcceptProbeErr (r : accepted) : result probe_failure nat :=
  match r with
  | Accepted_conn c => Ok c
  | AcceptClosed => Err (ProbeGate ErrProbeClosed)
  | AcceptDeadline => Err ProbeDeadline
  | AcceptOther => Err ProbeOther
  end.

(** On a [*net.TCPListener], whose [Accept] honours the deadline and ends as [r]. *)
Definition AcceptProbe (l : listener) (r : accepted) : result probe_failure nat :=
  match probe_gate l with Some e => Err (ProbeGate e) | None => translateAcceptProbeErr r end.

(** On another listener: the goroutine that accepts, the channel with one slot, the caller and the goroutine that drains the channel
    after the deadline.  [p_closed] are the connections that were closed. *)
Inductive acceptor_pc := Accepting | Sending (r : accepted) | AcceptorDone.
Inductive prober_pc := ProbeWaiting | ProbeReturned (r : result probe_failure nat).
Inductive drainer_pc := NoDrainer | DrainWaiting | DrainClosing (c : nat) | DrainDone.
Record probing := { p_acceptor : acceptor_pc; p_resultCh : option accepted; p_prober : prober_pc; p_drainer : drainer_pc; p_closed : list nat }.

Definition probe_start : probing := {| p_acceptor := Accepting; p_resultCh := None; p_prober := ProbeWaiting; p_drainer := NoDrainer; p_closed := [] |}.
Definition drained (r : accepted) : drainer_pc := match r with Accepted_conn c => DrainClosing c | _ => DrainDone end.

Inductive probe_step : probing -> probing -> Prop :=
| step_accept r ch p d cl :
    probe_step {| p_acceptor := Accepting; p_resultCh := ch; p_prober := p; p_drainer := d; p_closed := cl |}
      {| p_acceptor := Sending r; p_resultCh := ch; p_prober := p; p_drainer := d; p_closed := cl |}
| step_send r p d cl :
    probe_step {| p_acceptor := Sending r; p_resultCh := None; p_prober := p; p_drainer := d; p_closed := cl |}
      {| p_acceptor := AcceptorDone; p_resultCh := Some r; p_prober := p; p_drainer := d; p_closed := cl |}
| step_receive a r d cl :
    probe_step {| p_acceptor := a; p_resultCh := Some r; p_prober := ProbeWaiting; p_drainer := d; p_closed := cl |}
      {| p_acceptor := a; p_resultCh := None; p_prober := ProbeReturned (translateAcceptProbeErr r); p_drainer := d; p_closed := cl |}
| step_timer a ch d cl :
    probe_step {| p_acceptor := a; p_resultCh := ch; p_prober := ProbeWaiting; p_drainer := d; p_closed := cl |}
      {| p_acceptor := a; p_resultCh := ch; p_prober := ProbeReturned (Err ProbeDeadline); p_drainer := DrainWaiting; p_closed := cl |}
| step_drain a r p cl :
    probe_step {| p_acceptor := a; p_resultCh := Some r; p_prober := p; p_drainer := DrainWaiting; p_closed := cl |}
      {| p_acceptor := a; p_resultCh := None; p_prober := p; p_drainer := drained r; p_closed := cl |}
| step_close a ch p c cl :
    probe_step {| p_acceptor := a; p_resultCh := ch; p_prober := p; p_drainer := DrainClosing c; p_closed := cl |}
      {| p_acceptor := a; p_resultCh := ch; p_prober := p; p_drainer := DrainDone; p_closed := c :: cl |}.

(** Where the result of the accept is, once there is one: the states that can be reached. *)
Definition undecided : list (prober_pc * drainer_pc) := [(ProbeWaiting, NoDrainer); (ProbeReturned (Err ProbeDeadline), DrainWaiting)].
Inductive probe_shape : option accepted -> probing -> Prop :=
| shape_accepting p d : (p, d) ∈ undecided ->
    probe_shape None {| p_acceptor := Accepting; p_resultCh := None; p_prober := p; p_drainer := d; p_closed := [] |}
| shape_sending r p d : (p, d) ∈ undecided ->
    probe_shape (Some r) {| p_acceptor := Sending r; p_resultCh := None; p_prober := p; p_drainer := d; p_closed := [] |}
| shape_sent r p d : (p, d) ∈ undecided ->
    probe_shape (Some r) {| p_acceptor := AcceptorDone; p_resultCh := Some r; p_prober := p; p_drainer := d; p_closed := [] |}
| shape_returned r :
    probe_shape (Some r) {| p_acceptor := AcceptorDone; p_resultCh := None; p_prober := ProbeReturned (translateAcceptProbeErr r); p_drainer := NoDrainer; p_closed := [] |}
| shape_drained r :
    probe_shape (Some r) {| p_acceptor := AcceptorDone; p_resultCh := None; p_prober := ProbeReturned (Err ProbeDeadline); p_drainer := drained r; p_closed := [] |}
| shape_closed c :
    probe_shape (Some (Accepted_conn c)) {| p_acceptor := AcceptorDone; p_resultCh := None; p_prober := ProbeReturned (Err ProbeDeadline); p_drainer := DrainDone; p_closed := [c] |}.

Lemma probe_shape_step o s s' : probe_shape o s -> probe_step s s' -> exists o', probe_shape o' s' /\ (o = None \/ o' = o).
Proof.
  assert (forall p d, (p, d) ∈ undecided -> (p = ProbeWaiting /\ d = NoDrainer) \/ (p = ProbeReturned (Err ProbeDeadline) /\ d = DrainWaiting)) as Hu.
  { intros p d. unfold undecided. rewrite !elem_of_cons, elem_of_nil. naive_solver. }
  assert ((ProbeWaiting, NoDrainer) ∈ undecided /\ (ProbeReturned (Err ProbeDeadline), DrainWaiting) ∈ undecided) as [? ?] by (unfold undecided; set_solver).
  destruct 1; inversion 1; subst; try (destruct (Hu _ _ ltac:(eassumption)) as [[? ?]|[? ?]]; simplify_eq); eauto 6 using probe_shape.
  all: try (destruct r; cbn in *; simplify_eq; eauto 6 using probe_shape).
Qed.
(** The number of steps that are left, the accept apart. *)
Definition probe_measure (s : probing) : nat :=
  match p_acceptor s with Accepting => 9 | Sending _ => 6 | AcceptorDone => 0 end +
  match p_resultCh s with Some _ => 3 | None => 0 end +
  match p_prober s with ProbeWaiting => 2 | ProbeReturned _ => 0 end +
  match p_drainer s with NoDrainer => 0 | DrainWaiting => 1 | DrainClosing _ => 2 | DrainDone => 0 end.

Lemma probe_step_measure s s' : probe_step s s' -> (probe_measure s' < probe_measure s)%nat.
Proof. destruct 1; unfold probe_measure, drained; cbn; repeat case_match; cbn; lia. Qed.

Lemma probe_shape_run s s' o : rtc probe_step s s' -> probe_shape o s -> exists o', probe_shape o' s' /\ (o = None \/ o' = o).
Proof.
  intros H. revert o. induction H as [s|s s1 s' Hs _ IH]; intros o Ho; [by eauto|].
  destruct (probe_shape_step _ _ _ Ho Hs) as (o1 & H1 & He). destruct (IH _ H1) as (o' & H' & He'). exists o'. split; [done|]. naive_solver.
Qed.
Lemma probe_shape_start : probe_shape None probe_start.
Proof. constructor. unfold undecided. set_solver. Qed.

(** What becomes of an accept that ended as [r]: the caller has it, or the deadline passed first and its connection is closed. *)
Definition probe_outcome (r : accepted) (s : probing) : Prop :=
  (p_prober s = ProbeReturned (translateAcceptProbeErr r) /\ p_closed s = []) \/
  (p_prober s = ProbeReturned (Err ProbeDeadline) /\ p_closed s = match r with Accepted_conn c => [c] | _ => [] end).

(** The probe neither blocks nor leaks.  On any listener and in every interleaving of the accepting goroutine, the timer, the caller and the
    drain: there are at most eleven steps; the caller can always return while it waits, whether or not the accept ever ends; the accepting goroutine is never
    blocked on its channel; and once the accept has ended as [r] and nothing is left to do, the caller was given exactly [r], or
    it was told that the deadline passed and the connection that was accepted is closed, once. *)
Theorem probe_neither_blocks_nor_leaks s : rtc probe_step probe_start s ->
  (forall n s', nsteps probe_step n s s' -> (n <= 11)%nat) /\
  (p_prober s = ProbeWaiting -> exists s' r, probe_step s s' /\ p_prober s' = ProbeReturned r) /\
  (forall r, p_acceptor s = Sending r -> p_resultCh s = None /\
     forall s', rtc probe_step s s' -> nf probe_step s' -> probe_outcome r s').
Proof.
  intros Hr. destruct (probe_shape_run _ _ _ Hr probe_shape_start) as (o & Ho & _). split_and!.
  - intros n s' Hn. assert (forall n s s', nsteps probe_step n s s' -> (n + probe_measure s' <= probe_measure s)%nat) as Hm.
    { induction 1 as [|n' x y z Hs _ IH]; [lia|]. apply probe_step_measure in Hs. lia. }
    apply Hm in Hn. enough (probe_measure s <= 11)%nat by lia. apply rtc_nsteps in Hr as [m Hm']. apply Hm in Hm'. change (probe_measure probe_start) with 11%nat in Hm'. lia.
  - destruct s as [a ch p d cl]. cbn. intros ->. by do 2 eexists; split; [apply step_timer|].
  - intros r Ha. split; [by destruct Ho|]. intros s' Hs' Hnf. destruct (probe_shape_run _ _ _ Hs' Ho) as (o' & Ho' & He).
    assert (o = Some r) as -> by by destruct Ho; simplify_eq/=. destruct He as [|He]; [done|]. subst o'. unfold probe_outcome.
    inversion Ho' as [|r' p d Hu|r' p d Hu|r'|r'|c]; subst; cbn; auto.
    + destruct Hnf. eexists. apply step_send.
    + destruct Hnf. unfold undecided in Hu. rewrite !elem_of_cons, elem_of_nil in Hu. destruct Hu as [[= -> ->]|[[= -> ->]|[]]]; eexists; [apply step_receive|apply step_drain].
    + right. destruct r; cbn in *; auto. destruct Hnf. eexists. apply step_close.
Qed.
(** The timer fires, then a connection is accepted. *)
Lemma probe_neither_blocks_nor_leaks_witness :
  let late := {| p_acceptor := Sending (Accepted_conn 7); p_resultCh := None; p_prober := ProbeReturned (Err ProbeDeadline); p_drainer := DrainWaiting; p_closed := [] |} in
  rtc probe_step probe_start late /\ forall s', rtc probe_step late s' -> nf probe_step s' -> probe_outcome (Accepted_conn 7) s'.
Proof.
  intros late. assert (rtc probe_step probe_start late) as H.
  { eapply rtc_l; [apply step_timer|]. apply rtc_once, step_accept. }
  split; [done|]. by apply (probe_neither_blocks_nor_leaks late H).
Defined.
