(* ===== verification/Passthrough.v ===== *)
(** * [internal/dataplane/listener/passthrough.go]: bytes between two connections

    [Handle] without request parsing: the checks before the dial as a function, and the two copying
    goroutines, the goroutine that watches the context and the handler itself as an interleaving state
    machine. *)

From S2P Require Import Prelude GoStrings GoRuntime Decision Metrics Discriminator.

(** ** Errors of a copy *)

Inductive copy_error := CopyEOF | NetErrClosed | ErrClosedPipe | ErrDeadlineExceeded | OpConnReset | OpOther | OtherError.
Definition isClosedConnErr (e : copy_error) : bool :=
  match e with CopyEOF | NetErrClosed | ErrClosedPipe | ErrDeadlineExceeded | OpConnReset => true | OpOther | OtherError => false end.

(** The result of [Handle]: [Join] keeps both errors. *)
Inductive handle_result := Done | Failed (e : copy_error) | Joined (e e' : copy_error).
Definition real (e : option copy_error) : option copy_error := match e with Some x => if isClosedConnErr x then None else Some x | None => None end.
Definition combine_results (first second : option copy_error) : handle_result :=
  match real first, real second with Some a, Some b => Joined a b | Some a, None => Failed a | None, Some b => Failed b | None, None => Done end.

(** ** Before the relay *)

Definition deny_of (reason : DenyReason) (k : TransportKind) (fault : bool) : metric :=
  MDecisions {| s_disposition := DispositionDeny; s_reason := reason; s_transport := k; s_fault := fault |}.
Inductive prologue_error := ErrNilConnContext | ErrNilDownstream | ErrNilDialer | ErrUnsupportedProtocol | ErrDialUpstream.
(** The end of the prologue: an error, whether the downstream connection was closed, and the decision
    recorded; or the relay. *)
Inductive prologue := Stop (e : prologue_error) (closed : bool) (decision : list metric) | Relay.
Definition Handle_prologue (cc downstream dialer hasMetrics : bool) (p : Protocol) (dial : bool) : prologue :=
  if negb cc then Stop ErrNilConnContext false []
  else if negb downstream then Stop ErrNilDownstream false []
  else if negb dialer then Stop ErrNilDialer true []
  else if negb (bool_decide (is_Some (Protocol_Transport p))) then
    Stop ErrUnsupportedProtocol true (if hasMetrics then [deny_of ReasonUnsupportedProtocol KindPlaintext false] else [])
  else if negb dial then
    Stop ErrDialUpstream true (if hasMetrics then [deny_of ReasonDialFailed (transportKindOf p) true] else [])
  else Relay.

(** ** The relay *)

(** A copying goroutine: in [io.Copy], before its half close, after sending its result. *)
Inductive copier := Copying | Ended (e : option copy_error) | Sent (e : option copy_error).
Inductive handler := WaitFirst | WaitSecond (first : option copy_error)
| ClosingDone (first second : option copy_error) | ClosingBoth (first second : option copy_error) | HandleReturned (r : handle_result).

Record relay := {
  r_toUp : copier; r_toDown : copier;
  r_watching : bool;                            (* the goroutine on [ctx.Done] *)
  r_handler : handler;
  r_once : bool;                                (* [closeOnce] *)
  r_downCloses : nat; r_upCloses : nat;
  r_halfUp : bool; r_halfDown : bool;           (* [CloseWrite] was called *)
  r_errCh : list (option copy_error);
  r_ctxDone : bool                              (* the channel closed when [Handle] returns *)
}.
Definition started : relay :=
  {| r_toUp := Copying; r_toDown := Copying; r_watching := true; r_handler := WaitFirst; r_once := false; r_downCloses := 0; r_upCloses := 0;
     r_halfUp := false; r_halfDown := false; r_errCh := []; r_ctxDone := false |}.

Definition closeBoth (r : relay) : relay :=
  if r_once r then r
  else {| r_toUp := r_toUp r; r_toDown := r_toDown r; r_watching := r_watching r; r_handler := r_handler r; r_once := true;
          r_downCloses := S (r_downCloses r); r_upCloses := S (r_upCloses r); r_halfUp := r_halfUp r; r_halfDown := r_halfDown r;
          r_errCh := r_errCh r; r_ctxDone := r_ctxDone r |}.

Definition set_handler (r : relay) h ch done : relay :=
  {| r_toUp := r_toUp r; r_toDown := r_toDown r; r_watching := r_watching r; r_handler := h; r_once := r_once r; r_downCloses := r_downCloses r;
     r_upCloses := r_upCloses r; r_halfUp := r_halfUp r; r_halfDown := r_halfDown r; r_errCh := ch; r_ctxDone := done |}.
Definition set_watching (r : relay) : relay :=
  {| r_toUp := r_toUp r; r_toDown := r_toDown r; r_watching := false; r_handler := r_handler r; r_once := r_once r; r_downCloses := r_downCloses r;
     r_upCloses := r_upCloses r; r_halfUp := r_halfUp r; r_halfDown := r_halfDown r; r_errCh := r_errCh r; r_ctxDone := r_ctxDone r |}.
Definition set_toUp (r : relay) c half ch : relay :=
  {| r_toUp := c; r_toDown := r_toDown r; r_watching := r_watching r; r_handler := r_handler r; r_once := r_once r; r_downCloses := r_downCloses r;
     r_upCloses := r_upCloses r; r_halfUp := half; r_halfDown := r_halfDown r; r_errCh := ch; r_ctxDone := r_ctxDone r |}.
Definition set_toDown (r : relay) c half ch : relay :=
  {| r_toUp := r_toUp r; r_toDown := c; r_watching := r_watching r; r_handler := r_handler r; r_once := r_once r; r_downCloses := r_downCloses r;
     r_upCloses := r_upCloses r; r_halfUp := r_halfUp r; r_halfDown := half; r_errCh := ch; r_ctxDone := r_ctxDone r |}.

(** One step.  [cancelled]: the context is done.  [peer]: an end of a connection makes a copy end; once
    the connections are closed every copy ends by itself. *)
Inductive step (cancelled : bool) (peer : bool) : relay -> relay -> Prop :=
| up_ends r e : r_toUp r = Copying -> peer = true \/ r_once r = true -> step cancelled peer r (set_toUp r (Ended e) (r_halfUp r) (r_errCh r))
| down_ends r e : r_toDown r = Copying -> peer = true \/ r_once r = true -> step cancelled peer r (set_toDown r (Ended e) (r_halfDown r) (r_errCh r))
| up_sends r e : r_toUp r = Ended e -> step cancelled peer r (set_toUp r (Sent e) true (r_errCh r ++ [e]))
| down_sends r e : r_toDown r = Ended e -> step cancelled peer r (set_toDown r (Sent e) true (r_errCh r ++ [e]))
| watch_cancelled r : r_watching r = true -> cancelled = true -> step cancelled peer r (set_watching (closeBoth r))
| watch_done r : r_watching r = true -> r_ctxDone r = true -> step cancelled peer r (set_watching r)
| first_result r e ch : r_handler r = WaitFirst -> r_errCh r = e :: ch -> step cancelled peer r (set_handler r (WaitSecond e) ch (r_ctxDone r))
| second_result r e e' ch : r_handler r = WaitSecond e -> r_errCh r = e' :: ch ->
    step cancelled peer r (set_handler r (ClosingDone e e') ch (r_ctxDone r))
| close_ctxDone r e e' : r_handler r = ClosingDone e e' -> step cancelled peer r (set_handler r (ClosingBoth e e') (r_errCh r) true)
| close_conns r e e' : r_handler r = ClosingBoth e e' ->
    step cancelled peer r (closeBoth (set_handler r (HandleReturned (combine_results e e')) (r_errCh r) (r_ctxDone r))).

(** ** Invariant *)

Definition sent (c : copier) : list (option copy_error) := match c with Sent e => [e] | _ => [] end.
(** The results the handler has taken from the channel; a returned one answers for two. *)
Definition accounted (r : relay) : Prop :=
  match r_handler r with
  | WaitFirst => r_errCh r ≡ₚ sent (r_toUp r) ++ sent (r_toDown r)
  | WaitSecond e => e :: r_errCh r ≡ₚ sent (r_toUp r) ++ sent (r_toDown r)
  | ClosingDone e e' | ClosingBoth e e' => e :: e' :: r_errCh r ≡ₚ sent (r_toUp r) ++ sent (r_toDown r)
  | HandleReturned x => exists e e', x = combine_results e e' /\ e :: e' :: r_errCh r ≡ₚ sent (r_toUp r) ++ sent (r_toDown r)
  end.

Record inv (r : relay) : Prop := {
  iv_down : r_downCloses r = (if r_once r then 1 else 0)%nat;
  iv_up : r_upCloses r = (if r_once r then 1 else 0)%nat;
  iv_results : accounted r;
  iv_watching : r_watching r = false -> r_once r = true \/ r_ctxDone r = true;
  iv_ctxDone : r_ctxDone r = true -> match r_handler r with ClosingBoth _ _ | HandleReturned _ => True | _ => False end;
  iv_returned : forall x, r_handler r = HandleReturned x -> r_once r = true
}.

Lemma started_inv : inv started.
Proof. split; unfold accounted; cbn; done. Qed.

Lemma copy_step_inv cancelled peer r r' : step cancelled peer r r' -> inv r -> inv r'.
Proof.
  intros Hs [I1 I2 I3 I4 I5 I6]. unfold accounted in I3.
  destruct Hs as [r e Hc _|r e Hc _|r e Hc|r e Hc|r Hw _|r Hw Hd|r e ch Hh Hch|r e e' ch Hh Hch|r e e' Hh|r e e' Hh].
  - split; cbn; try done. unfold accounted. cbn. by rewrite Hc in I3.
  - split; cbn; try done. unfold accounted. cbn. by rewrite Hc in I3.
  - split; cbn; try done. unfold accounted. cbn. rewrite Hc in I3. cbn in I3.
    destruct (r_handler r); [..|destruct I3 as (a & b & -> & I3); exists a, b; split; [done|]]; rewrite ?app_comm_cons, I3; by rewrite Permutation_app_comm.
  - split; cbn; try done. unfold accounted. cbn. rewrite Hc, app_nil_r in I3.
    destruct (r_handler r); [..|destruct I3 as (a & b & -> & I3); exists a, b; split; [done|]]; by rewrite ?app_comm_cons, I3.
  - unfold closeBoth. destruct (r_once r) eqn:Eo; split; cbn; rewrite ?Eo; try done; try congruence; auto.
  - split; cbn; try done. by right.
  - rewrite Hh in *. split; cbn; try done. unfold accounted. cbn. by rewrite <- Hch.
  - rewrite Hh in *. split; cbn; try done. unfold accounted. cbn. by rewrite <- Hch.
  - rewrite Hh in *. split; cbn; try done. by right.
  - rewrite Hh in *. unfold closeBoth. destruct (r_once r) eqn:Eo; cbn; rewrite ?Eo; split; cbn; rewrite ?Eo; try done; try congruence; try (by left);
      unfold accounted; cbn; eauto.
Qed.

(** Every step takes one of at most nine turns. *)
Definition copier_turns (c : copier) : nat := match c with Copying => 2 | Ended _ => 1 | Sent _ => 0 end.
Definition handler_turns (h : handler) : nat :=
  match h with WaitFirst => 4 | WaitSecond _ => 3 | ClosingDone _ _ => 2 | ClosingBoth _ _ => 1 | HandleReturned _ => 0 end.
Definition turns (r : relay) : nat :=
  copier_turns (r_toUp r) + copier_turns (r_toDown r) + (if r_watching r then 1 else 0) + handler_turns (r_handler r).

Lemma step_turns cancelled peer r r' : step cancelled peer r r' -> (turns r' < turns r)%nat.
Proof.
  unfold turns. destruct 1 as [r e Hc _|r e Hc _|r e Hc|r e Hc|r Hw _|r Hw Hd|r e ch Hh Hch|r e e' ch Hh Hch|r e e' Hh|r e e' Hh];
    unfold closeBoth; cbn; try (destruct (r_once r); cbn); rewrite ?Hc, ?Hw, ?Hh; cbn; lia.
Qed.

(** After a cancellation only a relay that has returned is stuck. *)
Lemma cancelled_progress r : inv r -> (forall r', ~ step true false r r') -> exists x, r_handler r = HandleReturned x.
Proof.
  intros [I1 I2 I3 I4 I5 I6] Hstuck. unfold accounted in I3.
  destruct (r_watching r) eqn:Ew; [exfalso; eapply Hstuck; by apply watch_cancelled|]. specialize (I4 eq_refl).
  destruct (r_handler r) as [|e|e e'|e e'|x] eqn:Eh; [| |exfalso; eapply Hstuck; by eapply close_ctxDone|exfalso; eapply Hstuck; by eapply close_conns|by exists x];
    (destruct I4 as [Ho|Hd]; [|by apply I5 in Hd]);
    (destruct (r_toUp r) as [|a|a] eqn:Eu; [exfalso; eapply Hstuck; apply (up_ends _ _ _ None); auto|exfalso; eapply Hstuck; by eapply up_sends|]);
    (destruct (r_toDown r) as [|b|b] eqn:Ed; [exfalso; eapply Hstuck; apply (down_ends _ _ _ None); auto|exfalso; eapply Hstuck; by eapply down_sends|]);
    cbn in I3; (destruct (r_errCh r) as [|c ch] eqn:Ec; [apply Permutation_length in I3; done|]); exfalso; eapply Hstuck.
  - by eapply first_result.
  - by eapply second_result.
Qed.

(** A relay closes each of its two connections exactly once and loses no error.  In every interleaving, once
    [Handle] has returned both directions have ended, each connection has been closed once, and the result
    is made of the errors of both directions in the order in which they ended; before that no connection has
    been closed twice.  Every run has at most nine steps, and a run that cannot go on after the context
    was cancelled has returned. *)
Theorem passthrough_closes_once n r : nsteps (fun a b => exists c p, step c p a b) n started r ->
  (n <= 9)%nat /\ (r_downCloses r <= 1)%nat /\ (r_upCloses r <= 1)%nat /\
  (forall x, r_handler r = HandleReturned x -> r_downCloses r = 1%nat /\ r_upCloses r = 1%nat /\
     exists e e', r_toUp r = Sent e /\ r_toDown r = Sent e' /\ (x = combine_results e e' \/ x = combine_results e' e)) /\
  ((forall r', ~ step true false r r') -> exists x, r_handler r = HandleReturned x).
Proof.
  intros Hrun. assert (inv r) as Hi.
  { apply (rtc_preserves (fun a b => exists c p, step c p a b) inv started); [|by eapply rtc_nsteps_2|apply started_inv]. intros a b (c & p & Hs). by eapply copy_step_inv. }
  apply (nsteps_measure _ turns) in Hrun; [|intros a b (c & p & Hs); by eapply step_turns]. cbn in Hrun.
  split; [lia|]. pose proof (iv_down r Hi) as Hd. pose proof (iv_up r Hi) as Hu. split; [destruct (r_once r); lia|]. split; [destruct (r_once r); lia|].
  split; [|by apply cancelled_progress]. intros x Hx. rewrite (iv_returned r Hi x Hx) in Hd, Hu. split_and!; [done|done|].
  pose proof (iv_results r Hi) as Ha. unfold accounted in Ha. rewrite Hx in Ha. destruct Ha as (a & b & -> & Ha).
  pose proof (Permutation_length Ha) as Hl. destruct (r_toUp r) as [| |e]; destruct (r_toDown r) as [| |e']; simpl in Hl; try lia.
  exists e, e'. split_and!; [done|done|]. cbn [sent app] in Ha. assert (r_errCh r = []) as E by (apply length_zero_iff_nil; lia). rewrite E in Ha.
  apply Permutation_length_2_inv in Ha as [[= <- <-]|[= <- <-]]; auto.
Qed.

(** A run in which the client resets the connection, the upstream ends, and the handler returns. *)
Lemma passthrough_closes_once_witness : exists r,
  nsteps (fun a b => exists c p, step c p a b) 8 started r /\ r_handler r = HandleReturned (Failed OtherError) /\ r_downCloses r = 1%nat.
Proof.
  assert (exists r, nsteps (fun a b => exists c p, step c p a b) 8 started r /\ r_handler r = HandleReturned (Failed OtherError)) as (r & Hr & Hh).
  { eexists. split.
    - eapply nsteps_l; [exists false, true; apply (up_ends _ _ _ (Some OtherError)); [reflexivity|by left]|].
      eapply nsteps_l; [exists false, true; apply (up_sends _ _ _ (Some OtherError)); reflexivity|].
      eapply nsteps_l; [exists false, true; eapply first_result; reflexivity|].
      eapply nsteps_l; [exists false, true; apply (down_ends _ _ _ None); [reflexivity|by left]|].
      eapply nsteps_l; [exists false, true; apply (down_sends _ _ _ None); reflexivity|].
      eapply nsteps_l; [exists false, true; eapply second_result; reflexivity|].
      eapply nsteps_l; [exists false, true; eapply close_ctxDone; reflexivity|].
      eapply nsteps_l; [exists false, true; eapply close_conns; reflexivity|]. apply nsteps_O.
    - reflexivity. }
  exists r. split; [exact Hr|]. split; [exact Hh|].
  destruct (passthrough_closes_once 8 r Hr) as (_ & _ & _ & Hret & _).
  exact (proj1 (Hret _ Hh)).
Defined.

(** [Handle] does not return when one direction has failed: without a cancellation it waits for the other. *)
Lemma one_direction_is_not_enough : exists r, nsteps (fun a b => exists c p, step c p a b) 3 started r /\
  r_toUp r = Sent (Some OtherError) /\ (forall x, r_handler r <> HandleReturned x) /\ forall r', ~ step false false r r'.
Proof.
  eexists. split; [|split; [|split]].
  - eapply nsteps_l; [exists false, true; apply (up_ends _ _ _ (Some OtherError)); [reflexivity|by left]|].
    eapply nsteps_l; [exists false, true; apply (up_sends _ _ _ (Some OtherError)); reflexivity|].
    eapply nsteps_l; [exists false, true; eapply first_result; reflexivity|]. apply nsteps_O.
  - reflexivity.
  - done.
  - intros r' Hs. inversion Hs; naive_solver.
Qed.
