(* ===== verification/LeafSource.v ===== *)
(** * [internal/dataplane/tlsterm/leafsource.go]: the leaf certificate cache

    [CertificateFor] is split at its critical sections: [lookup] is the first one, [publish]
    the last.  The calls of any number of goroutines interleave at these sections and at the
    channel operations between them; the goroutine that finishes a mint after its caller gave
    up is the continuation of the caller's thread.  Key generation and signing are answers of
    the environment. *)

From S2P Require Import Prelude GoStrings GoRuntime LRU ServerName Metrics.
From Stdlib Require Import SpecFloat.
#[local] Open Scope Z_scope.

Record leafCacheKey := { lk_identity : gostring; lk_generation : Z }.
#[global] Instance leafCacheKey_eq_dec : EqDecision leafCacheKey.
Proof. solve_decision. Defined.
#[global] Program Instance leafCacheKey_countable : Countable leafCacheKey :=
  inj_countable' (fun k => (lk_identity k, lk_generation k)) (fun p => {| lk_identity := p.1; lk_generation := p.2 |}) _.
Next Obligation. by intros []. Qed.

(** ** Minting *)

(** What a leaf says: the template that was signed, and the raw certificate of the signing
    authority that goes into its chain. *)
Record leaf := {
  lf_CommonName : gostring; lf_DNSNames : list gostring; lf_NotBefore : Time; lf_NotAfter : Time;
  lf_DigitalSignature : bool; lf_ServerAuth : bool; lf_Serial : Z; lf_Parent : gostring
}.

Inductive leaf_error := LeafNoSigner | LeafKeyFailed | LeafSerialFailed | LeafSignFailed.

(** [signer]: the raw CA certificate, when certificate and signer are both there; [key],
    [serial] and [signed] are the answers of the key generator, the random source and
    [x509.CreateCertificate]. *)
Record mint_env := { me_signer : option gostring; me_key : bool; me_serial : option Z; me_signed : bool }.

Definition mint (opts : LeafOptions) (env : mint_env) (now : Time) (identity : gostring) : result leaf_error leaf :=
  match me_signer env with
  | None => Err LeafNoSigner
  | Some caCert =>
      if negb (me_key env) then Err LeafKeyFailed
      else match me_serial env with
           | None => Err LeafSerialFailed
           | Some serial =>
               let notBefore := Add now (- Backdate opts) in
               if negb (me_signed env) then Err LeafSignFailed
               else Ok {| lf_CommonName := identity; lf_DNSNames := [identity]; lf_NotBefore := notBefore;
                          lf_NotAfter := Add notBefore (LeafLifetime opts); lf_DigitalSignature := true; lf_ServerAuth := true;
                          lf_Serial := serial; lf_Parent := caCert |}
           end
  end.

(** ** The cache *)

Record leafCacheEntry := { le_cert : leaf; le_mintedAt : Time }.

(** [inflight] gives the number of the [inflightMint] object of a key. *)
Record CachedLeafSource := {
  ls_opts : LeafOptions;
  ls_list : lru leafCacheKey leafCacheEntry;
  ls_inflight : gmap leafCacheKey nat;
  ls_next : nat
}.

Inductive source_error := ErrMissingCA | ErrInvalidLeafOptions (e : leaf_options_error).
Definition NewCachedLeafSource (ca : bool) (opts : LeafOptions) : result source_error CachedLeafSource :=
  if negb ca then Err ErrMissingCA
  else match LeafOptions_Validate opts with
       | Some e => Err (ErrInvalidLeafOptions e)
       | None => Ok {| ls_opts := opts; ls_list := lru_new; ls_inflight := ∅; ls_next := 0%nat |}
       end.

Definition CacheLen (s : CachedLeafSource) : nat := length (ll (ls_list s)).

Definition expired (s : CachedLeafSource) (e : leafCacheEntry) (now : Time) : bool :=
  negb (now <? Add (le_mintedAt e) (CacheTTL (ls_opts s))).

Definition ls_set_list (s : CachedLeafSource) l : CachedLeafSource :=
  {| ls_opts := ls_opts s; ls_list := l; ls_inflight := ls_inflight s; ls_next := ls_next s |}.

Inductive looked := Hit (cert : leaf) | Join (owner : nat) | Lead (owner : nat).

(** No usable entry: join the mint in flight or register one. *)
Definition join_or_lead (key : leafCacheKey) (s : CachedLeafSource) : CachedLeafSource * looked :=
  match ls_inflight s !! key with
  | Some owner => (s, Join owner)
  | None => ({| ls_opts := ls_opts s; ls_list := ls_list s; ls_inflight := <[key := ls_next s]> (ls_inflight s); ls_next := S (ls_next s) |},
             Lead (ls_next s))
  end.

(** From the lock to the unlock. *)
Definition lookup_leaf (key : leafCacheKey) (now : Time) (s : CachedLeafSource) : CachedLeafSource * looked :=
  match entries (ls_list s) !! key with
  | Some entry =>
      if negb (expired s entry now) then (ls_set_list s (moveToFront key (ls_list s)), Hit (le_cert entry))
      else join_or_lead key (ls_set_list s (removeElement key (ls_list s)))
  | None => join_or_lead key s
  end.

Definition evictLocked (s : CachedLeafSource) : CachedLeafSource :=
  if CacheEntries (ls_opts s) <=? 0 then s else ls_set_list s (evict (Z.to_nat (CacheEntries (ls_opts s))) (ls_list s)).

(** The locked part of [publish]; [PushFront] does not look for an element of the same key. *)
Definition publish (key : leafCacheKey) (r : result leaf_error leaf) (now : Time) (s : CachedLeafSource) : CachedLeafSource :=
  let s := {| ls_opts := ls_opts s; ls_list := ls_list s; ls_inflight := delete key (ls_inflight s); ls_next := ls_next s |} in
  match r with
  | Err _ => s
  | Ok cert =>
      let e := {| le_cert := cert; le_mintedAt := now |} in
      evictLocked (ls_set_list s {| ll := key :: ll (ls_list s); entries := <[key := e]> (entries (ls_list s)) |})
  end.

(** ** Concurrent calls of [CertificateFor] *)

Inductive cert_error := ErrEmptyServerName | ErrSNI (e : sni_error) | MintError (e : leaf_error) | ContextDone.

Section CertificateFor.
(** The provider of the authority does not change while the pod runs: its generation, and its
    certificate if it has one. *)
Context `{U : Unicode} (opts : LeafOptions) (generation : Z) (ca : option gostring).

Definition leaf_key (serverName : gostring) : result cert_error leafCacheKey :=
  if str_eqb serverName "" then Err ErrEmptyServerName
  else match CanonicaliseServerName serverName with
       | Err e => Err (ErrSNI e)
       | Ok identity => Ok {| lk_identity := identity; lk_generation := generation |}
       end.

(** A call at its next critical section or channel operation.  [gone]: the caller has returned
    with the error of its context and only the background goroutine goes on. *)
Inductive pc :=
| Enter
| Waiting (key : leafCacheKey) (owner : nat)
| Minting (key : leafCacheKey) (owner : nat) (gone : bool)
| Minted (key : leafCacheKey) (owner : nat) (r : result leaf_error leaf) (gone : bool)
| Closing (key : leafCacheKey) (owner : nat) (r : result leaf_error leaf) (gone : bool)
| Returned (answer : result cert_error leaf).

(** The name asked for and the program point. *)
#[local] Notation thread := (gostring * pc)%type.

(** [results]: the fields of the [inflightMint] objects whose channel is closed. *)
Record shared := { source : CachedLeafSource; results : gmap nat (result leaf_error leaf); clock : Time; metrics : list metric }.

(** What the environment contributes to a step: the time of its clock readings, the answers to
    a mint, and whether the context of the caller is done. *)
Record event := { ev_now : Time; ev_env : mint_env; ev_ctxDone : bool }.

Definition answer (r : result leaf_error leaf) : result cert_error leaf :=
  match r with Ok cert => Ok cert | Err e => Err (MintError e) end.

Definition act (t : thread) (ev : event) (s : shared) : option (pc * shared) :=
  let now := ev_now ev in
  let upd src ms := {| source := src; results := results s; clock := now; metrics := metrics s ++ ms |} in
  match t.2 with
  | Enter =>
      match leaf_key t.1 with
      | Err e => Some (Returned (Err e), upd (source s) [])
      | Ok key =>
          let '(src, l) := lookup_leaf key now (source s) in
          match l with
          | Hit cert => Some (Returned (Ok cert), upd src [MLeafCacheHit])
          | Join owner => Some (Waiting key owner, upd src [])
          | Lead owner => Some (Minting key owner false, upd src [MLeafCacheMiss])
          end
      end
  | Waiting key owner =>
      match results s !! owner with
      | Some r => Some (Returned (answer r), upd (source s) [])
      | None => if ev_ctxDone ev then Some (Returned (Err ContextDone), upd (source s) []) else None
      end
  | Minting key owner gone =>
      if ev_ctxDone ev && negb gone then Some (Minting key owner true, upd (source s) [])
      else Some (Minted key owner (mint opts (ev_env ev) now (lk_identity key)) gone, upd (source s) [MStageDuration StageLeafMint])
  | Minted key owner r gone => Some (Closing key owner r gone, upd (publish key r now (source s)) [])
  | Closing key owner r gone =>
      Some (Returned (if gone then Err ContextDone else answer r),
            {| source := source s; results := <[owner := r]> (results s); clock := now; metrics := metrics s |})
  | Returned _ => None
  end.

(** A step of one call.  The clock is taken not to go back and the authority to stay the same while the calls run: the code reads the wall clock, and
    the provider is created once and never changed. *)
Inductive step : shared * list thread -> shared * list thread -> Prop :=
| step_thread s ts i name t ev t' s' :
    ts !! i = Some (name, t) -> clock s <= ev_now ev -> me_signer (ev_env ev) = ca -> act (name, t) ev s = Some (t', s') ->
    step (s, ts) (s', <[i := (name, t')]> ts).

Definition initial (src : CachedLeafSource) (t0 : Time) : shared := {| source := src; results := ∅; clock := t0; metrics := [] |}.
Definition quiescent (c : shared * list thread) : Prop := forall c', ~ step c c'.

(** ** Invariant *)

(** The leaf is for this name, signed by the authority, and was minted no later than [t]. *)
Definition made_for (t : Time) (identity : gostring) (c : leaf) : Prop :=
  lf_CommonName c = identity /\ lf_DNSNames c = [identity] /\ ca = Some (lf_Parent c) /\ lf_ServerAuth c = true /\
  lf_NotAfter c = lf_NotBefore c + LeafLifetime opts /\ lf_NotBefore c + Backdate opts <= t.
Definition good (t : Time) (key : leafCacheKey) (r : result leaf_error leaf) : Prop := forall c, r = Ok c -> made_for t (lk_identity key) c.

(** The call whose mint is registered, and the calls that will close a channel. *)
Definition leads (t : pc) : option (leafCacheKey * nat) :=
  match t with Minting k o _ | Minted k o _ _ => Some (k, o) | _ => None end.
Definition owns (t : pc) : option (leafCacheKey * nat) :=
  match t with Minting k o _ | Minted k o _ _ | Closing k o _ _ => Some (k, o) | _ => None end.

(** What a thread may say of itself. *)
Definition thread_ok (t : Time) (x : thread) : Prop :=
  match x.2 with
  | Enter => True
  | Waiting k _ | Minting k _ _ => leaf_key x.1 = Ok k
  | Minted k _ r _ | Closing k _ r _ => leaf_key x.1 = Ok k /\ good t k r
  | Returned a => forall c, a = Ok c -> exists k, leaf_key x.1 = Ok k /\ made_for t (lk_identity k) c
  end.

Definition source_ok (t : Time) (src : CachedLeafSource) : Prop :=
  ls_opts src = opts /\ lru_ok (ls_list src) /\ (length (ll (ls_list src)) <= Z.to_nat (CacheEntries opts))%nat /\
  (forall k e, entries (ls_list src) !! k = Some e ->
     made_for (le_mintedAt e) (lk_identity k) (le_cert e) /\ le_mintedAt e <= t) /\
  (forall k o, ls_inflight src !! k = Some o -> entries (ls_list src) !! k = None).

(** Registered mints and the calls that run them correspond; a call that waits has an owner
    that will answer, or its answer. *)
Record owners_ok (now : Time) (inf : gmap leafCacheKey nat) (next : nat) (res : gmap nat (result leaf_error leaf)) (ts : list thread) : Prop := {
  o_leads : forall i n t k o, ts !! i = Some (n, t) -> leads t = Some (k, o) -> inf !! k = Some o;
  o_inflight : forall k o, inf !! k = Some o -> exists i n t, ts !! i = Some (n, t) /\ leads t = Some (k, o);
  o_unique : forall i j n m t u p q, ts !! i = Some (n, t) -> ts !! j = Some (m, u) -> owns t = Some p -> owns u = Some q -> p.2 = q.2 -> i = j;
  o_open : forall i n t p, ts !! i = Some (n, t) -> owns t = Some p -> res !! p.2 = None /\ (p.2 < next)%nat;
  o_done : forall o r, res !! o = Some r -> (o < next)%nat;
  o_wait : forall i n k o, ts !! i = Some (n, Waiting k o) ->
    (exists j m u, ts !! j = Some (m, u) /\ owns u = Some (k, o)) \/ exists r, res !! o = Some r /\ good now k r
}.

Record inv (c : shared * list thread) : Prop := {
  i_source : source_ok (clock c.1) (source c.1);
  i_thread : Forall (thread_ok (clock c.1)) c.2;
  i_owners : owners_ok (clock c.1) (ls_inflight (source c.1)) (ls_next (source c.1)) (results c.1) c.2
}.

Lemma made_for_mono t t' id c : t <= t' -> made_for t id c -> made_for t' id c.
Proof. unfold made_for. intros Ht (? & ? & ? & ? & ? & ?). split_and!; try done. lia. Qed.
Lemma good_mono t t' k r : t <= t' -> good t k r -> good t' k r.
Proof. intros Ht H c Hc. eapply made_for_mono; [done|]. by apply H. Qed.
Lemma thread_ok_mono t t' x : t <= t' -> thread_ok t x -> thread_ok t' x.
Proof.
  intros Ht. destruct x as [n []]; cbn; try done; [intros [? ?]; split; [done|]; by eapply good_mono..|].
  intros H c Hc. destruct (H c Hc) as (k & ? & ?). exists k. split; [done|]. by eapply made_for_mono.
Qed.
Lemma source_ok_mono t t' src : t <= t' -> source_ok t src -> source_ok t' src.
Proof. intros Ht (H1 & H2 & H3 & H4 & H5). split_and!; try done. intros k e He. destruct (H4 k e He). split; [done|]. lia. Qed.

(** The only way from the clock and the environment to a leaf. *)
Lemma mint_good now k env : me_signer env = ca -> good now k (mint opts env now (lk_identity k)).
Proof.
  intros Hs c. unfold mint. rewrite Hs. destruct ca as [raw|] eqn:E; [|done]. destruct (me_key env); [|done]. cbn [negb].
  destruct (me_serial env) as [z|]; [|done]. destruct (me_signed env); [|done]. intros [= <-]. unfold made_for. cbn.
  rewrite E. split_and!; try done. unfold Add. lia.
Qed.

(** What the first critical section did to the source. *)
Definition looked_up (now : Time) (key : leafCacheKey) (src src' : CachedLeafSource) (l : looked) : Prop :=
  source_ok now src' /\
  match l with
  | Hit c => ls_inflight src' = ls_inflight src /\ ls_next src' = ls_next src /\ made_for now (lk_identity key) c
  | Join o => ls_inflight src' = ls_inflight src /\ ls_next src' = ls_next src /\ ls_inflight src !! key = Some o
  | Lead o => ls_inflight src' = <[key := o]> (ls_inflight src) /\ ls_next src' = S o /\ o = ls_next src /\ ls_inflight src !! key = None
  end.

Lemma join_or_lead_ok now key src src' l : source_ok now src -> entries (ls_list src) !! key = None ->
  join_or_lead key src = (src', l) -> looked_up now key src src' l.
Proof.
  intros Hs Hk. unfold join_or_lead. destruct (ls_inflight src !! key) as [o|] eqn:Ei; intros [= <- <-]; [done|].
  destruct Hs as (J1 & J2 & J3 & J4 & J5). split; [|split_and!; by cbn]. split_and!; try done. cbn.
  intros k o [[<- _]|[_ Hin]]%lookup_insert_Some; [done|]. by eapply J5.
Qed.

Lemma lookup_leaf_ok t key now src src' l : source_ok t src -> t <= now -> lookup_leaf key now src = (src', l) -> looked_up now key src src' l.
Proof.
  intros Hs Ht. apply (source_ok_mono t now) in Hs as (H1 & H2 & H3 & H4 & H5); [|done]. unfold lookup_leaf.
  destruct (entries (ls_list src) !! key) as [e|] eqn:Ee; [|by apply join_or_lead_ok]. destruct (expired src e now); cbn [negb].
  - apply (join_or_lead_ok now key (ls_set_list src _)); cbn; [|by rewrite lookup_delete_eq]. split_and!; cbn; try done.
    + by apply removeElement_ok.
    + etransitivity; [apply unlink_length|done].
    + intros k e' [_ He]%lookup_delete_Some. by apply H4.
    + intros k o Ho. rewrite lookup_delete_None. right. by eapply H5.
  - intros [= <- <-]. split; [split_and!; cbn; try done|split_and!; try done].
    + by apply moveToFront_ok; [|rewrite Ee].
    + etransitivity; [|exact H3]. change (length (ll (moveToFront key (ls_list src))) <= length (ll (ls_list src)))%nat.
      by rewrite moveToFront_length by (rewrite ?Ee; done).
    + destruct (H4 _ _ Ee) as [Hm Hle]. by eapply made_for_mono.
Qed.

(** Where the invariant holds, pushing without a search is the ordinary insertion. *)
Lemma publish_ok t key o r now src : source_ok t src -> t <= now -> 0 < CacheEntries opts -> ls_inflight src !! key = Some o -> good t key r ->
  source_ok now (publish key r now src) /\ ls_inflight (publish key r now src) = delete key (ls_inflight src) /\
  ls_next (publish key r now src) = ls_next src.
Proof.
  intros Hs Ht Hpos Ho Hr. apply (source_ok_mono t now) in Hs as (H1 & H2 & H3 & H4 & H5); [|done].
  unfold publish. destruct r as [c|e].
  - unfold evictLocked. cbn [ls_opts ls_set_list]. rewrite H1. destruct (Z.leb_spec (CacheEntries opts) 0); [lia|]. split; [|done].
    cbn [ls_list ls_set_list]. set (en := {| le_cert := c; le_mintedAt := now |}).
    assert ({| ll := key :: ll (ls_list src); entries := <[key := en]> (entries (ls_list src)) |} = lru_store key en (ls_list src)) as ->.
    { unfold lru_store. rewrite (H5 _ _ Ho). by rewrite bool_decide_eq_false_2 by (by intros []). }
    split_and!; cbn [ls_set_list ls_opts ls_list ls_inflight]; [done|by apply lru_put_ok|by apply lru_put_size| |].
    + intros k e [[-> ->]|He]%lru_put_entries; [|by apply H4]. cbn. split; [|done]. by eapply made_for_mono, Hr.
    + intros k o' [Hne Hk]%lookup_delete_Some. destruct (entries _ !! k) eqn:E; [|done].
      apply lru_put_entries in E as [[-> _]|E]; [done|]. by rewrite (H5 _ _ Hk) in E.
  - split; [|done]. split_and!; try done. cbn. intros k o' [_ Hk]%lookup_delete_Some. by eapply H5.
Qed.

Lemma owners_ok_mono now now' inf next res ts : now <= now' -> owners_ok now inf next res ts -> owners_ok now' inf next res ts.
Proof.
  intros Hn [H1 H2 H3 H4 H5 H6]. split; try done. intros i n k o Hi. destruct (H6 _ _ _ _ Hi) as [?|(r & ? & ?)]; [by left|].
  right. exists r. split; [done|]. by eapply good_mono.
Qed.

(** A thread that owns what it owned; if it now waits, then for something. *)
Lemma owners_same now inf next res ts i n t t' : owners_ok now inf next res ts -> ts !! i = Some (n, t) ->
  leads t' = leads t -> owns t' = owns t ->
  (forall k o, t' = Waiting k o -> exists j m u, ts !! j = Some (m, u) /\ owns u = Some (k, o)) ->
  owners_ok now inf next res (<[i := (n, t')]> ts).
Proof.
  intros [H1 H2 H3 H4 H5 H6] Hi Hl Ho Hw. assert (i < length ts)%nat as Hlt by (by eapply lookup_lt_Some).
  assert (forall j m u, ts !! j = Some (m, u) ->
    exists j' m' u', <[i := (n, t')]> ts !! j' = Some (m', u') /\ owns u' = owns u /\ leads u' = leads u) as Hkeep.
  { intros j m u Hj. destruct (decide (j = i)) as [->|Hne].
    - exists i, n, t'. rewrite list_lookup_insert_eq by done. split; [done|]. by simplify_eq.
    - exists j, m, u. by rewrite list_lookup_insert_ne by done. }
  split.
  - intros j m u k o [[-> [= -> ->]]|[_ Hj]]%list_insert_cases; [rewrite Hl|]; by eapply H1.
  - intros k o Hk. destruct (H2 _ _ Hk) as (j & m & u & Hj & Hu). destruct (Hkeep j m u Hj) as (j' & m' & u' & Hj' & _ & E).
    exists j', m', u'. by rewrite E.
  - intros j j' m m' u u' p q [[-> [= -> ->]]|[Hne Hj]]%list_insert_cases [[-> [= -> ->]]|[Hne' Hj']]%list_insert_cases;
      rewrite ?Ho; intros; try done; by eapply H3.
  - intros j m u p [[-> [= -> ->]]|[_ Hj]]%list_insert_cases; [rewrite Ho|]; by eapply H4.
  - done.
  - intros j m k o Hj. assert ((exists j m u, ts !! j = Some (m, u) /\ owns u = Some (k, o)) \/ exists r, res !! o = Some r /\ good now k r) as Hx.
    { apply list_insert_cases in Hj as [[-> [= -> <-]]|[_ Hj]]; [left; by apply Hw|by eapply H6]. }
    destruct Hx as [(j1 & m1 & u & Hj1 & Hu)|?]; [left|by right].
    destruct (Hkeep j1 m1 u Hj1) as (j' & m' & u' & Hj' & E & _). exists j', m', u'. by rewrite E.
Qed.

Lemma owners_lead now inf next res ts i n key : owners_ok now inf next res ts -> ts !! i = Some (n, Enter) -> inf !! key = None ->
  owners_ok now (<[key := next]> inf) (S next) res (<[i := (n, Minting key next false)]> ts).
Proof.
  intros [H1 H2 H3 H4 H5 H6] Hi Hk. assert (i < length ts)%nat as Hlt by (by eapply lookup_lt_Some).
  assert (forall j m u, ts !! j = Some (m, u) -> u <> Enter -> <[i := (n, Minting key next false)]> ts !! j = Some (m, u)) as Hkeep.
  { intros j m u Hj Hu. rewrite list_lookup_insert_ne; [done|]. intros ->. congruence. }
  assert (forall j m u p, ts !! j = Some (m, u) -> owns u = Some p -> p.2 <> next) as Hfresh.
  { intros j m u p Hj Hp. destruct (H4 _ _ _ _ Hj Hp). lia. }
  split.
  - intros j m u k o [[-> [= -> ->]]|[Hne Hj]]%list_insert_cases; cbn; [intros [= -> ->]; by rewrite lookup_insert_eq|].
    intros Hl. pose proof (H1 _ _ _ _ _ Hj Hl). rewrite lookup_insert_ne; [done|]. intros ->. congruence.
  - intros k o [[<- <-]|[Hne Hin]]%lookup_insert_Some.
    + exists i, n, (Minting key next false). by rewrite list_lookup_insert_eq.
    + destruct (H2 _ _ Hin) as (j & m & u & Hj & Hu). exists j, m, u. split; [|done]. apply Hkeep; [done|]. by intros ->.
  - intros j j' m m' u u' p q [[-> [= -> ->]]|[_ Hj]]%list_insert_cases [[-> [= -> ->]]|[_ Hj']]%list_insert_cases; cbn.
    + done.
    + intros [= <-] Hq E. by destruct (Hfresh _ _ _ _ Hj' Hq).
    + intros Hp [= <-] E. by destruct (Hfresh _ _ _ _ Hj Hp).
    + by apply (H3 j j' m m' u u' p q).
  - intros j m u p [[-> [= -> ->]]|[_ Hj]]%list_insert_cases; cbn.
    + intros [= <-]. cbn. split; [|lia]. destruct (res !! next) eqn:E; [|done]. apply H5 in E. lia.
    + intros Hp. destruct (H4 _ _ _ _ Hj Hp). split; [done|lia].
  - intros o r Ho. apply H5 in Ho. lia.
  - intros j m k o [[-> [= _ ?]]|[_ Hj]]%list_insert_cases. destruct (H6 _ _ _ _ Hj) as [(j1 & m1 & u & Hj1 & Hu)|?]; [left|by right].
    exists j1, m1, u. split; [|done]. apply Hkeep; [done|]. by intros ->.
Qed.

Lemma owners_publish now inf next res ts i n k o r g : owners_ok now inf next res ts -> ts !! i = Some (n, Minted k o r g) ->
  owners_ok now (delete k inf) next res (<[i := (n, Closing k o r g)]> ts).
Proof.
  intros [H1 H2 H3 H4 H5 H6] Hi. assert (i < length ts)%nat as Hlt by (by eapply lookup_lt_Some).
  pose proof (H1 _ _ _ _ _ Hi eq_refl) as Hk.
  assert (forall j m u, ts !! j = Some (m, u) ->
    exists j' m' u', <[i := (n, Closing k o r g)]> ts !! j' = Some (m', u') /\ owns u' = owns u /\ (j <> i -> leads u' = leads u)) as Hkeep.
  { intros j m u Hj. destruct (decide (j = i)) as [->|Hne].
    - exists i, n, (Closing k o r g). rewrite list_lookup_insert_eq by done. split; [done|]. by simplify_eq.
    - exists j, m, u. by rewrite list_lookup_insert_ne by done. }
  split.
  - intros j m u k' o' [[-> [= -> ->]]|[Hne Hj]]%list_insert_cases; [done|]. intros Hl. pose proof (H1 _ _ _ _ _ Hj Hl) as Hin.
    rewrite lookup_delete_ne; [done|]. intros ->. assert (o' = o) as -> by congruence. apply Hne.
    apply (H3 j i m n u (Minted k' o r g) (k', o) (k', o)); try done. by destruct u; cbn in *; simplify_eq.
  - intros k' o' [Hne Hin]%lookup_delete_Some. destruct (H2 _ _ Hin) as (j & m & u & Hj & Hu).
    destruct (Hkeep j m u Hj) as (j' & m' & u' & Hj' & _ & E). exists j', m', u'. split; [done|]. rewrite E; [done|].
    intros ->. rewrite Hi in Hj. injection Hj as <- <-. cbn in Hu. congruence.
  - intros j j' m m' u u' p q [[-> [= -> ->]]|[_ Hj]]%list_insert_cases [[-> [= -> ->]]|[_ Hj']]%list_insert_cases; cbn; intros Hp Hq E;
      [done|by apply (H3 i j' n m' (Minted k o r g) u' p q)|by apply (H3 j i m n u (Minted k o r g) p q)|by apply (H3 j j' m m' u u' p q)].
  - intros j m u p [[-> [= -> ->]]|[_ Hj]]%list_insert_cases; cbn; intros Hp; [by apply (H4 i n (Minted k o r g))|by eapply H4].
  - done.
  - intros j m k' o' [[-> [= _ ?]]|[_ Hj]]%list_insert_cases. destruct (H6 _ _ _ _ Hj) as [(j1 & m1 & u & Hj1 & Hu)|?]; [left|by right].
    destruct (Hkeep j1 m1 u Hj1) as (j' & m' & u' & Hj' & E & _). exists j', m', u'. by rewrite E.
Qed.

Lemma owners_close now inf next res ts i n k o r g a : owners_ok now inf next res ts -> ts !! i = Some (n, Closing k o r g) -> good now k r ->
  owners_ok now inf next (<[o := r]> res) (<[i := (n, Returned a)]> ts).
Proof.
  intros [H1 H2 H3 H4 H5 H6] Hi Hr. assert (i < length ts)%nat as Hlt by (by eapply lookup_lt_Some).
  assert (forall j m u, ts !! j = Some (m, u) -> j <> i -> <[i := (n, Returned a)]> ts !! j = Some (m, u)) as Hkeep.
  { intros j m u Hj Hne. by rewrite list_lookup_insert_ne. }
  split.
  - intros j m u k' o' [[-> [= -> ->]]|[_ Hj]]%list_insert_cases; [done|by eapply H1].
  - intros k' o' Hin. destruct (H2 _ _ Hin) as (j & m & u & Hj & Hu). exists j, m, u. split; [|done]. apply Hkeep; [done|].
    intros ->. rewrite Hi in Hj. injection Hj as <- <-. done.
  - intros j j' m m' u u' p q [[-> [= -> ->]]|[_ Hj]]%list_insert_cases [[-> [= -> ->]]|[_ Hj']]%list_insert_cases; try done. by apply (H3 j j' m m' u u' p q).
  - intros j m u p [[-> [= -> ->]]|[Hne Hj]]%list_insert_cases; [done|]. intros Hp. destruct (H4 _ _ _ _ Hj Hp) as [Hn Hb].
    split; [|done]. rewrite lookup_insert_ne; [done|]. intros ->. apply Hne.
    by apply (H3 j i m n u (Closing k p.2 r g) p (k, p.2)).
  - intros o' r' [[<- _]|[_ Ho]]%lookup_insert_Some; [|by eapply H5]. by apply (H4 i n (Closing k o r g) (k, o)).
  - intros j m k' o' [[-> [= _ ?]]|[_ Hj]]%list_insert_cases. destruct (H6 _ _ _ _ Hj) as [(j1 & m1 & u & Hj1 & Hu)|(r' & Ho & Hg)].
    + destruct (decide (j1 = i)) as [->|Hne]; [|left; exists j1, m1, u; split; [by apply Hkeep|done]]. right.
      rewrite Hi in Hj1. injection Hj1 as <- <-. cbn in Hu. simplify_eq. exists r. by rewrite lookup_insert_eq.
    + right. exists r'. split; [|done]. rewrite lookup_insert_ne; [done|]. intros ->.
      destruct (H4 i n (Closing k o' r g) (k, o') Hi eq_refl) as [Hno _]. cbn in Hno. congruence.
Qed.

Lemma leaf_step_inv c c' : 0 < CacheEntries opts -> step c c' -> inv c -> inv c'.
Proof.
  intros Hpos Hstep [I1 I2 I3]. inversion Hstep as [s ts i n t ev t' s' Hi Ht Hca Ha]; subst. cbn [fst snd] in *.
  assert (thread_ok (clock s) (n, t)) as Hself by (by eapply Forall_lookup_1). set (now := ev_now ev) in *.
  apply (owners_ok_mono _ now) in I3; [|done].
  assert (Forall (thread_ok now) ts) as I2' by (eapply Forall_impl; [exact I2|]; intros x; by apply thread_ok_mono).
  assert (forall t1, thread_ok now (n, t1) -> Forall (thread_ok now) (<[i := (n, t1)]> ts)) as Hths by (intros; by apply Forall_insert).
  pose proof (source_ok_mono _ now _ Ht I1) as I1'.
  destruct t as [|k o|k o g|k o r g|k o r g|a]; cbn [act fst snd] in Ha; fold now in Ha.
  - destruct (leaf_key n) as [key|e] eqn:Ek.
    + destruct (lookup_leaf key _ (source s)) as [src l] eqn:El. apply (lookup_leaf_ok (clock s)) in El as [Hs Hl]; [|done..].
      destruct l as [cert|o|o]; injection Ha as <- <-; split; cbn [source clock results fst snd]; try done; try apply Hths; cbn [thread_ok snd fst].
      * intros c [= <-]. exists key. split; [done|]. apply Hl.
      * destruct Hl as (-> & -> & _). by eapply owners_same; [exact I3|exact Hi|..].
      * done.
      * destruct Hl as (-> & -> & Hin). eapply owners_same; [exact I3|exact Hi|done..|]. intros k0 o0 [= <- <-].
        destruct (o_inflight _ _ _ _ _ I3 _ _ Hin) as (j & m & u & Hj & Hu). exists j, m, u. split; [done|]. by destruct u; cbn in *; simplify_eq.
      * done.
      * destruct Hl as (-> & -> & -> & Hin). by apply owners_lead.
    + injection Ha as <- <-. split; cbn [source clock results fst snd]; [done|by apply Hths|]. by eapply owners_same; [exact I3|exact Hi|..].
  - destruct (results s !! o) as [r|] eqn:Eo.
    + injection Ha as <- <-. split; cbn [source clock results fst snd]; [done| |by eapply owners_same; [exact I3|exact Hi|..]].
      apply Hths. cbn. intros c Hc. exists k. split; [done|]. destruct (o_wait _ _ _ _ _ I3 _ _ _ _ Hi) as [(j & m & u & Hj & Hu)|(r' & Hr & Hg)].
      * destruct (o_open _ _ _ _ _ I3 _ _ _ _ Hj Hu). cbn in *. congruence.
      * apply Hg. assert (r' = r) as -> by congruence. by destruct r; simplify_eq/=.
    + destruct (ev_ctxDone ev); [|done]. injection Ha as <- <-. split; cbn [source clock results fst snd]; [done|by apply Hths|].
      by eapply owners_same; [exact I3|exact Hi|..].
  - destruct (ev_ctxDone ev && negb g); injection Ha as <- <-; (split; cbn [source clock results fst snd]; [done| |by eapply owners_same; [exact I3|exact Hi|..]]);
      apply Hths; [done|]. cbn. split; [done|]. by apply mint_good.
  - injection Ha as <- <-. destruct Hself as [Hk Hg]. pose proof (o_leads _ _ _ _ _ I3 _ _ _ _ _ Hi eq_refl) as Hin.
    destruct (publish_ok (clock s) k o r now (source s)) as (P1 & P2 & P3); try done.
    split; cbn [source clock results fst snd]; [done|apply Hths; split; [done|]; by eapply good_mono|]. rewrite P2, P3. by apply owners_publish.
  - injection Ha as <- <-. destruct Hself as [Hk Hg]. apply (good_mono _ now) in Hg; [|done].
    split; cbn [source clock results fst snd]; [done| |by eapply owners_close]. apply Hths. cbn. intros c Hc. exists k. split; [done|].
    apply Hg. destruct g; [done|]. by destruct r; simplify_eq/=.
  - done.
Qed.

(** ** Progress *)

Definition rank (x : thread) : nat :=
  match x.2 with Enter => 5 | Minting _ _ false => 4 | Minting _ _ true => 3 | Minted _ _ _ _ => 2 | Closing _ _ _ _ | Waiting _ _ => 1 | Returned _ => 0 end.

Lemma step_rank c c' : step c c' -> (sum_list_with rank c'.2 < sum_list_with rank c.2)%nat.
Proof.
  intros Hstep. inversion Hstep as [s ts i n t ev t' s' Hi Ht Hca Ha]; subst. cbn [snd].
  pose proof (sum_list_with_insert rank ts i (n, t) (n, t') Hi) as Hsum. cut (rank (n, t') < rank (n, t))%nat; [lia|]. clear Hsum Hi Hstep.
  destruct t as [|k o|k o g|k o r g|k o r g|a]; cbn [act fst snd] in Ha.
  - destruct (leaf_key n); [destruct (lookup_leaf _ _ _) as [? []]|]; injection Ha as <- _; cbn; lia.
  - destruct (results s !! o); [|destruct (ev_ctxDone ev); [|done]]; injection Ha as <- _; cbn; lia.
  - destruct (ev_ctxDone ev); cbn [andb] in Ha; destruct g; injection Ha as <- _; cbn; lia.
  - injection Ha as <- _. cbn. lia.
  - injection Ha as <- _. cbn. lia.
  - done.
Qed.

(** Only a call that waits can be unable to move, and then its answer is missing. *)
Lemma can_move s ts i n t : ts !! i = Some (n, t) -> (forall a, t <> Returned a) -> (forall k o, t = Waiting k o -> is_Some (results s !! o)) ->
  exists c', step (s, ts) c'.
Proof.
  intros Hi Hr Hw.
  set (ev := {| ev_now := clock s; ev_env := {| me_signer := ca; me_key := true; me_serial := Some 1; me_signed := true |}; ev_ctxDone := false |}).
  assert (exists t' s', act (n, t) ev s = Some (t', s')) as (t' & s' & Ha); [|eexists; by eapply (step_thread s ts i n t ev t' s')].
  destruct t as [|k o|k o g|k o r g|k o r g|a]; cbn [act fst snd]; eauto.
  - destruct (leaf_key n) as [key|]; [destruct (lookup_leaf key (ev_now ev) (source s)) as [? []]|]; eauto.
  - destruct (Hw k o eq_refl) as [r Hres]. rewrite Hres. eauto.
  - by destruct (Hr a).
Qed.

Lemma quiescent_returned s ts : inv (s, ts) -> quiescent (s, ts) -> Forall (fun x : thread => exists a, x.2 = Returned a) ts.
Proof.
  intros [_ _ I] Hq. apply Forall_lookup. intros i [n t] Hi. cbn.
  assert (forall j m u, ts !! j = Some (m, u) -> (forall k o, u = Waiting k o -> is_Some (results s !! o)) -> exists a, u = Returned a) as Hmove.
  { intros j m u Hj Hu. destruct u as [| | | | |a]; [..|by eexists];
      (edestruct (can_move s ts j m) as [c' Hc]; [exact Hj|by intros|exact Hu|]; by destruct (Hq c')). }
  apply (Hmove i n t Hi). intros k o ->. destruct (o_wait _ _ _ _ _ I _ _ _ _ Hi) as [(j & m & u & Hj & Hu)|(r & Hr & _)]; [|by eexists].
  destruct (Hmove j m u Hj) as [a ->]; [by intros k' o' ->|done].
Qed.

Lemma leaf_initial_inv src t0 ts : NewCachedLeafSource true opts = Ok src -> Forall (fun x : thread => x.2 = Enter) ts ->
  inv (initial src t0, ts) /\ 0 < CacheEntries opts.
Proof.
  unfold NewCachedLeafSource. cbn [negb]. destruct (LeafOptions_Validate opts) eqn:Ev; [done|]. intros [= <-] Hts.
  apply LeafOptions_Validate_ok in Ev as (_ & _ & _ & _ & He & _). split; [|lia].
  assert (forall i n t, ts !! i = Some (n, t) -> t = Enter) as Henter.
  { intros i n t Hi. rewrite Forall_lookup in Hts. by apply (Hts i (n, t)). }
  split; cbn.
  - split_and!; cbn; [done|apply lru_new_ok|lia|intros k e; by rewrite lookup_empty|intros k o; by rewrite lookup_empty].
  - eapply Forall_impl; [exact Hts|]. intros [n t]. cbn. by intros ->.
  - split.
    + intros i n t k o Hi. by rewrite (Henter _ _ _ Hi).
    + intros k o. by rewrite lookup_empty.
    + intros i j n m t u p q Hi. by rewrite (Henter _ _ _ Hi).
    + intros i n t p Hi. by rewrite (Henter _ _ _ Hi).
    + intros o r. by rewrite lookup_empty.
    + intros i n k o Hi. by apply Henter in Hi.
Qed.

(** C23: one mint a name, the right leaf for every caller, and nobody left waiting.  For any number of
    concurrent calls of [CertificateFor] on a new source with one authority, under a clock that does not go back, whatever the signer and the
    callers' contexts do, in every interleaving: the calls end within five steps for each of them; at most
    one mint per name is in flight; the cache stays within its bound; a leaf that is returned was
    minted for the canonical form of the name asked for, is signed by the pod's authority, is a server
    certificate and is past its start.  When nothing can move any more every call has returned,
    those that waited for a mint whose caller gave up included. *)
Theorem leaf_single_flight src t0 ts n s' ts' :
  NewCachedLeafSource true opts = Ok src -> Forall (fun x : thread => x.2 = Enter) ts -> nsteps step n (initial src t0, ts) (s', ts') ->
  (n <= 5 * length ts)%nat /\
  (forall i j a b t u k o o', ts' !! i = Some (a, t) -> ts' !! j = Some (b, u) -> leads t = Some (k, o) -> leads u = Some (k, o') -> i = j) /\
  Z.of_nat (CacheLen (source s')) <= CacheEntries opts /\
  (forall i name c, ts' !! i = Some (name, Returned (Ok c)) ->
     exists identity, CanonicaliseServerName name = Ok identity /\ made_for (clock s') identity c) /\
  (quiescent (s', ts') -> Forall (fun x => exists a, x.2 = Returned a) ts').
Proof.
  intros Hsrc Hts Hn. destruct (leaf_initial_inv src t0 ts Hsrc Hts) as [Hinv Hpos].
  pose proof (nsteps_measure step (fun c => sum_list_with rank c.2) _ _ _ step_rank Hn) as Hbound. cbn [snd] in Hbound.
  assert (sum_list_with rank ts = 5 * length ts)%nat as Hsum.
  { clear -Hts. induction Hts as [|[a t] ts Ht _ IH]; [done|]. cbn in Ht. subst t. cbn [sum_list_with length rank snd]. rewrite IH. lia. }
  assert (rtc step (initial src t0, ts) (s', ts')) as Hr by (by eapply rtc_nsteps_2).
  apply (rtc_preserves step inv) in Hr as I; [|intros a b Hab; by apply leaf_step_inv|done]. split; [lia|]. destruct I as [I1 I2 I3].
  split; [|split; [|split]].
  - intros i j a b t u k o o' Hi Hj Ht Hu. pose proof (o_leads _ _ _ _ _ I3 _ _ _ _ _ Hi Ht) as E1. pose proof (o_leads _ _ _ _ _ I3 _ _ _ _ _ Hj Hu) as E2.
    apply (o_unique _ _ _ _ _ I3 i j a b t u (k, o) (k, o')); try done; [by destruct t; cbn in *; simplify_eq|by destruct u; cbn in *; simplify_eq|cbn in *; congruence].
  - destruct I1 as (_ & _ & H3 & _). unfold CacheLen. cbn in H3. lia.
  - intros i name c Hi. rewrite Forall_lookup in I2. destruct (I2 _ _ Hi c eq_refl) as (k & Hk & Hm). cbn in Hk, Hm.
    unfold leaf_key in Hk. destruct (str_eqb name ""); [done|]. destruct (CanonicaliseServerName name) as [id|]; [|done].
    injection Hk as <-. by exists id.
  - by apply quiescent_returned.
Qed.

(** A leaf from the cache has started; it is unexpired if it was published soon enough after its
    mint, which production options leave four minutes for. *)
Lemma hit_valid t key now src src' c : source_ok t src -> lookup_leaf key now src = (src', Hit c) ->
  exists delay, 0 <= delay /\ lf_NotBefore c + Backdate opts + delay <= t /\
    (delay + CacheTTL opts + Backdate opts <= LeafLifetime opts -> now < lf_NotAfter c).
Proof.
  intros (H1 & _ & _ & H4 & _). unfold lookup_leaf, join_or_lead, expired. destruct (entries (ls_list src) !! key) as [e|] eqn:Ee.
  - rewrite H1, negb_involutive. destruct (Z.ltb_spec now (Add (le_mintedAt e) (CacheTTL opts))) as [Hlt|]; cbn [negb].
    + intros [= _ <-]. destruct (H4 _ _ Ee) as [(_ & _ & _ & _ & Ha & Hb) Hle].
      exists (le_mintedAt e - (lf_NotBefore (le_cert e) + Backdate opts)). unfold Add in Hlt. lia.
    + cbn. by destruct (ls_inflight src !! key).
  - by destruct (ls_inflight src !! key).
Qed.
End CertificateFor.

(** ** Examples *)

Section Schedule.
Context `{U : Unicode} (opts : LeafOptions) (generation : Z) (ca : option gostring).

(** Run the named threads in turn. *)
Fixpoint schedule (es : list (nat * event)) (c : shared * list (gostring * pc)) : option (shared * list (gostring * pc)) :=
  match es with
  | [] => Some c
  | (i, ev) :: es =>
      '(n, t) ← c.2 !! i;
      if negb (clock c.1 <=? ev_now ev) || negb (bool_decide (me_signer (ev_env ev) = ca)) then None
      else '(t', s') ← act opts generation (n, t) ev c.1; schedule es (s', <[i := (n, t')]> c.2)
  end.

Lemma leaf_schedule_nsteps es : forall c c', schedule es c = Some c' -> nsteps (step opts generation ca) (length es) c c'.
Proof.
  induction es as [|[i ev] es IH]; intros [s ts] c'; cbn [schedule length]; [intros [= ->]; constructor|].
  destruct (ts !! i) as [[n t]|] eqn:Hi; [|cbn; by rewrite Hi]. cbn [snd fst]. rewrite Hi. cbn [mbind option_bind].
  destruct (Z.leb_spec (clock s) (ev_now ev)); [|done]. cbn [negb orb]. case_bool_decide; [|done]. cbn [negb].
  destruct (act opts generation (n, t) ev s) as [[t' s']|] eqn:Ha; [|done]. intros Hr. apply IH in Hr.
  by econstructor; [econstructor|].
Qed.
End Schedule.

(** [leafOptions] of assembly.go. *)
Definition leafOptions : LeafOptions :=
  {| CacheEntries := 1024; CacheTTL := 5 * Minute; LeafLifetime := 10 * Minute; Backdate := Minute;
     MintRate := S754_finite false 7036874417766400 (-47); MintBurst := 100; lo_NextProtos := [bs "http/1.1"]; MinVersion := VersionTLS12;
     AllowSelfSignedCA := false |}.

Definition at_time (i : nat) (now : Time) (done : bool) : nat * event :=
  (i, {| ev_now := now; ev_env := {| me_signer := Some (bs "ca"); me_key := true; me_serial := Some 7; me_signed := true |}; ev_ctxDone := done |}).

(** A caller registers a mint and gives up; another one joins it and gets the leaf; a third finds it in the cache. *)
Definition shared_mint : list (nat * event) :=
  [at_time 0 0 false; at_time 1 1 false; at_time 0 2 true; at_time 0 3 true; at_time 0 4 false; at_time 0 5 false;
   at_time 1 6 true; at_time 2 7 false].
Definition three_callers : list (gostring * pc) := [(bs "Api.Example.com", Enter); (bs "api.example.com.", Enter); (bs "api.example.com", Enter)].
Definition new_source (opts : LeafOptions) : CachedLeafSource := {| ls_opts := opts; ls_list := lru_new; ls_inflight := ∅; ls_next := 0%nat |}.
Definition shared_mint_end := schedule (U := ascii_only) leafOptions 1 (Some (bs "ca")) shared_mint (initial (new_source leafOptions) 0, three_callers).

Lemma leaf_single_flight_witness :
  exists s' ts', shared_mint_end = Some (s', ts') /\ Z.of_nat (CacheLen (source s')) <= 1024 /\
    exists c, ts' !! 1%nat = Some (bs "api.example.com.", Returned (Ok c)) /\ lf_DNSNames c = [bs "api.example.com"].
Proof.
  destruct shared_mint_end as [[s' ts']|] eqn:E; [|vm_compute in E; discriminate E]. exists s', ts'. split; [reflexivity|].
  destruct (leaf_single_flight (U := ascii_only) leafOptions 1 (Some (bs "ca")) (new_source leafOptions) 0 three_callers 8 s' ts') as (_ & _ & H3 & H4 & _).
  - vm_compute. reflexivity.
  - repeat constructor.
  - apply (leaf_schedule_nsteps (U := ascii_only) leafOptions 1 (Some (bs "ca")) shared_mint). exact E.
  - split; [exact H3|]. assert (exists c, ts' !! 1%nat = Some (bs "api.example.com.", Returned (Ok c))) as [c Hc].
    { vm_compute in E. injection E as <- <-. eexists. reflexivity. }
    exists c. split; [exact Hc|]. destruct (H4 _ _ _ Hc) as (id & Hid & _ & Hd & _). rewrite Hd. f_equal.
    vm_compute in Hid. injection Hid as <-. reflexivity.
Defined.

(** The rule on lifetimes leaves the backdating out: options that pass validation serve a leaf from the cache three minutes after it expired. *)
Lemma expired_leaf_served :
  let opts := {| CacheEntries := 16; CacheTTL := 9 * Minute; LeafLifetime := 10 * Minute; Backdate := 5 * Minute;
    MintRate := MintRate leafOptions; MintBurst := 1; lo_NextProtos := [bs "http/1.1"]; MinVersion := VersionTLS12; AllowSelfSignedCA := false |} in
  let caller := (bs "api.example.com", Enter) in
  let es := [at_time 0 0 false; at_time 0 0 false; at_time 0 0 false; at_time 0 0 false; at_time 1 (8 * Minute) false] in
  LeafOptions_Validate opts = None /\
  exists s' ts' c, schedule (U := ascii_only) opts 1 (Some (bs "ca")) es (initial (new_source opts) 0, [caller; caller]) = Some (s', ts') /\
    ts' !! 1%nat = Some (bs "api.example.com", Returned (Ok c)) /\ lf_NotAfter c = 5 * Minute /\ clock s' = 8 * Minute.
Proof. cbv zeta. split; [vm_compute; reflexivity|]. eexists _, _, _. split; [vm_compute; reflexivity|]. vm_compute. done. Qed.
