(* ===== verification/Terminator.v ===== *)
(** * Downstream TLS: [tlsterm/terminator.go] and [runtime/tls_conn_handler.go]

    The handler depends on the terminator through [tlsTerminator], an interface whose laws
    [TerminatorLaws] the concrete terminator discharges; the handler's lemmas are proved against
    the interface, and its theorem is stated of a terminator that [NewTerminator] built.  crypto/tls is the environment: a handshake is what it does to the callback and
    how it ends. *)

From S2P Require Import Prelude GoStrings GoRuntime Compile Match Decision RawHead Metrics ServerName Discriminator LRU LeafSource Handler.
#[local] Open Scope Z_scope.

(** ** The interface *)

Inductive tls_error :=
| ErrMissingClientHello | ErrNoSNI | ErrInvalidServerName (e : sni_error) | ErrMintLeaf (e : cert_error) | ErrHandshakeAssertFailed
| ErrCapture (e : sni_error)                       (* the callback's own canonicalisation *)
| ErrRecordHeader | ErrHandshake                   (* crypto/tls *)
| errNilNext | errNilTerminator | errBareRequestPathBypass | errNilContext | errContext | errNilConnContext | errNilDownstream.

Record tls_config := { tc_MinVersion : Z; tc_NextProtos : list gostring; tc_Certificate : leaf; tc_SessionTicketsDisabled : bool; tc_ClientCert : bool }.
Record ConnectionState := { st_DidResume : bool; st_ServerName : gostring; st_NegotiatedProtocol : gostring }.

Definition deny_sample (r : DenyReason) (t : TransportKind) (fault : bool) : metric :=
  MDecisions {| s_disposition := DispositionDeny; s_reason := r; s_transport := t; s_fault := fault |}.

(** Each operation gives its result and the calls it makes on the recorder. *)
Class tlsTerminator := {
  GetConfigForClient : option gostring -> result tls_error tls_config * list metric;   (* the server name of the hello, if there is one *)
  PostHandshakeAssert : ConnectionState -> gostring -> option tls_error * list metric;
  RecordHandshakeFailure : gostring -> list metric;
  RecordPlaintextReject : list metric
}.

(** ** [Terminator] *)

Section Terminator.
Context `{U : Unicode} (opts : LeafOptions) (CertificateFor : gostring -> result cert_error leaf).

Definition term_GetConfigForClient (hello : option gostring) : result tls_error tls_config * list metric :=
  let '(r, ms) :=
    match hello with
    | None => (Err ErrMissingClientHello, [deny_sample ReasonMissingClientHello KindTLS false])
    | Some name =>
        if str_eqb name "" then (Err ErrNoSNI, [deny_sample ReasonNoSNI KindTLS false])
        else match CanonicaliseServerName name with
             | Err e => (Err (ErrInvalidServerName e), [deny_sample ReasonMalformedTarget KindTLS false])
             | Ok identity =>
                 match CertificateFor identity with
                 | Err e => (Err (ErrMintLeaf e), [deny_sample ReasonHandshakeFailed KindTLS true])
                 | Ok cert => (Ok {| tc_MinVersion := MinVersion opts; tc_NextProtos := lo_NextProtos opts; tc_Certificate := cert;
                                     tc_SessionTicketsDisabled := true; tc_ClientCert := false |}, [])
                 end
             end
    end in
  (r, ms ++ [MStageDuration StageTLSConfigBuild]).   (* deferred *)

Definition term_PostHandshakeAssert (state : ConnectionState) (candidateSNI : gostring) : option tls_error * list metric :=
  let failed := (Some ErrHandshakeAssertFailed, [deny_sample ReasonHandshakeFailed KindTLS false]) in
  if st_DidResume state then failed
  else match CanonicaliseServerName (st_ServerName state), CanonicaliseServerName candidateSNI with
       | Ok negotiated, Ok candidate => if str_eqb negotiated candidate then (None, []) else failed
       | _, _ => failed
       end.

Definition term_RecordHandshakeFailure (_ : gostring) : list metric := [deny_sample ReasonHandshakeFailed KindTLS true].
Definition term_RecordPlaintextReject : list metric :=
  [deny_sample ReasonUnsupportedProtocol KindPlaintext false; MTransportReject RejectClassPlaintextRegistryUnavail BoundNone].

#[local] Instance Terminator : tlsTerminator := {|
  GetConfigForClient := term_GetConfigForClient; PostHandshakeAssert := term_PostHandshakeAssert;
  RecordHandshakeFailure := term_RecordHandshakeFailure; RecordPlaintextReject := term_RecordPlaintextReject |}.
End Terminator.

Inductive terminator_error := ErrMissingLeafSource | ErrInvalidOptions (e : leaf_options_error).
Definition NewTerminator `{U : Unicode} (source : option (gostring -> result cert_error leaf)) (opts : LeafOptions) : result terminator_error tlsTerminator :=
  match source with
  | None => Err ErrMissingLeafSource
  | Some s => match LeafOptions_Validate opts with Some e => Err (ErrInvalidOptions e) | None => Ok (Terminator opts s) end
  end.

(** ** The connection handler *)

(** What a connection carries; [Downstream] says whether it is there and whether it is the
    terminated stream. *)
Inductive stream := RawStream | TLSStream.
Record ConnContext := {
  cc_ConnID : gostring; cc_Downstream : option stream; cc_OriginalDst : AddrPort; cc_Protocol : Protocol; cc_Transport : Transport;
  cc_CandidateSNI : gostring; cc_NegotiatedALPN : gostring; cc_decided : bool
}.
Definition cc_set (cc : ConnContext) (sni : gostring) (decided : bool) : ConnContext :=
  {| cc_ConnID := cc_ConnID cc; cc_Downstream := cc_Downstream cc; cc_OriginalDst := cc_OriginalDst cc; cc_Protocol := cc_Protocol cc;
     cc_Transport := cc_Transport cc; cc_CandidateSNI := sni; cc_NegotiatedALPN := cc_NegotiatedALPN cc; cc_decided := decided |}.

(** [HandshakeContext]: it fails before a ClientHello was read, or it calls the callback with the
    name in it; if the callback returned a configuration it then fails or completes.  [header]: the
    error is a [tls.RecordHeaderError]. *)
Inductive handshake := NoHello (header : bool) | Hello (name : gostring) (rest : result bool ConnectionState).

Definition crypto_error (header : bool) : tls_error := if header then ErrRecordHeader else ErrHandshake.
Definition is_record_header (e : tls_error) : bool := match e with ErrRecordHeader => true | _ => false end.

Section Handle.
Context `{U : Unicode} {T : tlsTerminator}.

(** The callback: the configuration or the error, the candidate name it recorded, and whether the
    terminator has recorded a reason. *)
Definition configForClient (name : gostring) : result tls_error (tls_config * gostring) * bool * list metric :=
  let '(r, ms) := GetConfigForClient (Some name) in
  match r with
  | Err e => (Err e, true, ms)
  | Ok cfg =>
      match CanonicaliseServerName name with
      | Err e => (Err (ErrCapture e), false, ms)
      | Ok identity => (Ok (cfg, identity), false, ms)
      end
  end.

(** Result of the handshake, candidate name, whether a reason was recorded, recorder calls. *)
Definition HandshakeContext (h : handshake) (sni : gostring) : result tls_error (tls_config * ConnectionState) * gostring * bool * list metric :=
  match h with
  | NoHello header => (Err (crypto_error header), sni, false, [])
  | Hello name rest =>
      let '(r, recorded, ms) := configForClient name in
      match r with
      | Err e => (Err e, sni, recorded, ms)
      | Ok (cfg, identity) =>
          match rest with
          | Err header => (Err (crypto_error header), identity, recorded, ms)
          | Ok state => (Ok (cfg, state), identity, recorded, ms)
          end
      end
  end.

Record wiring := { w_Next : bool; w_Terminator : bool; w_ctx : option bool; w_Log : bool }.
Record handled := { hd_error : option tls_error; hd_next : option ConnContext; hd_cc : option ConnContext; hd_metrics : list metric; hd_warned : bool }.

(** [hd_next]: the context with which [Next] is called; what it answers is the result. *)
Definition tls_Handle (w : wiring) (cc : option ConnContext) (h : handshake) : handled :=
  let refuse e cc ms warn := {| hd_error := Some e; hd_next := None; hd_cc := cc; hd_metrics := ms; hd_warned := warn |} in
  if negb (w_Next w) then refuse errNilNext cc [] false
  else if negb (w_Terminator w) then refuse errNilTerminator cc [] false
  else match w_ctx w with
  | None => refuse errNilContext cc [] false
  | Some true => refuse errContext cc [] false
  | Some false =>
  match cc with
  | None => refuse errNilConnContext cc [] false
  | Some cc =>
  match cc_Downstream cc with
  | None => refuse errNilDownstream (Some cc) [] false
  | Some _ =>
      let '(r, sni, recorded, ms) := HandshakeContext h (cc_CandidateSNI cc) in
      match r with
      | Err e =>
          let plaintext := is_record_header e in
          let more := if cc_decided cc then []
                      else if plaintext then RecordPlaintextReject else if (recorded : bool) then [] else RecordHandshakeFailure sni in
          refuse e (Some (cc_set cc sni true)) (ms ++ more) (plaintext && w_Log w)
      | Ok (cfg, state) =>
          let '(failed, ms') := PostHandshakeAssert state sni in
          match failed with
          | Some e => refuse e (Some (cc_set cc sni true)) (ms ++ ms') false
          | None =>
              let cc' := {| cc_ConnID := cc_ConnID cc; cc_Downstream := Some TLSStream; cc_OriginalDst := cc_OriginalDst cc;
                            cc_Protocol := ProtocolTLS; cc_Transport := TransportTLS; cc_CandidateSNI := sni;
                            cc_NegotiatedALPN := st_NegotiatedProtocol state; cc_decided := cc_decided cc |} in
              {| hd_error := None; hd_next := Some cc'; hd_cc := Some cc'; hd_metrics := ms ++ ms'; hd_warned := false |}
          end
      end
  end
  end
  end.
End Handle.

(** [adapter.go] *)
Definition handoverFromConnContext (cc : option ConnContext) : Handover :=
  match cc with
  | None => {| TLSConn := false; IsTLS := false; OriginalDst := {| ap_valid := false; ap_is4 := false; ap_port := 0 |}; ho_SNI := []; ConnID := [] |}
  | Some cc => {| TLSConn := (match cc_Downstream cc with Some _ => true | None => false end); IsTLS := bool_decide (cc_Protocol cc = ProtocolTLS);
                  OriginalDst := cc_OriginalDst cc; ho_SNI := cc_CandidateSNI cc; ConnID := cc_ConnID cc |}
  end.

(** [NewTLSTerminatingConnHandler]; [bare]: [next] is the request path itself. *)
Definition NewTLSTerminatingConnHandler (bare term : bool) : option tls_error :=
  if bare then Some errBareRequestPathBypass else if negb term then Some errNilTerminator else None.

(** ** What the terminator promises *)

(** [given]: what the configuration has to do with the canonical form of the name in the hello. *)
Class TerminatorLaws `{U : Unicode} (given : gostring -> tls_config -> Prop) (T : tlsTerminator) := {
  config_refused : forall hello e ms, GetConfigForClient hello = (Err e, ms) -> count_decisions ms = 1%nat /\ is_record_header e = false;
  config_given : forall name cfg ms, GetConfigForClient (Some name) = (Ok cfg, ms) -> count_decisions ms = 0%nat /\
    exists identity, CanonicaliseServerName name = Ok identity /\ given identity cfg;
  assert_failed : forall st sni e ms, PostHandshakeAssert st sni = (Some e, ms) -> count_decisions ms = 1%nat;
  assert_passed : forall st sni ms, PostHandshakeAssert st sni = (None, ms) -> count_decisions ms = 0%nat /\ st_DidResume st = false /\
    exists identity, CanonicaliseServerName (st_ServerName st) = Ok identity /\ CanonicaliseServerName sni = Ok identity;
  failure_once : forall sni, count_decisions (RecordHandshakeFailure sni) = 1%nat;
  plaintext_once : count_decisions RecordPlaintextReject = 1%nat
}.

(** The configuration that the leaf source and the options determine. *)
Definition config_for (source : gostring -> result cert_error leaf) (opts : LeafOptions) (identity : gostring) (cfg : tls_config) : Prop :=
  source identity = Ok (tc_Certificate cfg) /\ tc_SessionTicketsDisabled cfg = true /\ tc_MinVersion cfg = MinVersion opts /\
  tc_NextProtos cfg = lo_NextProtos opts /\ tc_ClientCert cfg = false.

Lemma Terminator_laws `{U : Unicode} opts CertificateFor : TerminatorLaws (config_for CertificateFor opts) (Terminator opts CertificateFor).
Proof.
  split.
  - intros hello e ms. cbn. unfold term_GetConfigForClient. destruct hello as [name|]; [|by intros [= <- <-]].
    destruct (str_eqb name ""); [by intros [= <- <-]|]. destruct (CanonicaliseServerName name) as [id|]; [|by intros [= <- <-]].
    destruct (CertificateFor id); [done|]. by intros [= <- <-].
  - intros name cfg ms. cbn. unfold term_GetConfigForClient. destruct (str_eqb name ""); [done|].
    destruct (CanonicaliseServerName name) as [id|]; [|done]. destruct (CertificateFor id) as [cert|] eqn:E; [|done]. intros [= <- <-].
    split; [done|]. by exists id.
  - intros st sni e ms. cbn. unfold term_PostHandshakeAssert. destruct (st_DidResume st); [by intros [= <- <-]|].
    destruct (CanonicaliseServerName (st_ServerName st)), (CanonicaliseServerName sni); try destruct (str_eqb _ _); by intros [= <- <-].
  - intros st sni ms. cbn. unfold term_PostHandshakeAssert. destruct (st_DidResume st); [done|].
    destruct (CanonicaliseServerName (st_ServerName st)) as [a|] eqn:Ea; [|done]. destruct (CanonicaliseServerName sni) as [b|] eqn:Eb; [|done].
    destruct (str_eqb a b) eqn:E; [|done]. apply str_eqb_eq in E as ->. intros [= <-]. split_and!; [done|done|]. by exists b.
  - done.
  - done.
Qed.

(** ** What the handler guarantees *)

(** The handler is completely wired and the connection is there. *)
Definition wired (w : wiring) (cc : ConnContext) : bool :=
  w_Next w && w_Terminator w && (match w_ctx w with Some done => negb done | None => false end) &&
  (match cc_Downstream cc with Some _ => true | None => false end).

Section Guarantees.
Context `{U : Unicode} {T : tlsTerminator} (given : gostring -> tls_config -> Prop) {L : TerminatorLaws given T}.

Lemma configForClient_spec name r recorded ms : configForClient name = (r, recorded, ms) ->
  match r with
  | Err e => count_decisions ms = b2n recorded /\ (recorded = true -> is_record_header e = false)
  | Ok (cfg, identity) => count_decisions ms = 0%nat /\ recorded = false /\ (GetConfigForClient (Some name)).1 = Ok cfg /\ CanonicaliseServerName name = Ok identity /\ given identity cfg
  end.
Proof.
  unfold configForClient. destruct (GetConfigForClient (Some name)) as [[cfg|e] ms'] eqn:E; cbn [fst].
  - apply config_given in E as (Hc & id & Hid & Hv). rewrite Hid. intros [= <- <- <-]. done.
  - apply config_refused in E as [Hc He]. intros [= <- <- <-]. done.
Qed.

Lemma HandshakeContext_spec h sni0 r sni recorded ms : HandshakeContext h sni0 = (r, sni, recorded, ms) ->
  match r with
  | Err e => count_decisions ms = b2n recorded /\ (recorded = true -> is_record_header e = false)
  | Ok (cfg, state) => count_decisions ms = 0%nat /\ exists name, h = Hello name (Ok state) /\ (GetConfigForClient (Some name)).1 = Ok cfg /\
      CanonicaliseServerName name = Ok sni /\ given sni cfg
  end.
Proof.
  unfold HandshakeContext. destruct h as [header|name rest]; [by intros [= <- <- <- <-]|].
  destruct (configForClient name) as [[r' rec'] ms'] eqn:E. apply configForClient_spec in E.
  destruct r' as [[cfg id]|e]; [|by intros [= <- <- <- <-]]. destruct E as (Hc & -> & Hcfg & Hid & Hv).
  destruct rest as [state|header]; intros [= <- <- <- <-]; [|by rewrite Hc]. split; [done|]. by exists name.
Qed.

(** The handler, from the laws of its terminator. *)
Lemma handler_gates w cc h :
  let r := tls_Handle w (Some cc) h in
  (forall cc', hd_next r = Some cc' ->
     exists name state identity cfg, h = Hello name (Ok state) /\ CanonicaliseServerName name = Ok identity /\
       (GetConfigForClient (Some name)).1 = Ok cfg /\ given identity cfg /\
       CanonicaliseServerName (st_ServerName state) = Ok identity /\ st_DidResume state = false /\
       cc_CandidateSNI cc' = identity /\ cc_NegotiatedALPN cc' = st_NegotiatedProtocol state /\ cc_decided cc' = cc_decided cc /\
       count_decisions (hd_metrics r) = 0%nat /\ hd_error r = None /\
       let ho := handoverFromConnContext (Some cc') in TLSConn ho = true /\ IsTLS ho = true /\ ho_SNI ho = identity /\ OriginalDst ho = cc_OriginalDst cc) /\
  (hd_next r = None -> is_Some (hd_error r) /\
     if wired w cc then
       (cc_decided cc = false -> count_decisions (hd_metrics r) = 1%nat) /\ (exists cc', hd_cc r = Some cc' /\ cc_decided cc' = true)
     else hd_metrics r = [] /\ hd_cc r = Some cc).
Proof.
  cbv zeta. unfold tls_Handle, wired. destruct (w_Next w); [|done]. destruct (w_Terminator w); [|done].
  destruct (w_ctx w) as [[]|]; [done| |done]. destruct (cc_Downstream cc) as [d|]; [|done]. cbn [negb andb].
  destruct (HandshakeContext h (cc_CandidateSNI cc)) as [[[r sni] recorded] ms] eqn:E. apply HandshakeContext_spec in E.
  destruct r as [[cfg state]|e].
  - destruct E as (Hc & name & -> & Hcfg & Hid & Hv). destruct (PostHandshakeAssert state sni) as [[e|] ms'] eqn:Ep.
    + apply assert_failed in Ep. split; [done|]. intros _. split; [done|]. cbn [hd_metrics hd_cc]. rewrite count_decisions_app, Hc, Ep. eauto.
    + apply assert_passed in Ep as (Hc' & Hres & id & Hn & Hs). split; [|done]. intros cc' [= <-].
      pose proof (CanonicaliseServerName_again _ _ _ Hid Hs) as ->. exists name, state, sni, cfg.
      split_and!; try done. cbn [hd_metrics]. by rewrite count_decisions_app, Hc, Hc'.
  - destruct E as [Hc He]. split; [done|]. intros _. split; [done|]. cbn [hd_metrics hd_cc]. split; [|eauto]. intros ->.
    rewrite count_decisions_app, Hc. destruct (is_record_header e) eqn:Eh; [rewrite plaintext_once|destruct recorded; [done|by rewrite failure_once]].
    destruct recorded; [|done]. by specialize (He eq_refl).
Qed.
End Guarantees.

(** C21: only terminated TLS reaches the request path, under the one name that was proved.  Behind a terminator that [NewTerminator] built on
    any leaf source and any options: when the handler calls [Next], the client's hello was answered with the certificate that the leaf source gave
    for the canonical form of the name in it, without session tickets, from the configured version and protocols; the handshake completed, was
    not resumed and negotiated that same name; and the context handed on carries the TLS stream, that name, the negotiated protocol and an
    untouched latch, so the request path does not refuse it as not TLS.  In every other case an error is returned and [Next] is not called; if a
    handshake was tried on a connection without a decision, exactly one decision is recorded and the latch is claimed, and a handler that is not
    wired records nothing and leaves the connection as it was. *)
Theorem tls_handler_gates `{U : Unicode} source opts T w cc h :
  NewTerminator (Some source) opts = Ok T ->
  let r := tls_Handle (T := T) w (Some cc) h in
  (forall cc', hd_next r = Some cc' ->
     exists name state identity cfg, h = Hello name (Ok state) /\ CanonicaliseServerName name = Ok identity /\
       (GetConfigForClient (Some name)).1 = Ok cfg /\ config_for source opts identity cfg /\
       CanonicaliseServerName (st_ServerName state) = Ok identity /\ st_DidResume state = false /\
       cc_CandidateSNI cc' = identity /\ cc_NegotiatedALPN cc' = st_NegotiatedProtocol state /\ cc_decided cc' = cc_decided cc /\
       count_decisions (hd_metrics r) = 0%nat /\ hd_error r = None /\
       let ho := handoverFromConnContext (Some cc') in TLSConn ho = true /\ IsTLS ho = true /\ ho_SNI ho = identity /\ OriginalDst ho = cc_OriginalDst cc) /\
  (hd_next r = None -> is_Some (hd_error r) /\
     if wired w cc then
       (cc_decided cc = false -> count_decisions (hd_metrics r) = 1%nat) /\ (exists cc', hd_cc r = Some cc' /\ cc_decided cc' = true)
     else hd_metrics r = [] /\ hd_cc r = Some cc).
Proof.
  unfold NewTerminator. destruct (LeafOptions_Validate opts); [done|]. intros [= <-].
  exact (handler_gates (T := Terminator opts source) (config_for source opts) (L := Terminator_laws opts source) w cc h).
Qed.

(** ** Examples *)

(** A source that always mints. *)
Definition leaf_of (identity : gostring) : leaf :=
  {| lf_CommonName := identity; lf_DNSNames := [identity]; lf_NotBefore := 0; lf_NotAfter := 10 * Minute; lf_DigitalSignature := true;
     lf_ServerAuth := true; lf_Serial := 1; lf_Parent := bs "ca" |}.
Definition example_source (identity : gostring) : result cert_error leaf := Ok (leaf_of identity).
#[local] Instance example_terminator : tlsTerminator := Terminator (U := ascii_only) leafOptions example_source.

Definition all_wired : wiring := {| w_Next := true; w_Terminator := true; w_ctx := Some false; w_Log := true |}.
Definition accepted_conn : ConnContext :=
  {| cc_ConnID := "c1"; cc_Downstream := Some RawStream; cc_OriginalDst := {| ap_valid := true; ap_is4 := true; ap_port := 443 |};
     cc_Protocol := ProtocolUnknown; cc_Transport := TransportUnset; cc_CandidateSNI := []; cc_NegotiatedALPN := []; cc_decided := false |}.
Definition completed : handshake :=
  Hello "API.example.com" (Ok {| st_DidResume := false; st_ServerName := "api.example.com"; st_NegotiatedProtocol := "http/1.1" |}).

Lemma tls_handler_gates_witness :
  exists cc', hd_next (tls_Handle (U := ascii_only) all_wired (Some accepted_conn) completed) = Some cc' /\
    ho_SNI (handoverFromConnContext (Some cc')) = bs "api.example.com".
Proof.
  destruct (hd_next (tls_Handle (U := ascii_only) all_wired (Some accepted_conn) completed)) as [cc'|] eqn:E; [|vm_compute in E; discriminate E].
  exists cc'. split; [reflexivity|].
  destruct (tls_handler_gates (U := ascii_only) example_source leafOptions example_terminator all_wired accepted_conn completed eq_refl) as [H _].
  destruct (H cc' E) as (name & state & identity & cfg & Hh & Hid & _ & _ & _ & _ & _ & _ & _ & _ & _ & _ & _ & Hsni & _).
  transitivity identity; [exact Hsni|]. injection Hh as <- _. vm_compute in Hid. injection Hid as <-. reflexivity.
Defined.

(** crypto/tls reports a record of the wrong version or size after the hello with the same error
    type; the connection that did send a hello is then counted as plaintext. *)
Lemma late_header_error_is_plaintext :
  hd_metrics (tls_Handle (U := ascii_only) all_wired (Some accepted_conn) (Hello "api.example.com" (Err true)))
  = [MStageDuration StageTLSConfigBuild; deny_sample ReasonUnsupportedProtocol KindPlaintext false;
     MTransportReject RejectClassPlaintextRegistryUnavail BoundNone].
Proof. vm_compute. reflexivity. Qed.
