(* ===== verification/Injector.v ===== *)
(** * [internal/injector]: the sidecar contract

    [sidecar_injector.go], [canonical.go], [validate.go], [errors.go] and the options:
    the pod mutation ([Patch]) and the checks on the final pod ([Validate]).

    The Kubernetes types are data the package reads and writes.  Each record has the
    fields some function of the package uses; a field named [_Rest] stands for the
    remaining ones, which are copied and compared as a whole.  Nil pointers are [None],
    and so is a nil slice or map where the code distinguishes it from an empty one
    ([reflect.DeepEqual] of [Items], the annotations).  A pod is a value: [Patch] works
    on the result of [DeepCopy]. *)

From S2P Require Import Prelude GoStrings GoRuntime.
#[local] Open Scope Z_scope.
#[local] Open Scope go_scope.

(** ** Pods *)

Record ObjectFieldSelector := { fs_APIVersion : gostring; fs_FieldPath : gostring }.
Record EnvVarSource := { es_FieldRef : option ObjectFieldSelector; es_Rest : gostring }.
Record EnvVar := { ev_Name : gostring; ev_Value : gostring; ev_ValueFrom : option EnvVarSource }.
Record VolumeMount := { vm_Name : gostring; vm_MountPath : gostring; vm_ReadOnly : bool; vm_Rest : gostring }.
Record Capabilities := { cap_Add : list gostring; cap_Rest : gostring }.
Record SecurityContext := {
  sc_RunAsUser : option Z; sc_RunAsGroup : option Z; sc_Capabilities : option Capabilities;
  sc_AppArmorProfile : option gostring; sc_AllowPrivilegeEscalation : option bool; sc_Privileged : option bool;
  sc_RunAsNonRoot : option bool; sc_Rest : gostring
}.
Record Container := {
  ct_Name : gostring; ct_Image : gostring; ct_ImagePullPolicy : gostring; ct_Command : list gostring;
  ct_Args : list gostring; ct_SecurityContext : option SecurityContext; ct_Env : list EnvVar;
  ct_VolumeMounts : list VolumeMount; ct_Rest : gostring
}.

Record HostPathVolumeSource := { hp_Path : gostring; hp_Type : option gostring }.
Record EmptyDirVolumeSource := { ed_Medium : gostring; ed_SizeLimit : option gostring }.
Record KeyToPath := { kp_Key : gostring; kp_Path : gostring; kp_Mode : option Z }.
Record ConfigMapVolumeSource := {
  cm_Name : gostring; cm_Items : option (list KeyToPath); cm_DefaultMode : option Z; cm_Optional : option bool
}.
Record ServiceAccountTokenProjection := { sp_Audience : gostring; sp_ExpirationSeconds : option Z; sp_Path : gostring }.
Record VolumeProjection := { vp_ServiceAccountToken : option ServiceAccountTokenProjection; vp_Rest : gostring }.
Record ProjectedVolumeSource := { pj_Sources : list VolumeProjection; pj_DefaultMode : option Z }.
Record DownwardAPIVolumeFile := { df_Path : gostring; df_FieldRef : option ObjectFieldSelector; df_Rest : gostring }.
Record DownwardAPIVolumeSource := { da_Items : list DownwardAPIVolumeFile; da_DefaultMode : option Z }.
Record VolumeSource := {
  vs_HostPath : option HostPathVolumeSource; vs_EmptyDir : option EmptyDirVolumeSource;
  vs_ConfigMap : option ConfigMapVolumeSource; vs_Projected : option ProjectedVolumeSource;
  vs_DownwardAPI : option DownwardAPIVolumeSource; vs_Rest : gostring
}.
Record Volume := { v_Name : gostring; v_Source : VolumeSource }.

Record PodSecurityContext := { ps_FSGroup : option Z; ps_RunAsUser : option Z; ps_Rest : gostring }.
Record Pod := {
  p_Name : gostring; p_Namespace : gostring; p_Annotations : option (gmap gostring gostring);
  p_HostPID : bool; p_HostNetwork : bool; p_ShareProcessNamespace : option bool;
  p_AutomountServiceAccountToken : option bool; p_SecurityContext : option PodSecurityContext;
  p_Containers : list Container; p_InitContainers : list Container; p_EphemeralContainers : list Container;
  p_Volumes : list Volume; p_Rest : gostring
}.

(** [reflect.DeepEqual] on the types the code compares. *)
#[global] Instance ObjectFieldSelector_eq_dec : EqDecision ObjectFieldSelector. Proof. solve_decision. Defined.
#[global] Instance HostPathVolumeSource_eq_dec : EqDecision HostPathVolumeSource. Proof. solve_decision. Defined.
#[global] Instance EmptyDirVolumeSource_eq_dec : EqDecision EmptyDirVolumeSource. Proof. solve_decision. Defined.
#[global] Instance KeyToPath_eq_dec : EqDecision KeyToPath. Proof. solve_decision. Defined.
#[global] Instance ConfigMapVolumeSource_eq_dec : EqDecision ConfigMapVolumeSource. Proof. solve_decision. Defined.
#[global] Instance ServiceAccountTokenProjection_eq_dec : EqDecision ServiceAccountTokenProjection.
Proof. solve_decision. Defined.
#[global] Instance VolumeProjection_eq_dec : EqDecision VolumeProjection. Proof. solve_decision. Defined.
#[global] Instance ProjectedVolumeSource_eq_dec : EqDecision ProjectedVolumeSource. Proof. solve_decision. Defined.
#[global] Instance DownwardAPIVolumeFile_eq_dec : EqDecision DownwardAPIVolumeFile. Proof. solve_decision. Defined.
#[global] Instance DownwardAPIVolumeSource_eq_dec : EqDecision DownwardAPIVolumeSource. Proof. solve_decision. Defined.
#[global] Instance VolumeSource_eq_dec : EqDecision VolumeSource. Proof. solve_decision. Defined.

Definition DeepEqual {A} `{EqDecision A} (x y : A) : bool := bool_decide (x = y).

(** ** Options and errors *)

Record AdmissionError := { Field : gostring; Reason : gostring }.
Definition AdmissionError_Error (e : AdmissionError) : gostring := Field e ++ ": " ++ Reason e.

Record InjectorOptions := {
  io_ProxyImage : gostring; io_ReservedUID : Z; io_ReservedGID : Z; io_OptInLabelKey : gostring;
  io_OptInLabelValue : gostring; io_InjectionVersion : gostring
}.

Definition reservedID : Z := 1774.
Definition akshContainerName : gostring := "aksh".
Definition injectionAnnotation : gostring := "aksh.dev/injected".
Definition canonicalCapabilities : list gostring :=
  [bs "BPF"; bs "NET_ADMIN"; bs "NET_RAW"; bs "SYS_ADMIN"; bs "SYS_RESOURCE"; bs "PERFMON"; bs "SETGID"; bs "SETUID"; bs "SETPCAP"].

Record SidecarInjector := {
  proxyImage : gostring; reservedUID : Z; reservedGID : Z; optInLabelKey : gostring; optInLabelValue : gostring;
  injectionVersion : gostring
}.

Definition NewSidecarInjector `{Unicode} (opts : InjectorOptions) : result AdmissionError SidecarInjector :=
  if str_eqb (TrimSpace (io_ProxyImage opts)) "" then Err {| Field := "proxyImage"; Reason := "required" |}
  else if str_eqb (TrimSpace (io_OptInLabelKey opts)) "" || str_eqb (TrimSpace (io_OptInLabelValue opts)) "" then
    Err {| Field := "optInLabel"; Reason := "required" |}
  else if str_eqb (TrimSpace (io_InjectionVersion opts)) "" then
    Err {| Field := "injectionVersion"; Reason := "required" |}
  else if negb (io_ReservedUID opts =? reservedID) then Err {| Field := "reservedUID"; Reason := "must be 1774" |}
  else if negb (io_ReservedGID opts =? reservedID) then Err {| Field := "reservedGID"; Reason := "must be 1774" |}
  else Ok {| proxyImage := io_ProxyImage opts; reservedUID := io_ReservedUID opts; reservedGID := io_ReservedGID opts;
             optInLabelKey := io_OptInLabelKey opts; optInLabelValue := io_OptInLabelValue opts;
             injectionVersion := io_InjectionVersion opts |}.

Definition options (s : SidecarInjector) : InjectorOptions :=
  {| io_ProxyImage := proxyImage s; io_ReservedUID := reservedUID s; io_ReservedGID := reservedGID s;
     io_OptInLabelKey := optInLabelKey s; io_OptInLabelValue := optInLabelValue s;
     io_InjectionVersion := injectionVersion s |}.

(** ** The canonical sidecar *)

Definition env_value (name value : gostring) : EnvVar := {| ev_Name := name; ev_Value := value; ev_ValueFrom := None |}.

Definition canonicalEnv (namespace : gostring) : list EnvVar :=
  [ {| ev_Name := "POD_IP"; ev_Value := [];
       ev_ValueFrom := Some {| es_FieldRef := Some {| fs_APIVersion := []; fs_FieldPath := "status.podIP" |}; es_Rest := [] |} |};
    env_value "AKSH_POLICY_NAMESPACE" namespace;
    env_value "AKSH_SA_TOKEN_PATH" "/var/run/secrets/aksh/token";
    env_value "AKSH_ENTRA_TENANT_ID" "";
    env_value "AKSH_ENTRA_CLIENT_ID" "";
    env_value "AKSH_ENTRA_AUTHORITY" "";
    env_value "AKSH_AUDIT_SINK" "stdout";
    env_value "AKSH_CA_PRIV_DIR" "/var/lib/aksh/ca-priv";
    env_value "AKSH_CA_PUB_DIR" "/var/lib/aksh/ca-pub";
    env_value "AKSH_CAPTURE_HOST_CGROUP_MOUNT" "/host/sys/fs/cgroup";
    env_value "AKSH_CAPTURE_MOUNT_BPFFS" "true";
    env_value "AKSH_CAPTURE_PROXY_UID" "1774";
    env_value "AKSH_CAPTURE_PROXY_GID" "1774";
    env_value "AKSH_CAPTURE_BLOCK_NON_TCP" "true";
    env_value "AKSH_CAPTURE_RUN_PROBE" "true";
    env_value "AKSH_POLICY_FIRST_SNAPSHOT_TIMEOUT" "300s" ].

Definition no_source : VolumeSource :=
  {| vs_HostPath := None; vs_EmptyDir := None; vs_ConfigMap := None; vs_Projected := None; vs_DownwardAPI := None; vs_Rest := [] |}.
Definition emptyDir : VolumeSource :=
  {| vs_HostPath := None; vs_EmptyDir := Some {| ed_Medium := []; ed_SizeLimit := None |}; vs_ConfigMap := None;
     vs_Projected := None; vs_DownwardAPI := None; vs_Rest := [] |}.

Definition canonicalVolumes : list Volume :=
  [ {| v_Name := "hostcgroup";
       v_Source := {| vs_HostPath := Some {| hp_Path := "/sys/fs/cgroup"; hp_Type := None |}; vs_EmptyDir := None;
                      vs_ConfigMap := None; vs_Projected := None; vs_DownwardAPI := None; vs_Rest := [] |} |};
    {| v_Name := "ca-priv"; v_Source := emptyDir |};
    {| v_Name := "ca-pub"; v_Source := emptyDir |};
    {| v_Name := "entra-token";
       v_Source := {| vs_HostPath := None; vs_EmptyDir := None; vs_ConfigMap := None;
                      vs_Projected := Some {| pj_Sources :=
                        [{| vp_ServiceAccountToken := Some {| sp_Audience := "api://AzureADTokenExchange";
                                                              sp_ExpirationSeconds := Some 3600; sp_Path := "token" |};
                            vp_Rest := [] |}]; pj_DefaultMode := None |};
                      vs_DownwardAPI := None; vs_Rest := [] |} |};
    {| v_Name := "upstream-ca";
       v_Source := {| vs_HostPath := None; vs_EmptyDir := None;
                      vs_ConfigMap := Some {| cm_Name := "upstream-ca"; cm_Items := None; cm_DefaultMode := None;
                                              cm_Optional := None |};
                      vs_Projected := None; vs_DownwardAPI := None; vs_Rest := [] |} |};
    {| v_Name := "podinfo";
       v_Source := {| vs_HostPath := None; vs_EmptyDir := None; vs_ConfigMap := None; vs_Projected := None;
                      vs_DownwardAPI := Some {| da_Items :=
                        [{| df_Path := "labels";
                            df_FieldRef := Some {| fs_APIVersion := []; fs_FieldPath := "metadata.labels" |};
                            df_Rest := [] |}]; da_DefaultMode := None |};
                      vs_Rest := [] |} |} ].

Definition mount (name path : gostring) (ro : bool) : VolumeMount :=
  {| vm_Name := name; vm_MountPath := path; vm_ReadOnly := ro; vm_Rest := [] |}.

Definition canonicalMounts : list VolumeMount :=
  [ mount "hostcgroup" "/host/sys/fs/cgroup" false; mount "ca-priv" "/var/lib/aksh/ca-priv" false;
    mount "ca-pub" "/var/lib/aksh/ca-pub" false; mount "entra-token" "/var/run/secrets/aksh" true;
    mount "upstream-ca" "/etc/aksh/upstream-ca" true; mount "podinfo" "/etc/aksh/podinfo" true ].

Definition canonicalContainer (s : SidecarInjector) (namespace : gostring) : Container :=
  {| ct_Name := akshContainerName; ct_Image := proxyImage s; ct_ImagePullPolicy := "IfNotPresent";
     ct_Command := [bs "/usr/local/bin/aksh-proxy"]; ct_Args := [];
     ct_SecurityContext := Some {| sc_RunAsUser := Some reservedID; sc_RunAsGroup := Some reservedID;
       sc_Capabilities := Some {| cap_Add := canonicalCapabilities; cap_Rest := [] |};
       sc_AppArmorProfile := Some (bs "Unconfined"); sc_AllowPrivilegeEscalation := None; sc_Privileged := None;
       sc_RunAsNonRoot := None; sc_Rest := [] |};
     ct_Env := canonicalEnv namespace; ct_VolumeMounts := canonicalMounts; ct_Rest := [] |}.

Definition hasContainerNamed (pod : Pod) (name : gostring) : bool :=
  existsb (fun c => str_eqb (ct_Name c) name) (p_Containers pod).

Definition find_volume (vs : list Volume) (name : gostring) : option Volume :=
  List.find (fun v => str_eqb (v_Name v) name) vs.
Definition findVolume (pod : Pod) (name : gostring) : option Volume := find_volume (p_Volumes pod) name.

(** ** [canonical.go]: recognising the canonical sidecar *)

Definition hostPathType_norm (t : option gostring) : gostring := default [] t.
Definition hostPathTypeEquivalent (got want : option gostring) : bool :=
  str_eqb (hostPathType_norm got) (hostPathType_norm want).

Definition volumeSourceEquivalent (got want : VolumeSource) : bool :=
  match vs_HostPath want, vs_EmptyDir want, vs_ConfigMap want, vs_Projected want, vs_DownwardAPI want with
  | Some w, _, _, _, _ =>
      match vs_HostPath got with
      | None => false
      | Some g => if negb (str_eqb (hp_Path g) (hp_Path w)) then false else hostPathTypeEquivalent (hp_Type g) (hp_Type w)
      end
  | None, Some w, _, _, _ =>
      match vs_EmptyDir got with
      | None => false
      | Some g => str_eqb (ed_Medium g) (ed_Medium w) && DeepEqual (ed_SizeLimit g) (ed_SizeLimit w)
      end
  | None, None, Some w, _, _ =>
      match vs_ConfigMap got with
      | None => false
      | Some g => if negb (str_eqb (cm_Name g) (cm_Name w)) then false
                  else DeepEqual (cm_Items g) (cm_Items w) && DeepEqual (cm_Optional g) (cm_Optional w)
      end
  | None, None, None, Some w, _ =>
      match vs_Projected got with
      | None => false
      | Some g => DeepEqual (pj_Sources g) (pj_Sources w)
      end
  | None, None, None, None, Some w =>
      match vs_DownwardAPI got with
      | None => false
      | Some g => DeepEqual (da_Items g) (da_Items w)
      end
  | None, None, None, None, None => DeepEqual got want
  end.

Definition canonicalVolumeSourcesPresent (pod : Pod) : bool :=
  forallb (fun want =>
    match findVolume pod (v_Name want) with
    | None => false
    | Some got => volumeSourceEquivalent (v_Source got) (v_Source want)
    end) canonicalVolumes.

(** [seen] is a Go map to [bool]: an absent key reads [false]. *)
Definition capabilitySetEqual (got want : list gostring) : bool :=
  if negb (length got =? length want)%nat then false
  else
    let seen : gmap gostring bool := fold_left (fun seen c => <[c := true]> seen) got ∅ in
    forallb (fun c => default false (seen !! c)) want.

Definition configSourcedEnv (name : gostring) : bool :=
  existsb (str_eqb name)
    [bs "AKSH_ENTRA_TENANT_ID"; bs "AKSH_ENTRA_CLIENT_ID"; bs "AKSH_ENTRA_AUTHORITY"; bs "AKSH_CAPTURE_HOST_CGROUP_MOUNT"].

(** The map built from a slice by name: a later element replaces an earlier one. *)
Definition by_name {A} (name : A -> gostring) (l : list A) : gmap gostring A :=
  fold_left (fun m x => <[name x := x]> m) l ∅.

(** The comparison of one wanted variable: presence, then the field path or the value. *)
Definition env_matches (got want : EnvVar) : bool :=
  if configSourcedEnv (ev_Name want) then true
  else
    match ev_ValueFrom want with
    | Some wf =>
        match es_FieldRef <$> ev_ValueFrom got, es_FieldRef wf with
        | Some (Some g), Some w => str_eqb (fs_FieldPath g) (fs_FieldPath w)
        | _, _ => false
        end
    | None => str_eqb (ev_Value got) (ev_Value want)
    end.

Definition canonicalEnvPresent (got : list EnvVar) (namespace : gostring) : bool :=
  let env := by_name ev_Name got in
  if env !! bs "AKSH_CAPTURE_POD_PATH" then false
  else if env !! bs "SSL_CERT_FILE" then false
  else forallb (fun want =>
         match env !! ev_Name want with
         | None => false
         | Some got => env_matches got want
         end) (canonicalEnv namespace).

Definition canonicalMountsPresent (got : list VolumeMount) : bool :=
  let mounts := by_name vm_Name got in
  forallb (fun want =>
    match mounts !! vm_Name want with
    | None => false
    | Some g => str_eqb (vm_MountPath g) (vm_MountPath want) && Bool.eqb (vm_ReadOnly g) (vm_ReadOnly want)
    end) canonicalMounts.

(** [pod.Annotations[key]]: the empty string when the key or the map is missing. *)
Definition annotation (pod : Pod) (key : gostring) : gostring := default [] (p_Annotations pod ≫= fun m => m !! key).

Definition is_Z (o : option Z) (z : Z) : bool := match o with Some x => x =? z | None => false end.

Definition isCanonicalAkshShape (pod : option Pod) (opts : InjectorOptions) : bool :=
  match pod with
  | None => false
  | Some pod =>
      if str_eqb (annotation pod injectionAnnotation) "" ||
         negb (str_eqb (annotation pod injectionAnnotation) (io_InjectionVersion opts)) then false
      else if negb (is_Z (p_SecurityContext pod ≫= ps_FSGroup) reservedID) then false
      else
        match p_Containers pod with
        | [] => false
        | aksh :: rest =>
            if negb (str_eqb (ct_Name aksh) akshContainerName) then false
            else if existsb (fun c => str_eqb (ct_Name c) akshContainerName) rest then false
            else if negb (str_eqb (ct_Image aksh) (io_ProxyImage opts)) ||
                    negb (DeepEqual (ct_Command aksh) [bs "/usr/local/bin/aksh-proxy"]) ||
                    negb (length (ct_Args aksh) =? 0)%nat then false
            else if negb (is_Z (ct_SecurityContext aksh ≫= sc_RunAsUser) reservedID) ||
                    negb (is_Z (ct_SecurityContext aksh ≫= sc_RunAsGroup) reservedID) then false
            else if negb (match ct_SecurityContext aksh ≫= sc_Capabilities with
                          | Some caps => capabilitySetEqual (cap_Add caps) canonicalCapabilities
                          | None => false
                          end) then false
            else if negb (canonicalEnvPresent (ct_Env aksh) (p_Namespace pod)) then false
            else canonicalMountsPresent (ct_VolumeMounts aksh)
        end
  end.

Definition isCanonicalAkshPod (pod : option Pod) (opts : InjectorOptions) : bool :=
  isCanonicalAkshShape pod opts && match pod with Some p => canonicalVolumeSourcesPresent p | None => false end.

(** ** [Patch] *)

(** The updates [Patch] makes to its copy of the pod. *)
Definition set_hostPID (p : Pod) : Pod :=
  {| p_Name := p_Name p; p_Namespace := p_Namespace p; p_Annotations := p_Annotations p; p_HostPID := true;
     p_HostNetwork := p_HostNetwork p; p_ShareProcessNamespace := p_ShareProcessNamespace p;
     p_AutomountServiceAccountToken := p_AutomountServiceAccountToken p; p_SecurityContext := p_SecurityContext p;
     p_Containers := p_Containers p; p_InitContainers := p_InitContainers p;
     p_EphemeralContainers := p_EphemeralContainers p; p_Volumes := p_Volumes p; p_Rest := p_Rest p |}.

Definition set_volumes (vs : list Volume) (p : Pod) : Pod :=
  {| p_Name := p_Name p; p_Namespace := p_Namespace p; p_Annotations := p_Annotations p; p_HostPID := p_HostPID p;
     p_HostNetwork := p_HostNetwork p; p_ShareProcessNamespace := p_ShareProcessNamespace p;
     p_AutomountServiceAccountToken := p_AutomountServiceAccountToken p; p_SecurityContext := p_SecurityContext p;
     p_Containers := p_Containers p; p_InitContainers := p_InitContainers p;
     p_EphemeralContainers := p_EphemeralContainers p; p_Volumes := vs; p_Rest := p_Rest p |}.

Definition set_security (sc : PodSecurityContext) (p : Pod) : Pod :=
  {| p_Name := p_Name p; p_Namespace := p_Namespace p; p_Annotations := p_Annotations p; p_HostPID := p_HostPID p;
     p_HostNetwork := p_HostNetwork p; p_ShareProcessNamespace := p_ShareProcessNamespace p;
     p_AutomountServiceAccountToken := p_AutomountServiceAccountToken p; p_SecurityContext := Some sc;
     p_Containers := p_Containers p; p_InitContainers := p_InitContainers p;
     p_EphemeralContainers := p_EphemeralContainers p; p_Volumes := p_Volumes p; p_Rest := p_Rest p |}.

Definition set_annotations (m : gmap gostring gostring) (p : Pod) : Pod :=
  {| p_Name := p_Name p; p_Namespace := p_Namespace p; p_Annotations := Some m; p_HostPID := p_HostPID p;
     p_HostNetwork := p_HostNetwork p; p_ShareProcessNamespace := p_ShareProcessNamespace p;
     p_AutomountServiceAccountToken := p_AutomountServiceAccountToken p; p_SecurityContext := p_SecurityContext p;
     p_Containers := p_Containers p; p_InitContainers := p_InitContainers p;
     p_EphemeralContainers := p_EphemeralContainers p; p_Volumes := p_Volumes p; p_Rest := p_Rest p |}.

Definition set_containers (cs : list Container) (p : Pod) : Pod :=
  {| p_Name := p_Name p; p_Namespace := p_Namespace p; p_Annotations := p_Annotations p; p_HostPID := p_HostPID p;
     p_HostNetwork := p_HostNetwork p; p_ShareProcessNamespace := p_ShareProcessNamespace p;
     p_AutomountServiceAccountToken := p_AutomountServiceAccountToken p; p_SecurityContext := p_SecurityContext p;
     p_Containers := cs; p_InitContainers := p_InitContainers p;
     p_EphemeralContainers := p_EphemeralContainers p; p_Volumes := p_Volumes p; p_Rest := p_Rest p |}.

(** The loop over the canonical volumes: keep an identical one, append a missing one. *)
Fixpoint add_volumes (wanted : list Volume) (have : list Volume) : result AdmissionError (list Volume) :=
  match wanted with
  | [] => Ok have
  | volume :: wanted =>
      match find_volume have (v_Name volume) with
      | Some existing =>
          if negb (DeepEqual (v_Source existing) (v_Source volume)) then
            Err {| Field := "spec.volumes[name=" ++ v_Name volume ++ "]"; Reason := "conflicts with required aksh volume" |}
          else add_volumes wanted have
      | None => add_volumes wanted (have ++ [volume])
      end
  end.

Definition Patch (s : SidecarInjector) (pod : option Pod) : result AdmissionError Pod :=
  match pod with
  | None => Err {| Field := "pod"; Reason := "required" |}
  | Some out =>
      if (length (p_Containers out) =? 0)%nat then Err {| Field := "spec.containers"; Reason := "required" |}
      else if isCanonicalAkshPod (Some out) (options s) then Ok (set_hostPID out)
      else if hasContainerNamed out akshContainerName then
        Err {| Field := "spec.containers[name=aksh]"; Reason := "conflicts with required aksh sidecar" |}
      else
        let? volumes := add_volumes canonicalVolumes (p_Volumes out) in
        let out := set_hostPID (set_volumes volumes out) in
        let sc := default {| ps_FSGroup := None; ps_RunAsUser := None; ps_Rest := [] |} (p_SecurityContext out) in
        let out := set_security {| ps_FSGroup := Some reservedID; ps_RunAsUser := ps_RunAsUser sc; ps_Rest := ps_Rest sc |} out in
        let out := set_annotations (<[injectionAnnotation := injectionVersion s]> (default ∅ (p_Annotations out))) out in
        Ok (set_containers (canonicalContainer s (p_Namespace out) :: p_Containers out) out)
  end.

(** ** [validate.go] *)

Definition reasonAkshShape : gostring := "must match canonical aksh sidecar shape".
Definition reasonHostNetwork : gostring := "denied".
Definition reasonShareProcessNS : gostring := "denied".
Definition reasonAutomount : gostring := "denied".
Definition reasonIstio : gostring := "istio coexistence denied".
Definition reasonReservedUID : gostring := "must not use reserved uid 1774".
Definition reasonCapabilities : gostring := "must not add privileged capabilities".
Definition reasonPrivEscalation : gostring := "must not be true".
Definition reasonPrivileged : gostring := "must not be true".
Definition reasonRunAsNonRoot : gostring := "must not be false".
Definition reasonTokenLeakage : gostring := "must not mount aksh service-account token".
Definition reasonCAPrivLeakage : gostring := "must not mount ca-priv".
Definition reasonCAPubMutability : gostring := "must be read-only".
Definition reasonHostCgroupLeakage : gostring := "must not mount hostcgroup".
Definition reasonAkshCredVolume : gostring := "must not mount upstream-ca".
Definition reasonVolumeSource : gostring := "source drift from required aksh volume".
Definition reasonVolumeMissing : gostring := "required aksh volume missing".

Definition istioStatusAnnotation : gostring := "sidecar.istio.io/status".
Definition istioProxyContainer : gostring := "istio-proxy".
Definition entraTokenAudience : gostring := "api://AzureADTokenExchange".

Definition deniedNonAkshCapabilities (c : gostring) : bool :=
  existsb (str_eqb c)
    [bs "BPF"; bs "NET_ADMIN"; bs "NET_RAW"; bs "SYS_ADMIN"; bs "SYS_RESOURCE"; bs "PERFMON"; bs "SETUID"; bs "SETGID";
     bs "SETPCAP"; bs "SYS_PTRACE"].

(** A check that returns [error]: nil or a denial; the first one counts. *)
Definition denial := option AdmissionError.
Definition orElse (a b : denial) : denial := match a with Some e => Some e | None => b end.
Definition deny (field reason : gostring) : denial := Some {| Field := field; Reason := reason |}.

(** A loop that returns the first denial. *)
Fixpoint first_denial {A} (f : A -> denial) (l : list A) : denial :=
  match l with [] => None | x :: l => orElse (f x) (first_denial f l) end.

Definition is_true_ptr (o : option bool) : bool := match o with Some b => b | None => false end.

Definition validatePodLevel (pod : Pod) : denial :=
  if p_HostNetwork pod then deny "spec.hostNetwork" reasonHostNetwork
  else if is_true_ptr (p_ShareProcessNamespace pod) then deny "spec.shareProcessNamespace" reasonShareProcessNS
  else if is_true_ptr (p_AutomountServiceAccountToken pod) then deny "spec.automountServiceAccountToken" reasonAutomount
  else None.

Definition validateIstioCoexistence (pod : Pod) : denial :=
  match p_Annotations pod ≫= fun m => m !! istioStatusAnnotation with
  | Some _ => deny ("metadata.annotations[" ++ istioStatusAnnotation ++ "]") reasonIstio
  | None =>
      first_denial (fun c =>
        if str_eqb (ct_Name c) istioProxyContainer then deny ("spec.containers[name=" ++ istioProxyContainer ++ "]") reasonIstio
        else None) (p_Containers pod)
  end.

Definition validateReservedUID (field : gostring) (sc : option SecurityContext) : denial :=
  if is_Z (sc ≫= sc_RunAsUser) reservedID then deny (field ++ ".securityContext.runAsUser") reasonReservedUID else None.

Definition validateDeniedCapabilities (field : gostring) (sc : option SecurityContext) : denial :=
  match sc ≫= sc_Capabilities with
  | None => None
  | Some caps =>
      first_denial (fun add =>
        if deniedNonAkshCapabilities add then deny (field ++ ".securityContext.capabilities.add") reasonCapabilities else None)
        (cap_Add caps)
  end.

Definition validateReservedIdentityAndCapabilities (field : gostring) (sc : option SecurityContext) : denial :=
  orElse (validateReservedUID field sc) (validateDeniedCapabilities field sc).

Definition validateAppContainerSecurity (field : gostring) (sc : option SecurityContext) : denial :=
  orElse (validateReservedUID field sc) (orElse (validateDeniedCapabilities field sc)
    match sc with
    | None => None
    | Some sc =>
        if is_true_ptr (sc_AllowPrivilegeEscalation sc) then
          deny (field ++ ".securityContext.allowPrivilegeEscalation") reasonPrivEscalation
        else if is_true_ptr (sc_Privileged sc) then deny (field ++ ".securityContext.privileged") reasonPrivileged
        else match sc_RunAsNonRoot sc with
             | Some false => deny (field ++ ".securityContext.runAsNonRoot") reasonRunAsNonRoot
             | _ => None
             end
    end).

Definition container_field (kind name : gostring) : gostring := "spec." ++ kind ++ "[name=" ++ name ++ "]".

Definition validateContainerSecurity (pod : Pod) : denial :=
  orElse (first_denial (fun c =>
            if str_eqb (ct_Name c) akshContainerName then None
            else validateAppContainerSecurity (container_field "containers" (ct_Name c)) (ct_SecurityContext c))
          (p_Containers pod))
  (orElse (first_denial (fun c =>
            validateReservedIdentityAndCapabilities (container_field "initContainers" (ct_Name c)) (ct_SecurityContext c))
          (p_InitContainers pod))
  (first_denial (fun c =>
            validateReservedIdentityAndCapabilities (container_field "ephemeralContainers" (ct_Name c)) (ct_SecurityContext c))
          (p_EphemeralContainers pod))).

Definition isAkshProjectedToken (pod : Pod) (volumeName : gostring) : bool :=
  match findVolume pod volumeName with
  | None => false
  | Some v =>
      match vs_Projected (v_Source v) with
      | None => false
      | Some pj =>
          existsb (fun src => match vp_ServiceAccountToken src with
                              | Some t => str_eqb (sp_Audience t) entraTokenAudience
                              | None => false
                              end) (pj_Sources pj)
      end
  end.

Definition checkContainerMountLeakage (pod : Pod) (base : gostring) (mounts : list VolumeMount) : denial :=
  let field := base ++ ".volumeMounts" in
  first_denial (fun m =>
    if str_eqb (vm_Name m) "entra-token" || isAkshProjectedToken pod (vm_Name m) then deny field reasonTokenLeakage
    else if str_eqb (vm_Name m) "ca-priv" then deny field reasonCAPrivLeakage
    else if str_eqb (vm_Name m) "ca-pub" && negb (vm_ReadOnly m) then deny (field ++ "[name=ca-pub].readOnly") reasonCAPubMutability
    else if str_eqb (vm_Name m) "hostcgroup" then deny field reasonHostCgroupLeakage
    else if str_eqb (vm_Name m) "upstream-ca" then deny field reasonAkshCredVolume
    else None) mounts.

Definition validateMountLeakage (pod : Pod) : denial :=
  orElse (first_denial (fun c =>
            if str_eqb (ct_Name c) akshContainerName then None
            else checkContainerMountLeakage pod (container_field "containers" (ct_Name c)) (ct_VolumeMounts c))
          (p_Containers pod))
  (orElse (first_denial (fun c => checkContainerMountLeakage pod (container_field "initContainers" (ct_Name c)) (ct_VolumeMounts c))
          (p_InitContainers pod))
  (first_denial (fun c => checkContainerMountLeakage pod (container_field "ephemeralContainers" (ct_Name c)) (ct_VolumeMounts c))
          (p_EphemeralContainers pod))).

Definition validateVolumeSources (pod : Pod) : denial :=
  first_denial (fun want =>
    match findVolume pod (v_Name want) with
    | None => deny ("spec.volumes[name=" ++ v_Name want ++ "]") reasonVolumeMissing
    | Some got =>
        if negb (volumeSourceEquivalent (v_Source got) (v_Source want)) then
          deny ("spec.volumes[name=" ++ v_Name want ++ "]") reasonVolumeSource
        else None
    end) canonicalVolumes.

Definition Validate (s : SidecarInjector) (pod : option Pod) : denial :=
  match pod with
  | None => deny "pod" "required"
  | Some p =>
      if (length (p_Containers p) =? 0)%nat then deny "spec.containers" "required"
      else if negb (isCanonicalAkshShape pod (options s)) then deny "spec.containers[name=aksh]" reasonAkshShape
      else orElse (validatePodLevel p) (orElse (validateIstioCoexistence p) (orElse (validateContainerSecurity p)
             (orElse (validateMountLeakage p) (validateVolumeSources p))))
  end.

(** ** Lemmas on the loops *)

Lemma orElse_None a b : orElse a b = None <-> a = None /\ b = None.
Proof. destruct a; simpl; naive_solver. Qed.

Lemma first_denial_None {A} (f : A -> denial) l : first_denial f l = None <-> Forall (fun x => f x = None) l.
Proof.
  induction l as [|x l IH]; simpl; [by split; [intros; constructor|]|]. rewrite orElse_None, IH. by rewrite Forall_cons.
Qed.

Lemma first_denial_ext {A} (f g : A -> denial) l : (forall x, f x = g x) -> first_denial f l = first_denial g l.
Proof. intros H. induction l as [|x l IH]; simpl; [done|]. by rewrite H, IH. Qed.

Lemma by_name_snoc {A} (name : A -> gostring) l x : by_name name (l ++ [x]) = <[name x := x]> (by_name name l).
Proof. unfold by_name. by rewrite fold_left_app. Qed.

(** The entry under a name is the last element of that name. *)
Lemma by_name_lookup {A} (name : A -> gostring) l k : by_name name l !! k = last (filter (fun x => name x = k) l).
Proof.
  induction l as [|x l IH] using rev_ind; [done|]. rewrite by_name_snoc, filter_app.
  destruct (decide (name x = k)) as [<-|Hne].
  - rewrite lookup_insert_eq, filter_cons, decide_True, filter_nil by done. by rewrite last_snoc.
  - rewrite lookup_insert_ne, filter_cons, decide_False, filter_nil by done. by rewrite app_nil_r.
Qed.

Lemma by_name_elem {A} (name : A -> gostring) l x : NoDup (name <$> l) -> x ∈ l -> by_name name l !! name x = Some x.
Proof.
  induction l as [|y l IH] using rev_ind; [by intros _ ?%not_elem_of_nil|].
  rewrite fmap_app, NoDup_app, by_name_snoc. intros (Hl & Hd & _) [Hx|Hx%list_elem_of_singleton]%elem_of_app.
  - rewrite lookup_insert_ne; [by apply IH|]. intros E. apply (Hd (name x)); [by apply list_elem_of_fmap_2|].
    simpl. rewrite E. by left.
  - subst. by rewrite lookup_insert_eq.
Qed.

Lemma forallb_elem {A} (f : A -> bool) l : forallb f l = true <-> forall x, x ∈ l -> f x = true.
Proof. rewrite forallb_forall. by setoid_rewrite list_elem_of_In. Qed.

Lemma seen_lookup (l : list gostring) c :
  default false ((fold_left (fun seen c => <[c := true]> seen) l (∅ : gmap gostring bool)) !! c) = bool_decide (c ∈ l).
Proof.
  induction l as [|x l IH] using rev_ind; [done|].
  rewrite fold_left_app. simpl. destruct (decide (x = c)) as [->|Hne].
  - rewrite lookup_insert_eq, bool_decide_eq_true_2; [done|]. apply elem_of_app; right; by left.
  - rewrite lookup_insert_ne, IH by done. apply bool_decide_ext. rewrite elem_of_app, list_elem_of_singleton. naive_solver.
Qed.

(** The length check makes the one-sided inclusion an equality of sets. *)
Lemma capabilitySetEqual_spec got want : NoDup want -> capabilitySetEqual got want = true <-> got ≡ₚ want.
Proof.
  intros Hnd. unfold capabilitySetEqual. destruct (Nat.eqb_spec (length got) (length want)) as [Hl|Hl]; simpl.
  - rewrite forallb_elem. setoid_rewrite seen_lookup. setoid_rewrite bool_decide_eq_true. split.
    + intros H. symmetry. apply submseteq_length_Permutation; [by apply NoDup_submseteq|lia].
    + intros H x Hx. by rewrite H.
  - split; [done|]. intros H%Permutation_length. done.
Qed.

(** ** Volumes *)

Lemma find_volume_app have more k v : find_volume have k = Some v -> find_volume (have ++ more) k = Some v.
Proof. unfold find_volume. induction have as [|x have IH]; simpl; [done|]. destruct (str_eqb _ _); auto. Qed.

Lemma find_volume_snoc have v k :
  find_volume (have ++ [v]) k = match find_volume have k with Some x => Some x | None => if str_eqb (v_Name v) k then Some v else None end.
Proof. unfold find_volume. induction have as [|x have IH]; simpl; [done|]. destruct (str_eqb (v_Name x) k); auto. Qed.

(** Appended volumes leave every other name alone. *)
Lemma find_volume_add have added k : Forall (fun v => v_Name v <> k) added -> find_volume (have ++ added) k = find_volume have k.
Proof.
  unfold find_volume. intros Ha. induction have as [|x have IH]; simpl; [|by destruct (str_eqb _ _)].
  induction Ha as [|v added Hv _ IH]; simpl; [done|]. rewrite (proj2 (str_eqb_neq _ _)) by done. done.
Qed.

Lemma add_volumes_spec wanted have vs : add_volumes wanted have = Ok vs ->
  exists added, vs = have ++ added /\ added ⊆ wanted /\
    Forall (fun w => exists v, find_volume vs (v_Name w) = Some v /\ v_Source v = v_Source w) wanted.
Proof.
  revert have. induction wanted as [|w wanted IH]; intros have; simpl.
  - intros [= <-]. exists []. rewrite app_nil_r. split_and!; [done|set_solver|constructor].
  - destruct (find_volume have (v_Name w)) as [x|] eqn:E; [unfold DeepEqual; case_bool_decide as Hx; simpl; [|done]|].
    all: intros (added & -> & Hsub & Hall)%IH.
    + exists added. split_and!; [done|set_solver|]. constructor; [|done]. exists x. by rewrite (find_volume_app _ _ _ _ E).
    + exists (w :: added). rewrite <- app_assoc in *. split_and!; [done|set_solver|]. constructor; [|done].
      exists w. split; [|done]. change (w :: added) with ([w] ++ added). rewrite app_assoc.
      apply find_volume_app. rewrite find_volume_snoc, E. by rewrite str_eqb_refl.
Qed.

Lemma volumeSourceEquivalent_refl v : volumeSourceEquivalent v v = true.
Proof.
  unfold volumeSourceEquivalent, hostPathTypeEquivalent, DeepEqual.
  destruct v as [[]  [] [] [] [] ?]; simpl; repeat case_bool_decide; simpl; try done;
    rewrite ?str_eqb_refl; done.
Qed.

(** ** What an admitted pod satisfies

    The specification of [Validate]: the sidecar is the first container and has the
    canonical identity, command, capabilities (in any order), variables and mounts,
    where the last variable or mount of a name counts; and no other container has what
    is reserved for it. *)

Definition last_named {A} (name : A -> gostring) (l : list A) (k : gostring) : option A :=
  last (filter (fun x => name x = k) l).

Record sidecar_container (s : SidecarInjector) (namespace : gostring) (c : Container) : Prop := {
  sidecar_name : ct_Name c = akshContainerName;
  sidecar_image : ct_Image c = proxyImage s;
  sidecar_command : ct_Command c = [bs "/usr/local/bin/aksh-proxy"] /\ ct_Args c = [];
  sidecar_identity : exists sc, ct_SecurityContext c = Some sc /\ sc_RunAsUser sc = Some reservedID /\
    sc_RunAsGroup sc = Some reservedID /\ exists caps, sc_Capabilities sc = Some caps /\ cap_Add caps ≡ₚ canonicalCapabilities;
  sidecar_no_env : forall e, e ∈ ct_Env c -> ev_Name e <> "AKSH_CAPTURE_POD_PATH" /\ ev_Name e <> "SSL_CERT_FILE";
  sidecar_env : forall w, w ∈ canonicalEnv namespace ->
    exists g, last_named ev_Name (ct_Env c) (ev_Name w) = Some g /\ env_matches g w = true;
  sidecar_mounts : forall w, w ∈ canonicalMounts ->
    exists g, last_named vm_Name (ct_VolumeMounts c) (vm_Name w) = Some g /\
      vm_MountPath g = vm_MountPath w /\ vm_ReadOnly g = vm_ReadOnly w
}.

Definition sidecar_contract (s : SidecarInjector) (p : Pod) : Prop :=
  injectionVersion s <> [] /\ p_Annotations p ≫= (fun m => m !! injectionAnnotation) = Some (injectionVersion s) /\
  p_SecurityContext p ≫= ps_FSGroup = Some reservedID /\
  exists aksh rest, p_Containers p = aksh :: rest /\ sidecar_container s (p_Namespace p) aksh /\
    forall c, c ∈ rest -> ct_Name c <> akshContainerName.

(** No reserved identity, no capability of the list. *)
Definition unprivileged (c : Container) : Prop :=
  ct_SecurityContext c ≫= sc_RunAsUser <> Some reservedID /\
  forall caps a, ct_SecurityContext c ≫= sc_Capabilities = Some caps -> a ∈ cap_Add caps -> deniedNonAkshCapabilities a = false.

Definition hardened (c : Container) : Prop :=
  ct_SecurityContext c ≫= sc_AllowPrivilegeEscalation <> Some true /\ ct_SecurityContext c ≫= sc_Privileged <> Some true /\
  ct_SecurityContext c ≫= sc_RunAsNonRoot <> Some false.

(** No mount of the sidecar's volumes, [ca-pub] read-only excepted, nor of a token of its audience. *)
Definition no_leak (p : Pod) (c : Container) : Prop :=
  forall m, m ∈ ct_VolumeMounts c ->
    vm_Name m <> "entra-token" /\ isAkshProjectedToken p (vm_Name m) = false /\ vm_Name m <> "ca-priv" /\
    vm_Name m <> "hostcgroup" /\ vm_Name m <> "upstream-ca" /\ (vm_Name m = "ca-pub" -> vm_ReadOnly m = true).

Definition workload_rules (p : Pod) : Prop :=
  p_HostNetwork p = false /\ p_ShareProcessNamespace p <> Some true /\ p_AutomountServiceAccountToken p <> Some true /\
  p_Annotations p ≫= (fun m => m !! istioStatusAnnotation) = None /\
  (forall c, c ∈ p_Containers p -> ct_Name c <> istioProxyContainer) /\
  (forall c, c ∈ p_Containers p -> ct_Name c <> akshContainerName -> unprivileged c /\ hardened c /\ no_leak p c) /\
  (forall c, c ∈ p_InitContainers p \/ c ∈ p_EphemeralContainers p -> unprivileged c /\ no_leak p c).

Definition owned_volumes (p : Pod) : Prop :=
  forall w, w ∈ canonicalVolumes ->
    exists v, findVolume p (v_Name w) = Some v /\ volumeSourceEquivalent (v_Source v) (v_Source w) = true.

Lemma is_Z_spec o z : is_Z o z = true <-> o = Some z.
Proof. destruct o; simpl; [rewrite Z.eqb_eq|]; naive_solver. Qed.

Lemma existsb_false {A} (f : A -> bool) l : existsb f l = false <-> forall x, x ∈ l -> f x = false.
Proof.
  induction l as [|x l IH]; simpl; [split; [by intros _ y ?%not_elem_of_nil|done]|].
  rewrite orb_false_iff, IH. setoid_rewrite elem_of_cons. naive_solver.
Qed.

Lemma negb_if (b : bool) (x : bool) : (if negb b then false else x) = b && x.
Proof. by destruct b. Qed.

Lemma canonicalEnvPresent_spec got ns : canonicalEnvPresent got ns = true <->
  (forall e, e ∈ got -> ev_Name e <> "AKSH_CAPTURE_POD_PATH" /\ ev_Name e <> "SSL_CERT_FILE") /\
  (forall w, w ∈ canonicalEnv ns -> exists g, last_named ev_Name got (ev_Name w) = Some g /\ env_matches g w = true).
Proof.
  assert (Hnone : forall k, by_name ev_Name got !! k = None <-> forall e, e ∈ got -> ev_Name e <> k).
  { intros k. rewrite by_name_lookup, last_None. split.
    - intros H e He <-. by eapply (not_elem_of_nil e); rewrite <- H; apply list_elem_of_filter.
    - intros H. destruct (filter _ got) as [|e l] eqn:E; [done|]. destruct (H e); [|].
      all: assert (He : e ∈ e :: l) by left; rewrite <- E in He; apply list_elem_of_filter in He; tauto. }
  unfold canonicalEnvPresent. cbv zeta.
  destruct (by_name ev_Name got !! bs "AKSH_CAPTURE_POD_PATH") as [x|] eqn:E1.
  { split; [done|]. intros [H _]. assert (H' := proj2 (Hnone _) (fun e He => proj1 (H e He))). by rewrite H' in E1. }
  destruct (by_name ev_Name got !! bs "SSL_CERT_FILE") as [x|] eqn:E2.
  { split; [done|]. intros [H _]. assert (H' := proj2 (Hnone _) (fun e He => proj2 (H e He))). by rewrite H' in E2. }
  rewrite forallb_elem. setoid_rewrite by_name_lookup. unfold last_named.
  assert (He := proj1 (Hnone _) E1). assert (He' := proj1 (Hnone _) E2). split.
  - intros H. split; [naive_solver|]. intros w Hw. specialize (H w Hw). destruct (last _); naive_solver.
  - intros [_ H] w Hw. destruct (H w Hw) as (g & -> & Hg). done.
Qed.

Lemma canonicalMountsPresent_spec got : canonicalMountsPresent got = true <->
  (forall w, w ∈ canonicalMounts -> exists g, last_named vm_Name got (vm_Name w) = Some g /\
     vm_MountPath g = vm_MountPath w /\ vm_ReadOnly g = vm_ReadOnly w).
Proof.
  unfold canonicalMountsPresent. cbv zeta. rewrite forallb_elem. setoid_rewrite by_name_lookup. unfold last_named.
  split; intros H w Hw; specialize (H w Hw).
  - destruct (last _) as [g|]; [|done]. exists g. apply andb_true_iff in H as [?%str_eqb_eq ?%Bool.eqb_prop]. done.
  - destruct H as (g & -> & -> & ->). by rewrite str_eqb_refl, Bool.eqb_reflx.
Qed.

Lemma capabilities_nodup : NoDup canonicalCapabilities.
Proof. by apply (bool_decide_unpack _); vm_compute. Qed.

Lemma annotation_spec p v : annotation p injectionAnnotation <> [] /\ annotation p injectionAnnotation = v <->
  v <> [] /\ p_Annotations p ≫= (fun m => m !! injectionAnnotation) = Some v.
Proof. unfold annotation. destruct (p_Annotations p ≫= _); naive_solver. Qed.

Lemma is_Z_negb o z : negb (is_Z o z) = false <-> o = Some z.
Proof. by rewrite negb_false_iff, is_Z_spec. Qed.

Lemma isCanonicalAkshShape_spec s p : isCanonicalAkshShape (Some p) (options s) = true <-> sidecar_contract s p.
Proof.
  unfold isCanonicalAkshShape, sidecar_contract. cbn [options io_InjectionVersion io_ProxyImage]. rewrite <- Logic.and_assoc, <- annotation_spec.
  destruct (str_eqb (annotation p injectionAnnotation) "") eqn:E0; simpl; [apply str_eqb_eq in E0; naive_solver|apply str_eqb_neq in E0].
  destruct (str_eqb (annotation p injectionAnnotation) (injectionVersion s)) eqn:E1; simpl; [apply str_eqb_eq in E1|apply str_eqb_neq in E1; naive_solver].
  rewrite negb_if, andb_true_iff, is_Z_spec.
  destruct (p_Containers p) as [|aksh rest]; [naive_solver|].
  rewrite !negb_if.
  destruct (existsb (fun c => str_eqb (ct_Name c) akshContainerName) rest) eqn:Er.
  { rewrite andb_false_r. split; [by intros []|]. intros (_ & _ & a & r & [= <- <-] & _ & Hr).
    assert (Hn : existsb (fun c => str_eqb (ct_Name c) akshContainerName) rest = false); [|congruence].
    apply existsb_false. intros c Hc. apply str_eqb_neq. auto. }
  rewrite existsb_false in Er. setoid_rewrite str_eqb_neq in Er.
  rewrite <- !negb_andb, !negb_if, !andb_true_iff, str_eqb_eq, str_eqb_eq, Nat.eqb_eq, !is_Z_spec.
  unfold DeepEqual. rewrite bool_decide_eq_true, canonicalEnvPresent_spec, canonicalMountsPresent_spec.
  split.
  - intros (Hfs & Hn & [[Hi Hc] Ha] & [Hu Hg] & Hcap & [He He'] & Hm). split_and!; [done..|].
    exists aksh, rest. split_and!; [done| |done]. destruct (ct_SecurityContext aksh) as [sc|] eqn:Esc; [|done].
    cbn in Hu, Hg, Hcap. destruct (sc_Capabilities sc) as [caps|] eqn:Ecaps; [|done].
    apply capabilitySetEqual_spec in Hcap; [|apply capabilities_nodup].
    constructor; try done; [by destruct (ct_Args aksh)|]. exists sc. split_and!; [done..|]. by exists caps.
  - intros (_ & Hfs & a & r & [= <- <-] & [Hn Hi [Hc Ha] (sc & Hsc & Hu & Hg & caps & Hcaps & Hp) He He' Hm] & _).
    rewrite Hsc, Ha. cbn. rewrite Hcaps. split_and!; try done. by apply capabilitySetEqual_spec; [apply capabilities_nodup|].
Qed.

Lemma is_true_ptr_spec o : is_true_ptr o = true <-> o = Some true.
Proof. destruct o as [[]|]; naive_solver. Qed.

Lemma if_deny (b : bool) f r x : (if b then deny f r else x) = None <-> b = false /\ x = None.
Proof. destruct b; naive_solver. Qed.

Lemma not_true_iff (b : bool) (P : Prop) : (b = true <-> P) -> (b = false <-> ~ P).
Proof. destruct b; naive_solver. Qed.

Lemma reserved_and_capabilities_spec f c :
  validateReservedIdentityAndCapabilities f (ct_SecurityContext c) = None <-> unprivileged c.
Proof.
  unfold validateReservedIdentityAndCapabilities, validateReservedUID, validateDeniedCapabilities, unprivileged.
  rewrite orElse_None, if_deny, (not_true_iff _ _ (is_Z_spec _ _)). f_equiv; [naive_solver|].
  destruct (ct_SecurityContext c ≫= sc_Capabilities) as [caps|]; [|naive_solver].
  rewrite first_denial_None, Forall_forall. setoid_rewrite if_deny. naive_solver.
Qed.

Lemma app_security_spec f c :
  validateAppContainerSecurity f (ct_SecurityContext c) = None <-> unprivileged c /\ hardened c.
Proof.
  rewrite <- (reserved_and_capabilities_spec f). unfold validateAppContainerSecurity, validateReservedIdentityAndCapabilities, hardened.
  rewrite !orElse_None. destruct (ct_SecurityContext c) as [sc|]; cbn; [|naive_solver].
  rewrite !if_deny, !(not_true_iff _ _ (is_true_ptr_spec _)).
  destruct (sc_RunAsNonRoot sc) as [[]|]; naive_solver.
Qed.

Lemma leakage_spec p f c : checkContainerMountLeakage p f (ct_VolumeMounts c) = None <-> no_leak p c.
Proof.
  unfold checkContainerMountLeakage, no_leak. rewrite first_denial_None, Forall_forall.
  do 2 (apply forall_proper; intros ?). rewrite !if_deny, orb_false_iff, !str_eqb_neq, andb_false_iff, str_eqb_neq.
  destruct (vm_ReadOnly _); simpl; naive_solver.
Qed.

Lemma workload_rules_spec p :
  orElse (validatePodLevel p) (orElse (validateIstioCoexistence p) (orElse (validateContainerSecurity p) (validateMountLeakage p))) = None <->
  workload_rules p.
Proof.
  unfold workload_rules, validatePodLevel, validateIstioCoexistence, validateContainerSecurity, validateMountLeakage.
  rewrite !orElse_None, !if_deny, !first_denial_None, !Forall_forall, !(not_true_iff _ _ (is_true_ptr_spec _)).
  setoid_rewrite reserved_and_capabilities_spec. setoid_rewrite leakage_spec.
  assert (Hskip : forall c (d : denial) P, (d = None <-> P) ->
    ((if str_eqb (ct_Name c) akshContainerName then None else d) = None <-> (ct_Name c <> akshContainerName -> P))).
  { intros c d P H. destruct (str_eqb _ _) eqn:E; [apply str_eqb_eq in E|apply str_eqb_neq in E]; naive_solver. }
  setoid_rewrite (fun c => Hskip c _ _ (app_security_spec _ c)). setoid_rewrite (fun c => Hskip c _ _ (leakage_spec p _ c)).
  destruct (p_Annotations p ≫= _) as [a|]; [naive_solver|].
  rewrite first_denial_None, Forall_forall. setoid_rewrite if_deny. setoid_rewrite str_eqb_neq. naive_solver.
Qed.

Lemma validateVolumeSources_spec p : validateVolumeSources p = None <-> owned_volumes p.
Proof.
  unfold validateVolumeSources, owned_volumes. rewrite first_denial_None, Forall_forall. do 2 (apply forall_proper; intros ?).
  destruct (findVolume p _) as [v|]; [|naive_solver]. rewrite if_deny, negb_false_iff. naive_solver.
Qed.

(** ** Theorems *)

(** [Validate] admits exactly the pods of the specification: the sidecar contract
    holds (the pod is stamped with the injector's version, the first container and only
    it is the canonical sidecar), every volume the sidecar owns has its golden source,
    and no other container, initialisation and ephemeral ones included, has the
    reserved user, a listed capability or a mount of the sidecar's credentials. *)
Lemma Validate_spec s p :
  Validate s (Some p) = None <-> sidecar_contract s p /\ workload_rules p /\ owned_volumes p.
Proof.
  rewrite <- workload_rules_spec, <- validateVolumeSources_spec, <- isCanonicalAkshShape_spec. unfold Validate.
  destruct (p_Containers p) as [|c cs] eqn:Ec; cbn [length Nat.eqb].
  - split; [done|]. unfold isCanonicalAkshShape. rewrite Ec. intros [H _]. by repeat case_match.
  - destruct (isCanonicalAkshShape (Some p) (options s)); cbn [negb]; [rewrite !orElse_None; tauto|].
    by split; [|intros []].
Qed.

Lemma NewSidecarInjector_version `{Unicode} opts s : NewSidecarInjector opts = Ok s -> injectionVersion s <> [].
Proof.
  unfold NewSidecarInjector. destruct (str_eqb (TrimSpace (io_ProxyImage opts)) ""); [done|]. destruct (_ || _); [done|].
  destruct (str_eqb (TrimSpace (io_InjectionVersion opts)) "") eqn:E; [done|]. repeat destruct (negb _); try done.
  intros [= <-]. cbn. intros E'. by rewrite E' in E.
Qed.

Lemma canonicalContainer_ok s ns : sidecar_container s ns (canonicalContainer s ns).
Proof.
  constructor; cbn; try done.
  - eexists. split_and!; [done..|]. by eexists.
  - intros e He. unfold canonicalEnv in He. repeat (apply elem_of_cons in He as [->|He]; [by split; vm_compute|]).
    by apply not_elem_of_nil in He.
  - intros w Hw. exists w. unfold last_named. rewrite <- by_name_lookup. split.
    + apply by_name_elem; [|done]. by apply (bool_decide_unpack _); vm_compute.
    + unfold canonicalEnv in Hw. repeat (apply elem_of_cons in Hw as [->|Hw]; [unfold env_matches; cbn; by rewrite ?str_eqb_refl|]).
      by apply not_elem_of_nil in Hw.
  - intros w Hw. exists w. unfold last_named. rewrite <- by_name_lookup. split; [|done].
    apply by_name_elem; [|done]. by apply (bool_decide_unpack _); vm_compute.
Qed.

(** The two ways [Patch] succeeds. *)
Inductive patched (s : SidecarInjector) (p : Pod) : Pod -> Prop :=
| patched_same : isCanonicalAkshPod (Some p) (options s) = true -> patched s p (set_hostPID p)
| patched_new added m sc :
    hasContainerNamed p akshContainerName = false -> added ⊆ canonicalVolumes ->
    (forall w, w ∈ canonicalVolumes -> exists v, find_volume (p_Volumes p ++ added) (v_Name w) = Some v /\ v_Source v = v_Source w) ->
    m = <[injectionAnnotation := injectionVersion s]> (default ∅ (p_Annotations p)) -> ps_FSGroup sc = Some reservedID ->
    patched s p (set_containers (canonicalContainer s (p_Namespace p) :: p_Containers p)
                   (set_annotations m (set_security sc (set_hostPID (set_volumes (p_Volumes p ++ added) p))))).

Lemma Patch_patched s p p' : Patch s (Some p) = Ok p' -> p_Containers p <> [] /\ patched s p p'.
Proof.
  unfold Patch. destruct (length (p_Containers p) =? 0)%nat eqn:El; [done|]. intros H. split.
  { intros E. by rewrite E in El. }
  destruct (isCanonicalAkshPod _ _) eqn:Ec; [injection H as <-; by constructor|].
  destruct (hasContainerNamed p akshContainerName) eqn:Eh; [done|].
  destruct (add_volumes canonicalVolumes (p_Volumes p)) as [vs|] eqn:Ev; cbn [rbind] in H; [|done].
  destruct (add_volumes_spec _ _ _ Ev) as (added & -> & Hsub & Hall). injection H as <-.
  eapply patched_new; eauto. by rewrite Forall_forall in Hall.
Qed.

Lemma patched_canonical s p p' : injectionVersion s <> [] -> patched s p p' ->
  isCanonicalAkshPod (Some p') (options s) = true /\ set_hostPID p' = p'.
Proof.
  intros Hv [Hc|added m sc Hn Hsub Hall -> Hfs]; [done|]. split; [|done]. unfold isCanonicalAkshPod. apply andb_true_iff. split.
  - apply isCanonicalAkshShape_spec. split_and!; [done|cbn; by rewrite lookup_insert_eq|done|].
    do 2 eexists. split_and!; [done|apply canonicalContainer_ok|]. unfold hasContainerNamed in Hn. rewrite existsb_false in Hn.
    intros c Hc. by apply str_eqb_neq, Hn.
  - unfold canonicalVolumeSourcesPresent. apply forallb_elem. intros w Hw. destruct (Hall w Hw) as (v & Hv' & Hs).
    unfold findVolume. cbn [p_Volumes set_containers set_annotations set_security set_hostPID set_volumes].
    rewrite Hv', Hs. apply volumeSourceEquivalent_refl.
Qed.

(** [Patch] is idempotent.  A pod it returns is canonical, and patching that pod
    again succeeds and changes nothing, so a second call of the webhook is harmless. *)
Theorem Patch_idempotent `{Unicode} opts s p p' :
  NewSidecarInjector opts = Ok s -> Patch s (Some p) = Ok p' ->
  isCanonicalAkshPod (Some p') (options s) = true /\ Patch s (Some p') = Ok p'.
Proof.
  intros Hs [Hc Hp]%Patch_patched. destruct (patched_canonical s p p' (NewSidecarInjector_version _ _ Hs) Hp) as [Hcan Hpid].
  split; [done|]. unfold Patch. rewrite Hcan, Hpid. destruct Hp; cbn; [|done]. by destruct (p_Containers p).
Qed.

(** The checks of [Validate] on the workload, in their order. *)
Definition workload_checks (p : Pod) : denial :=
  orElse (validatePodLevel p) (orElse (validateIstioCoexistence p) (orElse (validateContainerSecurity p) (validateMountLeakage p))).

Lemma orElse_assoc a b c : orElse a (orElse b c) = orElse (orElse a b) c.
Proof. by destruct a. Qed.
Lemma orElse_None_r a : orElse a None = a.
Proof. by destruct a. Qed.

Lemma Validate_canonical s p : isCanonicalAkshPod (Some p) (options s) = true -> Validate s (Some p) = workload_checks p.
Proof.
  intros [Hs Hv]%andb_true_iff. unfold Validate. destruct (p_Containers p) as [|c cs] eqn:Ec.
  { unfold isCanonicalAkshShape in Hs. rewrite Ec in Hs. by repeat case_match. }
  cbn [length Nat.eqb]. rewrite Hs. cbn [negb]. unfold workload_checks.
  rewrite (proj2 (validateVolumeSources_spec p)); [by rewrite orElse_None_r|]. intros w Hw.
  unfold canonicalVolumeSourcesPresent in Hv. rewrite forallb_elem in Hv. specialize (Hv w Hw). destruct (findVolume p _); [|done]. eauto.
Qed.

Lemma isAkshProjectedToken_ext p p' k :
  (forall v, findVolume p' k = Some v -> vs_Projected (v_Source v) = None \/ findVolume p k = Some v) ->
  (forall v, findVolume p k = Some v -> findVolume p' k = Some v) ->
  isAkshProjectedToken p' k = isAkshProjectedToken p k.
Proof.
  intros H1 H2. unfold isAkshProjectedToken. destruct (findVolume p k) as [v|].
  - by rewrite (H2 v).
  - destruct (findVolume p' k) as [v'|]; [|done]. by destruct (H1 v') as [->|].
Qed.

Lemma find_volume_added have added k v : find_volume (have ++ added) k = Some v ->
  find_volume have k = Some v \/ (find_volume have k = None /\ v ∈ added /\ v_Name v = k).
Proof.
  unfold find_volume. induction have as [|x have IH]; simpl.
  - intros [Hv Hn]%find_some. apply list_elem_of_In in Hv. apply str_eqb_eq in Hn. by right.
  - by destruct (str_eqb _ _); [left|].
Qed.

Lemma canonical_projected v : v ∈ canonicalVolumes -> v_Name v <> "entra-token" -> vs_Projected (v_Source v) = None.
Proof.
  intros Hv. unfold canonicalVolumes in Hv. repeat (apply elem_of_cons in Hv as [->|Hv]; [done|]). by apply not_elem_of_nil in Hv.
Qed.

(** Adding the canonical volumes does not change which mounts leak. *)
Lemma leakage_added p p' added f ms : p_Volumes p' = p_Volumes p ++ added -> added ⊆ canonicalVolumes ->
  checkContainerMountLeakage p' f ms = checkContainerMountLeakage p f ms.
Proof.
  intros Hvs Hsub. unfold checkContainerMountLeakage. cbv zeta. apply first_denial_ext. intros m.
  destruct (str_eqb (vm_Name m) "entra-token") eqn:E; [done|apply str_eqb_neq in E]. cbn [orb].
  rewrite (isAkshProjectedToken_ext p p'); [done| |].
  - intros v Hv. unfold findVolume in *. rewrite Hvs in Hv. apply find_volume_added in Hv as [Hv|(_ & Hv & Hn)]; [by right|].
    left. apply canonical_projected; [by apply Hsub|by rewrite Hn].
  - intros v Hv. unfold findVolume in *. rewrite Hvs. by apply find_volume_app.
Qed.

Lemma workload_checks_patched s p p' : patched s p p' -> workload_checks p' = workload_checks p.
Proof.
  intros [Hc|added m sc Hn Hsub Hall -> Hfs]; [done|]. set (q := set_containers _ _). unfold workload_checks.
  assert (validateIstioCoexistence q = validateIstioCoexistence p) as ->.
  { unfold validateIstioCoexistence, q. cbn [p_Annotations p_Containers set_containers set_annotations mbind option_bind].
    rewrite lookup_insert_ne by done. by destruct (p_Annotations p). }
  assert (validateMountLeakage q = validateMountLeakage p) as ->; [|done].
  unfold validateMountLeakage. f_equal; [|f_equal; apply first_denial_ext; intros c; by eapply leakage_added].
  transitivity (first_denial (fun c => if str_eqb (ct_Name c) akshContainerName then None
    else checkContainerMountLeakage q (container_field "containers" (ct_Name c)) (ct_VolumeMounts c)) (p_Containers p)); [done|].
  apply first_denial_ext. intros c. destruct (str_eqb _ _); [done|]. by eapply leakage_added.
Qed.

(** C29: what [Patch] returns is judged by [Validate] on the workload alone.  Its verdict on
    the patched pod, the denied field and reason included, is the verdict of the
    pod-level, Istio, container and mount checks on the original pod: the sidecar and the
    volumes that were added are never the cause of a denial, and they hide none. *)
Theorem Patch_then_Validate `{Unicode} opts s p p' :
  NewSidecarInjector opts = Ok s -> Patch s (Some p) = Ok p' -> Validate s (Some p') = workload_checks p.
Proof.
  intros Hs [_ Hp]%Patch_patched. destruct (patched_canonical s p p' (NewSidecarInjector_version _ _ Hs) Hp) as [Hcan _].
  rewrite (Validate_canonical _ _ Hcan). by eapply workload_checks_patched.
Qed.

(** ** Fields the API server fills in

    Between the two webhooks the API server sets unset fields: [hostPath.type] to the
    empty string and the [defaultMode] of volumes.  [settle] erases these fields; two
    pods agree when nothing else tells them apart. *)
Definition settle (v : VolumeSource) : VolumeSource :=
  {| vs_HostPath := (fun h => {| hp_Path := hp_Path h; hp_Type := Some (hostPathType_norm (hp_Type h)) |}) <$> vs_HostPath v;
     vs_EmptyDir := vs_EmptyDir v;
     vs_ConfigMap := (fun c => {| cm_Name := cm_Name c; cm_Items := cm_Items c; cm_DefaultMode := None; cm_Optional := cm_Optional c |}) <$> vs_ConfigMap v;
     vs_Projected := (fun j => {| pj_Sources := pj_Sources j; pj_DefaultMode := None |}) <$> vs_Projected v;
     vs_DownwardAPI := (fun d => {| da_Items := da_Items d; da_DefaultMode := None |}) <$> vs_DownwardAPI v;
     vs_Rest := vs_Rest v |}.
Definition on_sources (f : VolumeSource -> VolumeSource) (p : Pod) : Pod :=
  set_volumes (map (fun v => {| v_Name := v_Name v; v_Source := f (v_Source v) |}) (p_Volumes p)) p.
Definition agree (p p' : Pod) : Prop := on_sources settle p = on_sources settle p'.

#[global] Instance agree_equivalence : Equivalence agree.
Proof. split; [done|by intros ?? H|]. intros ??? H1 H2. unfold agree in *. congruence. Qed.

Lemma findVolume_on f p k :
  findVolume (on_sources f p) k = (fun v => {| v_Name := v_Name v; v_Source := f (v_Source v) |}) <$> findVolume p k.
Proof.
  unfold findVolume, find_volume. cbn [on_sources set_volumes p_Volumes]. induction (p_Volumes p) as [|v vs IH]; [done|].
  simpl. by destruct (str_eqb _ _).
Qed.

Lemma settle_equivalent got w : w ∈ canonicalVolumes ->
  volumeSourceEquivalent (settle got) (v_Source w) = volumeSourceEquivalent got (v_Source w).
Proof.
  intros Hw. unfold canonicalVolumes in Hw. destruct got as [h e c j d r].
  repeat (apply elem_of_cons in Hw as [->|Hw]; [try done; by destruct h, e, c, j, d|]). by apply not_elem_of_nil in Hw.
Qed.

(** A change of sources that the checks on volumes do not see is not seen at all. *)
Lemma Validate_on_sources s p f :
  (forall v, vs_Projected v ≫= (fun j => Some (pj_Sources j)) = vs_Projected (f v) ≫= (fun j => Some (pj_Sources j))) ->
  isCanonicalAkshShape (Some (on_sources f p)) (options s) = isCanonicalAkshShape (Some p) (options s) /\
  workload_checks (on_sources f p) = workload_checks p.
Proof.
  intros Hf. split; [done|]. unfold workload_checks. do 3 f_equal.
  assert (Hk : forall k, isAkshProjectedToken (on_sources f p) k = isAkshProjectedToken p k).
  { intros k. unfold isAkshProjectedToken. rewrite findVolume_on. destruct (findVolume p k) as [v|]; [|done]. cbn.
    specialize (Hf (v_Source v)). destruct (vs_Projected (v_Source v)), (vs_Projected (f (v_Source v))); try done.
    injection Hf as Hf. by rewrite Hf. }
  assert (Hl : forall b ms, checkContainerMountLeakage (on_sources f p) b ms = checkContainerMountLeakage p b ms).
  { intros b ms. unfold checkContainerMountLeakage. cbv zeta. apply first_denial_ext. intros m. by rewrite Hk. }
  unfold validateMountLeakage. f_equal; [|f_equal]; apply first_denial_ext; intros c; by rewrite Hl.
Qed.

Lemma Validate_checks s p : Validate s (Some p) =
  if (length (p_Containers p) =? 0)%nat then deny "spec.containers" "required"
  else if negb (isCanonicalAkshShape (Some p) (options s)) then deny "spec.containers[name=aksh]" reasonAkshShape
  else orElse (workload_checks p) (validateVolumeSources p).
Proof. unfold Validate, workload_checks. by rewrite !orElse_assoc. Qed.

Lemma Validate_settle s p : Validate s (Some (on_sources settle p)) = Validate s (Some p).
Proof.
  destruct (Validate_on_sources s p settle) as [Hs Hw]; [intros v; cbn; by destruct (vs_Projected v)|].
  rewrite !Validate_checks, Hs, Hw.
  enough (validateVolumeSources (on_sources settle p) = validateVolumeSources p) as -> by done.
  unfold validateVolumeSources. assert (Hc : Forall (fun w => w ∈ canonicalVolumes) canonicalVolumes) by by apply Forall_forall.
  revert Hc. generalize canonicalVolumes at 2 3 4. intros l. induction 1 as [|w l Hw' _ IH]; [done|]. cbn [first_denial].
  rewrite IH, findVolume_on. destruct (findVolume p (v_Name w)) as [v|]; [|done]. cbn [fmap option_fmap option_map v_Source].
  by rewrite settle_equivalent.
Qed.

(** [Validate] does not depend on the fields the API server fills in after the
    mutation: pods that agree up to [hostPath.type] (unset or empty) and the
    [defaultMode] of their volumes get the same verdict. *)
Theorem Validate_defaulting s p p' : agree p p' -> Validate s (Some p) = Validate s (Some p').
Proof. intros H. by rewrite <- (Validate_settle s p), <- (Validate_settle s p'), H. Qed.

(** The default the API documents for [fieldRef.apiVersion], which is ["v1"], in the
    items of a downward-API volume. *)
Definition default_fieldRef (v : VolumeSource) : VolumeSource :=
  {| vs_HostPath := vs_HostPath v; vs_EmptyDir := vs_EmptyDir v; vs_ConfigMap := vs_ConfigMap v; vs_Projected := vs_Projected v;
     vs_DownwardAPI := (fun d => {| da_Items := map (fun f =>
         {| df_Path := df_Path f;
            df_FieldRef := (fun r => {| fs_APIVersion := if str_eqb (fs_APIVersion r) "" then bs "v1" else fs_APIVersion r;
                                        fs_FieldPath := fs_FieldPath r |}) <$> df_FieldRef f;
            df_Rest := df_Rest f |}) (da_Items d); da_DefaultMode := da_DefaultMode d |}) <$> vs_DownwardAPI v;
     vs_Rest := vs_Rest v |}.

Lemma default_fieldRef_equivalent got w : w ∈ canonicalVolumes -> volumeSourceEquivalent got (v_Source w) = true ->
  volumeSourceEquivalent (default_fieldRef got) (v_Source w) = negb (str_eqb (v_Name w) "podinfo").
Proof.
  intros Hw H. unfold canonicalVolumes in Hw. destruct got as [h e c j d r].
  do 5 (apply elem_of_cons in Hw as [->|Hw]; [transitivity true; [exact H|done]|]).
  apply elem_of_cons in Hw as [->|Hw]; [|by apply not_elem_of_nil in Hw]. destruct d as [d|]; [|done].
  cbn in H. unfold DeepEqual in H. apply bool_decide_eq_true in H. cbn. by rewrite H.
Qed.

(** The tolerance of [volumeSourceEquivalent] stops short of one defaulted field.
    Of a pod that [Validate] admits, the copy in which the API server has set
    [fieldRef.apiVersion] of the downward-API volume is denied, as a drift of
    [podinfo]. *)
Theorem Validate_denies_defaulted_fieldRef s p : Validate s (Some p) = None ->
  Validate s (Some (on_sources default_fieldRef p)) = deny "spec.volumes[name=podinfo]" reasonVolumeSource.
Proof.
  destruct (Validate_on_sources s p default_fieldRef) as [Hs Hw]; [done|]. rewrite !Validate_checks, Hs, Hw.
  change (length (p_Containers (on_sources default_fieldRef p))) with (length (p_Containers p)).
  destruct (length (p_Containers p) =? 0)%nat; [done|]. destruct (negb _); [done|].
  intros [-> Hv%validateVolumeSources_spec]%orElse_None. cbn [orElse]. unfold validateVolumeSources.
  assert (Hstep : forall w, w ∈ canonicalVolumes -> match findVolume (on_sources default_fieldRef p) (v_Name w) with
      | None => deny ("spec.volumes[name=" ++ v_Name w ++ "]") reasonVolumeMissing
      | Some got => if negb (volumeSourceEquivalent (v_Source got) (v_Source w)) then
          deny ("spec.volumes[name=" ++ v_Name w ++ "]") reasonVolumeSource else None
      end = if str_eqb (v_Name w) "podinfo" then deny "spec.volumes[name=podinfo]" reasonVolumeSource else None).
  { intros w Hw'. destruct (Hv w Hw') as (v & Hf & Heq). rewrite findVolume_on, Hf. cbn [fmap option_fmap option_map v_Source].
    rewrite (default_fieldRef_equivalent _ _ Hw' Heq), negb_involutive.
    destruct (str_eqb (v_Name w) "podinfo") eqn:E; [|done]. apply str_eqb_eq in E. by rewrite E. }
  assert (Hc : Forall (fun w => w ∈ canonicalVolumes) canonicalVolumes) by by apply Forall_forall.
  transitivity (first_denial (fun w => if str_eqb (v_Name w) "podinfo" then deny "spec.volumes[name=podinfo]" reasonVolumeSource else None) canonicalVolumes); [|done].
  revert Hc. generalize canonicalVolumes at 2 3 4. intros l. induction 1 as [|w l Hin _ IH]; [done|]. cbn [first_denial].
  by rewrite IH, Hstep.
Qed.

(** ** Examples and witnesses *)

Definition example_options : InjectorOptions :=
  {| io_ProxyImage := "registry/aksh-proxy:1"; io_ReservedUID := 1774; io_ReservedGID := 1774;
     io_OptInLabelKey := "aksh.dev/inject"; io_OptInLabelValue := "enabled"; io_InjectionVersion := "v1" |}.
Definition example_injector : SidecarInjector :=
  {| proxyImage := "registry/aksh-proxy:1"; reservedUID := 1774; reservedGID := 1774;
     optInLabelKey := "aksh.dev/inject"; optInLabelValue := "enabled"; injectionVersion := "v1" |}.

Definition app_container (sc : option SecurityContext) : Container :=
  {| ct_Name := "app"; ct_Image := "app:1"; ct_ImagePullPolicy := ""; ct_Command := []; ct_Args := [];
     ct_SecurityContext := sc; ct_Env := []; ct_VolumeMounts := [mount "ca-pub" "/etc/aksh" true]; ct_Rest := [] |}.
Definition plain_pod (user : option Z) (sc : option SecurityContext) : Pod :=
  {| p_Name := "agent"; p_Namespace := "team-a"; p_Annotations := None; p_HostPID := false; p_HostNetwork := false;
     p_ShareProcessNamespace := None; p_AutomountServiceAccountToken := Some false;
     p_SecurityContext := Some {| ps_FSGroup := None; ps_RunAsUser := user; ps_Rest := [] |};
     p_Containers := [app_container sc]; p_InitContainers := []; p_EphemeralContainers := []; p_Volumes := []; p_Rest := [] |}.
Definition patch_or (s : SidecarInjector) (p : Pod) : Pod := match Patch s (Some p) with Ok p' => p' | Err _ => p end.

Lemma Patch_idempotent_witness : Patch example_injector (Some (patch_or example_injector (plain_pod None None)))
  = Ok (patch_or example_injector (plain_pod None None)).
Proof. refine (proj2 (@Patch_idempotent ascii_only example_options _ (plain_pod None None) _ _ _)); by vm_compute. Defined.

Lemma Patch_then_Validate_witness : Validate example_injector (Some (patch_or example_injector (plain_pod None None))) = None.
Proof.
  transitivity (workload_checks (plain_pod None None)); [|by vm_compute].
  apply (@Patch_then_Validate ascii_only example_options); by vm_compute.
Defined.

Lemma Validate_defaulting_witness :
  Validate example_injector (Some (on_sources settle (patch_or example_injector (plain_pod None None)))) = None.
Proof.
  transitivity (Validate example_injector (Some (patch_or example_injector (plain_pod None None)))); [|by vm_compute].
  apply Validate_defaulting. by vm_compute.
Defined.

Lemma Validate_denies_defaulted_fieldRef_witness :
  Validate example_injector (Some (on_sources default_fieldRef (patch_or example_injector (plain_pod None None))))
  = deny "spec.volumes[name=podinfo]" reasonVolumeSource.
Proof. apply Validate_denies_defaulted_fieldRef. by vm_compute. Defined.

(** The user a container runs as: its own setting, else the pod's. *)
Definition effective_user (p : Pod) (c : Container) : option Z :=
  match ct_SecurityContext c ≫= sc_RunAsUser with
  | Some u => Some u
  | None => p_SecurityContext p ≫= ps_RunAsUser
  end.

(** The reserved user is checked on containers only: set on the pod, it is inherited by
    an admitted workload container. *)
Lemma reserved_user_by_pod : exists p c, Validate example_injector (Some p) = None /\ c ∈ p_Containers p /\
  ct_Name c <> akshContainerName /\ effective_user p c = Some reservedID.
Proof.
  exists (patch_or example_injector (plain_pod (Some reservedID) None)), (app_container None).
  split_and!; [by vm_compute| |done|by vm_compute]. vm_compute. apply elem_of_cons. right. by apply elem_of_cons; left.
Qed.

(** The list of denied capabilities does not contain [ALL], which grants each of them. *)
Lemma all_capabilities_admitted : exists p c caps, Validate example_injector (Some p) = None /\ c ∈ p_Containers p /\
  ct_Name c <> akshContainerName /\ ct_SecurityContext c ≫= sc_Capabilities = Some caps /\ bs "ALL" ∈ cap_Add caps.
Proof.
  set (sc := {| sc_RunAsUser := None; sc_RunAsGroup := None; sc_Capabilities := Some {| cap_Add := [bs "ALL"]; cap_Rest := [] |};
    sc_AppArmorProfile := None; sc_AllowPrivilegeEscalation := None; sc_Privileged := None; sc_RunAsNonRoot := None; sc_Rest := [] |}).
  exists (patch_or example_injector (plain_pod None (Some sc))), (app_container (Some sc)). eexists.
  split_and!; [by vm_compute| |done|done|by left]. vm_compute. apply elem_of_cons. right. by apply elem_of_cons; left.
Qed.

(** Each stage of the traversal denies: the reports of a few rejected pods. *)
Example denies_nil : Validate example_injector None = deny "pod" "required".
Proof. done. Qed.
Example denies_uninjected : Validate example_injector (Some (plain_pod None None)) = deny "spec.containers[name=aksh]" reasonAkshShape.
Proof. by vm_compute. Qed.
Example patch_conflict : Patch example_injector (Some (set_containers [canonicalContainer example_injector "other"] (plain_pod None None)))
  = Err {| Field := "spec.containers[name=aksh]"; Reason := "conflicts with required aksh sidecar" |}.
Proof. by vm_compute. Qed.
