(* ===== verification/Webhook.v ===== *)
(** * [internal/injector]: the admission webhook server

    [server.go] (the handlers and readiness), [cabundle.go] (the reconciliation of the
    trust bundle), the choice of serving material in [pki.go] and the registration
    rendered by [webhook_config.go].  The rest of [pki.go] and the construction of the server
    are in InjectorMain.v.

    JSON, JSON patches and the Kubernetes client are library code: they are the operations
    of the classes [AdmissionCodec] and [WebhookAPI].  A handler returns what it wrote and
    the calls it made to the metrics recorder; logging is not modelled.  The result of
    encoding the response is not modelled either: a failure there changes bytes already
    under way to the API server, which then fails the request. *)

From S2P Require Import Prelude GoStrings GoRuntime Injector.
#[local] Open Scope Z_scope.
#[local] Open Scope go_scope.

(** ** The label vocabulary of the injector *)

Inductive WebhookName := WebhookMutate | WebhookValidate.
Inductive AdmissionResult := AdmissionResultAllowed | AdmissionResultDenied | AdmissionResultError.
Inductive WebhookConfigName := WebhookConfigMutating | WebhookConfigValidating.
Inductive PatchResult := PatchResultSuccess | PatchResultError.
#[global] Instance WebhookName_eq_dec : EqDecision WebhookName. Proof. solve_decision. Defined.
#[global] Instance AdmissionResult_eq_dec : EqDecision AdmissionResult. Proof. solve_decision. Defined.
#[global] Instance WebhookConfigName_eq_dec : EqDecision WebhookConfigName. Proof. solve_decision. Defined.
#[global] Instance PatchResult_eq_dec : EqDecision PatchResult. Proof. solve_decision. Defined.

Inductive webhook_metric :=
| MAdmissionRequest (w : WebhookName) (r : AdmissionResult)
| MAdmissionDuration (w : WebhookName)
| MAdmissionPatchBytes (n : Z)
| MCABundlePatch (c : WebhookConfigName) (r : PatchResult).
#[global] Instance webhook_metric_eq_dec : EqDecision webhook_metric. Proof. solve_decision. Defined.

(** ** Admission reviews *)

Inductive Operation := Create | Update | Delete | Connect | OtherOperation (s : gostring).
#[global] Instance Operation_eq_dec : EqDecision Operation. Proof. solve_decision. Defined.

Record AdmissionRequest := {
  ar_UID : gostring; ar_Kind : gostring; ar_Operation : Operation; ar_SubResource : gostring; ar_Namespace : gostring;
  ar_Name : gostring; ar_Object : gostring
}.
Record Status := { st_Code : Z; st_Message : gostring }.
Record AdmissionResponse := { rs_UID : gostring; rs_Allowed : bool; rs_Patch : option gostring; rs_Result : option Status }.

(** What a handler writes: the text of [http.Error], a review, or a status alone. *)
Inductive body := HttpError (msg : gostring) | ReviewBody (r : AdmissionResponse) | NoBody.
Record reply := { rp_Status : Z; rp_Body : body; rp_Metrics : list webhook_metric }.

Definition StatusOK : Z := 200.
Definition StatusBadRequest : Z := 400.
Definition StatusForbidden : Z := 403.
Definition StatusMethodNotAllowed : Z := 405.
Definition StatusInternalServerError : Z := 500.
Definition StatusServiceUnavailable : Z := 503.

Record httpRequest := { hr_Method : gostring; hr_Body : gostring }.
Definition maxAdmissionBodyBytes : Z := Z.shiftl 3 20.

(** The bytes [http.MaxBytesReader] lets through before it fails. *)
Definition MaxBytesReader (limit : Z) (b : gostring) : gostring :=
  if Z.of_nat (length b) <=? limit then b else take (Z.to_nat limit) b.

(** [encoding/json] and [jsonpatch]: a decoder sees the bytes that [MaxBytesReader] lets
    through; a patch, applied to the document it was created for, gives the other one. *)
Class AdmissionCodec := {
  patch_ops : Type;
  decode_review : gostring -> option (option AdmissionRequest);
  unmarshal_pod : gostring -> option Pod;
  marshalJSON : Pod -> option gostring;
  createPatch : gostring -> gostring -> option patch_ops;
  marshal_ops : patch_ops -> option gostring;
  apply_patch : gostring -> gostring -> option gostring;
  createPatch_apply : forall a b ops bytes,
    createPatch a b = Some ops -> marshal_ops ops = Some bytes -> apply_patch bytes a = Some b
}.

(** An error returned through the interface [Injector]: [errors.As] finds an
    [AdmissionError] in it or not. *)
Inductive injector_error := AdmissionDenial (e : AdmissionError) | InternalError (msg : gostring).
Definition injector_error_Error (e : injector_error) : gostring :=
  match e with AdmissionDenial a => AdmissionError_Error a | InternalError m => m end.
Record InjectorOps := {
  inj_Patch : option Pod -> result injector_error Pod;
  inj_Validate : option Pod -> option injector_error
}.

Definition sidecar_ops (s : SidecarInjector) : InjectorOps := {|
  inj_Patch pod := match Patch s pod with Ok p => Ok p | Err e => Err (AdmissionDenial e) end;
  inj_Validate pod := AdmissionDenial <$> Validate s pod
|}.

Definition deniedAdmissionReview (uid message : gostring) : AdmissionResponse :=
  {| rs_UID := uid; rs_Allowed := false; rs_Patch := None; rs_Result := Some {| st_Code := 0; st_Message := message |} |}.

Definition validationDeniedAdmissionReview (uid : gostring) (err : injector_error) : AdmissionResponse :=
  let '(code, message) :=
    match err with
    | AdmissionDenial ae => (StatusForbidden, AdmissionError_Error ae)
    | InternalError _ => (StatusInternalServerError, bs "validation failed")
    end in
  {| rs_UID := uid; rs_Allowed := false; rs_Patch := None; rs_Result := Some {| st_Code := code; st_Message := message |} |}.

Definition isValidatableOperation (r : AdmissionRequest) : bool :=
  if bool_decide (ar_Operation r = Create) then true
  else bool_decide (ar_Operation r = Update) && str_eqb (ar_SubResource r) "ephemeralcontainers".

Definition podIdentifier (pod : Pod) (requestName : gostring) : gostring :=
  if negb (str_eqb requestName "") then requestName else p_Name pod.

(** [writeAdmissionReview]; the deferred duration follows the metrics of the body. *)
Definition writeAdmissionReview (w : WebhookName) (ms : list webhook_metric) (r : AdmissionResponse) : reply :=
  {| rp_Status := StatusOK; rp_Body := ReviewBody r; rp_Metrics := ms ++ [MAdmissionDuration w] |}.

Definition http_error (code : Z) (msg : gostring) (ms : list webhook_metric) : reply :=
  {| rp_Status := code; rp_Body := HttpError msg; rp_Metrics := ms |}.

Definition denyMutate (uid message : gostring) : reply :=
  writeAdmissionReview WebhookMutate [MAdmissionRequest WebhookMutate AdmissionResultDenied] (deniedAdmissionReview uid message).
Definition errorMutate (uid message : gostring) : reply :=
  writeAdmissionReview WebhookMutate [MAdmissionRequest WebhookMutate AdmissionResultError] (deniedAdmissionReview uid message).
Definition denyValidate (uid message : gostring) : reply :=
  writeAdmissionReview WebhookValidate [MAdmissionRequest WebhookValidate AdmissionResultDenied] (deniedAdmissionReview uid message).

Section Handlers.
Context `{C : AdmissionCodec} (inj : InjectorOps).

Definition decodeAdmissionReview (r : httpRequest) : option (option AdmissionRequest) :=
  decode_review (MaxBytesReader maxAdmissionBodyBytes (hr_Body r)).

Definition HandleMutate (r : httpRequest) : reply :=
  if negb (str_eqb (hr_Method r) "POST") then http_error StatusMethodNotAllowed "method not allowed" []
  else
    match decodeAdmissionReview r with
    | None => http_error StatusBadRequest "invalid admission review"
                [MAdmissionRequest WebhookMutate AdmissionResultError; MAdmissionDuration WebhookMutate]
    | Some None => denyMutate "" "admission request is required"
    | Some (Some req) =>
        if negb (str_eqb (ar_Kind req) "Pod") then denyMutate (ar_UID req) "request kind must be Pod"
        else if negb (bool_decide (ar_Operation req = Create)) then denyMutate (ar_UID req) "request operation must be CREATE"
        else
          match unmarshal_pod (ar_Object req) with
          | None => denyMutate (ar_UID req) "object must be a Pod"
          | Some pod =>
              match marshalJSON pod with
              | None => errorMutate (ar_UID req) "failed to marshal original pod"
              | Some originalJSON =>
                  match inj_Patch inj (Some pod) with
                  | Err err => denyMutate (ar_UID req) (injector_error_Error err)
                  | Ok patchedPod =>
                      match marshalJSON patchedPod with
                      | None => errorMutate (ar_UID req) "failed to marshal patched pod"
                      | Some patchedJSON =>
                          match createPatch originalJSON patchedJSON with
                          | None => errorMutate (ar_UID req) "failed to create JSONPatch"
                          | Some patchOps =>
                              match marshal_ops patchOps with
                              | None => errorMutate (ar_UID req) "failed to marshal JSONPatch"
                              | Some patchBytes =>
                                  writeAdmissionReview WebhookMutate
                                    [MAdmissionRequest WebhookMutate AdmissionResultAllowed;
                                     MAdmissionPatchBytes (Z.of_nat (length patchBytes))]
                                    {| rs_UID := ar_UID req; rs_Allowed := true; rs_Patch := Some patchBytes; rs_Result := None |}
                              end
                          end
                      end
                  end
              end
          end
    end.

Definition HandleValidate (r : httpRequest) : reply :=
  if negb (str_eqb (hr_Method r) "POST") then http_error StatusMethodNotAllowed "method not allowed" []
  else
    match decodeAdmissionReview r with
    | None => http_error StatusBadRequest "invalid admission review"
                [MAdmissionRequest WebhookValidate AdmissionResultError; MAdmissionDuration WebhookValidate]
    | Some None => denyValidate "" "admission request is required"
    | Some (Some req) =>
        if negb (str_eqb (ar_Kind req) "Pod") then denyValidate (ar_UID req) "request kind must be Pod"
        else if negb (isValidatableOperation req) then
          denyValidate (ar_UID req) "request operation must be CREATE or pods/ephemeralcontainers UPDATE"
        else
          match unmarshal_pod (ar_Object req) with
          | None => denyValidate (ar_UID req) "object must be a Pod"
          | Some pod =>
              match inj_Validate inj (Some pod) with
              | Some err =>
                  writeAdmissionReview WebhookValidate
                    [MAdmissionRequest WebhookValidate
                       match err with AdmissionDenial _ => AdmissionResultDenied | InternalError _ => AdmissionResultError end]
                    (validationDeniedAdmissionReview (ar_UID req) err)
              | None =>
                  writeAdmissionReview WebhookValidate [MAdmissionRequest WebhookValidate AdmissionResultAllowed]
                    {| rs_UID := ar_UID req; rs_Allowed := true; rs_Patch := None; rs_Result := None |}
              end
          end
    end.
End Handlers.

Definition HandleHealthz (r : httpRequest) : reply :=
  if negb (str_eqb (hr_Method r) "GET") then http_error StatusMethodNotAllowed "method not allowed" []
  else {| rp_Status := StatusOK; rp_Body := NoBody; rp_Metrics := [] |}.

(** ** [cabundle.go]: the trust bundle of the registrations *)

Record webhook := { wh_CABundle : gostring; wh_Rest : gostring }.
Record WebhookConfiguration := { wc_ResourceVersion : gostring; wc_Webhooks : list webhook }.
Inductive kube_error := Conflict | OtherKubeError (msg : gostring).

(** The client for the two registrations, by kind and name.  Others may write to the API server between any two calls; what is
    relied on is only that a successful update answers with the webhooks it was given. *)
Class WebhookAPI (W : Type) := {
  get_config : WebhookConfigName -> gostring -> W -> W * result kube_error WebhookConfiguration;
  update_config : WebhookConfigName -> gostring -> WebhookConfiguration -> W -> W * result kube_error WebhookConfiguration;
  updated : forall k n c w w' c', update_config k n c w = (w', Ok c') -> wc_Webhooks c' = wc_Webhooks c
}.
(** An API server to which nobody else writes: [stored] is what it holds. *)
Class QuietAPI (W : Type) {A : WebhookAPI W} := {
  stored : WebhookConfigName -> gostring -> W -> option WebhookConfiguration;
  get_stored : forall k n w w' c, get_config k n w = (w', Ok c) -> stored k n w' = Some c;
  get_keeps : forall k n w w' r k' n', get_config k n w = (w', r) -> stored k' n' w' = stored k' n' w;
  update_stored : forall k n c w w' c', update_config k n c w = (w', Ok c') -> stored k n w' = Some c';
  update_keeps : forall k n c w w' r k' n', k' <> k -> update_config k n c w = (w', r) -> stored k' n' w' = stored k' n' w
}.

Section Bundles.
Context {W : Type} `{A : WebhookAPI W}.

Record caBundleReconciler := { mutatingName : gostring; validatingName : gostring }.

(** The loop over the webhooks: the new list, and whether one was changed. *)
Definition install (caPEM : gostring) (ws : list webhook) : list webhook * bool :=
  (map (fun h => if str_eqb (wh_CABundle h) caPEM then h else {| wh_CABundle := caPEM; wh_Rest := wh_Rest h |}) ws,
   existsb (fun h => negb (str_eqb (wh_CABundle h) caPEM)) ws).

(** One attempt: read, install, write when something changed; [true] when it wrote. *)
Definition attempt (k : WebhookConfigName) (name caPEM : gostring) (w : W) : W * result kube_error bool :=
  let '(w, r) := get_config k name w in
  match r with
  | Err e => (w, Err e)
  | Ok cfg =>
      let '(ws, changed) := install caPEM (wc_Webhooks cfg) in
      if negb changed then (w, Ok false)
      else
        let '(w, u) := update_config k name {| wc_ResourceVersion := wc_ResourceVersion cfg; wc_Webhooks := ws |} w in
        match u with Err e => (w, Err e) | Ok _ => (w, Ok true) end
  end.

(** [retry.RetryOnConflict]: again while the error is a conflict and steps are left. *)
Fixpoint RetryOnConflict {B} (steps : nat) (fn : W -> W * result kube_error B) (w : W) : W * result kube_error B :=
  match steps with
  | O => (w, Err Conflict)
  | S steps' =>
      let '(w, r) := fn w in
      match r with
      | Err Conflict => match steps' with O => (w, r) | _ => RetryOnConflict steps' fn w end
      | _ => (w, r)
      end
  end.

(** [retry.DefaultRetry.Steps]. *)
Definition DefaultRetry : nat := 5.

Definition reconcileConfig (k : WebhookConfigName) (name caPEM : gostring) (w : W) : W * result kube_error unit * list webhook_metric :=
  let '(w, r) := RetryOnConflict DefaultRetry (attempt k name caPEM) w in
  match r with
  | Err e => (w, Err e, [MCABundlePatch k PatchResultError])
  | Ok patched => (w, Ok tt, if patched then [MCABundlePatch k PatchResultSuccess] else [])
  end.
Definition reconcileMutating (rc : caBundleReconciler) := reconcileConfig WebhookConfigMutating (mutatingName rc).
Definition reconcileValidating (rc : caBundleReconciler) := reconcileConfig WebhookConfigValidating (validatingName rc).

(** The refusal of an empty bundle, or the error of the registration that failed. *)
Inductive reconcile_error := RefusedEmptyPEM | ReconcileMutatingFailed (e : kube_error) | ReconcileValidatingFailed (e : kube_error).

Definition reconcile (rc : caBundleReconciler) (caPEM : gostring) (w : W) : W * result reconcile_error unit * list webhook_metric :=
  if (length caPEM =? 0)%nat then (w, Err RefusedEmptyPEM, [])
  else
    match reconcileMutating rc caPEM w with
    | (w, Err e, ms) => (w, Err (ReconcileMutatingFailed e), ms)
    | (w, Ok _, ms) =>
        match reconcileValidating rc caPEM w with
        | (w, Err e, ms') => (w, Err (ReconcileValidatingFailed e), ms ++ ms')
        | (w, Ok _, ms') => (w, Ok tt, ms ++ ms')
        end
    end.

Definition bundlesMatch (ws : list webhook) (caPEM : gostring) : bool :=
  if (length ws =? 0)%nat then false else forallb (fun h => str_eqb (wh_CABundle h) caPEM) ws.

Definition bundlesConsistent (rc : caBundleReconciler) (caPEM : gostring) (w : W) : W * result kube_error bool :=
  if (length caPEM =? 0)%nat then (w, Ok false)
  else
    match get_config WebhookConfigMutating (mutatingName rc) w with
    | (w, Err e) => (w, Err e)
    | (w, Ok mutating) =>
        if negb (bundlesMatch (wc_Webhooks mutating) caPEM) then (w, Ok false)
        else
          match get_config WebhookConfigValidating (validatingName rc) w with
          | (w, Err e) => (w, Err e)
          | (w, Ok validating) => (w, Ok (bundlesMatch (wc_Webhooks validating) caPEM))
          end
    end.

(** ** Readiness *)

(** The parts of [WebhookPKI] and of the server that readiness reads. *)
Record WebhookPKI := { pk_caPEM : gostring; pk_NotAfter : Time }.
Record WebhookServer := { ws_pki : option WebhookPKI; ws_reconciler : option caBundleReconciler }.

Definition ReconcileCABundle (s : WebhookServer) (w : W) : W * option (result reconcile_error unit) * list webhook_metric :=
  match ws_reconciler s, ws_pki s with
  | Some rc, Some pki => let '(w, r, ms) := reconcile rc (pk_caPEM pki) w in (w, Some r, ms)
  | _, _ => (w, None, [])
  end.

Definition ready (s : WebhookServer) (now : Time) (w : W) : W * bool :=
  match ws_pki s with
  | None => (w, false)
  | Some pki =>
      if negb (now <? pk_NotAfter pki) then (w, false)
      else match ws_reconciler s with
           | None => (w, false)
           | Some rc => match bundlesConsistent rc (pk_caPEM pki) w with (w, Ok b) => (w, b) | (w, Err _) => (w, false) end
           end
  end.

Definition HandleReadyz (s : WebhookServer) (now : Time) (r : httpRequest) (w : W) : W * reply :=
  if negb (str_eqb (hr_Method r) "GET") then (w, http_error StatusMethodNotAllowed "method not allowed" [])
  else
    let '(w, ok) := ready s now w in
    (w, if negb ok then http_error StatusServiceUnavailable "not ready" []
        else {| rp_Status := StatusOK; rp_Body := NoBody; rp_Metrics := [] |}).

Definition defaultCABundlePatchInterval : Duration := 5 * Minute.
Definition reconcile_interval (configured : Duration) : Duration :=
  if configured <=? 0 then defaultCABundlePatchInterval else configured.

(** [RunCABundleReconciliation] over [ticks] ticks: once at the start, once per tick; errors are only logged. *)
Fixpoint reconcile_ticks (s : WebhookServer) (ticks : nat) (w : W) : W :=
  match ticks with
  | O => w
  | S n => reconcile_ticks s n (ReconcileCABundle s w).1.1
  end.
Definition RunCABundleReconciliation (s : WebhookServer) (ticks : nat) (w : W) : W :=
  match ws_reconciler s, ws_pki s with
  | Some _, Some _ => reconcile_ticks s (S ticks) w
  | _, _ => w
  end.
End Bundles.

(** ** [pki.go]: where the serving material comes from *)

Definition caCertFile : gostring := "ca.crt".
Definition servingCertFile : gostring := "tls.crt".
Definition servingKeyFile : gostring := "tls.key".

(** [os.Stat]: the file exists, is missing, or cannot be examined. *)
Inductive stat_result := StatOK | StatNotExist | StatFailed.
#[global] Instance stat_result_eq_dec : EqDecision stat_result. Proof. solve_decision. Defined.
Inductive certdir_error := DirMissing | DirStatFailed | FileStatFailed (name : gostring) | PartialMaterial (found missing : list gostring).

(** The loop over the three files: those found and those missing. *)
Fixpoint probe_files (stat : gostring -> stat_result) (names found missing : list gostring)
  : result certdir_error (list gostring * list gostring) :=
  match names with
  | [] => Ok (found, missing)
  | name :: names =>
      match stat name with
      | StatNotExist => probe_files stat names found (missing ++ [name])
      | StatFailed => Err (FileStatFailed name)
      | StatOK => probe_files stat names (found ++ [name]) missing
      end
  end.

(** [stat_dir] examines the directory, [stat] a file in it. *)
Definition certDirPopulated (stat_dir : stat_result) (stat : gostring -> stat_result) : result certdir_error bool :=
  match stat_dir with
  | StatNotExist => Err DirMissing
  | StatFailed => Err DirStatFailed
  | StatOK =>
      let? (found, missing) := probe_files stat [caCertFile; servingCertFile; servingKeyFile] [] [] in
      if (length missing =? 0)%nat then Ok true
      else if (length found =? 0)%nat then Ok false
      else Err (PartialMaterial found missing)
  end.

(** What [bootstrapPKILogged] goes on to do: [loadPKI] or [generateSelfSignedPKIWithLogger]. *)
Inductive pki_source := LoadFrom (dir : gostring) | GenerateFor (service namespace : gostring).

Definition bootstrapPKILogged (certDir service namespace : gostring) (stat_dir : stat_result) (stat : gostring -> stat_result)
  : result certdir_error pki_source :=
  if negb (str_eqb certDir "") then
    let? populated := certDirPopulated stat_dir stat in
    if (populated : bool) then Ok (LoadFrom certDir) else Ok (GenerateFor service namespace)
  else Ok (GenerateFor service namespace).

Definition serviceDNSNames (serviceName serviceNamespace : gostring) : list gostring :=
  [ serviceName;
    serviceName ++ "." ++ serviceNamespace;
    serviceName ++ "." ++ serviceNamespace ++ ".svc";
    serviceName ++ "." ++ serviceNamespace ++ ".svc.cluster.local" ].

(** ** [webhook_config.go]: the registration *)

Record WebhookConfigOptions := {
  wo_MutatingName : gostring; wo_ValidatingName : gostring; wo_ServiceName : gostring; wo_ServiceNamespace : gostring;
  wo_MutatePath : gostring; wo_ValidatePath : gostring; wo_CABundle : gostring
}.

Definition or_default (s d : gostring) : gostring := if str_eqb s "" then d else s.

Definition withWebhookConfigDefaults (o : WebhookConfigOptions) : WebhookConfigOptions :=
  {| wo_MutatingName := or_default (wo_MutatingName o) "aksh-injector-mutating";
     wo_ValidatingName := or_default (wo_ValidatingName o) "aksh-injector-validating";
     wo_ServiceName := or_default (wo_ServiceName o) "aksh-injector";
     wo_ServiceNamespace := or_default (wo_ServiceNamespace o) "aksh-system";
     wo_MutatePath := or_default (wo_MutatePath o) "/mutate";
     wo_ValidatePath := or_default (wo_ValidatePath o) "/validate";
     wo_CABundle := wo_CABundle o |}.

Record Rule := { ru_Operations : list Operation; ru_APIGroups : list gostring; ru_APIVersions : list gostring;
                 ru_Resources : list gostring; ru_Scope : gostring }.
Record RegisteredWebhook := {
  rw_Name : gostring; rw_AdmissionReviewVersions : list gostring; rw_SideEffects : gostring; rw_FailurePolicy : gostring;
  rw_TimeoutSeconds : Z; rw_NamespaceSelector : list (gostring * gostring); rw_ServiceNamespace : gostring;
  rw_ServiceName : gostring; rw_ServicePath : gostring; rw_CABundle : gostring; rw_Rules : list Rule
}.
Record Registration := { rg_Kind : gostring; rg_Name : gostring; rg_Webhooks : list RegisteredWebhook }.

Definition namespaceSelector : list (gostring * gostring) := [(bs "aksh.dev/inject", bs "enabled")].
Definition failPolicy : gostring := "Fail".
Definition sideEffectsNone : gostring := "None".
Definition webhookTimeoutSeconds : Z := 5.
Definition namespacedScope : gostring := "Namespaced".

Definition pod_rule (op : Operation) (resource : gostring) : Rule :=
  {| ru_Operations := [op]; ru_APIGroups := [[]]; ru_APIVersions := [bs "v1"]; ru_Resources := [resource]; ru_Scope := namespacedScope |}.

Definition RenderMutatingWebhookConfiguration (opts : WebhookConfigOptions) : Registration :=
  let opts := withWebhookConfigDefaults opts in
  {| rg_Kind := "MutatingWebhookConfiguration"; rg_Name := wo_MutatingName opts;
     rg_Webhooks := [{| rw_Name := "mutate.pods.aksh.dev"; rw_AdmissionReviewVersions := [bs "v1"]; rw_SideEffects := sideEffectsNone;
       rw_FailurePolicy := failPolicy; rw_TimeoutSeconds := webhookTimeoutSeconds; rw_NamespaceSelector := namespaceSelector;
       rw_ServiceNamespace := wo_ServiceNamespace opts; rw_ServiceName := wo_ServiceName opts;
       rw_ServicePath := wo_MutatePath opts; rw_CABundle := wo_CABundle opts; rw_Rules := [pod_rule Create "pods"] |}] |}.

Definition RenderValidatingWebhookConfiguration (opts : WebhookConfigOptions) : Registration :=
  let opts := withWebhookConfigDefaults opts in
  {| rg_Kind := "ValidatingWebhookConfiguration"; rg_Name := wo_ValidatingName opts;
     rg_Webhooks := [{| rw_Name := "validate.pods.aksh.dev"; rw_AdmissionReviewVersions := [bs "v1"]; rw_SideEffects := sideEffectsNone;
       rw_FailurePolicy := failPolicy; rw_TimeoutSeconds := webhookTimeoutSeconds; rw_NamespaceSelector := namespaceSelector;
       rw_ServiceNamespace := wo_ServiceNamespace opts; rw_ServiceName := wo_ServiceName opts;
       rw_ServicePath := wo_ValidatePath opts; rw_CABundle := wo_CABundle opts;
       rw_Rules := [pod_rule Create "pods"; pod_rule Update "pods/ephemeralcontainers"] |}] |}.

(** The requests a registration sends: some rule has the operation and the resource. *)
Definition resource_of (r : AdmissionRequest) : gostring :=
  if str_eqb (ar_SubResource r) "" then "pods" else "pods/" ++ ar_SubResource r.
Definition sends (g : Registration) (r : AdmissionRequest) : bool :=
  existsb (fun w => existsb (fun ru => existsb (fun o => bool_decide (o = ar_Operation r)) (ru_Operations ru) &&
                                       existsb (str_eqb (resource_of r)) (ru_Resources ru)) (rw_Rules w)) (rg_Webhooks g).

(** The registrations and the handlers agree: no request is sent that its handler refuses for its operation. *)
Lemma registration_matches_handlers opts r :
  (sends (RenderMutatingWebhookConfiguration opts) r = true -> ar_Operation r = Create) /\
  (sends (RenderValidatingWebhookConfiguration opts) r = true -> isValidatableOperation r = true).
Proof.
  unfold sends. cbn [RenderMutatingWebhookConfiguration RenderValidatingWebhookConfiguration rg_Webhooks rw_Rules pod_rule
    ru_Operations ru_Resources existsb]. rewrite !orb_false_r. split.
  - rewrite andb_true_iff, bool_decide_eq_true. naive_solver.
  - rewrite orb_true_iff, !andb_true_iff, !bool_decide_eq_true, !str_eqb_eq. unfold isValidatableOperation, resource_of.
    intros [[<- _]|[<- H]]; [done|]. rewrite bool_decide_eq_false_2, bool_decide_eq_true_2 by done. cbn [andb].
    destruct (str_eqb (ar_SubResource r) ""); [done|]. apply str_eqb_eq. by injection H.
Qed.

(** A new trust root is generated only when none was asked for: no directory is configured, or it
    exists and holds none of the three files. *)
Lemma bootstrap_generates certDir service ns stat_dir stat :
  bootstrapPKILogged certDir service ns stat_dir stat = Ok (GenerateFor service ns) <->
  certDir = [] \/ (stat_dir = StatOK /\ forall n, n ∈ [caCertFile; servingCertFile; servingKeyFile] -> stat n = StatNotExist).
Proof.
  setoid_rewrite elem_of_cons. setoid_rewrite elem_of_cons. setoid_rewrite elem_of_cons. setoid_rewrite elem_of_nil.
  unfold bootstrapPKILogged. destruct (str_eqb certDir "") eqn:E; cbn [negb]; [apply str_eqb_eq in E; naive_solver|apply str_eqb_neq in E].
  unfold certDirPopulated. destruct stat_dir; cbn [rbind probe_files]; [|naive_solver..].
  destruct (stat caCertFile) eqn:E1, (stat servingCertFile) eqn:E2, (stat servingKeyFile) eqn:E3; cbn; split; try done; try naive_solver.
  all: intros [?|[_ H]]; [done|]; exfalso.
  all: pose proof (H caCertFile (or_introl eq_refl)); pose proof (H servingCertFile (or_intror (or_introl eq_refl)));
    pose proof (H servingKeyFile (or_intror (or_intror (or_introl eq_refl)))); congruence.
Qed.

(** ** Theorems *)

Definition allows (rp : reply) : bool := match rp_Body rp with ReviewBody r => rs_Allowed r | _ => false end.
Definition admission_results (rp : reply) : list AdmissionResult :=
  omap (fun m => match m with MAdmissionRequest _ r => Some r | _ => None end) (rp_Metrics rp).

(** Case analysis on the guards of a handler, outermost first. *)
Ltac handler_cases H :=
  repeat match type of H with
    | context [if negb (str_eqb ?a ?b) then _ else _] =>
        let E := fresh "E" in destruct (str_eqb a b) eqn:E; cbn [negb] in H; [apply str_eqb_eq in E|try (by inversion H)]
    | context [if negb (bool_decide ?P) then _ else _] =>
        let E := fresh "E" in destruct (bool_decide P) eqn:E; cbn [negb] in H; [apply bool_decide_eq_true in E|try (by inversion H)]
    | context [if negb ?b then _ else _] => let E := fresh "E" in destruct b eqn:E; cbn [negb] in H; [|try (by inversion H)]
    | context [match ?x with _ => _ end] => let E := fresh "E" in destruct x eqn:E; try (by inversion H)
    end.

Section HandlerTheorems.
Context `{C : AdmissionCodec}.

(** C30: the mutating webhook fails closed and says what [Patch] did.  It allows a request
    only if it is a POST of a review that decodes, of kind Pod and operation CREATE,
    whose object decodes to a pod that [Patch] accepts; the answer carries the request's
    UID and a patch that turns the JSON of the decoded pod into the JSON of the pod
    that [Patch] returned. *)
Theorem HandleMutate_sound inj r resp : rp_Body (HandleMutate inj r) = ReviewBody resp -> rs_Allowed resp = true ->
  exists req pod patched original final bytes,
    hr_Method r = bs "POST" /\ decodeAdmissionReview r = Some (Some req) /\ ar_Kind req = bs "Pod" /\ ar_Operation req = Create /\
    unmarshal_pod (ar_Object req) = Some pod /\ inj_Patch inj (Some pod) = Ok patched /\
    marshalJSON pod = Some original /\ marshalJSON patched = Some final /\ apply_patch bytes original = Some final /\
    resp = {| rs_UID := ar_UID req; rs_Allowed := true; rs_Patch := Some bytes; rs_Result := None |}.
Proof.
  intros H Ha. unfold HandleMutate in H. handler_cases H; try (by simplify_eq/=).
  all: simplify_eq/=; eauto 20 using createPatch_apply.
Qed.

(** A request the validating webhook judges, and the pod in it. *)
Definition judged (r : httpRequest) (req : AdmissionRequest) (pod : Pod) : Prop :=
  hr_Method r = bs "POST" /\ decodeAdmissionReview r = Some (Some req) /\ ar_Kind req = bs "Pod" /\
  (ar_Operation req = Create \/ ar_Operation req = Update /\ ar_SubResource req = bs "ephemeralcontainers") /\
  unmarshal_pod (ar_Object req) = Some pod.

Lemma isValidatableOperation_spec req : isValidatableOperation req = true <->
  ar_Operation req = Create \/ ar_Operation req = Update /\ ar_SubResource req = bs "ephemeralcontainers".
Proof.
  unfold isValidatableOperation. repeat case_bool_decide; rewrite ?andb_true_l, ?andb_false_l, ?str_eqb_eq; naive_solver.
Qed.

Lemma HandleValidate_allows inj r : allows (HandleValidate inj r) = true <->
  exists req pod, judged r req pod /\ inj_Validate inj (Some pod) = None.
Proof.
  unfold judged. split.
  - intros H. unfold HandleValidate in H. handler_cases H; try (by simplify_eq/=).
    all: simplify_eq; match goal with H : isValidatableOperation _ = true |- _ => apply isValidatableOperation_spec in H end; eauto 10.
  - intros (req & pod & (Hm & Hd & Hk & Ho%isValidatableOperation_spec & Hp) & Hv). unfold HandleValidate.
    by rewrite Hm, str_eqb_refl, Hd, Hk, str_eqb_refl, Ho, Hp, Hv.
Qed.

(** The validating webhook in front of the sidecar injector admits exactly the pods of
    the specification.  A request is allowed if and only if it is a POST of a review of
    kind Pod, for a creation or an update of the ephemeral containers, whose object
    decodes to a pod with the sidecar contract, the workload rules and the owned
    volumes; everything else, malformed input included, is refused. *)
Theorem HandleValidate_admits s r :
  allows (HandleValidate (sidecar_ops s) r) = true <->
  exists req pod, judged r req pod /\ sidecar_contract s pod /\ workload_rules pod /\ owned_volumes pod.
Proof.
  rewrite HandleValidate_allows. setoid_rewrite <- Validate_spec. cbn [sidecar_ops inj_Validate].
  setoid_rewrite fmap_None. done.
Qed.

(** Admissions are counted once and under the right label: each POST to a webhook records
    one result, which is "allowed" exactly when the answer allows the request; other
    methods record nothing. *)
Theorem admission_counted inj r :
  (hr_Method r = bs "POST" -> exists x, admission_results (HandleMutate inj r) = [x] /\
     (x = AdmissionResultAllowed <-> allows (HandleMutate inj r) = true)) /\
  (hr_Method r = bs "POST" -> exists x, admission_results (HandleValidate inj r) = [x] /\
     (x = AdmissionResultAllowed <-> allows (HandleValidate inj r) = true)) /\
  (hr_Method r <> bs "POST" -> rp_Metrics (HandleMutate inj r) = [] /\ rp_Metrics (HandleValidate inj r) = []).
Proof.
  unfold HandleMutate, HandleValidate. destruct (str_eqb (hr_Method r) "POST") eqn:E; cbn [negb].
  - apply str_eqb_eq in E. split_and!; [..|done]; intros _; repeat case_match; eexists; split; done.
  - apply str_eqb_neq in E. naive_solver.
Qed.
End HandlerTheorems.

Section BundleTheorems.
Context {W : Type} `{A : WebhookAPI W}.

(** One call of the client. *)
Definition api_call (w w' : W) : Prop :=
  exists k n, w' = (get_config k n w).1 \/ exists c, w' = (update_config k n c w).1.
(** Between [w] and [w'] the API server answered a read or a write with this registration, and all its webhooks carry the bundle. *)
Definition reported (k : WebhookConfigName) (name caPEM : gostring) (w w' : W) : Prop :=
  exists w1 w2 c, rtc api_call w w1 /\ (get_config k name w1 = (w2, Ok c) \/ exists c0, update_config k name c0 w1 = (w2, Ok c)) /\
    rtc api_call w2 w' /\ Forall (fun h => wh_CABundle h = caPEM) (wc_Webhooks c).
(** A registration all of whose webhooks carry the bundle now. *)
Definition carries {Q : QuietAPI W} (k : WebhookConfigName) (name caPEM : gostring) (w : W) (c : WebhookConfiguration) : Prop :=
  stored k name w = Some c /\ Forall (fun h => wh_CABundle h = caPEM) (wc_Webhooks c).

Lemma get_call k n w w' r : get_config k n w = (w', r) -> api_call w w'.
Proof. intros H. exists k, n. left. by rewrite H. Qed.
Lemma update_call k n c w w' r : update_config k n c w = (w', r) -> api_call w w'.
Proof. intros H. exists k, n. right. exists c. by rewrite H. Qed.

Lemma install_carries caPEM ws : Forall (fun h => wh_CABundle h = caPEM) (install caPEM ws).1.
Proof.
  apply Forall_forall. intros h (x & -> & _)%list_elem_of_fmap. destruct (str_eqb _ _) eqn:E; [by apply str_eqb_eq|done].
Qed.

Lemma install_unchanged caPEM ws : (install caPEM ws).2 = false -> Forall (fun h => wh_CABundle h = caPEM) ws.
Proof. intros H. apply Forall_forall. intros h Hh. by apply str_eqb_eq, negb_false_iff, (proj1 (existsb_false _ _) H). Qed.

Lemma attempt_reported k name caPEM w w' r : attempt k name caPEM w = (w', r) ->
  rtc api_call w w' /\ forall b, r = Ok b -> reported k name caPEM w w'.
Proof.
  unfold attempt. destruct (get_config k name w) as [w1 [cfg|e]] eqn:Eg; [|intros [= <- <-]; split; [eapply rtc_once, get_call, Eg|done]].
  pose proof (get_call _ _ _ _ _ Eg) as Hg. assert (Hi := install_carries caPEM (wc_Webhooks cfg)). assert (Hu := install_unchanged caPEM (wc_Webhooks cfg)).
  destruct (install caPEM (wc_Webhooks cfg)) as [ws changed]. destruct changed; cbn [negb].
  - destruct (update_config k name _ w1) as [w2 u] eqn:Eu. pose proof (update_call _ _ _ _ _ _ Eu) as Hu'. intros Hr. assert (w2 = w') as <- by (destruct u; congruence).
    split; [by eapply rtc_l, rtc_once|]. intros b ->. destruct u as [c'|e]; [|done]. exists w1, w2, c'. split_and!; [by apply rtc_once|by right; eexists|done|].
    by rewrite (updated _ _ _ _ _ _ Eu).
  - intros [= <- <-]. split; [by apply rtc_once|]. intros b _. exists w, w1, cfg. split_and!; [done|by left|done|by apply Hu].
Qed.

Lemma attempt_carries {Q : QuietAPI W} k name caPEM w w' b : attempt k name caPEM w = (w', Ok b) -> exists c, carries k name caPEM w' c.
Proof.
  unfold attempt. destruct (get_config k name w) as [w1 [cfg|e]] eqn:Eg; [|done].
  assert (Hi := install_carries caPEM (wc_Webhooks cfg)). assert (Hu := install_unchanged caPEM (wc_Webhooks cfg)).
  destruct (install caPEM (wc_Webhooks cfg)) as [ws changed]. destruct changed; cbn [negb].
  - destruct (update_config k name _ w1) as [w2 [c'|e]] eqn:Eu; [|done]. intros [= <- _].
    pose proof (updated _ _ _ _ _ _ Eu) as Ew. apply update_stored in Eu. exists c'. split; [done|]. by rewrite Ew.
  - intros [= <- _]. exists cfg. split; [by eapply get_stored|]. by apply Hu.
Qed.

Lemma attempt_keeps {Q : QuietAPI W} k name caPEM w w' r k' name' : k' <> k -> attempt k name caPEM w = (w', r) -> stored k' name' w' = stored k' name' w.
Proof.
  intros Hk. unfold attempt. destruct (get_config k name w) as [w1 [cfg|e]] eqn:Eg.
  - destruct (install caPEM (wc_Webhooks cfg)) as [ws []]; cbn [negb].
    + destruct (update_config k name _ w1) as [w2 u] eqn:Eu. intros Hr. assert (w2 = w') as <- by (destruct u; congruence).
      rewrite (update_keeps _ _ _ _ _ _ k' name' Hk Eu). by eapply get_keeps.
    + intros [= <- _]. by eapply get_keeps.
  - intros [= <- _]. by eapply get_keeps.
Qed.

Lemma Retry_inv {B} (P : W -> Prop) (Q : W -> B -> Prop) steps fn w :
  P w -> (forall w w' r, P w -> fn w = (w', r) -> P w' /\ forall b, r = Ok b -> Q w' b) ->
  forall w' r, RetryOnConflict steps fn w = (w', r) -> P w' /\ forall b, r = Ok b -> Q w' b.
Proof.
  intros HP Hfn. revert w HP. induction steps as [|n IH]; intros w HP w' r; simpl; [naive_solver|].
  destruct (fn w) as [w1 r1] eqn:E. destruct (Hfn _ _ _ HP E) as [HP1 HQ].
  destruct r1 as [b|[]]; [naive_solver| |naive_solver]. destruct n; [naive_solver|by apply IH].
Qed.

Lemma reported_later k name caPEM u w w' v : rtc api_call u w -> rtc api_call w' v -> reported k name caPEM w w' -> reported k name caPEM u v.
Proof. intros Hu Hv (w1 & w2 & c & H1 & H2 & H3 & H4). exists w1, w2, c. split_and!; [by etrans|done|by etrans|done]. Qed.

Lemma reconcileConfig_reported k name caPEM w w' r ms : reconcileConfig k name caPEM w = (w', r, ms) ->
  rtc api_call w w' /\ (r = Ok tt -> reported k name caPEM w w').
Proof.
  unfold reconcileConfig. destruct (RetryOnConflict DefaultRetry (attempt k name caPEM) w) as [w1 r1] eqn:E.
  apply (Retry_inv (fun v => rtc api_call w v) (fun v _ => reported k name caPEM w v)) in E as [HP HQ]; [|done|].
  - destruct r1 as [b|e]; naive_solver.
  - intros v v' r' Hv [Hc Ha]%attempt_reported. split; [by etrans|]. intros b Hb. by eapply (reported_later _ _ _ w v v' v'), Ha.
Qed.

Lemma reconcileConfig_spec {Q : QuietAPI W} k name caPEM w w' r ms : reconcileConfig k name caPEM w = (w', r, ms) ->
  (forall k' name', k' <> k -> stored k' name' w' = stored k' name' w) /\ (r = Ok tt -> exists c, carries k name caPEM w' c).
Proof.
  unfold reconcileConfig. destruct (RetryOnConflict DefaultRetry (attempt k name caPEM) w) as [w1 r1] eqn:E.
  apply (Retry_inv (fun v => forall k' name', k' <> k -> stored k' name' v = stored k' name' w)
           (fun v _ => exists c, carries k name caPEM v c)) in E as [HP HQ]; [|done|].
  - destruct r1 as [b|e]; naive_solver.
  - intros v v' r' HP Ha. split; [|intros b ->; by eapply attempt_carries].
    intros k' n' Hk. rewrite <- (HP k' n' Hk). by eapply attempt_keeps.
Qed.

Lemma bundlesMatch_carries ws caPEM : Forall (fun h => wh_CABundle h = caPEM) ws -> bundlesMatch ws caPEM = negb (length ws =? 0)%nat.
Proof.
  unfold bundlesMatch. intros H. destruct (length ws =? 0)%nat; [done|]. apply forallb_elem. intros h Hh.
  apply str_eqb_eq. by apply (proj1 (Forall_forall _ _) H).
Qed.

Lemma reconcile_reported rc caPEM w w' ms : reconcile rc caPEM w = (w', Ok tt, ms) -> caPEM <> [] /\
  reported WebhookConfigMutating (mutatingName rc) caPEM w w' /\ reported WebhookConfigValidating (validatingName rc) caPEM w w'.
Proof.
  unfold reconcile. destruct (length caPEM =? 0)%nat eqn:El; [done|].
  destruct (reconcileMutating rc caPEM w) as [[w1 [[]|e]] ms1] eqn:E1; [|done].
  destruct (reconcileValidating rc caPEM w1) as [[w2 [[]|e]] ms2] eqn:E2; [|done]. intros [= <- <-].
  apply reconcileConfig_reported in E1 as [C1 H1], E2 as [C2 H2]. split; [by intros ->|]. split; [by eapply (reported_later _ _ _ w w w1), H1|by eapply (reported_later _ _ _ w w1 w2 w2), H2].
Qed.
Lemma reconcile_carries {Q : QuietAPI W} rc caPEM w w' ms : reconcile rc caPEM w = (w', Ok tt, ms) -> caPEM <> [] /\
  (exists c, carries WebhookConfigMutating (mutatingName rc) caPEM w' c) /\
  (exists c, carries WebhookConfigValidating (validatingName rc) caPEM w' c).
Proof.
  unfold reconcile. destruct (length caPEM =? 0)%nat eqn:El; [done|].
  destruct (reconcileMutating rc caPEM w) as [[w1 [[]|e]] ms1] eqn:E1; [|done].
  destruct (reconcileValidating rc caPEM w1) as [[w2 [[]|e]] ms2] eqn:E2; [|done]. intros [= <- <-].
  apply reconcileConfig_spec in E1 as [_ H1]. apply reconcileConfig_spec in E2 as [K2 H2].
  split; [by intros ->|]. split; [|by apply H2]. destruct (H1 eq_refl) as (c & Hs & Hc). exists c. split; [by rewrite K2|done].
Qed.

(** A reconciliation that reports success makes the server ready, as long as nobody else writes to the registrations.  The bundle it wrote is
    not empty; afterwards every webhook of both registrations carries it, and the next
    readiness probe whose two reads succeed answers true exactly when the certificate
    has not expired and both registrations have a webhook. *)
Theorem ready_after_reconcile {Q : QuietAPI W} rc pki now w w' ms w1 cm w2 cv :
  reconcile rc (pk_caPEM pki) w = (w', Ok tt, ms) ->
  get_config WebhookConfigMutating (mutatingName rc) w' = (w1, Ok cm) ->
  get_config WebhookConfigValidating (validatingName rc) w1 = (w2, Ok cv) ->
  pk_caPEM pki <> [] /\
  Forall (fun h => wh_CABundle h = pk_caPEM pki) (wc_Webhooks cm ++ wc_Webhooks cv) /\
  ((ready {| ws_pki := Some pki; ws_reconciler := Some rc |} now w').2 = true <->
     now < pk_NotAfter pki /\ wc_Webhooks cm <> [] /\ wc_Webhooks cv <> []).
Proof.
  intros Hr Hm Hv. apply reconcile_carries in Hr as (Hne & (c1 & S1 & F1) & (c2 & S2 & F2)).
  assert (c1 = cm) as ->. { rewrite <- (get_keeps _ _ _ _ _ _ _ Hm), (get_stored _ _ _ _ _ Hm) in S1. congruence. }
  assert (c2 = cv) as ->.
  { rewrite <- (get_keeps _ _ _ _ _ _ _ Hm), <- (get_keeps _ _ _ _ _ _ _ Hv), (get_stored _ _ _ _ _ Hv) in S2. congruence. }
  split_and!; [done|by apply Forall_app|]. unfold ready, bundlesConsistent. cbn [ws_pki ws_reconciler].
  destruct (Z.ltb_spec now (pk_NotAfter pki)) as [Ht|Ht]; cbn [negb]; [|split; [done|lia]].
  destruct (length (pk_caPEM pki) =? 0)%nat eqn:El; [by destruct (pk_caPEM pki)|]. rewrite Hm, !bundlesMatch_carries by done.
  destruct (wc_Webhooks cm) as [|h1 l1]; cbn [length Nat.eqb negb]; [naive_solver|]. rewrite Hv, bundlesMatch_carries by done.
  destruct (wc_Webhooks cv); simpl; naive_solver.
Qed.
End BundleTheorems.

(** ** Concrete parameters *)

Definition example_request : AdmissionRequest :=
  {| ar_UID := "42"; ar_Kind := "Pod"; ar_Operation := Create; ar_SubResource := ""; ar_Namespace := "team-a"; ar_Name := "";
     ar_Object := "plain" |}.

(** A codec with two documents: the plain pod and the patched one. *)
#[local] Instance example_codec : AdmissionCodec.
Proof.
  refine {| patch_ops := gostring;
    decode_review b := if str_eqb b "review" then Some (Some example_request) else None;
    unmarshal_pod b := if str_eqb b "plain" then Some (plain_pod None None)
                       else if str_eqb b "patched" then Some (patch_or example_injector (plain_pod None None)) else None;
    marshalJSON p := Some (if p_HostPID p then bs "patched" else bs "plain");
    createPatch a b := Some b; marshal_ops o := Some o; apply_patch bytes a := Some bytes |}.
  intros; congruence.
Defined.

Definition example_post : httpRequest := {| hr_Method := "POST"; hr_Body := "review" |}.

Lemma HandleMutate_sound_witness : exists original final,
  apply_patch (bs "patched") original = Some final /\ marshalJSON (plain_pod None None) = Some original.
Proof.
  destruct (HandleMutate_sound (sidecar_ops example_injector) example_post
    {| rs_UID := "42"; rs_Allowed := true; rs_Patch := Some (bs "patched"); rs_Result := None |})
    as (req & pod & p' & original & final & bytes & _ & Hd & _ & _ & Hu & _ & Ho & _ & Ha & Hr); [by vm_compute|done|].
  exists original, final. vm_compute in Hd. injection Hd as <-. vm_compute in Hu. injection Hu as <-. injection Hr as <-. split; [exact Ha|exact Ho].
Defined.

(** An API server with one registration of each kind. *)
Record api_pair := { api_mutating : WebhookConfiguration; api_validating : WebhookConfiguration }.
Definition api_get (k : WebhookConfigName) (w : api_pair) : WebhookConfiguration :=
  match k with WebhookConfigMutating => api_mutating w | WebhookConfigValidating => api_validating w end.
Definition api_set (k : WebhookConfigName) (c : WebhookConfiguration) (w : api_pair) : api_pair :=
  match k with
  | WebhookConfigMutating => {| api_mutating := c; api_validating := api_validating w |}
  | WebhookConfigValidating => {| api_mutating := api_mutating w; api_validating := c |}
  end.

#[local] Instance pair_api : WebhookAPI api_pair.
Proof.
  refine {| get_config k n w := (w, Ok (api_get k w)); update_config k n c w := (api_set k c w, Ok c) |}. intros; by simplify_eq.
Defined.
#[local] Instance pair_quiet : QuietAPI api_pair.
Proof.
  refine {| stored k n w := Some (api_get k w) |}; cbn; intros; simplify_eq; try done; by destruct k; try destruct k'.
Defined.

Definition example_reconciler : caBundleReconciler := {| mutatingName := "m"; validatingName := "v" |}.
Definition example_api : api_pair :=
  {| api_mutating := {| wc_ResourceVersion := "1"; wc_Webhooks := [{| wh_CABundle := []; wh_Rest := [] |}] |};
     api_validating := {| wc_ResourceVersion := "1"; wc_Webhooks := [{| wh_CABundle := "old"; wh_Rest := [] |}] |} |}.
Definition example_pki : WebhookPKI := {| pk_caPEM := "pem"; pk_NotAfter := 100 |}.
Definition reconciled : api_pair := (reconcile example_reconciler "pem" example_api).1.1.

Lemma ready_after_reconcile_witness :
  (ready {| ws_pki := Some example_pki; ws_reconciler := Some example_reconciler |} 50 reconciled).2 = true.
Proof.
  edestruct (ready_after_reconcile example_reconciler example_pki 50 example_api reconciled) as (_ & _ & H).
  - by vm_compute.
  - by vm_compute.
  - by vm_compute.
  - apply H. split_and!; [by vm_compute|done|done].
Defined.

(** The answers of the handlers to requests that are not admission reviews. *)
Example mutate_get : HandleMutate (sidecar_ops example_injector) {| hr_Method := "GET"; hr_Body := "" |}
  = http_error StatusMethodNotAllowed "method not allowed" [].
Proof. by vm_compute. Qed.
Example validate_garbage : allows (HandleValidate (sidecar_ops example_injector) {| hr_Method := "POST"; hr_Body := "x" |}) = false.
Proof. by vm_compute. Qed.
