(* ===== verification/PodLabels.v ===== *)
(** * [internal/policy/watch/podlabels.go]: the pod's own labels

    [ParsePodLabels] reads the downward-API labels file, one [key] and quoted [value] per line with Go
    quoting.  [strconv.Unquote] is modelled for raw strings and for ASCII strings in double
    quotes; for other inputs (a rune outside ASCII, a [\u] escape, single quotes) it is
    the parameter [unquote_runes]. *)

From S2P Require Import Prelude GoStrings GoRuntime.
#[local] Open Scope Z_scope.
#[local] Open Scope go_scope.

(** ** [strconv.Unquote] *)

Definition chr_quote : ascii := "034"%char.
Definition chr_backslash : ascii := "092"%char.
Definition chr_backquote : ascii := "096"%char.

Class RuneQuoting := { unquote_runes : gostring -> option gostring }.
Definition no_runes : RuneQuoting := {| unquote_runes _ := None |}.

Definition octal_value (c : ascii) : option Z := if between "0" c "7" then Some (code c - code "0") else None.

(** The one-letter escapes of [UnquoteChar] in double quotes. *)
Definition simple_escape (c : ascii) : option ascii :=
  if ascii_eqb c "a" then Some "007"%char else if ascii_eqb c "b" then Some "008"%char
  else if ascii_eqb c "f" then Some "012"%char else if ascii_eqb c "n" then Some "010"%char
  else if ascii_eqb c "r" then Some "013"%char else if ascii_eqb c "t" then Some "009"%char
  else if ascii_eqb c "v" then Some "011"%char else if ascii_eqb c chr_backslash then Some chr_backslash
  else if ascii_eqb c chr_quote then Some chr_quote
  else None.

(** The loop of [unquote] up to the closing quote: the bytes and the rest of the input, which
    starts at the quote. *)
Fixpoint unquote_chars (s : gostring) : option (gostring * gostring) :=
  match s with
  | [] => None
  | c :: s' =>
      if ascii_eqb c chr_quote then Some ([], s)
      else if ascii_eqb c chr_lf then None
      else if ascii_eqb c chr_backslash then
        match s' with
        | [] => None
        | e :: s1 =>
            match simple_escape e with
            | Some b => (fun r => (b :: r.1, r.2)) <$> unquote_chars s1
            | None =>
                if ascii_eqb e "x" then
                  match s1 with
                  | a :: b :: s2 =>
                      match hex_value a, hex_value b with
                      | Some h, Some l => (fun r => (byte_of (16 * h + l) :: r.1, r.2)) <$> unquote_chars s2
                      | _, _ => None
                      end
                  | _ => None
                  end
                else
                  match octal_value e, s1 with
                  | Some x, a :: b :: s2 =>
                      match octal_value a, octal_value b with
                      | Some y, Some z =>
                          if 255 <? 64 * x + 8 * y + z then None
                          else (fun r => (byte_of (64 * x + 8 * y + z) :: r.1, r.2)) <$> unquote_chars s2
                      | _, _ => None
                      end
                  | _, _ => None
                  end
            end
        end
      else (fun r => (c :: r.1, r.2)) <$> unquote_chars s'
  end.

Definition needs_runes `{RuneQuoting} (s : gostring) : bool :=
  negb (all_ascii s) || Contains s [chr_backslash; "u"%char] || Contains s [chr_backslash; "U"%char].

Definition Unquote `{RuneQuoting} (s : gostring) : option gostring :=
  if (length s <? 2)%nat then None
  else
    match s with
    | [] => None
    | q :: body =>
        if ascii_eqb q chr_backquote then
          match IndexByte body chr_backquote with
          | Some e => if (S e =? length body)%nat then Some (filter (fun c => ascii_eqb c chr_cr = false) (take e body)) else None
          | None => None
          end
        else if ascii_eqb q chr_quote then
          if needs_runes s then unquote_runes s
          else match unquote_chars body with
               | Some (r, [_]) => Some r
               | _ => None
               end
        else if ascii_eqb q "'" then unquote_runes s
        else None
    end.

(** ** [ParsePodLabels] *)

Inductive labels_error :=
| EmptyLabelsPath
| ReadLabels (e : error)
| MissingSeparator (line : nat)
| UnquoteValue (line : nat) (key : gostring)
| DuplicateKey (line : nat) (key : gostring).

Section Parse.
Context `{U : Unicode} `{Q : RuneQuoting}.

Fixpoint parse_lines (i : nat) (lines : list gostring) (out : gmap gostring gostring) : result labels_error (gmap gostring gostring) :=
  match lines with
  | [] => Ok out
  | line :: lines =>
      let trimmed := TrimSpace line in
      if str_eqb trimmed "" then parse_lines (S i) lines out
      else
        match IndexByte trimmed "=" with
        | None | Some O => Err (MissingSeparator (S i))
        | Some eq =>
            let key := take eq trimmed in
            match Unquote (drop (S eq) trimmed) with
            | None => Err (UnquoteValue (S i) key)
            | Some value =>
                match out !! key with
                | Some _ => Err (DuplicateKey (S i) key)
                | None => parse_lines (S i) lines (<[key := value]> out)
                end
            end
        end
  end.

Definition ParsePodLabels (raw : gostring) : result labels_error (gmap gostring gostring) :=
  parse_lines 0 (Split raw chr_lf) ∅.

(** [os.ReadFile] is the argument [read]. *)
Definition LoadPodLabels (read : gostring -> result error gostring) (path : gostring) : result labels_error (gmap gostring gostring) :=
  if str_eqb (TrimSpace path) "" then Err EmptyLabelsPath
  else match read path with
       | Err e => Err (ReadLabels e)
       | Ok raw => ParsePodLabels raw
       end.
End Parse.

(** ** The file the kubelet writes

    A label key has letters, digits and [-_./]; a value has letters, digits and [-_.], so
    Go quoting adds the two quotes only. *)

Definition is_label_char (c : ascii) : bool :=
  is_upper c || is_lower c || is_digit c || ascii_eqb c "-" || ascii_eqb c "_" || ascii_eqb c "." || ascii_eqb c "/".
Definition label_ok (kv : gostring * gostring) : bool :=
  negb (str_eqb kv.1 "") && forallb is_label_char kv.1 && forallb is_label_char kv.2.

Definition format_label (kv : gostring * gostring) : gostring := kv.1 ++ "=" ++ [chr_quote] ++ kv.2 ++ [chr_quote].
Definition format_labels (l : list (gostring * gostring)) : gostring := concat (map (fun kv => format_label kv ++ [chr_lf]) l).

(** ** Lemmas *)

Lemma label_char_cases c : is_label_char c = true ->
  is_ascii c = true /\ is_space c = false /\ c <> "="%char /\ c <> chr_quote /\ c <> chr_backslash /\ c <> chr_lf.
Proof. destruct c as [[] [] [] [] [] [] [] []]; vm_compute; intros H; split_and!; congruence. Qed.

Lemma forallb_cons {A} (f : A -> bool) x l : forallb f (x :: l) = f x && forallb f l.
Proof. done. Qed.

(** A string that starts and ends with ASCII bytes that are not white space is not trimmed. *)
Lemma TrimSpace_id `{Unicode} a m b : is_ascii a = true -> is_space a = false -> is_ascii b = true -> is_space b = false ->
  TrimSpace (a :: m ++ [b]) = a :: m ++ [b].
Proof.
  intros A1 A2 B1 B2. unfold TrimSpace. cbn [trim_left_space]. rewrite A1, A2. cbn [negb].
  assert (Hr : rev (a :: m ++ [b]) = b :: rev (a :: m)) by (simpl; by rewrite rev_app_distr).
  rewrite Hr. cbn [trim_left_space]. rewrite B1, B2. cbn [negb]. by rewrite <- Hr, rev_involutive.
Qed.

Lemma Contains_absent s c t : c ∉ s -> Contains s (c :: t) = false.
Proof.
  intros Hc. unfold Contains. apply bool_decide_eq_false. intros [i Hi]. revert i Hi.
  induction s as [|d s IH]; intros i; [done|]. cbn [Index HasPrefix]. apply not_elem_of_cons in Hc as [Hne Hc].
  rewrite (proj2 (ascii_eqb_neq c d)) by done. cbn [andb]. destruct (Index s (c :: t)) eqn:E; [|by intros]. intros Hi. by apply fmap_Some in Hi as (j & [= <-] & _); destruct (IH Hc n).
Qed.

Section RoundTrip.
Context `{U : Unicode} `{Q : RuneQuoting}.

Lemma unquote_chars_plain v : forallb is_label_char v = true -> unquote_chars (v ++ [chr_quote]) = Some (v, [chr_quote]).
Proof.
  induction v as [|c v IH]; [done|]. rewrite forallb_cons, andb_true_iff. intros [Hc Hv].
  apply label_char_cases in Hc as (_ & _ & _ & Hq & Hb & Hl). cbn [app unquote_chars].
  rewrite (proj2 (ascii_eqb_neq c _) Hq), (proj2 (ascii_eqb_neq c _) Hl), (proj2 (ascii_eqb_neq c _) Hb). by rewrite IH.
Qed.

Lemma Unquote_plain v : forallb is_label_char v = true -> Unquote (chr_quote :: v ++ [chr_quote]) = Some v.
Proof.
  intros Hv. unfold Unquote. assert (Hl : (length (chr_quote :: v ++ [chr_quote]) <? 2)%nat = false).
  { apply Nat.ltb_ge. simpl. rewrite length_app. simpl. lia. }
  rewrite Hl. cbn [ascii_eqb]. change (ascii_eqb chr_quote chr_backquote) with false. change (ascii_eqb chr_quote chr_quote) with true.
  cbn iota. assert (Hn : needs_runes (chr_quote :: v ++ [chr_quote]) = false).
  { unfold needs_runes. assert (Hb : chr_backslash ∉ chr_quote :: v ++ [chr_quote]).
    { rewrite not_elem_of_cons, not_elem_of_app, list_elem_of_singleton. split_and!; [done| |done]. intros Hin.
      rewrite forallb_forall in Hv. specialize (Hv _ (proj1 (list_elem_of_In _ _) Hin)). by apply label_char_cases in Hv as (_ & _ & _ & _ & ? & _). }
    rewrite !Contains_absent by done. rewrite !orb_false_r. apply negb_false_iff. unfold all_ascii. cbn [forallb].
    rewrite forallb_app. cbn. rewrite andb_true_r. apply forallb_forall. rewrite forallb_forall in Hv. intros c Hc. by apply label_char_cases, Hv. }
  by rewrite Hn, unquote_chars_plain.
Qed.

Lemma format_label_line kv : label_ok kv = true -> TrimSpace (format_label kv) = format_label kv /\
  IndexByte (format_label kv) "=" = Some (length kv.1) /\ format_label kv <> [] /\ chr_lf ∉ format_label kv.
Proof.
  destruct kv as [k v]. unfold label_ok, format_label. cbn [fst snd]. rewrite !andb_true_iff, negb_true_iff, str_eqb_neq.
  intros [[Hne Hk] Hv]. assert (Hall : forall c, c ∈ k \/ c ∈ v -> is_label_char c = true).
  { rewrite forallb_forall in Hk, Hv. intros c [H|H]; apply list_elem_of_In in H; auto. }
  destruct k as [|a k]; [done|]. split_and!.
  - replace ((a :: k) ++ "=" ++ [chr_quote] ++ v ++ [chr_quote]) with (a :: (k ++ bs "=" ++ [chr_quote] ++ v) ++ [chr_quote]).
    + apply TrimSpace_id; try done; apply label_char_cases, Hall; left; left.
    + simpl. by rewrite <- !app_assoc.
  - apply (IndexByte_app (a :: k)). intros H. by destruct (label_char_cases _ (Hall _ (or_introl H))) as (_ & _ & ? & _).
  - done.
  - rewrite !not_elem_of_app. split_and!.
    + intros H. by destruct (label_char_cases _ (Hall _ (or_introl H))) as (_ & _ & _ & _ & _ & ?).
    + vm_compute. set_solver.
    + rewrite list_elem_of_singleton. done.
    + intros H. by destruct (label_char_cases _ (Hall _ (or_intror H))) as (_ & _ & _ & _ & _ & ?).
    + rewrite list_elem_of_singleton. done.
Qed.

Lemma parse_line kv i lines out : label_ok kv = true -> out !! kv.1 = None ->
  parse_lines i (format_label kv :: lines) out = parse_lines (S i) lines (<[kv.1 := kv.2]> out).
Proof.
  intros Hok Hout. destruct (format_label_line kv Hok) as (Ht & Hi & Hne & _). cbn [parse_lines]. rewrite Ht.
  destruct (str_eqb (format_label kv) "") eqn:E; [by apply str_eqb_eq in E|]. rewrite Hi. destruct kv as [k v]. cbn [fst snd] in *.
  unfold label_ok in Hok. cbn [fst snd] in Hok. apply andb_true_iff in Hok as [[Hk _]%andb_true_iff Hv].
  destruct (length k) as [|n] eqn:El; [by destruct k|]. rewrite <- El. unfold format_label. cbn [fst snd].
  rewrite take_app_length. change (bs "=" ++ [chr_quote] ++ v ++ [chr_quote]) with ("="%char :: chr_quote :: v ++ [chr_quote]).
  rewrite drop_app_ge by lia. replace (S (length k) - length k)%nat with 1%nat by lia. cbn [drop].
  by rewrite Unquote_plain, Hout.
Qed.

Lemma Split_format l : Forall (fun kv => label_ok kv = true) l -> Split (format_labels l) chr_lf = map format_label l ++ [[]].
Proof.
  unfold format_labels. induction 1 as [|kv l Hok _ IH]; [done|]. cbn [map concat].
  rewrite <- app_assoc. cbn [app]. rewrite Split_app_sep, IH; [done|]. by apply format_label_line.
Qed.

Lemma parse_all l i out : Forall (fun kv => label_ok kv = true) l -> NoDup l.*1 -> (forall kv, kv ∈ l -> out !! kv.1 = None) ->
  parse_lines i (map format_label l ++ [[]]) out = Ok (list_to_map l ∪ out).
Proof.
  intros Hok. revert i out. induction Hok as [|kv l Hkv _ IH]; intros i out Hnd Hout; cbn [map app].
  - cbn [parse_lines]. change (TrimSpace []) with ([] : gostring). cbn. by rewrite (left_id_L ∅ (∪)).
  - apply NoDup_cons in Hnd as [Hni Hnd]. rewrite parse_line by (done || (apply Hout; by left)). rewrite IH; [|done|].
    + f_equal. destruct kv as [k v]. cbn [fst snd list_to_map]. rewrite <- insert_union_r, insert_union_l; [done|].
      by apply not_elem_of_list_to_map.
    + intros kv' Hin. rewrite lookup_insert_ne; [by apply Hout; right|]. intros E. apply Hni. rewrite E. by apply list_elem_of_fmap_2.
Qed.

(** Reading what the kubelet wrote gives the pod's labels back.  For every set of
    labels with the syntax Kubernetes allows, in any order, parsing the file with one
    quoted label per line succeeds with exactly that map: no label is lost or altered,
    and the empty file is the empty map. *)
Theorem ParsePodLabels_format l : Forall (fun kv => label_ok kv = true) l -> NoDup l.*1 ->
  ParsePodLabels (format_labels l) = Ok (list_to_map l).
Proof.
  intros Hok Hnd. unfold ParsePodLabels. rewrite Split_format by done. rewrite parse_all by done. by rewrite (right_id_L ∅ (∪)).
Qed.
End RoundTrip.

Lemma ParsePodLabels_format_witness :
  @ParsePodLabels ascii_only no_runes (format_labels [(bs "app.kubernetes.io/name", bs "agent"); (bs "tier", bs "")])
  = Ok (list_to_map [(bs "app.kubernetes.io/name", bs "agent"); (bs "tier", bs "")]).
Proof.
  apply ParsePodLabels_format; [by repeat constructor|]. by apply (bool_decide_unpack _); vm_compute.
Defined.

(** Escapes, a duplicate key, a line without a separator and an unterminated value. *)
Example parse_escape : @Unquote no_runes ([chr_quote] ++ bs "a" ++ [chr_backslash] ++ bs "x41" ++ [chr_backslash] ++ bs "101" ++ [chr_quote]) = Some (bs "aAA").
Proof. by vm_compute. Qed.
Example parse_duplicate : @ParsePodLabels ascii_only no_runes (format_labels [(bs "a", bs "1"); (bs "a", bs "2")]) = Err (DuplicateKey 2 "a").
Proof. by vm_compute. Qed.
Example parse_no_separator : @ParsePodLabels ascii_only no_runes (bs "=x") = Err (MissingSeparator 1).
Proof. by vm_compute. Qed.
