(* ===== verification/Watcher.v ===== *)
(** * [internal/policy/watch]: the policy watcher

    [watcher.go] and [run.go]: the watcher lists the policies of its namespace, keeps those
    that select its pod, compiles them and publishes the result in the [Store].

    The Kubernetes client, the context and timers are the operations of [WatchWorld] on an
    environment; [LabelSelectorAsSelector] is a parameter.  The loops take fuel, one unit
    per iteration, and answer [None] when it runs out.  The goroutines of [run] share the
    store and two mutexes: [Module Relists] models their interleavings. *)

From S2P Require Import Prelude GoStrings GoRuntime Canonicalize Compile Match Credential Decision Stages PolicyStore.
#[local] Open Scope Z_scope.

(** ** Options and construction *)

Record Options := {
  o_Namespace : gostring; o_PodLabels : gmap gostring gostring; o_MaxStaleness : Duration; o_ResyncPeriod : Duration
}.

Inductive watcher_error := ErrEmptyNamespace | ErrNilClient | ErrNilStore | ErrInvalidMaxStaleness.

(** The mutable part of a [Watcher], with the store it publishes to and the calls of
    [IncStaleDeny] it made. *)
Record watcher := {
  w_store : Store; w_firstDone : bool; w_ready : bool; w_lastStale : bool; w_fatal : bool; w_staleDenies : nat
}.

(** [client] and [store] say whether the argument is not nil. *)
Definition NewWatcher (opts : Options) (client : bool) (store : option Store) : result watcher_error watcher :=
  if str_eqb (o_Namespace opts) "" then Err ErrEmptyNamespace
  else if negb client then Err ErrNilClient
  else match store with
       | None => Err ErrNilStore
       | Some st =>
           if o_MaxStaleness opts <=? 0 then Err ErrInvalidMaxStaleness
           else Ok {| w_store := st; w_firstDone := false; w_ready := false; w_lastStale := false; w_fatal := false; w_staleDenies := 0 |}
       end.

(** [client.go]: the adapter over the dynamic client.  One object that does not convert fails the list. *)
Definition NewDynamicAkshPolicyClient (dc : bool) (namespace : gostring) : result watcher_error unit :=
  if str_eqb namespace "" then Err ErrEmptyNamespace else if negb dc then Err ErrNilClient else Ok tt.

Definition client_List {Obj L} (unstructuredToPolicy : Obj -> result error (AkshPolicy L)) (r : result error (list Obj * gostring))
  : result error (list (AkshPolicy L) * gostring) :=
  match r with
  | Err e => Err e
  | Ok (items, rv) => match traverse unstructuredToPolicy items with Err e => Err e | Ok ps => Ok (ps, rv) end
  end.

Definition reconnectBackoff : Duration := 50 * Millisecond.
Definition maxReconnectBackoff : Duration := 30 * Second.
Definition Live (w : watcher) : bool := negb (w_fatal w).

(** ** Intervals *)

Definition defaultResyncDivisor : Z := 3.

(** Go's division of durations truncates; the arguments here are positive. *)
Definition resyncInterval (opts : Options) : Duration :=
  let derived := Z.quot (o_MaxStaleness opts) defaultResyncDivisor in
  let derived := if derived <=? 0 then o_MaxStaleness opts else derived in
  if o_ResyncPeriod opts <=? 0 then derived
  else if o_MaxStaleness opts <=? o_ResyncPeriod opts then derived
  else o_ResyncPeriod opts.

Definition staleInterval (opts : Options) : Duration :=
  let interval := Z.quot (o_MaxStaleness opts) 4 in
  let interval := if Second <? interval then Second else interval in
  if interval <? 10 * Millisecond then 10 * Millisecond else interval.

(** The update of [backoff] in [reconnect]. *)
Definition next_backoff (backoff : Duration) : Duration :=
  if backoff <? maxReconnectBackoff then
    let backoff := wrap64 (backoff * 2) in
    if maxReconnectBackoff <? backoff then maxReconnectBackoff else backoff
  else backoff.

(** ** Publishing *)

Section Watcher.
Context {L : Type} `{U : Unicode} `{SH : Sha256} `{SO : SortSlice}.
Context (opts : Options) (LabelSelectorAsSelector : L -> option (gmap gostring gostring -> bool)).

Definition selects (p : AkshPolicy L) : bool :=
  match ap_Selector p with
  | None => true
  | Some sel =>
      match LabelSelectorAsSelector sel with
      | None => false
      | Some s => s (o_PodLabels opts)
      end
  end.

Fixpoint filterByPodLabels (items : list (AkshPolicy L)) : list (AkshPolicy L) :=
  match items with
  | [] => []
  | p :: items => if selects p then p :: filterByPodLabels items else filterByPodLabels items
  end.

(** [readyOnce.Do]: the first publication closes [ready]. *)
Definition mark_ready (w : watcher) : watcher :=
  if w_ready w then w
  else {| w_store := w_store w; w_firstDone := true; w_ready := true; w_lastStale := w_lastStale w; w_fatal := w_fatal w;
          w_staleDenies := w_staleDenies w |}.

Definition set_store (s : Store) (w : watcher) : watcher :=
  {| w_store := s; w_firstDone := w_firstDone w; w_ready := w_ready w; w_lastStale := w_lastStale w; w_fatal := w_fatal w;
     w_staleDenies := w_staleDenies w |}.

Definition compileAndSwap (items : list (AkshPolicy L)) (now : Time) (w : watcher) : watcher :=
  match Compile (filterByPodLabels items) with
  | Err _ => w
  | Ok snap => mark_ready (set_store (Swap (Some snap) now (w_store w)) w)
  end.

Definition observeStaleness (now : Time) (w : watcher) : watcher :=
  let stale := match Current now (w_store w) with
               | None => true
               | Some (_, age) => (age <? 0) || (o_MaxStaleness opts <=? age)
               end in
  {| w_store := w_store w; w_firstDone := w_firstDone w; w_ready := w_ready w; w_lastStale := stale; w_fatal := w_fatal w;
     w_staleDenies := if stale && negb (w_lastStale w) then S (w_staleDenies w) else w_staleDenies w |}.

(** ** The loops *)

Inductive channel_event := CtxDone | Closed | ErrorEvent | ObjectEvent.

Class WatchWorld (E : Type) := {
  list_policies : E -> E * result error (list (AkshPolicy L) * gostring);
  open_watch : gostring -> E -> E * result error unit;
  next_event : E -> E * channel_event;     (* the select of consume *)
  sleep_for : Duration -> E -> E * bool;   (* a positive timer against ctx.Done *)
  ctx_done : E -> bool;
  read_now : E -> Time * E
}.

Section Loops.
Context {E : Type} `{WE : WatchWorld E}.

Definition sleep (d : Duration) (e : E) : E * bool :=
  if d <=? 0 then (e, negb (ctx_done e)) else sleep_for d e.

Definition relistAndSwap (w : watcher) (e : E) : watcher * E * result error gostring :=
  match list_policies e with
  | (e, Err err) => (w, e, Err err)
  | (e, Ok (items, rv)) => let '(now, e) := read_now e in (compileAndSwap items now w, e, Ok rv)
  end.

(** [None] inside is a cancelled context. *)
Fixpoint initialList (fuel : nat) (w : watcher) (e : E) : option (watcher * E * option gostring) :=
  match fuel with
  | O => None
  | S fuel =>
      match relistAndSwap w e with
      | (w, e, Ok rv) => Some (w, e, Some rv)
      | (w, e, Err _) =>
          match sleep reconnectBackoff e with
          | (e, false) => Some (w, e, None)
          | (e, true) => initialList fuel w e
          end
      end
  end.

(** [reconnect] from a given back-off. *)
Fixpoint reconnect_from (fuel : nat) (backoff : Duration) (w : watcher) (e : E) : option (watcher * E * option gostring) :=
  match fuel with
  | O => None
  | S fuel =>
      match relistAndSwap w e with
      | (w, e, Ok rv) => Some (w, e, Some rv)
      | (w, e, Err _) =>
          match sleep backoff e with
          | (e, false) => Some (w, e, None)
          | (e, true) => reconnect_from fuel (next_backoff backoff) w e
          end
      end
  end.
Definition reconnect (fuel : nat) : watcher -> E -> option (watcher * E * option gostring) := reconnect_from fuel reconnectBackoff.

(** The latest resource version ([""] for none) and whether to reconnect. *)
Fixpoint consume (fuel : nat) (rv : gostring) (w : watcher) (e : E) : option (watcher * E * gostring * bool) :=
  match fuel with
  | O => None
  | S fuel =>
      match next_event e with
      | (e, CtxDone) => Some (w, e, rv, false)
      | (e, Closed) => Some (w, e, rv, true)
      | (e, ErrorEvent) => Some (w, e, rv, true)
      | (e, ObjectEvent) =>
          match relistAndSwap w e with
          | (w, e, Err _) => Some (w, e, rv, true)
          | (w, e, Ok newRV) => consume fuel newRV w e
          end
      end
  end.

Fixpoint watchLoop (fuel : nat) (rv : gostring) (w : watcher) (e : E) : option (watcher * E) :=
  match fuel with
  | O => None
  | S fuel' =>
      if ctx_done e then Some (w, e)
      else
        match open_watch rv e with
        | (e, Err _) =>
            match sleep reconnectBackoff e with
            | (e, false) => Some (w, e)
            | (e, true) =>
                match reconnect fuel' w e with
                | None => None
                | Some (w, e, rv) => if ctx_done e then Some (w, e) else watchLoop fuel' (default [] rv) w e
                end
            end
        | (e, Ok _) =>
            match consume fuel' [] w e with
            | None => None
            | Some (w, e, latestRV, again) =>
                if ctx_done e then Some (w, e)
                else
                  let rv := if str_eqb latestRV [] then rv else latestRV in
                  if again then
                    match reconnect fuel' w e with
                    | None => None
                    | Some (w, e, rv) => if ctx_done e then Some (w, e) else watchLoop fuel' (default [] rv) w e
                    end
                  else watchLoop fuel' rv w e
            end
        end
  end.

(** [run] without the two goroutines it starts: the first list, then the watch. *)
Definition run (fuel : nat) (w : watcher) (e : E) : option (watcher * E) :=
  match initialList fuel w e with
  | None => None
  | Some (w, e, None) => Some (w, e)
  | Some (w, e, Some rv) => watchLoop fuel rv w e
  end.
End Loops.

(** ** What is published *)

Lemma filterByPodLabels_filter items : filterByPodLabels items = filter (fun p => selects p = true) items.
Proof. induction items as [|p items IH]; [done|]. cbn [filterByPodLabels]. rewrite filter_cons, IH. by destruct (selects p). Qed.

(** A snapshot made from a list of policies: the compilation of those that select the pod. *)
Definition made_from (items : list (AkshPolicy L)) (snap : compiledSnapshot) : Prop := Compile (filterByPodLabels items) = Ok snap.

(** A snapshot holds the rules of the policies that select the pod, and no others. *)
Lemma made_from_rules items snap r : made_from items snap ->
  r ∈ rules snap <-> exists p er, p ∈ items /\ selects p = true /\ er ∈ ap_Rules p /\ compile_rule (ap_Namespace p) (ap_Name p) er = Ok r.
Proof.
  unfold made_from, Compile. rewrite filterByPodLabels_filter. destruct (traverse _ _) as [rs|] eqn:Ht; simpl; [|done].
  destruct (_ <? _)%nat; [done|]. intros [= <-]. cbn [rules]. rewrite sort_slice_perm.
  apply traverse_Forall2 in Ht. split.
  - intros Hr. apply list_elem_of_lookup in Hr as [j Hj]. destruct (Forall2_lookup_r _ _ _ _ _ Ht Hj) as ([[ns n] er] & Hx & Hc).
    apply list_elem_of_lookup_2 in Hx. unfold policy_rules in Hx. apply list_elem_of_In, in_concat in Hx as (l & Hl & Hx).
    apply in_map_iff in Hl as (p & <- & Hp). apply in_map_iff in Hx as (er' & [= <- <- <-] & Her).
    apply list_elem_of_In, list_elem_of_filter in Hp as [Hs Hp]. apply list_elem_of_In in Her. eauto 10.
  - intros (p & er & Hp & Hs & Her & Hc). assert (Hx : (ap_Namespace p, ap_Name p, er) ∈ policy_rules (filter (fun p => selects p = true) items)).
    { unfold policy_rules. apply list_elem_of_In, in_concat. eexists. split; [apply in_map_iff; eexists; split; [done|]|].
      - apply list_elem_of_In, list_elem_of_filter. done.
      - apply in_map_iff. eexists. split; [done|by apply list_elem_of_In]. }
    apply list_elem_of_lookup in Hx as [j Hj]. destruct (Forall2_lookup_l _ _ _ _ _ Ht Hj) as (r' & Hr & Hc').
    apply list_elem_of_lookup_2 in Hr. congruence.
Qed.

Section Published.
Context {E : Type} `{WE : WatchWorld E}.

(** From [e] to [e'] the API server has answered these lists, each with the time that was read after it. *)
Inductive answers : E -> list (list (AkshPolicy L) * Time) -> E -> Prop :=
| ans_none e : answers e [] e
| ans_list e e1 e2 e' items rv now j : list_policies e = (e1, Ok (items, rv)) -> read_now e1 = (now, e2) -> answers e2 j e' -> answers e ((items, now) :: j) e'
| ans_failed e e1 e' err j : list_policies e = (e1, Err err) -> answers e1 j e' -> answers e j e'
| ans_watch e e1 e' rv r j : open_watch rv e = (e1, r) -> answers e1 j e' -> answers e j e'
| ans_event e e1 e' ev j : next_event e = (e1, ev) -> answers e1 j e' -> answers e j e'
| ans_sleep e e1 e' d ok j : sleep_for d e = (e1, ok) -> answers e1 j e' -> answers e j e'.

Lemma answers_app e e1 e2 j k : answers e j e1 -> answers e1 k e2 -> answers e (j ++ k) e2.
Proof. induction 1; cbn; eauto using answers. Qed.
Lemma answers_sleep d e e1 ok e' j : sleep d e = (e1, ok) -> answers e1 j e' -> answers e j e'.
Proof. unfold sleep. destruct (d <=? 0); [by intros [= <- _]|]. apply ans_sleep. Qed.

(** What those answers do to the watcher. *)
Definition swap_all (j : list (list (AkshPolicy L) * Time)) (w : watcher) : watcher := fold_left (fun w x => compileAndSwap x.1 x.2 w) j w.
Definition follows (w : watcher) (e : E) (w' : watcher) (e' : E) : Prop := exists j, answers e j e' /\ w' = swap_all j w.

Lemma follows_refl w e : follows w e w e.
Proof. exists []. split; [constructor|done]. Qed.
Lemma follows_trans w e w1 e1 w2 e2 : follows w e w1 e1 -> follows w1 e1 w2 e2 -> follows w e w2 e2.
Proof. intros (j & Hj & ->) (k & Hk & ->). exists (j ++ k). split; [by eapply answers_app|]. unfold swap_all. by rewrite fold_left_app. Qed.
Lemma follows_before w e e1 w' e' : (forall j, answers e1 j e' -> answers e j e') -> follows w e1 w' e' -> follows w e w' e'.
Proof. intros H (j & Hj & ->). exists j. auto. Qed.

Lemma relist_follows w e w' e' r : relistAndSwap w e = (w', e', r) -> follows w e w' e'.
Proof.
  unfold relistAndSwap. destruct (list_policies e) as [e1 [[items rv]|err]] eqn:El.
  - destruct (read_now e1) as [now e2] eqn:En. intros [= <- <- _]. exists [(items, now)]. split; [|done]. eapply ans_list; [exact El|exact En|constructor].
  - intros [= <- <- _]. exists []. split; [|done]. eapply ans_failed; [exact El|constructor].
Qed.

(** Each loop is a sequence of relists and of calls that publish nothing. *)
Ltac loop_step :=
  match goal with
  | H : context [match relistAndSwap ?w ?e with _ => _ end] |- _ =>
      let Er := fresh "Er" in destruct (relistAndSwap w e) as [[? ?] [?|?]] eqn:Er; apply relist_follows in Er; (eapply follows_trans; [exact Er|clear Er])
  | H : context [match sleep ?d ?e with _ => _ end] |- _ =>
      let Es := fresh "Es" in destruct (sleep d e) as [? []] eqn:Es; (eapply follows_before; [intros ? ?; eapply answers_sleep; [exact Es|eassumption]|clear Es])
  | H : context [match next_event ?e with _ => _ end] |- _ =>
      let En := fresh "En" in destruct (next_event e) as [? []] eqn:En; (eapply follows_before; [intros ? ?; eapply ans_event; [exact En|eassumption]|clear En])
  end.
Ltac loop_done := simplify_eq; first [exact (follows_refl _ _)|eauto].

Lemma initialList_follows fuel w e w' e' rv : initialList fuel w e = Some (w', e', rv) -> follows w e w' e'.
Proof. revert w e. induction fuel as [|fuel IH]; intros w e H; [done|]. cbn [initialList] in H. repeat loop_step; loop_done. Qed.
Lemma reconnect_follows fuel b w e w' e' rv : reconnect_from fuel b w e = Some (w', e', rv) -> follows w e w' e'.
Proof. revert b w e. induction fuel as [|fuel IH]; intros b w e H; [done|]. cbn [reconnect_from] in H. repeat loop_step; loop_done. Qed.
Lemma consume_follows fuel rv w e w' e' rv' again : consume fuel rv w e = Some (w', e', rv', again) -> follows w e w' e'.
Proof. revert rv w e. induction fuel as [|fuel IH]; intros rv w e H; [done|]. cbn [consume] in H. repeat loop_step; loop_done. Qed.
Lemma watchLoop_follows fuel rv w e w' e' : watchLoop fuel rv w e = Some (w', e') -> follows w e w' e'.
Proof.
  revert rv w e. induction fuel as [|fuel IH]; intros rv w e H; [done|]. cbn [watchLoop] in H.
  destruct (ctx_done e); [loop_done|]. destruct (open_watch rv e) as [e1 [u|err]] eqn:Eo; (eapply follows_before; [intros ? ?; eapply ans_watch; [exact Eo|eassumption]|]).
  - destruct (consume fuel [] w e1) as [[[[w1 e2] rv1] again]|] eqn:Ec; [|done]. apply consume_follows in Ec. eapply follows_trans; [exact Ec|].
    destruct (ctx_done e2); [loop_done|]. cbv zeta in H. destruct again; [|by eapply IH].
    destruct (reconnect fuel w1 e2) as [[[w2 e3] rv2]|] eqn:Er; [|done]. apply reconnect_follows in Er. eapply follows_trans; [exact Er|].
    destruct (ctx_done e3); [loop_done|by eapply IH].
  - loop_step; [|loop_done]. destruct (reconnect fuel w _) as [[[w2 e3] rv2]|] eqn:Er; [|done].
    apply reconnect_follows in Er. eapply follows_trans; [exact Er|]. destruct (ctx_done e3); [loop_done|by eapply IH].
Qed.
Lemma run_follows fuel w e w' e' : run fuel w e = Some (w', e') -> follows w e w' e'.
Proof.
  unfold run. destruct (initialList fuel w e) as [[[w1 e1] [rv|]]|] eqn:Ei; [| |done]; apply initialList_follows in Ei; intros H; eapply follows_trans; try exact Ei;
    [by eapply watchLoop_follows|loop_done].
Qed.

(** A context that ends: each wait and each event of the watch is one of finitely many, and the channel of the context is ready only when it is done. *)
Record ending (life : E -> nat) : Prop := {
  end_list : forall e e' r, list_policies e = (e', r) -> (life e' <= life e)%nat;
  end_now : forall e t e', read_now e = (t, e') -> (life e' <= life e)%nat;
  end_open : forall rv e e' r, open_watch rv e = (e', r) -> (life e' <= life e)%nat;
  end_sleep : forall d e e', 0 < d -> sleep_for d e = (e', true) -> (life e' < life e)%nat;
  end_slept : forall d e e', sleep_for d e = (e', false) -> (life e' <= life e)%nat;
  end_event : forall e e' ev, next_event e = (e', ev) -> match ev with CtxDone => ctx_done e' = true | _ => (life e' < life e)%nat end
}.

Section Ends.
Context (life : E -> nat) (H : ending life).

Lemma relist_life w e w' e' r : relistAndSwap w e = (w', e', r) -> (life e' <= life e)%nat.
Proof using H.
  unfold relistAndSwap. destruct (list_policies e) as [e1 [[items rv]|err]] eqn:El; apply (end_list _ H) in El; [|by intros [= _ <- _]].
  destruct (read_now e1) as [now e2] eqn:En. apply (end_now _ H) in En. intros [= _ <- _]. lia.
Qed.
Lemma sleep_life d e e' ok : 0 < d -> sleep d e = (e', ok) -> (life e' + b2n ok <= life e)%nat.
Proof using H.
  intros Hd. unfold sleep. destruct (Z.leb_spec d 0); [lia|]. destruct ok; [intros ?%(end_sleep _ H); [cbn; lia|done]|intros ?%(end_slept _ H); cbn; lia].
Qed.
Lemma next_backoff_pos b : 0 < b -> 0 < next_backoff b.
Proof.
  unfold next_backoff, maxReconnectBackoff, Second, Millisecond, Microsecond. intros Hb. destruct (Z.ltb_spec b (30 * (1000 * (1000 * 1000)))); [|done].
  rewrite wrap64_id by (unfold in_int64; lia). case_match; lia.
Qed.

Lemma initialList_ends fuel : forall w e, (life e < fuel)%nat -> exists w' e' rv, initialList fuel w e = Some (w', e', rv) /\ (life e' <= life e)%nat.
Proof using H.
  induction fuel as [|fuel IH]; intros w e Hf; [lia|]. cbn [initialList]. destruct (relistAndSwap w e) as [[w1 e1] [rv|err]] eqn:Er; apply relist_life in Er; [by eauto|].
  destruct (sleep reconnectBackoff e1) as [e2 ok] eqn:Es. apply sleep_life in Es; [|done]. destruct ok; cbn in Es; [|do 3 eexists; split; [done|lia]].
  destruct (IH w1 e2) as (w' & e' & rv & Hr & Hl); [lia|]. exists w', e', rv. split; [done|lia].
Qed.
Lemma reconnect_ends fuel : forall b w e, 0 < b -> (life e < fuel)%nat -> exists w' e' rv, reconnect_from fuel b w e = Some (w', e', rv) /\ (life e' <= life e)%nat.
Proof using H.
  induction fuel as [|fuel IH]; intros b w e Hb Hf; [lia|]. cbn [reconnect_from]. destruct (relistAndSwap w e) as [[w1 e1] [rv|err]] eqn:Er; apply relist_life in Er; [by eauto|].
  destruct (sleep b e1) as [e2 ok] eqn:Es. apply sleep_life in Es; [|done]. destruct ok; cbn in Es; [|do 3 eexists; split; [done|lia]].
  destruct (IH (next_backoff b) w1 e2) as (w' & e' & rv & Hr & Hl); [by apply next_backoff_pos|lia|]. exists w', e', rv. split; [done|lia].
Qed.
Lemma consume_ends fuel : forall rv w e, (life e < fuel)%nat ->
  exists w' e' rv' again, consume fuel rv w e = Some (w', e', rv', again) /\ (ctx_done e' = true \/ (life e' < life e)%nat).
Proof using H.
  induction fuel as [|fuel IH]; intros rv w e Hf; [lia|]. cbn [consume]. destruct (next_event e) as [e1 ev] eqn:En. apply (end_event _ H) in En.
  destruct ev; cbn in En; try (do 4 eexists; split; [done|by auto]).
  destruct (relistAndSwap w e1) as [[w1 e2] [newRV|err]] eqn:Er; apply relist_life in Er; [|do 4 eexists; split; [done|right; lia]].
  destruct (IH newRV w1 e2) as (w' & e' & rv' & again & Hc & Hl); [lia|]. exists w', e', rv', again. split; [done|]. destruct Hl; [by left|right; lia].
Qed.
Lemma watchLoop_ends fuel : forall rv w e, (life e + 2 <= fuel)%nat -> exists w' e', watchLoop fuel rv w e = Some (w', e').
Proof using H.
  induction fuel as [|fuel IH]; intros rv w e Hf; [lia|]. cbn [watchLoop]. destruct (ctx_done e); [by eauto|].
  assert (forall w e1, (life e1 < life e)%nat -> exists w' e', match reconnect fuel w e1 with
      | None => None | Some (w, e, rv) => if ctx_done e then Some (w, e) else watchLoop fuel (default [] rv) w e end = Some (w', e')) as Hre.
  { intros w1 e1 Hl. destruct (reconnect_ends fuel reconnectBackoff w1 e1) as (w2 & e2 & rv2 & Hr & Hl2); [done|lia|]. unfold reconnect. rewrite Hr.
    destruct (ctx_done e2); [by eauto|]. apply IH. lia. }
  destruct (open_watch rv e) as [e1 [u|err]] eqn:Eo; apply (end_open _ H) in Eo.
  - destruct (consume_ends fuel [] w e1) as (w2 & e2 & rv2 & again & Hc & Hl); [lia|]. rewrite Hc. destruct (ctx_done e2) eqn:Ed; [by eauto|].
    destruct Hl as [?|Hl]; [done|]. cbv zeta. destruct again; [apply Hre; lia|apply IH; lia].
  - destruct (sleep reconnectBackoff e1) as [e2 ok] eqn:Es. apply sleep_life in Es; [|done]. destruct ok; cbn in Es; [apply Hre; lia|by eauto].
Qed.
Lemma run_ends fuel w e : (life e + 2 <= fuel)%nat -> exists w' e', run fuel w e = Some (w', e').
Proof using H.
  intros Hf. unfold run. destruct (initialList_ends fuel w e) as (w1 & e1 & rv & Hi & Hl); [lia|]. rewrite Hi. destruct rv as [rv|]; [|by eauto]. apply watchLoop_ends. lia.
Qed.
End Ends.

(** A list that compiles, once the policies that do not select the pod are left out. *)
Definition compiles (items : list (AkshPolicy L)) : Prop := exists snap, Compile (filter (fun p => selects p = true) items) = Ok snap.

(** The store after a sequence of answers: the last one that compiles, with its time, or what it was. *)
Lemma swap_all_spec j w : w_ready w = w_firstDone w ->
  (Forall (fun x => ~ compiles x.1) j /\ swap_all j w = w) \/
  (exists j1 items t j2 snap, j = j1 ++ (items, t) :: j2 /\ made_from items snap /\ Forall (fun x => ~ compiles x.1) j2 /\
     current (w_store (swap_all j w)) = Some {| snapshot := Some snap; updated := t |} /\ w_ready (swap_all j w) = true).
Proof.
  intros Hw. induction j as [|[items t] j IH] using rev_ind; [left; split; [constructor|done]|].
  unfold swap_all. rewrite fold_left_app. cbn [fold_left fst snd]. fold (swap_all j w). unfold compileAndSwap.
  destruct (Compile (filterByPodLabels items)) as [snap|err] eqn:Ec.
  - right. exists j, items, t, [], snap. split; [done|]. split; [done|]. split; [apply Forall_nil_2|]. unfold mark_ready.
    change (w_ready (set_store _ (swap_all j w))) with (w_ready (swap_all j w)). by destruct (w_ready (swap_all j w)) eqn:Ew.
  - assert (~ compiles items) as Hn by (intros [snap Hs]; rewrite <- filterByPodLabels_filter in Hs; congruence).
    destruct IH as [[Hf Hs]|(j1 & items' & t' & j2 & snap & -> & Hm & Hf & Hc & Hr)].
    + left. split; [apply Forall_app; split; [done|by apply Forall_singleton]|done].
    + right. exists j1, items', t', (j2 ++ [(items, t)]), snap. split_and!; [by rewrite <- app_assoc|done|apply Forall_app; split; [done|by apply Forall_singleton]|done|done].
Qed.

(** C31: the watcher publishes exactly what the API server lists for its pod.  From a new watcher with an empty store, [run] (the first list and the
    watch; the two tickers beside it are in [Relists]) returns if its context ends after finitely many waits and events.  Whatever the API server
    answers, at its return the lists that were answered, each with the time read after it, determine the store: if none of them compiles, it is not
    ready and the store is empty; otherwise it is ready and the store holds, with its time, the last one that compiles: its rules are the compiled
    rules of exactly the policies of that list that select the pod. *)
Theorem run_publishes_selected st w e :
  NewWatcher opts true (Some st) = Ok w -> current st = None ->
  (forall life, ending life -> exists w' e', run (life e + 2) w e = Some (w', e')) /\
  forall fuel w' e', run fuel w e = Some (w', e') -> exists j, answers e j e' /\
    ((Forall (fun x => ~ compiles x.1) j /\ w_ready w' = false /\ forall now, Current now (w_store w') = None) \/
     (exists j1 items t j2 snap, j = j1 ++ (items, t) :: j2 /\ Forall (fun x => ~ compiles x.1) j2 /\ w_ready w' = true /\
        (forall now, Current now (w_store w') = Some (snap, Sub now t)) /\
        forall r, r ∈ rules snap <-> exists p er, p ∈ items /\ selects p = true /\ er ∈ ap_Rules p /\ compile_rule (ap_Namespace p) (ap_Name p) er = Ok r)).
Proof.
  intros Hn Hst. assert (w_store w = st /\ w_ready w = false /\ w_firstDone w = false) as (Hws & Hwr & Hwf).
  { unfold NewWatcher in Hn. destruct (str_eqb _ _); [done|]. simpl in Hn. destruct (_ <=? _); by simplify_eq. }
  split; [intros life Hl; by eapply run_ends|]. intros fuel w' e' (j & Hj & ->)%run_follows. exists j. split; [done|].
  destruct (swap_all_spec j w) as [[Hf ->]|(j1 & items & t & j2 & snap & -> & Hm & Hf & Hc & Hr)]; [congruence|left|right].
  - split_and!; [done|done|]. intros now. unfold Current, load. by rewrite Hws, Hst.
  - exists j1, items, t, j2, snap. split_and!; [done|done|done| |by intros r; apply made_from_rules]. intros now. unfold Current, load. by rewrite Hc.
Qed.
End Published.

(** ** Surviving an outage *)

Section Outage.
Context {E : Type} `{WE : WatchWorld E}.

(** The number of failing lists left of an outage: a failing list followed by a sleep lowers it. *)
Definition outage_measure (outage : E -> nat) : Prop :=
  forall e e1 err d e2, list_policies e = (e1, Err err) -> sleep d e1 = (e2, true) -> (outage e2 < outage e)%nat.

Lemma reconnect_from_ends outage fuel b w e : outage_measure outage -> (outage e < fuel)%nat ->
  exists w' e' r, reconnect_from fuel b w e = Some (w', e', r) /\
    match r with
    | Some rv => exists e1 e2 items now, list_policies e1 = (e2, Ok (items, rv)) /\ read_now e2 = (now, e') /\ w' = compileAndSwap items now w
    | None => w' = w
    end.
Proof.
  intros Ho. revert b e. induction fuel as [|fuel IH]; intros b e Hf; [lia|]. cbn [reconnect_from]. unfold relistAndSwap.
  destruct (list_policies e) as [e1 [[items rv]|err]] eqn:El.
  - destruct (read_now e1) as [now e2] eqn:En. do 2 eexists. exists (Some rv). split; [done|]. eauto 10.
  - destruct (sleep b e1) as [e2 []] eqn:Es; [|do 2 eexists; by exists None]. apply IH. specialize (Ho _ _ _ _ _ El Es). lia.
Qed.

(** A reconnect outlives every finite outage.  If after each failing list and its
    sleep fewer failures lie ahead, [reconnect] returns within one more iteration than
    there are failures; unless the context was cancelled it returns the resource
    version of a list that succeeded, and the only change to the watcher is the
    publication of that list: the last good snapshot is kept until then. *)
Theorem reconnect_survives_outage outage w e : outage_measure outage ->
  exists w' e' r, reconnect (S (outage e)) w e = Some (w', e', r) /\
    match r with
    | Some rv => exists e1 e2 items now, list_policies e1 = (e2, Ok (items, rv)) /\ read_now e2 = (now, e') /\ w' = compileAndSwap items now w
    | None => w' = w
    end.
Proof. intros Ho. by apply reconnect_from_ends with outage; [|lia]. Qed.
End Outage.

(** ** Staleness *)

(** The monitor's notion of staleness is the one of the request path. *)
Lemma observe_is_Fresh now w : w_lastStale (observeStaleness now w) = bool_decide (Fresh now (o_MaxStaleness opts) (w_store w) = None).
Proof.
  unfold observeStaleness, Fresh, Current. cbn [w_lastStale]. destruct (load now (w_store w)) as [[snap age]|]; [|done]. by destruct (_ || _).
Qed.

(** A run of the monitor: at each tick the store may have changed. *)
Definition monitor (w : watcher) (ticks : list (Store * Time)) : watcher :=
  fold_left (fun w t => observeStaleness t.2 (set_store t.1 w)) ticks w.

(** The number of changes from false to true in a sequence after [prev]. *)
Fixpoint rises (prev : bool) (l : list bool) : nat :=
  match l with [] => 0 | b :: l => b2n (b && negb prev) + rises b l end.

(** The stale-deny metric counts the transitions of the request path's deny boundary: after
    any sequence of ticks it has grown by the number of times [Fresh] went from a
    snapshot to none. *)
Lemma monitor_counts_transitions w ticks :
  w_staleDenies (monitor w ticks) =
  (w_staleDenies w + rises (w_lastStale w) (map (fun t => bool_decide (Fresh t.2 (o_MaxStaleness opts) t.1 = None)) ticks))%nat.
Proof.
  revert w. induction ticks as [|t ticks IH]; intros w; [simpl; lia|]. cbn [monitor fold_left map rises].
  fold (monitor (observeStaleness t.2 (set_store t.1 w)) ticks). rewrite IH, !observe_is_Fresh. cbn [set_store w_store].
  assert (Hs := observe_is_Fresh t.2 (set_store t.1 w)). cbn [set_store w_store] in Hs.
  unfold observeStaleness in Hs |- *. cbn [w_lastStale w_staleDenies set_store w_store] in *.
  rewrite Hs. case_bool_decide; destruct (w_lastStale w); simpl; lia.
Qed.
End Watcher.

(** ** Intervals and back-off *)

(** The [n]th wait of a reconnect. *)
Fixpoint nth_backoff (n : nat) : Duration :=
  match n with O => reconnectBackoff | S n => next_backoff (nth_backoff n) end.

(** The waits double from 50 ms and stop growing at 30 s; no product overflows. *)
Lemma nth_backoff_spec n : nth_backoff n = Z.min maxReconnectBackoff (reconnectBackoff * 2 ^ Z.of_nat n).
Proof.
  induction n as [|n IH]; [done|]. cbn [nth_backoff]. rewrite IH, Nat2Z.inj_succ, Z.pow_succ_r by lia. unfold next_backoff.
  assert (0 < 2 ^ Z.of_nat n) by (apply Z.pow_pos_nonneg; lia). set (x := 2 ^ Z.of_nat n) in *.
  unfold maxReconnectBackoff, reconnectBackoff, Second, Millisecond, Microsecond in *.
  destruct (Z.ltb_spec (Z.min (30 * (1000 * (1000 * 1000))) (50 * (1000 * 1000) * x)) (30 * (1000 * (1000 * 1000)))); [|lia].
  rewrite wrap64_id by (unfold in_int64; lia). case_match; lia.
Qed.

Lemma resyncInterval_spec opts : 0 < o_MaxStaleness opts ->
  0 < resyncInterval opts <= o_MaxStaleness opts /\ (3 <= o_MaxStaleness opts -> resyncInterval opts < o_MaxStaleness opts) /\
  (3 <= o_MaxStaleness opts -> o_ResyncPeriod opts <= 0 -> 3 * resyncInterval opts <= o_MaxStaleness opts).
Proof.
  intros H. unfold resyncInterval, defaultResyncDivisor. cbv zeta. rewrite Z.quot_div_nonneg by lia.
  assert (Hd := Z.div_mod (o_MaxStaleness opts) 3 ltac:(lia)). assert (Hm := Z.mod_pos_bound (o_MaxStaleness opts) 3 ltac:(lia)).
  destruct (Z.leb_spec (o_MaxStaleness opts / 3) 0), (Z.leb_spec (o_ResyncPeriod opts) 0), (Z.leb_spec (o_MaxStaleness opts) (o_ResyncPeriod opts)); lia.
Qed.

(** ** The periodic resynchronisation keeps the snapshot fresh *)

Section Schedule.
Context (opts : Options) (t0 : Time) (pubs : nat -> option (compiledSnapshot * Time)).

(** Tick [k] of [resyncLoop] is at [t0 + k * interval]; [pubs k] is what its relist published,
    nothing when it failed.  A relist ends before the next tick, the first one succeeded,
    and no two in a row fail. *)
Definition on_schedule : Prop :=
  (forall k s p, pubs k = Some (s, p) -> t0 + Z.of_nat k * resyncInterval opts <= p < t0 + (Z.of_nat k + 1) * resyncInterval opts) /\
  pubs 0 <> None /\ forall k, pubs k = None -> pubs (S k) <> None.

(** The publications of the first [n] ticks that have happened by [now]. *)
Definition published_at (n : nat) (now : Time) : list (option compiledSnapshot * Time) :=
  omap (fun k => match pubs k with Some (s, p) => if p <=? now then Some (Some s, p) else None | None => None end) (seq 0 n).

Lemma last_publication n now s0 p0 : pubs 0 = Some (s0, p0) -> p0 <= now -> (0 < n)%nat ->
  exists m s p, (m < n)%nat /\ pubs m = Some (s, p) /\ p <= now /\ last_published (published_at n now) = Some (s, p) /\
    forall j s' p', (m < j < n)%nat -> pubs j = Some (s', p') -> now < p'.
Proof.
  intros H0 Hp. induction n as [|n IH]; [lia|]. intros _. destruct (decide (n = 0%nat)) as [->|Hn].
  - exists 0%nat, s0, p0. split_and!; [lia|done|done| |lia]. unfold published_at. cbn. rewrite H0. by destruct (Z.leb_spec p0 now); [|lia].
  - destruct IH as (m & s & p & Hm & Hpm & Hle & Hl & Hafter); [lia|].
    assert (Hstep : published_at (S n) now = published_at n now ++
      match pubs n with Some (s, p) => if p <=? now then [(Some s, p)] else [] | None => [] end).
    { unfold published_at. rewrite seq_S, omap_app. cbn. destruct (pubs n) as [[s' p']|]; [by destruct (p' <=? now)|done]. }
    rewrite Hstep. destruct (pubs n) as [[s' p']|] eqn:Epn; [destruct (Z.leb_spec p' now) as [Hpn|Hpn]|].
    + exists n, s', p'. split_and!; [lia|done|done| |lia]. unfold last_published. rewrite omap_app. cbn. by rewrite last_snoc.
    + exists m, s, p. rewrite app_nil_r. split_and!; [lia|done..|]. intros j s1 p1 Hj Hpj.
      destruct (decide (j = n)) as [->|]; [|apply (Hafter j s1 p1); [lia|done]]. congruence.
    + exists m, s, p. rewrite app_nil_r. split_and!; [lia|done..|]. intros j s1 p1 Hj Hpj.
      destruct (decide (j = n)) as [->|]; [congruence|]. apply (Hafter j s1 p1); [lia|done].
Qed.

(** With the derived resync period a snapshot never goes stale for want of edits.  If
    relists end within one interval and no two in a row fail, then from the first
    publication on the request path finds a fresh snapshot at every instant: a single
    failed relist cannot push it past the deny-all boundary. *)
Theorem resync_keeps_fresh n now s0 p0 :
  3 <= o_MaxStaleness opts -> o_ResyncPeriod opts <= 0 -> on_schedule -> pubs 0 = Some (s0, p0) ->
  p0 <= now < t0 + Z.of_nat n * resyncInterval opts ->
  is_Some (Fresh now (o_MaxStaleness opts) (swaps (published_at n now))).
Proof.
  intros HM HR (Hw & _ & Hnext) H0 [Hp Hn]. destruct (resyncInterval_spec opts) as ((Hi & _) & _ & H3); [lia|].
  specialize (H3 HM HR). set (I := resyncInterval opts) in *. assert (Hw0 := Hw _ _ _ H0).
  destruct (decide (n = 0%nat)) as [->|Hn0]; [lia|]. destruct (last_publication n now s0 p0 H0 Hp) as (m & s & p & Hm & Hpm & Hle & Hl & Hafter); [lia|].
  assert (Hage : now - p < 3 * I).
  { assert (Hwm := Hw _ _ _ Hpm). destruct (decide (n <= S m)%nat); [nia|].
    destruct (pubs (S m)) as [[s1 p1]|] eqn:E1; [assert (H1 := Hafter (S m) _ _ ltac:(lia) E1); assert (Hw1 := Hw _ _ _ E1); nia|].
    destruct (decide (n <= S (S m))%nat); [nia|]. destruct (pubs (S (S m))) as [[s2 p2]|] eqn:E2; [|by apply Hnext in E1].
    assert (H2 := Hafter (S (S m)) _ _ ltac:(lia) E2). assert (Hw2 := Hw _ _ _ E2). nia. }
  unfold Fresh. rewrite load_swaps, Hl. cbn [fmap option_fmap option_map fst snd].
  assert (Hs : 0 <= Sub now p < o_MaxStaleness opts) by (unfold Sub; lia).
  destruct (Z.ltb_spec (Sub now p) 0), (Z.leb_spec (o_MaxStaleness opts) (Sub now p)); simpl; try lia. by eexists.
Qed.
End Schedule.

(** ** Concurrent relists

    The watch loop and [resyncLoop] both call [relistAndSwap], which holds [relistMu] around
    the list and the publication.  A task is one of the goroutines; the API server goes
    through the revisions [history 0], [history 1], ... and answers a list with the one that
    is current. *)
Module Relists.
Section Relists.
Context {L : Type} `{U : Unicode} `{SH : Sha256} `{SO : SortSlice}.
Context (opts : Options) (selector : L -> option (gmap gostring gostring -> bool)) (history : nat -> list (AkshPolicy L)).

Record state := {
  st_rev : nat;                       (* the revision of the API server *)
  st_now : Time;
  st_lock : option (nat * option nat);(* the holder of relistMu and the revision it has listed *)
  st_watcher : watcher;
  st_published : list (nat * Time)    (* the revisions published, oldest first, with the time *)
}.

Inductive step : state -> state -> Prop :=
| edit s : step s {| st_rev := S (st_rev s); st_now := st_now s; st_lock := st_lock s; st_watcher := st_watcher s; st_published := st_published s |}
| tick s now' : st_now s <= now' ->
    step s {| st_rev := st_rev s; st_now := now'; st_lock := st_lock s; st_watcher := st_watcher s; st_published := st_published s |}
| lock s task : st_lock s = None ->
    step s {| st_rev := st_rev s; st_now := st_now s; st_lock := Some (task, None); st_watcher := st_watcher s; st_published := st_published s |}
| list_fails s task : st_lock s = Some (task, None) ->
    step s {| st_rev := st_rev s; st_now := st_now s; st_lock := None; st_watcher := st_watcher s; st_published := st_published s |}
| list_answers s task : st_lock s = Some (task, None) ->
    step s {| st_rev := st_rev s; st_now := st_now s; st_lock := Some (task, Some (st_rev s)); st_watcher := st_watcher s; st_published := st_published s |}
| publish s task r : st_lock s = Some (task, Some r) ->
    step s {| st_rev := st_rev s; st_now := st_now s; st_lock := None;
              st_watcher := compileAndSwap opts selector (history r) (st_now s) (st_watcher s);
              st_published := match Compile (filterByPodLabels opts selector (history r)) with
                              | Ok _ => st_published s ++ [(r, st_now s)]
                              | Err _ => st_published s
                              end |}
| observe s :
    step s {| st_rev := st_rev s; st_now := st_now s; st_lock := st_lock s;
              st_watcher := observeStaleness opts (st_now s) (st_watcher s); st_published := st_published s |}.

Definition initial (s : state) : Prop :=
  st_lock s = None /\ current (w_store (st_watcher s)) = None /\ st_published s = [] /\
  w_ready (st_watcher s) = false /\ w_firstDone (st_watcher s) = false.

(** Neither the revision nor the time goes back. *)
Definition later (x y : nat * Time) : Prop := (x.1 <= y.1)%nat /\ x.2 <= y.2.

Record inv (s : state) : Prop := {
  inv_sorted : StronglySorted later (st_published s);
  inv_past : Forall (fun x => later x (st_rev s, st_now s)) (st_published s);
  inv_listed : forall task r, st_lock s = Some (task, Some r) -> (r <= st_rev s)%nat /\ Forall (fun x => x.1 <= r)%nat (st_published s);
  inv_store : match last (st_published s) with
              | None => current (w_store (st_watcher s)) = None
              | Some (r, t) => exists snap, made_from opts selector (history r) snap /\
                                 current (w_store (st_watcher s)) = Some {| snapshot := Some snap; updated := t |}
              end;
  inv_ready : w_ready (st_watcher s) = negb (length (st_published s) =? 0)%nat
}.

Lemma relists_initial_inv s : initial s -> inv s.
Proof. intros (Hl & Hc & Hp & Hr & _). constructor; rewrite ?Hp; try done; [constructor|]. intros. congruence. Qed.

Lemma StronglySorted_snoc (l : list (nat * Time)) x : StronglySorted later l -> Forall (fun y => later y x) l -> StronglySorted later (l ++ [x]).
Proof.
  induction 1 as [|y l Hs IH Hy]; intros Hr; simpl; [by repeat constructor|]. inversion_clear Hr.
  constructor; [auto|]. apply Forall_app. split; [done|]. by constructor.
Qed.

Lemma publish_inv s r : inv s -> (r <= st_rev s)%nat -> Forall (fun x => x.1 <= r)%nat (st_published s) ->
  inv {| st_rev := st_rev s; st_now := st_now s; st_lock := None;
         st_watcher := compileAndSwap opts selector (history r) (st_now s) (st_watcher s);
         st_published := match Compile (filterByPodLabels opts selector (history r)) with
                         | Ok _ => st_published s ++ [(r, st_now s)]
                         | Err _ => st_published s
                         end |}.
Proof.
  intros [Hs Hp Hl Hst Hr] Hle Hall. unfold compileAndSwap. destruct (Compile _) as [snap|] eqn:Ec; [|by constructor].
  constructor; cbn [st_published st_rev st_now st_lock st_watcher]; try done.
  - apply StronglySorted_snoc; [done|]. rewrite Forall_forall in Hp, Hall |- *. intros x Hx. destruct (Hp x Hx). split; cbn in *; [by apply Hall|done].
  - apply Forall_app. split; [done|]. constructor; [|constructor]. split; cbn; [done|lia].
  - rewrite last_snoc. exists snap. split; [done|]. unfold mark_ready. by destruct (w_ready _).
  - rewrite length_app, Nat.add_comm. cbn. unfold mark_ready. by destruct (w_ready (set_store _ _)) eqn:E.
Qed.

Lemma relist_step_inv s s' : inv s -> step s s' -> inv s'.
Proof.
  intros Hi Hstep. destruct Hstep as [s|s now' Hnow|s task Hl|s task Hl|s task Hl|s task r Hl|s].
  6: { apply publish_inv; [done|..]; by destruct (inv_listed _ Hi _ _ Hl). }
  all: destruct Hi as [Hs Hp Hli Hst Hr]; constructor; cbn [st_published st_rev st_now st_lock st_watcher]; try done.
  - eapply Forall_impl; [exact Hp|]. intros x [? ?]. split; cbn in *; lia.
  - intros task r H. destruct (Hli _ _ H). split; [lia|done].
  - eapply Forall_impl; [exact Hp|]. intros x [? ?]. split; cbn in *; lia.
  - intros task' r [= <- <-]. split; [done|]. eapply Forall_impl; [exact Hp|]. by intros x [? ?].
Qed.

(** C32: concurrent relists publish in order.  In every interleaving of the watch loop, the
    periodic resync, the staleness monitor and edits on the API server, the revisions
    that have been published and the times at which they were never go back; the store holds the
    compilation of the last one published, and its age is counted from exactly the moment of that
    publication; and the watcher is ready exactly when something was published.  Failed lists and
    failed compilations change nothing. *)
Theorem published_in_order s s' : initial s -> rtc step s s' ->
  StronglySorted later (st_published s') /\ Forall (fun x => later x (st_rev s', st_now s')) (st_published s') /\
  w_ready (st_watcher s') = negb (length (st_published s') =? 0)%nat /\
  match last (st_published s') with
  | None => forall now, Current now (w_store (st_watcher s')) = None
  | Some (r, t) => exists snap, made_from opts selector (history r) snap /\
                     forall now, Current now (w_store (st_watcher s')) = Some (snap, Sub now t)
  end.
Proof.
  intros H0%relists_initial_inv Hs. assert (Hi : inv s') by (induction Hs; eauto using relist_step_inv).
  destruct Hi as [Hso Hp _ Hst Hr]. split_and!; [done..|]. destruct (last (st_published s')) as [[r t]|].
  - destruct Hst as (snap & Hm & Hc). exists snap. split; [done|]. intros now. unfold Current, load. by rewrite Hc.
  - intros now. unfold Current, load. by rewrite Hst.
Qed.
End Relists.
End Relists.

(** ** Concrete parameters *)

Definition example_opts : Options :=
  {| o_Namespace := "team-a"; o_PodLabels := {[bs "app" := bs "agent"]}; o_MaxStaleness := 60 * Second; o_ResyncPeriod := 0 |}.
Definition example_selector (_ : unit) : option (gmap gostring gostring -> bool) :=
  Some (fun labels => bool_decide (labels !! bs "app" = Some (bs "agent"))).

(** An API server that fails [sim_failures] lists; the context ends after [sim_events] waits and events. *)
Record sim := { sim_failures : nat; sim_events : nat }.
#[local] Instance sim_world : WatchWorld sim := {|
  list_policies e := match sim_failures e with
                     | O => (e, Ok (sample_policies, bs "7"))
                     | S f => ({| sim_failures := f; sim_events := sim_events e |}, Err (Errorf "unavailable"))
                     end;
  open_watch _ e := (e, Ok tt);
  next_event e := match sim_events e with
                  | O => (e, CtxDone)
                  | S n => ({| sim_failures := sim_failures e; sim_events := n |}, ObjectEvent)
                  end;
  sleep_for _ e := match sim_events e with O => (e, false) | S n => ({| sim_failures := sim_failures e; sim_events := n |}, true) end;
  ctx_done e := (sim_events e =? 0)%nat;
  read_now e := (0, e)
|}.
#[local] Existing Instance ascii_only.
#[local] Existing Instance sha_id.
#[local] Existing Instance merge_sort_slice.

Definition new_watcher : watcher :=
  {| w_store := new_store; w_firstDone := false; w_ready := false; w_lastStale := false; w_fatal := false; w_staleDenies := 0 |}.
Definition sim_result : watcher := compileAndSwap example_opts example_selector sample_policies 0 new_watcher.

Lemma sim_ends : ending (fun e => sim_failures e + sim_events e)%nat.
Proof.
  split; cbn.
  - intros [[|f] n] e' r [= <- _]; cbn; lia.
  - by intros e t e' [= _ <-].
  - by intros rv e e' r [= <- _].
  - intros d [f n] e' _. cbn. destruct n as [|n]; [done|]. intros [= <-]. cbn. lia.
  - intros d [f n] e'. cbn. destruct n as [|n]; [by intros [= <-]|done].
  - intros [f [|n]] e' ev [= <- <-]; cbn; [done|lia].
Qed.
Lemma run_publishes_selected_witness : (exists w' e', run example_opts example_selector 14 new_watcher {| sim_failures := 3; sim_events := 9 |} = Some (w', e')) /\
  exists j e', answers {| sim_failures := 3; sim_events := 9 |} j e' /\ ~ Forall (fun x => ~ compiles example_opts example_selector x.1) j.
Proof.
  destruct (run_publishes_selected example_opts example_selector new_store new_watcher {| sim_failures := 3; sim_events := 9 |} eq_refl eq_refl) as [Hend Hrun].
  split; [exact (Hend _ sim_ends)|]. destruct (Hend _ sim_ends) as (w' & e' & Hr). destruct (Hrun _ _ _ Hr) as (j & Hj & H). exists j, e'. split; [exact Hj|].
  intros Hf. assert (w_ready w' = true) as Hw by (vm_compute in Hr; injection Hr as <- _; reflexivity).
  destruct H as [(_ & H & _)|(j1 & items & t & j2 & snap & -> & _ & _ & Hc & Hrules)]; [congruence|].
  apply Forall_app in Hf as [_ Hf]. inversion Hf as [|? ? Hx _]. apply Hx. cbn [fst].
  assert (items = sample_policies) as ->; [|eexists; vm_compute; reflexivity].
  clear -Hj. remember {| sim_failures := 3; sim_events := 9 |} as e eqn:He. clear He. remember (j1 ++ (items, t) :: j2) as j eqn:Ej. revert j1 Ej.
  induction Hj as [|e e1 e2 e' items' rv now j Hl Hn Hj IH| | | |]; intros j1 Ej; eauto; [by destruct j1|].
  destruct j1 as [|x j1]; cbn in Ej; simplify_eq; [|by eapply IH]. cbn in Hl. destruct (sim_failures e); by simplify_eq.
Defined.

Lemma reconnect_survives_outage_witness : exists w' e' r,
  reconnect example_opts example_selector 4 new_watcher {| sim_failures := 3; sim_events := 2 |} = Some (w', e', r).
Proof.
  destruct (reconnect_survives_outage example_opts example_selector sim_failures new_watcher {| sim_failures := 3; sim_events := 2 |})
    as (w' & e' & r & H & _); [|by exists w', e', r].
  intros [f n] e1 err d e2. cbn. destruct f as [|f]; [done|]. intros [= <- _]. unfold sleep. cbn.
  destruct (d <=? 0), n; cbn; intros [=]; subst; simpl; lia.
Defined.

Definition example_pubs (k : nat) : option (compiledSnapshot * Time) :=
  if Nat.odd k then None else Some (sample_snapshot, Z.of_nat k * (20 * Second)).

Lemma resync_keeps_fresh_witness :
  is_Some (Fresh (59 * Second) (60 * Second) (swaps (published_at example_pubs 3 (59 * Second)))).
Proof.
  apply (resync_keeps_fresh example_opts 0 example_pubs 3 (59 * Second) sample_snapshot 0); try done.
  - unfold on_schedule. change (resyncInterval example_opts) with (20 * Second). unfold example_pubs. split_and!; [|done|].
    + intros k s p. destruct (Nat.odd k); [done|]. intros [= _ <-]. unfold Second, Millisecond, Microsecond. lia.
    + intros k. rewrite Nat.odd_succ, <- Nat.negb_odd. by destruct (Nat.odd k).
Defined.

Definition sim_state : Relists.state :=
  {| Relists.st_rev := 0; Relists.st_now := 0; Relists.st_lock := None; Relists.st_watcher := new_watcher; Relists.st_published := [] |}.
Definition sim_state' : Relists.state :=
  {| Relists.st_rev := 1; Relists.st_now := 0; Relists.st_lock := None; Relists.st_watcher := sim_result; Relists.st_published := [(0%nat, 0)] |}.

Lemma published_in_order_witness : StronglySorted Relists.later (Relists.st_published sim_state').
Proof.
  refine (proj1 (Relists.published_in_order example_opts example_selector (fun _ => sample_policies) sim_state sim_state' _ _)); [by vm_compute|].
  eapply rtc_l; [by apply (Relists.lock _ _ _ _ 1)|]. eapply rtc_l; [by apply (Relists.list_answers _ _ _ _ 1)|].
  eapply rtc_l; [apply Relists.edit|]. eapply rtc_l; [by apply (Relists.publish _ _ _ _ 1 0)|]. match goal with |- rtc _ ?a ?b => replace a with b by by vm_compute end. apply rtc_refl.
Defined.
