(* ===== verification/GoParse.v ===== *)
(** * Parsers of the standard library that the configuration reads values with

    [strconv.ParseBool] and [strconv.ParseUint], [time.ParseDuration] with its binary64
    fractions, and the values of [netip.ParseAddr], [netip.ParseAddrPort] and
    [netip.ParsePrefix] ([GoStrings.ParseAddr] decides only the family of a literal).

    An IPv6 zone is not kept in the address: the program compares and stores addresses
    after [Unmap] or as IPv4, and [ParsePrefix] refuses a zone before it matters. *)

From Stdlib Require Import SpecFloat.
From S2P Require Import Prelude GoStrings GoRuntime Compile Match Credential Decision Metrics Upstream Capture.
#[local] Open Scope Z_scope.

(** ** [strconv] *)

Definition ParseBool (s : gostring) : option bool :=
  if existsb (str_eqb s) [bs "1"; bs "t"; bs "T"; bs "true"; bs "TRUE"; bs "True"] then Some true
  else if existsb (str_eqb s) [bs "0"; bs "f"; bs "F"; bs "false"; bs "FALSE"; bs "False"] then Some false
  else None.

(** [strconv.ParseUint(s, 10, bits)]. *)
Definition ParseUint (s : gostring) (bits : Z) : option Z :=
  match s with
  | [] => None
  | _ => match digits_value 0 s with Some v => if v <? 2 ^ bits then Some v else None | None => None end
  end.

(** ** [time.ParseDuration] *)

(** [leadingInt]: the decimal prefix and the rest; [None] on overflow of [1<<63]. *)
Fixpoint leadingInt (x : Z) (s : gostring) : option (Z * gostring) :=
  match s with
  | c :: s' =>
      if is_digit c then
        if 2 ^ 63 / 10 <? x then None
        else let x := x * 10 + (code c - 48) in if 2 ^ 63 <? x then None else leadingInt x s'
      else Some (x, s)
  | [] => Some (x, s)
  end.

(** Binary64 arithmetic, rounding to nearest even. *)
Definition float64 (n : Z) : spec_float := binary_normalize 53 1024 n 0 false.
Definition fmul := SFmul 53 1024.
Definition fdiv := SFdiv 53 1024.
(** Conversion of a non-negative float to an integer truncates. *)
Definition float_trunc (f : spec_float) : Z :=
  match f with
  | S754_finite false m e => if 0 <=? e then Z.pos m * 2 ^ e else Z.pos m / 2 ^ (- e)
  | _ => 0
  end.

(** [leadingFraction]: digits that would overflow are read and ignored. *)
Fixpoint leadingFraction (x : Z) (scale : spec_float) (overflow : bool) (s : gostring) : Z * spec_float * gostring :=
  match s with
  | c :: s' =>
      if is_digit c then
        if overflow then leadingFraction x scale true s'
        else if (2 ^ 63 - 1) / 10 <? x then leadingFraction x scale true s'
        else
          let y := x * 10 + (code c - 48) in
          if 2 ^ 63 <? y then leadingFraction x scale true s'
          else leadingFraction y (fmul scale (float64 10)) false s'
      else (x, scale, s)
  | [] => (x, scale, s)
  end.

Definition unitMap : list (gostring * Z) :=
  [(bs "ns", 1); (bs "us", Microsecond); (["194"%char; "181"%char; "s"%char], Microsecond);
   (["206"%char; "188"%char; "s"%char], Microsecond); (bs "ms", Millisecond); (bs "s", Second); (bs "m", Minute); (bs "h", 60 * Minute)].
Definition unit_of (u : gostring) : option Z := snd <$> List.find (fun p => str_eqb (fst p) u) unitMap.

(** The unit runs to the next period or digit. *)
Definition starts_number (c : ascii) : bool := ascii_eqb c "." || is_digit c.
Fixpoint unit_prefix (s : gostring) : gostring * gostring :=
  match s with
  | c :: s' => if starts_number c then ([], s) else let '(u, r) := unit_prefix s' in (c :: u, r)
  | [] => ([], [])
  end.

(** One element [number unit]: its nanoseconds and the rest. *)
Definition duration_element (s : gostring) : option (Z * gostring) :=
  match s with
  | [] => None
  | c :: _ =>
      if negb (starts_number c) then None
      else
        '(v, s1) ← leadingInt 0 s;
        let pre := negb (length s1 =? length s)%nat in
        let '(f, scale, s2, post) :=
          match s1 with
          | "."%char :: s1' => let '(f, scale, s2) := leadingFraction 0 (float64 1) false s1' in
                               (f, scale, s2, negb (length s2 =? length s1')%nat)
          | _ => (0, float64 1, s1, false)
          end in
        if negb pre && negb post then None
        else
          let '(u, s3) := unit_prefix s2 in
          if bool_decide (u = []) then None
          else
            unit ← unit_of u;
            if 2 ^ 63 / unit <? v then None
            else
              let v := v * unit in
              if 0 <? f then
                let v := v + float_trunc (fmul (float64 f) (fdiv (float64 unit) scale)) in
                if 2 ^ 63 <? v then None else Some (v, s3)
              else Some (v, s3)
  end.

(** The loop over the elements; every one consumes at least two bytes. *)
Fixpoint duration_elements (fuel : nat) (d : Z) (s : gostring) : option Z :=
  match s, fuel with
  | [], _ => Some d
  | _, O => None
  | _, S fuel =>
      '(v, s') ← duration_element s;
      let d := d + v in
      if 2 ^ 63 <? d then None else duration_elements fuel d s'
  end.

Definition ParseDuration (s : gostring) : option Duration :=
  let '(neg, s) := match s with
                   | "-"%char :: s' => (true, s')
                   | "+"%char :: s' => (false, s')
                   | _ => (false, s) end in
  if str_eqb s "0" then Some 0
  else if str_eqb s "" then None
  else
    d ← duration_elements (length s) 0 s;
    if neg : bool then Some (- d)
    else if 2 ^ 63 - 1 <? d then None else Some d.

Example ParseDuration_examples :
  map ParseDuration [bs "300s"; bs "45s"; bs "1h15m30.918273645s"; bs "-1.5h"; bs "0"; bs "1"; bs ".s"; bs "3000000h"; bs "1.1us"; bs ""]
  = [Some 300000000000; Some 45000000000; Some 4530918273645; Some (-5400000000000); Some 0; None; None; None; Some 1100; None].
Proof. vm_compute. reflexivity. Qed.

(** ** [netip] *)

(** [parseIPv4Fields] with the address built from its fields. *)
Fixpoint ipv4_value (s : gostring) (acc val digLen pos : Z) (first : bool) : option Z :=
  match s with
  | [] => if pos <? 3 then None else Some (acc * 256 + val)
  | c :: s' =>
      if is_digit c then
        if (digLen =? 1) && (val =? 0) then None
        else
          let v := val * 10 + (code c - 48) in
          if 255 <? v then None else ipv4_value s' acc v (digLen + 1) pos false
      else if ascii_eqb c "." then
        if first || bool_decide (s' = []) then None
        else if pos =? 3 then None
        else ipv4_value s' (acc * 256 + val) 0 0 (pos + 1) true
      else None
  end.
Definition parseIPv4 (s : gostring) : option Z := ipv4_value s 0 0 0 0 true.

Fixpoint hex_number (acc : Z) (s : gostring) : Z :=
  match s with
  | c :: s' => match hex_value c with Some d => hex_number (acc * 16 + d) s' | None => acc end
  | [] => acc
  end.

(** The groups filled and where the ellipsis was; [n] groups remain to fill. *)
Fixpoint ipv6_walk (n : nat) (s : gostring) (acc : list Z) (ell : option nat) : option (list Z * option nat) :=
  match n with
  | O => if bool_decide (s = []) then Some (acc, ell) else None
  | S n' =>
      match hex_group s 0 with
      | None | Some (O, _) => None
      | Some (_, rest) =>
          match rest with
          | "."%char :: _ =>
              if bool_decide (ell = None) && negb (n =? 2)%nat then None
              else if (n <? 2)%nat then None
              else v ← parseIPv4 s; Some (acc ++ [v / 2 ^ 16; v mod 2 ^ 16], ell)
          | _ =>
              let acc := acc ++ [hex_number 0 s] in
              match rest with
              | [] => Some (acc, ell)
              | c :: more =>
                  if negb (ascii_eqb c ":") then None
                  else match more with
                       | [] => None
                       | d :: more' =>
                           if ascii_eqb d ":" then
                             if bool_decide (ell <> None) then None
                             else if bool_decide (more' = []) then Some (acc, Some (length acc))
                             else ipv6_walk n' more' acc (Some (length acc))
                           else ipv6_walk n' more acc ell
                       end
              end
          end
      end
  end.

(** The zero bytes of the ellipsis are inserted where it stood. *)
Definition expand_ellipsis (r : list Z * option nat) : option (list Z) :=
  let '(groups, ell) := r in
  if (length groups <? 8)%nat then
    k ← ell; Some (take k groups ++ replicate (8 - length groups) 0 ++ drop k groups)
  else if bool_decide (ell <> None) then None else Some groups.
Definition ipv6_groups_value (g : list Z) : Z := fold_left (fun acc x => acc * 2 ^ 16 + x) g 0.

Definition parseIPv6 (s : gostring) : option Z :=
  let r := match s with
           | ":"%char :: ":"%char :: rest =>
               if bool_decide (rest = []) then Some ([], Some O) else ipv6_walk 8 rest [] (Some O)
           | _ => ipv6_walk 8 s [] None
           end in
  ipv6_groups_value <$> (r ≫= expand_ellipsis).

(** The address and whether it has a zone. *)
Definition ParseAddr_value (s : gostring) : option (Addr * bool) :=
  match List.find (fun c => ascii_eqb c "." || ascii_eqb c ":" || ascii_eqb c "%") s with
  | Some "."%char => (fun v => (Addr4 v, false)) <$> parseIPv4 s
  | Some ":"%char =>
      match IndexByte s "%" with
      | None => (fun v => (Addr6 v, false)) <$> parseIPv6 s
      | Some i => if bool_decide (drop (i + 1) s = []) then None else (fun v => (Addr6 v, true)) <$> parseIPv6 (take i s)
      end
  | _ => None
  end.

(** [splitAddrPort]: address, port and whether the address was bracketed. *)
Definition splitAddrPort (s : gostring) : option (gostring * gostring * bool) :=
  i ← LastIndexByte s ":";
  let ip := take i s in
  let port := drop (i + 1) s in
  if bool_decide (ip = []) || bool_decide (port = []) then None
  else match ip with
       | "["%char :: inner =>
           match rev inner with
           | "]"%char :: r => Some (rev r, port, true)
           | _ => None
           end
       | _ => Some (ip, port, false)
       end.

Definition ParseAddrPort (s : gostring) : option AddrPort :=
  '(ip, port, v6) ← splitAddrPort s;
  port16 ← ParseUint port 16;
  '(a, _) ← ParseAddr_value ip;
  if (v6 : bool) && Is4 a then None
  else if negb v6 && negb (Is4 a) then None
  else Some (AddrPortFrom a port16).

Definition ParsePrefix (s : gostring) : option Prefix :=
  i ← LastIndexByte s "/";
  '(ip, zone) ← ParseAddr_value (take i s);
  if (zone : bool) then None
  else
    let bitsStr := drop (i + 1) s in
    if (1 <? length bitsStr)%nat && match bitsStr with c :: _ => negb (between "1" c "9") | [] => false end then None
    else
      bits ← Atoi bitsStr;
      if (bits <? 0) || (BitLen ip <? bits) then None else Some (PrefixFrom ip bits).

Example ParseAddrPort_examples :
  map ParseAddrPort [bs "127.0.0.1:15001"; bs "[::1]:53"; bs "::1:53"; bs "[127.0.0.1]:1"; bs "10.0.0.1:65536"; bs "[::ffff:127.0.0.1]:9"]
  = [Some (AddrPortFrom (Addr4 0x7f000001) 15001); Some (AddrPortFrom (Addr6 1) 53); None; None; None;
     Some (AddrPortFrom (Addr6 0xffff7f000001) 9)].
Proof. vm_compute. reflexivity. Qed.

Example ParsePrefix_examples :
  map ParsePrefix [bs "10.96.0.0/12"; bs "10.0.0.0/08"; bs "10.0.0.0"; bs "fd00::/8"; bs "fe80::1%eth0/64"; bs "1.2.3.4/33"]
  = [Some (PrefixOf (Addr4 0x0a600000) 12); None; None; Some (PrefixOf (Addr6 (0xfd * 2 ^ 120)) 8); None; None].
Proof. vm_compute. reflexivity. Qed.

(** ** The fuel of the duration loop suffices *)

Lemma leadingInt_shorter s : forall x v r, leadingInt x s = Some (v, r) -> (length r <= length s)%nat.
Proof.
  induction s as [|c s IH]; intros x v r; cbn [leadingInt]; [by intros [= <- <-]|].
  destruct (is_digit c); [|by intros [= <- <-]]. destruct (_ <? _); [done|].
  destruct (_ <? _); [done|]. intros Hs%IH. cbn. lia.
Qed.

Lemma leadingFraction_shorter s : forall x scale o, (length (leadingFraction x scale o s).2 <= length s)%nat.
Proof.
  induction s as [|c s IH]; intros x scale o; cbn [leadingFraction]; [done|].
  destruct (is_digit c); [|done]. cbn [length].
  destruct o; [by apply Nat.le_le_succ_r|]. destruct (_ <? x); [by apply Nat.le_le_succ_r|].
  destruct (_ <? _); by apply Nat.le_le_succ_r.
Qed.

Lemma unit_prefix_split s : s = (unit_prefix s).1 ++ (unit_prefix s).2.
Proof.
  induction s as [|c s IH]; [done|]. cbn [unit_prefix]. destruct (starts_number c); [done|].
  destruct (unit_prefix s) as [u r]. cbn in *. by rewrite IH at 1.
Qed.

Lemma duration_element_shorter s v r : duration_element s = Some (v, r) -> (length r < length s)%nat.
Proof.
  destruct s as [|c s]; [done|]. unfold duration_element. destruct (negb _); [done|].
  destruct (leadingInt 0 (c :: s)) as [[n s1]|] eqn:E1; [|done]. apply leadingInt_shorter in E1. cbn [mbind option_bind].
  set (q := match s1 with "."%char :: _ => _ | _ => _ end).
  assert ((length q.1.2 <= length s1)%nat) as Hq.
  { subst q. destruct s1 as [|a s1]; [done|]. destruct a as [[] [] [] [] [] [] [] []]; try done.
    pose proof (leadingFraction_shorter s1 0 (float64 1) false) as Hl.
    destruct (leadingFraction 0 (float64 1) false s1) as [[f scale] s2]. cbn in *. lia. }
  destruct q as [[[f scale] s2] post]. cbn in Hq. destruct (_ && _); [done|].
  pose proof (unit_prefix_split s2) as Hu. destruct (unit_prefix s2) as [u s3]. cbn in Hu.
  case_bool_decide as Hn; [done|]. intros Hs. cut (r = s3).
  { intros ->. subst s2. rewrite length_app in Hq. destruct u; [done|]. cbn in *. lia. }
  destruct (unit_of u); [|done]. cbn [mbind option_bind] in Hs. destruct (_ <? n); [done|].
  destruct (0 <? f); [destruct (_ <? _); [done|]|]; congruence.
Qed.

Lemma duration_fuel s : forall fuel d, (length s <= fuel)%nat -> duration_elements fuel d s = duration_elements (length s) d s.
Proof.
  induction s as [s IH] using (induction_ltof1 _ (@length ascii)). unfold ltof in IH. intros fuel d Hf.
  destruct s as [|c s]; [by destruct fuel|]. destruct fuel as [|fuel]; [cbn in Hf; lia|]. cbn [length duration_elements].
  destruct (duration_element (c :: s)) as [[v r]|] eqn:E; [|done]. apply duration_element_shorter in E. cbn [length] in *.
  cbn [mbind option_bind]. destruct (_ <? _); [done|]. rewrite (IH r ltac:(cbn; lia) fuel) by lia.
  by rewrite (IH r ltac:(cbn; lia) (length s)) by lia.
Qed.
