(* ===== verification/Config.v ===== *)
(** * [internal/config]: the proxy's configuration

    [config.go]: the defaults, the YAML and environment layers and their order, validation,
    and the mapping to the options of package [capture].  Reading the file and decoding the
    YAML text into [yamlConfig] are the parameters [ReadFile] and [UnmarshalStrict];
    [url.Parse] is the class [NetURL] of [Credential].  [getenv] is a function, as it is in
    the code; a pointer field of [yamlConfig] is an option. *)

From coqutil Require Import Datatypes.RecordSetters.
From S2P Require Import Prelude GoStrings GoRuntime Compile Match Credential Decision Metrics Upstream Capture GoParse.
#[local] Open Scope Z_scope.

(** ** The resolved configuration *)

Record ListenerConfig := { lc_Address : gostring }.
Record CAConfig := { ca_PrivDir : gostring; ca_PubDir : gostring }.
Record PolicyConfig := {
  pc_Namespace : gostring; pc_MaxStaleness : Duration; pc_Resync : Duration; pc_FirstSnapshotTimeout : Duration;
  pc_PodLabelsPath : gostring
}.
Record CaptureConfig := {
  cc_PodPath : gostring; cc_HostCgroupMount : gostring; cc_LocalCgroupMount : gostring; cc_ProcCgroupPath : gostring;
  cc_ProxyUID : Z; cc_ProxyGID : Z; cc_DNSServer : gostring; cc_BypassCIDRs : gostring; cc_CaptureIPv6 : bool;
  cc_MountBPFFS : bool; cc_BlockNonTCP : bool; cc_RunProbe : bool; cc_AllowUnsafeStartup : bool;
  cc_AttachCheckInterval : Duration; cc_PinLinks : bool; cc_PinRoot : gostring; cc_PinRootPrivate : bool; cc_MapEntries : Z;
  cc_DestMaxAge : Duration; cc_MinKernel : KernelVersion
}.
Record ControlPlaneConfig := { cp_Address : gostring; cp_Port : Z }.
Record PodConfig := { po_Namespace : gostring; po_Name : gostring; po_UID : gostring; po_ServiceAccount : gostring }.
Record EntraConfig := { ec_TenantID : gostring; ec_ClientID : gostring; ec_Authority : gostring }.
Record TokenConfig := { tc_SATokenPath : gostring; tc_Entra : EntraConfig }.
Record AuditConfig := { au_Sink : gostring }.
Record Config := {
  c_Listener : ListenerConfig; c_CA : CAConfig; c_Policy : PolicyConfig; c_Token : TokenConfig; c_Audit : AuditConfig;
  c_Capture : CaptureConfig; c_ControlPlane : ControlPlaneConfig; c_Pod : PodConfig
}.

Definition defaultMaxStaleness : Duration := 45 * Second.
Definition defaultFirstSnapshotTimeout : Duration := 30 * Second.
Definition defaultControlPlanePort : Z := 15020.

Definition defaults : Config :=
  {| c_Listener := {| lc_Address := "127.0.0.1:15001" |};
     c_CA := {| ca_PrivDir := "/var/run/aksh/ca-priv"; ca_PubDir := "/var/run/aksh/ca-pub" |};
     c_Policy := {| pc_Namespace := []; pc_MaxStaleness := defaultMaxStaleness; pc_Resync := 0; pc_FirstSnapshotTimeout := 0;
                    pc_PodLabelsPath := "/etc/aksh/podinfo/labels" |};
     c_Token := {| tc_SATokenPath := "/var/run/secrets/aksh/token";
                   tc_Entra := {| ec_TenantID := []; ec_ClientID := []; ec_Authority := "https://login.microsoftonline.com" |} |};
     c_Audit := {| au_Sink := "stdout" |};
     c_Capture := {| cc_PodPath := []; cc_HostCgroupMount := []; cc_LocalCgroupMount := []; cc_ProcCgroupPath := "/proc/self/cgroup";
                     cc_ProxyUID := 0; cc_ProxyGID := 0; cc_DNSServer := []; cc_BypassCIDRs := []; cc_CaptureIPv6 := false;
                     cc_MountBPFFS := false; cc_BlockNonTCP := false; cc_RunProbe := false; cc_AllowUnsafeStartup := false;
                     cc_AttachCheckInterval := 0; cc_PinLinks := false; cc_PinRoot := []; cc_PinRootPrivate := false;
                     cc_MapEntries := 0; cc_DestMaxAge := 0; cc_MinKernel := {| Major := 0; Minor := 0 |} |};
     c_ControlPlane := {| cp_Address := []; cp_Port := 0 |};
     c_Pod := {| po_Namespace := []; po_Name := []; po_UID := []; po_ServiceAccount := [] |} |}.

(** The address of a field, as [&cfg.Listener.Address]. *)
Record field (A : Type) := Field {
  fget : Config -> A;
  fput : A -> Config -> Config;
  fput_get : forall c, fput (fget c) c = c
}.
Arguments Field {A} _ _ _. Arguments fget {A} _ _. Arguments fput {A} _ _ _. Arguments fput_get {A} _ _.

Ltac put_get := intros c; destruct c; cbn; f_equal; repeat match goal with |- _ = ?x => destruct x; cbn; f_equal end.
Notation "'&' p '->' q" :=
  (Field (fun c => q (p c)) (fun v => apply_update (mk_update p (apply_update (mk_update q (constant v))))) ltac:(put_get))
  (at level 10, p at level 0, q at level 0, only parsing).

Definition Listener_Address : field gostring := & c_Listener -> lc_Address.
Definition CA_PrivDir : field gostring := & c_CA -> ca_PrivDir.
Definition CA_PubDir : field gostring := & c_CA -> ca_PubDir.
Definition Policy_Namespace : field gostring := & c_Policy -> pc_Namespace.
Definition Policy_PodLabelsPath : field gostring := & c_Policy -> pc_PodLabelsPath.
Definition Policy_MaxStaleness : field Duration := & c_Policy -> pc_MaxStaleness.
Definition Policy_Resync : field Duration := & c_Policy -> pc_Resync.
Definition Policy_FirstSnapshotTimeout : field Duration := & c_Policy -> pc_FirstSnapshotTimeout.
Definition Token_SATokenPath : field gostring := & c_Token -> tc_SATokenPath.
Definition Audit_Sink : field gostring := & c_Audit -> au_Sink.
Definition Pod_Namespace : field gostring := & c_Pod -> po_Namespace.
Definition Pod_Name : field gostring := & c_Pod -> po_Name.
Definition Pod_UID : field gostring := & c_Pod -> po_UID.
Definition Pod_ServiceAccount : field gostring := & c_Pod -> po_ServiceAccount.
Definition Capture_PodPath : field gostring := & c_Capture -> cc_PodPath.
Definition Capture_HostCgroupMount : field gostring := & c_Capture -> cc_HostCgroupMount.
Definition Capture_LocalCgroupMount : field gostring := & c_Capture -> cc_LocalCgroupMount.
Definition Capture_ProcCgroupPath : field gostring := & c_Capture -> cc_ProcCgroupPath.
Definition Capture_ProxyUID : field Z := & c_Capture -> cc_ProxyUID.
Definition Capture_ProxyGID : field Z := & c_Capture -> cc_ProxyGID.
Definition Capture_DNSServer : field gostring := & c_Capture -> cc_DNSServer.
Definition Capture_BypassCIDRs : field gostring := & c_Capture -> cc_BypassCIDRs.
Definition Capture_CaptureIPv6 : field bool := & c_Capture -> cc_CaptureIPv6.
Definition Capture_MountBPFFS : field bool := & c_Capture -> cc_MountBPFFS.
Definition Capture_BlockNonTCP : field bool := & c_Capture -> cc_BlockNonTCP.
Definition Capture_RunProbe : field bool := & c_Capture -> cc_RunProbe.
Definition Capture_AllowUnsafeStartup : field bool := & c_Capture -> cc_AllowUnsafeStartup.
Definition Capture_AttachCheckInterval : field Duration := & c_Capture -> cc_AttachCheckInterval.
Definition Capture_PinLinks : field bool := & c_Capture -> cc_PinLinks.
Definition Capture_PinRoot : field gostring := & c_Capture -> cc_PinRoot.
Definition Capture_PinRootPrivate : field bool := & c_Capture -> cc_PinRootPrivate.
Definition Capture_MapEntries : field Z := & c_Capture -> cc_MapEntries.
Definition Capture_DestMaxAge : field Duration := & c_Capture -> cc_DestMaxAge.
Definition ControlPlane_Address : field gostring := & c_ControlPlane -> cp_Address.
Definition ControlPlane_Port : field Z := & c_ControlPlane -> cp_Port.

Notation entra f :=
  (Field (fun c => f (tc_Entra (c_Token c)))
     (fun v => apply_update (mk_update c_Token (apply_update (mk_update tc_Entra (apply_update (mk_update f (constant v)))))))
     ltac:(put_get)) (only parsing).
Definition Entra_TenantID : field gostring := entra ec_TenantID.
Definition Entra_ClientID : field gostring := entra ec_ClientID.
Definition Entra_Authority : field gostring := entra ec_Authority.

(** ** The YAML schema *)

Record yaml_Listener := { yl_Address : option gostring }.
Record yaml_CA := { yca_PrivDir : option gostring; yca_PubDir : option gostring }.
Record yaml_Policy := {
  yp_Namespace : option gostring; yp_MaxStaleness : option gostring; yp_Resync : option gostring;
  yp_FirstSnapshotTimeout : option gostring; yp_PodLabelsPath : option gostring
}.
Record yaml_Capture := {
  yc_PodPath : option gostring; yc_HostCgroupMount : option gostring; yc_LocalCgroupMount : option gostring;
  yc_ProcCgroupPath : option gostring; yc_ProxyUID : option Z; yc_ProxyGID : option Z; yc_DNSServer : option gostring;
  yc_BypassCIDRs : option gostring; yc_CaptureIPv6 : option bool; yc_MountBPFFS : option bool; yc_BlockNonTCP : option bool;
  yc_RunProbe : option bool; yc_AllowUnsafeStartup : option bool; yc_AttachCheckInterval : option gostring;
  yc_PinLinks : option bool; yc_PinRoot : option gostring; yc_PinRootPrivate : option bool; yc_MapEntries : option Z;
  yc_DestMaxAge : option gostring
}.
Record yaml_ControlPlane := { ycp_Address : option gostring; ycp_Port : option Z }.
Record yaml_Entra := { ye_TenantID : option gostring; ye_ClientID : option gostring; ye_Authority : option gostring }.
Record yaml_Token := { yt_SATokenPath : option gostring; yt_Entra : option yaml_Entra }.
Record yaml_Audit := { ya_Sink : option gostring }.
Record yaml_Pod := {
  ypo_Namespace : option gostring; ypo_Name : option gostring; ypo_UID : option gostring; ypo_ServiceAccount : option gostring
}.
Record yamlConfig := {
  y_Listener : option yaml_Listener; y_CA : option yaml_CA; y_Policy : option yaml_Policy; y_Capture : option yaml_Capture;
  y_ControlPlane : option yaml_ControlPlane; y_Token : option yaml_Token; y_Audit : option yaml_Audit; y_Pod : option yaml_Pod
}.
(** The zero value, which an empty document decodes to. *)
Definition empty_yaml : yamlConfig :=
  {| y_Listener := None; y_CA := None; y_Policy := None; y_Capture := None; y_ControlPlane := None; y_Token := None;
     y_Audit := None; y_Pod := None |}.

(** Errors are the bounded messages of the code: the step, and the key that is wrong. *)
Inductive config_error :=
| ReadFileFailed | ParseFileFailed
| InvalidFileDuration (key : gostring)
| EnvNotBool (key : gostring) | EnvNotU32 (key : gostring) | EnvNotInt (key : gostring) | EnvNotDuration (key : gostring)
| MissingTenantID | MissingClientID | CfgErrMissingNamespace | MissingSATokenPath | AuthorityNotHTTPS
| ListenerNotAddrPort | ListenerNotLoopback | NegativeMaxStaleness | NegativeResync | NegativeFirstSnapshotTimeout
| NegativePort | MissingAuditSink
| CfgErrMissingPodPath | CfgErrInvalidProxyUID | CfgErrIPv6Unsupported | CfgErrInvalidInterval | CfgErrInvalidMapEntries
| CfgErrInvalidDestMaxAge | CfgErrMissingPinRoot | CfgErrInvalidDNSServer | CfgErrInvalidBypassCIDRs | CfgErrRequiresUnsafeStartup.

Definition or_error {A} (e : config_error) (o : option A) : result config_error A :=
  match o with Some a => Ok a | None => Err e end.

Section Load.
Context `{U : Unicode}.

(** ** [applyYAML]: one statement per key, in the order of the code *)

Definition step := Config -> result config_error Config.

Definition assign {A} (v : option A) (f : field A) : step :=
  fun c => Ok (match v with Some v => fput f v c | None => c end).
Definition assignDuration (key : gostring) (v : option gostring) (f : field Duration) : step :=
  fun c => match v with
           | None => Ok c
           | Some s => rbind (or_error (InvalidFileDuration key) (ParseDuration (TrimSpace s))) (fun d => Ok (fput f d c))
           end.

Fixpoint run_steps (l : list step) (c : Config) : result config_error Config :=
  match l with [] => Ok c | s :: l => rbind (s c) (run_steps l) end.

Definition yaml_steps (yc : yamlConfig) : list step :=
  let p := y_Policy yc in
  let c := y_Capture yc in
  let e := y_Token yc ≫= yt_Entra in
  [ assign (y_Listener yc ≫= yl_Address) Listener_Address;
    assign (y_CA yc ≫= yca_PrivDir) CA_PrivDir;
    assign (y_CA yc ≫= yca_PubDir) CA_PubDir;
    assign (p ≫= yp_Namespace) Policy_Namespace;
    assign (p ≫= yp_PodLabelsPath) Policy_PodLabelsPath;
    assignDuration "policy.maxStaleness" (p ≫= yp_MaxStaleness) Policy_MaxStaleness;
    assignDuration "policy.resync" (p ≫= yp_Resync) Policy_Resync;
    assignDuration "policy.firstSnapshotTimeout" (p ≫= yp_FirstSnapshotTimeout) Policy_FirstSnapshotTimeout;
    assign (c ≫= yc_PodPath) Capture_PodPath;
    assign (c ≫= yc_HostCgroupMount) Capture_HostCgroupMount;
    assign (c ≫= yc_LocalCgroupMount) Capture_LocalCgroupMount;
    assign (c ≫= yc_ProcCgroupPath) Capture_ProcCgroupPath;
    assign (c ≫= yc_ProxyUID) Capture_ProxyUID;
    assign (c ≫= yc_ProxyGID) Capture_ProxyGID;
    assign (c ≫= yc_DNSServer) Capture_DNSServer;
    assign (c ≫= yc_BypassCIDRs) Capture_BypassCIDRs;
    assign (c ≫= yc_CaptureIPv6) Capture_CaptureIPv6;
    assign (c ≫= yc_MountBPFFS) Capture_MountBPFFS;
    assign (c ≫= yc_BlockNonTCP) Capture_BlockNonTCP;
    assign (c ≫= yc_RunProbe) Capture_RunProbe;
    assign (c ≫= yc_AllowUnsafeStartup) Capture_AllowUnsafeStartup;
    assignDuration "capture.attachCheckInterval" (c ≫= yc_AttachCheckInterval) Capture_AttachCheckInterval;
    assign (c ≫= yc_PinLinks) Capture_PinLinks;
    assign (c ≫= yc_PinRoot) Capture_PinRoot;
    assign (c ≫= yc_PinRootPrivate) Capture_PinRootPrivate;
    assign (c ≫= yc_MapEntries) Capture_MapEntries;
    assignDuration "capture.destMaxAge" (c ≫= yc_DestMaxAge) Capture_DestMaxAge;
    assign (y_ControlPlane yc ≫= ycp_Address) ControlPlane_Address;
    assign (y_ControlPlane yc ≫= ycp_Port) ControlPlane_Port;
    assign (y_Token yc ≫= yt_SATokenPath) Token_SATokenPath;
    assign (e ≫= ye_TenantID) Entra_TenantID;
    assign (e ≫= ye_ClientID) Entra_ClientID;
    assign (e ≫= ye_Authority) Entra_Authority;
    assign (y_Audit yc ≫= ya_Sink) Audit_Sink;
    assign (y_Pod yc ≫= ypo_Namespace) Pod_Namespace;
    assign (y_Pod yc ≫= ypo_Name) Pod_Name;
    assign (y_Pod yc ≫= ypo_UID) Pod_UID;
    assign (y_Pod yc ≫= ypo_ServiceAccount) Pod_ServiceAccount ].

Definition applyYAML (cfg : Config) (yc : yamlConfig) : result config_error Config := run_steps (yaml_steps yc) cfg.

(** ** [applyEnv] *)

(** A variable, how its value is read, and the field it overrides; a string is taken as it is. *)
Record binding := Binding { b_type : Type; b_key : gostring; b_parse : gostring -> result config_error b_type; b_field : field b_type }.
Definition set (key : gostring) (f : field gostring) : binding := Binding _ key Ok f.
Definition setBool (key : gostring) (f : field bool) : binding :=
  Binding _ key (fun v => or_error (EnvNotBool key) (ParseBool (TrimSpace v))) f.
(** [strconv.ParseUint(s, 10, 32)]. *)
Definition u32 (s : gostring) : option Z := ParseUint s 32.
Definition setU32 (key : gostring) (f : field Z) : binding :=
  Binding _ key (fun v => or_error (EnvNotU32 key) (u32 (TrimSpace v))) f.
Definition setInt (key : gostring) (f : field Z) : binding :=
  Binding _ key (fun v => or_error (EnvNotInt key) (Atoi (TrimSpace v))) f.
Definition setDuration (key : gostring) (f : field Duration) : binding :=
  Binding _ key (fun v => or_error (EnvNotDuration key) (ParseDuration (TrimSpace v))) f.

Definition bindings : list binding :=
  [ set "AKSH_LISTENER_ADDRESS" Listener_Address;
    set "AKSH_CA_PRIV_DIR" CA_PrivDir;
    set "AKSH_CA_PUB_DIR" CA_PubDir;
    set "AKSH_POLICY_NAMESPACE" Policy_Namespace;
    set "AKSH_POLICY_POD_LABELS_PATH" Policy_PodLabelsPath;
    set "AKSH_SA_TOKEN_PATH" Token_SATokenPath;
    set "AKSH_ENTRA_TENANT_ID" Entra_TenantID;
    set "AKSH_ENTRA_CLIENT_ID" Entra_ClientID;
    set "AKSH_ENTRA_AUTHORITY" Entra_Authority;
    set "AKSH_AUDIT_SINK" Audit_Sink;
    set "AKSH_POD_NAMESPACE" Pod_Namespace;
    set "AKSH_POD_NAME" Pod_Name;
    set "AKSH_POD_UID" Pod_UID;
    set "AKSH_AGENT_SERVICE_ACCOUNT" Pod_ServiceAccount;
    set "AKSH_CAPTURE_POD_PATH" Capture_PodPath;
    set "AKSH_CAPTURE_HOST_CGROUP_MOUNT" Capture_HostCgroupMount;
    set "AKSH_CAPTURE_LOCAL_CGROUP_MOUNT" Capture_LocalCgroupMount;
    set "AKSH_CAPTURE_PROC_CGROUP_PATH" Capture_ProcCgroupPath;
    set "AKSH_CAPTURE_DNS_SERVER" Capture_DNSServer;
    set "AKSH_CAPTURE_BYPASS_CIDRS" Capture_BypassCIDRs;
    set "AKSH_CAPTURE_PIN_ROOT" Capture_PinRoot;
    set "AKSH_CONTROLPLANE_ADDRESS" ControlPlane_Address;
    setDuration "AKSH_POLICY_MAX_STALENESS" Policy_MaxStaleness;
    setDuration "AKSH_POLICY_RESYNC" Policy_Resync;
    setDuration "AKSH_POLICY_FIRST_SNAPSHOT_TIMEOUT" Policy_FirstSnapshotTimeout;
    setU32 "AKSH_CAPTURE_PROXY_UID" Capture_ProxyUID;
    setU32 "AKSH_CAPTURE_PROXY_GID" Capture_ProxyGID;
    setBool "AKSH_CAPTURE_IPV6" Capture_CaptureIPv6;
    setBool "AKSH_CAPTURE_MOUNT_BPFFS" Capture_MountBPFFS;
    setBool "AKSH_CAPTURE_BLOCK_NON_TCP" Capture_BlockNonTCP;
    setBool "AKSH_CAPTURE_RUN_PROBE" Capture_RunProbe;
    setBool "AKSH_CAPTURE_ALLOW_UNSAFE_STARTUP" Capture_AllowUnsafeStartup;
    setDuration "AKSH_CAPTURE_ATTACH_CHECK_INTERVAL" Capture_AttachCheckInterval;
    setBool "AKSH_CAPTURE_PIN_LINKS" Capture_PinLinks;
    setBool "AKSH_CAPTURE_PIN_ROOT_PRIVATE" Capture_PinRootPrivate;
    setU32 "AKSH_CAPTURE_MAP_ENTRIES" Capture_MapEntries;
    setDuration "AKSH_CAPTURE_DEST_MAX_AGE" Capture_DestMaxAge;
    setInt "AKSH_CONTROLPLANE_PORT" ControlPlane_Port ].

Section Environment.
Context (getenv : gostring -> gostring).

Definition apply_binding (b : binding) (st : bool * Config) : result config_error (bool * Config) :=
  let v := getenv (b_key b) in
  if str_eqb v "" then Ok st
  else rbind (b_parse b v) (fun x => Ok (true, fput (b_field b) x st.2)).
Fixpoint apply_bindings (l : list binding) (st : bool * Config) : result config_error (bool * Config) :=
  match l with [] => Ok st | b :: l => rbind (apply_binding b st) (apply_bindings l) end.

(** Whether an override was applied, and the configuration; after an error the caller
    discards both. *)
Definition applyEnv (cfg : Config) : result config_error (bool * Config) := apply_bindings bindings (false, cfg).
End Environment.

(** ** [trimFields] and loading *)

Definition string_fields : list (field gostring) :=
  [ Listener_Address; CA_PrivDir; CA_PubDir; Policy_Namespace; Policy_PodLabelsPath; Token_SATokenPath; Entra_TenantID;
    Entra_ClientID; Entra_Authority; Audit_Sink; Pod_Namespace; Pod_Name; Pod_UID; Pod_ServiceAccount; Capture_PodPath;
    Capture_HostCgroupMount; Capture_LocalCgroupMount; Capture_ProcCgroupPath; Capture_DNSServer; Capture_BypassCIDRs;
    Capture_PinRoot; ControlPlane_Address ].
Definition trim_field (c : Config) (f : field gostring) : Config := fput f (TrimSpace (fget f c)) c.
Definition trimFields (cfg : Config) : Config := fold_left trim_field string_fields cfg.

Class ConfigFiles := {
  ReadFile : gostring -> option gostring;
  UnmarshalStrict : gostring -> option yamlConfig
}.

(** The configuration and the sources that the log names. *)
Definition loadFromWithLogger `{F : ConfigFiles} (path : gostring) (getenv : gostring -> gostring)
  : result config_error (Config * list gostring) :=
  let load :=
    if negb (str_eqb path "") then
      match ReadFile path with
      | None => Err ReadFileFailed
      | Some data =>
          match UnmarshalStrict data with
          | None => Err ParseFileFailed
          | Some yc => rbind (applyYAML defaults yc) (fun cfg => Ok (cfg, [bs "defaults"; bs "file"]))
          end
      end
    else Ok (defaults, [bs "defaults"]) in
  rbind load (fun '(cfg, sources) =>
  rbind (applyEnv getenv cfg) (fun '(envUsed, cfg) =>
  Ok (trimFields cfg, if envUsed then sources ++ [bs "env"] else sources))).

Definition LoadFrom `{F : ConfigFiles} := loadFromWithLogger.
Definition Load `{F : ConfigFiles} (getenv : gostring -> gostring) := LoadFrom (getenv "AKSH_CONFIG_FILE") getenv.

(** ** Validation *)

Definition isHTTPSAuthority `{N : NetURL} (authority : gostring) : bool :=
  match url_Parse (TrimSpace authority) with
  | None => false
  | Some u => str_eqb (u_Scheme u) "https" && negb (str_eqb (u_Host u) "")
  end.

Definition validateLoopbackAddress (address : gostring) : option config_error :=
  match ParseAddrPort (TrimSpace address) with
  | None => Some ListenerNotAddrPort
  | Some ap =>
      let addr := Unmap (ap_Addr ap) in
      if negb (Is4 addr) || negb (IsLoopback addr) then Some ListenerNotLoopback else None
  end.

(** [None] is the parse error. *)
Fixpoint parse_prefixes (fields : list gostring) : option (list Prefix) :=
  match fields with
  | [] => Some []
  | f :: fields =>
      let f := TrimSpace f in
      if str_eqb f "" then parse_prefixes fields
      else p ← ParsePrefix f; ps ← parse_prefixes fields; Some (p :: ps)
  end.
Definition ParseBypassCIDRs (cidrs : gostring) : option (list Prefix) := parse_prefixes (Split cidrs ",").

Definition validateCapture (c : CaptureConfig) : option config_error :=
  if str_eqb (TrimSpace (cc_PodPath c)) "" then Some CfgErrMissingPodPath
  else if cc_ProxyUID c =? 0 then Some CfgErrInvalidProxyUID
  else if cc_CaptureIPv6 c then Some CfgErrIPv6Unsupported
  else if negb (cc_BlockNonTCP c) && negb (cc_AllowUnsafeStartup c) then Some CfgErrRequiresUnsafeStartup
  else if negb (cc_RunProbe c) && negb (cc_AllowUnsafeStartup c) then Some CfgErrRequiresUnsafeStartup
  else if negb (cc_AttachCheckInterval c =? 0) &&
          ((cc_AttachCheckInterval c <? 10 * Second) || (60 * Second <? cc_AttachCheckInterval c)) then Some CfgErrInvalidInterval
  else if negb (cc_MapEntries c =? 0) && ((cc_MapEntries c <? 1024) || (65536 <? cc_MapEntries c)) then Some CfgErrInvalidMapEntries
  else if negb (cc_DestMaxAge c =? 0) && ((cc_DestMaxAge c <? 1 * Second) || (120 * Second <? cc_DestMaxAge c)) then
    Some CfgErrInvalidDestMaxAge
  else if cc_PinLinks c && str_eqb (TrimSpace (cc_PinRoot c)) "" then Some CfgErrMissingPinRoot
  else
    let s := TrimSpace (cc_DNSServer c) in
    if negb (str_eqb s "") && bool_decide (ParseAddrPort s = None) then Some CfgErrInvalidDNSServer
    else if bool_decide (ParseBypassCIDRs (cc_BypassCIDRs c) = None) then Some CfgErrInvalidBypassCIDRs
    else None.

Definition Validate `{N : NetURL} (c : Config) : option config_error :=
  if str_eqb (TrimSpace (ec_TenantID (tc_Entra (c_Token c)))) "" then Some MissingTenantID
  else if str_eqb (TrimSpace (ec_ClientID (tc_Entra (c_Token c)))) "" then Some MissingClientID
  else if str_eqb (TrimSpace (pc_Namespace (c_Policy c))) "" then Some CfgErrMissingNamespace
  else if str_eqb (TrimSpace (tc_SATokenPath (c_Token c))) "" then Some MissingSATokenPath
  else if negb (isHTTPSAuthority (ec_Authority (tc_Entra (c_Token c)))) then Some AuthorityNotHTTPS
  else
    match validateLoopbackAddress (lc_Address (c_Listener c)) with
    | Some e => Some e
    | None =>
        if pc_MaxStaleness (c_Policy c) <? 0 then Some NegativeMaxStaleness
        else if pc_Resync (c_Policy c) <? 0 then Some NegativeResync
        else if pc_FirstSnapshotTimeout (c_Policy c) <? 0 then Some NegativeFirstSnapshotTimeout
        else if cp_Port (c_ControlPlane c) <? 0 then Some NegativePort
        else if str_eqb (TrimSpace (au_Sink (c_Audit c))) "" then Some MissingAuditSink
        else validateCapture (c_Capture c)
    end.

(** ** Effective values and the mapping to [capture.Options] *)

Definition EffectivePort (cp : ControlPlaneConfig) : Z := if cp_Port cp =? 0 then defaultControlPlanePort else cp_Port cp.
Definition EffectiveFirstSnapshotTimeout (p : PolicyConfig) : Duration :=
  if pc_FirstSnapshotTimeout p =? 0 then defaultFirstSnapshotTimeout else pc_FirstSnapshotTimeout p.
Definition EffectiveMaxStaleness (p : PolicyConfig) : Duration :=
  if pc_MaxStaleness p =? 0 then defaultMaxStaleness else pc_MaxStaleness p.

Definition nonempty_or (s d : gostring) : gostring := if str_eqb s "" then d else s.
Definition nonzero_or (v d : Z) : Z := if v =? 0 then d else v.

(** [m] says whether a metrics recorder was passed. *)
Definition CaptureOptionsFromConfig (cfg : Config) (m : bool) : Options :=
  let d := DefaultOptions in
  let c := c_Capture cfg in
  {| co_PodPath := nonempty_or (cc_PodPath c) (co_PodPath d);
     co_HostCgroupMount := nonempty_or (cc_HostCgroupMount c) (co_HostCgroupMount d);
     co_LocalCgroupMount := nonempty_or (cc_LocalCgroupMount c) (co_LocalCgroupMount d);
     co_ProcCgroupPath := nonempty_or (cc_ProcCgroupPath c) (co_ProcCgroupPath d);
     co_Metrics := m;
     co_ProxyUID := nonzero_or (cc_ProxyUID c) (co_ProxyUID d);
     co_ProxyGID := nonzero_or (cc_ProxyGID c) (co_ProxyGID d);
     co_ListenerAddr := default (co_ListenerAddr d) (ParseAddrPort (TrimSpace (lc_Address (c_Listener cfg))));
     co_DNSServer := (let s := TrimSpace (cc_DNSServer c) in
                      if str_eqb s "" then co_DNSServer d else default (co_DNSServer d) (ParseAddrPort s));
     co_BypassCIDRs := default (co_BypassCIDRs d) (ParseBypassCIDRs (cc_BypassCIDRs c));
     co_CaptureIPv6 := cc_CaptureIPv6 c; co_MountBPFFS := cc_MountBPFFS c; co_BlockNonTCP := cc_BlockNonTCP c;
     co_RunProbe := cc_RunProbe c; co_AllowUnsafeStartup := cc_AllowUnsafeStartup c;
     co_AttachCheckInterval := nonzero_or (cc_AttachCheckInterval c) (co_AttachCheckInterval d);
     co_PinLinks := cc_PinLinks c;
     co_PinRoot := nonempty_or (cc_PinRoot c) (co_PinRoot d);
     co_PinRootPrivate := cc_PinRootPrivate c;
     co_MapEntries := nonzero_or (cc_MapEntries c) (co_MapEntries d);
     co_DestMaxAge := nonzero_or (cc_DestMaxAge c) (co_DestMaxAge d);
     co_MinKernel := if bool_decide (cc_MinKernel c = {| Major := 0; Minor := 0 |}) then co_MinKernel d else cc_MinKernel c |}.
End Load.

(** ** Loading is resolution by precedence *)

Section Precedence.
Context `{U : Unicode} (getenv : gostring -> gostring) (yc : yamlConfig).

(** What each field is worth: the variable when it is set, else the file's value, else the
    default; strings are trimmed last, the others before they are parsed. *)
Definition string_value (key : gostring) (file : option gostring) (f : field gostring) : gostring :=
  TrimSpace (if str_eqb (getenv key) "" then default (fget f defaults) file else getenv key).
Definition parsed_value {A} (parse : gostring -> option A) (key : gostring) (file : option A) (f : field A) : A :=
  if str_eqb (getenv key) "" then default (fget f defaults) file
  else default (default (fget f defaults) file) (parse (TrimSpace (getenv key))).
Definition file_duration (v : option gostring) : option Duration := s ← v; ParseDuration (TrimSpace s).

Definition resolved : Config :=
  let p := y_Policy yc in
  let c := y_Capture yc in
  let e := y_Token yc ≫= yt_Entra in
  {| c_Listener := {| lc_Address := string_value "AKSH_LISTENER_ADDRESS" (y_Listener yc ≫= yl_Address) Listener_Address |};
     c_CA := {| ca_PrivDir := string_value "AKSH_CA_PRIV_DIR" (y_CA yc ≫= yca_PrivDir) CA_PrivDir;
                ca_PubDir := string_value "AKSH_CA_PUB_DIR" (y_CA yc ≫= yca_PubDir) CA_PubDir |};
     c_Policy :=
       {| pc_Namespace := string_value "AKSH_POLICY_NAMESPACE" (p ≫= yp_Namespace) Policy_Namespace;
          pc_MaxStaleness := parsed_value ParseDuration "AKSH_POLICY_MAX_STALENESS" (file_duration (p ≫= yp_MaxStaleness)) Policy_MaxStaleness;
          pc_Resync := parsed_value ParseDuration "AKSH_POLICY_RESYNC" (file_duration (p ≫= yp_Resync)) Policy_Resync;
          pc_FirstSnapshotTimeout := parsed_value ParseDuration "AKSH_POLICY_FIRST_SNAPSHOT_TIMEOUT"
                                       (file_duration (p ≫= yp_FirstSnapshotTimeout)) Policy_FirstSnapshotTimeout;
          pc_PodLabelsPath := string_value "AKSH_POLICY_POD_LABELS_PATH" (p ≫= yp_PodLabelsPath) Policy_PodLabelsPath |};
     c_Token :=
       {| tc_SATokenPath := string_value "AKSH_SA_TOKEN_PATH" (y_Token yc ≫= yt_SATokenPath) Token_SATokenPath;
          tc_Entra := {| ec_TenantID := string_value "AKSH_ENTRA_TENANT_ID" (e ≫= ye_TenantID) Entra_TenantID;
                         ec_ClientID := string_value "AKSH_ENTRA_CLIENT_ID" (e ≫= ye_ClientID) Entra_ClientID;
                         ec_Authority := string_value "AKSH_ENTRA_AUTHORITY" (e ≫= ye_Authority) Entra_Authority |} |};
     c_Audit := {| au_Sink := string_value "AKSH_AUDIT_SINK" (y_Audit yc ≫= ya_Sink) Audit_Sink |};
     c_Capture :=
       {| cc_PodPath := string_value "AKSH_CAPTURE_POD_PATH" (c ≫= yc_PodPath) Capture_PodPath;
          cc_HostCgroupMount := string_value "AKSH_CAPTURE_HOST_CGROUP_MOUNT" (c ≫= yc_HostCgroupMount) Capture_HostCgroupMount;
          cc_LocalCgroupMount := string_value "AKSH_CAPTURE_LOCAL_CGROUP_MOUNT" (c ≫= yc_LocalCgroupMount) Capture_LocalCgroupMount;
          cc_ProcCgroupPath := string_value "AKSH_CAPTURE_PROC_CGROUP_PATH" (c ≫= yc_ProcCgroupPath) Capture_ProcCgroupPath;
          cc_ProxyUID := parsed_value u32 "AKSH_CAPTURE_PROXY_UID" (c ≫= yc_ProxyUID) Capture_ProxyUID;
          cc_ProxyGID := parsed_value u32 "AKSH_CAPTURE_PROXY_GID" (c ≫= yc_ProxyGID) Capture_ProxyGID;
          cc_DNSServer := string_value "AKSH_CAPTURE_DNS_SERVER" (c ≫= yc_DNSServer) Capture_DNSServer;
          cc_BypassCIDRs := string_value "AKSH_CAPTURE_BYPASS_CIDRS" (c ≫= yc_BypassCIDRs) Capture_BypassCIDRs;
          cc_CaptureIPv6 := parsed_value ParseBool "AKSH_CAPTURE_IPV6" (c ≫= yc_CaptureIPv6) Capture_CaptureIPv6;
          cc_MountBPFFS := parsed_value ParseBool "AKSH_CAPTURE_MOUNT_BPFFS" (c ≫= yc_MountBPFFS) Capture_MountBPFFS;
          cc_BlockNonTCP := parsed_value ParseBool "AKSH_CAPTURE_BLOCK_NON_TCP" (c ≫= yc_BlockNonTCP) Capture_BlockNonTCP;
          cc_RunProbe := parsed_value ParseBool "AKSH_CAPTURE_RUN_PROBE" (c ≫= yc_RunProbe) Capture_RunProbe;
          cc_AllowUnsafeStartup := parsed_value ParseBool "AKSH_CAPTURE_ALLOW_UNSAFE_STARTUP" (c ≫= yc_AllowUnsafeStartup)
                                     Capture_AllowUnsafeStartup;
          cc_AttachCheckInterval := parsed_value ParseDuration "AKSH_CAPTURE_ATTACH_CHECK_INTERVAL"
                                      (file_duration (c ≫= yc_AttachCheckInterval)) Capture_AttachCheckInterval;
          cc_PinLinks := parsed_value ParseBool "AKSH_CAPTURE_PIN_LINKS" (c ≫= yc_PinLinks) Capture_PinLinks;
          cc_PinRoot := string_value "AKSH_CAPTURE_PIN_ROOT" (c ≫= yc_PinRoot) Capture_PinRoot;
          cc_PinRootPrivate := parsed_value ParseBool "AKSH_CAPTURE_PIN_ROOT_PRIVATE" (c ≫= yc_PinRootPrivate) Capture_PinRootPrivate;
          cc_MapEntries := parsed_value u32 "AKSH_CAPTURE_MAP_ENTRIES" (c ≫= yc_MapEntries) Capture_MapEntries;
          cc_DestMaxAge := parsed_value ParseDuration "AKSH_CAPTURE_DEST_MAX_AGE" (file_duration (c ≫= yc_DestMaxAge)) Capture_DestMaxAge;
          cc_MinKernel := {| Major := 0; Minor := 0 |} |};
     c_ControlPlane := {| cp_Address := string_value "AKSH_CONTROLPLANE_ADDRESS" (y_ControlPlane yc ≫= ycp_Address) ControlPlane_Address;
                          cp_Port := parsed_value Atoi "AKSH_CONTROLPLANE_PORT" (y_ControlPlane yc ≫= ycp_Port) ControlPlane_Port |};
     c_Pod := {| po_Namespace := string_value "AKSH_POD_NAMESPACE" (y_Pod yc ≫= ypo_Namespace) Pod_Namespace;
                 po_Name := string_value "AKSH_POD_NAME" (y_Pod yc ≫= ypo_Name) Pod_Name;
                 po_UID := string_value "AKSH_POD_UID" (y_Pod yc ≫= ypo_UID) Pod_UID;
                 po_ServiceAccount := string_value "AKSH_AGENT_SERVICE_ACCOUNT" (y_Pod yc ≫= ypo_ServiceAccount) Pod_ServiceAccount |} |}.

(** Every duration the file gives is one; every typed variable that is set reads. *)
Definition file_ok : bool :=
  forallb (fun v => match v with Some s => bool_decide (is_Some (ParseDuration (TrimSpace s))) | None => true end)
    [ y_Policy yc ≫= yp_MaxStaleness; y_Policy yc ≫= yp_Resync; y_Policy yc ≫= yp_FirstSnapshotTimeout;
      y_Capture yc ≫= yc_AttachCheckInterval; y_Capture yc ≫= yc_DestMaxAge ].
Definition reads (b : binding) : bool :=
  str_eqb (getenv (b_key b)) "" || match b_parse b (getenv (b_key b)) with Ok _ => true | Err _ => false end.
Definition env_ok : bool := forallb reads bindings.
Definition env_set : bool := existsb (fun b => negb (str_eqb (getenv (b_key b)) "")) bindings.

(** A statement that cannot fail writes its field. *)
Definition writes (s : step) (g : Config -> Config) : Prop := forall c, s c = Ok (g c).

Lemma assign_writes {A} (v : option A) (f : field A) : writes (assign v f) (fun c => fput f (default (fget f c) v) c).
Proof. intros c. unfold assign. destruct v; [done|]. cbn [default]. by rewrite fput_get. Qed.

Lemma assignDuration_writes key v (f : field Duration) :
  match v with Some s => bool_decide (is_Some (ParseDuration (TrimSpace s))) | None => true end = true ->
  writes (assignDuration key v f) (fun c => fput f (default (fget f c) (file_duration v)) c).
Proof.
  intros Hv c. unfold assignDuration. destruct v as [s|]; cbn [file_duration mbind option_bind default]; [|by rewrite fput_get].
  case_bool_decide as Hd; [|done]. destruct Hd as [d ->]. done.
Qed.

Lemma run_steps_writes l gs : Forall2 writes l gs -> forall c, run_steps l c = Ok (fold_left (fun c g => g c) gs c).
Proof. induction 1 as [|s g l gs Hw _ IH]; intros c; cbn [run_steps fold_left]; [done|]. rewrite Hw. apply IH. Qed.

Lemma run_steps_ok l : forall c c', run_steps l c = Ok c' -> Forall (fun s => exists c1 c2, s c1 = Ok c2) l.
Proof.
  induction l as [|s l IH]; intros c c'; cbn [run_steps]; [constructor|].
  destruct (s c) as [c1|] eqn:E; [|done]. intros Hs%IH. constructor; eauto.
Qed.

Lemma assignDuration_ok key v f : (exists c1 c2, assignDuration key v f c1 = Ok c2) ->
  match v with Some s => bool_decide (is_Some (ParseDuration (TrimSpace s))) | None => true end = true.
Proof.
  intros (c1 & c2 & H). destruct v as [s|]; [|done]. unfold assignDuration in H.
  destruct (ParseDuration (TrimSpace s)); [|done]. by rewrite bool_decide_true by eauto.
Qed.

Definition puts (b : binding) (g : Config -> Config) : Prop :=
  forall u c, apply_binding getenv b (u, c) = Ok (u || negb (str_eqb (getenv (b_key b)) ""), g c).

Lemma set_puts key f : puts (set key f) (fun c => fput f (if str_eqb (getenv key) "" then fget f c else getenv key) c).
Proof.
  intros u c. unfold apply_binding. cbn [b_key set b_parse rbind b_field snd].
  destruct (str_eqb _ _); cbn [negb]; [by rewrite orb_false_r, fput_get|by rewrite orb_true_r].
Qed.

Lemma typed_puts {A} key (e : config_error) (parse : gostring -> option A) (f : field A) :
  let b := Binding A key (fun v => or_error e (parse (TrimSpace v))) f in
  reads b = true ->
  puts b (fun c => fput f (if str_eqb (getenv key) "" then fget f c else default (fget f c) (parse (TrimSpace (getenv key)))) c).
Proof.
  unfold reads, puts, apply_binding. cbn [b_key b_parse b_field snd]. intros Hr u c.
  destruct (str_eqb _ _); cbn [negb orb] in *; [by rewrite orb_false_r, fput_get|].
  destruct (parse _); [|done]. cbn. by rewrite orb_true_r.
Qed.

Lemma apply_bindings_puts l gs : Forall2 puts l gs -> forall u c,
  apply_bindings getenv l (u, c) =
  Ok (u || existsb (fun b => negb (str_eqb (getenv (b_key b)) "")) l, fold_left (fun c g => g c) gs c).
Proof.
  induction 1 as [|b g l gs Hw _ IH]; intros u c; cbn [apply_bindings fold_left existsb]; [by rewrite orb_false_r|].
  rewrite Hw. cbn [rbind]. rewrite IH. by rewrite orb_assoc.
Qed.

Lemma apply_bindings_ok l : forall st st', apply_bindings getenv l st = Ok st' -> forallb reads l = true.
Proof.
  induction l as [|b l IH]; intros st st'; cbn [apply_bindings forallb]; [done|]. unfold apply_binding at 1, reads at 1.
  destruct (str_eqb _ _); cbn [rbind orb andb]; [apply IH|]. destruct (b_parse b _); [apply IH|done].
Qed.

(** The statements of [applyYAML] and of [applyEnv] write, one after the other, what
    [resolved] says. *)
Lemma layers_resolve : file_ok = true -> env_ok = true ->
  exists cfg, applyYAML defaults yc = Ok cfg /\
  exists cfg', applyEnv getenv cfg = Ok (env_set, cfg') /\ trimFields cfg' = resolved.
Proof.
  intros Hf He. unfold file_ok in Hf. cbn [forallb] in Hf. rewrite !andb_true_iff in Hf.
  destruct Hf as (H1 & H2 & H3 & H4 & H5 & _).
  unfold env_ok, bindings in He. cbn [forallb] in He.
  repeat (apply andb_true_iff in He as [? He]).
  eexists. split.
  { unfold applyYAML. erewrite run_steps_writes; [reflexivity|]. unfold yaml_steps.
    repeat (apply Forall2_cons; split; [first [apply assign_writes | apply assignDuration_writes; assumption]|]). apply Forall2_nil_2. }
  eexists. split.
  { unfold applyEnv. erewrite apply_bindings_puts; [reflexivity|]. unfold bindings.
    repeat (apply Forall2_cons; split; [first [apply set_puts | apply typed_puts; assumption]|]). apply Forall2_nil_2. }
  reflexivity.
Qed.

Lemma layers_ok cfg : applyYAML defaults yc = Ok cfg -> file_ok = true.
Proof.
  intros H. apply run_steps_ok in H. unfold yaml_steps in H. repeat (apply Forall_cons in H as [? H]).
  unfold file_ok. cbn [forallb]. rewrite !andb_true_iff.
  repeat split; eapply assignDuration_ok; eassumption.
Qed.
End Precedence.

Section Loading.
Context `{U : Unicode} `{F : ConfigFiles}.

(** The decoded file, the zero value when no file is named. *)
Definition file_layer (path : gostring) : option yamlConfig :=
  if str_eqb path "" then Some empty_yaml else ReadFile path ≫= UnmarshalStrict.

Definition load_sources (path : gostring) (getenv : gostring -> gostring) : list gostring :=
  [bs "defaults"] ++ (if str_eqb path "" then [] else [bs "file"]) ++ (if env_set getenv then [bs "env"] else []).

Lemma Ok_pair_inj {E A B} (a a' : A) (b b' : B) : @Ok E _ (a, b) = Ok (a', b') -> a = a' /\ b = b'.
Proof. intros H. split; congruence. Qed.

(** What follows the file layer. *)
Lemma env_layer getenv yc c0 src cfg sources : applyYAML defaults yc = Ok c0 ->
  rbind (applyEnv getenv c0) (fun '(envUsed, cfg) => Ok (trimFields cfg, if envUsed then src ++ [bs "env"] else src)) = Ok (cfg, sources) <->
  env_ok getenv = true /\ cfg = resolved getenv yc /\ sources = src ++ (if env_set getenv then [bs "env"] else []).
Proof.
  intros Hy. pose proof (layers_ok yc c0 Hy) as Hf.
  assert (env_ok getenv = true -> exists c, applyEnv getenv c0 = Ok (env_set getenv, c) /\ trimFields c = resolved getenv yc) as Hr.
  { intros He. destruct (layers_resolve getenv yc Hf He) as (c1 & H1 & H2). rewrite Hy in H1.
    assert (c0 = c1) as -> by congruence. exact H2. }
  split.
  - destruct (applyEnv getenv c0) as [[u c]|] eqn:Ee; [|done]. cbn [rbind]. intros [Hc Hs]%Ok_pair_inj.
    pose proof Ee as Ho. apply apply_bindings_ok in Ho. destruct (Hr Ho) as (c' & H1 & H2).
    apply Ok_pair_inj in H1 as [H1 H1']. rewrite <- Hc, <- Hs, <- H2, H1, H1'. split_and!; [done..|].
    destruct (env_set getenv); [done|by rewrite app_nil_r].
  - intros (He & -> & ->). destruct (Hr He) as (c & -> & <-). cbn [rbind]. destruct (env_set getenv); [done|by rewrite app_nil_r].
Qed.

(** Loading is resolution by precedence.  [LoadFrom] succeeds exactly when the named file, if any, reads and decodes, every duration
    of it is one and every typed variable that is set reads; the configuration then has in each of its 38 fields the value of the
    field's AKSH_ variable when that is not empty, else the file's value, else the default, strings trimmed, and the log names the
    sources used.  [resolved] gives each field on its own; the code overwrites one record statement by statement. *)
Theorem LoadFrom_resolves path getenv cfg sources :
  LoadFrom path getenv = Ok (cfg, sources) <->
  exists yc, file_layer path = Some yc /\ file_ok yc = true /\ env_ok getenv = true /\
             cfg = resolved getenv yc /\ sources = load_sources path getenv.
Proof.
  unfold LoadFrom, loadFromWithLogger, file_layer, load_sources. destruct (str_eqb path ""); cbn [negb].
  - cbn [rbind]. rewrite (env_layer getenv empty_yaml) by reflexivity. split.
    + intros (He & -> & ->). by exists empty_yaml.
    + intros (yc & Hy & _ & He & -> & ->). assert (yc = empty_yaml) as -> by congruence. done.
  - destruct (ReadFile path) as [data|]; cbn [mbind option_bind]; [|split; [done|by intros (? & ? & _)]].
    destruct (UnmarshalStrict data) as [yc|]; [|split; [done|by intros (? & ? & _)]].
    destruct (applyYAML defaults yc) as [c0|e] eqn:Ey; cbn [rbind].
    + rewrite (env_layer getenv yc) by exact Ey. pose proof (layers_ok yc c0 Ey). split.
      * intros (He & -> & ->). by exists yc.
      * intros (yc' & Hy & _ & He & -> & ->). assert (yc' = yc) as -> by congruence. done.
    + split; [done|]. intros (yc' & Hy & Hf & He & _). assert (yc' = yc) as -> by congruence.
      destruct (layers_resolve getenv yc Hf He) as (c1 & H1 & _). congruence.
Qed.
End Loading.

(** ** An accepted configuration and the options of package [capture] *)

Section Accepted.
Context `{U : Unicode} `{N : NetURL}.

(** The endpoint that the kernel's configuration record can hold. *)
Definition dns_expressible (a : AddrPort) : bool :=
  negb (AddrPort_IsValid a) || (Is4 (Unmap (ap_Addr a)) && negb (ap_Port a =? 0)).

Lemma nonempty_or_nonempty s d : str_eqb d "" = false -> str_eqb (nonempty_or s d) "" = false.
Proof. unfold nonempty_or. by destruct (str_eqb s "") eqn:E. Qed.

Lemma nonzero_or_range v d lo hi : lo <= d <= hi ->
  negb (v =? 0) && ((v <? lo) || (hi <? v)) = false -> (nonzero_or v d <? lo) || (hi <? nonzero_or v d) = false.
Proof.
  unfold nonzero_or. intros Hd. destruct (v =? 0); cbn [negb andb]; [|done]. intros _.
  apply orb_false_iff. split; apply Z.ltb_ge; lia.
Qed.

Lemma validateCapture_None c : validateCapture c = None ->
  str_eqb (TrimSpace (cc_PodPath c)) "" = false /\ cc_ProxyUID c <> 0 /\ cc_CaptureIPv6 c = false /\
  (cc_BlockNonTCP c || cc_AllowUnsafeStartup c = true) /\ (cc_RunProbe c || cc_AllowUnsafeStartup c = true) /\
  negb (cc_AttachCheckInterval c =? 0) &&
    ((cc_AttachCheckInterval c <? minAttachCheckInterval) || (maxAttachCheckInterval <? cc_AttachCheckInterval c)) = false /\
  negb (cc_MapEntries c =? 0) && ((cc_MapEntries c <? minMapEntries) || (maxMapEntries <? cc_MapEntries c)) = false /\
  negb (cc_DestMaxAge c =? 0) && ((cc_DestMaxAge c <? minDestMaxAge) || (maxDestMaxAge <? cc_DestMaxAge c)) = false.
Proof.
  unfold validateCapture. change (10 * Second) with minAttachCheckInterval. change (60 * Second) with maxAttachCheckInterval.
  change (1 * Second) with minDestMaxAge. change (120 * Second) with maxDestMaxAge. change 1024 with minMapEntries.
  change 65536 with maxMapEntries.
  destruct (str_eqb _ _); [done|]. destruct (Z.eqb_spec (cc_ProxyUID c) 0); [done|]. destruct (cc_CaptureIPv6 c); [done|].
  destruct (cc_BlockNonTCP c), (cc_AllowUnsafeStartup c), (cc_RunProbe c); cbn [negb andb orb]; try done;
    (destruct (_ && _) eqn:E1; [done|]); (destruct (_ && _) eqn:E2 in |- *; [done|]); (destruct (_ && _) eqn:E3 in |- *; [done|]); done.
Qed.

Lemma Validate_None c : Validate c = None ->
  validateLoopbackAddress (lc_Address (c_Listener c)) = None /\ validateCapture (c_Capture c) = None.
Proof.
  unfold Validate. repeat (destruct (str_eqb _ _); [done|]). destruct (negb _); [done|].
  destruct (validateLoopbackAddress _); [done|]. repeat (destruct (_ <? 0); [done|]). destruct (str_eqb _ _); done.
Qed.

Lemma validateLoopbackAddress_None a : validateLoopbackAddress a = None ->
  exists ap, ParseAddrPort (TrimSpace a) = Some ap /\ Is4 (Unmap (ap_Addr ap)) = true /\ IsLoopback (Unmap (ap_Addr ap)) = true.
Proof.
  unfold validateLoopbackAddress. destruct (ParseAddrPort _) as [ap|]; [|done]. intros H. exists ap.
  destruct (Is4 _); [|done]. by destruct (IsLoopback _).
Qed.

Lemma accepted_listener cfg : Validate cfg = None ->
  let ap := co_ListenerAddr (CaptureOptionsFromConfig cfg true) in
  AddrPort_IsValid ap = true /\ Is4 (Unmap (ap_Addr ap)) = true /\ IsLoopback (Unmap (ap_Addr ap)) = true.
Proof.
  intros [Hl _]%Validate_None. apply validateLoopbackAddress_None in Hl as (ap & Hap & H4 & Hlo).
  cbn [CaptureOptionsFromConfig co_ListenerAddr]. rewrite Hap. split; [|done].
  unfold AddrPort_IsValid, Addr_IsValid. apply negb_true_iff, bool_decide_eq_false. intros E. unfold default, id in E. by rewrite E in H4.
Qed.

Lemma accepted_uid cfg : validateCapture (c_Capture cfg) = None ->
  co_ProxyUID (CaptureOptionsFromConfig cfg true) = cc_ProxyUID (c_Capture cfg) /\ cc_ProxyUID (c_Capture cfg) <> 0.
Proof.
  intros (_ & Hu & _)%validateCapture_None. split; [|done]. cbn [CaptureOptionsFromConfig co_ProxyUID]. unfold nonzero_or.
  by rewrite (proj2 (Z.eqb_neq _ _) Hu).
Qed.

Lemma accepted_validate cfg : Validate cfg = None ->
  let o := CaptureOptionsFromConfig cfg true in
  Options_Validate (Some o) = (if dns_expressible (co_DNSServer o) then validateBypassCIDRs (co_BypassCIDRs o) else Some ErrInvalidDNSServer).
Proof.
  intros Hval o. destruct (accepted_listener cfg Hval) as (Hv & H4 & Hlo). apply Validate_None in Hval as [_ Hc].
  destruct (accepted_uid cfg Hc) as [Hou _]. apply validateCapture_None in Hc as (Hp & Hu & H6 & Hb & Hr & Hi & Hm & Hd).
  fold o in Hv, H4, Hlo, Hou.
  unfold Options_Validate. rewrite Hou, Hv, H4, Hlo. cbn [andb orb negb].
  assert (str_eqb (co_PodPath o) "" = false) as ->.
  { subst o. cbn [CaptureOptionsFromConfig co_PodPath]. unfold nonempty_or.
    destruct (str_eqb (cc_PodPath (c_Capture cfg)) "") eqn:E; [|done]. apply str_eqb_eq in E. by rewrite E in Hp. }
  assert (str_eqb (co_HostCgroupMount o) "" = false) as -> by (by apply nonempty_or_nonempty).
  assert (str_eqb (co_PinRoot o) "" = false) as -> by (by apply nonempty_or_nonempty).
  subst o. cbn [CaptureOptionsFromConfig co_Metrics co_CaptureIPv6 co_BlockNonTCP co_RunProbe co_AllowUnsafeStartup
    co_AttachCheckInterval co_MapEntries co_DestMaxAge co_PinLinks negb].
  rewrite (proj2 (Z.eqb_neq _ _) Hu), H6. rewrite <- !negb_orb, Hb, Hr. cbn [negb]. rewrite andb_false_r.
  rewrite (nonzero_or_range _ _ _ _ (ltac:(by vm_compute) : minAttachCheckInterval <= co_AttachCheckInterval DefaultOptions <= maxAttachCheckInterval) Hi).
  rewrite (nonzero_or_range _ _ _ _ (ltac:(by vm_compute) : minMapEntries <= co_MapEntries DefaultOptions <= maxMapEntries) Hm).
  rewrite (nonzero_or_range _ _ _ _ (ltac:(by vm_compute) : minDestMaxAge <= co_DestMaxAge DefaultOptions <= maxDestMaxAge) Hd).
  rewrite !andb_false_r. unfold dns_expressible.
  generalize (co_DNSServer (CaptureOptionsFromConfig cfg true)). intros d.
  destruct (AddrPort_IsValid d); cbn [negb andb orb]; [|by destruct (validateBypassCIDRs _)].
  destruct (Is4 (Unmap (ap_Addr d))); cbn [negb andb orb]; [|done]. destruct (ap_Port d =? 0); cbn [negb]; [done|].
  by destruct (validateBypassCIDRs _).
Qed.

Lemma accepted_image cfg : Validate cfg = None ->
  let o := CaptureOptionsFromConfig cfg true in
  dns_expressible (co_DNSServer o) = true -> forall EN : Endian, exists c,
    buildConfigImage o = Ok (write_config c) /\ ac_ProxyUID c = cc_ProxyUID (c_Capture cfg) /\ ac_ProxyUID c <> 0 /\
    Z.testbit (ac_Flags c) 0 = true /\ Z.testbit (ac_Flags c) 2 = true /\
    (cc_AllowUnsafeStartup (c_Capture cfg) = false -> Z.testbit (ac_Flags c) 1 = true) /\
    exists a, Is4 a = true /\ IsLoopback a = true /\ ac_ListenerIP4 c = native_get (As4 a).
Proof.
  intros Hval o. destruct (accepted_listener cfg Hval) as (Hv & H4 & Hlo). apply Validate_None in Hval as [_ Hc].
  destruct (accepted_uid cfg Hc) as [Hou Hu]. apply validateCapture_None in Hc as (_ & _ & H6 & Hb & _).
  fold o in Hv, H4, Hlo, Hou.
  intros Hdns EN. unfold buildConfigImage. unfold endpoint_words at 1. rewrite Hv, H4. cbn [negb].
  assert (exists w, endpoint_words (co_DNSServer o) = Some w) as [[dip dport] Hw].
  { unfold endpoint_words, dns_expressible in *. destruct (AddrPort_IsValid (co_DNSServer o)); cbn [negb orb] in *; [|by eexists].
    apply andb_true_iff in Hdns as [-> _]. by eexists. }
  rewrite Hw. eexists. split; [reflexivity|]. cbn [ac_ProxyUID ac_Flags ac_ListenerIP4]. rewrite Hou.
  assert (co_BlockNonTCP o = cc_BlockNonTCP (c_Capture cfg)) as -> by done.
  assert (co_CaptureIPv6 o = false) as -> by done.
  split_and!; [done|done| | | |by exists (Unmap (ap_Addr (co_ListenerAddr o)))].
  + by destruct (cc_BlockNonTCP _).
  + by destruct (cc_BlockNonTCP _).
  + intros Hun. rewrite Hun, orb_false_r in Hb. by rewrite Hb.
Qed.

(** What the configuration accepts, capture accepts, except for the two rules that the configuration leaves to capture.  When
    [Validate] passes, the options mapped from the configuration fail [capture.Options.Validate] only because the DNS server is not
    IPv4 with a port, or because of the rules on bypass prefixes; and the kernel configuration built from them enables capture,
    denies IPv6, blocks other protocols unless unsafe startup was allowed, and redirects to a loopback IPv4 listener. *)
Theorem accepted_options cfg : Validate cfg = None ->
  let o := CaptureOptionsFromConfig cfg true in
  Options_Validate (Some o) = (if dns_expressible (co_DNSServer o) then validateBypassCIDRs (co_BypassCIDRs o) else Some ErrInvalidDNSServer) /\
  (dns_expressible (co_DNSServer o) = true -> forall EN : Endian, exists c,
     buildConfigImage o = Ok (write_config c) /\ ac_ProxyUID c = cc_ProxyUID (c_Capture cfg) /\ ac_ProxyUID c <> 0 /\
     Z.testbit (ac_Flags c) 0 = true /\ Z.testbit (ac_Flags c) 2 = true /\
     (cc_AllowUnsafeStartup (c_Capture cfg) = false -> Z.testbit (ac_Flags c) 1 = true) /\
     exists a, Is4 a = true /\ IsLoopback a = true /\ ac_ListenerIP4 c = native_get (As4 a)).
Proof. intros Hval o. split; [exact (accepted_validate cfg Hval)|exact (accepted_image cfg Hval)]. Qed.
End Accepted.

(** ** Examples *)

(** An instance of [NetURL] that knows the scheme https and the host after it. *)
#[program] Definition https_urls : NetURL :=
  {| url_other := unit;
     url_Parse s :=
       Some (if HasPrefix s "https://"
             then {| u_Scheme := "https"; u_Host := hd [] (Split (drop 8 s) "/"); u_Path := []; u_RawPath := []; u_other := tt |}
             else {| u_Scheme := []; u_Host := []; u_Path := s; u_RawPath := []; u_other := tt |});
     url_String u := u_Path u |}.
Next Obligation.
  intros s u Hs. cbn. intros [= <-]. destruct (HasPrefix s "https://") eqn:E; [|done].
  apply HasPrefix_spec in E as [t ->]. destruct Hs. apply elem_of_app. left. by apply (bool_decide_unpack _).
Qed.

Definition demo_env (vars : list (string * string)) (key : gostring) : gostring :=
  match List.find (fun p => str_eqb (bs (fst p)) key) vars with Some p => bs (snd p) | None => [] end.
Definition demo_vars : list (string * string) :=
  [("AKSH_ENTRA_TENANT_ID", " tenant "); ("AKSH_ENTRA_CLIENT_ID", "client"); ("AKSH_POLICY_NAMESPACE", "team-a");
   ("AKSH_CAPTURE_POD_PATH", "/host/sys/fs/cgroup/kubepods/pod1"); ("AKSH_CAPTURE_PROXY_UID", "1774");
   ("AKSH_CAPTURE_BLOCK_NON_TCP", "true"); ("AKSH_CAPTURE_RUN_PROBE", " 1 "); ("AKSH_CAPTURE_DNS_SERVER", "10.0.0.10:53");
   ("AKSH_POLICY_MAX_STALENESS", "1m30s")]%string.
(** A file that sets the namespace, which the environment overrides, and the bypass list. *)
Definition demo_yaml : yamlConfig :=
  {| y_Listener := None; y_CA := None;
     y_Policy := Some {| yp_Namespace := Some (bs "file"); yp_MaxStaleness := Some (bs "10s"); yp_Resync := Some (bs "2s");
                         yp_FirstSnapshotTimeout := None; yp_PodLabelsPath := None |};
     y_Capture := Some {| yc_PodPath := None; yc_HostCgroupMount := None; yc_LocalCgroupMount := None; yc_ProcCgroupPath := None;
       yc_ProxyUID := None; yc_ProxyGID := None; yc_DNSServer := None; yc_BypassCIDRs := Some (bs "10.96.0.0/12, "); yc_CaptureIPv6 := None;
       yc_MountBPFFS := None; yc_BlockNonTCP := None; yc_RunProbe := None; yc_AllowUnsafeStartup := None;
       yc_AttachCheckInterval := None; yc_PinLinks := None; yc_PinRoot := None; yc_PinRootPrivate := None;
       yc_MapEntries := None; yc_DestMaxAge := None |};
     y_ControlPlane := None; y_Token := None; y_Audit := None; y_Pod := None |}.
Definition demo_files : ConfigFiles :=
  {| ReadFile p := if str_eqb p "/etc/aksh.yaml" then Some (bs "doc") else None; UnmarshalStrict _ := Some demo_yaml |}.

Definition demo_config : Config := @resolved ascii_only (demo_env demo_vars) demo_yaml.

Example demo_loads :
  @LoadFrom ascii_only demo_files "/etc/aksh.yaml" (demo_env demo_vars)
  = Ok (demo_config, [bs "defaults"; bs "file"; bs "env"]) /\
  pc_Namespace (c_Policy demo_config) = "team-a" /\ pc_MaxStaleness (c_Policy demo_config) = 90 * Second /\
  pc_Resync (c_Policy demo_config) = 2 * Second /\ ec_TenantID (tc_Entra (c_Token demo_config)) = "tenant" /\
  @LoadFrom ascii_only demo_files "/etc/aksh.yaml" (demo_env [("AKSH_CAPTURE_MAP_ENTRIES", "x")%string])
  = Err (EnvNotU32 "AKSH_CAPTURE_MAP_ENTRIES").
Proof. vm_compute. repeat split. Qed.

Lemma accepted_options_witness :
  Validate (U := ascii_only) (N := https_urls) demo_config = None /\
  Options_Validate (Some (CaptureOptionsFromConfig (U := ascii_only) demo_config true)) = None.
Proof.
  assert (Validate (U := ascii_only) (N := https_urls) demo_config = None) as H by (vm_compute; reflexivity).
  split; [exact H|]. etransitivity; [exact (proj1 (accepted_options (U := ascii_only) (N := https_urls) demo_config H))|].
  vm_compute. reflexivity.
Defined.

(** Whitespace in a directory or path collapses to the empty string, and nothing rejects it. *)
Lemma blank_path_accepted :
  let getenv := demo_env (("AKSH_CA_PRIV_DIR", " ") :: ("AKSH_POLICY_POD_LABELS_PATH", " ") :: demo_vars)%string in
  let cfg := @resolved ascii_only getenv empty_yaml in
  @LoadFrom ascii_only demo_files "" getenv = Ok (cfg, [bs "defaults"; bs "env"]) /\
  ca_PrivDir (c_CA cfg) = [] /\ pc_PodLabelsPath (c_Policy cfg) = [] /\ Validate (U := ascii_only) (N := https_urls) cfg = None.
Proof. vm_compute. repeat split. Qed.
