(* ===== verification/Entra.v ===== *)
(** * [internal/token/entra]: the token exchange and the local self test

    [acquirer.go] and [selftest.go].  The file system, the HTTP client and [encoding/json] are the
    environment; the form that is posted is built and encoded as [net/url] does, so that what the
    endpoint reads can be compared with what was configured.  Quotation marks in messages are
    left out. *)

From S2P Require Import Prelude GoStrings GoRuntime Canonicalize Compile Credential TokenGuard Upstream Capture GoParse Config.
#[local] Open Scope Z_scope.

(** ** [url.Values.Encode] *)

Definition query_unreserved (c : ascii) : bool :=
  is_lower c || is_upper c || is_digit c || ascii_eqb c "-" || ascii_eqb c "_" || ascii_eqb c "." || ascii_eqb c "~".
Definition hex_upper (d : Z) : ascii := byte_of (if d <? 10 then 48 + d else 55 + d).
Definition query_escape_byte (c : ascii) : gostring :=
  if query_unreserved c then [c]
  else if ascii_eqb c " " then ["+"%char]
  else ["%"%char; hex_upper (Z.shiftr (code c) 4); hex_upper (Z.land (code c) 15)].
Definition QueryEscape (s : gostring) : gostring := concat (map query_escape_byte s).

(** Keys in increasing order; every key of the program has one value. *)
Definition form : Type := list (gostring * gostring).
Definition Encode (f : form) : gostring := Join (map (fun '(k, v) => QueryEscape k ++ "="%char :: QueryEscape v) f) "&".

(** What the endpoint reads: [url.ParseQuery], without its treatment of semicolons. *)
Fixpoint QueryUnescape (s : gostring) : option gostring :=
  match s with
  | [] => Some []
  | c :: rest =>
      if ascii_eqb c "%" then
        match rest with
        | h :: l :: s' =>
            if (unhex h <? 0) || (unhex l <? 0) then None else cons (escaped_byte h l) <$> QueryUnescape s'
        | _ => None
        end
      else cons (if ascii_eqb c "+" then " "%char else c) <$> QueryUnescape rest
  end.
Definition parse_pair (s : gostring) : option (gostring * gostring) :=
  let '(k, v) := match IndexByte s "=" with Some i => (take i s, drop (S i) s) | None => (s, []) end in
  k' ← QueryUnescape k; v' ← QueryUnescape v; Some (k', v').
Definition ParseQuery (s : gostring) : option form := mapM parse_pair (List.filter (fun p => negb (str_eqb p "")) (Split s "&")).

(** ** Options *)

Definition providerEntra : gostring := "entra".
Record EntraOptions := { eo_TenantID : gostring; eo_ClientID : gostring; eo_Authority : gostring; eo_SATokenPath : gostring;
                         eo_HTTPClient : bool; eo_Timeout : Duration }.
Record Acquirer := { a_tenantID : gostring; a_clientID : gostring; a_authority : gostring; a_saTokenPath : gostring; a_timeout : option Duration }.

Inductive entra_error := EmptyTenantID | EmptyClientID | EmptySATokenPath | EmptyAuthority | AuthorityNotAbsolute | AuthorityScheme
| SATokenUnreadable (e : error) | SATokenNotJWT.

Definition defaultTokenTTL : Duration := 5 * Minute.
Record tokenResponse := { tr_AccessToken : gostring; tr_ExpiresIn : Z; tr_Error : gostring; tr_ErrorDesc : gostring }.

(** A response: its status, its Location header (empty without one), the bytes the peer sends and the error after them, if any. *)
Record response := { rs_StatusCode : Z; rs_Location : gostring; rs_Body : gostring; rs_BodyErr : option error }.
(** A POST with its body, or a GET without one. *)
Inductive request := Post (url contentType body : gostring) | GetURL (url : gostring).
Definition rq_URL (q : request) : gostring := match q with Post url _ _ | GetURL url => url end.

(** [http_RoundTrip]: the transport's answer to one request; an error may come from a connection that was never made, or from one
    that broke after the request was sent. *)
Class EntraEnv := {
  sa_ReadFile : gostring -> result error gostring;
  http_NewRequest : gostring -> option error;             (* the error of making a request to this URL *)
  http_RoundTrip : request -> result error response;
  url_Resolve : gostring -> gostring -> result error gostring;   (* [base.Parse(ref)] *)
  json_token : gostring -> result error tokenResponse;
  json_claims : gostring -> option bool                   (* decodes into a map; whether the map is not nil *)
}.

Section Entra.
Context `{U : Unicode} `{N : NetURL}.

Definition validateAuthority (authority : gostring) : option entra_error :=
  if str_eqb (TrimSpace authority) "" then Some EmptyAuthority
  else match url_Parse authority with
       | None => Some AuthorityNotAbsolute
       | Some parsed =>
           if str_eqb (u_Scheme parsed) "" || str_eqb (u_Host parsed) "" then Some AuthorityNotAbsolute
           else if negb (str_eqb (ToLower (u_Scheme parsed)) "https") then Some AuthorityScheme else None
       end.

(** The checks that [NewAcquirer] and [LocalSelfTest] share. *)
Definition check_options (opts : EntraOptions) : option entra_error :=
  if str_eqb (TrimSpace (eo_TenantID opts)) "" then Some EmptyTenantID
  else if str_eqb (TrimSpace (eo_ClientID opts)) "" then Some EmptyClientID
  else if str_eqb (TrimSpace (eo_SATokenPath opts)) "" then Some EmptySATokenPath
  else validateAuthority (eo_Authority opts).

(** [a_timeout]: the timeout of the client made here; a client that was passed in is kept. *)
Definition NewAcquirer (opts : EntraOptions) : result entra_error Acquirer :=
  match check_options opts with
  | Some e => Err e
  | None =>
      let timeout := if eo_Timeout opts <=? 0 then 10 * Second else eo_Timeout opts in
      Ok {| a_tenantID := eo_TenantID opts; a_clientID := eo_ClientID opts; a_authority := eo_Authority opts;
            a_saTokenPath := eo_SATokenPath opts; a_timeout := if eo_HTTPClient opts then None else Some timeout |}
  end.

Context `{E : EntraEnv}.

(** ** [http.Client.Do] with the default policy for redirects *)

(** The request that a redirect leads to: 307 and 308 repeat the request with its body, 301, 302 and 303 make it a GET, and a body
    that was dropped is not sent again. *)
Definition redirected (status : Z) (q : request) (url : gostring) : option request :=
  if (status =? 301) || (status =? 302) || (status =? 303) then Some (GetURL url)
  else if (status =? 307) || (status =? 308)
  then Some match q with Post _ contentType body => Post url contentType body | GetURL _ => GetURL url end
  else None.

Definition too_many_redirects : error := Errorf "stopped after 10 redirects".
(** The answer that is returned, with the requests given to the transport; [more] further redirects are followed. *)
Fixpoint client_do (more : nat) (q : request) : result error response * list request :=
  match http_RoundTrip q with
  | Err e => (Err e, [q])
  | Ok resp =>
      if str_eqb (rs_Location resp) [] then (Ok resp, [q])
      else match redirected (rs_StatusCode resp) q [] with
           | None => (Ok resp, [q])
           | Some _ =>
               match url_Resolve (rq_URL q) (rs_Location resp) with
               | Err e => (Err e, [q])
               | Ok url =>
                   match more, redirected (rs_StatusCode resp) q url with
                   | S more, Some q' => let '(r, l) := client_do more q' in (r, q :: l)
                   | _, _ => (Err too_many_redirects, [q])
                   end
               end
           end
  end.
(** Ten requests at most. *)
Definition http_Do (q : request) : result error response * list request := client_do 9 q.

(** ** [Acquire] *)

Definition maxResponse : Z := 2 ^ 20.
(** [io.ReadAll(io.LimitReader(body, 1<<20))]: what lies behind the limit, an error included, is not read. *)
Definition read_limited (r : response) : result error gostring :=
  if maxResponse <=? Z.of_nat (length (rs_Body r)) then Ok (take (Z.to_nat maxResponse) (rs_Body r))
  else match rs_BodyErr r with Some e => Err e | None => Ok (rs_Body r) end.

Definition status_message (st : Z) : gostring := bs "entra: token endpoint status " ++ Itoa (Z.to_nat st).

Definition classifyHTTPFailure (st : Z) (body : gostring) : acquire_error :=
  if (st =? 429) || (st =? 408) || (500 <=? st)
  then {| ae_Class := AcquireErrorTransient; ae_Message := status_message st; ae_Cause := None |}
  else
    let oauthErr := match json_token body with Ok tr => tr_Error tr | Err _ => [] end in
    let msg := if str_eqb oauthErr "" then status_message st else status_message st ++ bs " (" ++ oauthErr ++ bs ")" in
    {| ae_Class := AcquireErrorPermanent; ae_Message := msg; ae_Cause := None |}.

Definition assertion_type : gostring := "urn:ietf:params:oauth:client-assertion-type:jwt-bearer".
(** In the order of the encoding. *)
Definition token_form (a : Acquirer) (rc : ResolvedCredential) (assertion : gostring) : form :=
  [(bs "client_assertion", TrimSpace assertion); (bs "client_assertion_type", assertion_type); (bs "client_id", a_clientID a);
   (bs "grant_type", bs "client_credentials"); (bs "scope", Join (WireScopes rc) " ")].

Definition fails (class : AcquireErrorClass) (msg : gostring) (cause : option error) : result error Token :=
  Err (AcquireError class msg cause).

(** [now]: the clock after the exchange.  With the requests that were given to the transport. *)
Definition Acquire (a : Acquirer) (rc : ResolvedCredential) (now : Time) : result error Token * list request :=
  if negb (str_eqb (rc_Provider rc) providerEntra) then
    (fails AcquireErrorPermanent (bs "entra: acquirer cannot serve provider " ++ rc_Provider rc) None, [])
  else match sa_ReadFile (a_saTokenPath a) with
  | Err err => (fails AcquireErrorLocal (bs "entra: read projected SA token " ++ a_saTokenPath a) (Some err), [])
  | Ok assertion =>
      let body := Encode (token_form a rc assertion) in
      match http_NewRequest (a_authority a) with
      | Some err => (fails AcquireErrorLocal "entra: build token request" (Some err), [])
      | None =>
          let req := Post (a_authority a) "application/x-www-form-urlencoded" body in
          let '(answer, reqs) := http_Do req in
          (match answer with
           | Err err => fails AcquireErrorTransient "entra: token endpoint request failed" (Some err)
           | Ok resp =>
               match read_limited resp with
               | Err err => fails AcquireErrorTransient "entra: read token endpoint response body" (Some err)
               | Ok body =>
                   if negb (rs_StatusCode resp =? 200) then Err (from_acquire (classifyHTTPFailure (rs_StatusCode resp) body))
                   else match json_token body with
                   | Err err => fails AcquireErrorTransient "entra: decode token response" (Some err)
                   | Ok tr =>
                       if str_eqb (tr_AccessToken tr) "" then
                         fails AcquireErrorPermanent "entra: token response had empty access_token" None
                       else
                         let ttl := wrap64 (tr_ExpiresIn tr * Second) in
                         let ttl := if ttl <=? 0 then defaultTokenTTL else ttl in
                         Ok (NewToken (tr_AccessToken tr) (Add now ttl))
                   end
               end
           end, reqs)
      end
  end.

(** ** [LocalSelfTest] *)

(** A digit of the URL alphabet. *)
Definition base64_digit (c : ascii) : option Z :=
  if is_upper c then Some (code c - 65)
  else if is_lower c then Some (code c - 71)
  else if is_digit c then Some (code c + 4)
  else if ascii_eqb c "-" then Some 62 else if ascii_eqb c "_" then Some 63 else None.

(** [base64.RawURLEncoding.DecodeString] without line breaks: four digits give three bytes, a last
    group has two or three digits, and its unused bits are ignored. *)
Fixpoint base64_groups (s : gostring) : option gostring :=
  match s with
  | [] => Some []
  | [_] => None
  | [a; b] => x ← base64_digit a; y ← base64_digit b; Some [byte_of (Z.lor (Z.shiftl x 2) (Z.shiftr y 4))]
  | [a; b; c] =>
      x ← base64_digit a; y ← base64_digit b; z ← base64_digit c;
      Some [byte_of (Z.lor (Z.shiftl x 2) (Z.shiftr y 4)); byte_of (Z.lor (Z.shiftl y 4) (Z.shiftr z 2))]
  | a :: b :: c :: d :: rest =>
      x ← base64_digit a; y ← base64_digit b; z ← base64_digit c; t ← base64_digit d; bytes ← base64_groups rest;
      Some (byte_of (Z.lor (Z.shiftl x 2) (Z.shiftr y 4)) :: byte_of (Z.lor (Z.shiftl y 4) (Z.shiftr z 2)) ::
            byte_of (Z.lor (Z.shiftl z 6) t) :: bytes)
  end.
Definition DecodeString (s : gostring) : option gostring :=
  base64_groups (List.filter (fun c => negb (ascii_eqb c chr_cr || ascii_eqb c chr_lf)) s).

(** Whether the claims are not nil. *)
Definition decodeJWTUnverified (jwt : gostring) : bool :=
  match Split jwt "." with
  | _ :: payload :: _ =>
      match DecodeString payload with
      | None => false
      | Some raw => match json_claims raw with Some notNil => notNil | None => false end
      end
  | _ => false
  end.

Definition LocalSelfTest (opts : EntraOptions) : option entra_error :=
  match check_options opts with
  | Some e => Some e
  | None =>
      match sa_ReadFile (eo_SATokenPath opts) with
      | Err e => Some (SATokenUnreadable e)
      | Ok raw => if decodeJWTUnverified (TrimSpace raw) then None else Some SATokenNotJWT
      end
  end.
End Entra.

(** ** The form survives its encoding *)

Lemma unescape_byte c s : QueryUnescape (query_escape_byte c ++ s) = cons c <$> QueryUnescape s.
Proof.
  unfold query_escape_byte. destruct (query_unreserved c) eqn:Hu.
  - cbn [app QueryUnescape]. assert (ascii_eqb c "%" = false /\ ascii_eqb c "+" = false) as [-> ->]; [|done]. revert Hu. clear. every_byte c.
  - destruct (ascii_eqb c " ") eqn:Hs; [by apply ascii_eqb_eq in Hs as ->|]. cbn [app QueryUnescape].
    change (ascii_eqb "%" "%") with true. cbn iota.
    assert ((unhex (hex_upper (Z.shiftr (code c) 4)) <? 0) || (unhex (hex_upper (Z.land (code c) 15)) <? 0) = false /\
            escaped_byte (hex_upper (Z.shiftr (code c) 4)) (hex_upper (Z.land (code c) 15)) = c) as [-> ->]; [|done].
    clear. every_byte c.
Qed.

Lemma QueryUnescape_Escape s : QueryUnescape (QueryEscape s) = Some s.
Proof.
  unfold QueryEscape. induction s as [|c s IH]; [done|]. cbn [map concat]. rewrite unescape_byte, IH. done.
Qed.

Lemma QueryEscape_no_sep s : "&"%char ∉ QueryEscape s /\ "="%char ∉ QueryEscape s.
Proof.
  unfold QueryEscape. induction s as [|c s [IH1 IH2]]; [by split; apply not_elem_of_nil|]. cbn [map concat]. rewrite !not_elem_of_app.
  assert ("&"%char ∉ query_escape_byte c /\ "="%char ∉ query_escape_byte c) as [? ?]; [|done].
  clear. rewrite !list_elem_of_In. every_byte c; intuition discriminate.
Qed.

Lemma parse_pair_Encode k v : parse_pair (QueryEscape k ++ "="%char :: QueryEscape v) = Some (k, v).
Proof.
  unfold parse_pair. rewrite IndexByte_app by apply QueryEscape_no_sep.
  rewrite take_app_length. replace (drop _ _) with (QueryEscape v); [cbn; by rewrite !QueryUnescape_Escape|].
  change ("="%char :: QueryEscape v) with (["="%char] ++ QueryEscape v). rewrite app_assoc, drop_app_length'; [done|]. rewrite length_app. cbn. lia.
Qed.

Lemma ParseQuery_Encode f : ParseQuery (Encode f) = Some f.
Proof.
  unfold ParseQuery, Encode. set (g := fun '(k, v) => _). destruct f as [|p f]; [done|].
  change (map g (p :: f)) with (g p :: map g f). rewrite Split_Join; change (g p :: map g f) with (map g (p :: f)).
  - induction (p :: f) as [|[k v] l IH]; [done|]. cbn [map List.filter].
    assert (str_eqb (g (k, v)) "" = false) as ->. { apply str_eqb_neq. unfold g. by destruct (QueryEscape k). }
    cbn [negb]. apply mapM_Some. constructor; [exact (parse_pair_Encode k v)|]. by apply mapM_Some in IH.
  - apply Forall_map, Forall_true. intros [k v]. cbn. rewrite not_elem_of_app, not_elem_of_cons.
    split_and!; [apply QueryEscape_no_sep|done|apply QueryEscape_no_sep].
Qed.

(** ** The exchange *)

Section Exchange.
Context `{U : Unicode} `{E : EntraEnv}.

(** An answer that a repetition would not change. *)
Definition definitive (resp : response) : Prop := exists body, read_limited resp = Ok body /\
  (rs_StatusCode resp = 200 /\ (exists tr, json_token body = Ok tr /\ tr_AccessToken tr = []) \/
   rs_StatusCode resp <> 200 /\ rs_StatusCode resp <> 429 /\ rs_StatusCode resp <> 408 /\ rs_StatusCode resp < 500).

(** [q'] follows [q]: the answer to [q] redirects to the URL of [q']; [q'] repeats [q] after 307 and 308, and is a GET after the others. *)
Definition follows (q q' : request) : Prop :=
  exists resp, http_RoundTrip q = Ok resp /\ rs_Location resp <> [] /\ url_Resolve (rq_URL q) (rs_Location resp) = Ok (rq_URL q') /\
    (rs_StatusCode resp ∈ [301; 302; 303] /\ q' = GetURL (rq_URL q') \/
     rs_StatusCode resp ∈ [307; 308] /\ match q with Post _ c b => q' = Post (rq_URL q') c b | GetURL _ => q' = GetURL (rq_URL q') end).
(** The requests of an exchange: each follows the one before. *)
Fixpoint trail (q : request) (l : list request) : Prop :=
  match l with [] => True | q' :: l => follows q q' /\ trail q' l end.

Lemma redirected_follows q url resp q' : redirected (rs_StatusCode resp) q url = Some q' ->
  rq_URL q' = url /\ (rs_StatusCode resp ∈ [301; 302; 303] /\ q' = GetURL url \/
    rs_StatusCode resp ∈ [307; 308] /\ match q with Post _ c b => q' = Post url c b | GetURL _ => q' = GetURL url end).
Proof.
  unfold redirected. rewrite !elem_of_cons, !elem_of_nil. destruct (_ || _ || _) eqn:E1.
  - intros [= <-]. split; [done|]. left. split; [|done]. rewrite !orb_true_iff, !Z.eqb_eq in E1. tauto.
  - destruct ((_ =? 307) || _) eqn:E2; [|done]. intros [= <-]. split; [by destruct q|]. right. split; [|by destruct q].
    rewrite !orb_true_iff, !Z.eqb_eq in E2. tauto.
Qed.

(** The requests of [client_do], and whose answer it returns. *)
Lemma client_do_trail more : forall q, let '(r, l) := client_do more q in
  exists l' q', l = q :: l' /\ trail q l' /\ (length l' <= more)%nat /\ last (q :: l') = Some q' /\
    forall resp, r = Ok resp -> http_RoundTrip q' = Ok resp /\ (rs_Location resp = [] \/ rs_StatusCode resp ∉ [301; 302; 303; 307; 308]).
Proof.
  assert (forall q resp, redirected (rs_StatusCode resp) q [] = None -> rs_StatusCode resp ∉ [301; 302; 303; 307; 308]) as Hno.
  { intros q resp. unfold redirected. destruct (_ || _ || _) eqn:E1; [done|]. destruct ((_ =? 307) || _) eqn:E2; [done|]. intros _.
    rewrite !orb_false_iff, !Z.eqb_neq in E1, E2. rewrite !not_elem_of_cons. split_and!; (lia || apply not_elem_of_nil). }
  assert (forall m q r, (forall resp, r = Ok (E := error) resp -> http_RoundTrip q = Ok resp /\ (rs_Location resp = [] \/ rs_StatusCode resp ∉ [301; 302; 303; 307; 308])) ->
    exists l' q', [q] = q :: l' /\ trail q l' /\ (length l' <= m)%nat /\ last (q :: l') = Some q' /\
      forall resp, r = Ok resp -> http_RoundTrip q' = Ok resp /\ (rs_Location resp = [] \/ rs_StatusCode resp ∉ [301; 302; 303; 307; 308])) as Hone.
  { intros m q r Hr. exists [], q. split_and!; try done. cbn. lia. }
  induction more as [|more IH]; intros q; cbn [client_do]; (destruct (http_RoundTrip q) as [resp|e] eqn:Er; [|by apply Hone]);
    (destruct (str_eqb (rs_Location resp) []) eqn:El; [apply str_eqb_eq in El; apply Hone; intros resp' [= <-]; by auto|]);
    (destruct (redirected (rs_StatusCode resp) q []) as [q0|] eqn:E0; [|apply Hone; intros resp' [= <-]; by eauto]);
    (destruct (url_Resolve (rq_URL q) (rs_Location resp)) as [url|e] eqn:Eu; [|by apply Hone]).
  - by apply Hone.
  - destruct (redirected (rs_StatusCode resp) q url) as [q'|] eqn:E1; [|by apply Hone].
    specialize (IH q'). destruct (client_do more q') as [r l]. destruct IH as (l' & q2 & -> & Ht & Hl & Hla & Hr).
    apply redirected_follows in E1 as [<- Hst]. exists (q' :: l'), q2. split_and!; [done| |cbn; lia|done|done].
    split; [|done]. exists resp. split_and!; [done|by apply str_eqb_neq|done|done].
Qed.

(** A POST along a trail repeats the first one. *)
Lemma trail_posts q l url c b : trail q l -> Post url c b ∈ l -> exists url', q = Post url' c b.
Proof.
  revert q. induction l as [|q' l IH]; intros q; [by intros _ ?%elem_of_nil|]. cbn [trail]. intros [Hf Ht] Hin.
  assert (exists url', q' = Post url' c b) as [url' ->] by (apply elem_of_cons in Hin as [<-|Hin]; eauto).
  destruct Hf as (resp & _ & _ & _ & [[_ [=]]|[_ Hq]]). destruct q as [u c' b'|u]; [|done]. injection Hq as -> ->. eauto.
Qed.

(** What the class of a failure says: local, permanent or transient. *)
Definition failure_class_ok (rc : ResolvedCredential) (reqs : list request) (e : error) : Prop :=
  exists ae, errors_As_AcquireError e = Some ae /\
    (ae_Class ae = AcquireErrorLocal <-> rc_Provider rc = bs "entra" /\ reqs = []) /\
    (ae_Class ae = AcquireErrorPermanent <->
       rc_Provider rc <> bs "entra" \/ exists q resp, last reqs = Some q /\ http_RoundTrip q = Ok resp /\ (http_Do (hd q reqs)).1 = Ok resp /\ definitive resp) /\
    (ae_Class ae = AcquireErrorLocal \/ ae_Class ae = AcquireErrorPermanent \/ ae_Class ae = AcquireErrorTransient).

Lemma unsent_failure rc c m k :
  (c = AcquireErrorLocal /\ rc_Provider rc = bs "entra") \/ (c = AcquireErrorPermanent /\ rc_Provider rc <> bs "entra") ->
  failure_class_ok rc [] (AcquireError c m k).
Proof. intros Hc. eexists. split; [done|]. destruct Hc as [[-> ?]|[-> ?]]; cbn; naive_solver. Qed.

Lemma sent_failure rc req reqs q answer c m k : rc_Provider rc = bs "entra" ->
  http_Do req = (answer, req :: reqs) -> last (req :: reqs) = Some q -> (forall resp, answer = Ok resp -> http_RoundTrip q = Ok resp) ->
  (c = AcquireErrorTransient /\ (forall resp, answer = Ok resp -> ~ definitive resp)) \/
  (c = AcquireErrorPermanent /\ exists resp, answer = Ok resp /\ definitive resp) ->
  failure_class_ok rc (req :: reqs) (AcquireError c m k).
Proof.
  intros Hp Hdo Hl Hrt Hc. eexists. split; [done|]. cbn [errors_As_AcquireError ae_Class]. destruct Hc as [[-> Hn]|[-> (resp & Hd & Hdef)]].
  - split_and!; [naive_solver| |by right; right]. split; [done|]. intros [?|(q' & resp & _ & _ & Hd & Hdef)]; [done|]. cbn [hd] in Hd. rewrite Hdo in Hd. by destruct (Hn resp).
  - split_and!; [naive_solver| |by right; left]. split; [|done]. intros _. right. exists q, resp. cbn [hd]. rewrite Hdo. auto.
Qed.

Lemma classified resp body : read_limited resp = Ok body -> rs_StatusCode resp <> 200 ->
  let ae := classifyHTTPFailure (rs_StatusCode resp) body in
  (ae_Class ae = AcquireErrorTransient /\ ~ definitive resp) \/ (ae_Class ae = AcquireErrorPermanent /\ definitive resp).
Proof.
  intros Hb Hs. unfold classifyHTTPFailure. destruct ((_ =? 429) || (_ =? 408) || (500 <=? _)) eqn:Et.
  - left. split; [done|]. intros (body' & _ & [[? _]|(_ & ? & ? & ?)]); [done|].
    apply orb_true_iff in Et as [[Et|Et]%orb_true_iff|Et]; [by apply Z.eqb_eq in Et..|]. apply Z.leb_le in Et. lia.
  - right. split; [done|]. exists body. split; [done|]. right.
    apply orb_false_iff in Et as [[Et1 Et2]%orb_false_iff Et3]. apply Z.eqb_neq in Et1, Et2. apply Z.leb_gt in Et3. done.
Qed.

(** The expiry of the token that is made. *)
Lemma token_expiry now n : let ttl := wrap64 (n * Second) in let e := Add now (if ttl <=? 0 then defaultTokenTTL else ttl) in
  now < e /\ (in_int64 (n * Second) -> e = now + if 0 <? n then n * Second else 5 * Minute).
Proof.
  cbv zeta. unfold Add, defaultTokenTTL. assert (0 < 5 * Minute) by done. assert (0 < Second) by done.
  split; [destruct (Z.leb_spec (wrap64 (n * Second)) 0); lia|]. intros Hi. rewrite wrap64_id by done.
  destruct (Z.leb_spec (n * Second) 0), (Z.ltb_spec 0 n); nia.
Qed.

(** C24: the exchange asks for exactly what was resolved and says what became of it.  Requests are made only for an entra
    credential.  The first is a POST to the configured authority; every further one, nine at most, goes where the answer to the
    one before redirects, so without a redirect there is one.  A 307 or 308 repeats the POST, wherever it points; every POST,
    read back as a form, has exactly the five fields of the client-credentials exchange, with the configured client, the projected
    token and the wire scopes of this credential.  A token is returned only from an answer to the last request with
    status 200 whose first MiB decodes to a token, and it expires after now, after the announced time when that fits a
    duration.  A failure is local exactly when nothing was given to the transport, permanent exactly when the credential is for
    another provider or the last answer is definitive, and transient otherwise, as when no connection could be made. *)
Theorem Acquire_exchange a rc now :
  let '(r, reqs) := Acquire a rc now in
  (length reqs <= 10)%nat /\
  (forall q l, reqs = q :: l -> rq_URL q = a_authority a /\ trail q l /\
     ((forall resp, http_RoundTrip q = Ok resp -> rs_Location resp = []) -> l = [])) /\
  (forall q, q ∈ reqs -> rc_Provider rc = bs "entra") /\
  (forall url c b, Post url c b ∈ reqs -> c = bs "application/x-www-form-urlencoded" /\
     exists assertion, sa_ReadFile (a_saTokenPath a) = Ok assertion /\ ParseQuery b =
       Some [(bs "client_assertion", TrimSpace assertion); (bs "client_assertion_type", assertion_type); (bs "client_id", a_clientID a);
             (bs "grant_type", bs "client_credentials"); (bs "scope", Join (WireScopes rc) " ")]) /\
  match r with
  | Ok tok => exists q resp body tr, last reqs = Some q /\ http_RoundTrip q = Ok resp /\ rs_StatusCode resp = 200 /\ read_limited resp = Ok body /\
      body = take (Z.to_nat maxResponse) (rs_Body resp) /\
      json_token body = Ok tr /\ tok_value tok = tr_AccessToken tr /\ tok_value tok <> [] /\ now < ExpiresAt tok /\
      (in_int64 (tr_ExpiresIn tr * Second) -> ExpiresAt tok = now + if 0 <? tr_ExpiresIn tr then tr_ExpiresIn tr * Second else 5 * Minute)
  | Err e => failure_class_ok rc reqs e
  end.
Proof.
  unfold Acquire. destruct (str_eqb (rc_Provider rc) providerEntra) eqn:Ep; cbn [negb].
  2:{ apply str_eqb_neq in Ep. split_and!; [cbn; lia|done|by intros q ?%elem_of_nil|by intros ??? ?%elem_of_nil|]. apply unsent_failure. by right. }
  apply str_eqb_eq in Ep. change providerEntra with (bs "entra") in Ep.
  destruct (sa_ReadFile (a_saTokenPath a)) as [assertion|err] eqn:Er;
    [|split_and!; [cbn; lia|done|by intros q ?%elem_of_nil|by intros ??? ?%elem_of_nil|apply unsent_failure; by left]].
  destruct (http_NewRequest (a_authority a)) as [err|];
    [split_and!; [cbn; lia|done|by intros q ?%elem_of_nil|by intros ??? ?%elem_of_nil|apply unsent_failure; by left]|].
  set (req := Post _ _ _). destruct (http_Do req) as [answer reqs] eqn:Edo.
  pose proof (client_do_trail 9 req) as Hc. change (client_do 9 req) with (http_Do req) in Hc. rewrite Edo in Hc.
  destruct Hc as (l & q & -> & Ht & Hlen & Hlast & Hans). split_and!.
  - cbn. lia.
  - intros q0 l0 [= <- <-]. split_and!; [done|done|]. intros Hno. destruct l as [|q' l]; [done|]. destruct Ht as [(resp & Hrt & Hne & _) _]. by apply Hno in Hrt.
  - done.
  - intros url c b Hin. assert (exists url', req = Post url' c b) as [url' [= _ <- <-]]
      by (apply elem_of_cons in Hin as [<-|Hin]; [by eexists|by eapply trail_posts]).
    split; [done|]. exists assertion. split; [done|]. apply ParseQuery_Encode.
  - assert (forall resp, answer = Ok resp -> http_RoundTrip q = Ok resp) as Hrt by (intros resp Hr; by apply Hans).
    pose proof (fun c m k H => sent_failure rc req l q answer c m k Ep Edo Hlast Hrt H) as Hfail.
    destruct answer as [resp|err]; [|apply Hfail; left; split; [done|congruence]]. destruct (read_limited resp) as [body|err] eqn:Eb.
    2:{ apply Hfail. left. split; [done|]. intros resp' [= <-] (body & Hb & _). congruence. }
    destruct (Z.eqb_spec (rs_StatusCode resp) 200) as [Es|Es]; cbn [negb].
    2:{ apply Hfail. destruct (classified resp body Eb Es) as [[Hcl Hd]|[Hcl Hd]]; [left|right]; (split; [exact Hcl|]); [by intros resp' [= <-]|by exists resp]. }
    destruct (json_token body) as [tr|err] eqn:Ej.
    2:{ apply Hfail. left. split; [done|]. intros resp' [= <-] (body' & Hb & [[_ (tr & Hj & _)]|[? _]]); congruence. }
    destruct (str_eqb (tr_AccessToken tr) "") eqn:Et.
    + apply str_eqb_eq in Et. apply Hfail. right. split; [done|]. exists resp. split; [done|]. exists body. split; [done|]. left. split; [done|]. by exists tr.
    + apply str_eqb_neq in Et. exists q, resp, body, tr. destruct (token_expiry now (tr_ExpiresIn tr)).
      assert (body = take (Z.to_nat maxResponse) (rs_Body resp)) as Hbody.
      { unfold read_limited in Eb. destruct (Z.leb_spec maxResponse (Z.of_nat (length (rs_Body resp)))); [congruence|].
        destruct (rs_BodyErr resp); [done|]. injection Eb as <-. rewrite take_ge; [done|lia]. }
      by split_and!; [|apply Hrt|..].
Qed.
End Exchange.

(** ** What the configuration accepts, the acquirer accepts *)

(** As assemble and the self test build them. *)
Definition entra_options (cfg : Config) : EntraOptions :=
  {| eo_TenantID := ec_TenantID (tc_Entra (c_Token cfg)); eo_ClientID := ec_ClientID (tc_Entra (c_Token cfg));
     eo_Authority := ec_Authority (tc_Entra (c_Token cfg)); eo_SATokenPath := tc_SATokenPath (c_Token cfg); eo_HTTPClient := false; eo_Timeout := 0 |}.

(** A configuration is trimmed when it is loaded, so [NewAcquirer] cannot fail on one that validates. *)
Lemma accepted_acquirer `{U : Unicode} `{N : NetURL} cfg : Validate cfg = None ->
  TrimSpace (ec_Authority (tc_Entra (c_Token cfg))) = ec_Authority (tc_Entra (c_Token cfg)) ->
  exists a, NewAcquirer (entra_options cfg) = Ok a /\ a_timeout a = Some (10 * Second).
Proof.
  intros Hv Ht. unfold Validate in Hv. unfold NewAcquirer, check_options, validateAuthority, entra_options. cbn [eo_TenantID eo_ClientID eo_Authority eo_SATokenPath eo_HTTPClient eo_Timeout].
  destruct (str_eqb (TrimSpace (ec_TenantID _)) ""); [done|]. destruct (str_eqb (TrimSpace (ec_ClientID _)) ""); [done|].
  destruct (str_eqb (TrimSpace (pc_Namespace _)) ""); [done|]. destruct (str_eqb (TrimSpace (tc_SATokenPath _)) ""); [done|].
  destruct (isHTTPSAuthority _) eqn:Ea; [|done]. clear Hv. unfold isHTTPSAuthority in Ea. rewrite Ht in *.
  set (au := ec_Authority _) in *. destruct (url_Parse au) as [u|] eqn:Eu; [|done]. apply andb_true_iff in Ea as [Es Eh].
  apply str_eqb_eq in Es. rewrite negb_true_iff in Eh.
  assert (str_eqb au "" = false) as ->.
  { apply str_eqb_neq. intros ->. apply url_no_colon in Eu; [|apply not_elem_of_nil]. by rewrite Es in Eu. }
  rewrite Es, Eh. rewrite ToLower_ascii by done. cbn. eauto.
Qed.

(** The tenant is required and never used: the request goes to the authority as it is configured, which by
    default is the bare host. *)
Lemma tenant_not_used `{U : Unicode} `{E : EntraEnv} a tenant rc now :
  Acquire {| a_tenantID := tenant; a_clientID := a_clientID a; a_authority := a_authority a; a_saTokenPath := a_saTokenPath a; a_timeout := a_timeout a |} rc now
  = Acquire a rc now.
Proof. done. Qed.
Lemma default_token_endpoint : eo_Authority (entra_options defaults) = bs "https://login.microsoftonline.com".
Proof. vm_compute. reflexivity. Qed.

(** ** Example *)

(** An endpoint that answers a request for a scope with a token of one hour. *)
#[local] Instance example_entra : EntraEnv := {|
  sa_ReadFile _ := Ok (bs "aa.eyJhIjoxfQ.cc ");
  http_NewRequest _ := None;
  http_RoundTrip req :=
    match req with
    | Post _ _ b =>
        match ParseQuery b with
        | Some f => Ok {| rs_StatusCode := if bool_decide ((bs "scope", bs "api://x/.default") ∈ f) then 200 else 400;
                          rs_Location := []; rs_Body := "tok"; rs_BodyErr := None |}
        | None => Err Canceled
        end
    | GetURL _ => Err Canceled
    end;
  url_Resolve _ ref := Ok ref;
  json_token b := Ok {| tr_AccessToken := b; tr_ExpiresIn := 3600; tr_Error := "invalid_scope"; tr_ErrorDesc := [] |};
  json_claims b := Some (str_eqb b (bs "{" ++ ["034"%char] ++ bs "a" ++ ["034"%char] ++ bs ":1}")) |}.
Definition example_acquirer : Acquirer :=
  {| a_tenantID := "t"; a_clientID := "c&d"; a_authority := "https://sts/t/oauth2/v2.0/token"; a_saTokenPath := "/sa"; a_timeout := None |}.
Definition for_scope (s : gostring) : ResolvedCredential := {| Identity := []; rc_Provider := "entra"; rc_Resource := []; WireScopes := [s] |}.

Example exchange_examples :
  (Acquire (U := ascii_only) example_acquirer (for_scope "api://x/.default") 0).1 = Ok (NewToken "tok" (3600 * Second)) /\
  (Acquire (U := ascii_only) example_acquirer (for_scope "other") 0).1
    = Err (AcquireError AcquireErrorPermanent (bs "entra: token endpoint status 400 (invalid_scope)") None) /\
  decodeJWTUnverified (TrimSpace (U := ascii_only) (bs "aa.eyJhIjoxfQ.cc ")) = true /\ decodeJWTUnverified (bs "nodots") = false.
Proof. vm_compute. done. Qed.

(** An authority that redirects elsewhere, and what is sent there: the assertion again. *)
#[local] Instance redirecting_entra : EntraEnv := {|
  sa_ReadFile _ := Ok (bs "aa.bb.cc"); http_NewRequest _ := None;
  http_RoundTrip q := Ok (if str_eqb (rq_URL q) "https://sts/t/oauth2/v2.0/token"
    then {| rs_StatusCode := 307; rs_Location := "http://elsewhere/"; rs_Body := []; rs_BodyErr := None |}
    else {| rs_StatusCode := 200; rs_Location := []; rs_Body := "tok"; rs_BodyErr := None |});
  url_Resolve _ ref := Ok ref;
  json_token b := Ok {| tr_AccessToken := b; tr_ExpiresIn := 3600; tr_Error := []; tr_ErrorDesc := [] |}; json_claims _ := None |}.

(** S3 has a redirect to another authority refused; the assertion is posted there, over plain HTTP as well, and the answer is the token. *)
Lemma assertion_reposted :
  let body := Encode (token_form (U := ascii_only) example_acquirer (for_scope "s") "aa.bb.cc") in
  Acquire (U := ascii_only) (E := redirecting_entra) example_acquirer (for_scope "s") 0 =
  (Ok (NewToken "tok" (3600 * Second)),
   [Post "https://sts/t/oauth2/v2.0/token" "application/x-www-form-urlencoded" body;
    Post "http://elsewhere/" "application/x-www-form-urlencoded" body]).
Proof. vm_compute. reflexivity. Qed.
