(* ===== verification/GoPath.v ===== *)
(** * Packages [path] and [path/filepath] on Unix

    [Clean], [Join], [Dir], [Base], [IsAbs] and [Rel], by the segments of a path, and
    [strings.SplitN] for a limit of three.  [Rel] is used by the program on absolute paths
    only. *)

From S2P Require Import Prelude GoStrings Canonicalize.
#[local] Open Scope Z_scope.

(** [strings.SplitN(s, sep, 3)] for a one-byte separator. *)
Definition SplitN3 (s : gostring) (c : ascii) : list gostring :=
  match Split s c with
  | a :: b :: r => match r with [] => [a; b] | _ => [a; b; Join r c] end
  | l => l
  end.

Definition IsAbs (p : gostring) : bool := HasPrefix p "/".

(** The kept segments of a path, last first: empty and [.] segments vanish, [..] removes
    the segment before it and is kept only at the front of a relative path. *)
Fixpoint clean_segs (rooted : bool) (stack segs : list gostring) : list gostring :=
  match segs with
  | [] => stack
  | s :: segs =>
      if str_eqb s "" || str_eqb s "." then clean_segs rooted stack segs
      else if str_eqb s ".." then
        match stack with
        | top :: below => if str_eqb top ".." then clean_segs rooted (s :: stack) segs else clean_segs rooted below segs
        | [] => clean_segs rooted (if rooted then [] else [s]) segs
        end
      else clean_segs rooted (s :: stack) segs
  end.

(** An absolute path from its segments. *)
Definition rooted_path (l : list gostring) : gostring := "/"%char :: Join l "/".

Definition Clean (p : gostring) : gostring :=
  let rooted := IsAbs p in
  let l := rev (clean_segs rooted [] (Split p "/")) in
  if rooted then rooted_path l else match l with [] => bs "." | _ => Join l "/" end.

(** [Join] of two elements: empty ones are left out. *)
Definition path_Join (a b : gostring) : gostring :=
  match a, b with
  | [], [] => []
  | [], _ => Clean b
  | _, [] => Clean a
  | _, _ => Clean (a ++ "/"%char :: b)
  end.

(** Up to and including the last slash, cleaned. *)
Definition Dir (p : gostring) : gostring :=
  Clean (match LastIndexByte p "/" with Some i => take (S i) p | None => [] end).

Definition Base (p : gostring) : gostring :=
  match p with
  | [] => bs "."
  | _ =>
      let p := TrimRight (ascii_eqb "/") p in
      let b := match LastIndexByte p "/" with Some i => drop (S i) p | None => p end in
      match b with [] => bs "/" | _ => b end
  end.

Definition rel_comps (p : gostring) : list gostring :=
  if str_eqb p "/" then [[]] else if str_eqb p "" then [] else Split p "/".
Fixpoint strip_common (a b : list gostring) : list gostring * list gostring :=
  match a, b with
  | x :: a', y :: b' => if str_eqb x y then strip_common a' b' else (a, b)
  | _, _ => (a, b)
  end.

(** [filepath.Rel]; [None] is an error. *)
Definition Rel (basepath targpath : gostring) : option gostring :=
  let base := Clean basepath in
  let targ := Clean targpath in
  if str_eqb targ base then Some (bs ".")
  else
    let base := if str_eqb base "." then [] else base in
    if negb (Bool.eqb (IsAbs base) (IsAbs targ)) then None
    else
      let '(b, t) := strip_common (rel_comps base) (rel_comps targ) in
      match b with
      | x :: _ => if str_eqb x ".." then None else Some (Join (replicate (length b) (bs "..") ++ t) "/")
      | [] => Some (Join t "/")
      end.

Example Clean_examples :
  map Clean [bs ""; bs "/"; bs "/a//b/./c/.."; bs "/../a"; bs "a/../.."; bs "/a/b/"]
  = [bs "."; bs "/"; bs "/a/b"; bs "/a"; bs ".."; bs "/a/b"].
Proof. vm_compute. reflexivity. Qed.
Example Rel_examples :
  [Rel "/a" "/a/b/c"; Rel "/" "/a/b"; Rel "/a/b" "/a/c"; Rel "/a" "/a/."; Rel "/a" "/ab"; Rel "/a/b" "/"]
  = [Some (bs "b/c"); Some (bs "a/b"); Some (bs "../c"); Some (bs "."); Some (bs "../ab"); Some (bs "../..")].
Proof. vm_compute. reflexivity. Qed.
Example Dir_Base_examples :
  map Dir [bs "/a/b"; bs "/a"; bs "/"; bs "a"; bs "/a/b/"] = [bs "/a"; bs "/"; bs "/"; bs "."; bs "/a/b"] /\
  map Base [bs "/a/b"; bs ""; bs "/"; bs "a/"] = [bs "b"; bs "."; bs "/"; bs "a"].
Proof. vm_compute. done. Qed.

(** ** Cleaned absolute paths are lists of normal segments *)

Lemma clean_segs_normal segs : forall stack, Forall (fun s => "/"%char ∉ s) segs -> Forall normal stack ->
  Forall normal (clean_segs true stack segs).
Proof.
  induction segs as [|s segs IH]; intros stack Hs Hn; cbn [clean_segs]; [done|].
  apply Forall_cons in Hs as [Hx Hs]. destruct (str_eqb s "") eqn:E1; [by apply IH|]. destruct (str_eqb s ".") eqn:E2; [by apply IH|].
  cbn [orb]. apply str_eqb_neq in E1, E2. destruct (str_eqb s "..") eqn:E3.
  - destruct stack as [|top below]; [by apply IH|]. apply Forall_cons in Hn as [Ht Hb].
    destruct (str_eqb top "..") eqn:E4; [|by apply IH]. apply str_eqb_eq in E4 as ->. by destruct Ht as (_ & _ & ? & _).
  - apply str_eqb_neq in E3. apply IH; [done|]. by constructor.
Qed.

Lemma clean_segs_app l : forall rooted stack segs, Forall normal l ->
  clean_segs rooted stack (l ++ segs) = clean_segs rooted (rev l ++ stack) segs.
Proof.
  induction l as [|s l IH]; intros rooted stack segs Hn; [done|]. cbn [app clean_segs rev].
  apply Forall_cons in Hn as [(H1 & H2 & H3 & _) Hn]. apply str_eqb_neq in H1, H2, H3. change (@nil ascii) with (bs "") in H1.
  rewrite H1, H2, H3. cbn [orb]. rewrite IH by done. by rewrite <- app_assoc.
Qed.

Lemma clean_segs_id segs rooted stack : Forall normal segs -> clean_segs rooted stack segs = rev segs ++ stack.
Proof. intros Hn. rewrite <- (app_nil_r segs) at 1. by rewrite clean_segs_app. Qed.

Lemma IsAbs_rooted s : IsAbs ("/"%char :: s) = true.
Proof. exact (HasPrefix_app "/" s). Qed.

Lemma Split_rooted l : Forall normal l -> Split (rooted_path l) "/" = [] :: (match l with [] => [[]] | _ => l end).
Proof.
  intros Hl. unfold rooted_path. change ("/"%char :: Join l "/") with ([] ++ "/"%char :: Join l "/").
  rewrite Split_app_sep by (by apply not_elem_of_nil). f_equal. destruct l as [|x l]; [done|].
  apply Split_Join. eapply Forall_impl; [exact Hl|]. by intros y (_ & _ & _ & ?).
Qed.

Lemma Clean_rooted p : IsAbs p = true -> exists l, Clean p = rooted_path l /\ Forall normal l.
Proof.
  intros Hp. unfold Clean. rewrite Hp. eexists. split; [reflexivity|]. apply Forall_rev, clean_segs_normal; [|constructor].
  apply Forall_forall. intros x. apply Split_no_sep.
Qed.

Lemma Clean_segments l : Forall normal l -> Clean (rooted_path l) = rooted_path l.
Proof.
  intros Hl. unfold Clean. assert (IsAbs (rooted_path l) = true) as -> by apply IsAbs_rooted. cbn iota. rewrite Split_rooted by done. cbn [clean_segs].
  change (str_eqb [] "" || str_eqb [] ".") with true. cbn iota. f_equal. destruct l as [|x l]; [done|].
  rewrite clean_segs_id by done. by rewrite app_nil_r, rev_involutive.
Qed.

Lemma rooted_path_inj l k : Forall normal l -> Forall normal k -> rooted_path l = rooted_path k -> l = k.
Proof.
  intros Hl Hk E. apply (f_equal (fun p => Split p "/")) in E. rewrite !Split_rooted in E by done. injection E as E.
  destruct l as [|x l], k as [|y k]; [done| | |exact E].
  - injection E as <- <-. by apply Forall_cons in Hk as [(? & _) _].
  - injection E as -> ->. by apply Forall_cons in Hl as [(? & _) _].
Qed.

(** An absolute path put under another stays under it. *)
Lemma path_Join_rooted hs rel : Forall normal hs -> Forall normal rel ->
  path_Join (rooted_path hs) (rooted_path rel) = rooted_path (hs ++ rel).
Proof.
  intros Hh Hr. unfold path_Join, rooted_path at 1 2. cbn iota beta.
  change (("/"%char :: Join hs "/") ++ "/"%char :: "/"%char :: Join rel "/") with (rooted_path hs ++ "/"%char :: rooted_path rel).
  unfold Clean. assert (IsAbs (rooted_path hs ++ "/"%char :: rooted_path rel) = true) as -> by apply IsAbs_rooted. cbn iota. rewrite Split_app, !Split_rooted by done.
  f_equal. rewrite <- (rev_involutive (hs ++ rel)). f_equal. cbn [app clean_segs].
  change (str_eqb [] "" || str_eqb [] ".") with true. cbn iota.
  assert (forall stack l, Forall normal l -> clean_segs true stack ([] :: match l with [] => [[]] | _ => l end) = rev l ++ stack) as Hc.
  { intros stack l Hl. cbn [clean_segs]. change (str_eqb [] "" || str_eqb [] ".") with true. cbn iota.
    destruct l; [done|]. by apply clean_segs_id. }
  assert (forall segs stack, clean_segs true stack ((match hs with [] => [[]] | _ => hs end) ++ segs) = clean_segs true (rev hs ++ stack) segs) as Ha.
  { intros segs stack. destruct hs; [done|]. by apply clean_segs_app. }
  rewrite Ha, Hc, app_nil_r, rev_app_distr by done. done.
Qed.

Lemma strip_common_spec a : forall b a' b', strip_common a b = (a', b') -> exists p, a = p ++ a' /\ b = p ++ b'.
Proof.
  induction a as [|x a IH]; intros b a' b'; cbn [strip_common]; [intros [= <- <-]; by exists []|].
  destruct b as [|y b]; [intros [= <- <-]; by exists []|]. destruct (str_eqb x y) eqn:E; [|intros [= <- <-]; by exists []].
  apply str_eqb_eq in E as <-. intros (p & -> & ->)%IH. by exists (x :: p).
Qed.

Lemma rel_comps_rooted l : Forall normal l -> rel_comps (rooted_path l) = [] :: l.
Proof.
  intros Hl. unfold rel_comps. destruct l as [|x l]; [done|].
  destruct (str_eqb (rooted_path (x :: l)) "/") eqn:E.
  { apply str_eqb_eq in E. change (bs "/") with (rooted_path []) in E. apply rooted_path_inj in E; [done|done|constructor]. }
  destruct (str_eqb _ "") eqn:E'; [by apply str_eqb_eq in E'|]. by rewrite Split_rooted.
Qed.

(** A relative path that does not climb names a strict descendant. *)
Lemma Rel_descendant hs ps rel : Forall normal hs -> Forall normal ps ->
  Rel (rooted_path hs) (rooted_path ps) = Some rel -> rel <> bs "." -> rel <> bs ".." -> HasPrefix rel "../" = false ->
  exists t, ps = hs ++ t /\ t <> [] /\ Split rel "/" = t.
Proof.
  intros Hh Hp. unfold Rel. rewrite !Clean_segments by done.
  destruct (str_eqb (rooted_path ps) (rooted_path hs)) eqn:E; [by intros [= <-]|]. apply str_eqb_neq in E.
  assert (str_eqb (rooted_path hs) "." = false) as -> by (by apply str_eqb_neq).
  assert (IsAbs (rooted_path hs) = true) as -> by apply IsAbs_rooted.
  assert (IsAbs (rooted_path ps) = true) as -> by apply IsAbs_rooted.
  cbn [Bool.eqb negb]. rewrite !rel_comps_rooted by done. cbn [strip_common]. rewrite str_eqb_refl.
  destruct (strip_common hs ps) as [b t] eqn:Ec. apply strip_common_spec in Ec as (p & -> & ->).
  destruct b as [|x b].
  - intros [= <-] _ _ _. rewrite app_nil_r in *. destruct t as [|y t]; [by rewrite app_nil_r in E|]. exists (y :: t).
    split_and!; [done..|]. apply Split_Join. apply Forall_app in Hp as [_ Hp]. eapply Forall_impl; [exact Hp|]. by intros z (_ & _ & _ & ?).
  - apply Forall_app in Hh as [_ [(_ & _ & Hx & _) _]%Forall_cons]. rewrite (proj2 (str_eqb_neq x _) Hx).
    intros [= <-] _ Hdd Hpre. cbn [length replicate app] in *. exfalso.
    destruct (replicate (length b) (bs "..") ++ t) as [|y r] eqn:Er; [done|].
    pose proof (HasPrefix_app "../" (Join (y :: r) "/")) as Ht. exact (eq_true_false_abs _ Ht Hpre).
Qed.

Lemma LastIndexByte_app s t c : c ∉ t -> LastIndexByte (s ++ c :: t) c = Some (length s).
Proof.
  intros Ht. unfold LastIndexByte. rewrite rev_app_distr. cbn [rev]. rewrite <- app_assoc. cbn [app].
  rewrite IndexByte_app by (by rewrite list_elem_of_In, <- in_rev, <- list_elem_of_In).
  cbn. f_equal. rewrite length_app, length_rev. cbn. lia.
Qed.

(** The parent directory. *)
Lemma Dir_rooted l x : Forall normal (l ++ [x]) -> Dir (rooted_path (l ++ [x])) = rooted_path l.
Proof.
  intros Hl. apply Forall_app in Hl as [Hl [(_ & _ & _ & Hx) _]%Forall_cons]. unfold Dir, rooted_path.
  destruct l as [|y l].
  - change ("/"%char :: Join ([] ++ [x]) "/") with ([] ++ "/"%char :: x). by rewrite LastIndexByte_app.
  - rewrite Join_app_last by done.
    change ("/"%char :: Join (y :: l) "/" ++ "/"%char :: x) with (rooted_path (y :: l) ++ "/"%char :: x).
    rewrite LastIndexByte_app by done. rewrite take_app, take_ge by lia. rewrite Nat.sub_succ_l, Nat.sub_diag by lia. cbn [take]. rewrite take_0.
    unfold Clean. assert (IsAbs (rooted_path (y :: l) ++ ["/"%char]) = true) as -> by apply IsAbs_rooted. cbn iota.
    rewrite Split_app, Split_rooted by done. 
    change (clean_segs true [] (([] :: y :: l) ++ Split [] "/")) with (clean_segs true [] ((y :: l) ++ [[]])).
    rewrite (clean_segs_app (y :: l)) by done. change (clean_segs true ?k [[]]) with k. by rewrite app_nil_r, rev_involutive.
Qed.

Lemma Dir_root : Dir (rooted_path []) = rooted_path [].
Proof. reflexivity. Qed.
