(* ===== verification/InjectorMain.v ===== *)
(** * [cmd/aksh-injector/main.go], [internal/injector/pki.go]: starting the webhook

    The serving material of the webhook, loaded or generated, the construction of the server, and the
    command from its flags to the end of serving.  crypto/x509, crypto/tls and encoding/pem are the
    operations of a class; the API server is that of Webhook.v. *)

From S2P Require Import Prelude GoStrings GoRuntime Injector Webhook.
#[local] Open Scope Z_scope.
#[local] Open Scope go_scope.

(** ** Serving material *)

(** The parts of a certificate template that are set. *)
Record x509_template := {
  xt_CommonName : gostring; xt_NotBefore : Time; xt_NotAfter : Time; xt_IsCA : bool; xt_KeyUsage : Z; xt_ServerAuth : bool; xt_DNSNames : list gostring
}.
Definition UsageDigitalSignature : Z := 1.
Definition UsageKeyEncipherment : Z := 4.
Definition UsageCertSign : Z := 32.

Class WebhookX509 := {
  wx_cert : Type; wx_key : Type; wx_pub : Type;
  wx_public : wx_key -> wx_pub;
  wx_pem_Encode : gostring -> gostring -> gostring;
  wx_pem_Decode : gostring -> option (gostring * gostring);            (* type and bytes of the first block *)
  wx_Parse : gostring -> option wx_cert;
  (* template, serial, issuer ([None]: the template itself), key of the subject, signer *)
  wx_Create : x509_template -> Z -> option wx_cert -> wx_pub -> wx_key -> option gostring;
  wx_MarshalKey : wx_key -> option gostring;
  wx_KeyPair : gostring -> gostring -> bool;                           (* [tls.X509KeyPair] succeeds *)
  (* [Verify] with one root, for server authentication *)
  wx_Verify : wx_cert -> wx_cert -> Time -> bool;
  wx_NotAfter : wx_cert -> Time;
  wx_DNSNames : wx_cert -> list gostring;
  wx_pem_round_trip : forall t b, wx_pem_Decode (wx_pem_Encode t b) = Some (t, b);
  wx_created : forall t n i p k der c, wx_Create t n i p k = Some der -> wx_Parse der = Some c -> wx_DNSNames c = xt_DNSNames t;
  (* a certificate signed by the key of a self-signed authority verifies against it while both are valid *)
  wx_chain : forall tca nca kca derca ca t n p der c now,
    wx_Create tca nca None (wx_public kca) kca = Some derca -> wx_Parse derca = Some ca ->
    wx_Create t n (Some ca) p kca = Some der -> wx_Parse der = Some c ->
    xt_IsCA tca = true -> Z.land (xt_KeyUsage tca) UsageCertSign <> 0 -> xt_ServerAuth t = true ->
    xt_NotBefore tca <= now <= xt_NotAfter tca -> xt_NotBefore t <= now <= xt_NotAfter t -> wx_Verify ca c now = true
}.

Inductive wpki_error := CertDir (e : certdir_error) | ReadMaterial (name : gostring) | BadCACertificate | BadServingCertificate | BadKeyPair
| NotValidAgainstCA | GenerationFailed.

Section Material.
Context `{X : WebhookX509}.

Record material := { mt_caCert : wx_cert; mt_caPEM : gostring; mt_servingCert : wx_cert; mt_servingPEM : gostring; mt_servingKeyPEM : gostring }.

Definition parseCertificatePEM (data : gostring) : option wx_cert :=
  match wx_pem_Decode data with Some (t, b) => if str_eqb t "CERTIFICATE" then wx_Parse b else None | None => None end.

(** [read]: the contents of a file of the directory. *)
Definition loadPKI (read : gostring -> option gostring) (now : Time) : result wpki_error material :=
  match read Webhook.caCertFile with
  | None => Err (ReadMaterial Webhook.caCertFile)
  | Some caPEM =>
  match read servingCertFile with
  | None => Err (ReadMaterial servingCertFile)
  | Some servingPEM =>
  match read servingKeyFile with
  | None => Err (ReadMaterial servingKeyFile)
  | Some servingKeyPEM =>
  match parseCertificatePEM caPEM with
  | None => Err BadCACertificate
  | Some caCert =>
  match parseCertificatePEM servingPEM with
  | None => Err BadServingCertificate
  | Some servingCert =>
      if negb (wx_KeyPair servingPEM servingKeyPEM) then Err BadKeyPair
      else if negb (wx_Verify caCert servingCert now) then Err NotValidAgainstCA
      else Ok {| mt_caCert := caCert; mt_caPEM := caPEM; mt_servingCert := servingCert; mt_servingPEM := servingPEM; mt_servingKeyPEM := servingKeyPEM |}
  end end end end end.

(** The answers of the random source: two keys and two serial numbers. *)
Record entropy := { en_caKey : option wx_key; en_caSerial : option Z; en_servingKey : option wx_key; en_servingSerial : option Z }.

Definition caTemplate (notBefore notAfter : Time) : x509_template :=
  {| xt_CommonName := "aksh-injector-ca"; xt_NotBefore := notBefore; xt_NotAfter := notAfter; xt_IsCA := true;
     xt_KeyUsage := Z.lor UsageCertSign UsageDigitalSignature; xt_ServerAuth := false; xt_DNSNames := [] |}.
Definition servingTemplate (service namespace : gostring) (notBefore notAfter : Time) : x509_template :=
  {| xt_CommonName := service; xt_NotBefore := notBefore; xt_NotAfter := notAfter; xt_IsCA := false;
     xt_KeyUsage := Z.lor UsageDigitalSignature UsageKeyEncipherment; xt_ServerAuth := true; xt_DNSNames := serviceDNSNames service namespace |}.

Definition generatePKIMaterial (en : entropy) (service namespace : gostring) (caNotBefore caNotAfter servingNotBefore servingNotAfter : Time)
    : option material :=
  caKey ← en_caKey en;
  caSerial ← en_caSerial en;
  caDER ← wx_Create (caTemplate caNotBefore caNotAfter) caSerial None (wx_public caKey) caKey;
  caCert ← wx_Parse caDER;
  servingKey ← en_servingKey en;
  servingSerial ← en_servingSerial en;
  servingDER ← wx_Create (servingTemplate service namespace servingNotBefore servingNotAfter) servingSerial (Some caCert) (wx_public servingKey) caKey;
  servingCert ← wx_Parse servingDER;
  servingKeyDER ← wx_MarshalKey servingKey;
  let servingPEM := wx_pem_Encode "CERTIFICATE" servingDER in
  let servingKeyPEM := wx_pem_Encode "PRIVATE KEY" servingKeyDER in
  if wx_KeyPair servingPEM servingKeyPEM
  then Some {| mt_caCert := caCert; mt_caPEM := wx_pem_Encode "CERTIFICATE" caDER; mt_servingCert := servingCert; mt_servingPEM := servingPEM;
               mt_servingKeyPEM := servingKeyPEM |}
  else None.

Definition oneHour : Duration := 60 * Minute.
Definition defaultCAValidity : Duration := 10 * 365 * 24 * oneHour.
Definition defaultServingValidity : Duration := 365 * 24 * oneHour.
Definition generateSelfSignedPKI (en : entropy) (now : Time) (service namespace : gostring) : option material :=
  generatePKIMaterial en service namespace (Add now (- oneHour)) (Add now defaultCAValidity) (Add now (- oneHour)) (Add now defaultServingValidity).

(** The file system as [bootstrapPKILogged] and [loadPKI] see it. *)
Record cert_fs := { cf_dir : stat_result; cf_stat : gostring -> stat_result; cf_read : gostring -> option gostring }.

Definition BootstrapPKIWithLogger (fs : cert_fs) (en : entropy) (now : Time) (certDir service namespace : gostring) : result wpki_error material :=
  match bootstrapPKILogged certDir service namespace (cf_dir fs) (cf_stat fs) with
  | Err e => Err (CertDir e)
  | Ok (LoadFrom _) => loadPKI (cf_read fs) now
  | Ok (GenerateFor service namespace) =>
      match generateSelfSignedPKI en now service namespace with Some m => Ok m | None => Err GenerationFailed end
  end.

(** ** The server *)

Record WebhookServerOptions := {
  so_Addr : gostring; so_CertDir : gostring; so_ServiceName : gostring; so_ServiceNamespace : gostring;
  so_Mutating : gostring; so_Validating : gostring; so_PatchInterval : Duration
}.
Inductive server_option := WithPKI (m : material) | WithClient (client : bool) | WithLogger (isNil : bool) | WithMetrics (isNil : bool).
Record server := { sv_opts : WebhookServerOptions; sv_injector : SidecarInjector; sv_pki : option material; sv_reconciler : option caBundleReconciler;
                   sv_logger : bool; sv_metrics : bool }.

Definition apply_option (s : server) (o : server_option) : server :=
  match o with
  | WithPKI m => {| sv_opts := sv_opts s; sv_injector := sv_injector s; sv_pki := Some m; sv_reconciler := sv_reconciler s; sv_logger := sv_logger s; sv_metrics := sv_metrics s |}
  | WithClient false => s
  | WithClient true =>
      {| sv_opts := sv_opts s; sv_injector := sv_injector s; sv_pki := sv_pki s;
         sv_reconciler := Some {| mutatingName := so_Mutating (sv_opts s); validatingName := so_Validating (sv_opts s) |};
         sv_logger := sv_logger s; sv_metrics := sv_metrics s |}
  | WithLogger isNil => {| sv_opts := sv_opts s; sv_injector := sv_injector s; sv_pki := sv_pki s; sv_reconciler := sv_reconciler s; sv_logger := sv_logger s || negb isNil; sv_metrics := sv_metrics s |}
  | WithMetrics isNil => {| sv_opts := sv_opts s; sv_injector := sv_injector s; sv_pki := sv_pki s; sv_reconciler := sv_reconciler s; sv_logger := sv_logger s; sv_metrics := sv_metrics s || negb isNil |}
  end.
Definition NewWebhookServer (opts : WebhookServerOptions) (inj : SidecarInjector) (mods : list server_option) : server :=
  fold_left apply_option mods
    {| sv_opts := opts; sv_injector := inj; sv_pki := None; sv_reconciler := None; sv_logger := false; sv_metrics := false |}.

(** The server as readiness and reconciliation see it (Webhook.v). *)
Definition webhook_server (s : server) : WebhookServer :=
  {| ws_pki := (fun m => {| pk_caPEM := mt_caPEM m; pk_NotAfter := wx_NotAfter (mt_servingCert m) |}) <$> sv_pki s; ws_reconciler := sv_reconciler s |}.

(** [serve]: with TLS when there is serving material.  The end of serving is that of the listener, or
    after a cancellation that of the shutdown. *)
Inductive serve_end := ListenFailed | ServerEnded (closed : bool) | Cancelled (shutdown_ok : bool) (ended_closed : bool).
(** [true]: an error is returned. *)
Definition serve_error (e : serve_end) : bool :=
  match e with ListenFailed => true | ServerEnded closed => negb closed | Cancelled ok closed => negb ok || negb closed end.
Definition serves_tls (s : server) : bool := bool_decide (is_Some (sv_pki s)).

(** ** The command *)

Definition envOrDefault (env : gostring -> gostring) (name fallback : gostring) : gostring := if str_eqb (env name) [] then fallback else env name.
Definition podNamespace (env : gostring -> gostring) : gostring := envOrDefault env "POD_NAMESPACE" "aksh-system".

(** [flags]: the flags given on the command line. *)
Definition flag_String (flags : gostring -> option gostring) (name : gostring) (value : gostring) : gostring := default value (flags name).
Definition main_options (env : gostring -> gostring) (flags : gostring -> option gostring) (patchInterval : Duration) : WebhookServerOptions :=
  {| so_Addr := flag_String flags "addr" (envOrDefault env "AKSH_INJECTOR_LISTEN_ADDR" ":9443");
     so_CertDir := flag_String flags "cert-dir" (env "AKSH_INJECTOR_CERT_DIR");
     so_ServiceName := flag_String flags "service-name" (envOrDefault env "AKSH_INJECTOR_SERVICE_NAME" "aksh-injector");
     so_ServiceNamespace := flag_String flags "service-namespace" (envOrDefault env "AKSH_INJECTOR_NAMESPACE" (podNamespace env));
     so_Mutating := flag_String flags "mutating-webhook-configuration" (envOrDefault env "AKSH_INJECTOR_MUTATING_CONFIG" "aksh-injector-mutating");
     so_Validating := flag_String flags "validating-webhook-configuration" (envOrDefault env "AKSH_INJECTOR_VALIDATING_CONFIG" "aksh-injector-validating");
     so_PatchInterval := patchInterval |}.
Definition main_injector (env : gostring -> gostring) (flags : gostring -> option gostring) : InjectorOptions :=
  {| io_ProxyImage := flag_String flags "proxy-image" (envOrDefault env "AKSH_PROXY_IMAGE" "aksh-proxy:latest");
     io_ReservedUID := 1774; io_ReservedGID := 1774; io_OptInLabelKey := "aksh.dev/inject"; io_OptInLabelValue := "enabled"; io_InjectionVersion := "v1" |}.

Section Main.
Context `{U : Unicode} {W : Type} `{A : WebhookAPI W}.

Inductive fatal := RecorderFailed | InjectorRejected (e : AdmissionError) | BootstrapFailed (e : wpki_error) | ClientFailed | FirstPatchFailed.
(** What the command did: it stopped before serving, or it served from a state of the API server on. *)
Inductive outcome := Exited (why : fatal) | Served (s : server) (at_start : W) (error : bool).

Definition main (env : gostring -> gostring) (flags : gostring -> option gostring) (patchInterval : Duration) (recorder client : bool)
    (fs : cert_fs) (en : entropy) (now : Time) (e : serve_end) (w : W) : W * outcome :=
  if negb recorder then (w, Exited RecorderFailed)
  else
    match NewSidecarInjector (main_injector env flags) with
    | Err x => (w, Exited (InjectorRejected x))
    | Ok inj =>
        let opts := main_options env flags patchInterval in
        match BootstrapPKIWithLogger fs en now (so_CertDir opts) (so_ServiceName opts) (so_ServiceNamespace opts) with
        | Err x => (w, Exited (BootstrapFailed x))
        | Ok pki =>
            if negb client then (w, Exited ClientFailed)
            else
              let s := NewWebhookServer opts inj [WithPKI pki; WithClient true; WithLogger false; WithMetrics false] in
              match ReconcileCABundle (webhook_server s) w with
              | (w', Some (Ok _), _) => (w', Served s w' (serve_error e))
              | (w', _, _) => (w', Exited FirstPatchFailed)
              end
        end
    end.
End Main.

(** ** Theorems *)

(** What any serving material of a start satisfies. *)
Definition trusted (now : Time) (m : material) : Prop :=
  parseCertificatePEM (mt_caPEM m) = Some (mt_caCert m) /\ parseCertificatePEM (mt_servingPEM m) = Some (mt_servingCert m) /\
  wx_KeyPair (mt_servingPEM m) (mt_servingKeyPEM m) = true /\ wx_Verify (mt_caCert m) (mt_servingCert m) now = true.

Lemma loadPKI_trusted read now m : loadPKI read now = Ok m ->
  trusted now m /\ read Webhook.caCertFile = Some (mt_caPEM m) /\ read servingCertFile = Some (mt_servingPEM m) /\ read servingKeyFile = Some (mt_servingKeyPEM m).
Proof.
  unfold loadPKI, trusted. destruct (read Webhook.caCertFile) as [ca|]; [|done]. destruct (read servingCertFile) as [sp|]; [|done].
  destruct (read servingKeyFile) as [sk|]; [|done]. destruct (parseCertificatePEM ca) eqn:E1; [|done]. destruct (parseCertificatePEM sp) eqn:E2; [|done].
  destruct (wx_KeyPair sp sk) eqn:E3; [|done]. destruct (wx_Verify _ _ _) eqn:E4; [|done]. by intros [= <-].
Qed.

Lemma parse_encoded der c : wx_Parse der = Some c -> parseCertificatePEM (wx_pem_Encode "CERTIFICATE" der) = Some c.
Proof. intros H. unfold parseCertificatePEM. by rewrite wx_pem_round_trip. Qed.

Lemma generated_trusted en now service namespace m : generateSelfSignedPKI en now service namespace = Some m ->
  trusted now m /\ wx_DNSNames (mt_servingCert m) = serviceDNSNames service namespace.
Proof.
  unfold generateSelfSignedPKI, generatePKIMaterial. intros Hm. apply bind_Some in Hm as (kca & _ & Hm). apply bind_Some in Hm as (nca & _ & Hm).
  apply bind_Some in Hm as (derca & H1 & Hm). apply bind_Some in Hm as (ca & H2 & Hm). apply bind_Some in Hm as (k & _ & Hm).
  apply bind_Some in Hm as (n & _ & Hm). apply bind_Some in Hm as (der & H3 & Hm). apply bind_Some in Hm as (c & H4 & Hm).
  apply bind_Some in Hm as (kder & _ & Hm). cbv zeta in Hm. destruct (wx_KeyPair _ _) eqn:E; [|done]. injection Hm as <-. cbn.
  split; [|by rewrite (wx_created _ _ _ _ _ _ _ H3 H4)]. split_and!; [by apply parse_encoded|by apply parse_encoded|done|].
  eapply wx_chain; [exact H1|exact H2|exact H3|exact H4|done|done|done|..]; cbn; unfold Add, oneHour, defaultCAValidity, defaultServingValidity, oneHour, Minute, Second, Millisecond, Microsecond; lia.
Qed.

(** Some of the three files is there. *)
Definition any_file (fs : cert_fs) : bool := existsb (fun name => bool_decide (cf_stat fs name = StatOK)) [Webhook.caCertFile; servingCertFile; servingKeyFile].

Lemma Bootstrap_trusted fs en now certDir service namespace m : BootstrapPKIWithLogger fs en now certDir service namespace = Ok m ->
  trusted now m /\
  if negb (str_eqb certDir []) && any_file fs
  then cf_read fs Webhook.caCertFile = Some (mt_caPEM m) /\ cf_read fs servingCertFile = Some (mt_servingPEM m) /\ cf_read fs servingKeyFile = Some (mt_servingKeyPEM m)
  else wx_DNSNames (mt_servingCert m) = serviceDNSNames service namespace.
Proof.
  assert (match generateSelfSignedPKI en now service namespace with Some m => Ok m | None => Err GenerationFailed end = Ok m ->
    trusted now m /\ wx_DNSNames (mt_servingCert m) = serviceDNSNames service namespace) as Hg.
  { destruct (generateSelfSignedPKI _ _ _ _) eqn:E; [|done]. intros [= <-]. by eapply generated_trusted. }
  unfold BootstrapPKIWithLogger, bootstrapPKILogged. change (bs "") with ([] : gostring). destruct (str_eqb certDir []); cbn [negb andb]; [done|].
  unfold certDirPopulated, any_file. destruct (cf_dir fs); [|done..]. cbn [probe_files existsb].
  destruct (cf_stat fs Webhook.caCertFile), (cf_stat fs servingCertFile), (cf_stat fs servingKeyFile); cbn; try done; intros H; by apply loadPKI_trusted in H.
Qed.

Section Serving.
Context `{U : Unicode} {W : Type} `{A : WebhookAPI W}.

(** C27: the injector serves only behind a certificate that chains to the CA bundle it has registered.  If the
    command reaches serving, it serves TLS; its serving certificate has a matching key and its chain verifies, for server authentication at the
    time of the start, against the certificate in its CA bundle; that bundle is not empty, and during the start the API server has answered, for the
    mutating and for the validating registration named in the options, with one every webhook of which carries it; if nobody else
    writes to the registrations they still do when serving starts.  The material is what the certificate directory holds if one is configured
    and populated, whose names are not looked at ([mounted_names_unchecked]), and otherwise a fresh one whose
    names are those of the service.  In every other case the command ends without serving. *)
Theorem injector_serves_trusted env flags interval recorder client fs en now e w w' s start err :
  main env flags interval recorder client fs en now e w = (w', Served s start err) ->
  let opts := main_options env flags interval in
  start = w' /\ serves_tls s = true /\ exists m, sv_pki s = Some m /\ trusted now m /\ mt_caPEM m <> [] /\
    reported WebhookConfigMutating (so_Mutating opts) (mt_caPEM m) w w' /\ reported WebhookConfigValidating (so_Validating opts) (mt_caPEM m) w w' /\
    (forall Q : QuietAPI W, (exists c, carries WebhookConfigMutating (so_Mutating opts) (mt_caPEM m) w' c) /\
                            (exists c, carries WebhookConfigValidating (so_Validating opts) (mt_caPEM m) w' c)) /\
    if negb (str_eqb (so_CertDir opts) []) && any_file fs
    then cf_read fs Webhook.caCertFile = Some (mt_caPEM m) /\ cf_read fs servingCertFile = Some (mt_servingPEM m) /\ cf_read fs servingKeyFile = Some (mt_servingKeyPEM m)
    else wx_DNSNames (mt_servingCert m) = serviceDNSNames (so_ServiceName opts) (so_ServiceNamespace opts).
Proof.
  unfold main. destruct recorder; [|done]. cbn [negb]. destruct (NewSidecarInjector _) as [inj|]; [|done]. cbv zeta.
  set (opts := main_options env flags interval). destruct (BootstrapPKIWithLogger _ _ _ _ _ _) as [m|] eqn:Eb; [|done]. destruct client; [|done]. cbn [negb].
  destruct (ReconcileCABundle _ w) as [[w1 r] ms] eqn:Er. destruct r as [[[]|]|]; [|done..]. intros [= <- <- <- <-].
  split; [done|]. split; [done|]. exists m. split; [done|].
  apply Bootstrap_trusted in Eb as [Ht Hsrc]. split; [done|]. unfold ReconcileCABundle in Er. cbn in Er.
  destruct (reconcile _ _ _) as [[w2 r] ms2] eqn:Erec in Er. injection Er as -> -> ->.
  pose proof (reconcile_reported _ _ _ _ _ Erec) as (Hne & Hm & Hv).
  split_and!; [done|exact Hm|exact Hv| |exact Hsrc]. intros Q. apply (reconcile_carries (Q := Q)) in Erec as (_ & ? & ?). done.
Qed.
End Serving.
End Material.

(** ** A concrete library and cluster *)

Definition demo_names : list gostring := serviceDNSNames "aksh-injector" "aksh-system".
#[local] Program Instance demo_wx : WebhookX509 := {|
  wx_cert := list gostring; wx_key := unit; wx_pub := unit; wx_public := id;
  wx_pem_Encode := fun t b => replicate (length t) "x"%char ++ "."%char :: t ++ b;
  wx_pem_Decode := fun s => i ← IndexByte s "."; Some (take i (drop (i + 1) s), drop (i + (i + 1)) s);
  wx_Parse := fun der => Some (if str_eqb der "ca" then [] else demo_names);
  wx_Create := fun t _ _ _ _ => if bool_decide (xt_DNSNames t = []) then Some (bs "ca") else if bool_decide (xt_DNSNames t = demo_names) then Some (bs "sv") else None;
  wx_MarshalKey := fun _ => Some (bs "key"); wx_KeyPair := fun _ _ => true; wx_Verify := fun _ _ _ => true; wx_NotAfter := fun _ => 1000; wx_DNSNames := id
|}.
Next Obligation.
  intros t b. cbn beta. rewrite IndexByte_app by (intros [E _]%elem_of_replicate; discriminate). cbn [mbind option_bind]. rewrite length_replicate.
  assert (forall j, drop (length t + j) (replicate (length t) "x"%char ++ "."%char :: t ++ b) = drop j ("."%char :: t ++ b)) as Hd.
  { intros j. rewrite <- (length_replicate (length t) "x"%char) at 1. apply drop_app_add. }
  rewrite !Hd, Nat.add_1_r. cbn [drop]. by rewrite drop_0, take_app_length, drop_app_length.
Qed.
Next Obligation. intros t n i p k der c. cbn beta. case_bool_decide as E1; [|case_bool_decide as E2]; intros [= <-] [= <-]; by rewrite ?E1, ?E2. Qed.
Next Obligation. done. Qed.

Definition demo_env : gostring -> gostring := fun _ => [].
Definition demo_fs : cert_fs := {| cf_dir := StatNotExist; cf_stat := fun _ => StatNotExist; cf_read := fun _ => None |}.
Definition demo_entropy : entropy := {| en_caKey := Some tt; en_caSerial := Some 1; en_servingKey := Some tt; en_servingSerial := Some 2 |}.
Definition demo_main : api_pair * outcome :=
  main (U := ascii_only) (A := pair_api) demo_env (fun _ => None) 0 true true demo_fs demo_entropy 0 (ServerEnded true) example_api.

Lemma injector_serves_trusted_witness : match demo_main with
  | (w', Served s _ _) => exists m, sv_pki s = Some m /\ exists c, carries (A := pair_api) (Q := pair_quiet) WebhookConfigMutating "aksh-injector-mutating" (mt_caPEM m) w' c
  | _ => False
  end.
Proof.
  pose proof (injector_serves_trusted (U := ascii_only) (A := pair_api) demo_env (fun _ => None) 0 true true demo_fs demo_entropy 0 (ServerEnded true) example_api) as H.
  fold demo_main in H. destruct demo_main as [w' [why|s start err]] eqn:E; [by vm_compute in E|].
  destruct (H w' s start err eq_refl) as (_ & _ & m & Hp & _ & _ & _ & _ & Hq & _). destruct (Hq pair_quiet) as [Hc _]. exists m. split; [exact Hp|exact Hc].
Defined.

(** A mounted certificate for other names is served as well: [Verify] is called without a name, although the API server, which will ask for that of
    the service, will refuse it. *)
Definition mounted_fs : cert_fs :=
  {| cf_dir := StatOK; cf_stat := fun _ => StatOK;
     cf_read := fun name => Some (wx_pem_Encode "CERTIFICATE" (if str_eqb name Webhook.caCertFile then bs "ca" else bs "sv")) |}.
Lemma mounted_names_unchecked : exists m, BootstrapPKIWithLogger mounted_fs demo_entropy 0 "/certs" "other-service" "aksh-system" = Ok m /\
  wx_DNSNames (mt_servingCert m) = demo_names /\ bs "other-service.aksh-system.svc" ∉ demo_names.
Proof. eexists. split; [vm_compute; reflexivity|]. split; [vm_compute; reflexivity|]. vm_compute. intros H. repeat apply elem_of_cons in H as [H|H]; by try discriminate; try apply elem_of_nil in H. Qed.
