(* ===== verification/Trust.v ===== *)
(** * [cmd/aksh-proxy/trust.go]: the upstream trust pool

    The pool is the list of certificates in it.  The file system and the PEM decoder of
    crypto/x509 are the environment. *)

From S2P Require Import Prelude GoStrings GoRuntime Canonicalize GoPath.

Inductive dir_listing := Entries (names : list gostring) | NoSuchDir | DirError.

Class TrustFS := {
  cert : Type;
  td_ReadDir : gostring -> dir_listing;
  td_Stat : gostring -> option bool;                 (* following links: is it a regular file *)
  td_EvalSymlinks : gostring -> option gostring;
  td_ReadFile : gostring -> option gostring;
  pem_certs : gostring -> list cert;                 (* the certificates in a PEM file *)
  (* the result of resolving links is clean, and absolute for an absolute path *)
  td_EvalSymlinks_clean : forall p q, td_EvalSymlinks p = Some q -> Clean q = q;
  td_EvalSymlinks_abs : forall p q, IsAbs p = true -> td_EvalSymlinks p = Some q -> IsAbs q = true
}.

Inductive trust_error := ReadDirFailed (dir : gostring) | StatFailed (p : gostring) | ResolveFailed (p : gostring) | OutsideTrustedDir (p : gostring)
| ReadCertFailed (p : gostring) | NotPEM (p : gostring).

Section Trust.
Context `{U : Unicode} `{T : TrustFS}.

(** The certificates of one directory entry. *)
Definition entry_certs (dir cleanDir name : gostring) : result trust_error (list cert) :=
  if HasPrefix name ".." then Ok []
  else
    let certPath := path_Join dir name in
    match td_Stat certPath with
    | None => Err (StatFailed certPath)
    | Some regular =>
        if negb regular then Ok []
        else match td_EvalSymlinks certPath with
        | None => Err (ResolveFailed certPath)
        | Some realPath =>
            let inside := match Rel cleanDir realPath with
                          | None => false
                          | Some rel => negb (str_eqb rel ".." || HasPrefix rel "../")
                          end in
            if negb inside then Err (OutsideTrustedDir certPath)
            else match td_ReadFile realPath with
            | None => Err (ReadCertFailed certPath)
            | Some data => match pem_certs data with [] => Err (NotPEM certPath) | certs => Ok certs end
            end
        end
    end.

Fixpoint append_entries (pool : list cert) (dir cleanDir : gostring) (names : list gostring) : result trust_error (list cert) :=
  match names with
  | [] => Ok pool
  | name :: names =>
      match entry_certs dir cleanDir name with
      | Err e => Err e
      | Ok certs => append_entries (pool ++ certs) dir cleanDir names
      end
  end.

Definition trusted_dir (dir : gostring) : gostring := default (Clean dir) (td_EvalSymlinks (Clean dir)).

Definition appendCertsFromDir (pool : list cert) (dir : gostring) : result trust_error (list cert) :=
  if str_eqb (TrimSpace dir) "" then Ok pool
  else match td_ReadDir dir with
       | NoSuchDir => Ok pool
       | DirError => Err (ReadDirFailed dir)
       | Entries names => append_entries pool dir (trusted_dir dir) names
       end.

Fixpoint append_dirs (pool : list cert) (dirs : list gostring) : result trust_error (list cert) :=
  match dirs with
  | [] => Ok pool
  | dir :: dirs => match appendCertsFromDir pool dir with Err e => Err e | Ok pool => append_dirs pool dirs end
  end.

Definition buildUpstreamTrustPool (systemPool : option (list cert)) (caPubDir extraCADir : gostring) : result trust_error (list cert) :=
  append_dirs (default [] systemPool) [caPubDir; extraCADir].

(** ** What is trusted *)

(** The name is a candidate: it is not one of the volume's own entries and names a regular file. *)
Definition candidate (dir name : gostring) : Prop := HasPrefix name ".." = false /\ td_Stat (path_Join dir name) = Some true.
(** The test of the code: the file, links resolved, is not above or beside the directory, links resolved. *)
Definition inside (dir real : gostring) : Prop := exists rel, Rel (trusted_dir dir) real = Some rel /\ rel <> bs ".." /\ HasPrefix rel "../" = false.
(** The certificates of such a file. *)
Definition certs_within (dir name : gostring) (certs : list cert) : Prop :=
  exists real data, td_EvalSymlinks (path_Join dir name) = Some real /\ inside dir real /\ td_ReadFile real = Some data /\ pem_certs data = certs /\ certs <> [].
Definition listed (dir name : gostring) : Prop := exists names, TrimSpace dir <> [] /\ td_ReadDir dir = Entries names /\ name ∈ names.

(** An entry with which the build goes on: the volume's own, something that is not a regular file, or a candidate that can be resolved inside
    the directory, read and decoded. *)
Definition usable (dir name : gostring) : Prop :=
  HasPrefix name ".." = true \/ td_Stat (path_Join dir name) = Some false \/ (candidate dir name /\ exists certs, certs_within dir name certs).
(** A directory with which it goes on: none, a missing one or one that can be listed. *)
Definition readable (dir : gostring) : Prop := TrimSpace dir = [] \/ td_ReadDir dir <> DirError.

Lemma trusted_dir_rooted dir : IsAbs dir = true -> exists ds, trusted_dir dir = rooted_path ds /\ Forall normal ds.
Proof.
  intros Hd. destruct (Clean_rooted dir Hd) as (ds & Hc & Hn). unfold trusted_dir. rewrite Hc.
  destruct (td_EvalSymlinks (rooted_path ds)) as [q|] eqn:Eq; [|by exists ds]. cbn.
  pose proof (td_EvalSymlinks_clean _ _ Eq) as Hq. apply td_EvalSymlinks_abs in Eq; [|apply IsAbs_rooted].
  destruct (Clean_rooted q Eq) as (qs & Hqs & Hn'). exists qs. split; [congruence|done].
Qed.

(** The containment test. *)
Lemma Rel_inside ds ps rel : Forall normal ds -> Forall normal ps -> Rel (rooted_path ds) (rooted_path ps) = Some rel ->
  rel <> bs ".." -> HasPrefix rel "../" = false -> exists t, ps = ds ++ t.
Proof.
  intros Hd Hp Hr H1 H2. destruct (decide (rel = bs ".")) as [->|H3].
  - unfold Rel in Hr. rewrite !Clean_segments in Hr by done. destruct (str_eqb (rooted_path ps) (rooted_path ds)) eqn:E.
    { apply str_eqb_eq, rooted_path_inj in E as ->; [|done..]. exists []. by rewrite app_nil_r. }
    exfalso. assert (str_eqb (rooted_path ds) "." = false) as E' by (by apply str_eqb_neq). rewrite E' in Hr.
    rewrite (IsAbs_rooted _ : IsAbs (rooted_path ds) = true), (IsAbs_rooted _ : IsAbs (rooted_path ps) = true) in Hr. cbn [Bool.eqb negb] in Hr.
    rewrite !rel_comps_rooted in Hr by done. cbn [strip_common] in Hr. rewrite str_eqb_refl in Hr.
    destruct (strip_common ds ps) as [b t] eqn:Ec. apply strip_common_spec in Ec as (p & -> & ->).
    apply Forall_app in Hp as [_ Hp]. destruct b as [|x b].
    + destruct t as [|y t]; [by rewrite app_nil_r, str_eqb_refl in E|]. assert (Join (y :: t) "/" = bs ".") as Hj by congruence.
      assert (y :: t = Split (bs ".") "/") as Hs.
      { rewrite <- Hj, Split_Join; [done|]. eapply Forall_impl; [exact Hp|]. by intros z (_ & _ & _ & ?). }
      cbn in Hs. injection Hs as -> _.
      apply Forall_cons in Hp as [(_ & Hp & _) _]. done.
    + apply Forall_app in Hd as [_ [(_ & _ & Hx & _) _]%Forall_cons]. rewrite (proj2 (str_eqb_neq x _) Hx) in Hr. by destruct b, t.
  - destruct (Rel_descendant ds ps rel) as (t & -> & _); try done. by exists t.
Qed.

Lemma path_Join_abs dir name : IsAbs dir = true -> IsAbs (path_Join dir name) = true.
Proof.
  destruct dir as [|d dir]; [done|]. intros Hd.
  assert (IsAbs ((d :: dir) ++ "/"%char :: name) = true) as Hd' by (apply HasPrefix_spec in Hd as [t Ht]; apply HasPrefix_spec; rewrite Ht; by eexists (t ++ _)).
  destruct name as [|n name]; cbn [path_Join]; [destruct (Clean_rooted _ Hd) as (l & -> & _)|destruct (Clean_rooted _ Hd') as (l & -> & _)]; apply IsAbs_rooted.
Qed.

(** What the test means for an absolute directory. *)
Lemma inside_below dir name real : IsAbs dir = true -> td_EvalSymlinks (path_Join dir name) = Some real -> inside dir real ->
  exists ds t, trusted_dir dir = rooted_path ds /\ real = rooted_path (ds ++ t) /\ Forall normal (ds ++ t).
Proof.
  intros Hd Er (rel & El & E1 & E2). destruct (trusted_dir_rooted dir Hd) as (ds & Hds & Hn). rewrite Hds in *.
  pose proof (td_EvalSymlinks_clean _ _ Er) as Hc. apply td_EvalSymlinks_abs in Er; [|by apply path_Join_abs].
  destruct (Clean_rooted real Er) as (ps & Hps & Hn'). rewrite Hc in Hps. subst real.
  destruct (Rel_inside ds ps rel Hn Hn' El E1 E2) as [t ->]. by exists ds, t.
Qed.

Lemma entry_certs_spec dir name certs : entry_certs dir (trusted_dir dir) name = Ok certs ->
  usable dir name /\ ((candidate dir name /\ certs_within dir name certs) \/ (~ candidate dir name /\ certs = [])).
Proof.
  unfold entry_certs, candidate, usable. destruct (HasPrefix name "..") eqn:Eh; [intros [= <-]; split; [by left|]; right; split; [by intros [? _]|done]|].
  destruct (td_Stat (path_Join dir name)) as [[]|] eqn:Es; cbn [negb]; [|intros [= <-]; split; [by right; left|]; right; split; [by intros [_ ?]|done]|done].
  destruct (td_EvalSymlinks (path_Join dir name)) as [real|] eqn:Er; [|done].
  destruct (Rel (trusted_dir dir) real) as [rel|] eqn:El; [|done]. destruct (str_eqb rel ".." || HasPrefix rel "../") eqn:Ei; [done|]. cbn [negb].
  destruct (td_ReadFile real) as [data|] eqn:Ed; [|done]. destruct (pem_certs data) as [|c cs] eqn:Ep; [done|]. intros [= <-].
  apply orb_false_iff in Ei as [E1%str_eqb_neq E2].
  assert (certs_within dir name (c :: cs)) as Hw by (exists real, data; split_and!; [done|by exists rel|done..]).
  split; [right; right; split; [done|by eexists]|by left].
Qed.
Lemma entry_certs_usable dir name : usable dir name -> exists certs, entry_certs dir (trusted_dir dir) name = Ok certs.
Proof.
  unfold entry_certs. destruct (HasPrefix name "..") eqn:Eh; [by eexists|]. intros [?|[Hs|[[_ Hs] (certs & real & data & Er & (rel & El & E1 & E2) & Ed & Ep & Hne)]]]; [congruence|rewrite Hs; by eexists|].
  rewrite Hs, Er, El, (proj2 (str_eqb_neq _ _) E1), E2, Ed, Ep. cbn [negb orb]. destruct certs; [done|by eexists].
Qed.

(** Appending adds the certificates of the candidates, in order, or fails. *)
Lemma append_entries_spec dir names : forall pool pool', append_entries pool dir (trusted_dir dir) names = Ok pool' ->
  exists added, pool' = pool ++ concat added /\
    Forall2 (fun name certs => usable dir name /\ ((candidate dir name /\ certs_within dir name certs) \/ (~ candidate dir name /\ certs = []))) names added.
Proof.
  induction names as [|name names IH]; intros pool pool'; cbn [append_entries]; [intros [= <-]; exists []; by rewrite app_nil_r|].
  destruct (entry_certs dir (trusted_dir dir) name) as [certs|] eqn:E; [|done]. apply entry_certs_spec in E.
  intros (added & -> & Hf)%IH. exists (certs :: added). cbn. rewrite app_assoc. split; [done|]. by constructor.
Qed.
Lemma append_entries_usable dir names : (forall name, name ∈ names -> usable dir name) -> forall pool,
  exists pool', append_entries pool dir (trusted_dir dir) names = Ok pool'.
Proof.
  induction names as [|name names IH]; intros Hu pool; cbn [append_entries]; [by eexists|]. destruct (entry_certs_usable dir name) as [certs ->]; [apply Hu; left|].
  apply IH. intros x Hx. apply Hu. by right.
Qed.
Lemma appendCertsFromDir_usable dir : readable dir -> (forall name, listed dir name -> usable dir name) -> forall pool,
  exists pool', appendCertsFromDir pool dir = Ok pool'.
Proof.
  intros Hr Hu pool. unfold appendCertsFromDir. destruct (str_eqb (TrimSpace dir) "") eqn:Et; [by eexists|]. apply str_eqb_neq in Et.
  destruct (td_ReadDir dir) as [names| |] eqn:Ed; [|by eexists|by destruct Hr]. apply append_entries_usable. intros name Hn. apply Hu. by exists names.
Qed.

Lemma appendCertsFromDir_spec dir pool pool' : appendCertsFromDir pool dir = Ok pool' ->
  (readable dir /\ forall name, listed dir name -> usable dir name) /\
  exists added, pool' = pool ++ added /\
    (forall c, c ∈ added <-> exists name certs, listed dir name /\ candidate dir name /\ certs_within dir name certs /\ c ∈ certs).
Proof.
  unfold appendCertsFromDir, listed, readable. destruct (str_eqb (TrimSpace dir) "") eqn:Et.
  { apply str_eqb_eq in Et. intros [= <-]. split; [split; [by left|by intros name (? & ? & _)]|].
    exists []. rewrite app_nil_r. split; [done|]. intros c. rewrite elem_of_nil. split; [done|]. by intros (name & certs & (names & Hn & _) & _). }
  apply str_eqb_neq in Et. destruct (td_ReadDir dir) as [names| |]; [| |done].
  - intros (added & -> & Hf)%append_entries_spec. split.
    { split; [by right|]. intros name (names' & _ & [= <-] & [i Hi]%list_elem_of_lookup). by destruct (Forall2_lookup_l _ _ _ _ _ Hf Hi) as (certs & _ & ? & _). }
    exists (concat added). split; [done|]. intros c. rewrite list_elem_of_In, in_concat. split.
    + intros (certs & Hc & Hin). apply list_elem_of_In, list_elem_of_lookup in Hc as [i Hi].
      destruct (Forall2_lookup_r _ _ _ _ _ Hf Hi) as (name & Hn & _ & [[H1 H2]|[_ ->]]); [|done]. exists name, certs.
      split_and!; [|done|done|by apply list_elem_of_In]. exists names. split_and!; [done|done|by eapply list_elem_of_lookup_2].
    + intros (name & certs & (names' & _ & [= <-] & Hn) & Hcand & Hw & Hc). apply list_elem_of_lookup in Hn as [i Hi].
      destruct (Forall2_lookup_l _ _ _ _ _ Hf Hi) as (certs' & Hi' & _ & [[_ H2]|[H1 _]]); [|done]. exists certs'.
      split; [by apply list_elem_of_In; eapply list_elem_of_lookup_2|]. apply list_elem_of_In.
      destruct Hw as (real & data & E1 & _ & E2 & E3 & _), H2 as (real' & data' & F1 & _ & F2 & F3 & _). congruence.
  - intros [= <-]. split; [split; [by right|by intros name (? & _ & ? & _)]|]. exists []. rewrite app_nil_r. split; [done|]. intros c. rewrite elem_of_nil. split; [done|]. by intros (? & ? & (? & _ & ? & _) & _).
Qed.

(** C25: the pool trusts exactly what it was given.  The build succeeds if and only if each of the two directories is absent or can be listed and
    each of its entries is the volume's own, not a regular file, or a candidate that can be resolved to a path inside the directory, read and decoded to at
    least one certificate: one candidate that fails any of these makes the whole build fail.  The pool is then the system's certificates
    followed by exactly those of the candidates, each read from the path its links resolve to.  For an absolute directory that path
    is the directory, its own links resolved, or below it, so no link in it can bring in a certificate from elsewhere. *)
Theorem trust_pool_exact systemPool caPubDir extraCADir :
  let r := buildUpstreamTrustPool systemPool caPubDir extraCADir in
  ((exists pool, r = Ok pool) <-> forall dir, dir ∈ [caPubDir; extraCADir] -> readable dir /\ forall name, listed dir name -> usable dir name) /\
  (forall pool, r = Ok pool -> exists added, pool = default [] systemPool ++ added /\
    forall c, c ∈ added <-> exists dir name certs, dir ∈ [caPubDir; extraCADir] /\ listed dir name /\ candidate dir name /\
      certs_within dir name certs /\ c ∈ certs) /\
  (forall dir name real, IsAbs dir = true -> td_EvalSymlinks (path_Join dir name) = Some real -> inside dir real ->
    exists ds t, trusted_dir dir = rooted_path ds /\ real = rooted_path (ds ++ t) /\ Forall normal (ds ++ t)).
Proof.
  cbv zeta. split_and!; [| |exact inside_below]; unfold buildUpstreamTrustPool; cbn [append_dirs].
  - split.
    + destruct (appendCertsFromDir _ caPubDir) as [p1|] eqn:E1; [|by intros []]. destruct (appendCertsFromDir p1 extraCADir) as [p2|] eqn:E2; [|by intros []]. intros _.
      apply appendCertsFromDir_spec in E1 as [H1 _], E2 as [H2 _]. intros dir. rewrite !elem_of_cons, elem_of_nil. intros [->|[->|[]]]; done.
    + intros Hd. destruct (Hd caPubDir) as [R1 U1]; [left|]. destruct (Hd extraCADir) as [R2 U2]; [right; left|].
      destruct (appendCertsFromDir_usable caPubDir R1 U1 (default [] systemPool)) as [p1 ->].
      destruct (appendCertsFromDir_usable extraCADir R2 U2 p1) as [p2 ->]. by exists p2.
  - intros pool. destruct (appendCertsFromDir _ caPubDir) as [p1|] eqn:E1; [|done].
    destruct (appendCertsFromDir p1 extraCADir) as [p2|] eqn:E2; [|done]. intros [= <-].
    apply appendCertsFromDir_spec in E1 as (_ & a1 & -> & H1), E2 as (_ & a2 & -> & H2). exists (a1 ++ a2). split; [by rewrite app_assoc|].
    intros c. rewrite elem_of_app, H1, H2. split.
    + intros [(name & certs & H)|(name & certs & H)]; [exists caPubDir|exists extraCADir]; exists name, certs; (split; [set_solver|done]).
    + intros (dir & name & certs & Hd & H). apply elem_of_cons in Hd as [->|Hd]; [left; by exists name, certs|].
      apply list_elem_of_singleton in Hd as ->. right. by exists name, certs.
Qed.
End Trust.

(** ** Example *)

(** A volume as the kubelet writes it, with a bookkeeping link, a key that resolves into its timestamped directory, and, if [evil], a link out of it. *)
Definition volume_listing (evil : bool) (p : gostring) : dir_listing :=
  if str_eqb p "/etc/ca" then Entries ([bs "..data"; bs "tls.crt"] ++ if evil then [bs "evil.crt"] else []) else NoSuchDir.
Definition volume_links (p : gostring) : gostring :=
  if str_eqb p "/etc/ca/tls.crt" then bs "/etc/ca/..2026/tls.crt" else if str_eqb p "/etc/ca/evil.crt" then bs "/etc/ssl/other.pem" else if IsAbs p then Clean p else bs "/".
#[program] Definition volume_fs (evil : bool) : TrustFS := {|
  cert := gostring; td_ReadDir := volume_listing evil; td_Stat _ := Some true; td_EvalSymlinks p := Some (volume_links p);
  td_ReadFile p := Some p; pem_certs p := [p] |}.
Next Obligation.
  intros _ p q [= <-]. unfold volume_links. destruct (str_eqb p "/etc/ca/tls.crt"); [done|]. destruct (str_eqb p "/etc/ca/evil.crt"); [done|].
  destruct (IsAbs p) eqn:Hp; [|done]. destruct (Clean_rooted p Hp) as (l & -> & Hl). by apply Clean_segments.
Qed.
Next Obligation.
  intros _ p q Hp [= <-]. unfold volume_links. destruct (str_eqb p "/etc/ca/tls.crt"); [done|]. destruct (str_eqb p "/etc/ca/evil.crt"); [done|].
  rewrite Hp. destruct (Clean_rooted p Hp) as (l & -> & _). apply IsAbs_rooted.
Qed.

Lemma trust_pool_exact_witness :
  buildUpstreamTrustPool (U := ascii_only) (T := volume_fs false) (Some [bs "system"]) "/etc/ca" "" = Ok [bs "system"; bs "/etc/ca/..2026/tls.crt"] /\
  exists added, [bs "system"; bs "/etc/ca/..2026/tls.crt"] = [bs "system"] ++ added.
Proof.
  assert (buildUpstreamTrustPool (U := ascii_only) (T := volume_fs false) (Some [bs "system"]) "/etc/ca" ""
          = Ok [bs "system"; bs "/etc/ca/..2026/tls.crt"]) as H by (vm_compute; reflexivity).
  split; [exact H|]. destruct (trust_pool_exact (U := ascii_only) (T := volume_fs false) (Some [bs "system"]) "/etc/ca" "") as (_ & Hp & _). destruct (Hp _ H) as (added & E & _).
  exists added. exact E.
Defined.

Example link_out_refused :
  buildUpstreamTrustPool (U := ascii_only) (T := volume_fs true) None "/etc/ca" "" = Err (OutsideTrustedDir "/etc/ca/evil.crt").
Proof. vm_compute. reflexivity. Qed.
