(* ===== verification/Pki.v ===== *)
(** * [internal/pki/provider.go]: the per-pod certificate authority

    The provider reads and writes two directories.  A run of it is a program in a small state and
    error monad over the disk, in which every system call may fail: [fault] says which ones do and, of a
    write, after how many bytes; a crash of the process is a run in which every call from some point
    on fails.  crypto/x509, encoding/pem and the
    random sources are parameters with the round trips they document. *)

From S2P Require Import Prelude GoStrings GoRuntime Canonicalize GoPath Compile Upstream GoParse.
#[local] Open Scope Z_scope.

(** ** Certificates and keys *)

Record certificate (pub : Type) := {
  ct_Raw : gostring; ct_PublicKey : pub; ct_IsCA : bool; ct_KeyUsage : Z; ct_NotBefore : Time; ct_NotAfter : Time
}.
Arguments ct_Raw {pub} _. Arguments ct_PublicKey {pub} _. Arguments ct_IsCA {pub} _. Arguments ct_KeyUsage {pub} _.
Arguments ct_NotBefore {pub} _. Arguments ct_NotAfter {pub} _.

Definition KeyUsageDigitalSignature : Z := 1.
Definition KeyUsageCertSign : Z := 32.
Definition KeyUsageCRLSign : Z := 64.
Definition Hour : Duration := 60 * Minute.

Class X509 := {
  key : Type; pub : Type;
  public : key -> pub;
  pub_equal : pub -> pub -> bool;                        (* [Equal] of the key type *)
  pem_Encode : gostring -> gostring -> gostring;         (* block type and bytes *)
  pem_Decode : gostring -> option gostring;              (* bytes of the first block *)
  ParseCertificate : gostring -> option (certificate pub);
  CreateCertificate : certificate unit -> Z -> key -> option gostring;   (* template, serial, self-signed *)
  MarshalPKCS8 : key -> option gostring;
  ParsePKCS8 : gostring -> option (option key);          (* [Some None]: a key that cannot sign *)
  AddYears : Time -> Z -> Time;                          (* [AddDate] *)
  pub_equal_refl : forall p, pub_equal p p = true;
  pem_round_trip : forall t b, pem_Decode (pem_Encode t b) = Some b;
  pkcs8_round_trip : forall k der, MarshalPKCS8 k = Some der -> ParsePKCS8 der = Some (Some k);
  parse_raw : forall der c, ParseCertificate der = Some c -> ct_Raw c = der;
  (* times are stored in whole seconds *)
  create_parse : forall tmpl serial k der c, CreateCertificate tmpl serial k = Some der -> ParseCertificate der = Some c ->
    ct_PublicKey c = public k /\ ct_IsCA c = ct_IsCA tmpl /\ ct_KeyUsage c = ct_KeyUsage tmpl /\
    ct_NotBefore c = ct_NotBefore tmpl - ct_NotBefore tmpl mod Second /\ ct_NotAfter c = ct_NotAfter tmpl - ct_NotAfter tmpl mod Second
}.

(** ** The disk *)

Record file := { f_data : gostring; f_perm : Z }.
(** [temps]: the temporary files, by the number of the call that made them, with their directory. *)
Record io := { files : gmap gostring file; dirs : gset gostring; temps : gmap nat (gostring * file); calls : nat }.
Definition blank : io := {| files := ∅; dirs := ∅; temps := ∅; calls := 0%nat |}.
Definition set_files (s : io) m : io := {| files := m; dirs := dirs s; temps := temps s; calls := calls s |}.
Definition set_temps (s : io) m : io := {| files := files s; dirs := dirs s; temps := m; calls := calls s |}.

Inductive pki_error := EmptyPrivDir | EmptyPubDir | IsADirectory | StatFailed | InconsistentState | ReadFailed | NotPEM | BadKey | NotASigner
| BadCert | KeyCertMismatch | NotASigningCA | OutsideValidity | PublicCopyMismatch | GenerateFailed | IOFailed.

Definition M (A : Type) : Type := io -> io * result pki_error A.
Definition ret {A} (a : A) : M A := fun s => (s, Ok a).
Definition throw {A} (e : pki_error) : M A := fun s => (s, Err e).
Definition mthen {A B} (m : M A) (f : A -> M B) : M B := fun s => match m s with (s, Ok a) => f a s | (s, Err e) => (s, Err e) end.
#[local] Notation "x <- m ;; k" := (mthen m (fun x => k)) (at level 100, m at next level, right associativity).
#[local] Notation "m ;; k" := (mthen m (fun _ => k)) (at level 100, right associativity).
Definition from_option {A} (e : pki_error) (o : option A) : M A := match o with Some a => ret a | None => throw e end.
Definition check (b : bool) (e : pki_error) : M unit := if b then ret tt else throw e.

Section Provider.
Context `{X : X509} `{H : Sha256} (fault : nat -> option nat).

(** A system call: counted, and failing without effect if [fault] says so; only a write has an effect when it fails. *)
Definition syscall {A} (e : pki_error) (f : io -> io * A) : M A := fun s =>
  let s' := {| files := files s; dirs := dirs s; temps := temps s; calls := S (calls s) |} in
  if fault (calls s) then (s', Err e) else let '(s'', a) := f s' in (s'', Ok a).

Definition ReadFile (p : gostring) : M gostring :=
  r <- syscall ReadFailed (fun s => (s, f_data <$> files s !! p)) ;; from_option ReadFailed r.
Definition MkdirAll (p : gostring) : M unit :=
  syscall IOFailed (fun s => ({| files := files s; dirs := {[p]} ∪ dirs s; temps := temps s; calls := calls s |}, tt)).

(** [fileState]: [None] of the call is a missing file, [Some true] a directory. *)
Definition fileState (p : gostring) : M bool :=
  r <- syscall StatFailed (fun s => (s, if bool_decide (p ∈ dirs s) then Some true else if files s !! p then Some false else None)) ;;
  match r with Some true => throw IsADirectory | Some false => ret true | None => ret false end.

(** [os.CreateTemp] makes the file with mode 0600. *)
Definition CreateTemp (dir : gostring) : M nat :=
  syscall IOFailed (fun s => (set_temps s (<[calls s := (dir, {| f_data := []; f_perm := 384 |})]> (temps s)), calls s)).
Definition temp_Write (n : nat) (data : gostring) : M unit :=
  fun s =>
    let put d := {| files := files s; dirs := dirs s; calls := S (calls s);
                    temps := alter (fun '(dir, f) => (dir, {| f_data := d; f_perm := f_perm f |})) n (temps s) |} in
    match fault (calls s) with
    | Some k => (put (take k data), Err IOFailed)
    | None => (put data, Ok tt)
    end.
Definition temp_Chmod (n : nat) (perm : Z) : M unit :=
  syscall IOFailed (fun s => (set_temps s (alter (fun '(d, f) => (d, {| f_data := f_data f; f_perm := perm |})) n (temps s)), tt)).
(** [tmp.Sync] and [tmp.Close]. *)
Definition temp_call : M unit := syscall IOFailed (fun s => (s, tt)).
Definition Rename (n : nat) (path : gostring) : M unit :=
  ok <- syscall IOFailed (fun s =>
    match temps s !! n with
    | Some (_, f) => if bool_decide (path ∈ dirs s) then (s, false) else (set_temps (set_files s (<[path := f]> (files s))) (delete n (temps s)), true)
    | None => (s, false)
    end) ;;
  check ok IOFailed.
(** The deferred [os.Remove], whose error is ignored. *)
Definition removing {A} (n : nat) (m : M A) : M A := fun s =>
  let '(s, r) := m s in (fst (syscall IOFailed (fun s => (set_temps s (delete n (temps s)), tt)) s), r).

Definition atomicWriteFile (path data : gostring) (perm : Z) : M unit :=
  n <- CreateTemp (Dir path) ;;
  removing n (temp_Write n data ;; temp_Chmod n perm ;; temp_call ;; temp_call ;; Rename n path).

(** ** Loading and generating *)

Record PodCAProvider := { pv_cert : certificate pub; pv_signer : key; pv_generation : Z; pv_publicPEM : gostring }.

Definition publicPEM (cert : certificate pub) : gostring := pem_Encode "CERTIFICATE" (ct_Raw cert).
(** The first eight bytes of the digest, read from its hexadecimal form. *)
Definition generationFor (cert : certificate pub) : Z :=
  let gen := hex_number 0 (take 16 (sha256_hex (ct_Raw cert))) in if gen =? 0 then 1 else gen.

Definition loadCA (now : Time) (privKeyPath privCertPath : gostring) : M (certificate pub * key) :=
  keyBytes <- ReadFile privKeyPath ;;
  keyBlock <- from_option NotPEM (pem_Decode keyBytes) ;;
  parsedKey <- from_option BadKey (ParsePKCS8 keyBlock) ;;
  signer <- from_option NotASigner parsedKey ;;
  certBytes <- ReadFile privCertPath ;;
  certBlock <- from_option NotPEM (pem_Decode certBytes) ;;
  cert <- from_option BadCert (ParseCertificate certBlock) ;;
  check (pub_equal (public signer) (ct_PublicKey cert)) KeyCertMismatch ;;
  check (ct_IsCA cert && negb (Z.land (ct_KeyUsage cert) KeyUsageCertSign =? 0)) NotASigningCA ;;
  check (negb ((now <? ct_NotBefore cert) || (ct_NotAfter cert <? now))) OutsideValidity ;;
  ret (cert, signer).

Definition verifyPublicCopy (pubCertPath want : gostring) : M unit :=
  got <- ReadFile pubCertPath ;; check (str_eqb got want) PublicCopyMismatch.

Definition privKeyFile : gostring := "ca-key.pem".
Definition caCertFile : gostring := "ca-cert.pem".
Definition privKeyPerm : Z := 384.      (* 0600 *)
Definition certPerm : Z := 420.         (* 0644 *)
Definition caValidYears : Z := 10.

Definition ca_template (now : Time) : certificate unit :=
  {| ct_Raw := []; ct_PublicKey := tt; ct_IsCA := true; ct_KeyUsage := Z.lor (Z.lor KeyUsageCertSign KeyUsageDigitalSignature) KeyUsageCRLSign;
     ct_NotBefore := Add now (- Hour); ct_NotAfter := AddYears now caValidYears |}.

(** [newKey] and [serial]: the answers of the random sources. *)
Definition generateAndPersistCA (now : Time) (newKey : option key) (serial : option Z) (privDir pubDir privKeyPath privCertPath pubCertPath : gostring)
    : M (certificate pub * key) :=
  key <- from_option GenerateFailed newKey ;;
  serial <- from_option GenerateFailed serial ;;
  der <- from_option GenerateFailed (CreateCertificate (ca_template now) serial key) ;;
  cert <- from_option GenerateFailed (ParseCertificate der) ;;
  keyDER <- from_option GenerateFailed (MarshalPKCS8 key) ;;
  let keyPEM := pem_Encode "PRIVATE KEY" keyDER in
  let certPEM := pem_Encode "CERTIFICATE" der in
  MkdirAll privDir ;;
  atomicWriteFile privKeyPath keyPEM privKeyPerm ;;
  atomicWriteFile privCertPath certPEM certPerm ;;
  MkdirAll pubDir ;;
  atomicWriteFile pubCertPath certPEM certPerm ;;
  ret (cert, key).

Definition NewPodCAProvider (PrivDir PubDir : gostring) (now : Time) (newKey : option key) (serial : option Z) : M PodCAProvider :=
  check (negb (str_eqb PrivDir "")) EmptyPrivDir ;;
  check (negb (str_eqb PubDir "")) EmptyPubDir ;;
  let privKeyPath := path_Join PrivDir privKeyFile in
  let privCertPath := path_Join PrivDir caCertFile in
  let pubCertPath := path_Join PubDir caCertFile in
  keyExists <- fileState privKeyPath ;;
  certExists <- fileState privCertPath ;;
  r <- (if keyExists && certExists then
          (r <- loadCA now privKeyPath privCertPath ;; verifyPublicCopy pubCertPath (publicPEM (fst r)) ;; ret r)
        else if negb keyExists && negb certExists then
          generateAndPersistCA now newKey serial PrivDir PubDir privKeyPath privCertPath pubCertPath
        else throw InconsistentState) ;;
  ret {| pv_cert := fst r; pv_signer := snd r; pv_generation := generationFor (fst r); pv_publicPEM := publicPEM (fst r) |}.

(** ** Reasoning about runs *)

(** From a state in [P], a run ends with a result in [Q] or with an error in [E]. *)
Definition triple {A} (P : io -> Prop) (m : M A) (Q : A -> io -> Prop) (E : io -> Prop) : Prop :=
  forall s, P s -> match m s with (s', Ok a) => Q a s' | (s', Err _) => E s' end.

Lemma triple_then {A B} P (m : M A) R (f : A -> M B) Q E : triple P m R E -> (forall a, triple (R a) (f a) Q E) -> triple P (mthen m f) Q E.
Proof. intros Hm Hf s Hs. unfold mthen. specialize (Hm s Hs). destruct (m s) as [s' [a|e]]; [by apply Hf|done]. Qed.
Lemma triple_ret {A} (P : io -> Prop) (a : A) Q E : (forall s, P s -> Q a s) -> triple P (ret a) Q E.
Proof. intros H' s Hs. by apply H'. Qed.
Lemma triple_option {A} (P : io -> Prop) e (o : option A) (Q : A -> io -> Prop) (E : io -> Prop) : (forall s, P s -> E s) -> (forall a s, o = Some a -> P s -> Q a s) ->
  triple P (from_option e o) Q E.
Proof. intros He Hq s Hs. destruct o; cbn; eauto. Qed.
Lemma triple_check (P : io -> Prop) b e (Q : unit -> io -> Prop) (E : io -> Prop) : (forall s, P s -> E s) -> (forall s, b = true -> P s -> Q tt s) -> triple P (check b e) Q E.
Proof. intros He Hq s Hs. unfold check. destruct b; cbn; eauto. Qed.

(** What the assertions below look at does not count calls. *)
Definition counted (s : io) : io := {| files := files s; dirs := dirs s; temps := temps s; calls := S (calls s) |}.
Lemma triple_syscall {A} (P : io -> Prop) e f (Q : A -> io -> Prop) (E : io -> Prop) :
  (forall s, P s -> E (counted s)) -> (forall s, P s -> Q (snd (f (counted s))) (fst (f (counted s)))) -> triple P (syscall e f) Q E.
Proof.
  intros He Hq s Hs. unfold syscall. fold (counted s). destruct (fault (calls s)); [by apply He|]. specialize (Hq s Hs).
  by destruct (f (counted s)).
Qed.

(** ** The steps of a generation *)

(** The temporary files that a write of [data] with mode [perm] into [dir] may leave. *)
Definition leftover (dir data : gostring) (perm : Z) (x : gostring * file) : Prop :=
  fst x = dir /\ f_data (snd x) `prefix_of` data /\ (f_perm (snd x) = 384 \/ (f_perm (snd x) = perm /\ f_data (snd x) = data)).

(** Every temporary file satisfies [L]. *)
Definition temps_ok (L : gostring * file -> Prop) (s : io) : Prop := forall n x, temps s !! n = Some x -> L x.

(** Some call in the middle of a write: the files are [m], and the temporary file [n] has this content. *)
Definition writing (L : gostring * file -> Prop) (m : gmap gostring file) (n : nat) (dir : gostring) (f : file) (s : io) : Prop :=
  files s = m /\ temps_ok L s /\ temps s !! n = Some (dir, f).

Lemma writing_alter L m n dir f g s : L (dir, g f) -> writing L m n dir f s ->
  writing L m n dir (g f) (set_temps s (alter (fun '(d, x) => (d, g x)) n (temps s))).
Proof.
  intros Hl (Hf & Ht & Hn). split_and!; [done| |unfold set_temps; cbn [temps]; by rewrite lookup_alter_eq, Hn].
  intros k x. unfold set_temps. cbn [temps]. destruct (decide (k = n)) as [->|Hne]; [rewrite lookup_alter_eq, Hn; by intros [= <-]|].
  rewrite lookup_alter_ne by done. apply Ht.
Qed.

(** A write leaves the files as they were or adds the whole file. *)
Lemma atomicWriteFile_ok (L : gostring * file -> Prop) m path data perm :
  (forall x, leftover (Dir path) data perm x -> L x) ->
  triple (fun s => files s = m /\ temps_ok L s) (atomicWriteFile path data perm)
    (fun _ s => files s = <[path := {| f_data := data; f_perm := perm |}]> m /\ temps_ok L s) (fun s => files s = m /\ temps_ok L s).
Proof.
  intros HL. set (W n d p := writing L m n (Dir path) {| f_data := d; f_perm := p |}).
  assert (forall n d p s, W n d p s -> files (counted s) = m /\ temps_ok L (counted s)) as Hweak by (intros n d p s (? & ? & ?); done).
  eapply triple_then with (R := fun n => W n [] 384).
  - apply triple_syscall; [done|]. intros s [Hf Ht]. split_and!; [done| |apply lookup_insert_eq].
    intros k x. cbn [fst temps set_temps counted]. intros [[<- <-]|[_ Hk]]%lookup_insert_Some; [|by eapply Ht]. apply HL. split_and!; [done|apply prefix_nil|by left].
  - intros n. assert (triple (W n [] 384) (temp_Write n data ;; temp_Chmod n perm ;; temp_call ;; temp_call ;; Rename n path)
      (fun _ s => files s = <[path := {| f_data := data; f_perm := perm |}]> m /\ temps_ok L s) (fun s => files s = m /\ temps_ok L s)) as Hbody.
    { eapply triple_then with (R := fun _ => W n data 384); [|intros _].
      { assert (forall d s, d `prefix_of` data -> W n [] 384 s -> W n d 384 (set_temps (counted s) (alter (fun '(dir, f) => (dir, {| f_data := d; f_perm := f_perm f |})) n (temps s)))) as Hput.
        { intros d s Hd Hs. apply (writing_alter L m n (Dir path) {| f_data := []; f_perm := 384 |} (fun f => {| f_data := d; f_perm := f_perm f |}) (counted s)); [|exact Hs].
          apply HL. split_and!; [done|done|by left]. }
        intros s Hs. unfold temp_Write. destruct (fault (calls s)) as [k|].
        - destruct (Hput (take k data) s) as (? & ? & ?); [apply prefix_take|done|done].
        - by apply (Hput data s). }
      eapply triple_then with (R := fun _ => W n data perm); [apply triple_syscall; [by apply Hweak|]; intros s Hs|intros _].
      { apply (writing_alter L m n (Dir path) {| f_data := data; f_perm := 384 |} (fun f => {| f_data := f_data f; f_perm := perm |})); [|exact Hs].
        apply HL. split_and!; [done|done|by right]. }
      do 2 (eapply triple_then with (R := fun _ => W n data perm); [apply triple_syscall; [by apply Hweak|by intros s Hs]|intros _]).
      eapply triple_then with (R := fun (b : bool) s => files s = (if b then <[path := {| f_data := data; f_perm := perm |}]> m else m) /\ temps_ok L s);
        [|intros []; [by apply triple_ret|by intros s' Hs']].
      apply triple_syscall; [by apply Hweak|]. intros s (Hf & Ht & Hn). cbn [counted temps dirs]. rewrite Hn. case_bool_decide; [done|].
      cbn [fst snd set_temps set_files files counted]. split; [by rewrite Hf|].
      intros k x. cbn [fst temps set_temps set_files counted]. intros [_ Hk]%lookup_delete_Some. by eapply Ht. }
    intros s Hs. unfold removing. specialize (Hbody s Hs). destruct ((temp_Write n data ;; _) s) as [s' r]. unfold syscall.
    assert (forall m', files s' = m' /\ temps_ok L s' ->
      let s'' := (if fault (calls s') then (counted s', Err IOFailed) else (set_temps (counted s') (delete n (temps s')), Ok tt)) : io * result pki_error unit in
      files s''.1 = m' /\ temps_ok L s''.1) as Hrm.
    { intros m' [Hf Ht]. destruct (fault (calls s')); (split; [done|]); [done|]. intros k x. cbn [fst temps set_temps set_files counted]. intros [_ Hk]%lookup_delete_Some. by eapply Ht. }
    destruct r; by apply Hrm in Hbody.
Qed.

(** The pure part of a generation: certificate, key and what is written of them. *)
Definition new_ca (now : Time) (newKey : option key) (serial : option Z) : option (certificate pub * key * gostring * gostring) :=
  k ← newKey; n ← serial; der ← CreateCertificate (ca_template now) n k; cert ← ParseCertificate der; keyDER ← MarshalPKCS8 k;
  Some (cert, k, pem_Encode "PRIVATE KEY" keyDER, pem_Encode "CERTIFICATE" der).

Section Paths.
Context (PrivDir PubDir : gostring).
Notation keyPath := (path_Join PrivDir privKeyFile).
Notation certPath := (path_Join PrivDir caCertFile).
Notation pubPath := (path_Join PubDir caCertFile).

(** The files after so many of the three writes. *)
Definition written (m : gmap gostring file) (keyPEM certPEM : gostring) (n : nat) : gmap gostring file :=
  let m := if (1 <=? n)%nat then <[keyPath := {| f_data := keyPEM; f_perm := privKeyPerm |}]> m else m in
  let m := if (2 <=? n)%nat then <[certPath := {| f_data := certPEM; f_perm := certPerm |}]> m else m in
  if (3 <=? n)%nat then <[pubPath := {| f_data := certPEM; f_perm := certPerm |}]> m else m.

(** The temporary files a generation may leave: the key only in the private directory with mode 0600. *)
Definition confined (keyPEM certPEM : gostring) (x : gostring * file) : Prop :=
  leftover (Dir keyPath) keyPEM 384 x \/ leftover (Dir certPath) certPEM certPerm x \/ leftover (Dir pubPath) certPEM certPerm x.

Lemma triple_mkdir L m p E : (forall s, files s = m /\ temps_ok L s -> E s) ->
  triple (fun s => files s = m /\ temps_ok L s) (MkdirAll p) (fun _ s => files s = m /\ temps_ok L s) E.
Proof. intros He. apply triple_syscall; [intros s Hs; by apply He|done]. Qed.

Lemma triple_weaken {A} P (m : M A) Q (E E' : io -> Prop) : (forall s, E s -> E' s) -> triple P m Q E -> triple P m Q E'.
Proof. intros HE Hm s Hs. specialize (Hm s Hs). destruct (m s) as [s' []]; auto. Qed.

Definition persist (keyPEM certPEM : gostring) (r : certificate pub * key) : M (certificate pub * key) :=
  MkdirAll PrivDir ;; atomicWriteFile keyPath keyPEM privKeyPerm ;; atomicWriteFile certPath certPEM certPerm ;;
  MkdirAll PubDir ;; atomicWriteFile pubPath certPEM certPerm ;; ret r.

(** A generation is its pure part and then the writes. *)
Lemma generate_new_ca now newKey serial s :
  generateAndPersistCA now newKey serial PrivDir PubDir keyPath certPath pubPath s =
  match new_ca now newKey serial with
  | None => (s, Err GenerateFailed)
  | Some (cert, k, keyPEM, certPEM) => persist keyPEM certPEM (cert, k) s
  end.
Proof.
  unfold generateAndPersistCA, new_ca, from_option, mthen, ret, throw. destruct newKey as [k|]; [|done]. destruct serial as [z|]; [|done].
  cbn [mbind option_bind]. destruct (CreateCertificate _ z k) as [der|]; [|done]. cbn [mbind option_bind].
  destruct (ParseCertificate der) as [c|]; [|done]. cbn [mbind option_bind]. by destruct (MarshalPKCS8 k).
Qed.

Lemma persist_ok (L : gostring * file -> Prop) keyPEM certPEM r m : (forall x, confined keyPEM certPEM x -> L x) ->
  triple (fun s => files s = m /\ temps_ok L s) (persist keyPEM certPEM r)
    (fun r' s => r' = r /\ files s = written m keyPEM certPEM 3 /\ temps_ok L s)
    (fun s => (exists n, (n < 3)%nat /\ files s = written m keyPEM certPEM n) /\ temps_ok L s).
Proof.
  intros HL. set (mw := written m keyPEM certPEM).
  assert (forall n s, (n < 3)%nat -> files s = mw n /\ temps_ok L s -> (exists n, (n < 3)%nat /\ files s = mw n) /\ temps_ok L s) as Hstage.
  { intros n s Hn [? ?]. eauto. }
  assert (forall x, leftover (Dir keyPath) keyPEM privKeyPerm x -> L x) as HL1 by (intros x Hx; apply HL; by left).
  assert (forall x, leftover (Dir certPath) certPEM certPerm x -> L x) as HL2 by (intros x Hx; apply HL; by right; left).
  assert (forall x, leftover (Dir pubPath) certPEM certPerm x -> L x) as HL3 by (intros x Hx; apply HL; by right; right).
  unfold persist.
  eapply triple_then; [apply (triple_mkdir L (mw 0%nat)); intros s; apply Hstage; lia|intros []].
  eapply triple_then; [eapply triple_weaken, (atomicWriteFile_ok L (mw 0%nat)), HL1; intros s; apply Hstage; lia|intros []].
  eapply triple_then; [eapply triple_weaken, (atomicWriteFile_ok L (mw 1%nat)), HL2; intros s; apply Hstage; lia|intros []].
  eapply triple_then; [apply (triple_mkdir L (mw 2%nat)); intros s; apply Hstage; lia|intros []].
  eapply triple_then; [eapply triple_weaken, (atomicWriteFile_ok L (mw 2%nat)), HL3; intros s; apply Hstage; lia|intros []].
  by apply triple_ret.
Qed.

(** ** Reading back *)

Section Stable.
Context (m : gmap gostring file) (P : io -> Prop).
Context (P_counted : forall s, P s -> P (counted s)) (P_files : forall s, P s -> files s = m).

Lemma ReadFile_ok p : triple P (ReadFile p) (fun d s => P s /\ exists f, m !! p = Some f /\ f_data f = d) P.
Proof.
  unfold ReadFile. eapply triple_then with (R := fun r s => P s /\ r = f_data <$> m !! p).
  - apply triple_syscall; [done|]. intros s Hs. cbn [fst snd]. split; [by apply P_counted|]. by rewrite (P_files (counted s)) by auto.
  - intros r. apply triple_option; [by intros s [? _]|]. intros d s -> [Hs Hr]. split; [done|]. destruct (m !! p) as [f|]; [|done].
    exists f. split; [done|]. by injection Hr.
Qed.

Lemma fileState_ok p : triple P (fileState p) (fun b s => P s /\ b = bool_decide (is_Some (m !! p))) P.
Proof.
  unfold fileState. eapply triple_then with (R := fun r s => P s /\ (r = Some true \/ r = if m !! p then Some false else None)).
  - apply triple_syscall; [done|]. intros s Hs. cbn [fst snd]. split; [by apply P_counted|]. rewrite (P_files (counted s)) by auto.
    case_bool_decide; [by left|by right].
  - intros r s [Hs [->|Hr]]; [done|]. destruct (m !! p) as [f|]; subst r; (split; [exact Hs|]); symmetry; [by apply bool_decide_eq_true_2|].
    by apply bool_decide_eq_false_2; intros [].
Qed.

(** The CA that the disk stores, and what a successful load has found there. *)
Definition stored (r : certificate pub * key) : Prop :=
  let '(cert, k) := r in exists fk fc fp kb cb,
    m !! keyPath = Some fk /\ m !! certPath = Some fc /\ m !! pubPath = Some fp /\ pem_Decode (f_data fk) = Some kb /\ ParsePKCS8 kb = Some (Some k) /\
    pem_Decode (f_data fc) = Some cb /\ ParseCertificate cb = Some cert /\ f_data fp = publicPEM cert /\
    pub_equal (public k) (ct_PublicKey cert) = true /\ ct_IsCA cert && negb (Z.land (ct_KeyUsage cert) KeyUsageCertSign =? 0) = true.
Definition on_disk (now : Time) (r : certificate pub * key) : Prop :=
  stored r /\ negb ((now <? ct_NotBefore (fst r)) || (ct_NotAfter (fst r) <? now)) = true.

Lemma load_ok now : triple P (r <- loadCA now keyPath certPath ;; verifyPublicCopy pubPath (publicPEM (fst r)) ;; ret r)
  (fun r s => P s /\ on_disk now r) P.
Proof.
  set (K k := exists fk kb, m !! keyPath = Some fk /\ pem_Decode (f_data fk) = Some kb /\ ParsePKCS8 kb = Some (Some k)).
  set (C c := exists fc cb, m !! certPath = Some fc /\ pem_Decode (f_data fc) = Some cb /\ ParseCertificate cb = Some c).
  eapply triple_then with (R := fun r s => P s /\ K (snd r) /\ C (fst r) /\ pub_equal (public (snd r)) (ct_PublicKey (fst r)) = true /\
    ct_IsCA (fst r) && negb (Z.land (ct_KeyUsage (fst r)) KeyUsageCertSign =? 0) = true /\
    negb ((now <? ct_NotBefore (fst r)) || (ct_NotAfter (fst r) <? now)) = true).
  - eapply triple_then; [apply ReadFile_ok|intros kf].
    eapply triple_then with (R := fun b s => P s /\ (exists f, m !! keyPath = Some f /\ f_data f = kf) /\ pem_Decode kf = Some b);
      [apply triple_option; [by intros s [? _]|]; intros b s Hb [? ?]; done|intros b].
    eapply triple_then with (R := fun o s => P s /\ (exists f, m !! keyPath = Some f /\ f_data f = kf) /\ pem_Decode kf = Some b /\ ParsePKCS8 b = Some o);
      [apply triple_option; [by intros s [? _]|]; intros o s Ho (? & ? & ?); done|intros o].
    eapply triple_then with (R := fun k s => P s /\ K k);
      [apply triple_option; [by intros s [? _]|]; intros k s -> (? & (f & ? & <-) & ? & ?); split; [done|]; by exists f, b|intros k].
    eapply triple_then with (R := fun d s => (P s /\ K k) /\ exists f, m !! certPath = Some f /\ f_data f = d);
      [intros s [Hs Hk]; pose proof (ReadFile_ok certPath s Hs) as Hr; destruct (ReadFile certPath s) as [s' []]; [by destruct Hr|done]|intros cf].
    eapply triple_then with (R := fun b s => (P s /\ K k) /\ (exists f, m !! certPath = Some f /\ f_data f = cf) /\ pem_Decode cf = Some b);
      [apply triple_option; [by intros s [[? _] _]|]; intros ? s ? [? ?]; done|intros cb].
    eapply triple_then with (R := fun c s => P s /\ K k /\ C c);
      [apply triple_option; [by intros s [[? _] _]|]; intros c s ? ([? ?] & (f & ? & <-) & ?); split_and!; [done|done|by exists f, cb]|intros c].
    eapply triple_then with (R := fun _ s => P s /\ K k /\ C c /\ pub_equal (public k) (ct_PublicKey c) = true);
      [apply triple_check; [by intros s [? _]|]; intros s ? (? & ? & ?); done|intros []].
    eapply triple_then with (R := fun _ s => P s /\ K k /\ C c /\ pub_equal (public k) (ct_PublicKey c) = true /\
        ct_IsCA c && negb (Z.land (ct_KeyUsage c) KeyUsageCertSign =? 0) = true);
      [apply triple_check; [by intros s [? _]|]; intros s ? (? & ? & ? & ?); done|intros []].
    eapply triple_then; [apply triple_check with (Q := fun _ s => P s /\ K k /\ C c /\ pub_equal (public k) (ct_PublicKey c) = true /\
        ct_IsCA c && negb (Z.land (ct_KeyUsage c) KeyUsageCertSign =? 0) = true /\ negb ((now <? ct_NotBefore c) || (ct_NotAfter c <? now)) = true);
      [by intros s [? _]|]; intros s ? (? & ? & ? & ? & ?); done|intros []].
    by apply triple_ret.
  - intros [c k]. cbn [fst snd]. intros s (Hs & (fk & kb & K1 & K2 & K3) & (fc & cb & C1 & C2 & C3) & H1 & H2 & H3).
    unfold mthen, verifyPublicCopy. unfold mthen at 1. pose proof (ReadFile_ok pubPath s Hs) as Hr. destruct (ReadFile pubPath s) as [s' [d|e]]; [|done].
    destruct Hr as [Hs' (fp & F1 & F2)]. unfold check. destruct (str_eqb d (publicPEM c)) eqn:E; cbn; [|done]. apply str_eqb_eq in E as ->.
    split; [done|]. split; [by exists fk, fc, fp, kb, cb|done].
Qed.
End Stable.

Definition provider (r : certificate pub * key) : PodCAProvider :=
  {| pv_cert := fst r; pv_signer := snd r; pv_generation := generationFor (fst r); pv_publicPEM := publicPEM (fst r) |}.

(** What a run may do to the disk: nothing, after reading a CA back, or one of the stages of a
    generation on a disk without key and certificate. *)
Definition outcome (now : Time) (newKey : option key) (serial : option Z) (s s' : io) (res : option PodCAProvider) : Prop :=
  let old x := exists i, temps s !! i = Some x in
  (files s' = files s /\ temps_ok old s' /\
     match res with Some p => exists r, on_disk (files s) now r /\ p = provider r | None => True end) \/
  (files s !! keyPath = None /\ files s !! certPath = None /\ exists r keyPEM certPEM n,
     new_ca now newKey serial = Some (r, keyPEM, certPEM) /\ files s' = written (files s) keyPEM certPEM n /\
     temps_ok (fun x => old x \/ confined keyPEM certPEM x) s' /\
     match res with Some p => n = 3%nat /\ p = provider r | None => (n < 3)%nat end).

Lemma NewPodCAProvider_outcome now newKey serial s :
  let '(s', res) := NewPodCAProvider PrivDir PubDir now newKey serial s in
  outcome now newKey serial s s' (match res with Ok p => Some p | Err _ => None end).
Proof.
  set (old x := exists i, temps s !! i = Some x). set (P t := files t = files s /\ temps_ok old t).
  assert (forall t, P t -> outcome now newKey serial s t None) as Hnone by (intros t [? ?]; by left).
  assert (triple P (NewPodCAProvider PrivDir PubDir now newKey serial) (fun p t => outcome now newKey serial s t (Some p))
    (fun t => outcome now newKey serial s t None)) as Ht.
  2: { assert (P s) as Hs by (split; [done|by intros i x Hi; exists i]). specialize (Ht s Hs).
       destruct (NewPodCAProvider PrivDir PubDir now newKey serial s) as [s' []]; done. }
  unfold NewPodCAProvider.
  do 2 (eapply triple_then with (R := fun _ => P); [apply triple_check; auto|intros []]).
  eapply triple_then; [eapply triple_weaken, (fileState_ok (files s) P); [done|by intros t []|by intros t [? _]]|intros kx].
  eapply triple_then with (R := fun cx t => P t /\ kx = bool_decide (is_Some (files s !! keyPath)) /\ cx = bool_decide (is_Some (files s !! certPath)));
    [|intros cx].
  { intros t [Ht Hk]. pose proof (fileState_ok (files s) P ltac:(done) ltac:(by intros ? []) certPath t Ht) as Hc.
    destruct (fileState certPath t) as [t' []]; [by destruct Hc|by apply Hnone]. }
  destruct kx, cx; cbn [andb negb]; intros t (Ht & Hk & Hc).
  - unfold mthen at 1. pose proof (load_ok (files s) P ltac:(done) ltac:(by intros ? []) now t Ht) as Hl.
    destruct ((_ <- loadCA _ _ _ ;; _) t) as [t' [r|e]]; [|by apply Hnone]. destruct Hl as [[? ?] ?]. left. split_and!; [done|done|]. by exists r.
  - by apply Hnone.
  - by apply Hnone.
  - unfold mthen. rewrite generate_new_ca. destruct (new_ca now newKey serial) as [[[[c k] keyPEM] certPEM]|] eqn:Hn; [|by apply Hnone].
    symmetry in Hk, Hc. apply bool_decide_eq_false, eq_None_not_Some in Hk, Hc. destruct Ht as [Hf Hold].
    pose proof (persist_ok (fun x => old x \/ confined keyPEM certPEM x) keyPEM certPEM (c, k) (files s) (fun x Hx => or_intror Hx) t) as Hp.
    assert (temps_ok (fun x => old x \/ confined keyPEM certPEM x) t) as Ht' by (intros i x Hi; left; by eapply Hold).
    specialize (Hp (conj Hf Ht')). destruct (persist _ _ _ t) as [t' [r|e]]; right; (split; [done|]); (split; [done|]).
    + destruct Hp as (-> & ? & ?). by exists (c, k), keyPEM, certPEM, 3%nat.
    + destruct Hp as [(n & ? & ?) ?]. by exists (c, k), keyPEM, certPEM, n.
Qed.

(** ** Restarting *)

Lemma stored_unique m r r' : stored m r -> stored m r' -> r = r'.
Proof.
  destruct r as [c k], r' as [c' k']. intros (fk & fc & fp & kb & cb & K1 & C1 & _ & K2 & K3 & C2 & C3 & _) (fk' & fc' & fp' & kb' & cb' & K1' & C1' & _ & K2' & K3' & C2' & C3' & _).
  congruence.
Qed.
Lemma stored_files m r : stored m r -> is_Some (m !! keyPath) /\ is_Some (m !! certPath) /\ is_Some (m !! pubPath).
Proof. destruct r. intros (fk & fc & fp & kb & cb & K1 & C1 & P1 & _). eauto. Qed.

Definition valid_at (now : Time) (cert : certificate pub) : Prop := ct_NotBefore cert <= now <= ct_NotAfter cert.
Lemma valid_at_spec now cert : negb ((now <? ct_NotBefore cert) || (ct_NotAfter cert <? now)) = true <-> valid_at now cert.
Proof. unfold valid_at. rewrite negb_true_iff, orb_false_iff, !Z.ltb_ge. lia. Qed.

(** A completed generation is on the disk. *)
Lemma new_ca_stored m now newKey serial r keyPEM certPEM : keyPath <> certPath -> keyPath <> pubPath ->
  new_ca now newKey serial = Some (r, keyPEM, certPEM) -> stored (written m keyPEM certPEM 3) r.
Proof.
  intros Hkc Hkp Hn. destruct r as [c k]. unfold new_ca in Hn. apply bind_Some in Hn as (k' & _ & Hn). apply bind_Some in Hn as (z & _ & Hn).
  apply bind_Some in Hn as (der & Hder & Hn). apply bind_Some in Hn as (c' & Hc & Hn). apply bind_Some in Hn as (kder & Hk & [= -> -> <- <-]).
  pose proof (parse_raw _ _ Hc) as Hraw. destruct (create_parse _ _ _ _ _ Hder Hc) as (Hpub & Hca & Hku & _).
  exists {| f_data := pem_Encode "PRIVATE KEY" kder; f_perm := privKeyPerm |}, {| f_data := pem_Encode "CERTIFICATE" der; f_perm := certPerm |},
    {| f_data := pem_Encode "CERTIFICATE" der; f_perm := certPerm |}, kder, der. unfold written. cbn [Nat.leb f_data]. split_and!.
  - by rewrite !lookup_insert_ne, lookup_insert_eq by done.
  - destruct (decide (pubPath = certPath)) as [->|]; [by rewrite lookup_insert_eq|]. by rewrite lookup_insert_ne, lookup_insert_eq by done.
  - by rewrite lookup_insert_eq.
  - apply pem_round_trip.
  - by apply pkcs8_round_trip.
  - apply pem_round_trip.
  - done.
  - unfold publicPEM. by rewrite Hraw.
  - rewrite Hpub. apply pub_equal_refl.
  - by rewrite Hca, Hku.
Qed.

(** A run only adds the two directories. *)
Definition keeps {A} (m : M A) : Prop := forall s, dirs (fst (m s)) ⊆ {[PrivDir; PubDir]} ∪ dirs s.

Lemma keeps_then {A B} (m : M A) (f : A -> M B) : keeps m -> (forall a, keeps (f a)) -> keeps (mthen m f).
Proof. intros Hm Hf s. unfold mthen. specialize (Hm s). destruct (m s) as [s' [a|e]]; [|done]. cbn in Hm. specialize (Hf a s'). set_solver. Qed.
Lemma keeps_same {A} (m : M A) : (forall s, dirs (fst (m s)) = dirs s) -> keeps m.
Proof. intros H' s. rewrite H'. set_solver. Qed.
Lemma keeps_option {A} e (o : option A) : keeps (from_option e o).
Proof. by destruct o; apply keeps_same. Qed.
Lemma keeps_check b e : keeps (check b e).
Proof. by destruct b; apply keeps_same. Qed.
Lemma keeps_ret {A} (a : A) : keeps (ret a).
Proof. by apply keeps_same. Qed.
Lemma keeps_throw {A} e : keeps (throw e : M A).
Proof. by apply keeps_same. Qed.
Lemma keeps_syscall {A} e (f : io -> io * A) : (forall s, dirs (fst (f s)) ⊆ {[PrivDir; PubDir]} ∪ dirs s) -> keeps (syscall e f).
Proof.
  intros Hf s. unfold syscall. destruct (fault (calls s)); [cbn; set_solver|]. specialize (Hf (counted s)). fold (counted s). by destruct (f (counted s)).
Qed.
Lemma keeps_removing {A} n (m : M A) : keeps m -> keeps (removing n m).
Proof.
  intros Hm s. unfold removing. specialize (Hm s). destruct (m s) as [s' r]. cbn [fst] in *. unfold syscall. by destruct (fault (calls s')).
Qed.
Create HintDb keeps.
#[local] Hint Resolve keeps_then keeps_option keeps_check keeps_ret keeps_throw keeps_removing : keeps.

Lemma keeps_temp_Write n data : keeps (temp_Write n data).
Proof. intros s. unfold temp_Write. destruct (fault (calls s)); cbn; set_solver. Qed.
Lemma keeps_atomicWriteFile path data perm : keeps (atomicWriteFile path data perm).
Proof.
  unfold atomicWriteFile, CreateTemp, temp_Chmod, temp_call, Rename.
  repeat first [apply keeps_then|apply keeps_temp_Write|apply keeps_removing|apply keeps_check|apply keeps_syscall|intros ?]; try (cbn [fst dirs set_temps set_files]; set_solver).
  destruct (temps _ !! _) as [[? f]|]; [case_bool_decide|]; cbn; set_solver.
Qed.
Lemma keeps_ReadFile p : keeps (ReadFile p).
Proof. apply keeps_then; [apply keeps_syscall; cbn; set_solver|intros; apply keeps_option]. Qed.
Lemma keeps_fileState p : keeps (fileState p).
Proof. apply keeps_then; [apply keeps_syscall; cbn; set_solver|intros [[]|]; auto with keeps]. Qed.
Lemma keeps_MkdirAll p : p = PrivDir \/ p = PubDir -> keeps (MkdirAll p).
Proof. intros Hp. apply keeps_syscall. cbn. set_solver. Qed.
#[local] Hint Resolve keeps_atomicWriteFile keeps_ReadFile keeps_fileState keeps_MkdirAll : keeps.

Lemma keeps_run now newKey serial : keeps (NewPodCAProvider PrivDir PubDir now newKey serial).
Proof.
  unfold NewPodCAProvider, loadCA, verifyPublicCopy, generateAndPersistCA. cbv zeta.
  repeat first [solve [auto with keeps]|apply keeps_then|case_match|progress intros].
Qed.

(** What the checks of a run that succeeded have passed. *)
Lemma run_guards now newKey serial s s' p : NewPodCAProvider PrivDir PubDir now newKey serial s = (s', Ok p) ->
  str_eqb PrivDir "" = false /\ str_eqb PubDir "" = false /\ keyPath ∉ dirs s /\ certPath ∉ dirs s.
Proof.
  unfold NewPodCAProvider, check, mthen, fileState, mthen, syscall. destruct (str_eqb PrivDir ""); [done|]. destruct (str_eqb PubDir ""); [done|].
  cbn [negb ret calls dirs files]. destruct (fault (calls s)); [done|]. case_bool_decide; [done|].
  destruct (files s !! keyPath); cbn [ret throw calls]; (destruct (fault (S (calls s))); [done|]; cbn [dirs]; by case_bool_decide).
Qed.

(** Without faults, a CA that is on the disk is loaded. *)
Lemma run_reload now newKey serial s r : (forall n, fault n = None) -> str_eqb PrivDir "" = false -> str_eqb PubDir "" = false ->
  keyPath ∉ dirs s -> certPath ∉ dirs s -> on_disk (files s) now r ->
  exists c, NewPodCAProvider PrivDir PubDir now newKey serial s = ({| files := files s; dirs := dirs s; temps := temps s; calls := c |}, Ok (provider r)).
Proof.
  intros Hf Hp Hq Hk Hc Hd. destruct r as [c k]. destruct Hd as [(fk & fc & fp & kb & cb & K1 & C1 & P1 & K2 & K3 & C2 & C3 & P2 & D1 & D2) D3]. cbn [fst] in D3. eexists.
  unfold NewPodCAProvider, check, fileState, loadCA, verifyPublicCopy, ReadFile, mthen, syscall. rewrite Hp, Hq. cbn [negb ret calls dirs files].
  rewrite Hf, bool_decide_eq_false_2, K1 by done. cbn [ret calls dirs files]. rewrite Hf, bool_decide_eq_false_2, C1 by done.
  cbn [ret calls dirs files andb]. rewrite Hf, K1. cbn [fmap option_fmap option_map from_option ret]. rewrite K2. cbn [from_option ret]. rewrite K3.
  cbn [from_option ret calls files]. rewrite Hf, C1. cbn [fmap option_fmap option_map from_option ret]. rewrite C2. cbn [from_option ret]. rewrite C3.
  cbn [from_option ret]. rewrite D1, D2, D3. cbn [check ret fst calls files]. rewrite Hf, P1. cbn [fmap option_fmap option_map from_option ret]. rewrite P2. cbn [check].
  rewrite (proj2 (str_eqb_eq _ _)) by done. done.
Qed.

(** The files after some of the writes, path by path. *)
Lemma written_cases m keyPEM certPEM n path : written m keyPEM certPEM n !! path = m !! path \/
  (path = keyPath /\ written m keyPEM certPEM n !! path = Some {| f_data := keyPEM; f_perm := 384 |}) \/
  ((path = certPath \/ path = pubPath) /\ written m keyPEM certPEM n !! path = Some {| f_data := certPEM; f_perm := 420 |}).
Proof.
  unfold written. destruct (3 <=? n)%nat, (2 <=? n)%nat, (1 <=? n)%nat;
    destruct (decide (path = pubPath)) as [Ep|Ep], (decide (path = certPath)) as [Ec|Ec], (decide (path = keyPath)) as [Ek|Ek];
    rewrite ?lookup_insert_ne by done; rewrite <- ?Ep, <- ?Ec, <- ?Ek, ?lookup_insert_eq by done; auto 6.
Qed.

(** A start that succeeded leaves its CA stored. *)
Lemma provider_stored now newKey serial s s1 p : keyPath <> certPath -> keyPath <> pubPath ->
  NewPodCAProvider PrivDir PubDir now newKey serial s = (s1, Ok p) -> exists r, p = provider r /\ stored (files s1) r.
Proof.
  intros Hkc Hkp Hrun. pose proof (NewPodCAProvider_outcome now newKey serial s) as Ho. rewrite Hrun in Ho.
  destruct Ho as [(Hf & _ & r & [Hd _] & ->)|(_ & _ & r & keyPEM & certPEM & n & Hn & Hf & _ & -> & ->)]; exists r; (split; [done|]); rewrite Hf; [done|].
  by eapply new_ca_stored.
Qed.

(** A start on a disk that stores a CA succeeds with that CA only. *)
Lemma provider_again now newKey serial s s1 p r : stored (files s) r -> NewPodCAProvider PrivDir PubDir now newKey serial s = (s1, Ok p) ->
  p = provider r /\ files s1 = files s.
Proof.
  intros Hr Hrun. pose proof (NewPodCAProvider_outcome now newKey serial s) as Ho. rewrite Hrun in Ho.
  destruct Ho as [(Hf & _ & r' & [Hd _] & ->)|(Hk & _)]; [|by destruct (stored_files _ _ Hr) as [[] _]; congruence].
  split; [|done]. by rewrite (stored_unique _ _ _ Hr Hd).
Qed.
End Paths.
End Provider.

Section Restart.
Context `{X : X509} `{H : Sha256} (PrivDir PubDir : gostring).
Notation keyPath := (path_Join PrivDir privKeyFile).
Notation certPath := (path_Join PrivDir caCertFile).
Notation pubPath := (path_Join PubDir caCertFile).

(** C26: a crash of the process or a failing system call at any point of the provider's start, in the middle of a write included, leaves no
    torn file: each path keeps its old content or, only if neither the key nor the certificate existed, holds the
    whole new key with mode 0600 or the whole new certificate with mode 0644.  Only a temporary file may be torn: what is left of one
    is a beginning of the certificate, or a beginning of the key in the key's own directory with mode 0600. *)
Theorem pod_ca_crash_safe (fault : nat -> option nat) now newKey serial s :
  let '(s', _) := NewPodCAProvider fault PrivDir PubDir now newKey serial s in
  (forall path, files s' !! path = files s !! path \/
     (files s !! keyPath = None /\ files s !! certPath = None /\ exists r keyPEM certPEM, new_ca now newKey serial = Some (r, keyPEM, certPEM) /\
        ((path = keyPath /\ files s' !! path = Some {| f_data := keyPEM; f_perm := 384 |}) \/
         ((path = certPath \/ path = pubPath) /\ files s' !! path = Some {| f_data := certPEM; f_perm := 420 |})))) /\
  (forall i dir f, temps s' !! i = Some (dir, f) -> (exists j, temps s !! j = Some (dir, f)) \/
     exists r keyPEM certPEM, new_ca now newKey serial = Some (r, keyPEM, certPEM) /\
       (f_data f `prefix_of` certPEM \/ (f_data f `prefix_of` keyPEM /\ f_perm f = 384 /\ dir = Dir keyPath))).
Proof.
  pose proof (NewPodCAProvider_outcome fault PrivDir PubDir now newKey serial s) as Ho.
  destruct (NewPodCAProvider fault PrivDir PubDir now newKey serial s) as [s' res].
  destruct Ho as [(Hf & Ht & _)|(Hk & Hc & r & keyPEM & certPEM & n & Hn & Hf & Ht & _)].
  - rewrite Hf. split; [by left|]. intros i dir f Hi. left. by eapply Ht.
  - split.
    + intros path. rewrite Hf. destruct (written_cases PrivDir PubDir (files s) keyPEM certPEM n path) as [Hw|Hw]; [by left|right].
      split_and!; [done|done|]. by exists r, keyPEM, certPEM.
    + intros i dir f Hi. destruct (Ht i _ Hi) as [Ho|Ho]; [by left|right]. unfold confined, leftover in Ho. cbn in Ho.
      exists r, keyPEM, certPEM. split; [done|]. destruct Ho as [(-> & ? & Hp)|[(-> & ? & _)|(-> & ? & _)]]; [right|by left..].
      split_and!; [done|by destruct Hp as [?|[? _]]|done].
Qed.

(** The paths of the two files and of the two directories are apart. *)
Definition apart : Prop := keyPath <> certPath /\ keyPath <> pubPath /\ certPath <> pubPath /\
  keyPath <> PrivDir /\ keyPath <> PubDir /\ certPath <> PrivDir /\ certPath <> PubDir.

(** One start of the provider, at some time, with some random sources and some faults, whatever it returns. *)
Definition start (s s' : io) : Prop := exists (fault : nat -> option nat) now newKey serial r, NewPodCAProvider fault PrivDir PubDir now newKey serial s = (s', r).

(** A start on a disk that stores a CA changes no file. *)
Lemma start_stored s s' r : stored PrivDir PubDir (files s) r -> start s s' -> files s' = files s /\ dirs s' ⊆ {[PrivDir; PubDir]} ∪ dirs s.
Proof.
  intros Hr (fault & now & newKey & serial & res & Hrun). pose proof (NewPodCAProvider_outcome fault PrivDir PubDir now newKey serial s) as Ho.
  pose proof (keeps_run fault PrivDir PubDir now newKey serial s) as Hd. rewrite Hrun in Ho, Hd. split; [|done].
  destruct Ho as [(Hf & _)|(Hk & _)]; [done|]. destruct (stored_files _ _ _ _ Hr) as [[] _]; congruence.
Qed.

(** C22: the persisted CA is the pod's identity.  After a start that succeeded, whatever faults it met, and then any number of
    further starts, at any times, with any faults, failing or not, the files are still the same: a start succeeds with no other CA,
    and one within the validity of the certificate in which no system call fails returns the same certificate, key, generation
    and public copy. *)
Theorem pod_ca_restart (fault : nat -> option nat) now newKey serial s s1 s2 p : apart -> NewPodCAProvider fault PrivDir PubDir now newKey serial s = (s1, Ok p) ->
  rtc start s1 s2 ->
  files s2 = files s1 /\
  (forall fault' now' newKey' serial' s3 p', NewPodCAProvider fault' PrivDir PubDir now' newKey' serial' s2 = (s3, Ok p') -> p' = p) /\
  (forall now' newKey' serial', valid_at now' (pv_cert p) ->
     exists s3, NewPodCAProvider (fun _ => None) PrivDir PubDir now' newKey' serial' s2 = (s3, Ok p) /\ files s3 = files s1).
Proof.
  intros (Ha1 & Ha2 & _ & Ha3 & Ha4 & Ha5 & Ha6) Hrun Hst. destruct (run_guards _ _ _ _ _ _ _ _ _ Hrun) as (Hp & Hq & Hk & Hc).
  pose proof (keeps_run fault PrivDir PubDir now newKey serial s) as Hd. rewrite Hrun in Hd. cbn [fst] in Hd.
  destruct (provider_stored fault PrivDir PubDir now newKey serial s s1 p) as (r & -> & Hr); [done..|].
  assert (files s2 = files s1 /\ dirs s2 ⊆ {[PrivDir; PubDir]} ∪ dirs s) as [Hf2 Hd2].
  { apply (rtc_preserves start (fun t => files t = files s1 /\ dirs t ⊆ {[PrivDir; PubDir]} ∪ dirs s) s1 s2); [|done|done].
    intros t t' Ht [Hft Hdt]. destruct (start_stored t t' r) as [? ?]; [by rewrite Hft|done|]. split; [congruence|set_solver]. }
  split; [done|]. split.
  - intros fault' now' newKey' serial' s3 p' Hrun'. eapply (provider_again _ PrivDir PubDir); [|exact Hrun']. by rewrite Hf2.
  - intros now' newKey' serial' Hv. destruct (run_reload (fun _ => None) PrivDir PubDir now' newKey' serial' s2 r) as [c Hc']; [done..|set_solver|set_solver| |].
    + split; [by rewrite Hf2|]. by apply valid_at_spec.
    + eexists. by rewrite Hc'.
Qed.

(** A generation that was interrupted after it wrote a file is never completed or overwritten: every later
    start, whatever faults it meets, ends in an error and leaves the files alone (no CA without a
    public copy, and no silent second CA). *)
Theorem pod_ca_interrupted (fault : nat -> option nat) now newKey serial s s1 e : apart -> files s !! pubPath = None ->
  NewPodCAProvider fault PrivDir PubDir now newKey serial s = (s1, Err e) -> files s1 <> files s ->
  forall fault' now' newKey' serial', exists s2 e', NewPodCAProvider fault' PrivDir PubDir now' newKey' serial' s1 = (s2, Err e') /\ files s2 = files s1.
Proof.
  intros (Ha1 & Ha2 & Ha3 & _) Hpub Hrun Hne fault' now' newKey' serial'. pose proof (NewPodCAProvider_outcome fault PrivDir PubDir now newKey serial s) as Ho.
  rewrite Hrun in Ho. destruct Ho as [[? _]|(Hk & Hc & r & keyPEM & certPEM & n & _ & Hf & _ & Hn)]; [done|].
  assert (1 <= n <= 2)%nat as Hn' by (destruct n; [done|lia]).
  assert (is_Some (files s1 !! keyPath) /\ (files s1 !! certPath = None \/ files s1 !! pubPath = None)) as [Hsome Hmiss].
  { rewrite Hf. unfold written. destruct n as [|[|[|]]]; [lia| | |lia]; cbn [Nat.leb].
    - split; [by rewrite lookup_insert_eq|left]. by rewrite lookup_insert_ne by congruence.
    - split; [by rewrite lookup_insert_ne, lookup_insert_eq by congruence|right]. by rewrite !lookup_insert_ne by congruence. }
  pose proof (NewPodCAProvider_outcome fault' PrivDir PubDir now' newKey' serial' s1) as Ho.
  destruct (NewPodCAProvider fault' PrivDir PubDir now' newKey' serial' s1) as [s2 res].
  destruct Ho as [(Hf2 & _ & Hres)|(Hk2 & _)]; [|by destruct Hsome; congruence].
  destruct res as [p'|e']; [|by exists s2, e']. destruct Hres as (r' & [Hd _] & _). apply stored_files in Hd as (_ & [? ?] & [? ?]).
  destruct Hmiss; congruence.
Qed.
End Restart.

(** ** A concrete library and disk *)

#[local] Instance demo_sha : Sha256 := fun s => s.
Definition demo_cert (der : gostring) : certificate gostring :=
  {| ct_Raw := der; ct_PublicKey := der; ct_IsCA := true; ct_KeyUsage := 97; ct_NotBefore := 0; ct_NotAfter := 1000000 * Second |}.
#[local] Program Instance demo_x509 : X509 := {|
  key := gostring; pub := gostring; public := id; pub_equal := str_eqb;
  pem_Encode := fun _ b => b; pem_Decode := Some; ParseCertificate := fun der => Some (demo_cert der);
  CreateCertificate := fun tmpl _ k =>
    if ct_IsCA tmpl && (ct_KeyUsage tmpl =? 97) && (ct_NotBefore tmpl =? 0) && (ct_NotAfter tmpl =? 1000000 * Second) then Some k else None;
  MarshalPKCS8 := Some; ParsePKCS8 := fun b => Some (Some b); AddYears := fun t _ => t - Hour + 1000000 * Second
|}.
Next Obligation. intros p. by apply str_eqb_eq. Qed.
Next Obligation. done. Qed.
Next Obligation. by intros k der [= ->]. Qed.
Next Obligation. by intros der c [= <-]. Qed.
Next Obligation.
  cbn. intros tmpl _ k der c Hc [= <-]. destruct (_ && _) eqn:E in Hc; [|done]. injection Hc as ->.
  rewrite !andb_true_iff, !Z.eqb_eq in E. destruct E as [[[-> ->] ->] ->]. done.
Qed.

Definition demo_start (fault : nat -> option nat) : M PodCAProvider := NewPodCAProvider fault "/private" "/public" Hour (Some ("k" : gostring)) (Some 7).
Definition demo_disk (fault : nat -> option nat) : io := fst (demo_start fault blank).
Definition demo_no_fault : nat -> option nat := fun _ => None.
(** Every call after the rename of the key file fails. *)
Definition demo_crash : nat -> option nat := fun n => if (9 <=? n)%nat then Some 0%nat else None.
Definition demo_provider : PodCAProvider := provider (demo_cert "k", "k" : gostring).

Lemma demo_outcome fault r : snd (demo_start fault blank) = r -> demo_start fault blank = (demo_disk fault, r).
Proof. intros <-. apply surjective_pairing. Qed.
Lemma demo_start_ok : snd (demo_start demo_no_fault blank) = Ok demo_provider.
Proof. reflexivity. Qed.
Lemma demo_start_crash : snd (demo_start demo_crash blank) = Err IOFailed.
Proof. reflexivity. Qed.
Lemma demo_apart : apart "/private" "/public".
Proof. unfold apart. split_and!; by vm_compute. Qed.

(** The second start fails, long after the certificate has expired; the third one finds the CA. *)
Definition demo_late : io := fst (NewPodCAProvider demo_no_fault "/private" "/public" (2000000 * Second) (Some ("y" : gostring)) (Some 8) (demo_disk demo_no_fault)).
Lemma pod_ca_restart_witness :
  (exists e, snd (NewPodCAProvider demo_no_fault "/private" "/public" (2000000 * Second) (Some ("y" : gostring)) (Some 8) (demo_disk demo_no_fault)) = Err e) /\
  exists s3, NewPodCAProvider demo_no_fault "/private" "/public" (2 * Hour) (Some ("z" : gostring)) (Some 9) demo_late = (s3, Ok demo_provider) /\
  files s3 = files (demo_disk demo_no_fault).
Proof.
  split; [eexists; reflexivity|].
  assert (NewPodCAProvider demo_no_fault "/private" "/public" Hour (Some ("k" : gostring)) (Some 7) blank = (demo_disk demo_no_fault, Ok demo_provider)) as Hr
    by (exact (demo_outcome demo_no_fault _ demo_start_ok)).
  assert (rtc (start "/private" "/public") (demo_disk demo_no_fault) demo_late) as Hst
    by (apply rtc_once; exists demo_no_fault, (2000000 * Second), (Some ("y" : gostring)), (Some 8); eexists; apply surjective_pairing).
  destruct (pod_ca_restart "/private" "/public" demo_no_fault Hour _ (Some 7) blank _ _ _ demo_apart Hr Hst) as (_ & _ & Hs).
  apply Hs. split; vm_compute; discriminate.
Defined.

Lemma pod_ca_interrupted_witness : exists s2 e,
  NewPodCAProvider demo_no_fault "/private" "/public" (2 * Hour) (Some ("z" : gostring)) (Some 9) (demo_disk demo_crash) = (s2, Err e) /\
  files s2 = files (demo_disk demo_crash).
Proof.
  assert (NewPodCAProvider demo_crash "/private" "/public" Hour (Some ("k" : gostring)) (Some 7) blank = (demo_disk demo_crash, Err IOFailed)) as Hr
    by (exact (demo_outcome demo_crash _ demo_start_crash)).
  apply (pod_ca_interrupted "/private" "/public" demo_crash Hour _ (Some 7) blank _ _ demo_apart eq_refl Hr).
  intros Heq. apply (f_equal (fun m => m !! path_Join "/private" privKeyFile)) in Heq. vm_compute in Heq. discriminate.
Defined.
