(* ===== verification/Cgroup.v ===== *)
(** * [internal/dataplane/capture]: finding and checking the pod cgroup

    [cgroup.go], [cgroup_discover.go], [cgroup_seams_linux.go] and
    [cmd/aksh-proxy/cgroup.go].  The file system is the class [FileSystem]: one snapshot of
    it, read by the operations that the code calls.  The seams of the resolver's
    configuration are functions, nil ones are [None]. *)

From S2P Require Import Prelude GoStrings GoRuntime Canonicalize GoPath.
#[local] Open Scope Z_scope.

(** ** Failure codes *)

Inductive FailureCode :=
| E_CGO_ENABLED | E_KERNEL_TOO_OLD | E_NO_CGROUP2 | E_CGROUP_SCOPE | E_CGROUPNS_OPAQUE | E_AMBIGUOUS_CGROUP | E_CGROUP_WALK_LIMIT
| E_NO_BPFFS | E_MISSING_CAPS | E_MEMLOCK | E_PROG_LOAD | E_CONFIG_WRITE | E_CONFIG_FREEZE | E_ATTACH | E_ATTACH_VERIFY
| E_PIN_ROOT_UNSAFE | E_PROBE | E_PRIVDROP | E_PROBE_UID.

(** A [*PreflightError] with its gate, or one of the plain errors. *)
Inductive cgroup_error :=
| PreflightError (gate : gostring) (code : FailureCode)
| MissingResolver | EmptyPodPath | MissingHostMount | MissingProcCgroupPath | MissingLocalMount | MissingSeam
| HostMountUnusable | NamespaceRefused.

Definition scopeError (gate : gostring) : cgroup_error := PreflightError gate E_CGROUP_SCOPE.

Definition Cgroup2SuperMagic : Z := 0x63677270.
Definition minPodCgroupDepth : nat := 2.
Definition maxWalkDepth : nat := 12.
Definition maxWalkDirs : Z := 50000.

(** ** The operating system *)

Class FileSystem := {
  Getwd : option gostring;
  Stat : gostring -> option (bool * Z);                (* is a directory, inode *)
  Lstat : gostring -> option (bool * Z);
  EvalSymlinks : gostring -> option gostring;
  ReadDir : gostring -> option (list (gostring * bool)); (* sorted names, is a directory *)
  fs_ReadFile : gostring -> option gostring;
  statfs_magic : gostring -> option Z;
  (* the working directory is absolute; resolving links of an absolute path gives one *)
  Getwd_abs : forall d, Getwd = Some d -> IsAbs d = true;
  EvalSymlinks_abs : forall p q, IsAbs p = true -> EvalSymlinks p = Some q -> IsAbs q = true
}.

Record PodCgroupResolverConfig := {
  pr_HostCgroupMount : gostring; pr_LocalCgroupMount : gostring; pr_ProcCgroupPath : gostring; pr_ProxyPID : Z;
  pr_FSMagic : option (gostring -> option Z);
  pr_Namespace : option (gostring -> bool);
  pr_Inode : option (gostring -> option Z);
  pr_Dirs : option (gostring -> option (list (gostring * Z)));
  pr_Procs : option (gostring -> option (list Z))
}.

Inductive warning := V7Unreadable | V7Children (n : nat) | V8Basename (base : gostring).

Section Cgroup.
Context `{U : Unicode} `{FS : FileSystem}.

(** ** Paths *)

Definition Abs (p : gostring) : option gostring := if IsAbs p then Some (Clean p) else wd ← Getwd; Some (path_Join wd p).
Definition absClean (p : gostring) : option gostring := Clean <$> Abs p.
Definition canonicalizeHostMount (hostMount : gostring) : option gostring := Clean <$> EvalSymlinks hostMount.

(** ** V1-V5 *)

Definition validateScope (fsMagic : gostring -> option Z) (podPath hostMount : gostring) : option cgroup_error :=
  match Stat podPath with
  | None => Some (scopeError "V1")
  | Some (isDir, _) =>
      if negb isDir then Some (scopeError "V1")
      else match fsMagic podPath with
           | None => Some (scopeError "V1")
           | Some magic =>
               if negb (magic =? Cgroup2SuperMagic) then Some (scopeError "V1")
               else if str_eqb podPath hostMount then Some (scopeError "V2")
               else match Rel hostMount podPath with
                    | None => Some (scopeError "V3")
                    | Some rel =>
                        if str_eqb rel "." || str_eqb rel ".." || HasPrefix rel "../" then Some (scopeError "V3")
                        else if (length (Split rel "/") <? minPodCgroupDepth)%nat then Some (scopeError "V4")
                        else if existsb (fun name => bool_decide (Stat (path_Join podPath name) = None))
                                  [bs "cgroup.procs"; bs "cgroup.controllers"] then Some (scopeError "V5")
                        else None
                    end
           end
  end.

(** ** V6: the proxy's process is in a descendant *)

(** The numbers among the fields of the file. *)
Definition parse_pids (raw : gostring) : list Z := omap Atoi (Fields raw).
Definition procsIn (cfg : PodCgroupResolverConfig) (dir : gostring) : option (list Z) :=
  match pr_Procs cfg with
  | Some procs => procs dir
  | None => parse_pids <$> fs_ReadFile (path_Join dir "cgroup.procs")
  end.

Inductive walk_out := WalkNext (visited : Z) | WalkFound | WalkLimit | WalkFailed.

(** The callback on a directory below the root. *)
Definition walk_callback (cfg : PodCgroupResolverConfig) (path : gostring) (depth : nat) (visited : Z) : walk_out :=
  let visited := visited + 1 in
  if maxWalkDirs <? visited then WalkLimit
  else if (maxWalkDepth <? depth)%nat then WalkLimit
  else match procsIn cfg path with
       | None => WalkNext visited
       | Some pids => if existsb (fun pid => pid =? pr_ProxyPID cfg) pids then WalkFound else WalkNext visited
       end.

(** [filepath.WalkDir] below a directory: the entries in order, directories descended into
    after their callback.  [depth] is that of [path] and [fuel] the levels left. *)
Definition walk_then (out : walk_out) (k : Z -> walk_out) : walk_out := match out with WalkNext visited => k visited | out => out end.
Definition walk_entries (path : gostring) (visit : gostring -> Z -> walk_out) : list (gostring * bool) -> Z -> walk_out :=
  fix each entries visited :=
    match entries with
    | [] => WalkNext visited
    | (name, isDir) :: entries =>
        if negb isDir then each entries visited else walk_then (visit (path_Join path name) visited) (each entries)
    end.
Fixpoint walk_below (fuel : nat) (cfg : PodCgroupResolverConfig) (path : gostring) (depth : nat) (visited : Z) : walk_out :=
  match fuel with
  | O => WalkLimit
  | S fuel =>
      match ReadDir path with
      | None => WalkFailed
      | Some entries =>
          walk_entries path (fun child visited =>
            walk_then (walk_callback cfg child (S depth) visited) (walk_below fuel cfg child (S depth))) entries visited
      end
  end.

Definition walk_fuel : nat := maxWalkDepth + 1.
Definition validateProxyPresence (cfg : PodCgroupResolverConfig) (podPath : gostring) : option cgroup_error :=
  match walk_below walk_fuel cfg podPath 0 0 with
  | WalkLimit => Some (PreflightError "V6" E_CGROUP_WALK_LIMIT)
  | WalkFailed => Some (scopeError "V6")
  | WalkNext _ => Some (PreflightError "V6" E_AMBIGUOUS_CGROUP)
  | WalkFound => None
  end.

(** ** V7 and V8, which only warn *)

Definition lower_hex_dash (extra : bool) (c : ascii) : bool :=
  is_digit c || between "a" (lower_byte c) "f" || ascii_eqb c "-" || (extra && ascii_eqb c "_").
(** [(?i)^pod[0-9a-f-]{36}$] *)
Definition kubeletCgroupfsPattern (s : gostring) : bool :=
  (length s =? 39)%nat && str_eqb (map lower_byte (take 3 s)) "pod" && forallb (lower_hex_dash false) (drop 3 s).
(** [(?i)^.*pod[0-9a-f_-]{36}\.slice$]; under [(?i)] the long s is an s. *)
Definition long_s : gostring := ["197"%char; "191"%char].
Definition strip_slice (s : gostring) : option gostring :=
  let n := length s in
  if (6 <=? n)%nat && str_eqb (map lower_byte (drop (n - 6) s)) ".slice" then Some (take (n - 6) s)
  else if (7 <=? n)%nat && str_eqb (map lower_byte (drop (n - 7) s)) ("."%char :: long_s ++ bs "lice") then Some (take (n - 7) s)
  else None.
Definition kubeletSystemdPattern (s : gostring) : bool :=
  match strip_slice s with
  | None => false
  | Some body =>
      let n := length body in
      (39 <=? n)%nat && forallb (lower_hex_dash true) (drop (n - 36) body) &&
      str_eqb (map lower_byte (take 3 (drop (n - 39) body))) "pod" && negb (ContainsByte (take (n - 39) body) chr_lf)
  end.

Definition validateShape (podPath : gostring) : list warning :=
  (match ReadDir podPath with
   | None => [V7Unreadable]
   | Some entries =>
       let children := length (List.filter snd entries) in
       if (children <? 2)%nat then [V7Children children] else []
   end) ++
  (let base := Base podPath in
   if negb (kubeletCgroupfsPattern base) && negb (kubeletSystemdPattern base) then [V8Basename base] else []).

(** ** [ResolvePodCgroup] *)

(** [None] for the resolver is the nil receiver. *)
Definition ResolvePodCgroup (r : option PodCgroupResolverConfig) (podPath : gostring) : result cgroup_error (gostring * list warning) :=
  match r with
  | None => Err MissingResolver
  | Some cfg =>
      if str_eqb podPath "" then Err EmptyPodPath
      else if str_eqb (pr_HostCgroupMount cfg) "" then Err MissingHostMount
      else
        match pr_FSMagic cfg with
        | None => Err MissingSeam
        | Some fsMagic =>
            match absClean (pr_HostCgroupMount cfg) with
            | None => Err HostMountUnusable
            | Some hostMount =>
                if bool_decide (Stat hostMount = None) then Err HostMountUnusable
                else
                  match canonicalizeHostMount hostMount with
                  | None => Err HostMountUnusable
                  | Some hostMount =>
                      match absClean podPath with
                      | None => Err (scopeError "V1")
                      | Some resolved =>
                          let resolved := match EvalSymlinks resolved with Some real => Clean real | None => resolved end in
                          if match pr_Namespace cfg with Some visible => negb (visible resolved) | None => false end then
                            Err NamespaceRefused
                          else match validateScope fsMagic resolved hostMount with
                               | Some e => Err e
                               | None =>
                                   match validateProxyPresence cfg resolved with
                                   | Some e => Err e
                                   | None => Ok (resolved, validateShape resolved)
                                   end
                               end
                      end
                  end
            end
        end
  end.

(** ** Discovery *)

(** The path of the cgroup v2 line: the first with id 0 and no controllers. *)
Fixpoint unified_line (lines : list gostring) : result cgroup_error gostring :=
  match lines with
  | [] => Err (PreflightError "P5" E_NO_CGROUP2)
  | line :: lines =>
      let line := TrimRight (ascii_eqb chr_cr) line in
      if str_eqb line "" then unified_line lines
      else match SplitN3 line ":" with
           | [id; controllers; rel] =>
               if negb (str_eqb id "0") || negb (str_eqb controllers "") then unified_line lines
               else if str_eqb rel "" then Err (PreflightError "P5" E_NO_CGROUP2)
               else Ok rel
           | _ => unified_line lines
           end
  end.
Definition unifiedRelPath (cfg : PodCgroupResolverConfig) : result cgroup_error gostring :=
  match fs_ReadFile (pr_ProcCgroupPath cfg) with
  | None => Err (PreflightError "P5" E_NO_CGROUP2)
  | Some data => unified_line (Split data chr_lf)
  end.

Definition confirmLocalCgroup2 (fsMagic : gostring -> option Z) (cfg : PodCgroupResolverConfig) : option cgroup_error :=
  match fsMagic (pr_LocalCgroupMount cfg) with
  | None => Some (PreflightError "P5" E_NO_CGROUP2)
  | Some magic => if negb (magic =? Cgroup2SuperMagic) then Some (PreflightError "P5" E_NO_CGROUP2) else None
  end.

(** The production seams. *)
Definition InodeOf (path : gostring) : option Z := snd <$> Stat path.
Definition cgroup_dir (path : gostring) (e : gostring * bool) : option (gostring * Z) :=
  if negb (snd e) then None
  else match Lstat (path_Join path (fst e)) with Some (true, ino) => Some (fst e, ino) | _ => None end.
Definition ReadCgroupDirs (path : gostring) : option (list (gostring * Z)) :=
  match ReadDir path with None => None | Some entries => Some (omap (cgroup_dir path) entries) end.

Inductive inode_walk := Matches (paths : list gostring) | WalkBound | RootUnreadable | OutOfFuel.
Record walkItem := { wi_path : gostring; wi_depth : nat }.

(** The inner loop over the entries of one directory. *)
Inductive scan := ScanDone (visited : Z) (matches : list gostring) (pushed : list walkItem) | ScanBound | ScanTwo (matches : list gostring).
Fixpoint scan_entries (target : Z) (cur : walkItem) (entries : list (gostring * Z)) (visited : Z) (matches : list gostring)
  (pushed : list walkItem) : scan :=
  match entries with
  | [] => ScanDone visited matches pushed
  | (name, ino) :: entries =>
      let visited := visited + 1 in
      if maxWalkDirs <? visited then ScanBound
      else if (maxWalkDepth <? S (wi_depth cur))%nat then ScanBound
      else
        let child := path_Join (wi_path cur) name in
        let matches := if ino =? target then matches ++ [child] else matches in
        if (ino =? target) && (1 <? length matches)%nat then ScanTwo matches
        else scan_entries target cur entries visited matches ({| wi_path := child; wi_depth := S (wi_depth cur) |} :: pushed)
  end.

(** The stack is a list with its top first. *)
Fixpoint inode_loop (fuel : nat) (readDirs : gostring -> option (list (gostring * Z))) (target : Z) (stack : list walkItem)
  (visited : Z) (matches : list gostring) : inode_walk :=
  match stack with
  | [] => Matches matches
  | cur :: stack =>
      match fuel with
      | O => OutOfFuel
      | S fuel =>
          match readDirs (wi_path cur) with
          | None => if (wi_depth cur =? 0)%nat then RootUnreadable else inode_loop fuel readDirs target stack visited matches
          | Some entries =>
              match scan_entries target cur entries visited matches [] with
              | ScanBound => WalkBound
              | ScanTwo matches => Matches matches
              | ScanDone visited matches pushed => inode_loop fuel readDirs target (pushed ++ stack) visited matches
              end
          end
      end
  end.
Definition walkForInode (readDirs : gostring -> option (list (gostring * Z))) (hostMount : gostring) (target : Z) : inode_walk :=
  inode_loop (Z.to_nat (maxWalkDirs + 1)) readDirs target [{| wi_path := hostMount; wi_depth := 0 |}] 0 [].

Definition discoverByInode (cfg : PodCgroupResolverConfig) (hostMount : gostring) : result cgroup_error gostring :=
  match pr_Inode cfg, pr_Dirs cfg with
  | None, _ | _, None => Err MissingSeam
  | Some inodeOf, Some readDirs =>
      match inodeOf (pr_LocalCgroupMount cfg) with
      | None => Err (PreflightError "P5" E_CGROUPNS_OPAQUE)
      | Some selfIno =>
          match walkForInode readDirs hostMount selfIno with
          | WalkBound => Err (PreflightError "P5" E_CGROUP_WALK_LIMIT)
          | RootUnreadable | OutOfFuel => Err (PreflightError "P5" E_CGROUPNS_OPAQUE)
          | Matches [] => Err (PreflightError "P5" E_CGROUPNS_OPAQUE)
          | Matches [m] => Ok m
          | Matches _ => Err (PreflightError "P5" E_AMBIGUOUS_CGROUP)
          end
      end
  end.

Definition DiscoverPodCgroup (r : option PodCgroupResolverConfig) : result cgroup_error (gostring * list warning) :=
  match r with
  | None => Err MissingResolver
  | Some cfg =>
      if str_eqb (pr_ProcCgroupPath cfg) "" then Err MissingProcCgroupPath
      else if str_eqb (pr_HostCgroupMount cfg) "" then Err MissingHostMount
      else if str_eqb (pr_LocalCgroupMount cfg) "" then Err MissingLocalMount
      else
        match pr_FSMagic cfg with
        | None => Err MissingSeam
        | Some fsMagic =>
            rbind (unifiedRelPath cfg) (fun rel =>
            match confirmLocalCgroup2 fsMagic cfg with
            | Some e => Err e
            | None =>
                match absClean (pr_HostCgroupMount cfg) with
                | None => Err HostMountUnusable
                | Some hostMount =>
                    rbind (if negb (str_eqb rel "/") then Ok (Clean (path_Join hostMount rel)) else discoverByInode cfg hostMount)
                      (fun candidate => ResolvePodCgroup r (Dir candidate))
                end
            end)
        end
  end.

(** ** [cmd/aksh-proxy/cgroup.go] *)

Inductive derive_error :=
| errHostMountRequired | errHostMountNotAbsolute | errProcCgroupPathRequired | ProcUnreadable | errNoV2Hierarchy | errV2PathEmpty
| errV2PathNotAbsolute | errV2PathHasNoPodParent.

Fixpoint v2_line (lines : list gostring) : option gostring :=
  match lines with
  | [] => None
  | line :: lines =>
      let line := TrimSpace line in
      if str_eqb line "" then v2_line lines
      else match SplitN3 line ":" with
           | [id; controllers; p] => if str_eqb id "0" && str_eqb controllers "" then Some p else v2_line lines
           | _ => v2_line lines
           end
  end.

Definition derivePodCgroupCandidate (hostMount procCgroupPath : gostring) : result derive_error gostring :=
  let hostMount := TrimSpace hostMount in
  if str_eqb hostMount "" then Err errHostMountRequired
  else if negb (IsAbs hostMount) then Err errHostMountNotAbsolute
  else
    let procCgroupPath := TrimSpace procCgroupPath in
    if str_eqb procCgroupPath "" then Err errProcCgroupPathRequired
    else
      match fs_ReadFile procCgroupPath with
      | None => Err ProcUnreadable
      | Some raw =>
          match v2_line (Split raw chr_lf) with
          | None => Err errNoV2Hierarchy
          | Some v2Path =>
              let v2Path := TrimSpace v2Path in
              if str_eqb v2Path "" then Err errV2PathEmpty
              else if negb (IsAbs v2Path) then Err errV2PathNotAbsolute
              else
                let podRel := Dir v2Path in
                if str_eqb podRel "/" || str_eqb podRel "." then Err errV2PathHasNoPodParent
                else Ok (path_Join (Clean hostMount) podRel)
          end
      end.

(** [newProdPodCgroupResolver] of [main.go]. *)
Definition newProdPodCgroupResolver (host local proc : gostring) (pid : Z) : PodCgroupResolverConfig :=
  {| pr_HostCgroupMount := host; pr_LocalCgroupMount := local; pr_ProcCgroupPath := proc; pr_ProxyPID := pid;
     pr_FSMagic := Some statfs_magic; pr_Namespace := None; pr_Inode := Some InodeOf; pr_Dirs := Some ReadCgroupDirs; pr_Procs := None |}.

(** ** The inode walk ends, and finds the only match *)

(** The directories below another, with their inodes. *)
Inductive below (rd : gostring -> option (list (gostring * Z))) : gostring -> gostring -> Z -> Prop :=
| below_child p es n i : rd p = Some es -> (n, i) ∈ es -> below rd p (path_Join p n) i
| below_deeper p es n j q i : rd p = Some es -> (n, j) ∈ es -> below rd (path_Join p n) q i -> below rd p q i.

Lemma scan_entries_count target cur es : forall v m ps v' m' ps',
  scan_entries target cur es v m ps = ScanDone v' m' ps' -> v <= maxWalkDirs ->
  v' <= maxWalkDirs /\ v' = v + Z.of_nat (length es) /\ length ps' = (length ps + length es)%nat.
Proof.
  induction es as [|[n i] es IH]; intros v m ps v' m' ps'; cbn [scan_entries].
  - intros [= <- <- <-] Hv. cbn. lia.
  - destruct (Z.ltb_spec maxWalkDirs (v + 1)); [done|]. destruct (_ <? _)%nat; [done|]. destruct (_ && _); [done|].
    intros Hs%IH Hv; [|lia]. cbn [length] in *. lia.
Qed.

Lemma inode_loop_fuel rd target fuel : forall stack v m, v <= maxWalkDirs ->
  Z.of_nat (length stack) + (maxWalkDirs - v) <= Z.of_nat fuel -> inode_loop fuel rd target stack v m <> OutOfFuel.
Proof.
  induction fuel as [|fuel IH]; intros stack v m Hv Hf.
  - destruct stack; [done|]. cbn [length] in Hf. lia.
  - destruct stack as [|cur stack]; [done|]. cbn [inode_loop length] in *. destruct (rd (wi_path cur)) as [es|].
    + destruct (scan_entries target cur es v m []) as [v' m' ps'| |] eqn:E; [|done|done].
      apply scan_entries_count in E as (Hv' & -> & Hl); [|done]. apply IH; [done|]. rewrite length_app. cbn in Hl. lia.
    + destruct (_ =? _)%nat; [done|]. apply IH; lia.
Qed.

(** C40: The search for the proxy's own cgroup ends: whatever the directories report, the walk visits at most 50000 of them before it
    returns its matches, the walk bound or the failure to read the root. *)
Theorem walkForInode_terminates rd host target : walkForInode rd host target <> OutOfFuel.
Proof. apply inode_loop_fuel; cbn [length]; unfold maxWalkDirs; lia. Qed.

Definition child_of (cur : walkItem) (n : gostring) : walkItem :=
  {| wi_path := path_Join (wi_path cur) n; wi_depth := S (wi_depth cur) |}.

Lemma scan_entries_spec target cur es : forall v m ps v' m' ps',
  scan_entries target cur es v m ps = ScanDone v' m' ps' ->
  (forall x, x ∈ m -> x ∈ m') /\ (forall it, it ∈ ps -> it ∈ ps') /\
  (forall n i, (n, i) ∈ es -> child_of cur n ∈ ps' /\ (i = target -> path_Join (wi_path cur) n ∈ m')) /\
  (forall x, x ∈ m' -> x ∈ m \/ exists n, (n, target) ∈ es /\ x = path_Join (wi_path cur) n) /\
  (forall it, it ∈ ps' -> it ∈ ps \/ exists n i, (n, i) ∈ es /\ it = child_of cur n).
Proof.
  induction es as [|[n i] es IH]; intros v m ps v' m' ps'; cbn [scan_entries].
  - intros [= <- <- <-]. split_and!; try (by eauto). by intros n i ?%elem_of_nil.
  - destruct (_ <? _); [done|]. destruct (_ <? _)%nat; [done|]. destruct (_ && _); [done|].
    intros (H1 & H2 & H3 & H4 & H5)%IH. fold (child_of cur n) in *.
    assert (forall x, x ∈ m -> x ∈ m') as Hm by (intros x Hx; apply H1; destruct (i =? target); set_solver).
    split_and!; [done|set_solver| | |].
    + intros n' i' [[= -> ->]|Hin]%elem_of_cons; [|by apply H3]. split; [apply H2; set_solver|].
      intros ->. apply H1. rewrite Z.eqb_refl. set_solver.
    + intros x [Hx|(n' & Hn & ->)]%H4; [|right; exists n'; set_solver].
      destruct (Z.eqb_spec i target) as [->|]; [|by left]. apply elem_of_app in Hx as [Hx|Hx]; [by left|].
      apply list_elem_of_singleton in Hx as ->. right. exists n. set_solver.
    + intros it [Hit|(n' & i' & Hn & ->)]%H5; [|right; exists n', i'; set_solver].
      apply elem_of_cons in Hit as [->|Hit]; [right; exists n, i; set_solver|by left].
Qed.

Lemma scan_entries_two target cur es : forall v m ps m', scan_entries target cur es v m ps = ScanTwo m' -> (1 < length m')%nat.
Proof.
  induction es as [|[n i] es IH]; intros v m ps m'; cbn [scan_entries]; [done|].
  destruct (_ <? _); [done|]. destruct (maxWalkDepth <? _)%nat; [done|]. destruct (_ && _) eqn:E; [|by apply IH].
  apply andb_true_iff in E as [_ E%Nat.ltb_lt]. by intros [= <-].
Qed.

Lemma inode_loop_spec rd target fuel : forall stack v m ms,
  inode_loop fuel rd target stack v m = Matches ms -> (length ms <= 1)%nat ->
  (forall x, x ∈ m -> x ∈ ms) /\
  (forall it q, it ∈ stack -> below rd (wi_path it) q target -> q ∈ ms) /\
  (forall x, x ∈ ms -> x ∈ m \/ exists it, it ∈ stack /\ below rd (wi_path it) x target).
Proof.
  induction fuel as [|fuel IH]; intros stack v m ms.
  - destruct stack; [|done]. intros [= <-] _. split_and!; [done| |by left]. by intros it q ?%elem_of_nil.
  - destruct stack as [|cur stack]; cbn [inode_loop].
    { intros [= <-] _. split_and!; [done| |by left]. by intros it q ?%elem_of_nil. }
    destruct (rd (wi_path cur)) as [es|] eqn:Er.
    + destruct (scan_entries target cur es v m []) as [v' m' ps'| |m'] eqn:E; [|done|].
      * intros Hl Hn. destruct (IH _ _ _ _ Hl Hn) as (I1 & I2 & I3). apply scan_entries_spec in E as (H1 & _ & H3 & H4 & H5).
        split_and!; [by eauto| |].
        -- intros it q [->|Hit]%elem_of_cons Hb; [|eapply I2; [|exact Hb]; set_solver].
           inversion Hb as [p es' n i Hp Hin|p es' n j q' i Hp Hin Hb']; subst; rewrite Hp in Er; injection Er as ->.
           ++ apply I1. by apply (H3 n target).
           ++ apply (I2 (child_of cur n)); [|done]. apply elem_of_app. left. by apply (H3 n j).
        -- intros x [Hx|(it & Hit & Hb)]%I3.
           ++ apply H4 in Hx as [Hx|(n & Hn' & ->)]; [by left|]. right. exists cur. split; [set_solver|]. by eapply below_child.
           ++ right. apply elem_of_app in Hit as [Hit|Hit]; [|exists it; set_solver].
              apply H5 in Hit as [?%elem_of_nil|(n & i & Hin & ->)]; [done|]. exists cur. split; [set_solver|].
              by eapply below_deeper.
      * intros [= <-] Hn. apply scan_entries_two in E. lia.
    + destruct (_ =? _)%nat; [done|]. intros Hl Hn. destruct (IH _ _ _ _ Hl Hn) as (I1 & I2 & I3). split_and!; [done| |].
      * intros it q [->|Hit]%elem_of_cons Hb; [|by eauto]. inversion Hb; congruence.
      * intros x [Hx|(it & Hit & Hb)]%I3; [by left|]. right. exists it. split; [by right|done].
Qed.

(** Discovery in a private cgroup namespace attaches to nobody else.  A path that [discoverByInode] returns is a directory below the
    host mount with the inode of the proxy's own cgroup root, and no other directory below the mount that the reader shows has that
    inode: a walk cut short by its bounds, or a second match, is an error. *)
Theorem discoverByInode_unique cfg host m inodeOf rd ino :
  pr_Inode cfg = Some inodeOf -> pr_Dirs cfg = Some rd -> inodeOf (pr_LocalCgroupMount cfg) = Some ino ->
  discoverByInode cfg host = Ok m -> below rd host m ino /\ forall q, below rd host q ino -> q = m.
Proof.
  unfold discoverByInode. intros -> -> ->. destruct (walkForInode rd host ino) as [ms| | |] eqn:E; [|done..].
  destruct ms as [|m' [|]]; [done| |done]. intros [= ->]. apply inode_loop_spec in E as (_ & H2 & H3); [|done]. split.
  - destruct (H3 m) as [?%elem_of_nil|(it & Hit & Hb)]; [set_solver|done|]. by apply list_elem_of_singleton in Hit as ->.
  - intros q Hq. apply list_elem_of_singleton. apply (H2 {| wi_path := host; wi_depth := 0 |}); [set_solver|exact Hq].
Qed.

(** ** The scope of an accepted cgroup *)

Inductive dir_below : gostring -> gostring -> Prop :=
| dir_child p es n : ReadDir p = Some es -> (n, true) ∈ es -> dir_below p (path_Join p n)
| dir_deeper p es n q : ReadDir p = Some es -> (n, true) ∈ es -> dir_below (path_Join p n) q -> dir_below p q.

Lemma walk_callback_found cfg path depth v : walk_callback cfg path depth v = WalkFound ->
  exists pids, procsIn cfg path = Some pids /\ pr_ProxyPID cfg ∈ pids.
Proof.
  unfold walk_callback. destruct (_ <? _); [done|]. destruct (_ <? _)%nat; [done|]. destruct (procsIn cfg path) as [pids|]; [|done].
  destruct (existsb _ _) eqn:E; [|done]. intros _. exists pids. split; [done|].
  apply existsb_exists in E as (pid & Hin & ->%Z.eqb_eq). by apply list_elem_of_In.
Qed.

Lemma walk_entries_found path visit l : forall v, walk_entries path visit l v = WalkFound ->
  exists name v', (name, true) ∈ l /\ visit (path_Join path name) v' = WalkFound.
Proof.
  induction l as [|[name isDir] l IH]; intros v; cbn [walk_entries]; [done|]. destruct isDir; cbn [negb].
  - destruct (visit (path_Join path name) v) as [v1| | |] eqn:E; cbn [walk_then]; [|intros _|done|done].
    + intros (n & v' & Hn & Hv)%IH. exists n, v'. split; [by right|done].
    + exists name, v. split; [left|done].
  - intros (n & v' & Hn & Hv)%IH. exists n, v'. split; [by right|done].
Qed.

Lemma walk_below_found cfg fuel : forall path depth v, walk_below fuel cfg path depth v = WalkFound ->
  exists q pids, dir_below path q /\ procsIn cfg q = Some pids /\ pr_ProxyPID cfg ∈ pids.
Proof.
  induction fuel as [|fuel IH]; intros path depth v; cbn [walk_below]; [done|].
  destruct (ReadDir path) as [entries|] eqn:Er; [|done]. intros (name & v' & Hin & Hv)%walk_entries_found.
  destruct (walk_callback cfg _ _ v') as [v1| | |] eqn:Ec; cbn [walk_then] in Hv; [|clear Hv|done|done].
  - apply IH in Hv as (q & pids & Hb & Hp). exists q, pids. split; [|done]. by eapply dir_deeper.
  - apply walk_callback_found in Ec as (pids & Hp). exists (path_Join path name), pids. split; [|done]. by eapply dir_child.
Qed.

(** The levels left are enough: below depth 12 the callback stops the walk. *)
Lemma walk_below_fuel cfg fuel : forall path depth v k, (walk_fuel <= depth + fuel)%nat -> (depth <= maxWalkDepth)%nat ->
  walk_below (fuel + k) cfg path depth v = walk_below fuel cfg path depth v.
Proof.
  induction fuel as [|fuel IH]; intros path depth v k Hf Hd; [unfold walk_fuel in *; lia|]. cbn [Nat.add walk_below].
  destruct (ReadDir path) as [entries|]; [|done]. revert v. induction entries as [|[name isDir] entries IHe]; intros v; [done|].
  cbn [walk_entries]. destruct isDir; cbn [negb]; [|apply IHe].
  assert (forall v1, walk_callback cfg (path_Join path name) (S depth) v = WalkNext v1 -> (S depth <= maxWalkDepth)%nat) as Hc.
  { intros v1. unfold walk_callback. destruct (_ <? _); [done|]. destruct (Nat.ltb_spec maxWalkDepth (S depth)); [done|]. lia. }
  destruct (walk_callback cfg _ _ v) as [v1| | |] eqn:Ec; cbn [walk_then]; [|done..]. specialize (Hc v1 eq_refl).
  rewrite IH by lia. destruct (walk_below fuel cfg _ _ v1); cbn [walk_then]; [|done..]. apply IHe.
Qed.

Lemma absClean_rooted p q : absClean p = Some q -> exists l, q = rooted_path l /\ Forall normal l.
Proof.
  unfold absClean, Abs. destruct (IsAbs p) eqn:Ep.
  - intros [= <-]. apply Clean_rooted. destruct (Clean_rooted p Ep) as (l & -> & _). apply IsAbs_rooted.
  - destruct Getwd as [wd|] eqn:Ew; [|done]. cbn. intros [= <-]. apply Getwd_abs in Ew. apply Clean_rooted.
    unfold path_Join. destruct wd as [|c wd]; [done|].
    assert (forall t, IsAbs ((c :: wd) ++ t) = true) as Ha.
    { intros t. apply HasPrefix_spec in Ew as [u ->]. rewrite <- app_assoc. apply HasPrefix_app. }
    destruct p as [|d p].
    + destruct (Clean_rooted (c :: wd) Ew) as (l & -> & _). apply IsAbs_rooted.
    + destruct (Clean_rooted _ (Ha ("/"%char :: d :: p))) as (l & -> & _). apply IsAbs_rooted.
Qed.

Lemma resolved_rooted p q : absClean p = Some q ->
  exists l, match EvalSymlinks q with Some real => Clean real | None => q end = rooted_path l /\ Forall normal l.
Proof.
  intros (l & -> & Hl)%absClean_rooted. destruct (EvalSymlinks (rooted_path l)) as [real|] eqn:E; [|by exists l].
  apply EvalSymlinks_abs in E; [|apply IsAbs_rooted]. by apply Clean_rooted.
Qed.

(** V1-V5 on segments. *)
Lemma validateScope_None fsMagic hs ps : Forall normal hs -> Forall normal ps ->
  validateScope fsMagic (rooted_path ps) (rooted_path hs) = None ->
  (exists i, Stat (rooted_path ps) = Some (true, i)) /\ fsMagic (rooted_path ps) = Some Cgroup2SuperMagic /\
  (exists rel, ps = hs ++ rel /\ (2 <= length rel)%nat) /\
  Stat (path_Join (rooted_path ps) "cgroup.procs") <> None /\ Stat (path_Join (rooted_path ps) "cgroup.controllers") <> None.
Proof.
  intros Hh Hp. unfold validateScope. destruct (Stat (rooted_path ps)) as [[isDir i]|]; [|done]. destruct isDir; [|done]. cbn [negb].
  destruct (fsMagic _) as [magic|]; [|done]. destruct (Z.eqb_spec magic Cgroup2SuperMagic) as [->|]; [|done]. cbn [negb].
  destruct (str_eqb _ _); [done|]. destruct (Rel _ _) as [rel|] eqn:Er; [|done].
  destruct (str_eqb rel ".") eqn:E1; [done|]. destruct (str_eqb rel "..") eqn:E2; [done|].
  destruct (HasPrefix rel "../") eqn:E3; [done|]. cbn [orb]. apply str_eqb_neq in E1, E2.
  apply Rel_descendant in Er as (t & -> & _ & Ht); [|done..]. rewrite Ht.
  destruct (Nat.ltb_spec (length t) minPodCgroupDepth) as [|Hlen]; [done|]. cbn [existsb].
  case_bool_decide as S1; [done|]. case_bool_decide as S2; [done|]. intros _. split_and!; eauto.
Qed.

Lemma ResolvePodCgroup_Ok cfg podPath p ws :
  ResolvePodCgroup (Some cfg) podPath = Ok (p, ws) ->
  exists host hs rel fsMagic,
    absClean (pr_HostCgroupMount cfg) = Some host /\ canonicalizeHostMount host = Some (rooted_path hs) /\ pr_FSMagic cfg = Some fsMagic /\
    p = rooted_path (hs ++ rel) /\ Forall normal (hs ++ rel) /\ (2 <= length rel)%nat /\
    (exists i, Stat p = Some (true, i)) /\ fsMagic p = Some Cgroup2SuperMagic /\
    Stat (path_Join p "cgroup.procs") <> None /\ Stat (path_Join p "cgroup.controllers") <> None /\
    exists q pids, dir_below p q /\ procsIn cfg q = Some pids /\ pr_ProxyPID cfg ∈ pids.
Proof.
  unfold ResolvePodCgroup. destruct (str_eqb podPath ""); [done|]. destruct (str_eqb _ ""); [done|].
  destruct (pr_FSMagic cfg) as [fsMagic|]; [|done]. destruct (absClean (pr_HostCgroupMount cfg)) as [host|] eqn:Eh; [|done].
  case_bool_decide; [done|]. destruct (canonicalizeHostMount host) as [hostMount|] eqn:Ec; [|done].
  assert (exists hs, hostMount = rooted_path hs /\ Forall normal hs) as (hs & -> & Hhs).
  { unfold canonicalizeHostMount in Ec. destruct (EvalSymlinks host) as [real|] eqn:El; [|done]. injection Ec as <-.
    apply absClean_rooted in Eh as (l & -> & _). apply EvalSymlinks_abs in El; [|apply IsAbs_rooted]. by apply Clean_rooted. }
  destruct (absClean podPath) as [q|] eqn:Ea; [|done]. destruct (resolved_rooted podPath q Ea) as (ps & Hr & Hps).
  rewrite Hr. destruct (match pr_Namespace cfg with Some _ => _ | None => _ end); [done|].
  destruct (validateScope fsMagic (rooted_path ps) (rooted_path hs)) eqn:Es; [done|].
  unfold validateProxyPresence. destruct (walk_below _ _ _ _ _) eqn:Ew; [done| |done|done]. intros [= <- <-].
  apply validateScope_None in Es as (Hd & Hm & (rel & -> & Hlen) & H1 & H2); [|done..]. apply walk_below_found in Ew.
  exists host, hs, rel, fsMagic. split_and!; done.
Qed.

(** C20: The scope of capture.  A cgroup that [ResolvePodCgroup] accepts is, after symbolic links are resolved, a directory at least two
    levels strictly below the canonical host mount, with no dot segments left, on a cgroup2 file system, with the two files of a real
    cgroup, and some directory strictly below it lists the proxy's own process: capture is never attached to the host root or to a
    direct child of it, and never to a cgroup the proxy is not in.  The depth alone does not tell a pod from a QoS class: where the
    classes are themselves two levels down, one of them is accepted ([qos_class_accepted]). *)
Theorem ResolvePodCgroup_scope cfg podPath p ws :
  ResolvePodCgroup (Some cfg) podPath = Ok (p, ws) ->
  exists host hs rel fsMagic,
    absClean (pr_HostCgroupMount cfg) = Some host /\ canonicalizeHostMount host = Some (rooted_path hs) /\ pr_FSMagic cfg = Some fsMagic /\
    p = rooted_path (hs ++ rel) /\ Forall normal (hs ++ rel) /\ (2 <= length rel)%nat /\
    (exists i, Stat p = Some (true, i)) /\ fsMagic p = Some Cgroup2SuperMagic /\
    Stat (path_Join p "cgroup.procs") <> None /\ Stat (path_Join p "cgroup.controllers") <> None /\
    exists q pids, dir_below p q /\ procsIn cfg q = Some pids /\ pr_ProxyPID cfg ∈ pids.
Proof. exact (ResolvePodCgroup_Ok cfg podPath p ws). Qed.

(** The candidate of [derivePodCgroupCandidate] is strictly inside the host mount: the cleaned mount followed by at least one plain
    segment, whatever dots and slashes /proc/self/cgroup holds. *)
Theorem derive_candidate_contained hostMount procPath c :
  derivePodCgroupCandidate hostMount procPath = Ok c ->
  exists hs rel, Clean (TrimSpace hostMount) = rooted_path hs /\ c = rooted_path (hs ++ rel) /\ rel <> [] /\ Forall normal (hs ++ rel).
Proof.
  unfold derivePodCgroupCandidate. destruct (str_eqb _ ""); [done|]. destruct (IsAbs (TrimSpace hostMount)) eqn:Eh; [|done]. cbn [negb].
  destruct (str_eqb _ ""); [done|]. destruct (fs_ReadFile _) as [raw|]; [|done]. destruct (v2_line _) as [v|]; [|done].
  destruct (str_eqb _ ""); [done|]. destruct (IsAbs (TrimSpace v)) eqn:Ev; [|done]. cbn [negb].
  destruct (Clean_rooted _ Eh) as (hs & -> & Hhs).
  assert (exists rel, Dir (TrimSpace v) = rooted_path rel /\ Forall normal rel) as (rel & Hd & Hrel).
  { unfold Dir. apply Clean_rooted. apply HasPrefix_spec in Ev as [t Ht]. rewrite Ht. change (bs "/" ++ t) with ("/"%char :: t).
    destruct (LastIndexByte _ _) as [i|] eqn:El; [apply IsAbs_rooted|].
    unfold LastIndexByte in El. destruct (IndexByte (rev ("/"%char :: t)) "/") eqn:Ei; [done|]. apply IndexByte_None in Ei. destruct Ei.
    rewrite list_elem_of_In, <- in_rev, <- list_elem_of_In. set_solver. }
  rewrite Hd. destruct (str_eqb (rooted_path rel) "/") eqn:E1; [done|]. destruct (str_eqb (rooted_path rel) "."); [done|]. cbn [orb].
  intros [= <-]. exists hs, rel. split_and!; [done|by apply path_Join_rooted| |by apply Forall_app]. intros ->. by apply str_eqb_neq in E1.
Qed.
End Cgroup.

(** ** Examples *)

Definition demo_tree : list (string * (bool * Z)) :=
  [("/host/cg", (true, 1)); ("/host/cg/kubepods", (true, 2)); ("/host/cg/kubepods/podA", (true, 3));
   ("/host/cg/kubepods/podA/c1", (true, 4)); ("/host/cg/kubepods/podA/c2", (true, 5)); ("/host/cg/kubepods/podB", (true, 6));
   ("/host/cg/kubepods/podA/cgroup.procs", (false, 7)); ("/host/cg/kubepods/podA/cgroup.controllers", (false, 8));
   ("/sys/fs/cgroup", (true, 4))]%string.
Definition demo_dirs : list (string * list (gostring * bool)) :=
  [("/host/cg", [(bs "kubepods", true)]); ("/host/cg/kubepods", [(bs "podA", true); (bs "podB", true)]);
   ("/host/cg/kubepods/podA", [(bs "c1", true); (bs "c2", true); (bs "cgroup.controllers", false); (bs "cgroup.procs", false)]);
   ("/host/cg/kubepods/podA/c1", []); ("/host/cg/kubepods/podA/c2", []); ("/host/cg/kubepods/podB", [])]%string.
Definition demo_content : list (string * gostring) :=
  [("/proc/self/cgroup"%string, (bs "0::/" ++ [chr_lf])%list); ("/proc/case-a"%string, (bs "0::/kubepods//podA/./c1" ++ [chr_lf])%list);
   ("/host/cg/kubepods/podA/c1/cgroup.procs"%string, bs "17 4242")].
Definition table {A} (t : list (string * A)) (p : gostring) : option A :=
  snd <$> List.find (fun e => str_eqb (bs (fst e)) p) t.
#[program] Definition demo_fs : FileSystem :=
  {| Getwd := Some (bs "/"); Stat := table demo_tree; Lstat := table demo_tree; EvalSymlinks := Some; ReadDir := table demo_dirs;
     fs_ReadFile := table demo_content; statfs_magic _ := Some Cgroup2SuperMagic |}.
Next Obligation. by intros d [= <-]. Qed.
Next Obligation. by intros p q Hp [= <-]. Qed.

Definition demo_resolver : PodCgroupResolverConfig :=
  newProdPodCgroupResolver (FS := demo_fs) "/host/cg" "/sys/fs/cgroup" "/proc/self/cgroup" 4242.

(** Both ways lead to the pod; the QoS class and the host root are refused. *)
Example demo_resolves :
  DiscoverPodCgroup (U := ascii_only) (FS := demo_fs) (Some demo_resolver) = Ok (bs "/host/cg/kubepods/podA", [V8Basename "podA"]) /\
  derivePodCgroupCandidate (U := ascii_only) (FS := demo_fs) "/host//cg" "/proc/case-a" = Ok (bs "/host/cg/kubepods/podA") /\
  ResolvePodCgroup (U := ascii_only) (FS := demo_fs) (Some demo_resolver) "/host/cg/kubepods" = Err (scopeError "V4") /\
  ResolvePodCgroup (U := ascii_only) (FS := demo_fs) (Some demo_resolver) "/host/cg/kubepods/.." = Err (scopeError "V2") /\
  ResolvePodCgroup (U := ascii_only) (FS := demo_fs) (Some demo_resolver) "/sys/fs/cgroup" = Err (scopeError "V3").
Proof. vm_compute. repeat split. Qed.

Lemma ResolvePodCgroup_scope_witness :
  exists p ws, ResolvePodCgroup (U := ascii_only) (FS := demo_fs) (Some demo_resolver) "/host/cg/kubepods/podA" = Ok (p, ws) /\
  exists hs rel, p = rooted_path (hs ++ rel) /\ (2 <= length rel)%nat.
Proof.
  exists (bs "/host/cg/kubepods/podA"), [V8Basename "podA"].
  assert (ResolvePodCgroup (U := ascii_only) (FS := demo_fs) (Some demo_resolver) "/host/cg/kubepods/podA"
          = Ok (bs "/host/cg/kubepods/podA", [V8Basename "podA"])) as H by (vm_compute; reflexivity).
  split; [exact H|].
  destruct (ResolvePodCgroup_scope (U := ascii_only) (FS := demo_fs) demo_resolver _ _ _ H)
    as (host & hs & rel & m & _ & _ & _ & Hp & _ & Hl & _).
  exists hs, rel. split; [exact Hp|exact Hl].
Defined.

Lemma discoverByInode_unique_witness :
  discoverByInode demo_resolver "/host/cg" = Ok (bs "/host/cg/kubepods/podA/c1") /\
  forall q, below (ReadCgroupDirs (FS := demo_fs)) "/host/cg" q 4 -> q = bs "/host/cg/kubepods/podA/c1".
Proof.
  assert (discoverByInode demo_resolver "/host/cg" = Ok (bs "/host/cg/kubepods/podA/c1")) as H by (vm_compute; reflexivity).
  split; [exact H|].
  refine (proj2 (discoverByInode_unique demo_resolver "/host/cg" _ (InodeOf (FS := demo_fs)) _ 4 eq_refl eq_refl _ H)).
  vm_compute. reflexivity.
Defined.

Lemma derive_candidate_contained_witness :
  exists hs rel, Clean (TrimSpace (U := ascii_only) "/host//cg") = rooted_path hs /\
    bs "/host/cg/kubepods/podA" = rooted_path (hs ++ rel) /\ rel <> [] /\ Forall normal (hs ++ rel).
Proof.
  apply (derive_candidate_contained (U := ascii_only) (FS := demo_fs) "/host//cg" "/proc/case-a"). vm_compute. reflexivity.
Defined.

(** V4 is there to refuse a QoS class; under a kubepods parent a class is two levels below the mount, and it is accepted as the pod,
    with no more than the warning about its basename. *)
Definition qos_tree : list (string * (bool * Z)) :=
  [("/host/cg", (true, 1)); ("/host/cg/kubepods", (true, 2)); ("/host/cg/kubepods/burstable", (true, 3));
   ("/host/cg/kubepods/burstable/podA", (true, 4)); ("/host/cg/kubepods/burstable/podA/c1", (true, 5));
   ("/host/cg/kubepods/burstable/podB", (true, 6));
   ("/host/cg/kubepods/burstable/cgroup.procs", (false, 7)); ("/host/cg/kubepods/burstable/cgroup.controllers", (false, 8))]%string.
Definition qos_dirs : list (string * list (gostring * bool)) :=
  [("/host/cg", [(bs "kubepods", true)]); ("/host/cg/kubepods", [(bs "burstable", true)]);
   ("/host/cg/kubepods/burstable", [(bs "podA", true); (bs "podB", true)]);
   ("/host/cg/kubepods/burstable/podA", [(bs "c1", true)]); ("/host/cg/kubepods/burstable/podB", []);
   ("/host/cg/kubepods/burstable/podA/c1", [])]%string.
#[program] Definition qos_fs : FileSystem :=
  {| Getwd := Some (bs "/"); Stat := table qos_tree; Lstat := table qos_tree; EvalSymlinks := Some; ReadDir := table qos_dirs;
     fs_ReadFile := table [("/host/cg/kubepods/burstable/podA/c1/cgroup.procs"%string, bs "4242")];
     statfs_magic _ := Some Cgroup2SuperMagic |}.
Next Obligation. by intros d [= <-]. Qed.
Next Obligation. by intros p q Hp [= <-]. Qed.

Lemma qos_class_accepted :
  ResolvePodCgroup (U := ascii_only) (FS := qos_fs)
    (Some (newProdPodCgroupResolver (FS := qos_fs) "/host/cg" "/sys/fs/cgroup" "/proc/self/cgroup" 4242)) "/host/cg/kubepods/burstable" =
  Ok (bs "/host/cg/kubepods/burstable", [V8Basename "burstable"]).
Proof. vm_compute. reflexivity. Qed.
