(* ===== verification/Preflight.v ===== *)
(** * [internal/dataplane/capture/preflight.go]: the startup gates

    The environment gates and the gates over the loaded kernel objects.  A seam is what it answers; every
    question that a gate puts to a seam is recorded, in order, as a [call].  The seams of production are in
    Startup.v and the privilege drop is in PrivDrop.v. *)

From S2P Require Import Prelude GoStrings GoRuntime Canonicalize GoPath Compile Match Credential Decision Metrics Upstream Capture Cgroup.
#[local] Open Scope Z_scope.

(** ** Kernel versions *)

Fixpoint numericPrefix (s : gostring) : gostring :=
  match s with c :: s' => if is_digit c then c :: numericPrefix s' else [] | [] => [] end.

Definition ParseKernelVersion `{U : Unicode} (release : gostring) : option KernelVersion :=
  let trimmed := TrimSpace release in
  if str_eqb trimmed "" then None
  else match SplitN3 trimmed "." with
       | major :: minor :: _ =>
           ma ← Atoi (numericPrefix major); mi ← Atoi (numericPrefix minor); Some {| Major := ma; Minor := mi |}
       | _ => None
       end.

(** ** The gates *)

Record PrivDropConfig := {
  pd_ProxyUID : Z; pd_ProxyGID : Z; pd_SupplementaryGIDs : list Z; pd_KeepCapabilities : list gostring; pd_NoNewPrivs : bool
}.
Record PinRootInfo := { pi_IsDir : bool; pi_UID : Z; pi_Mode : Z }.

Record BPFFSMounter := { IsBPFFSMounted : gostring -> option bool; MountBPFFS : gostring -> bool }.
Record ConfigMapAccessor := { WriteConfig : gostring -> bool; ReadConfig : option gostring; FreezeConfig : bool }.
Record CgroupAttacher := { Attach : gostring -> option (list Z); AttachedProgIDs : gostring -> option (list Z) }.

(** The answers of the seams; [None] for a field is a nil interface, [None] inside an error. *)
Record PreflightSeams := {
  s_Cgo : option bool;
  s_Uname : option (option gostring);
  s_FSMagic : option (gostring -> option Z);
  s_Cgroup : option (gostring -> result cgroup_error gostring);
  s_BPFFS : option BPFFSMounter;
  s_Capabilities : option (gostring -> option bool);
  s_Memlock : option bool;
  s_Loader : option bool;
  s_Config : option ConfigMapAccessor;
  s_Attacher : option CgroupAttacher;
  s_PinRoot : option (gostring -> option PinRootInfo);
  s_Redirect : option bool;
  s_PrivDrop : option (PrivDropConfig -> bool);
  s_UIDExclusion : option bool
}.

Inductive call :=
| CCgoEnabled | CRelease | CFSMagic (p : gostring) | CResolvePodCgroup (p : gostring) | CIsBPFFSMounted (p : gostring)
| CMountBPFFS (p : gostring) | CHasCapability (n : gostring) | CRemoveMemlock | CLoadPrograms | CWriteConfig (image : gostring)
| CReadConfig | CFreezeConfig | CAttach (p : gostring) | CAttachedProgIDs (p : gostring) | CStatPinRoot (p : gostring)
| CProbeRedirect | CDropPrivileges (cfg : PrivDropConfig) | CProbeUIDExclusion.

Inductive preflight_error := GateError (e : cgroup_error) | OptionsError (e : capture_error).

Definition gate_result : Type := option preflight_error * list call.
Definition fail (gate : gostring) (code : FailureCode) (calls : list call) : gate_result := (Some (GateError (PreflightError gate code)), calls).
Definition pass (calls : list call) : gate_result := (None, calls).

Definition gateP1 (s : PreflightSeams) : gate_result :=
  match s_Cgo s with
  | None => fail "P1" E_CGO_ENABLED []
  | Some enabled => if (enabled : bool) then fail "P1" E_CGO_ENABLED [CCgoEnabled] else pass [CCgoEnabled]
  end.

Definition kernel_floor (opts : Options) : KernelVersion :=
  if bool_decide (co_MinKernel opts = {| Major := 0; Minor := 0 |}) then MinSupportedKernel else co_MinKernel opts.
Definition gateP2 `{U : Unicode} (opts : Options) (s : PreflightSeams) : gate_result :=
  match s_Uname s with
  | None => fail "P2" E_KERNEL_TOO_OLD []
  | Some None => fail "P2" E_KERNEL_TOO_OLD [CRelease]
  | Some (Some release) =>
      match ParseKernelVersion release with
      | None => fail "P2" E_KERNEL_TOO_OLD [CRelease]
      | Some got => if negb (AtLeast got (kernel_floor opts)) then fail "P2" E_KERNEL_TOO_OLD [CRelease] else pass [CRelease]
      end
  end.

Fixpoint check_mounts (fsMagic : gostring -> option Z) (mounts : list (gostring * gostring)) : gate_result :=
  match mounts with
  | [] => pass []
  | (gate, path) :: mounts =>
      match fsMagic path with
      | None => fail gate E_NO_CGROUP2 [CFSMagic path]
      | Some magic =>
          if negb (magic =? Cgroup2SuperMagic) then fail gate E_NO_CGROUP2 [CFSMagic path]
          else let '(e, calls) := check_mounts fsMagic mounts in (e, CFSMagic path :: calls)
      end
  end.
Definition gateP3P4 (opts : Options) (s : PreflightSeams) : gate_result :=
  match s_FSMagic s with
  | None => fail "P3" E_NO_CGROUP2 []
  | Some fsMagic => check_mounts fsMagic [(bs "P3", co_LocalCgroupMount opts); (bs "P4", co_HostCgroupMount opts)]
  end.

(** [errors.As] finds a [*PreflightError] in the resolver's error. *)
Definition gateP5 (opts : Options) (s : PreflightSeams) : gate_result :=
  match s_Cgroup s with
  | None => fail "P5" E_CGROUP_SCOPE []
  | Some resolve =>
      match resolve (co_PodPath opts) with
      | Ok _ => pass [CResolvePodCgroup (co_PodPath opts)]
      | Err (PreflightError g c) => (Some (GateError (PreflightError g c)), [CResolvePodCgroup (co_PodPath opts)])
      | Err _ => fail "P5" E_CGROUP_SCOPE [CResolvePodCgroup (co_PodPath opts)]
      end
  end.

Definition gateP6 (opts : Options) (s : PreflightSeams) : gate_result :=
  match s_BPFFS s with
  | None => fail "P6" E_NO_BPFFS []
  | Some m =>
      let root := co_PinRoot opts in
      match IsBPFFSMounted m root with
      | None => fail "P6" E_NO_BPFFS [CIsBPFFSMounted root]
      | Some true => pass [CIsBPFFSMounted root]
      | Some false =>
          if negb (co_MountBPFFS opts) then fail "P6" E_NO_BPFFS [CIsBPFFSMounted root]
          else if negb (MountBPFFS m root) then fail "P6" E_NO_BPFFS [CIsBPFFSMounted root; CMountBPFFS root]
          else pass [CIsBPFFSMounted root; CMountBPFFS root]
      end
  end.

Definition requiredCapabilities : list gostring := [bs "CAP_BPF"; bs "CAP_NET_ADMIN"].
Fixpoint check_caps (has : gostring -> option bool) (names : list gostring) : gate_result :=
  match names with
  | [] => pass []
  | name :: names =>
      match has name with
      | Some true => let '(e, calls) := check_caps has names in (e, CHasCapability name :: calls)
      | _ => fail "P7" E_MISSING_CAPS [CHasCapability name]
      end
  end.
Definition gateP7 (s : PreflightSeams) : gate_result :=
  match s_Capabilities s with None => fail "P7" E_MISSING_CAPS [] | Some has => check_caps has requiredCapabilities end.

(** A seam that is asked once and answers whether it succeeded. *)
Definition ask (gate : gostring) (code : FailureCode) (c : call) (seam : option bool) : gate_result :=
  match seam with
  | None => fail gate code []
  | Some ok => if (ok : bool) then pass [c] else fail gate code [c]
  end.
Definition gateP8 (s : PreflightSeams) : gate_result := ask "P8" E_MEMLOCK CRemoveMemlock (s_Memlock s).
Definition gateP9 (s : PreflightSeams) : gate_result := ask "P9" E_PROG_LOAD CLoadPrograms (s_Loader s).

Definition gateP10 `{EN : Endian} (opts : Options) (s : PreflightSeams) : gate_result :=
  match s_Config s with
  | None => fail "P10" E_CONFIG_WRITE []
  | Some c =>
      match buildConfigImage opts with
      | Err _ => fail "P10" E_CONFIG_WRITE []
      | Ok image =>
          if negb (WriteConfig c image) then fail "P10" E_CONFIG_WRITE [CWriteConfig image]
          else match ReadConfig c with
               | None => fail "P10" E_CONFIG_WRITE [CWriteConfig image; CReadConfig]
               | Some readback =>
                   if negb (str_eqb image readback) then fail "P10" E_CONFIG_WRITE [CWriteConfig image; CReadConfig]
                   else if negb (FreezeConfig c) then fail "P10" E_CONFIG_FREEZE [CWriteConfig image; CReadConfig; CFreezeConfig]
                   else pass [CWriteConfig image; CReadConfig; CFreezeConfig]
               end
      end
  end.

Definition sameProgIDs (a b : list Z) : bool :=
  if negb (length a =? length b)%nat then false else bool_decide (merge_sort Z.le a = merge_sort Z.le b).

Definition gateP11 (opts : Options) (s : PreflightSeams) : gate_result :=
  match s_Attacher s with
  | None => fail "P11" E_ATTACH []
  | Some a =>
      let pod := co_PodPath opts in
      match Attach a pod with
      | None => fail "P11" E_ATTACH [CAttach pod]
      | Some attached =>
          match AttachedProgIDs a pod with
          | None => fail "P11" E_ATTACH_VERIFY [CAttach pod; CAttachedProgIDs pod]
          | Some observed =>
              if negb (sameProgIDs attached observed) then fail "P11" E_ATTACH_VERIFY [CAttach pod; CAttachedProgIDs pod]
              else pass [CAttach pod; CAttachedProgIDs pod]
          end
      end
  end.

Definition gateP15 (opts : Options) (s : PreflightSeams) : gate_result :=
  if negb (co_PinLinks opts) then pass []
  else match s_PinRoot s with
       | None => fail "P15" E_PIN_ROOT_UNSAFE []
       | Some stat =>
           let c := [CStatPinRoot (co_PinRoot opts)] in
           match stat (co_PinRoot opts) with
           | None => fail "P15" E_PIN_ROOT_UNSAFE c
           | Some info =>
               if negb (pi_IsDir info) then fail "P15" E_PIN_ROOT_UNSAFE c
               else if negb (pi_UID info =? 0) then fail "P15" E_PIN_ROOT_UNSAFE c
               else if negb (Z.land (pi_Mode info) 63 =? 0) then fail "P15" E_PIN_ROOT_UNSAFE c
               else pass c
           end
       end.

Definition gateP12 (opts : Options) (s : PreflightSeams) : gate_result :=
  if negb (co_RunProbe opts) then pass [] else ask "P12" E_PROBE CProbeRedirect (s_Redirect s).

Definition dropConfig (opts : Options) : PrivDropConfig :=
  {| pd_ProxyUID := co_ProxyUID opts; pd_ProxyGID := co_ProxyGID opts; pd_SupplementaryGIDs := [];
     pd_KeepCapabilities := [bs "CAP_BPF"]; pd_NoNewPrivs := true |}.
Definition gateP13 (opts : Options) (s : PreflightSeams) : gate_result :=
  ask "P13" E_PRIVDROP (CDropPrivileges (dropConfig opts)) ((fun drop => drop (dropConfig opts)) <$> s_PrivDrop s).
Definition gateP14 (opts : Options) (s : PreflightSeams) : gate_result :=
  if negb (co_RunProbe opts) then pass [] else ask "P14" E_PROBE_UID CProbeUIDExclusion (s_UIDExclusion s).

(** One gate after another, until one fails. *)
Fixpoint run_gates (gates : list gate_result) : gate_result :=
  match gates with
  | [] => pass []
  | (Some e, calls) :: _ => (Some e, calls)
  | (None, calls) :: gates => let '(e, more) := run_gates gates in (e, calls ++ more)
  end.

Definition environment_gates `{U : Unicode} (opts : Options) (s : PreflightSeams) : list gate_result :=
  [gateP1 s; gateP2 opts s; gateP3P4 opts s; gateP5 opts s; gateP6 opts s; gateP7 s; gateP8 s].
Definition object_gates `{EN : Endian} (opts : Options) (s : PreflightSeams) : list gate_result :=
  [gateP9 s; gateP10 opts s; gateP11 opts s; gateP15 opts s; gateP12 opts s; gateP13 opts s; gateP14 opts s].

Definition RunEnvironmentPreflight `{U : Unicode} (opts : option Options) (s : PreflightSeams) : gate_result :=
  match opts with
  | None => (Some (OptionsError ErrMissingConfig), [])
  | Some o =>
      match Options_Validate (Some o) with
      | Some e => (Some (OptionsError e), [])
      | None => run_gates (environment_gates o s)
      end
  end.

Definition RunPreflight `{U : Unicode} `{EN : Endian} (opts : option Options) (s : PreflightSeams) : gate_result :=
  match RunEnvironmentPreflight opts s, opts with
  | (None, calls), Some o => let '(e, more) := run_gates (object_gates o s) in (e, calls ++ more)
  | r, _ => r
  end.

(** ** What a passed preflight has established *)

Lemma sameProgIDs_spec a b : sameProgIDs a b = true <-> a ≡ₚ b.
Proof.
  unfold sameProgIDs. split.
  - destruct (negb _); [done|]. rewrite bool_decide_eq_true. intros E.
    by rewrite <- (merge_sort_Permutation Z.le a), <- (merge_sort_Permutation Z.le b), E.
  - intros Hp. rewrite (Permutation_length Hp), Nat.eqb_refl. cbn [negb]. apply bool_decide_eq_true.
    apply (StronglySorted_unique Z.le).
    + apply (StronglySorted_merge_sort Z.le).
    + apply (StronglySorted_merge_sort Z.le).
    + by rewrite !merge_sort_Permutation.
Qed.

Lemma run_gates_pass l : fst (run_gates l) = None <-> Forall (fun g => fst g = None) l.
Proof.
  induction l as [|[[e|] calls] l IH]; cbn [run_gates fst].
  - split; [constructor|done].
  - split; [done|]. by intros [? _]%Forall_cons.
  - rewrite Forall_cons. destruct (run_gates l) as [e more]. cbn [fst] in *. rewrite IH. split; [by split|by intros [_ ?]].
Qed.

(** The calls made are those of the gates up to the first that fails. *)
Lemma run_gates_calls l c : c ∈ snd (run_gates l) ->
  exists before g after, l = before ++ g :: after /\ c ∈ snd g /\ Forall (fun g => fst g = None) before.
Proof.
  induction l as [|[[e|] calls] l IH]; cbn [run_gates snd]; [by intros ?%elem_of_nil| |].
  - intros Hc. by exists [], (Some e, calls), l.
  - destruct (run_gates l) as [e more]. cbn [snd] in *. intros [Hc|Hc]%elem_of_app; [by exists [], (None, calls), l|].
    destruct (IH Hc) as (before & g & after & -> & Hg & Hb). exists ((None, calls) :: before), g, after. split_and!; [done..|].
    by constructor.
Qed.

(** A failed gate contradicts its condition. *)
Ltac refute :=
  intros; repeat match goal with
                 | H : exists _, _ |- _ => destruct H
                 | H : _ /\ _ |- _ => destruct H
                 | H : _ \/ _ |- _ => destruct H
                 end; simplify_eq; congruence.

Section Conditions.
Context `{U : Unicode} `{EN : Endian} (o : Options) (s : PreflightSeams).

Record environment_ok : Prop := {
  ok_cgo : s_Cgo s = Some false;
  ok_kernel : exists release v, s_Uname s = Some (Some release) /\ ParseKernelVersion release = Some v /\ AtLeast v (kernel_floor o) = true;
  ok_mounts : exists magic, s_FSMagic s = Some magic /\ magic (co_LocalCgroupMount o) = Some Cgroup2SuperMagic /\
                            magic (co_HostCgroupMount o) = Some Cgroup2SuperMagic;
  ok_cgroup : exists resolve p, s_Cgroup s = Some resolve /\ resolve (co_PodPath o) = Ok p;
  ok_bpffs : exists m, s_BPFFS s = Some m /\ (IsBPFFSMounted m (co_PinRoot o) = Some true \/
               (IsBPFFSMounted m (co_PinRoot o) = Some false /\ co_MountBPFFS o = true /\ MountBPFFS m (co_PinRoot o) = true));
  ok_caps : exists has, s_Capabilities s = Some has /\ has "CAP_BPF" = Some true /\ has "CAP_NET_ADMIN" = Some true;
  ok_memlock : s_Memlock s = Some true
}.

(** The configuration that the kernel reads back is the image, and it is frozen. *)
Definition config_ok : Prop :=
  exists c image, s_Config s = Some c /\ buildConfigImage o = Ok image /\ WriteConfig c image = true /\ ReadConfig c = Some image /\
                  FreezeConfig c = true.
Definition attach_ok : Prop :=
  exists a attached observed, s_Attacher s = Some a /\ Attach a (co_PodPath o) = Some attached /\
    AttachedProgIDs a (co_PodPath o) = Some observed /\ attached ≡ₚ observed.
Definition pin_ok : Prop := co_PinLinks o = true ->
  exists stat info, s_PinRoot s = Some stat /\ stat (co_PinRoot o) = Some info /\ pi_IsDir info = true /\ pi_UID info = 0 /\
    Z.land (pi_Mode info) 63 = 0.

Lemma gateP1_ok : fst (gateP1 s) = None <-> s_Cgo s = Some false.
Proof. unfold gateP1. destruct (s_Cgo s) as [[]|]; cbn; split; congruence. Qed.

Lemma gateP2_ok : fst (gateP2 o s) = None <->
  exists release v, s_Uname s = Some (Some release) /\ ParseKernelVersion release = Some v /\ AtLeast v (kernel_floor o) = true.
Proof.
  unfold gateP2. destruct (s_Uname s) as [[release|]|]; [|split; [done|refute]..].
  destruct (ParseKernelVersion release) as [v|] eqn:Ev; [|split; [done|refute]].
  destruct (AtLeast v (kernel_floor o)) eqn:Ea; cbn [negb]; [split; [eauto 10|done]|].
  split; [done|]. intros (r & v' & [= <-] & Hv & Ha). congruence.
Qed.

Lemma gateP3P4_ok : fst (gateP3P4 o s) = None <->
  exists magic, s_FSMagic s = Some magic /\ magic (co_LocalCgroupMount o) = Some Cgroup2SuperMagic /\
                magic (co_HostCgroupMount o) = Some Cgroup2SuperMagic.
Proof.
  unfold gateP3P4. destruct (s_FSMagic s) as [magic|]; [|split; [done|refute]]. cbn [check_mounts].
  destruct (magic (co_LocalCgroupMount o)) as [m1|] eqn:E1; [|split; [done|refute]].
  destruct (Z.eqb_spec m1 Cgroup2SuperMagic) as [->|]; cbn [negb]; [|split; [done|refute]].
  destruct (magic (co_HostCgroupMount o)) as [m2|] eqn:E2; [|split; [done|refute]].
  destruct (Z.eqb_spec m2 Cgroup2SuperMagic) as [->|]; cbn [negb]; [|split; [done|refute]]. split; [eauto 10|done].
Qed.

Lemma gateP5_ok : fst (gateP5 o s) = None <-> exists resolve p, s_Cgroup s = Some resolve /\ resolve (co_PodPath o) = Ok p.
Proof.
  unfold gateP5. destruct (s_Cgroup s) as [resolve|]; [|split; [done|refute]].
  destruct (resolve (co_PodPath o)) as [p|[]] eqn:E; [split; [eauto|done]| ..];
    (split; [done|]); intros (r & p & [= <-] & Hr); congruence.
Qed.

Lemma gateP6_ok : fst (gateP6 o s) = None <->
  exists m, s_BPFFS s = Some m /\ (IsBPFFSMounted m (co_PinRoot o) = Some true \/
    (IsBPFFSMounted m (co_PinRoot o) = Some false /\ co_MountBPFFS o = true /\ MountBPFFS m (co_PinRoot o) = true)).
Proof.
  unfold gateP6. destruct (s_BPFFS s) as [m|]; [|split; [done|refute]].
  destruct (IsBPFFSMounted m (co_PinRoot o)) as [[]|] eqn:E; [split; [eauto 10|done]| |split; [done|refute]].
  destruct (co_MountBPFFS o) eqn:E2; cbn [negb]; [|split; [done|refute]].
  destruct (MountBPFFS m (co_PinRoot o)) eqn:E3; cbn [negb]; [split; [eauto 10|done]|split; [done|refute]].
Qed.

Lemma gateP7_ok : fst (gateP7 s) = None <->
  exists has, s_Capabilities s = Some has /\ has "CAP_BPF" = Some true /\ has "CAP_NET_ADMIN" = Some true.
Proof.
  unfold gateP7. destruct (s_Capabilities s) as [has|]; [|split; [done|refute]]. cbn [requiredCapabilities check_caps].
  destruct (has "CAP_BPF") as [[]|] eqn:E1; [|split; [done|refute]..].
  destruct (has "CAP_NET_ADMIN") as [[]|] eqn:E2; [split; [eauto 10|done]|split; [done|refute]..].
Qed.

Lemma ask_ok gate code c seam : fst (ask gate code c seam) = None <-> seam = Some true.
Proof. unfold ask. destruct seam as [[]|]; cbn; split; congruence. Qed.

Lemma gateP10_ok : fst (gateP10 o s) = None <-> config_ok.
Proof.
  unfold gateP10, config_ok. destruct (s_Config s) as [c|]; [|split; [done|refute]].
  destruct (buildConfigImage o) as [image|]; [|split; [done|by intros (? & ? & _ & ? & _)]].
  destruct (WriteConfig c image) eqn:E1; cbn [negb]; [|split; [done|refute]].
  destruct (ReadConfig c) as [readback|] eqn:E2; [|split; [done|refute]].
  destruct (str_eqb image readback) eqn:E3; cbn [negb].
  - apply str_eqb_eq in E3 as <-. destruct (FreezeConfig c) eqn:E4; cbn [negb]; [split; [eauto 10|done]|].
    split; [done|]. intros (c' & i & [= <-] & [= <-] & _ & _ & Hr). congruence.
  - apply str_eqb_neq in E3. split; [done|]. intros (c' & i & [= <-] & [= <-] & _ & Hr & _). congruence.
Qed.

Lemma gateP11_ok : fst (gateP11 o s) = None <-> attach_ok.
Proof.
  unfold gateP11, attach_ok. destruct (s_Attacher s) as [a|]; [|split; [done|refute]].
  destruct (Attach a (co_PodPath o)) as [attached|] eqn:E1; [|split; [done|refute]].
  destruct (AttachedProgIDs a (co_PodPath o)) as [observed|] eqn:E2; [|split; [done|refute]].
  pose proof (sameProgIDs_spec attached observed) as Hs. destruct (sameProgIDs attached observed); cbn [negb].
  - split; [|done]. intros _. exists a, attached, observed. split_and!; [done..|by apply Hs].
  - split; [done|]. intros (a' & x & y & [= <-] & Hx & Hy & Hp). rewrite E1 in Hx. rewrite E2 in Hy. injection Hx as ->. injection Hy as ->.
    by apply Hs in Hp.
Qed.

Lemma gateP15_ok : fst (gateP15 o s) = None <-> pin_ok.
Proof.
  unfold gateP15, pin_ok. destruct (co_PinLinks o); cbn [negb]; [|done].
  assert (forall P : Prop, (true = true -> P) <-> P) as -> by (split; auto).
  destruct (s_PinRoot s) as [stat|]; [|split; [done|refute]]. destruct (stat (co_PinRoot o)) as [info|] eqn:E; [|split; [done|refute]].
  destruct (pi_IsDir info) eqn:E1; cbn [negb]; [|split; [done|refute]].
  destruct (Z.eqb_spec (pi_UID info) 0) as [E2|]; cbn [negb]; [|split; [done|refute]].
  destruct (Z.eqb_spec (Z.land (pi_Mode info) 63) 0) as [E3|]; cbn [negb]; [split; [eauto 10|done]|split; [done|refute]].
Qed.

Lemma probe_ok (b : bool) gate code c seam :
  fst (if negb b then pass [] else ask gate code c seam) = None <-> (b = true -> seam = Some true).
Proof. destruct b; cbn [negb]; [rewrite ask_ok; naive_solver|done]. Qed.

Lemma environment_gates_ok : Forall (fun g => fst g = None) (environment_gates o s) <-> environment_ok.
Proof.
  unfold environment_gates. rewrite !Forall_cons. unfold gateP8.
  rewrite gateP1_ok, gateP2_ok, gateP3P4_ok, gateP5_ok, gateP6_ok, gateP7_ok, ask_ok.
  split; [intros (H1 & H2 & H3 & H4 & H5 & H6 & H7 & _); by constructor|intros []; split_and!; [done..|constructor]].
Qed.
End Conditions.

(** ** The order of the gates *)

(** The position of the gate that makes a call. *)
Definition gate_position (c : call) : nat :=
  match c with
  | CCgoEnabled => 1 | CRelease => 2 | CFSMagic _ => 3 | CResolvePodCgroup _ => 4 | CIsBPFFSMounted _ | CMountBPFFS _ => 5
  | CHasCapability _ => 6 | CRemoveMemlock => 7 | CLoadPrograms => 8 | CWriteConfig _ | CReadConfig | CFreezeConfig => 9
  | CAttach _ | CAttachedProgIDs _ => 10 | CStatPinRoot _ => 11 | CProbeRedirect => 12 | CDropPrivileges _ => 13 | CProbeUIDExclusion => 14
  end.
Definition at_position (n : nat) (g : gate_result) : Prop := Forall (fun c => gate_position c = n) (snd g).

Ltac gate_calls := unfold at_position, fail, pass; repeat case_match; simplify_eq; cbn [snd]; repeat constructor.

Section Order.
Context `{U : Unicode} `{EN : Endian} (o : Options) (s : PreflightSeams).

Lemma environment_positions : Forall2 at_position [1; 2; 3; 4; 5; 6; 7]%nat (environment_gates o s).
Proof.
  unfold environment_gates.
  apply Forall2_cons. split; [unfold gateP1; gate_calls|].
  apply Forall2_cons. split; [unfold gateP2; gate_calls|].
  apply Forall2_cons. split; [unfold gateP3P4; cbn [check_mounts]; gate_calls|].
  apply Forall2_cons. split; [unfold gateP5; gate_calls|].
  apply Forall2_cons. split; [unfold gateP6; gate_calls|].
  apply Forall2_cons. split; [unfold gateP7, requiredCapabilities; cbn [check_caps]; gate_calls|].
  apply Forall2_cons. split; [unfold gateP8, ask; gate_calls|].
  constructor.
Qed.

Lemma object_positions : Forall2 at_position [8; 9; 10; 11; 12; 13; 14]%nat (object_gates o s).
Proof.
  unfold object_gates.
  apply Forall2_cons. split; [unfold gateP9, ask; gate_calls|].
  apply Forall2_cons. split; [unfold gateP10; gate_calls|].
  apply Forall2_cons. split; [unfold gateP11; gate_calls|].
  apply Forall2_cons. split; [unfold gateP15; gate_calls|].
  apply Forall2_cons. split; [unfold gateP12, ask; gate_calls|].
  apply Forall2_cons. split; [unfold gateP13, ask; gate_calls|].
  apply Forall2_cons. split; [unfold gateP14, ask; gate_calls|].
  constructor.
Qed.

Lemma run_gates_sorted ns gs : Forall2 at_position ns gs -> StronglySorted Nat.lt ns ->
  StronglySorted Nat.le (map gate_position (snd (run_gates gs))) /\
  Forall (fun c => gate_position c ∈ ns) (snd (run_gates gs)).
Proof.
  assert (forall n calls rest, Forall (fun c => gate_position c = n) calls -> StronglySorted Nat.le (map gate_position rest) ->
    Forall (fun c => n <= gate_position c)%nat rest -> StronglySorted Nat.le (map gate_position (calls ++ rest))) as Happ.
  { intros n calls rest Hc Hs Hr. induction Hc as [|c calls Hn Hc IH]; [done|]. cbn. constructor; [done|].
    apply Forall_fmap, Forall_app. split; (eapply Forall_impl; [eassumption|]); cbn; lia. }
  induction 1 as [|n g ns gs Hg Hgs IH]; intros Hs; [split; constructor|].
  apply StronglySorted_inv in Hs as [Hs Hn]. destruct (IH Hs) as [IH1 IH2]. destruct g as [[e|] calls]; cbn [run_gates].
  - cbn [snd] in *. split.
    + rewrite <- (app_nil_r calls). apply (Happ n); [done|constructor..].
    + eapply Forall_impl; [exact Hg|]. cbn. intros c ->. left.
  - destruct (run_gates gs) as [e more]. cbn [snd] in *. split.
    + apply (Happ n); [done..|]. eapply Forall_impl; [exact IH2|]. cbn. intros c Hc. rewrite Forall_forall in Hn. specialize (Hn _ Hc). lia.
    + apply Forall_app. split; (eapply Forall_impl; [eassumption|]); cbn; [by intros c ->; left|by right].
Qed.

End Order.

(** A call is made by the gate at its position, once the gates before it have passed. *)
Lemma gate_call m n gs c : Forall2 at_position (seq m n) gs -> c ∈ snd (run_gates gs) ->
  exists k g, gate_position c = (m + k)%nat /\ gs !! k = Some g /\ c ∈ snd g /\
    forall j h, (j < k)%nat -> gs !! j = Some h -> fst h = None.
Proof.
  intros Hp (before & g & after & -> & Hc & Hb)%run_gates_calls. exists (length before), g.
  assert ((before ++ g :: after) !! length before = Some g) as Hg by (by apply list_lookup_middle).
  destruct (Forall2_lookup_r _ _ _ _ _ Hp Hg) as (q & Hq & Hat). apply lookup_seq in Hq as [-> _].
  unfold at_position in Hat. rewrite Forall_forall in Hat. split_and!; [by apply Hat|done..|].
  intros j h Hj Hh. rewrite lookup_app_l in Hh by done. rewrite Forall_forall in Hb. apply Hb. by eapply list_elem_of_lookup_2.
Qed.

Section PreflightTheorems.
Context `{U : Unicode} `{EN : Endian}.

Lemma RunPreflight_split o s :
  RunPreflight (Some o) s =
  match Options_Validate (Some o) with
  | Some e => (Some (OptionsError e), [])
  | None => run_gates (environment_gates o s ++ object_gates o s)
  end.
Proof.
  unfold RunPreflight, RunEnvironmentPreflight. destruct (Options_Validate (Some o)); [done|].
  generalize (object_gates o s) as l. induction (environment_gates o s) as [|[[e|] calls] gs IH]; intros l; cbn [app run_gates].
  - by destruct (run_gates l).
  - done.
  - rewrite <- IH. destruct (run_gates gs) as [[e|] more]; [done|]. destruct (run_gates l). by rewrite app_assoc.
Qed.

(** What a passed preflight has established.  [RunPreflight] succeeds exactly when the options are valid, the build is free of cgo,
    the kernel is not below the floor, both cgroup mounts are cgroup2, the pod cgroup resolves, bpffs is mounted or was mounted on
    request, both capabilities are held, the memory lock was lifted, the programs loaded, the configuration image was written, read
    back equal and frozen, the kernel reports exactly the attached programs, the pin root is root's alone when links are pinned, both
    probes passed unless probing is off, and privileges were dropped. *)
Theorem RunPreflight_passes o s :
  fst (RunPreflight (Some o) s) = None <->
  Options_Validate (Some o) = None /\ environment_ok o s /\ s_Loader s = Some true /\ config_ok o s /\ attach_ok o s /\ pin_ok o s /\
  (co_RunProbe o = true -> s_Redirect s = Some true) /\
  (exists drop, s_PrivDrop s = Some drop /\ drop (dropConfig o) = true) /\
  (co_RunProbe o = true -> s_UIDExclusion s = Some true).
Proof.
  rewrite RunPreflight_split. destruct (Options_Validate (Some o)); [split; [done|by intros [? _]]|].
  rewrite run_gates_pass, Forall_app, environment_gates_ok. unfold object_gates. rewrite !Forall_cons.
  unfold gateP9, gateP12, gateP13, gateP14. rewrite !probe_ok, !ask_ok, gateP10_ok, gateP11_ok, gateP15_ok.
  assert ((fun drop => drop (dropConfig o)) <$> s_PrivDrop s = Some true <-> exists drop, s_PrivDrop s = Some drop /\ drop (dropConfig o) = true)
    as -> by (destruct (s_PrivDrop s); cbn; split; [intros [= H]; eauto|by intros (? & [= <-] & ->)|done|by intros (? & ? & _)]).
  split; [intros (H0 & H1 & H2 & H3 & H4 & H5 & H6 & H7 & _)|intros (_ & H0 & H1 & H2 & H3 & H4 & H5 & H6 & H7)];
    split_and!; [done..|constructor].
Qed.

(** The order of startup.  Whatever the seams answer, the questions are asked in the order of the gates, so nothing is loaded,
    written, attached, pinned or mounted after privileges are dropped; a program is attached only to the configured pod cgroup, after
    every environment gate passed and the frozen configuration was read back; and privileges are dropped only after the attachment was
    confirmed. *)
Theorem preflight_order o s :
  let calls := snd (RunPreflight (Some o) s) in
  StronglySorted Nat.le (map gate_position calls) /\
  (forall p, CAttach p ∈ calls -> p = co_PodPath o /\ environment_ok o s /\ s_Loader s = Some true /\ config_ok o s) /\
  (forall cfg, CDropPrivileges cfg ∈ calls -> cfg = dropConfig o /\ environment_ok o s /\ config_ok o s /\ attach_ok o s /\ pin_ok o s).
Proof.
  rewrite RunPreflight_split. destruct (Options_Validate (Some o)); [split_and!; [constructor|by intros ? ?%elem_of_nil..]|].
  intros calls.
  assert (Forall2 at_position (seq 1 14) (environment_gates o s ++ object_gates o s)) as Hp
    by (apply (Forall2_app (l1 := seq 1 7) (l2 := seq 8 7)); [apply environment_positions|apply object_positions]).
  split; [eapply run_gates_sorted; [exact Hp|repeat constructor; lia]|].
  assert (forall c k, c ∈ calls -> gate_position c = (8 + k)%nat -> environment_ok o s /\
            exists g, object_gates o s !! k = Some g /\ c ∈ snd g /\
              forall j h, (j < k)%nat -> object_gates o s !! j = Some h -> fst h = None) as Hpass.
  { intros c k Hc Hpos. destruct (gate_call _ _ _ _ Hp Hc) as (k' & g & Hk & Hg & Hcg & Hb).
    assert (k' = 7 + k)%nat as -> by lia. rewrite lookup_app_r in Hg by (cbn; lia). replace (7 + k - length _)%nat with k in Hg by (cbn; lia).
    split.
    - apply environment_gates_ok, Forall_lookup. intros i x Hi. pose proof (lookup_lt_Some _ _ _ Hi) as Hlt. cbn in Hlt.
      apply (Hb i x); [lia|]. by rewrite lookup_app_l by (cbn; lia).
    - exists g. split_and!; [done..|]. intros j h Hj Hh. apply (Hb (7 + j)%nat h); [lia|]. rewrite lookup_app_r by (cbn; lia).
      by replace (7 + j - length _)%nat with j by (cbn; lia). }
  split.
  - intros p Hc. destruct (Hpass _ 2%nat Hc eq_refl) as (He & g & [= <-] & Hg & Hk). split_and!; [|done| |].
    + revert Hg. unfold gateP11, fail, pass. repeat case_match; set_solver.
    + eapply ask_ok. apply (Hk 0%nat _ ltac:(lia) eq_refl).
    + apply gateP10_ok. apply (Hk 1%nat _ ltac:(lia) eq_refl).
  - intros cfg Hc. destruct (Hpass _ 5%nat Hc eq_refl) as (He & g & [= <-] & Hg & Hk). split_and!; [|done|..].
    + revert Hg. unfold gateP13, ask, fail, pass. repeat case_match; set_solver.
    + apply gateP10_ok. apply (Hk 1%nat _ ltac:(lia) eq_refl).
    + apply gateP11_ok. apply (Hk 2%nat _ ltac:(lia) eq_refl).
    + apply gateP15_ok. apply (Hk 3%nat _ ltac:(lia) eq_refl).
Qed.
End PreflightTheorems.
