(* ===== verification/PrivDrop.v ===== *)
(** * [internal/dataplane/capture/privdrop_linux.go]: dropping privileges

    The seam [privDropSyscalls] is a record of functions on a process state [P]; the
    production functions are written over the class [Kernel], the system calls they make.
    [linux], at the end, is an instance with the rules of capabilities(7) that the sequence
    relies on, for a process with one thread; [linux_threads] is one with several, of which all change user and groups
    ([AllThreadsSyscall]) but only the calling one its capabilities and flags ([capset], [prctl]). *)

From S2P Require Import Prelude GoStrings GoRuntime Canonicalize GoPath Compile Match Credential Decision Metrics Upstream Capture Cgroup Preflight.
#[local] Open Scope Z_scope.

(** ** Capabilities *)

Definition capNameToBit : list (gostring * Z) :=
  [(bs "CAP_BPF", 39); (bs "CAP_NET_ADMIN", 12); (bs "CAP_SETUID", 7); (bs "CAP_SETGID", 6); (bs "CAP_SETPCAP", 8)].
Definition cap_bit (name : gostring) : option Z := snd <$> List.find (fun p => str_eqb (fst p) name) capNameToBit.
Definition CAP_LAST_CAP : nat := 40.

Fixpoint caps_mask (m : Z) (names : list gostring) : option Z :=
  match names with
  | [] => Some m
  | n :: names => bit ← cap_bit n; caps_mask (Z.lor m (Z.shiftl 1 bit)) names
  end.
Definition capsMask (names : list gostring) : option Z := caps_mask 0 names.

Definition withSetpcap (keep : list gostring) : list gostring :=
  if existsb (fun n => str_eqb n "CAP_SETPCAP") keep then keep else keep ++ [bs "CAP_SETPCAP"].

(** The two maps have the same keys. *)
Definition sameGroupSet (a b : list Z) : bool :=
  let set := list_to_set a : gset Z in
  let other := list_to_set b : gset Z in
  if negb (size set =? size other)%nat then false else forallb (fun g => bool_decide (g ∈ other)) (elements set).

(** ** The seam and the sequence *)

Inductive errno := EPERM | EINVAL | OtherErrno.

Record privDropSyscalls (P : Type) := {
  setKeepCaps : bool -> P -> bool * P;
  setGroups : list Z -> P -> bool * P;
  setGID : Z -> P -> bool * P;
  setUID : Z -> P -> bool * P;
  setCaps : list gostring -> P -> bool * P;
  dropBoundingCaps : list gostring -> P -> bool * P;
  setNoNewPrivs : P -> bool * P;
  getUID : P -> Z; getEUID : P -> Z; getGID : P -> Z;
  getGroups : P -> option (list Z);
  getEffectiveCaps : P -> option Z;
  getNoNewPrivs : P -> option Z;
  getKeepCaps : P -> option Z;
  getBoundingCaps : P -> option Z;
  probeSetUIDZero : P -> option errno * P
}.
Arguments setKeepCaps {P}. Arguments setGroups {P}. Arguments setGID {P}. Arguments setUID {P}. Arguments setCaps {P}.
Arguments dropBoundingCaps {P}. Arguments setNoNewPrivs {P}. Arguments getUID {P}. Arguments getEUID {P}. Arguments getGID {P}.
Arguments getGroups {P}. Arguments getEffectiveCaps {P}. Arguments getNoNewPrivs {P}. Arguments getKeepCaps {P}.
Arguments getBoundingCaps {P}. Arguments probeSetUIDZero {P}.

(** [privDropError]: the step and its name; every one is E_PRIVDROP at gate P13. *)
Record privDropError := { pe_step : Z; pe_name : gostring }.

Section Drop.
Context {P : Type} (s : privDropSyscalls P).

Definition errAt (step : Z) (name : gostring) : option privDropError := Some {| pe_step := step; pe_name := name |}.

(** The reads of [verifyDrop], before the probe. *)
Definition verify_reads (cfg : PrivDropConfig) (p : P) : option privDropError :=
  if negb (getUID s p =? pd_ProxyUID cfg) then errAt 11 "verify getuid"
  else if negb (getEUID s p =? pd_ProxyUID cfg) then errAt 11 "verify geteuid"
  else if negb (getGID s p =? pd_ProxyGID cfg) then errAt 11 "verify getgid"
  else match getGroups s p with
  | None => errAt 11 "verify getgroups"
  | Some groups =>
      if negb (sameGroupSet groups (pd_SupplementaryGIDs cfg)) then errAt 11 "verify getgroups"
      else match capsMask (pd_KeepCapabilities cfg), getEffectiveCaps s p with
      | Some want, Some got =>
          if negb (got =? want) then errAt 11 "verify caps"
          else match getBoundingCaps s p with
          | None => errAt 11 "verify bounding caps"
          | Some bounding =>
              if negb (bounding =? want) then errAt 11 "verify bounding caps"
              else match getKeepCaps s p with
              | None => errAt 11 "verify keepcaps"
              | Some keepCaps =>
                  if negb (keepCaps =? 0) then errAt 11 "verify keepcaps"
                  else if pd_NoNewPrivs cfg then
                    match getNoNewPrivs s p with
                    | None => errAt 11 "verify no_new_privs"
                    | Some nnp => if negb (nnp =? 1) then errAt 11 "verify no_new_privs" else None
                    end
                  else None
              end
          end
      | _, _ => errAt 11 "verify caps"
      end
  end.

Definition verifyDrop (cfg : PrivDropConfig) (p : P) : option privDropError * P :=
  match verify_reads cfg p with
  | Some e => (Some e, p)
  | None =>
      match probeSetUIDZero s p with
      | (Some EPERM, p) => (None, p)
      | (_, p) => (errAt 11 "verify setuid(0)", p)
      end
  end.

(** The steps before the verification, in order. *)
Definition drop_steps (cfg : PrivDropConfig) : list (Z * gostring * (P -> bool * P)) :=
  let keep := pd_KeepCapabilities cfg in
  [ (3, bs "PR_SET_KEEPCAPS(1)", setKeepCaps s true);
    (4, bs "setgroups", setGroups s (pd_SupplementaryGIDs cfg));
    (5, bs "setgid", setGID s (pd_ProxyGID cfg));
    (6, bs "setuid", setUID s (pd_ProxyUID cfg));
    (7, bs "capset-raise", setCaps s (withSetpcap keep));
    (8, bs "PR_CAPBSET_DROP", dropBoundingCaps s keep);
    (7, bs "capset-finalize", setCaps s keep);
    (9, bs "PR_SET_KEEPCAPS(0)", setKeepCaps s false) ] ++
  (if pd_NoNewPrivs cfg then [(10, bs "PR_SET_NO_NEW_PRIVS", setNoNewPrivs s)] else []).

Fixpoint run_drop (steps : list (Z * gostring * (P -> bool * P))) (p : P) : option privDropError * P :=
  match steps with
  | [] => (None, p)
  | (n, name, f) :: steps =>
      let '(ok, p) := f p in
      if (ok : bool) then run_drop steps p else (errAt n name, p)
  end.

Definition DropPrivileges (cfg : PrivDropConfig) (p : P) : option privDropError * P :=
  match run_drop (drop_steps cfg) p with
  | (Some e, p) => (Some e, p)
  | (None, p) => verifyDrop cfg p
  end.
End Drop.

(** ** The production functions *)

Class Kernel (P : Type) := {
  prctl_keepcaps : bool -> P -> bool * P;
  all_setgroups : list Z -> P -> bool * P;
  all_setgid : Z -> P -> bool * P;
  all_setuid : Z -> P -> option errno * P;
  capset : Z * Z -> P -> bool * P;               (* low and high words of permitted and effective *)
  capget_effective : P -> option (Z * Z);
  capbset_read : Z -> P -> result errno Z;
  capbset_drop : Z -> P -> bool * P;
  prctl_no_new_privs : P -> bool * P;
  k_getuid : P -> Z; k_geteuid : P -> Z; k_getgid : P -> Z; k_getgroups : P -> option (list Z);
  prctl_get_no_new_privs : P -> option Z; prctl_get_keepcaps : P -> option Z
}.

Section Real.
Context {P : Type} `{K : Kernel P}.

(** [data[bit>>5] |= 1 << (bit & 31)] for every name. *)
Fixpoint cap_words (w : Z * Z) (names : list gostring) : option (Z * Z) :=
  match names with
  | [] => Some w
  | n :: names =>
      bit ← cap_bit n;
      let v := Z.shiftl 1 (Z.land bit 31) in
      cap_words (if Z.shiftr bit 5 =? 0 then (Z.lor (fst w) v, snd w) else (fst w, Z.lor (snd w) v)) names
  end.
Definition realSetCaps (caps : list gostring) (p : P) : bool * P :=
  match cap_words (0, 0) caps with None => (false, p) | Some w => capset w p end.

Fixpoint drop_bounding (caps : list nat) (keepBits : list Z) (p : P) : bool * P :=
  match caps with
  | [] => (true, p)
  | c :: caps =>
      if existsb (Z.eqb (Z.of_nat c)) keepBits then drop_bounding caps keepBits p
      else match capbset_read (Z.of_nat c) p with
           | Err EINVAL => (true, p)
           | Err _ => (false, p)
           | Ok present =>
               if present =? 0 then drop_bounding caps keepBits p
               else let '(ok, p) := capbset_drop (Z.of_nat c) p in
                    if ok : bool then drop_bounding caps keepBits p else (false, p)
           end
  end.
Definition realDropBoundingCaps (keep : list gostring) (p : P) : bool * P :=
  match mapM cap_bit keep with
  | None => (false, p)
  | Some keepBits => drop_bounding (seq 0 (S CAP_LAST_CAP)) keepBits p
  end.

Fixpoint read_bounding (caps : list nat) (m : Z) (p : P) : option Z :=
  match caps with
  | [] => Some m
  | c :: caps =>
      match capbset_read (Z.of_nat c) p with
      | Err EINVAL => Some m
      | Err _ => None
      | Ok present => read_bounding caps (if present =? 1 then Z.lor m (Z.shiftl 1 (Z.of_nat c)) else m) p
      end
  end.
Definition realGetBoundingCaps (p : P) : option Z := read_bounding (seq 0 (S CAP_LAST_CAP)) 0 p.

Definition realGetEffectiveCaps (p : P) : option Z :=
  match capget_effective p with Some (lo, hi) => Some (Z.lor lo (Z.shiftl hi 32)) | None => None end.

Definition errno_ok (r : option errno * P) : bool * P := (match fst r with None => true | Some _ => false end, snd r).

Definition defaultPrivDropSyscalls : privDropSyscalls P :=
  {| setKeepCaps := prctl_keepcaps; setGroups := all_setgroups; setGID := all_setgid; setUID u p := errno_ok (all_setuid u p);
     setCaps := realSetCaps; dropBoundingCaps := realDropBoundingCaps; setNoNewPrivs := prctl_no_new_privs;
     getUID := k_getuid; getEUID := k_geteuid; getGID := k_getgid; getGroups := k_getgroups; getEffectiveCaps := realGetEffectiveCaps;
     getNoNewPrivs := prctl_get_no_new_privs; getKeepCaps := prctl_get_keepcaps; getBoundingCaps := realGetBoundingCaps;
     probeSetUIDZero := all_setuid 0 |}.
End Real.

(** ** What a successful drop has verified *)

Lemma sameGroupSet_spec a b : sameGroupSet a b = true <-> forall g, g ∈ a <-> g ∈ b.
Proof.
  unfold sameGroupSet. set (x := list_to_set a : gset Z). set (y := list_to_set b : gset Z).
  assert ((forall g, g ∈ a <-> g ∈ b) <-> x = y) as ->.
  { rewrite set_eq. unfold x, y. by setoid_rewrite elem_of_list_to_set. }
  split.
  - destruct (Nat.eqb_spec (size x) (size y)) as [Hs|]; cbn [negb]; [|done]. rewrite forallb_forall. intros Hf.
    apply leibniz_equiv, set_subseteq_size_equiv; [|by rewrite Hs]. intros g Hg%elem_of_elements%list_elem_of_In.
    by apply Hf, bool_decide_eq_true in Hg.
  - intros ->. rewrite Nat.eqb_refl. cbn [negb]. apply forallb_forall. intros g Hg%list_elem_of_In%elem_of_elements.
    by apply bool_decide_eq_true.
Qed.

Lemma cap_bit_range n b : cap_bit n = Some b -> 0 <= b < 64.
Proof.
  unfold cap_bit. destruct (List.find _ _) as [[m c]|] eqn:E; [|done]. apply find_some in E as [Hin _]. intros [= <-].
  repeat (destruct Hin as [[= <- <-]|Hin]; [cbn; lia|]). done.
Qed.

Lemma caps_mask_spec names : forall m0 m b, caps_mask m0 names = Some m -> 0 <= b ->
  Z.testbit m b = true <-> Z.testbit m0 b = true \/ exists n, n ∈ names /\ cap_bit n = Some b.
Proof.
  induction names as [|n names IH]; intros m0 m b; cbn [caps_mask].
  - intros [= <-] _. split; [by left|]. by intros [?|(n & ?%elem_of_nil & _)].
  - destruct (cap_bit n) as [c|] eqn:En; [|done]. cbn [mbind option_bind]. intros Hm Hb. rewrite (IH _ _ b Hm Hb).
    rewrite Z.lor_spec, orb_true_iff. apply cap_bit_range in En as Hc.
    assert (Z.testbit (Z.shiftl 1 c) b = true <-> b = c) as ->.
    { rewrite Z.shiftl_1_l, Z.pow2_bits_eqb by lia. rewrite Z.eqb_eq. naive_solver. }
    split.
    + intros [[?| ->]|(n' & Hn & Hc')]; [by left|right; exists n; split; [left|done]|right; exists n'; split; [by right|done]].
    + intros [?|(n' & [->|Hn]%elem_of_cons & Hc')]; [by left; left|left; right; congruence|right; eauto].
Qed.

(** The mask has exactly the bits of the named capabilities. *)
Lemma capsMask_spec names m b : capsMask names = Some m -> 0 <= b -> Z.testbit m b = true <-> exists n, n ∈ names /\ cap_bit n = Some b.
Proof.
  intros Hm Hb. rewrite (caps_mask_spec _ _ _ _ Hm Hb), Z.bits_0. split; [by intros [?|?]|by right].
Qed.

(** The two 32-bit words that [realSetCaps] builds hold the same set. *)
Lemma cap_words_mask names : forall lo hi w, cap_words (lo, hi) names = Some w ->
  caps_mask (Z.lor lo (Z.shiftl hi 32)) names = Some (Z.lor (fst w) (Z.shiftl (snd w) 32)).
Proof.
  induction names as [|n names IH]; intros lo hi w; cbn [cap_words caps_mask]; [by intros [= <-]|].
  destruct (cap_bit n) as [c|] eqn:En; [|done]. cbn [mbind option_bind fst snd]. intros Hw.
  assert (Z.lor (Z.lor lo (Z.shiftl hi 32)) (Z.shiftl 1 c) =
          let w' := if Z.shiftr c 5 =? 0 then (Z.lor lo (Z.shiftl 1 (Z.land c 31)), hi) else (lo, Z.lor hi (Z.shiftl 1 (Z.land c 31))) in
          Z.lor (fst w') (Z.shiftl (snd w') 32)) as ->.
  { unfold cap_bit in En. destruct (List.find _ _) as [[m' c']|] eqn:Ef; [|done]. injection En as ->.
    apply find_some in Ef as [Hin _]. clear Hw IH.
    assert (forall x, Z.lor (Z.lor lo (Z.shiftl hi 32)) x = Z.lor (Z.lor lo x) (Z.shiftl hi 32)) as Hlow
      by (intros x; by rewrite <- !Z.lor_assoc, (Z.lor_comm x)).
    assert (Z.lor (Z.lor lo (Z.shiftl hi 32)) (Z.shiftl 1 39) = Z.lor lo (Z.shiftl (Z.lor hi (Z.shiftl 1 7)) 32)) as Hhigh
      by (by rewrite Z.shiftl_lor, <- Z.lor_assoc).
    destruct Hin as [E|[E|[E|[E|[E|[]]]]]]; injection E as <- <-; [exact Hhigh|exact (Hlow _)..]. }
  destruct (Z.shiftr c 5 =? 0); cbn [fst snd]; apply IH; exact Hw.
Qed.

Definition bits_are (m : Z) (names : list gostring) : Prop := forall b, 0 <= b -> Z.testbit m b = true <-> exists n, n ∈ names /\ cap_bit n = Some b.

(** Every step before the verification, one after the other, each with the answer of the system. *)
Definition steps_succeed {P} (s : privDropSyscalls P) (cfg : PrivDropConfig) (p q : P) : Prop :=
  exists p1 p2 p3 p4 p5 p6 p7 p8,
    setKeepCaps s true p = (true, p1) /\ setGroups s (pd_SupplementaryGIDs cfg) p1 = (true, p2) /\ setGID s (pd_ProxyGID cfg) p2 = (true, p3) /\
    setUID s (pd_ProxyUID cfg) p3 = (true, p4) /\ setCaps s (withSetpcap (pd_KeepCapabilities cfg)) p4 = (true, p5) /\
    dropBoundingCaps s (pd_KeepCapabilities cfg) p5 = (true, p6) /\ setCaps s (pd_KeepCapabilities cfg) p6 = (true, p7) /\
    setKeepCaps s false p7 = (true, p8) /\ (if pd_NoNewPrivs cfg then setNoNewPrivs s p8 = (true, q) else q = p8).

Lemma run_drop_steps {P} (s : privDropSyscalls P) cfg p q : run_drop (drop_steps s cfg) p = (None, q) -> steps_succeed s cfg p q.
Proof.
  unfold drop_steps, steps_succeed. cbn [run_drop app].
  destruct (setKeepCaps s true p) as [[] p1]; [|done]. destruct (setGroups s _ p1) as [[] p2] eqn:E2; [|done]. destruct (setGID s _ p2) as [[] p3] eqn:E3; [|done].
  destruct (setUID s _ p3) as [[] p4] eqn:E4; [|done]. destruct (setCaps s (withSetpcap _) p4) as [[] p5] eqn:E5; [|done].
  destruct (dropBoundingCaps s _ p5) as [[] p6] eqn:E6; [|done]. destruct (setCaps s (pd_KeepCapabilities cfg) p6) as [[] p7] eqn:E7; [|done].
  destruct (setKeepCaps s false p7) as [[] p8] eqn:E8; [|done]. destruct (pd_NoNewPrivs cfg); cbn [run_drop].
  - destruct (setNoNewPrivs s p8) as [[] p9] eqn:E9; [|done]. intros [= <-]. by exists p1, p2, p3, p4, p5, p6, p7, p8.
  - intros [= <-]. by exists p1, p2, p3, p4, p5, p6, p7, p8.
Qed.

(** C34: The privilege drop is proved before it is believed.  When [DropPrivileges] reports success, the system has accepted each of the
    nine steps, in their order (KEEPCAPS, groups, group, user, capset, bounding set, capset, KEEPCAPS off, no_new_privs if asked for): one that is
    refused is an error.  And after them, read back by the thread that made the calls, the real and effective user and the group are the proxy's, the
    supplementary groups are exactly those asked for, the effective and the bounding capability sets hold exactly the kept
    capabilities, KEEPCAPS is cleared, no_new_privs is set if it was asked for, and setuid(0) was refused with EPERM; a read that fails is an error.
    Nothing is said of other threads, whose bounding set and flags stay ([other_threads_not_dropped]). *)
Theorem DropPrivileges_verified {P} (s : privDropSyscalls P) cfg p p' :
  DropPrivileges s cfg p = (None, p') ->
  exists q, steps_succeed s cfg p q /\
    getUID s q = pd_ProxyUID cfg /\ getEUID s q = pd_ProxyUID cfg /\ getGID s q = pd_ProxyGID cfg /\
    (exists groups, getGroups s q = Some groups /\ forall g, g ∈ groups <-> g ∈ pd_SupplementaryGIDs cfg) /\
    (exists m, getEffectiveCaps s q = Some m /\ getBoundingCaps s q = Some m /\ bits_are m (pd_KeepCapabilities cfg)) /\
    getKeepCaps s q = Some 0 /\ (pd_NoNewPrivs cfg = true -> getNoNewPrivs s q = Some 1) /\
    probeSetUIDZero s q = (Some EPERM, p').
Proof.
  unfold DropPrivileges. destruct (run_drop (drop_steps s cfg) p) as [[e|] q] eqn:Er; [done|]. apply run_drop_steps in Er. unfold verifyDrop, verify_reads. intros H.
  exists q. split; [done|].
  destruct (Z.eqb_spec (getUID s q) (pd_ProxyUID cfg)); [|done]. destruct (Z.eqb_spec (getEUID s q) (pd_ProxyUID cfg)); [|done].
  destruct (Z.eqb_spec (getGID s q) (pd_ProxyGID cfg)); [|done]. cbn [negb] in H.
  destruct (getGroups s q) as [groups|]; [|done]. pose proof (sameGroupSet_spec groups (pd_SupplementaryGIDs cfg)) as Hg.
  destruct (sameGroupSet _ _); [|done]. cbn [negb] in H. destruct (capsMask _) as [want|] eqn:Ew; [|done].
  destruct (getEffectiveCaps s q) as [g|]; [|done]. destruct (Z.eqb_spec g want) as [Eg|]; [|done]. cbn [negb] in H.
  destruct (getBoundingCaps s q) as [b|]; [|done]. destruct (Z.eqb_spec b want) as [Eb|]; [|done]. cbn [negb] in H.
  destruct (getKeepCaps s q) as [k|]; [|done]. destruct (Z.eqb_spec k 0) as [Ek|]; [|done]. cbn [negb] in H.
  assert (pd_NoNewPrivs cfg = true -> getNoNewPrivs s q = Some 1) as Hn.
  { destruct (pd_NoNewPrivs cfg); [|done]. intros _. destruct (getNoNewPrivs s q) as [n|]; [|done].
    destruct (Z.eqb_spec n 1); [congruence|done]. }
  assert (probeSetUIDZero s q = (Some EPERM, p')) as Hp.
  { destruct (pd_NoNewPrivs cfg); [rewrite (Hn eq_refl) in H; cbn in H|]; by destruct (probeSetUIDZero s q) as [[[]|] r]; simplify_eq. }
  split_and!; [done..| | |congruence|done|done].
  - exists groups. split; [done|]. by apply Hg.
  - exists want. split_and!; [congruence..|]. intros i Hi. by apply capsMask_spec.
Qed.

(** ** A Linux process *)

Record process := {
  uid : Z; euid : Z; suid : Z; gid : Z; groups : list Z; permitted : Z; effective : Z; bounding : Z; keepcaps : bool; nnp : bool
}.
Definition has_cap (p : process) (c : Z) : bool := Z.testbit (effective p) c.

#[program] Definition linux : Kernel process :=
  {| prctl_keepcaps on p := (true, {| uid := uid p; euid := euid p; suid := suid p; gid := gid p; groups := groups p;
       permitted := permitted p; effective := effective p; bounding := bounding p; keepcaps := on; nnp := nnp p |});
     all_setgroups l p := if has_cap p 6 then
       (true, {| uid := uid p; euid := euid p; suid := suid p; gid := gid p; groups := l; permitted := permitted p;
                 effective := effective p; bounding := bounding p; keepcaps := keepcaps p; nnp := nnp p |}) else (false, p);
     all_setgid g p := if has_cap p 6 || (g =? gid p) then
       (true, {| uid := uid p; euid := euid p; suid := suid p; gid := g; groups := groups p; permitted := permitted p;
                 effective := effective p; bounding := bounding p; keepcaps := keepcaps p; nnp := nnp p |}) else (false, p);
     all_setuid u p :=
       if has_cap p 7 then
         let had_root := (uid p =? 0) || (euid p =? 0) || (suid p =? 0) in
         let leaves := had_root && negb (u =? 0) in
         (None, {| uid := u; euid := u; suid := u; gid := gid p; groups := groups p;
                   permitted := if leaves && negb (keepcaps p) then 0 else permitted p;
                   effective := if leaves then 0 else effective p; bounding := bounding p; keepcaps := keepcaps p; nnp := nnp p |})
       else if (u =? uid p) || (u =? suid p) then (None, p) else (Some EPERM, p);
     capset w p :=
       let m := Z.lor (fst w) (Z.shiftl (snd w) 32) in
       if Z.land m (permitted p) =? m then
         (true, {| uid := uid p; euid := euid p; suid := suid p; gid := gid p; groups := groups p; permitted := m; effective := m;
                   bounding := bounding p; keepcaps := keepcaps p; nnp := nnp p |}) else (false, p);
     capget_effective p := Some (Z.land (effective p) (2 ^ 32 - 1), Z.shiftr (effective p) 32);
     capbset_read c p := if c <=? 40 then Ok (if Z.testbit (bounding p) c then 1 else 0) else Err EINVAL;
     capbset_drop c p := if has_cap p 8 then
       (true, {| uid := uid p; euid := euid p; suid := suid p; gid := gid p; groups := groups p; permitted := permitted p;
                 effective := effective p; bounding := Z.clearbit (bounding p) c; keepcaps := keepcaps p; nnp := nnp p |}) else (false, p);
     prctl_no_new_privs p := (true, {| uid := uid p; euid := euid p; suid := suid p; gid := gid p; groups := groups p;
       permitted := permitted p; effective := effective p; bounding := bounding p; keepcaps := keepcaps p; nnp := true |});
     k_getuid := uid; k_geteuid := euid; k_getgid := gid; k_getgroups p := Some (groups p);
     prctl_get_no_new_privs p := Some (if nnp p then 1 else 0); prctl_get_keepcaps p := Some (if keepcaps p then 1 else 0) |}.

Definition root_process : process :=
  {| uid := 0; euid := 0; suid := 0; gid := 0; groups := [0; 10]; permitted := 2 ^ 41 - 1; effective := 2 ^ 41 - 1;
     bounding := 2 ^ 41 - 1; keepcaps := false; nnp := false |}.
Definition dropped_process : process :=
  {| uid := 1774; euid := 1774; suid := 1774; gid := 1774; groups := []; permitted := 2 ^ 39; effective := 2 ^ 39;
     bounding := 2 ^ 39; keepcaps := false; nnp := true |}.

(** From root with every capability to the proxy's identity with CAP_BPF alone; a process
    without CAP_SETPCAP fails at step 7. *)
Lemma DropPrivileges_verified_witness :
  DropPrivileges (defaultPrivDropSyscalls (K := linux)) (dropConfig DefaultOptions) root_process = (None, dropped_process) /\
  exists q, probeSetUIDZero (defaultPrivDropSyscalls (K := linux)) q = (Some EPERM, dropped_process).
Proof.
  assert (DropPrivileges (defaultPrivDropSyscalls (K := linux)) (dropConfig DefaultOptions) root_process = (None, dropped_process)) as H
    by (vm_compute; reflexivity).
  split; [exact H|].
  destruct (DropPrivileges_verified (defaultPrivDropSyscalls (K := linux)) (dropConfig DefaultOptions) root_process dropped_process H)
    as (q & _ & _ & _ & _ & _ & _ & _ & _ & Hp).
  exists q. exact Hp.
Defined.

Example drop_without_setpcap :
  fst (DropPrivileges (defaultPrivDropSyscalls (K := linux)) (dropConfig DefaultOptions)
         {| uid := 0; euid := 0; suid := 0; gid := 0; groups := []; permitted := Z.clearbit (2 ^ 41 - 1) 8;
            effective := Z.clearbit (2 ^ 41 - 1) 8; bounding := 2 ^ 41 - 1; keepcaps := false; nnp := false |})
  = Some {| pe_step := 7; pe_name := "capset-raise" |}.
Proof. vm_compute. reflexivity. Qed.

(** ** A process with several threads *)

(** The threads and the one that runs the goroutine of the drop, which is not tied to it: nothing locks it, and here it happens to stay. *)
Record threads := { th_all : list process; th_cur : nat }.
Definition current_thread (t : threads) : process := default root_process (th_all t !! th_cur t).
Definition on_thread (f : process -> bool * process) (t : threads) : bool * threads :=
  let '(ok, p) := f (current_thread t) in (ok, {| th_all := <[th_cur t := p]> (th_all t); th_cur := th_cur t |}).
(** [AllThreadsSyscall]: the answer is the same on every thread, or the runtime gives up. *)
Definition on_all {A} `{EqDecision A} (other : A) (f : process -> A * process) (t : threads) : A * threads :=
  let rs := map f (th_all t) in
  let r := fst (f (current_thread t)) in
  (if forallb (fun x => bool_decide (fst x = r)) rs then r else other, {| th_all := map snd rs; th_cur := th_cur t |}).
#[local] Instance errno_eq_dec : EqDecision errno.
Proof. solve_decision. Defined.

Definition linux_threads : Kernel threads :=
  {| prctl_keepcaps on := on_thread (prctl_keepcaps (Kernel := linux) on);
     all_setgroups l := on_all false (all_setgroups (Kernel := linux) l);
     all_setgid g := on_all false (all_setgid (Kernel := linux) g);
     all_setuid u := on_all (Some OtherErrno) (all_setuid (Kernel := linux) u);
     capset w := on_thread (capset (Kernel := linux) w);
     capget_effective t := capget_effective (Kernel := linux) (current_thread t);
     capbset_read c t := capbset_read (Kernel := linux) c (current_thread t);
     capbset_drop c := on_thread (capbset_drop (Kernel := linux) c);
     prctl_no_new_privs := on_thread (prctl_no_new_privs (Kernel := linux));
     k_getuid t := uid (current_thread t); k_geteuid t := euid (current_thread t); k_getgid t := gid (current_thread t);
     k_getgroups t := Some (groups (current_thread t));
     prctl_get_no_new_privs t := prctl_get_no_new_privs (Kernel := linux) (current_thread t);
     prctl_get_keepcaps t := prctl_get_keepcaps (Kernel := linux) (current_thread t) |}.

(** A drop in a process with a second thread reports success.  The second thread has the proxy's user and no capability in force, but it keeps the
    whole bounding set and may still gain privileges by an exec, which steps 8 and 10 are there to rule out. *)
Lemma other_threads_not_dropped :
  let '(e, t) := DropPrivileges (defaultPrivDropSyscalls (K := linux_threads)) (dropConfig DefaultOptions) {| th_all := [root_process; root_process]; th_cur := 0 |} in
  e = None /\ th_all t !! 0%nat = Some dropped_process /\
  exists p, th_all t !! 1%nat = Some p /\ uid p = 1774 /\ effective p = 0 /\ permitted p = 0 /\ bounding p = 2 ^ 41 - 1 /\ nnp p = false.
Proof. vm_compute. repeat split. eexists. by repeat split. Qed.
