(* ===== verification/Loader.v ===== *)
(** * [internal/dataplane/capture]: loading, attaching and watching the programs

    [loader_linux.go] and [handle_linux.go].  The kernel answers through the class
    [LoadEnv], one answer per question that the code asks; the objects it holds for the
    process (the collection, the descriptors of the attached links, the pins) and the table of
    loads are the record [world], so that it can be seen what a failed load leaves behind: a link
    stays attached as long as its descriptor is open or it is pinned, and the calls that give
    either back can fail, which the code ignores.  The callbacks
    and the latch of a [Handle] are shared by goroutines: [Module Latch] has their
    interleavings. *)

From S2P Require Import Prelude GoStrings GoRuntime Canonicalize GoPath Compile Match Credential Decision Metrics Upstream Capture Cgroup Preflight.
#[local] Open Scope Z_scope.

(** ** What the kernel holds *)

Record world := { lw_registered : bool; lw_coll : bool; lw_links : list gostring; lw_pins : list gostring }.
Definition nothing : world := {| lw_registered := false; lw_coll := false; lw_links := []; lw_pins := [] |}.
Definition set_registered (b : bool) (w : world) : world :=
  {| lw_registered := b; lw_coll := lw_coll w; lw_links := lw_links w; lw_pins := lw_pins w |}.
Definition set_coll (b : bool) (w : world) : world :=
  {| lw_registered := lw_registered w; lw_coll := b; lw_links := lw_links w; lw_pins := lw_pins w |}.
Definition set_links (l : list gostring) (w : world) : world :=
  {| lw_registered := lw_registered w; lw_coll := lw_coll w; lw_links := l; lw_pins := lw_pins w |}.
Definition set_pins (l : list gostring) (w : world) : world :=
  {| lw_registered := lw_registered w; lw_coll := lw_coll w; lw_links := lw_links w; lw_pins := l |}.
Definition without (xs : list gostring) (l : list gostring) : list gostring :=
  List.filter (fun x => negb (existsb (str_eqb x) xs)) l.

(** [al_pin] is where the link object says it is pinned. *)
Record attachedLink := { al_name : gostring; al_progID : Z; al_pin : option gostring }.
Record loaderState := { ls_coll : bool; ls_links : list attachedLink; ls_pinPaths : list gostring }.
Record AttachInfo := { ai_ProgIDs : list Z; ai_CgroupID : Z; ai_PinPaths : list gostring }.

Inductive load_error :=
| ErrMissingOptions | LoadOptionsError (e : capture_error) | ErrAlreadyAttached | ContextError
| LoadError (gate : gostring) (code : FailureCode).

(** The failure of [ebpf.NewCollection]. *)
Inductive collection_error := VerifierError | ErrnoPermOrNoMem | OtherLoadError.
Inductive mkdir_result := Made | Exists | MkdirFailed.
Record dir_stat := { dst_IsDir : bool; dst_Uid : Z; dst_Gid : Z; dst_Mode : Z }.

Class LoadEnv := {
  le_kernelVersion : option KernelVersion;
  le_ctxErr : nat -> bool;                     (* whether the context is done at the n-th check *)
  le_loadSpec : bool;
  le_newCollection : option collection_error;
  le_configMap : bool; le_configUpdate : gostring -> bool; le_configLookup : option gostring; le_configFreeze : bool;
  le_bypassMap : bool; le_bypassUpdate : bypassKey -> bool; le_bypassLookup : bypassKey -> option Z; le_bypassFreeze : bool;
  le_cgroupID : gostring -> option Z;
  le_program : gostring -> bool; le_attach : gostring -> bool; le_programID : gostring -> option Z;
  le_statfs : gostring -> option Z; le_mkdir : gostring -> mkdir_result; le_chown : gostring -> bool; le_lstat : gostring -> option dir_stat;
  le_pin : gostring -> bool; le_pairMap : bool;
  le_unpin : gostring -> bool; le_close : gostring -> bool;   (* of a link, by its name *)
  le_remove : gostring -> bool                                (* os.Remove of a path *)
}.

Definition BPFFSMagic : Z := 0xCAFE4A11.

(** The programs, in the order they are attached. *)
Definition attachSpecs : list gostring :=
  [bs "aksh_connect4"; bs "aksh_connect6_deny"; bs "aksh_sendmsg4"; bs "aksh_sendmsg6"; bs "aksh_sock_create"; bs "aksh_sockops"].

(** The sizes of the destination maps; zero keeps the compiled size. *)
Definition applyMapSizing (spec : list (gostring * Z)) (opts : Options) : list (gostring * Z) :=
  if co_MapEntries opts =? 0 then spec
  else map (fun '(name, n) => if str_eqb name "cookie_orig_dst" || str_eqb name "pair_orig_dst" then (name, co_MapEntries opts) else (name, n)) spec.

Definition classifyLoadError (e : collection_error) : load_error :=
  match e with
  | VerifierError => LoadError "loader" E_PROG_LOAD
  | ErrnoPermOrNoMem => LoadError "loader" E_MEMLOCK
  | OtherLoadError => LoadError "loader" E_PROG_LOAD
  end.

Definition podUIDFromPath (path : gostring) : gostring :=
  let base := Base (Clean path) in
  if str_eqb base "" || str_eqb base "." || str_eqb base "/" then bs "pod" else base.

Section Load.
Context `{EN : Endian} `{L : LoadEnv}.

Definition writeAndFreezeConfig (opts : Options) : option load_error :=
  if negb le_configMap then Some (LoadError "loader" E_CONFIG_WRITE)
  else match buildConfigImage opts with
       | Err _ => Some (LoadError "loader" E_CONFIG_WRITE)
       | Ok image =>
           if negb (le_configUpdate image) then Some (LoadError "loader" E_CONFIG_WRITE)
           else match le_configLookup with
                | None => Some (LoadError "loader" E_CONFIG_WRITE)
                | Some readback =>
                    if negb (str_eqb image readback) then Some (LoadError "loader" E_CONFIG_WRITE)
                    else if negb le_configFreeze then Some (LoadError "loader" E_CONFIG_FREEZE)
                    else None
                end
       end.

Fixpoint write_bypass (prefixes : list Prefix) : option load_error :=
  match prefixes with
  | [] => None
  | p :: prefixes =>
      match bypassKeyFor p with
      | None => Some (LoadError "loader" E_CONFIG_WRITE)
      | Some key =>
          if negb (le_bypassUpdate key) then Some (LoadError "loader" E_CONFIG_WRITE)
          else match le_bypassLookup key with
               | Some 1 => write_bypass prefixes
               | _ => Some (LoadError "loader" E_CONFIG_WRITE)
               end
      end
  end.
Definition writeAndFreezeBypass (opts : Options) : option load_error :=
  if negb le_bypassMap then Some (LoadError "loader" E_CONFIG_WRITE)
  else match write_bypass (co_BypassCIDRs opts) with
       | Some e => Some e
       | None => if negb le_bypassFreeze then Some (LoadError "loader" E_CONFIG_FREEZE) else None
       end.

(** [_ = lk.Close()]: the descriptor stays open when the call fails. *)
Definition close_link (name : gostring) (w : world) : world :=
  if le_close name then set_links (without [name] (lw_links w)) w else w.

(** The loop of [attach]: links recorded so far, and the links the kernel holds. *)
Fixpoint attach_each (names : list gostring) (links : list attachedLink) (w : world) : result load_error unit * list attachedLink * world :=
  match names with
  | [] => (Ok tt, links, w)
  | name :: names =>
      if negb (le_program name) then (Err (LoadError "loader" E_ATTACH), links, w)
      else if negb (le_attach name) then (Err (LoadError "loader" E_ATTACH), links, w)
      else
        let w := set_links (lw_links w ++ [name]) w in
        match le_programID name with
        | None => (Err (LoadError "loader" E_ATTACH), links, close_link name w)
        | Some id =>
            if id =? 0 then (Err (LoadError "loader" E_ATTACH), links, close_link name w)
            else attach_each names (links ++ [{| al_name := name; al_progID := id; al_pin := None |}]) w
        end
  end.
Definition attach (opts : Options) (st : loaderState) (w : world) : result load_error AttachInfo * loaderState * world :=
  match le_cgroupID (co_PodPath opts) with
  | None => (Err (LoadError "loader" E_ATTACH), st, w)
  | Some cgID =>
      let '(r, links, w) := attach_each attachSpecs (ls_links st) w in
      let st := {| ls_coll := ls_coll st; ls_links := links; ls_pinPaths := ls_pinPaths st |} in
      match r with
      | Err e => (Err e, st, w)
      | Ok _ => (Ok {| ai_ProgIDs := map al_progID links; ai_CgroupID := cgID; ai_PinPaths := [] |}, st, w)
      end
  end.

(** [checkPinRootSafe]: directories are made when absent and never repaired. *)
Fixpoint check_dirs (opts : Options) (dirs : list gostring) : option load_error :=
  match dirs with
  | [] => None
  | dir :: dirs =>
      match le_mkdir dir with
      | MkdirFailed => Some (LoadError "P15" E_PIN_ROOT_UNSAFE)
      | made =>
          if match made with Made => negb (le_chown dir) | _ => false end then Some (LoadError "P15" E_PIN_ROOT_UNSAFE)
          else match le_lstat dir with
               | None => Some (LoadError "P15" E_PIN_ROOT_UNSAFE)
               | Some st =>
                   if negb (dst_IsDir st) then Some (LoadError "P15" E_PIN_ROOT_UNSAFE)
                   else if negb (dst_Uid st =? co_ProxyUID opts) || negb (dst_Gid st =? co_ProxyGID opts) then Some (LoadError "P15" E_PIN_ROOT_UNSAFE)
                   else if negb (Z.land (dst_Mode st) 511 =? 448) then Some (LoadError "P15" E_PIN_ROOT_UNSAFE)
                   else check_dirs opts dirs
               end
      end
  end.
Definition pin_dirs (opts : Options) : list gostring :=
  [path_Join (co_PinRoot opts) "aksh"; path_Join (path_Join (co_PinRoot opts) "aksh") (podUIDFromPath (co_PodPath opts))].
Definition checkPinRootSafe (opts : Options) : option load_error :=
  match le_statfs (co_PinRoot opts) with
  | None => Some (LoadError "P15" E_NO_BPFFS)
  | Some magic => if negb (magic =? BPFFSMagic) then Some (LoadError "P15" E_NO_BPFFS) else check_dirs opts (pin_dirs opts)
  end.

(** [pinOne] for each name; the recorded paths are those that closing removes. *)
Fixpoint pin_each (base : gostring) (names : list gostring) (recorded : list gostring) (w : world)
  : option load_error * list gostring * world :=
  match names with
  | [] => (None, recorded, w)
  | name :: names =>
      let p := path_Join base name in
      if negb (le_pin p) then (Some (LoadError "loader" E_ATTACH), recorded, w)
      else
        let w := set_pins (lw_pins w ++ [p]) w in
        let recorded := recorded ++ [p] in
        if negb (le_chown p) then (Some (LoadError "loader" E_PIN_ROOT_UNSAFE), recorded, w) else pin_each base names recorded w
  end.
(** A link whose [Pin] succeeded knows its path. *)
Definition pinned_link (base : gostring) (pins : list gostring) (l : attachedLink) : attachedLink :=
  let p := path_Join base (al_name l ++ bs ".link") in
  if existsb (str_eqb p) pins then {| al_name := al_name l; al_progID := al_progID l; al_pin := Some p |} else l.
Definition pinAll (opts : Options) (st : loaderState) (w : world) : result load_error (list gostring) * loaderState * world :=
  let base := path_Join (path_Join (co_PinRoot opts) "aksh") (podUIDFromPath (co_PodPath opts)) in
  let '(e, pins, w) := pin_each base (map (fun l => al_name l ++ bs ".link") (ls_links st)) (ls_pinPaths st) w in
  let links := map (pinned_link base pins) (ls_links st) in
  let with_pins pins := {| ls_coll := ls_coll st; ls_links := links; ls_pinPaths := pins |} in
  match e with
  | Some e => (Err e, with_pins pins, w)
  | None =>
      if negb le_pairMap then (Err (LoadError "loader" E_ATTACH), with_pins pins, w)
      else
        let '(e, pins, w) := pin_each base [bs "pair_orig_dst"] pins w in
        (match e with Some e => Err e | None => Ok pins end, with_pins pins, w)
  end.

(** [closeAll]: the table entry, the recorded links and pins, the collection.  The error of every call is discarded. *)
Definition unpin_link (l : attachedLink) (w : world) : world :=
  match al_pin l with
  | Some p => if le_unpin (al_name l) then set_pins (without [p] (lw_pins w)) w else w
  | None => w
  end.
Definition remove_path (p : gostring) (w : world) : world := if le_remove p then set_pins (without [p] (lw_pins w)) w else w.
Definition closeAll (st : loaderState) (w : world) : world :=
  let w := set_registered false w in
  let w := fold_left (fun w l => close_link (al_name l) (unpin_link l w)) (ls_links st) w in
  let w := fold_left (fun w p => remove_path p w) (ls_pinPaths st) w in
  if ls_coll st then set_coll false w else w.

Definition load_fails (st : loaderState) (w : world) (e : load_error) : result load_error AttachInfo * loaderState * world :=
  (Err e, st, closeAll st w).

Definition load_kernel_floor (opts : Options) : option load_error :=
  match le_kernelVersion with
  | None => Some (LoadError "loader" E_KERNEL_TOO_OLD)
  | Some kv => if negb (AtLeast kv (kernel_floor opts)) then Some (LoadError "loader" E_KERNEL_TOO_OLD) else None
  end.

(** The result carries the loader state that the [Handle] keeps. *)
Definition LoadAndAttach (opts : option Options) (w : world) : result load_error AttachInfo * loaderState * world :=
  let st0 := {| ls_coll := false; ls_links := []; ls_pinPaths := [] |} in
  match opts with
  | None => (Err ErrMissingOptions, st0, w)
  | Some o =>
      match Options_Validate (Some o) with
      | Some e => (Err (LoadOptionsError e), st0, w)
      | None =>
          if lw_registered w then (Err ErrAlreadyAttached, st0, w)
          else
            let w := set_registered true w in
            (* the deferred removal of the reservation *)
            let abandoned e := (Err e, st0, set_registered false w) in
            match load_kernel_floor o with
            | Some e => abandoned e
            | None =>
                if le_ctxErr 0 then abandoned ContextError
                else if negb le_loadSpec then abandoned (LoadError "loader" E_PROG_LOAD)
                else match le_newCollection with
                | Some e => abandoned (classifyLoadError e)
                | None =>
                    let st := {| ls_coll := true; ls_links := []; ls_pinPaths := [] |} in
                    let w := set_coll true w in
                    if le_ctxErr 1 then load_fails st w ContextError
                    else match writeAndFreezeConfig o with
                    | Some e => load_fails st w e
                    | None =>
                        match writeAndFreezeBypass o with
                        | Some e => load_fails st w e
                        | None =>
                            if le_ctxErr 2 then load_fails st w ContextError
                            else match attach o st w with
                            | (Err e, st, w) => load_fails st w e
                            | (Ok info, st, w) =>
                                if negb (co_PinLinks o) then (Ok info, st, w)
                                else match checkPinRootSafe o with
                                | Some e => load_fails st w e
                                | None =>
                                    match pinAll o st w with
                                    | (Err e, st, w) => load_fails st w e
                                    | (Ok pins, st, w) =>
                                        (Ok {| ai_ProgIDs := ai_ProgIDs info; ai_CgroupID := ai_CgroupID info; ai_PinPaths := pins |}, st, w)
                                    end
                                end
                            end
                        end
                    end
                end
            end
      end
  end.
End Load.

(** ** The health loop *)

(** What a check found: nothing, or an error, with whether EINTR or ENOMEM is in its chain. *)
Inductive check_error := LinkLost (name : gostring) | Transient | OtherCheckError.
Definition isInconclusive (e : check_error) : bool := match e with Transient => true | _ => false end.

Inductive event := CtxDone | Tick (check : option check_error).

(** The error that the loop reports, if it stops for one; [inconclusive] is the counter. *)
Fixpoint runHealthLoop (inconclusive : nat) (events : list event) : option check_error :=
  match events with
  | [] => None
  | CtxDone :: _ => None
  | Tick None :: events => runHealthLoop 0 events
  | Tick (Some e) :: events =>
      if isInconclusive e then
        let n := S inconclusive in
        if (n <? 3)%nat then runHealthLoop n events else Some e
      else Some e
  end.

(** [defaultCheckAttachment]: the first link whose information cannot be read. *)
Fixpoint defaultCheckAttachment (info : gostring -> bool) (links : list attachedLink) : option check_error :=
  match links with
  | [] => None
  | l :: links => if info (al_name l) then defaultCheckAttachment info links else Some (LinkLost (al_name l))
  end.

(** ** A load is all or nothing *)

Lemma elem_of_without x xs l : x ∈ without xs l -> x ∈ l /\ x ∉ xs.
Proof.
  unfold without. rewrite list_elem_of_In, filter_In, negb_true_iff, <- not_true_iff_false. intros [Hl H]. split; [by apply list_elem_of_In|].
  intros Hx. apply H, existsb_exists. exists x. split; [by apply list_elem_of_In|apply str_eqb_refl].
Qed.

Section Unwind.
Context `{EN : Endian} `{L : LoadEnv}.

(** What giving everything back leaves: no entry in the table, no collection, and otherwise only what the kernel refused to give
    back, a link by [Close] and a pin by [os.Remove]. *)
Record given_back (w : world) : Prop := {
  gb_registered : lw_registered w = false;
  gb_coll : lw_coll w = false;
  gb_links : forall n, n ∈ lw_links w -> le_close n = false;
  gb_pins : forall p, p ∈ lw_pins w -> le_remove p = false
}.
(** A link that knows its pin tried to remove it, too. *)
Definition released (st : loaderState) (w : world) : Prop :=
  given_back w /\ forall p l, p ∈ lw_pins w -> l ∈ ls_links st -> al_pin l = Some p -> le_unpin (al_name l) = false.

(** Where the kernel refuses nothing, nothing is left. *)
Lemma given_back_nothing w : (forall n, le_close n = true) -> (forall p, le_remove p = true) -> given_back w -> w = nothing.
Proof.
  intros Hc Hr [H1 H2 H3 H4]. destruct w as [r c [|n ls] [|p ps]]; cbn in *; subst; [done|..].
  - specialize (H4 p ltac:(left)). by rewrite Hr in H4.
  - specialize (H3 n ltac:(left)). by rewrite Hc in H3.
  - specialize (H3 n ltac:(left)). by rewrite Hc in H3.
Qed.
Lemma given_back_initially : given_back nothing.
Proof. split; try done; intros ? []%elem_of_nil. Qed.
Lemma released_initially st : released st nothing.
Proof. split; [exact given_back_initially|]. by intros ? ? []%elem_of_nil. Qed.

Lemma close_link_spec name w :
  lw_registered (close_link name w) = lw_registered w /\ lw_coll (close_link name w) = lw_coll w /\ lw_pins (close_link name w) = lw_pins w /\
  forall n, n ∈ lw_links (close_link name w) -> n ∈ lw_links w /\ (n = name -> le_close n = false).
Proof.
  unfold close_link. destruct (le_close name) eqn:E; cbn [set_links lw_registered lw_coll lw_pins lw_links]; split_and!; try done; intros n Hn.
  - apply elem_of_without in Hn as [Hn Hx]. split; [done|]. intros ->. exfalso. apply Hx. left.
  - split; [done|]. by intros ->.
Qed.
Lemma unpin_link_spec l w :
  lw_registered (unpin_link l w) = lw_registered w /\ lw_coll (unpin_link l w) = lw_coll w /\ lw_links (unpin_link l w) = lw_links w /\
  forall p, p ∈ lw_pins (unpin_link l w) -> p ∈ lw_pins w /\ (al_pin l = Some p -> le_unpin (al_name l) = false).
Proof.
  unfold unpin_link. destruct (al_pin l) as [q|]; [|done]. destruct (le_unpin (al_name l)); cbn [set_pins lw_registered lw_coll lw_pins lw_links]; [|done].
  split_and!; try done. intros p [Hp Hx]%elem_of_without. split; [done|]. intros [= ->]. exfalso. apply Hx. left.
Qed.

Lemma close_links_spec links : forall w, let w' := fold_left (fun w l => close_link (al_name l) (unpin_link l w)) links w in
  lw_registered w' = lw_registered w /\ lw_coll w' = lw_coll w /\
  (forall n, n ∈ lw_links w' -> n ∈ lw_links w /\ (n ∈ map al_name links -> le_close n = false)) /\
  (forall p, p ∈ lw_pins w' -> p ∈ lw_pins w /\ forall l, l ∈ links -> al_pin l = Some p -> le_unpin (al_name l) = false).
Proof.
  induction links as [|l links IH]; intros w; cbn [fold_left map].
  - split_and!; try done; intros x Hx; (split; [done|]); [by intros []%elem_of_nil|by intros ? []%elem_of_nil].
  - destruct (IH (close_link (al_name l) (unpin_link l w))) as (H1 & H2 & H3 & H4).
    destruct (close_link_spec (al_name l) (unpin_link l w)) as (C1 & C2 & C3 & C4). destruct (unpin_link_spec l w) as (U1 & U2 & U3 & U4).
    rewrite H1, H2, C1, C2, U1, U2. split_and!; [done|done| |].
    + intros n [Hn Ha]%H3. apply C4 in Hn as [Hn Hb]. rewrite U3 in Hn. split; [done|]. rewrite elem_of_cons. intros [->|?]; auto.
    + intros p [Hp Ha]%H4. rewrite C3 in Hp. apply U4 in Hp as [Hp Hb]. split; [done|]. intros k. rewrite elem_of_cons. intros [->|?]; auto.
Qed.
Lemma remove_paths_spec paths : forall w, let w' := fold_left (fun w p => remove_path p w) paths w in
  lw_registered w' = lw_registered w /\ lw_coll w' = lw_coll w /\ lw_links w' = lw_links w /\
  (forall p, p ∈ lw_pins w' -> p ∈ lw_pins w /\ (p ∈ paths -> le_remove p = false)).
Proof.
  induction paths as [|q paths IH]; intros w; cbn [fold_left].
  - split_and!; try done. intros p Hp. split; [done|]. by intros []%elem_of_nil.
  - destruct (IH (remove_path q w)) as (H1 & H2 & H3 & H4). unfold remove_path in *. destruct (le_remove q) eqn:E;
      cbn [set_pins lw_registered lw_coll lw_links lw_pins] in *; (split_and!; [done|done|done|]); intros p [Hp Ha]%H4.
    + apply elem_of_without in Hp as [Hp Hx]. split; [done|]. rewrite elem_of_cons. intros [->|?]; [|auto]. exfalso. apply Hx. left.
    + split; [done|]. rewrite elem_of_cons. intros [->|?]; auto.
Qed.

(** What [closeAll] is given covers what the kernel holds, but for a link that [attach] already failed to close. *)
Definition tracked (st : loaderState) (w : world) : Prop :=
  (forall n, n ∈ lw_links w -> n ∈ map al_name (ls_links st) \/ le_close n = false) /\ lw_pins w = ls_pinPaths st /\ ls_coll st = true.

Lemma closeAll_tracked st w : tracked st w -> released st (closeAll st w).
Proof.
  intros (Hl & Hp & Hc). unfold closeAll. rewrite Hc. destruct (close_links_spec (ls_links st) (set_registered false w)) as (C1 & C2 & C3 & C4).
  set (w1 := fold_left _ (ls_links st) _) in *. destruct (remove_paths_spec (ls_pinPaths st) w1) as (R1 & R2 & R3 & R4).
  set (w2 := fold_left _ (ls_pinPaths st) _) in *. split; [split|]; cbn [set_coll lw_registered lw_coll lw_links lw_pins].
  - by rewrite R1, C1.
  - done.
  - rewrite R3. intros n [Hn Ha]%C3. destruct (Hl n Hn); auto.
  - intros p [Hq Ha]%R4. apply C4 in Hq as [Hq Hb]. cbn [set_registered lw_pins] in Hq. rewrite Hp in Hq. auto.
  - intros p l [Hq Ha]%R4. apply C4 in Hq as [Hq Hb]. auto.
Qed.

(** The loop keeps what it recorded in step with what the kernel holds; a link whose program it cannot name it gives back, if it can. *)
Lemma attach_each_spec names : forall links w r links' w',
  attach_each names links w = (r, links', w') -> lw_links w = map al_name links ->
  (forall n, n ∈ lw_links w' -> n ∈ map al_name links' \/ le_close n = false) /\ w' = set_links (lw_links w') w /\
  match r with
  | Ok _ => lw_links w' = map al_name links' /\ map al_name links' = map al_name links ++ names /\
            (Forall (fun l => al_progID l <> 0) links -> Forall (fun l => al_progID l <> 0) links')
  | Err _ => True
  end.
Proof.
  induction names as [|name names IH]; intros links w r links' w'; cbn [attach_each].
  - intros [= <- <- <-] Hl. rewrite Hl, app_nil_r. split_and!; [by left|by rewrite <- Hl; destruct w|done..].
  - intros H Hl. assert (forall e, (Err e, links, w) = (r, links', w') -> (forall n, n ∈ lw_links w' -> n ∈ map al_name links' \/ le_close n = false) /\
      w' = set_links (lw_links w') w /\ match r with Ok _ => False | Err _ => True end) as Hsame.
    { intros e [= <- <- <-]. rewrite Hl. split_and!; [by left|by rewrite <- Hl; destruct w|done]. }
    destruct (le_program name); cbn [negb] in H; [|destruct (Hsame _ H) as (? & ? & ?); by destruct r].
    destruct (le_attach name); cbn [negb] in H; [|destruct (Hsame _ H) as (? & ? & ?); by destruct r].
    set (w1 := set_links (lw_links w ++ [name]) w) in H.
    assert (forall e, (Err e, links, close_link name w1) = (r, links', w') -> (forall n, n ∈ lw_links w' -> n ∈ map al_name links' \/ le_close n = false) /\
      w' = set_links (lw_links w') w /\ match r with Ok _ => False | Err _ => True end) as Hback.
    { intros e [= <- <- <-]. split_and!; [|unfold close_link, w1; by destruct (le_close name)|done]. destruct (close_link_spec name w1) as (_ & _ & _ & Hc).
      intros n [Hn Hx]%Hc. cbn in Hn. rewrite Hl, elem_of_app, list_elem_of_singleton in Hn. destruct Hn as [?|?]; auto. }
    destruct (le_programID name) as [id|]; [|destruct (Hback _ H) as (? & ? & ?); by destruct r].
    destruct (Z.eqb_spec id 0); [destruct (Hback _ H) as (? & ? & ?); by destruct r|].
    apply IH in H as (H1 & H2 & H3).
    + split_and!; [done|rewrite H2 at 1; done|]. destruct r; [|done]. destruct H3 as (H3 & H4 & H5). split; [done|]. rewrite H4, fmap_app. cbn. split.
      * by rewrite <- app_assoc.
      * intros Hf. apply H5, Forall_app. split; [done|]. by constructor.
    + cbn [w1 set_links lw_links]. rewrite Hl. by rewrite fmap_app.
Qed.

Lemma pin_each_spec base names : forall recorded w e recorded' w',
  pin_each base names recorded w = (e, recorded', w') -> lw_pins w = recorded ->
  lw_pins w' = recorded' /\ w' = set_pins (lw_pins w') w.
Proof.
  induction names as [|name names IH]; intros recorded w e recorded' w'; cbn [pin_each].
  - intros [= <- <- <-] Hl. split; [done|by destruct w].
  - intros H Hl. destruct (le_pin _); cbn [negb] in H; [|injection H as <- <- <-; split; [done|by destruct w]].
    destruct (le_chown _); cbn [negb] in H; [|injection H as <- <- <-; cbn [set_pins lw_pins]; split; [by rewrite Hl|done]].
    apply IH in H as [H1 H2]; [|cbn [set_pins lw_pins]; by rewrite Hl]. split; [done|]. by rewrite H2 at 1.
Qed.

Lemma attach_spec o st w r st' w' : attach o st w = (r, st', w') -> tracked st w -> ls_links st = [] -> lw_links w = [] ->
  tracked st' w' /\ w' = set_links (lw_links w') w /\ ls_pinPaths st' = ls_pinPaths st /\
  match r with
  | Ok info => lw_links w' = attachSpecs /\ length (ai_ProgIDs info) = 6%nat /\ Forall (fun id => id <> 0) (ai_ProgIDs info) /\
               ai_PinPaths info = [] /\ le_cgroupID (co_PodPath o) = Some (ai_CgroupID info)
  | Err _ => True
  end.
Proof.
  unfold attach. intros H (Hl & Hp & Hc) H0 Hw. destruct (le_cgroupID (co_PodPath o)) as [cg|].
  2:{ injection H as <- <- <-. split_and!; [done|by destruct w|done|done]. }
  destruct (attach_each attachSpecs (ls_links st) w) as [[r1 links] w1] eqn:E.
  apply attach_each_spec in E as (H1 & H2 & H3); [|by rewrite H0].
  assert (lw_pins w1 = lw_pins w) as Hpin by (by rewrite H2).
  assert (tracked {| ls_coll := ls_coll st; ls_links := links; ls_pinPaths := ls_pinPaths st |} w1) as Ht
    by (split_and!; [done|by rewrite Hpin|done]).
  destruct r1 as [u|e]; injection H as <- <- <-; [|done]. destruct H3 as (H5 & H3 & H4). rewrite H0 in H3, H4. cbn [map app] in H3.
  split_and!; [done..|by rewrite H5, H3| | |done|done]; cbn [ai_ProgIDs].
  - rewrite length_map. by rewrite <- (length_map al_name), H3.
  - apply Forall_fmap. apply H4. constructor.
Qed.

Lemma pinned_link_names base pins links : map al_name (map (pinned_link base pins) links) = map al_name links.
Proof. rewrite map_map. apply map_ext. intros l. unfold pinned_link. by destruct (existsb _ _). Qed.

Lemma pinAll_spec o st w r st' w' : pinAll o st w = (r, st', w') -> tracked st w ->
  tracked st' w' /\ lw_links w' = lw_links w /\ lw_coll w' = lw_coll w /\ lw_registered w' = lw_registered w /\
  match r with Ok pins => lw_pins w' = pins | Err _ => True end.
Proof.
  unfold pinAll. set (base := path_Join _ _). intros H (Hl & Hp & Hc).
  assert (forall ps pins w1, lw_pins w1 = pins -> w1 = set_pins (lw_pins w1) w ->
    tracked {| ls_coll := ls_coll st; ls_links := map (pinned_link base ps) (ls_links st); ls_pinPaths := pins |} w1 /\
    lw_links w1 = lw_links w /\ lw_coll w1 = lw_coll w /\ lw_registered w1 = lw_registered w) as Hkeep.
  { intros ps pins w1 H1 H2. unfold tracked. cbn [ls_links ls_pinPaths ls_coll]. rewrite pinned_link_names, H2.
    cbn [set_pins lw_links lw_pins lw_coll lw_registered]. by rewrite H1. }
  destruct (pin_each _ _ (ls_pinPaths st) w) as [[e pins] w1] eqn:E. apply pin_each_spec in E as [H1 H2]; [|done].
  destruct (Hkeep pins _ _ H1 H2) as (K1 & K2 & K3 & K4). destruct e as [e|]; [by injection H as <- <- <-|].
  destruct le_pairMap; cbn [negb] in H; [|by injection H as <- <- <-].
  destruct (pin_each _ [bs "pair_orig_dst"] pins w1) as [[e2 pins2] w2] eqn:E2. apply pin_each_spec in E2 as [H3 H4]; [|done].
  assert (w2 = set_pins (lw_pins w2) w) as H5 by (rewrite H4 at 1; by rewrite H2).
  destruct (Hkeep pins _ _ H3 H5) as (M1 & M2 & M3 & M4). injection H as <- <- <-. split_and!; [done..|]. by destruct e2.
Qed.

Lemma write_bypass_None l : write_bypass l = None ->
  Forall (fun p => exists key, bypassKeyFor p = Some key /\ le_bypassUpdate key = true /\ le_bypassLookup key = Some 1) l.
Proof.
  induction l as [|p l IH]; cbn [write_bypass]; [constructor|]. destruct (bypassKeyFor p) as [key|] eqn:Ek; [|done].
  destruct (le_bypassUpdate key) eqn:Eu; [|done]. cbn [negb]. destruct (le_bypassLookup key) as [[|[]|]|] eqn:El; try done.
  intros H. constructor; [eauto|by apply IH].
Qed.

Lemma writeAndFreezeConfig_None o : writeAndFreezeConfig o = None ->
  exists image, buildConfigImage o = Ok image /\ le_configUpdate image = true /\ le_configLookup = Some image /\ le_configFreeze = true.
Proof.
  unfold writeAndFreezeConfig. destruct le_configMap; [|done]. cbn [negb]. destruct (buildConfigImage o) as [image|]; [|done].
  destruct (le_configUpdate image) eqn:Eu; [|done]. cbn [negb]. destruct le_configLookup as [rb|]; [|done].
  destruct (str_eqb image rb) eqn:Es; [|done]. apply str_eqb_eq in Es as <-. cbn [negb]. destruct le_configFreeze; [|done]. by exists image.
Qed.

(** What a load that succeeded has done. *)
Definition loaded (o : Options) (info : AttachInfo) (st : loaderState) (w : world) : Prop :=
  lw_registered w = true /\ lw_coll w = true /\ lw_links w = attachSpecs /\ lw_pins w = ai_PinPaths info /\
  length (ai_ProgIDs info) = 6%nat /\ Forall (fun id => id <> 0) (ai_ProgIDs info) /\
  (exists image, buildConfigImage o = Ok image /\ le_configUpdate image = true /\ le_configLookup = Some image /\ le_configFreeze = true) /\
  Forall (fun p => exists key, bypassKeyFor p = Some key /\ le_bypassUpdate key = true /\ le_bypassLookup key = Some 1) (co_BypassCIDRs o) /\
  le_bypassFreeze = true /\ tracked st w.

Lemma load_after_attach o info st w : tracked st w -> lw_registered w = true -> lw_coll w = true -> lw_links w = attachSpecs ->
  lw_pins w = [] -> length (ai_ProgIDs info) = 6%nat -> Forall (fun id => id <> 0) (ai_ProgIDs info) -> ai_PinPaths info = [] ->
  writeAndFreezeConfig o = None -> writeAndFreezeBypass o = None -> loaded o info st w.
Proof.
  intros Ht Hr Hc Hl Hp Hlen Hids Hnil Hcfg Hby. unfold writeAndFreezeBypass in Hby. destruct le_bypassMap; [|done]. cbn [negb] in Hby.
  destruct (write_bypass (co_BypassCIDRs o)) eqn:Eb; [done|]. destruct le_bypassFreeze eqn:Ef; [|done].
  split_and!; try done; [congruence|by apply writeAndFreezeConfig_None|by apply write_bypass_None].
Qed.

Lemma LoadAndAttach_unwinds o r st w :
  LoadAndAttach (Some o) nothing = (r, st, w) ->
  match r with
  | Err _ => released st w
  | Ok info => loaded o info st w /\ released st (closeAll st w)
  end.
Proof.
  unfold LoadAndAttach. pose proof released_initially as Hini. destruct (Options_Validate (Some o)); [by intros [= <- <- <-]|]. cbn [lw_registered nothing].
  destruct (load_kernel_floor o); [by intros [= <- <- <-]|]. destruct (le_ctxErr 0); [by intros [= <- <- <-]|].
  destruct le_loadSpec; [|by intros [= <- <- <-]]. cbn [negb]. destruct le_newCollection; [by intros [= <- <- <-]|].
  set (st1 := {| ls_coll := true; ls_links := []; ls_pinPaths := [] |}). set (w1 := set_coll true _).
  assert (tracked st1 w1) as T1 by (split_and!; [by intros ? []%elem_of_nil|done|done]). unfold load_fails.
  pose proof (closeAll_tracked st1 w1 T1) as R1.
  destruct (le_ctxErr 1); [by intros [= <- <- <-]|]. destruct (writeAndFreezeConfig o) eqn:Ec; [by intros [= <- <- <-]|].
  destruct (writeAndFreezeBypass o) eqn:Eb; [by intros [= <- <- <-]|]. destruct (le_ctxErr 2); [by intros [= <- <- <-]|].
  destruct (attach o st1 w1) as [[r2 st2] w2] eqn:Ea. apply attach_spec in Ea as (T2 & Hw2 & _ & H2); [|done|done|done].
  destruct r2 as [info|e]; [|intros [= <- <- <-]; by apply closeAll_tracked].
  destruct H2 as (Hl2 & Hlen & Hids & Hnil & _).
  assert (loaded o info st2 w2) as Hld by (apply load_after_attach; try done; by rewrite Hw2).
  destruct (co_PinLinks o); cbn [negb]; [|intros [= <- <- <-]; split; [done|by apply closeAll_tracked]].
  destruct (checkPinRootSafe o); [intros [= <- <- <-]; by apply closeAll_tracked|].
  destruct (pinAll o st2 w2) as [[r3 st3] w3] eqn:Ep. apply pinAll_spec in Ep as (T3 & Hl3 & Hc3 & Hr3 & H3); [|done].
  destruct r3 as [pins|e]; intros [= <- <- <-]; [|by apply closeAll_tracked]. split; [|by apply closeAll_tracked].
  destruct Hld as (Q1 & Q2 & Q3 & _ & Q5 & Q6 & Q7 & Q8 & Q9 & _). unfold loaded. cbn [ai_ProgIDs ai_PinPaths].
  rewrite Hl3, Hc3, Hr3. split_and!; done.
Qed.

(** C19: A load is all or nothing, as far as the kernel gives back what it handed out.  From a process that holds none of the objects,
    [LoadAndAttach] either fails and leaves no collection and no entry in the table of loads, whichever step failed, and of the links and pins
    made so far only those that the kernel itself refused to give back (a link whose [Close] failed; a pin whose [os.Remove] failed, and the [Unpin] of its
    link too); or it succeeds with all six programs attached under non-zero ids, the configuration image and every bypass
    prefix read back as written, both maps frozen, the pins it reports, and a state from which closing the handle gives everything
    back in the same sense.  Where no such call fails, nothing at all is left in either case. *)
Theorem LoadAndAttach_all_or_nothing o r st w :
  LoadAndAttach (Some o) nothing = (r, st, w) ->
  match r with
  | Err _ => released st w
  | Ok info => loaded o info st w /\ released st (closeAll st w)
  end /\
  ((forall n, le_close n = true) -> (forall p, le_remove p = true) -> match r with Err _ => w | Ok _ => closeAll st w end = nothing).
Proof.
  intros H. pose proof (LoadAndAttach_unwinds o r st w H) as Hu. split; [done|]. intros Hc Hr. apply given_back_nothing; [done..|]. by destruct r as [info|e]; [destruct Hu as [_ [Hu _]]|destruct Hu as [Hu _]].
Qed.
End Unwind.

(** Three inconclusive checks in a row, and not fewer, count as a loss. *)
Lemma health_loop_tolerance events :
  runHealthLoop 0 (Tick (Some Transient) :: Tick (Some Transient) :: Tick None :: events) = runHealthLoop 0 events /\
  runHealthLoop 0 (Tick (Some Transient) :: Tick (Some Transient) :: Tick (Some Transient) :: events) = Some Transient.
Proof. done. Qed.

Lemma default_check_conclusive info links e : defaultCheckAttachment info links = Some e -> isInconclusive e = false.
Proof. induction links as [|l links IH]; cbn [defaultCheckAttachment]; [done|]. destruct (info (al_name l)); [done|]. by intros [= <-]. Qed.

(** The production check reports every error of [Info] as a lost link, so the tolerance for
    inconclusive checks is never used: one transient failure ends the loop. *)
Lemma transient_info_error_is_fatal info links n events e :
  defaultCheckAttachment info links = Some e -> runHealthLoop n (Tick (defaultCheckAttachment info links) :: events) = Some e.
Proof. intros H. pose proof (default_check_conclusive _ _ _ H) as Hc. rewrite H. cbn [runHealthLoop]. by rewrite Hc. Qed.

(** ** The attach-loss latch of [handle_linux.go] *)

Module Latch.

(** [onLoss] is the registered callback: none, a nil function or a function. *)
Record state := {
  lost : bool; callbackFired : bool; onLoss : option bool;
  sent : nat;      (* sends on the buffered channel *)
  called : nat     (* calls of a callback *)
}.

(** A goroutine in [OnAttachLoss(fn)], with whether [fn] is not nil, or in
    [signalAttachLoss], at one of its atomic actions. *)
Inductive thread :=
| RegStore (fn : bool) | RegLock (fn : bool) | RegCall (deliver : bool) | RegDone
| SigLock | SigSend (deliver : bool) | SigCall (deliver : bool) | SigDone.

(** One atomic action of one goroutine. *)
Definition act (t : thread) (s : state) : option (thread * state) :=
  match t with
  | RegStore fn => Some (RegLock fn, {| lost := lost s; callbackFired := callbackFired s; onLoss := Some fn; sent := sent s; called := called s |})
  | RegLock fn =>
      let deliver := lost s && fn && negb (callbackFired s) in
      Some (RegCall deliver,
            {| lost := lost s; callbackFired := if deliver then true else callbackFired s; onLoss := onLoss s; sent := sent s; called := called s |})
  | RegCall deliver =>
      Some (RegDone, {| lost := lost s; callbackFired := callbackFired s; onLoss := onLoss s; sent := sent s;
                        called := if deliver then S (called s) else called s |})
  | SigLock =>
      if lost s then Some (SigDone, s)
      else
        let deliver := bool_decide (onLoss s = Some true) && negb (callbackFired s) in
        Some (SigSend deliver,
              {| lost := true; callbackFired := if deliver then true else callbackFired s; onLoss := onLoss s; sent := sent s; called := called s |})
  | SigSend deliver =>
      Some (SigCall deliver, {| lost := lost s; callbackFired := callbackFired s; onLoss := onLoss s; sent := S (sent s); called := called s |})
  | SigCall deliver =>
      Some (SigDone, {| lost := lost s; callbackFired := callbackFired s; onLoss := onLoss s; sent := sent s;
                        called := if deliver then S (called s) else called s |})
  | RegDone | SigDone => None
  end.

Inductive step : state * list thread -> state * list thread -> Prop :=
| step_act s ts i t t' s' : ts !! i = Some t -> act t s = Some (t', s') -> step (s, ts) (s', <[i := t']> ts).

Definition fresh : state := {| lost := false; callbackFired := false; onLoss := None; sent := 0; called := 0 |}.
Definition starting (t : thread) : Prop := t = RegStore true \/ t = SigLock.

(** Deliveries and sends that a goroutine still owes. *)
Definition owes_call (t : thread) : nat := match t with RegCall true | SigSend true | SigCall true => 1 | _ => 0 end.
Definition owes_send (t : thread) : nat := match t with SigSend _ => 1 | _ => 0 end.

Definition registered (t : thread) : Prop := match t with RegLock _ | RegCall _ | RegDone => True | _ => False end.
Definition past_lock (t : thread) : Prop := match t with RegCall _ | RegDone => True | _ => False end.

Record inv (s : state) (ts : list thread) : Prop := {
  inv_calls : (called s + sum_list_with owes_call ts)%nat = if callbackFired s then 1%nat else 0%nat;
  inv_sends : (sent s + sum_list_with owes_send ts)%nat = if lost s then 1%nat else 0%nat;
  inv_fired : callbackFired s = true -> lost s = true;
  inv_fn : forall i t, ts !! i = Some t -> match t with RegStore fn | RegLock fn => fn = true | _ => True end;
  inv_stored : forall i t, ts !! i = Some t -> registered t -> onLoss s = Some true;
  inv_seen : forall i t, ts !! i = Some t -> past_lock t -> lost s = true -> callbackFired s = true;
  inv_signal : forall i t, ts !! i = Some t -> t = SigDone \/ (exists d, t = SigSend d \/ t = SigCall d) -> lost s = true
}.

Ltac threads :=
  intros j u Hu; apply list_insert_cases in Hu as [[-> ->]|[_ Hu]]; cbn [registered past_lock];
  first [by eauto|by intros; simplify_eq|by intros [?|(? & [?|?])]; simplify_eq|match goal with H : _ |- _ => exact (H _ _ Hu) end|idtac].

Lemma act_inv s ts i t t' s' : inv s ts -> ts !! i = Some t -> act t s = Some (t', s') -> inv s' (<[i := t']> ts).
Proof.
  intros [I1 I2 I3 I4 I5 I6 I7] Hi Ha.
  pose proof (sum_list_with_insert owes_call ts i t t' Hi) as Hc. pose proof (sum_list_with_insert owes_send ts i t t' Hi) as Hs.
  pose proof (I4 i t Hi) as J4. pose proof (I5 i t Hi) as J5. pose proof (I6 i t Hi) as J6. pose proof (I7 i t Hi) as J7.
  destruct s as [l f o n c]. cbn [lost callbackFired onLoss sent called] in *.
  destruct t as [fn|fn|d| | |d|d|]; cbn [act lost callbackFired onLoss sent called] in Ha; cbn [owes_call owes_send registered past_lock] in *; try done.
  - subst fn. injection Ha as <- <-. cbn [owes_call owes_send] in *. split; cbn [lost callbackFired onLoss sent called]; try done; try lia; threads.
  - subst fn. specialize (J5 I). subst o. rewrite andb_true_r in Ha. injection Ha as <- <-.
    split; cbn [lost callbackFired onLoss sent called]; try done; try threads.
    + destruct l, f; cbn in *; lia.
    + cbn in *. lia.
    + destruct l, f; cbn; auto.
    + intros _ Hl. rewrite Hl. by destruct f.
    + intros Hp Hl. rewrite (I6 _ _ Hu Hp Hl). by rewrite andb_false_r.
  - injection Ha as <- <-. split; cbn [lost callbackFired onLoss sent called]; try done; try (destruct d; cbn in *; lia); threads.
  - destruct l.
    + injection Ha as <- <-. split; cbn [lost callbackFired onLoss sent called]; try done; try (cbn in *; lia); threads.
    + assert (f = false) as -> by (destruct f; [by specialize (I3 eq_refl)|done]). rewrite andb_true_r in Ha. injection Ha as <- <-.
      split; cbn [lost callbackFired onLoss sent called]; try done; try threads.
      * case_bool_decide; cbn in *; lia.
      * cbn in *. lia.
      * intros Hp _. rewrite (I5 _ _ Hu); [by rewrite bool_decide_true|]. by destruct u.
  - injection Ha as <- <-. assert (l = true) as -> by (apply J7; eauto).
    split; cbn [lost callbackFired onLoss sent called]; try done; try (destruct d; cbn in *; lia); threads.
  - injection Ha as <- <-. assert (l = true) as -> by (apply J7; eauto).
    split; cbn [lost callbackFired onLoss sent called]; try done; try (destruct d; cbn in *; lia); threads.
Qed.

Lemma initial_inv ts : Forall starting ts -> inv fresh ts.
Proof.
  intros H. assert (forall f, f (RegStore true) = 0%nat -> f SigLock = 0%nat -> sum_list_with f ts = 0%nat) as Ht.
  { intros f H1 H2. induction H as [|t ts [-> | ->] _ IH]; cbn; lia. }
  rewrite Forall_lookup in H. split; cbn [fresh called sent lost callbackFired onLoss]; try done.
  - by rewrite Ht.
  - by rewrite Ht.
  - intros i t Hi. by destruct (H i t Hi) as [-> | ->].
  - intros i t Hi. by destruct (H i t Hi) as [-> | ->].
  - intros i t Hi. destruct (H i t Hi) as [-> | ->]; by intros [?|(? & [?|?])].
Qed.

Lemma step_inv c c' : step c c' -> inv c.1 c.2 -> inv c'.1 c'.2.
Proof. intros Hstep I. inversion Hstep; subst. cbn [fst snd] in *. by eapply act_inv. Qed.

(** A goroutine stays in its function. *)
Definition is_reg (t : thread) : bool := match t with RegStore _ | RegLock _ | RegCall _ | RegDone => true | _ => false end.
Lemma registrations_stay c c' : rtc step c c' -> map is_reg (snd c') = map is_reg (snd c).
Proof.
  induction 1 as [|c c1 c2 Hstep _ IH]; [done|]. rewrite IH. inversion Hstep as [s ts i t t' s' Hi Ha]; subst. cbn [snd].
  rewrite list_fmap_insert. apply list_insert_id. rewrite list_lookup_fmap, Hi. cbn. f_equal.
  destruct t; cbn in Ha; try (injection Ha as <- <-; done); [done| |done]. by destruct (lost s); injection Ha as <- <-.
Qed.

(** The loss of the attachment is reported once.  Whatever the interleaving of any number of [OnAttachLoss] calls with a callback and
    of [signalAttachLoss] calls, at most one callback is called and at most one error is sent on the channel; and when all have
    returned, if a callback was registered and a loss signalled, exactly one call and one send were made, whichever came first. *)
Theorem attach_loss_once ts s' ts' :
  Forall starting ts -> rtc step (fresh, ts) (s', ts') ->
  (called s' <= 1 /\ sent s' <= 1)%nat /\
  (Forall (fun t => t = RegDone \/ t = SigDone) ts' -> RegStore true ∈ ts -> SigLock ∈ ts -> called s' = 1%nat /\ sent s' = 1%nat).
Proof.
  intros Hst Hr. pose proof (rtc_preserves step (fun c => inv c.1 c.2) _ _ step_inv Hr (initial_inv ts Hst)) as I. pose proof (registrations_stay _ _ Hr) as Hk. cbn [fst snd] in *.
  destruct I as [I1 I2 _ _ _ I6 I7]. split.
  - destruct (callbackFired s'), (lost s'); lia.
  - intros Hd Hreg Hsig.
    assert (forall b t, t ∈ ts -> is_reg t = b -> (if b then RegDone else SigDone) ∈ ts') as Hfin.
    { intros b t Ht Hb. assert (b ∈ map is_reg ts') as Hin by (rewrite Hk; apply list_elem_of_fmap; eauto).
      apply list_elem_of_fmap in Hin as (u & -> & Hu). rewrite Forall_forall in Hd. by destruct (Hd u Hu) as [-> | ->]. }
    apply (Hfin true) in Hreg; [|done]. apply (Hfin false) in Hsig; [|done].
    apply list_elem_of_lookup in Hreg as [i Hi]. apply list_elem_of_lookup in Hsig as [j Hj].
    assert (lost s' = true) as Hl by (eapply I7; [exact Hj|by left]). rewrite (I6 _ _ Hi I Hl) in I1. rewrite Hl in I2.
    assert (forall f, f RegDone = 0%nat -> f SigDone = 0%nat -> sum_list_with f ts' = 0%nat) as Ht.
    { intros f H1 H2. clear -Hd H1 H2. induction Hd as [|t ts' [-> | ->] _ IH]; cbn; lia. }
    rewrite Ht in I1, I2 by done. lia.
Qed.

Lemma attach_loss_once_witness :
  exists s' ts', rtc step (fresh, [RegStore true; SigLock]) (s', ts') /\ called s' = 1%nat /\ sent s' = 1%nat.
Proof.
  pose (s4 := {| lost := true; callbackFired := true; onLoss := Some true; sent := 1; called := 1 |}).
  assert (rtc step (fresh, [RegStore true; SigLock]) (s4, [RegDone; SigDone])) as Hr.
  { eapply rtc_l; [eapply (step_act _ _ 0%nat); reflexivity|]. eapply rtc_l; [eapply (step_act _ _ 1%nat); reflexivity|].
    eapply rtc_l; [eapply (step_act _ _ 0%nat); reflexivity|]. eapply rtc_l; [eapply (step_act _ _ 1%nat); reflexivity|].
    eapply rtc_l; [eapply (step_act _ _ 1%nat); reflexivity|]. eapply rtc_l; [eapply (step_act _ _ 0%nat); reflexivity|].
    apply rtc_refl. }
  exists s4, [RegDone; SigDone]. split; [exact Hr|].
  apply (attach_loss_once [RegStore true; SigLock] s4 [RegDone; SigDone]).
  - constructor; [left; reflexivity|constructor; [right; reflexivity|constructor]].
  - exact Hr.
  - constructor; [left; reflexivity|constructor; [right; reflexivity|constructor]].
  - left.
  - right. left.
Defined.
End Latch.

(** ** Example *)

Definition demo_load_releasing (remove_ok pin_ok : bool) (third : option Z) : LoadEnv :=
  {| le_kernelVersion := Some {| Major := 6; Minor := 1 |}; le_ctxErr _ := false; le_loadSpec := true; le_newCollection := None;
     le_configMap := true; le_configUpdate _ := true;
     le_configLookup := match buildConfigImage (EN := true) DefaultOptions with Ok i => Some i | Err _ => None end; le_configFreeze := true;
     le_bypassMap := true; le_bypassUpdate _ := true; le_bypassLookup _ := Some 1; le_bypassFreeze := true;
     le_cgroupID _ := Some 77; le_program _ := true; le_attach _ := true;
     le_programID n := if str_eqb n "aksh_sendmsg4" then third else Some 9;
     le_statfs _ := Some BPFFSMagic; le_mkdir _ := Made; le_chown _ := true;
     le_lstat _ := Some {| dst_IsDir := true; dst_Uid := 1774; dst_Gid := 1774; dst_Mode := 448 |};
     le_pin p := pin_ok || negb (HasSuffix p "pair_orig_dst"); le_pairMap := true;
     le_unpin _ := remove_ok; le_close _ := true; le_remove _ := remove_ok |}.
Notation demo_load := (demo_load_releasing true).
Definition demo_options : Options :=
  {| co_PodPath := "/host/sys/fs/cgroup/kubepods/podA"; co_HostCgroupMount := co_HostCgroupMount DefaultOptions;
     co_LocalCgroupMount := co_LocalCgroupMount DefaultOptions; co_ProcCgroupPath := co_ProcCgroupPath DefaultOptions; co_Metrics := true;
     co_ProxyUID := 1774; co_ProxyGID := 1774; co_ListenerAddr := co_ListenerAddr DefaultOptions; co_DNSServer := noAddrPort;
     co_BypassCIDRs := []; co_CaptureIPv6 := false; co_MountBPFFS := true; co_BlockNonTCP := true; co_RunProbe := true;
     co_AllowUnsafeStartup := false; co_AttachCheckInterval := 30 * Second; co_PinLinks := true; co_PinRoot := "/sys/fs/bpf";
     co_PinRootPrivate := false; co_MapEntries := 0; co_DestMaxAge := 15 * Second; co_MinKernel := MinSupportedKernel |}.

(** A good load; a program without an id; a pin that fails after six have been made. *)
Example demo_load_outcomes :
  (exists info st w, LoadAndAttach (EN := true) (L := demo_load true (Some 5)) (Some demo_options) nothing = (Ok info, st, w) /\
     ai_ProgIDs info = [9; 9; 5; 9; 9; 9] /\ length (lw_pins w) = 7%nat) /\
  (LoadAndAttach (EN := true) (L := demo_load true (Some 0)) (Some demo_options) nothing).1.1 = Err (LoadError "loader" E_ATTACH) /\
  (LoadAndAttach (EN := true) (L := demo_load false (Some 5)) (Some demo_options) nothing).2 = nothing.
Proof. split; [eexists _, _, _|]; vm_compute; repeat split. Qed.

(** [closeAll] is documented to leave no maps, links or pins behind.  The errors of the calls are discarded: when bpffs refuses to unlink, a failed
    load reports its own error and leaves six pinned, attached programs. *)
Lemma failed_load_leaves_pins :
  let '(r, _, w) := LoadAndAttach (EN := true) (L := demo_load_releasing false false (Some 5)) (Some demo_options) nothing in
  r = Err (LoadError "loader" E_ATTACH) /\ lw_links w = [] /\ length (lw_pins w) = 6%nat /\ lw_registered w = false.
Proof. vm_compute. by repeat split. Qed.

Lemma LoadAndAttach_all_or_nothing_witness :
  (LoadAndAttach (EN := true) (L := demo_load false (Some 5)) (Some demo_options) nothing).1.1 = Err (LoadError "loader" E_ATTACH) /\
  (LoadAndAttach (EN := true) (L := demo_load false (Some 5)) (Some demo_options) nothing).2 = nothing.
Proof.
  split; [vm_compute; reflexivity|].
  refine (proj2 (LoadAndAttach_all_or_nothing (EN := true) (L := demo_load false (Some 5)) demo_options (Err (LoadError "loader" E_ATTACH))
    (LoadAndAttach (EN := true) (L := demo_load false (Some 5)) (Some demo_options) nothing).1.2 _ _) (fun _ => eq_refl) (fun _ => eq_refl)).
  vm_compute. reflexivity.
Defined.
