(* ===== verification/Orchestrator.v ===== *)
(** * [internal/runtime/orchestrator.go] and [factory.go]: the life of the proxy

    [Run] as the sequence of what it does: every startup gate is a seam whose outcome is a
    field of [Seams], and what [Run] asks of the seams, in order, is its trace of [action]s.
    The flags behind the health probes are the record [Orchestrator]. *)

From S2P Require Import Prelude GoStrings GoRuntime Canonicalize GoPath Compile Match Credential Decision Stages Metrics Upstream Capture GoParse Config Cgroup Preflight.
#[local] Open Scope Z_scope.

Definition proxyUID : Z := 1774.
Definition proxyGID : Z := 1774.

Record ProbeStatus := { ps_Ready : bool; ps_Live : bool; ps_Reason : gostring }.

(** ** Seams *)

(** How the end of [Serve] and the cancellation of the context meet: the context is done
    first, or [Serve] returns first, with its error and whether the context is done then. *)
Inductive serve_outcome := CtxDoneFirst | ServeReturned (err : bool) (ctxDone : bool).

(** The seams of [Options] with their outcomes, [true] for success; a nil seam is [None]. *)
Record Options := {
  op_Preflight : option bool;
  op_ConstructResolvers : option bool;
  op_CAProvider : option bool;
  op_PolicyStartup : option bool;
  op_LocalSelfTest : option bool;
  op_AuditSinkFactory : option bool;
  op_PrivDrop : option (PrivDropConfig -> bool);
  op_ControlPlaneStart : option bool;
  op_CaptureHandle : bool            (* a handle is injected *)
}.

(** The seams of the orchestrator, and what the rest of [Run] meets. *)
Record Seams := {
  sm_Preflight : bool;
  sm_ConstructResolvers : bool;
  sm_CAProvider : bool;
  sm_PolicyStartup : bool;
  sm_LocalSelfTest : bool;
  sm_AuditSinkFactory : bool;
  sm_assemble : bool;
  sm_ctxDone : bool;                 (* at the check before the control plane starts *)
  sm_ControlPlaneStart : bool;
  sm_ListenerFactory : bool;
  sm_Bind : bool;
  sm_AcceptProbe : option bool;      (* a listener without [AcceptProbe] has no probe *)
  sm_PrivDrop : PrivDropConfig -> bool;
  sm_Serve : serve_outcome;
  sm_ListenerShutdown : bool;
  sm_CaptureHandle : bool
}.

(** [New]: a nil seam is a benign success. *)
Definition seam (s : option bool) : bool := default true s.
Definition withSeams (opts : Options) (assemble ctxDone factory bind : bool) (probe : option bool) (serve : serve_outcome)
    (shutdown : bool) : Seams :=
  {| sm_Preflight := seam (op_Preflight opts); sm_ConstructResolvers := seam (op_ConstructResolvers opts);
     sm_CAProvider := seam (op_CAProvider opts); sm_PolicyStartup := seam (op_PolicyStartup opts);
     sm_LocalSelfTest := seam (op_LocalSelfTest opts); sm_AuditSinkFactory := seam (op_AuditSinkFactory opts);
     sm_assemble := assemble; sm_ctxDone := ctxDone; sm_ControlPlaneStart := seam (op_ControlPlaneStart opts);
     sm_ListenerFactory := factory; sm_Bind := bind; sm_AcceptProbe := probe;
     sm_PrivDrop := default (fun _ => true) (op_PrivDrop opts); sm_Serve := serve; sm_ListenerShutdown := shutdown;
     sm_CaptureHandle := op_CaptureHandle opts |}.

Inductive action :=
| Milestone (event : gostring)
| SetReady (ready : bool)            (* a store to the flag behind [/readyz] *)
| StartControlPlane | MakeListener | BindListener | ProbeListener | DropTo (cfg : PrivDropConfig) | ServeListener
| ShutdownListener | CloseCapture | StopControlPlane
| StartupFailure (gate : gostring).

Record Orchestrator := {
  o_ready : bool; o_live : bool; o_reason : gostring; o_ln : bool;
  o_shutdown : option bool;          (* [shutdownOnce] with [shutdownErr]: [Some true] is a nil error *)
  o_trace : list action
}.
Definition New : Orchestrator :=
  {| o_ready := false; o_live := true; o_reason := "starting"; o_ln := false; o_shutdown := None; o_trace := [] |}.

Definition act (a : action) (o : Orchestrator) : Orchestrator :=
  {| o_ready := o_ready o; o_live := o_live o; o_reason := o_reason o; o_ln := o_ln o; o_shutdown := o_shutdown o;
     o_trace := o_trace o ++ [a] |}.
Definition rec (event : gostring) (o : Orchestrator) : Orchestrator := act (Milestone event) o.
Definition setReady (ready : bool) (reason : gostring) (o : Orchestrator) : Orchestrator :=
  act (SetReady ready)
    {| o_ready := ready; o_live := o_live o; o_reason := reason; o_ln := o_ln o; o_shutdown := o_shutdown o; o_trace := o_trace o |}.
Definition setListener (o : Orchestrator) : Orchestrator :=
  {| o_ready := o_ready o; o_live := o_live o; o_reason := o_reason o; o_ln := true; o_shutdown := o_shutdown o; o_trace := o_trace o |}.
Definition failNoReturn (gate : gostring) (o : Orchestrator) : Orchestrator :=
  let o := setReady false (gate ++ bs " failed") o in
  act (StartupFailure gate)
    {| o_ready := o_ready o; o_live := false; o_reason := o_reason o; o_ln := o_ln o; o_shutdown := o_shutdown o; o_trace := o_trace o |}.

Definition status (o : Orchestrator) : ProbeStatus := {| ps_Ready := o_ready o; ps_Live := o_live o; ps_Reason := o_reason o |}.
Definition Ready := status.
Definition Live := status.

Section Run.
Context `{U : Unicode} `{N : NetURL} (cfg : Config) (s : Seams).

(** [Shutdown]: readiness is cleared every time, the teardown runs once; the result is that
    of the listener's shutdown, kept for the calls that come later. *)
Definition Shutdown (o : Orchestrator) : bool * Orchestrator :=
  let o := setReady false "shutting down" o in
  match o_shutdown o with
  | Some ok => (ok, o)
  | None =>
      let ok := if o_ln o then sm_ListenerShutdown s else true in
      let o := if o_ln o then act ShutdownListener o else o in
      let o := if sm_CaptureHandle s then act CloseCapture o else o in
      let o := act StopControlPlane o in
      (ok, {| o_ready := o_ready o; o_live := o_live o; o_reason := o_reason o; o_ln := o_ln o; o_shutdown := Some ok; o_trace := o_trace o |})
  end.
Definition drain (o : Orchestrator) : Orchestrator := snd (Shutdown o).

(** The result is whether [Run] returned nil. *)
Definition serve (o : Orchestrator) : bool * Orchestrator :=
  let o := act ServeListener o in
  match sm_Serve s with
  | CtxDoneFirst => Shutdown o
  | ServeReturned err ctxDone =>
      if err && negb ctxDone then (false, drain (failNoReturn "serve" o)) else Shutdown o
  end.

Definition fail (gate : gostring) (o : Orchestrator) : bool * Orchestrator := (false, failNoReturn gate o).

Definition privDropConfig : PrivDropConfig :=
  {| pd_ProxyUID := proxyUID; pd_ProxyGID := proxyGID; pd_SupplementaryGIDs := []; pd_KeepCapabilities := [bs "CAP_BPF"];
     pd_NoNewPrivs := true |}.

(** [runGate] and the gates written out in [Run]: on failure [fail], else the milestone. *)
Definition gate (name event : gostring) (ok : bool) (k : Orchestrator -> bool * Orchestrator) (o : Orchestrator) : bool * Orchestrator :=
  if ok then k (rec event o) else fail name o.

Definition acceptProbe (k : Orchestrator -> bool * Orchestrator) (o : Orchestrator) : bool * Orchestrator :=
  match sm_AcceptProbe s with
  | None => k o
  | Some ok =>
      let o := act ProbeListener o in
      if (ok : bool) then k (rec "accept-probe" o) else (false, drain (failNoReturn "accept-probe" o))
  end.

(** From the start of the control plane; [dropped] is what the privilege drop to
    [privDropConfig] returns. *)
Definition run_serving (dropped : bool) (o : Orchestrator) : bool * Orchestrator :=
  let o := act StartControlPlane o in
  if negb (sm_ControlPlaneStart s) then fail "control-plane" o
  else
    let o := act MakeListener (rec "control-plane" o) in
    if negb (sm_ListenerFactory s) then (false, drain (failNoReturn "listener" o))
    else
      let o := act BindListener (setListener o) in
      if negb (sm_Bind s) then (false, drain (failNoReturn "bind" o))
      else
        acceptProbe (fun o =>
          let o := act (DropTo privDropConfig) o in
          if negb dropped then (false, drain (failNoReturn "priv-drop" o))
          else serve (rec "serve" (setReady true "serving" (rec "priv-drop" o)))) (rec "bind" o).

Definition Run (o : Orchestrator) : bool * Orchestrator :=
  gate "config" "config-validated" (match Validate cfg with None => true | Some _ => false end)
    (gate "preflight" "preflight" (sm_Preflight s)
    (gate "resolvers" "resolvers" (sm_ConstructResolvers s)
    (gate "ca" "ca-ready" (sm_CAProvider s)
    (gate "first-snapshot" "first-snapshot" (sm_PolicyStartup s)
    (gate "self-test" "self-test" (sm_LocalSelfTest s)
    (gate "audit-recorder" "audit-recorder" (sm_AuditSinkFactory s)
    (gate "compose" "compose" (sm_assemble s)
    (fun o => if sm_ctxDone s then fail "bind" o else run_serving (sm_PrivDrop s privDropConfig) o)))))))) o.
End Run.

(** ** [factory.go] *)

(** The address is checked again where it is handed to the kernel; [None] is an error. *)
Definition MakeProductionListenerFactory (cfg : Config) : option AddrPort :=
  match ParseAddrPort (lc_Address (c_Listener cfg)) with
  | None => None
  | Some addr =>
      let ip := Unmap (ap_Addr addr) in
      if negb (Is4 ip) || negb (IsLoopback ip) then None else Some addr
  end.

(** ** What [Run] guarantees *)

Section Guarantees.
Context `{U : Unicode} `{N : NetURL} (cfg : Config) (s : Seams).

(** The gates before the control plane, before [Bind] and before [Serve]. *)
Definition start_gates : bool :=
  (match Validate cfg with None => true | Some _ => false end) && sm_Preflight s && sm_ConstructResolvers s &&
  sm_CAProvider s && sm_PolicyStartup s && sm_LocalSelfTest s && sm_AuditSinkFactory s &&
  sm_assemble s && negb (sm_ctxDone s).
Definition bind_gates : bool := start_gates && sm_ControlPlaneStart s && sm_ListenerFactory s.
Definition serve_gates : bool :=
  bind_gates && sm_Bind s && seam (sm_AcceptProbe s) && sm_PrivDrop s privDropConfig.

Definition is_bind (a : action) : bool := match a with BindListener => true | _ => false end.
Definition is_serve (a : action) : bool := match a with ServeListener => true | _ => false end.
Definition is_drop (a : action) : bool :=
  match a with DropTo c => Z.eqb (pd_ProxyUID c) proxyUID && Z.eqb (pd_ProxyGID c) proxyGID && pd_NoNewPrivs c | _ => false end.
Definition is_teardown (a : action) : bool :=
  match a with ShutdownListener | CloseCapture | StopControlPlane => true | _ => false end.
Definition is_failure (a : action) : bool := match a with StartupFailure _ => true | _ => false end.

(** What [/readyz] answers after the actions of [p]. *)
Definition readiness (p : list action) : bool :=
  fold_left (fun r a => match a with SetReady b => b | _ => r end) p false.

(** At every point where the probe says ready: bound and dropped before, nothing torn down and
    no failure recorded. *)
Definition ready_point (p : list action) : bool :=
  implb (readiness p) (existsb is_bind p && existsb is_drop p && negb (existsb is_teardown p) && negb (existsb is_failure p)).
Definition all_prefixes {A} (f : list A -> bool) (t : list A) : bool := forallb (fun n => f (take n t)) (seq 0 (S (length t))).

Lemma all_prefixes_spec {A} (f : list A -> bool) t p q : all_prefixes f t = true -> t = p ++ q -> f p = true.
Proof.
  intros Hall ->. unfold all_prefixes in Hall. rewrite forallb_forall in Hall.
  specialize (Hall (length p)). rewrite take_app_length in Hall. apply Hall.
  apply in_seq. rewrite length_app. lia.
Qed.

Definition teardown_of : list action :=
  if start_gates && sm_ControlPlaneStart s
  then (if sm_ListenerFactory s then [ShutdownListener] else []) ++ (if sm_CaptureHandle s then [CloseCapture] else []) ++ [StopControlPlane]
  else [].

Definition is_cp_start (a : action) : bool := match a with StartControlPlane => true | _ => false end.
Definition last_is_stop (t : list action) : bool := match last t with Some StopControlPlane => true | _ => false end.

(** Every path of [Run] at once: a boolean check of its final state. *)
Definition run_check (r : bool * Orchestrator) : bool :=
  let t := o_trace (snd r) in
  eqb (existsb is_cp_start t) start_gates && eqb (existsb is_bind t) bind_gates && eqb (existsb is_serve t) serve_gates &&
  all_prefixes ready_point t && negb (o_ready (snd r)) &&
  implb (negb serve_gates) (negb (fst r) && negb (o_live (snd r)) && existsb is_failure t) &&
  eqb (last_is_stop t) (start_gates && sm_ControlPlaneStart s) &&
  implb (fst r) (o_live (snd r) && negb (existsb is_failure t)).

#[local] Ltac run_path := vm_compute; split; reflexivity.
Lemma run_checked :
  run_check (Run cfg s New) = true /\ List.filter is_teardown (o_trace (snd (Run cfg s New))) = teardown_of.
Proof.
  unfold run_check, teardown_of, serve_gates, bind_gates, start_gates, Run.
  destruct (Validate cfg) as [e|]; [run_path|].
  generalize (sm_PrivDrop s privDropConfig) as d. destruct s as [pf rs ca ps st au asm cd cp lf bd ap pd sv ls ch].
  destruct pf; [|run_path]. destruct rs; [|run_path]. destruct ca; [|run_path].
  destruct ps; [|run_path]. destruct st; [|run_path]. destruct au; [|run_path].
  destruct asm; [|run_path]. destruct cd; [run_path|]. destruct cp; [|run_path].
  intros d. destruct ch, lf.
  2, 4: run_path.
  all: destruct bd; [|run_path].
  all: destruct ap as [[]|]; [|run_path|].
  all: destruct d; [|run_path].
  all: destruct sv as [|[] []], ls; run_path.
Qed.

Lemma existsb_In (f : action -> bool) a : (forall b, f b = true <-> b = a) -> forall t, existsb f t = true <-> a ∈ t.
Proof.
  intros Hf t. rewrite existsb_exists. setoid_rewrite Hf. rewrite list_elem_of_In.
  split; [intros (b & Hb & ->); exact Hb|intros Hin; exists a; done].
Qed.
Lemma run_checked_parts (r := Run cfg s New) (t := o_trace (snd r)) :
  (StartControlPlane ∈ t <-> start_gates = true) /\ (BindListener ∈ t <-> bind_gates = true) /\
  (ServeListener ∈ t <-> serve_gates = true) /\ all_prefixes ready_point t = true /\ o_ready (snd r) = false /\
  (serve_gates = false -> fst r = false /\ o_live (snd r) = false /\ existsb is_failure t = true) /\
  last_is_stop t = (start_gates && sm_ControlPlaneStart s) /\
  (fst r = true -> o_live (snd r) = true /\ existsb is_failure t = false).
Proof.
  destruct run_checked as [H _]. fold r in H. unfold run_check in H. subst t. clearbody r. destruct r as [ok o]. cbn [fst snd] in *.
  repeat apply andb_prop in H as [H ?]. repeat match goal with H : eqb _ _ = true |- _ => apply eqb_prop in H end.
  rewrite <- (existsb_In is_cp_start), <- (existsb_In is_bind), <- (existsb_In is_serve) by (intros []; cbn; split; congruence).
  split_and!; [rewrite H; done|rewrite H6; done|rewrite H5; done|done|by apply negb_true_iff| |done|].
  - intros Hs. rewrite Hs in *. destruct ok, (o_live o), (existsb is_failure (o_trace o)); done.
  - intros Hs. destruct ok, (o_live o), (existsb is_failure (o_trace o)); done.
Qed.

(** The fail-closed startup order of [Run], for every outcome of every seam.  The control
    plane starts exactly when every earlier gate passed and the context was not cancelled,
    [Bind] is called exactly when the control plane started and the listener was made too, and
    [Serve] exactly when the bind, the accept probe and the drop to UID and GID 1774 succeeded as
    well.  At every moment of the run at which the readiness probe answers ready, the listener
    is bound, the drop has happened, nothing is torn down and no failure is recorded; at the end
    the probe answers not ready.  Without every gate [Run] returns an error and liveness is
    cleared; when it returns nil no failure was recorded and the process is still live. *)
Theorem Run_fail_closed :
  let '(ok, o) := Run cfg s New in
  (StartControlPlane ∈ o_trace o <-> start_gates = true) /\
  (BindListener ∈ o_trace o <-> bind_gates = true) /\
  (ServeListener ∈ o_trace o <-> serve_gates = true) /\
  (forall p q, o_trace o = p ++ q -> readiness p = true ->
     existsb is_bind p = true /\ existsb is_drop p = true /\ existsb is_teardown p = false /\ existsb is_failure p = false) /\
  ps_Ready (Ready o) = false /\
  (serve_gates = false -> ok = false /\ ps_Live (Live o) = false) /\
  (ok = true -> ps_Live (Live o) = true /\ existsb is_failure (o_trace o) = false).
Proof.
  pose proof run_checked_parts as (H1 & H2 & H3 & H4 & H5 & H6 & _ & H8). destruct (Run cfg s New) as [ok o]. cbn in *.
  split_and!; [exact H1|exact H2|exact H3| |exact H5|naive_solver|exact H8].
  intros p q Ht Hr. pose proof (all_prefixes_spec _ _ _ _ H4 Ht) as Hp. unfold ready_point in Hp. rewrite Hr in Hp. cbn [implb] in Hp.
  repeat apply andb_prop in Hp as [Hp ?]. rewrite <- !negb_true_iff. done.
Qed.

(** What [Run] opened it closes, in reverse order and once.  When the control plane started,
    the teardown actions of the run are exactly the listener's shutdown (if a listener was made),
    the release of the capture handle (if there is one) and the stop of the control plane, in
    this order, and the last of them is the last action of the run, on every failure path as
    after serving; when it did not start nothing is torn down. *)
Theorem Run_teardown :
  let o := snd (Run cfg s New) in
  List.filter is_teardown (o_trace o) = teardown_of /\
  (last (o_trace o) = Some StopControlPlane <-> start_gates && sm_ControlPlaneStart s = true).
Proof.
  intros o. split; [exact (proj2 run_checked)|].
  pose proof run_checked_parts as (_ & _ & _ & _ & _ & _ & H & _). fold o in H. rewrite <- H. unfold last_is_stop.
  destruct (last (o_trace o)) as [[]|]; split; congruence.
Qed.
End Guarantees.

(** ** The identity dropped to and the identity exempted from capture *)

(** [capture.Options] documents [ProxyUID] as the uid the proxy drops to and the uid the capture
    programs exempt.  [Run] drops to the constant; the kernel image exempts the configured uid, so
    an accepted configuration with another uid serves with its own egress captured. *)
Lemma drop_ignores_configured_uid :
  let getenv := demo_env (("AKSH_CAPTURE_PROXY_UID", "2000") :: demo_vars)%string in
  let cfg := @resolved ascii_only getenv empty_yaml in
  let s := withSeams {| op_Preflight := None; op_ConstructResolvers := None; op_CAProvider := None; op_PolicyStartup := None;
    op_LocalSelfTest := None; op_AuditSinkFactory := None; op_PrivDrop := None; op_ControlPlaneStart := None; op_CaptureHandle := true |}
    true false true true (Some true) CtxDoneFirst true in
  Validate (U := ascii_only) (N := https_urls) cfg = None /\
  serve_gates (U := ascii_only) (N := https_urls) cfg s = true /\
  DropTo privDropConfig ∈ o_trace (snd (Run (U := ascii_only) (N := https_urls) cfg s New)) /\
  pd_ProxyUID privDropConfig = 1774 /\
  forall EN : Endian, exists c,
    buildConfigImage (CaptureOptionsFromConfig (U := ascii_only) cfg true) = Ok (write_config c) /\ ac_ProxyUID c = 2000.
Proof.
  intros getenv cfg s. assert (Validate (U := ascii_only) (N := https_urls) cfg = None) as Hv by (vm_compute; reflexivity).
  split_and!; [exact Hv|vm_compute; reflexivity| |reflexivity|].
  - apply list_elem_of_In. vm_compute. tauto.
  - intros EN. destruct (accepted_image (U := ascii_only) (N := https_urls) cfg Hv) with (EN := EN) as (c & Hc & Hu & _); [vm_compute; reflexivity|].
    exists c. split; [exact Hc|]. rewrite Hu. vm_compute. reflexivity.
Qed.
