(* ===== verification/ControlPlane.v ===== *)
(** * [internal/runtime/control_plane_server.go]: metrics and probes

    The bind address and its reconciliation, the read-only handlers and the probe aggregator are
    functions; [Start] and [Shutdown] are threads over the fields the mutex guards, in Module
    [Lifecycle], together with the sockets they open and the [http.Server] they share. *)

From S2P Require Import Prelude GoStrings GoRuntime Credential Upstream GoParse Config Cgroup Preflight Orchestrator.
#[local] Open Scope Z_scope.

Definition Port15020 : Z := 15020.
Definition PodIPEnv : gostring := "POD_IP".
Definition reasonAuditUnavailable : gostring := "audit_unavailable".

Inductive cp_error := ErrNilProbeSource | ErrEmptyBindAddress | ErrLoopbackBindAddress.

(** ** Addresses *)

Section Addresses.
Context `{U : Unicode}.

(** [net.ParseIP]: an address with a zone is none. *)
Definition ParseIP (s : gostring) : option Addr :=
  match ParseAddr_value s with Some (a, false) => Some a | _ => None end.

Definition isLoopbackHost (host : gostring) : bool :=
  if EqualFold host "localhost" then true
  else match ParseIP host with Some ip => IsLoopback ip | None => false end.

Definition validateBindAddr (bindAddr : gostring) : option cp_error :=
  if str_eqb bindAddr [] then Some ErrEmptyBindAddress
  else if isLoopbackHost bindAddr then Some ErrLoopbackBindAddress else None.

Record ControlPlaneServer := { s_bindAddr : gostring; s_port : Z }.

(** [probes] is whether a source was supplied. *)
Definition NewControlPlaneServer (bindAddr : gostring) (port : Z) (probes : bool) : result cp_error ControlPlaneServer :=
  if negb probes then Err ErrNilProbeSource
  else match validateBindAddr bindAddr with
       | Some e => Err e
       | None => Ok {| s_bindAddr := bindAddr; s_port := port |}
       end.

Definition NewControlPlaneServerFromConfig (getenv : gostring -> gostring) (cp : ControlPlaneConfig) (probes : bool)
    : result cp_error ControlPlaneServer :=
  let host := TrimSpace (cp_Address cp) in
  let host := if str_eqb host [] then TrimSpace (getenv PodIPEnv) else host in
  if str_eqb host [] then Err ErrEmptyBindAddress
  else
    let port := if cp_Port cp =? 0 then Port15020 else cp_Port cp in
    NewControlPlaneServer host port probes.

(** The port is not negative in a validated configuration. *)
Definition ControlPlane_Addr (s : ControlPlaneServer) : gostring := JoinHostPort (s_bindAddr s) (Itoa (Z.to_nat (s_port s))).
End Addresses.

(** ** Handlers *)

Record probe_response := { pr_status : Z; pr_body : gostring }.

Definition degradedReasons : list gostring := [bs "starting"; bs "shutting down"; reasonAuditUnavailable].
Definition degradedReason (reason : gostring) : gostring :=
  if existsb (str_eqb reason) degradedReasons then reason else "not ready".

Definition writeProbe (st : Z) (body : gostring) : probe_response := {| pr_status := st; pr_body := body ++ [chr_lf] |}.
Definition methodNotAllowed : probe_response := writeProbe 405 "method not allowed".

(** [exposition] is what promhttp answers to a GET. *)
Definition metricsHandler (exposition : probe_response) (method : gostring) : probe_response :=
  if negb (str_eqb method "GET") then methodNotAllowed else exposition.
Definition healthzHandler (live : ProbeStatus) (method : gostring) : probe_response :=
  if negb (str_eqb method "GET") then methodNotAllowed
  else if ps_Live live then writeProbe 200 "ok" else writeProbe 503 "not live".
Definition readyzHandler (st : ProbeStatus) (method : gostring) : probe_response :=
  if negb (str_eqb method "GET") then methodNotAllowed
  else if ps_Ready st then writeProbe 200 "ready" else writeProbe 503 (degradedReason (ps_Reason st)).

(** The mux; [None] is a path it answers itself. *)
Definition Handler (exposition : probe_response) (ready live : ProbeStatus) (method path : gostring) : option probe_response :=
  if str_eqb path "/metrics" then Some (metricsHandler exposition method)
  else if str_eqb path "/healthz" then Some (healthzHandler live method)
  else if str_eqb path "/readyz" then Some (readyzHandler ready method)
  else None.

(** ** Probe aggregator *)

(** [pa_base]: the answers of the base source to [Ready] and [Live], if there is one. *)
Record ProbeAggregator := { pa_base : option (ProbeStatus * ProbeStatus); pa_auditReady : bool }.
Definition NewProbeAggregator (base : option (ProbeStatus * ProbeStatus)) : ProbeAggregator := {| pa_base := base; pa_auditReady := true |}.
Definition Aggregator_SetReady (ready : bool) (a : ProbeAggregator) : ProbeAggregator := {| pa_base := pa_base a; pa_auditReady := ready |}.
Definition Aggregator_Ready (a : ProbeAggregator) : ProbeStatus :=
  match pa_base a with
  | None => {| ps_Ready := false; ps_Live := false; ps_Reason := "not ready" |}
  | Some (st, _) =>
      if negb (pa_auditReady a) then {| ps_Ready := false; ps_Live := ps_Live st; ps_Reason := reasonAuditUnavailable |} else st
  end.
Definition Aggregator_Live (a : ProbeAggregator) : ProbeStatus :=
  match pa_base a with
  | None => {| ps_Ready := false; ps_Live := false; ps_Reason := [] |}
  | Some (_, st) => st
  end.

(** ** [Start] and [Shutdown] *)

Module Lifecycle.

(** A call to [Start] or [Shutdown] at its next critical section or blocking operation.  The
    goroutine that [Start] leaves behind is the continuation of its thread. *)
Inductive thread :=
| StartEnter                       (* before the first critical section *)
| StartListen                      (* before [net.Listen] *)
| StartBound                       (* bound, before the second critical section *)
| StartClose (err : bool)          (* about to release the socket it bound *)
| ServeEnter                       (* in [srv.Serve], before the listener is registered *)
| Serving
| StartDone (err : bool)
| ServeDone
| ShutEnter
| ShutWait                         (* another call owns the shutdown *)
| ShutStop (srv : option nat)      (* owns the shutdown, with the server it read *)
| ShutFinish (err : bool)
| ShutDone (err : bool).

(** The guarded fields, with the server identified by the thread that made it, its [inShutdown]
    flag and whether the listener is registered with it; the open sockets, by the thread that
    bound them; whether [close(s.shutdownCh)] met a closed channel. *)
Record shared := {
  srv : option nat; started : bool; shutdownRequested : bool; shuttingDown : bool; shutdownDone : bool; shutdownErr : bool;
  serveErr : bool; inShutdown : bool; registered : bool; sockets : gset nat; panicked : bool
}.
Definition initial : shared :=
  {| srv := None; started := false; shutdownRequested := false; shuttingDown := false; shutdownDone := false; shutdownErr := false;
     serveErr := false; inShutdown := false; registered := false; sockets := ∅; panicked := false |}.

Definition setSockets (ss : gset nat) (s : shared) : shared :=
  {| srv := srv s; started := started s; shutdownRequested := shutdownRequested s; shuttingDown := shuttingDown s;
     shutdownDone := shutdownDone s; shutdownErr := shutdownErr s; serveErr := serveErr s; inShutdown := inShutdown s;
     registered := registered s; sockets := ss; panicked := panicked s |}.

(** One step of the thread [i]; [b] chooses the bad outcome where there is one (the bind fails,
    the accept loop fails, the stop passes its deadline, the caller's context ends).  [None]: the
    thread is blocked or has returned. *)
Definition Start_step (i : nat) (b : bool) (t : thread) (s : shared) : option (thread * shared) :=
  match t with
  | StartEnter =>
      if started s then Some (StartDone true, s)
      else if shutdownRequested s then Some (StartDone false, s) else Some (StartListen, s)
  | StartListen => if b then Some (StartDone true, s) else Some (StartBound, setSockets ({[i]} ∪ sockets s) s)
  | StartBound =>
      if started s then Some (StartClose true, s)
      else if shutdownRequested s then Some (StartClose false, s)
      else Some (ServeEnter,
        {| srv := Some i; started := true; shutdownRequested := shutdownRequested s; shuttingDown := shuttingDown s;
           shutdownDone := shutdownDone s; shutdownErr := shutdownErr s; serveErr := serveErr s; inShutdown := inShutdown s;
           registered := registered s; sockets := sockets s; panicked := panicked s |})
  | StartClose e => Some (StartDone e, setSockets (sockets s ∖ {[i]}) s)
  | ServeEnter =>
      if inShutdown s then Some (ServeDone, setSockets (sockets s ∖ {[i]}) s)
      else Some (Serving,
        {| srv := srv s; started := started s; shutdownRequested := shutdownRequested s; shuttingDown := shuttingDown s;
           shutdownDone := shutdownDone s; shutdownErr := shutdownErr s; serveErr := serveErr s; inShutdown := inShutdown s;
           registered := true; sockets := sockets s; panicked := panicked s |})
  | Serving =>
      if inShutdown s then Some (ServeDone, s)
      else if b then Some (ServeDone,
        {| srv := srv s; started := started s; shutdownRequested := shutdownRequested s; shuttingDown := shuttingDown s;
           shutdownDone := shutdownDone s; shutdownErr := shutdownErr s; serveErr := true; inShutdown := inShutdown s;
           registered := false; sockets := sockets s ∖ {[i]}; panicked := panicked s |})
      else None
  | _ => None
  end.

Definition Shutdown_step (b : bool) (t : thread) (s : shared) : option (thread * shared) :=
  match t with
  | ShutEnter =>
      if shutdownDone s then Some (ShutDone (shutdownErr s), s)
      else if shuttingDown s then Some (ShutWait, s)
      else Some (ShutStop (srv s),
        {| srv := srv s; started := started s; shutdownRequested := true; shuttingDown := true; shutdownDone := shutdownDone s;
           shutdownErr := shutdownErr s; serveErr := serveErr s; inShutdown := inShutdown s; registered := registered s;
           sockets := sockets s; panicked := panicked s |})
  | ShutWait => if b then Some (ShutDone true, s) else if shutdownDone s then Some (ShutDone (shutdownErr s), s) else None
  | ShutStop None => Some (ShutFinish false, s)
  | ShutStop (Some i) => Some (ShutFinish b,
        {| srv := srv s; started := started s; shutdownRequested := shutdownRequested s; shuttingDown := shuttingDown s;
           shutdownDone := shutdownDone s; shutdownErr := shutdownErr s; serveErr := serveErr s; inShutdown := true;
           registered := false; sockets := if registered s then sockets s ∖ {[i]} else sockets s; panicked := panicked s |})
  | ShutFinish e => Some (ShutDone e,
        {| srv := srv s; started := started s; shutdownRequested := shutdownRequested s; shuttingDown := shuttingDown s;
           shutdownDone := true; shutdownErr := e; serveErr := serveErr s; inShutdown := inShutdown s; registered := registered s;
           sockets := sockets s; panicked := panicked s || shutdownDone s |})
  | _ => None
  end.

Definition is_shut (t : thread) : bool :=
  match t with ShutEnter | ShutWait | ShutStop _ | ShutFinish _ | ShutDone _ => true | _ => false end.
Definition thread_step (i : nat) (b : bool) (t : thread) (s : shared) : option (thread * shared) :=
  if is_shut t then Shutdown_step b t s else Start_step i b t s.

Inductive step : shared * list thread -> shared * list thread -> Prop :=
| step_thread s ts i b t t' s' : ts !! i = Some t -> thread_step i b t s = Some (t', s') -> step (s, ts) (s', <[i := t']> ts).

(** Calls that have not begun. *)
Definition calls (ts : list thread) : Prop := Forall (fun t => t = StartEnter \/ t = ShutEnter) ts.

(** Nothing can move, even when every blocking operation ends well. *)
Definition quiescent (c : shared * list thread) : Prop := forall i t, c.2 !! i = Some t -> thread_step i false t c.1 = None.

(** *** The invariant *)

Definition holds (stopping : bool) (t : thread) : bool :=
  match t with StartBound | StartClose _ | ServeEnter => true | Serving => negb stopping | _ => false end.
Definition serves (t : thread) : bool := match t with ServeEnter | Serving | ServeDone => true | _ => false end.
Definition is_serving (t : thread) : bool := match t with Serving => true | _ => false end.
Definition owns_stop (t : thread) : bool := match t with ShutStop _ | ShutFinish _ => true | _ => false end.
Definition stopped (t : thread) : bool := match t with ShutFinish _ => true | _ => false end.
Definition begun (t : thread) : bool := match t with ShutWait | ShutStop _ | ShutFinish _ | ShutDone _ => true | _ => false end.

Definition is_at (f : thread -> bool) (ts : list thread) (i : nat) : bool :=
  match ts !! i with Some t => f t | None => false end.
Lemma is_at_insert f ts i t t' j : ts !! i = Some t ->
  is_at f (<[i := t']> ts) j = if bool_decide (j = i) then f t' else is_at f ts j.
Proof.
  intros Hi. unfold is_at. case_bool_decide as Hj; [subst|].
  - rewrite list_lookup_insert_eq; [done|]. by eapply lookup_lt_Some.
  - by rewrite list_lookup_insert_ne.
Qed.

Definition elsewhere (f : thread -> bool) (ts : list thread) (i : nat) : Prop := exists j, j <> i /\ is_at f ts j = true.
Lemma ex_at f ts i t : ts !! i = Some t -> (exists j, is_at f ts j = true) <-> f t = true \/ elsewhere f ts i.
Proof.
  intros Hi. split.
  - intros [j Hj]. destruct (decide (j = i)) as [->|Hn]; [left; unfold is_at in Hj; by rewrite Hi in Hj|right; by exists j].
  - intros [Ht|(j & _ & Hj)]; [exists i; unfold is_at; by rewrite Hi|by exists j].
Qed.
Lemma ex_at_insert f ts i t t' : ts !! i = Some t -> (exists j, is_at f (<[i := t']> ts) j = true) <-> f t' = true \/ elsewhere f ts i.
Proof.
  intros Hi. split.
  - intros [j Hj]. rewrite (is_at_insert f ts i t) in Hj by done. case_bool_decide; [by left|right; by exists j].
  - intros [Ht|(j & Hn & Hj)]; [exists i|exists j]; rewrite (is_at_insert f ts i t) by done; [by rewrite bool_decide_true|by rewrite bool_decide_false].
Qed.

(** The shutdown has one owner until it is done; who has begun one knows it is requested. *)
Record inv_stop (s : shared) (ts : list thread) : Prop := {
  i_requested : shutdownRequested s = shuttingDown s;
  i_owner : shuttingDown s = true -> shutdownDone s = true \/ exists j, is_at owns_stop ts j = true;
  i_unique j k : is_at owns_stop ts j = true -> is_at owns_stop ts k = true -> j = k;
  i_owned j : is_at owns_stop ts j = true -> shutdownDone s = false;
  i_begun j : is_at begun ts j = true -> shuttingDown s = true;
  i_done : shutdownDone s = true \/ inShutdown s = true -> shuttingDown s = true;
  i_panicked : panicked s = false
}.
(** The server belongs to the thread that serves; a stop under way has read the final one. *)
Record inv_srv (s : shared) (ts : list thread) : Prop := {
  i_srv j : is_at serves ts j = true <-> srv s = Some j;
  i_started : started s = bool_decide (srv s <> None);
  i_read j o : ts !! j = Some (ShutStop o) -> o = srv s;
  i_stopped j : shutdownDone s = true \/ is_at stopped ts j = true -> srv s = None \/ inShutdown s = true
}.
(** A socket is open exactly while the thread that bound it holds it. *)
Record inv_sock (s : shared) (ts : list thread) : Prop := {
  i_sockets j : j ∈ sockets s <-> is_at (holds (inShutdown s)) ts j = true;
  i_serving j : is_at is_serving ts j = true -> inShutdown s = false -> registered s = true;
  i_registered : registered s = true -> inShutdown s = false /\ exists j, is_at is_serving ts j = true
}.

#[local] Ltac fields := cbn [srv started shutdownRequested shuttingDown shutdownDone shutdownErr serveErr inShutdown registered sockets panicked setSockets
  holds serves is_serving owns_stop stopped begun negb orb] in *.
#[local] Ltac cases t s H :=
  destruct s as [v st rq sd dn er se ish rg sk pn];
  destruct t as [| | |e| | |e| | | |[o|]|e|e]; cbn [thread_step is_shut Start_step Shutdown_step] in H; fields; try discriminate H;
  repeat match type of H with context [if ?c then _ else _] => destruct c eqn:? end; try discriminate H; injection H as <- <-; fields.

Lemma is_at_mono (f g : thread -> bool) ts j : (forall t, f t = true -> g t = true) -> is_at f ts j = true -> is_at g ts j = true.
Proof. intros H. unfold is_at. destruct (ts !! j); [apply H|done]. Qed.

Lemma step_stop s ts i b t t' s' : inv_stop s ts -> ts !! i = Some t -> thread_step i b t s = Some (t', s') -> inv_stop s' (<[i := t']> ts).
Proof.
  intros [I1 I2 I3 I4 I5 I6 I7] Hi Ha.
  assert (forall k, is_at owns_stop ts k = true -> shuttingDown s = true) as I8.
  { intros k Hk. apply (I5 k). revert Hk. apply is_at_mono. by intros []. }
  pose proof (I4 i) as J4. pose proof (I5 i) as J5. pose proof (fun k => I3 i k) as J3.
  assert (forall f, is_at f ts i = f t) as Hat by (intros f; unfold is_at; by rewrite Hi). rewrite Hat in J4, J5. setoid_rewrite Hat in J3.
  rewrite (ex_at _ ts i t Hi) in I2.
  cases t s Ha.
  all: split; fields; rewrite ?(ex_at_insert _ ts i _ _ Hi); fields; try done.
  all: try (intros j; rewrite (is_at_insert _ ts i _ _ _ Hi); case_bool_decide; subst; fields).
  all: try (intros k; rewrite (is_at_insert _ ts i _ _ _ Hi); case_bool_decide; subst; fields).
  all: try done; try congruence; try tauto; auto.
  all: try first [exact (I4 j)|exact (I5 j)|intros Hj; specialize (J3 j eq_refl Hj); congruence].
  - intros _ Hk. specialize (I8 k Hk). congruence.
  - intros Hj _. specialize (I8 j Hj). congruence.
  - rewrite (J4 eq_refl). by rewrite I7.
Qed.

Lemma step_srv s ts i b t t' s' : inv_stop s ts -> inv_srv s ts -> ts !! i = Some t -> thread_step i b t s = Some (t', s') -> inv_srv s' (<[i := t']> ts).
Proof.
  intros [H1 _ _ _ H5 H6 _] [I1 I2 I3 I4] Hi Ha.
  assert (forall j o, ts !! j = Some (ShutStop o) -> shuttingDown s = true) as H7 by (intros j o Hj; apply (H5 j); unfold is_at; by rewrite Hj).
  assert (forall j, is_at stopped ts j = true -> shuttingDown s = true) as H8.
  { intros j Hj. apply (H5 j). revert Hj. apply is_at_mono. by intros []. }
  pose proof (I1 i) as J1. pose proof (fun o => I3 i o) as J3. pose proof (I4 i) as J4. pose proof (H5 i) as G5.
  assert (forall f, is_at f ts i = f t) as Hat by (intros f; unfold is_at; by rewrite Hi). rewrite Hat in J1, J4, G5. rewrite Hi in J3.
  cases t s Ha.
  all: split; fields; try done.
  all: try (intros j; rewrite (is_at_insert _ ts i _ _ _ Hi); destruct (bool_decide_reflect (j = i)); subst; fields).
  all: try (intros j o' Hj; apply list_lookup_insert_Some in Hj as [(? & Hj & _)|[_ Hj]]; [subst; try discriminate Hj|]).
  all: try done; try congruence; try tauto; auto.
  all: try first [exact (I1 j)|exact (I4 j)|exact (I3 j _ Hj)].
  - symmetry in I2. apply bool_decide_eq_false in I2. assert (v = None) as -> by (by apply dec_stable). rewrite I1. naive_solver.
  - specialize (H7 j o' Hj). congruence.
  - naive_solver.
  - naive_solver.
  - left. symmetry. by apply J3.
Qed.

Lemma holds_stopping ts j : is_at (holds true) ts j = is_at (holds false) ts j && negb (is_at is_serving ts j).
Proof. unfold is_at. by destruct (ts !! j) as [[]|]. Qed.

Lemma step_sock s ts i b t t' s' :
  inv_srv s ts -> inv_sock s ts -> ts !! i = Some t -> thread_step i b t s = Some (t', s') -> inv_sock s' (<[i := t']> ts).
Proof.
  intros [H1 _ H3 _] [I1 I2 I3] Hi Ha.
  assert (forall j, is_at is_serving ts j = true -> srv s = Some j) as H4.
  { intros j Hj. apply H1. revert Hj. apply is_at_mono. by intros []. }
  pose proof (I1 i) as J1. pose proof (I2 i) as J2. pose proof (H4 i) as G4. pose proof (fun o => H3 i o) as G3.
  assert (forall f, is_at f ts i = f t) as Hat by (intros f; unfold is_at; by rewrite Hi). rewrite Hat in J1, J2, G4. rewrite Hi in G3.
  pose proof I3 as I3'. rewrite (ex_at _ ts i t Hi) in I3.
  cases t s Ha.
  all: split; fields; rewrite ?(ex_at_insert _ ts i _ _ Hi); fields; try done.
  all: try (intros j; rewrite (is_at_insert _ ts i _ _ _ Hi); destruct (bool_decide_reflect (j = i)); subst; fields).
  all: rewrite ?elem_of_union, ?elem_of_difference, ?elem_of_singleton.
  all: try done; try congruence; try tauto; auto.
  all: try first [exact (I1 j)|exact (I2 j)|rewrite (I1 j); tauto].
  - naive_solver.
  - naive_solver.
  - intros Hr. destruct (I3 Hr). congruence.
  - naive_solver.
  - intros Hj _. specialize (H4 j Hj). rewrite (G4 eq_refl) in H4. congruence.
  - naive_solver.
  - destruct (I3' eq_refl) as [-> [k Hk]]. pose proof (G3 _ eq_refl) as Hv. rewrite (I1 j), holds_stopping.
    assert (is_at is_serving ts j = bool_decide (j = o)) as ->; [|case_bool_decide; destruct (is_at _ ts j); naive_solver].
    pose proof (H4 k Hk) as Hv'. assert (k = o) as -> by congruence. case_bool_decide as Hj; [by rewrite Hj|].
    destruct (is_at is_serving ts j) eqn:E; [|done]. specialize (H4 j E). congruence.
  - rewrite (I1 j), holds_stopping. destruct ish; rewrite ?holds_stopping; [done|].
    destruct (is_at is_serving ts j) eqn:E; [by specialize (I2 j E eq_refl)|]. by rewrite andb_true_r.
Qed.

(** *** What it guarantees *)

Lemma rtc_inv c c' : rtc step c c' -> inv_stop c.1 c.2 -> inv_srv c.1 c.2 -> inv_sock c.1 c.2 ->
  inv_stop c'.1 c'.2 /\ inv_srv c'.1 c'.2 /\ inv_sock c'.1 c'.2.
Proof.
  induction 1 as [|c c1 c2 Hstep _ IH]; [done|]. intros A B C. inversion Hstep as [s ts i b t t' s' Hi Ha]; subst. cbn [fst snd] in *.
  apply IH; [by eapply step_stop|by eapply step_srv|by eapply step_sock].
Qed.
Lemma calls_inv ts : calls ts -> inv_stop initial ts /\ inv_srv initial ts /\ inv_sock initial ts.
Proof.
  intros H. unfold calls in H. rewrite Forall_lookup in H.
  assert (forall f j, f StartEnter = false -> f ShutEnter = false -> is_at f ts j = false) as Hat.
  { intros f j H1 H2. unfold is_at. destruct (ts !! j) as [t|] eqn:E; [|done]. by destruct (H j t E) as [-> | ->]. }
  split_and!; split; cbn [initial srv started shutdownRequested shuttingDown shutdownDone inShutdown registered sockets panicked]; try done.
  all: try (intros j; rewrite Hat by done; set_solver).
  - naive_solver.
  - intros j o Hj. by destruct (H j _ Hj).
Qed.

(** A call stays the call it is, and takes at most five steps. *)
Lemma rtc_kind c c' : rtc step c c' -> map is_shut c'.2 = map is_shut c.2.
Proof.
  induction 1 as [|c c1 c2 Hstep _ IH]; [done|]. rewrite IH. inversion Hstep as [s ts i b t t' s' Hi Ha]; subst. cbn [snd].
  rewrite list_fmap_insert. apply list_insert_id. rewrite list_lookup_fmap, Hi. cbn. f_equal. clear Hi Hstep.
  cases t s Ha; done.
Qed.
Definition rank (t : thread) : nat :=
  match t with
  | StartEnter => 5 | StartListen => 4 | StartBound => 3 | StartClose _ | ServeEnter => 2 | Serving => 1 | StartDone _ | ServeDone => 0
  | ShutEnter => 3 | ShutWait | ShutStop _ => 2 | ShutFinish _ => 1 | ShutDone _ => 0
  end.
Lemma step_total c c' : step c c' -> (sum_list_with rank c'.2 < sum_list_with rank c.2)%nat.
Proof.
  intros Hstep. inversion Hstep as [s ts i b t t' s' Hi Ha]; subst. cbn [snd]. pose proof (sum_list_with_insert rank ts i t t' Hi) as Ht.
  cut (rank t' < rank t)%nat; [lia|]. clear Ht Hi Hstep. cases t s Ha; cbn; lia.
Qed.
Lemma total_calls ts : calls ts -> (sum_list_with rank ts <= 5 * length ts)%nat.
Proof. induction 1 as [|t ts [-> | ->] _ IH]; cbn in *; lia. Qed.

(** C35: no shutdown is lost and no socket leaks.  For any number of concurrent [Start] and
    [Shutdown] calls in any interleaving, whatever binds, accept loops and stops do: every
    execution ends after at most five steps a call; the channel the waiters wait on is closed at
    most once; at most one call ever serves; once a shutdown is done, no socket that is served
    is open.  And when nothing can move any more, every [Shutdown] has returned, so no waiter is
    stuck, and if there was one at all no socket is open, not even one a [Start] was binding
    while the request came in. *)
Theorem shutdown_not_lost n ts s' ts' :
  calls ts -> nsteps step n (initial, ts) (s', ts') ->
  (n <= 5 * length ts)%nat /\ panicked s' = false /\
  (forall i j, is_at serves ts' i = true -> is_at serves ts' j = true -> i = j) /\
  (shutdownDone s' = true -> forall i, ts' !! i = Some Serving -> i ∉ sockets s') /\
  (quiescent (s', ts') ->
     (forall i t, ts' !! i = Some t -> is_shut t = true -> exists e, t = ShutDone e) /\
     (ShutEnter ∈ ts -> sockets s' = ∅)).
Proof.
  intros Hc Hn. destruct (calls_inv ts Hc) as (A & B & C). pose proof (nsteps_measure step (fun c => sum_list_with rank c.2) _ _ _ step_total Hn) as Ht. pose proof (total_calls ts Hc) as Hc'.
  assert (rtc step (initial, ts) (s', ts')) as Hr by (by eapply rtc_nsteps_2). pose proof (rtc_kind _ _ Hr) as Hk.
  destruct (rtc_inv _ _ Hr A B C) as (A' & B' & C'). cbn [fst snd] in *. clear A B C.
  assert (shutdownDone s' = true -> forall j, is_at is_serving ts' j = true -> j ∉ sockets s') as Hdone.
  { intros Hd j Hj Hs. destruct (i_stopped _ _ B' j (or_introl Hd)) as [Hv|Hs'].
    - assert (srv s' = Some j) as Hj' by (apply (i_srv _ _ B'); revert Hj; apply is_at_mono; by intros []). congruence.
    - apply (i_sockets _ _ C') in Hs. rewrite Hs', holds_stopping, Hj in Hs. rewrite andb_false_r in Hs. discriminate Hs. }
  split; [lia|]. split; [exact (i_panicked _ _ A')|]. split; [|split].
  - intros i j Hi Hj. apply (i_srv _ _ B') in Hi, Hj. congruence.
  - intros Hd i Hi. apply Hdone; [done|]. unfold is_at. by rewrite Hi.
  - intros Hq. assert (shuttingDown s' = true -> shutdownDone s' = true) as Hd.
    { intros Hs. destruct (i_owner _ _ A' Hs) as [Hd|[j Hj]]; [done|]. exfalso. unfold is_at in Hj.
      destruct (ts' !! j) as [[]|] eqn:E; try discriminate Hj; specialize (Hq j _ E); cbn in Hq; [by destruct srv0|done]. }
    assert (forall i t, ts' !! i = Some t -> is_shut t = true -> exists e, t = ShutDone e) as Hshut.
    { intros i t Hi Hs. pose proof (Hq i t Hi) as Hq'. destruct t as [| | | | | | | | | |[]| |e]; try discriminate Hs; try discriminate Hq'; [| |by exists e].
      - cbn in Hq'. destruct (shutdownDone s'); [discriminate Hq'|]. by destruct (shuttingDown s').
      - assert (is_at begun ts' i = true) as Hb by (unfold is_at; by rewrite Hi). apply (i_begun _ _ A') in Hb.
        cbn in Hq'. by rewrite (Hd Hb) in Hq'. }
    split; [exact Hshut|]. intros Hin. assert (true ∈ map is_shut ts') as Hm by (rewrite Hk; apply list_elem_of_fmap; by exists ShutEnter).
    apply list_elem_of_fmap in Hm as (t & Hm & Hit). apply list_elem_of_lookup in Hit as [i Hi]. destruct (Hshut i t Hi (eq_sym Hm)) as [e ->].
    assert (shutdownDone s' = true) as Hdn by (apply Hd, (i_begun _ _ A' i); unfold is_at; by rewrite Hi).
    apply set_eq. intros j. split; [|set_solver]. intros Hj. exfalso. pose proof Hj as Hh. apply (i_sockets _ _ C') in Hh.
    destruct (is_at is_serving ts' j) eqn:E; [by eapply Hdone|]. unfold is_at in Hh, E.
    destruct (ts' !! j) as [[]|] eqn:Ej; try discriminate Hh; try discriminate E; specialize (Hq j _ Ej); cbn in Hq; try discriminate Hq.
    + destruct (started s'); [done|]. by destruct (shutdownRequested s').
    + by destruct (inShutdown s').
Qed.

(** A schedule: which call moves next, and whether what it waits for ends badly. *)
Fixpoint schedule (l : list (nat * bool)) (c : shared * list thread) : option (shared * list thread) :=
  match l with
  | [] => Some c
  | (i, b) :: l => t ← c.2 !! i; '(t', s') ← thread_step i b t c.1; schedule l (s', <[i := t']> c.2)
  end.
Lemma schedule_nsteps l : forall c c', schedule l c = Some c' -> nsteps step (length l) c c'.
Proof.
  induction l as [|[i b] l IH]; intros [s ts] c'; cbn [schedule fst snd length]; [intros [= <-]; constructor|].
  destruct (ts !! i) as [t|] eqn:Hi; [|done]. cbn [mbind option_bind]. destruct (thread_step i b t s) as [[t' s']|] eqn:Ha; [|done].
  intros Hl. econstructor; [by econstructor|by apply IH].
Qed.

(** A shutdown requested while a start is binding; a second shutdown waits for the first. *)
Definition race : list (nat * bool) :=
  [(0, false); (0, false); (1, false); (2, false); (0, false); (1, false); (0, false); (1, false); (2, false)]%nat.
Definition race_end : shared :=
  {| srv := None; started := false; shutdownRequested := true; shuttingDown := true; shutdownDone := true; shutdownErr := false;
     serveErr := false; inShutdown := false; registered := false; sockets := ∅; panicked := false |}.

Lemma shutdown_not_lost_witness :
  exists s' ts', schedule race (initial, [StartEnter; ShutEnter; ShutEnter]) = Some (s', ts') /\
    ts' = [StartDone false; ShutDone false; ShutDone false] /\ sockets s' = ∅.
Proof.
  pose (c := default (initial, []) (schedule race (initial, [StartEnter; ShutEnter; ShutEnter]))).
  assert (schedule race (initial, [StartEnter; ShutEnter; ShutEnter]) = Some c) as Hc by (vm_compute; reflexivity).
  exists c.1, c.2. split; [exact Hc|]. split; [vm_compute; reflexivity|].
  refine (proj2 (proj2 (proj2 (proj2 (proj2 (shutdown_not_lost _ [StartEnter; ShutEnter; ShutEnter] c.1 c.2 _ _)))) _) _).
  - constructor; [left; reflexivity|]. constructor; [right; reflexivity|]. constructor; [right; reflexivity|constructor].
  - exact (schedule_nsteps _ _ _ Hc).
  - intros i t Hi. cbn [snd] in Hi. change c.2 with [StartDone false; ShutDone false; ShutDone false] in Hi.
    destruct i as [|[|[|i]]]; cbn in Hi; [injection Hi as <-; reflexivity..|discriminate Hi].
  - right. left.
Defined.
End Lifecycle.

(** ** The bind address *)

Section Bind.
Context `{U : Unicode}.

Lemma validateBindAddr_None a : validateBindAddr a = None <->
  a <> [] /\ EqualFold a "localhost" = false /\ forall ip, ParseIP a = Some ip -> IsLoopback ip = false.
Proof.
  unfold validateBindAddr, isLoopbackHost. destruct (str_eqb a []) eqn:E.
  - apply str_eqb_eq in E as ->. naive_solver.
  - apply str_eqb_neq in E. destruct (EqualFold a "localhost"); [naive_solver|].
    destruct (ParseIP a) as [ip|]; [|by split].
    destruct (IsLoopback ip) eqn:El; split; try done.
    + intros (_ & _ & H). specialize (H ip eq_refl). congruence.
    + intros _. split_and!; [done..|]. by intros ? [= <-].
Qed.

(** What is bound is the configured host, or the pod IP when it is blank, on the configured port
    or 15020; blank hosts and loopback addresses are errors. *)
Lemma NewControlPlaneServerFromConfig_spec getenv cp s :
  NewControlPlaneServerFromConfig getenv cp true = Ok s ->
  (s_bindAddr s = TrimSpace (cp_Address cp) \/ TrimSpace (cp_Address cp) = [] /\ s_bindAddr s = TrimSpace (getenv PodIPEnv)) /\
  s_port s = EffectivePort cp /\ validateBindAddr (s_bindAddr s) = None.
Proof.
  unfold NewControlPlaneServerFromConfig, NewControlPlaneServer, EffectivePort. cbn [negb].
  set (host := if str_eqb (TrimSpace (cp_Address cp)) [] then _ else _). intros H.
  destruct (str_eqb host []); [done|]. destruct (validateBindAddr host) eqn:Ev; [done|]. injection H as <-. cbn [s_bindAddr s_port].
  split_and!; [|by destruct (cp_Port cp =? 0)|done]. subst host. destruct (str_eqb (TrimSpace (cp_Address cp)) []) eqn:E; [|by left].
  apply str_eqb_eq in E. by right.
Qed.
End Bind.

(** The refusal reads the text: an IPv6 loopback with a zone and the wildcard address pass it,
    although both are reachable on the loopback of the pod. *)
Lemma loopback_reachable_hosts_accepted :
  map (validateBindAddr (U := ascii_only)) [bs "::1"; bs "::ffff:127.0.0.1"; bs "LocalHost"; bs "127.8.9.1"; bs "::1%lo"; bs "0.0.0.0"; bs "10.1.2.3"]
  = [Some ErrLoopbackBindAddress; Some ErrLoopbackBindAddress; Some ErrLoopbackBindAddress; Some ErrLoopbackBindAddress; None; None; None].
Proof. vm_compute. reflexivity. Qed.

(** ** The probes *)

(** The body of a probe is one of a fixed list whatever reason the source gives, a ready answer
    needs a GET and a ready source, and an unavailable audit log makes it not ready. *)
Lemma readyz_closed st method :
  (pr_status (readyzHandler st method) = 200 <-> method = bs "GET" /\ ps_Ready st = true) /\
  pr_body (readyzHandler st method) ∈
    map (fun b => b ++ [chr_lf]) [bs "ready"; bs "starting"; bs "shutting down"; bs "audit_unavailable"; bs "not ready"; bs "method not allowed"].
Proof.
  unfold readyzHandler, methodNotAllowed, degradedReason. destruct (str_eqb method "GET") eqn:Em; cbn [negb].
  - apply str_eqb_eq in Em as ->. destruct (ps_Ready st); cbn [writeProbe pr_status pr_body].
    + split; [done|]. by apply (bool_decide_unpack _).
    + split; [naive_solver|]. destruct (existsb (str_eqb (ps_Reason st)) degradedReasons) eqn:E; [|by apply (bool_decide_unpack _)].
      apply existsb_exists in E as (r & Hr & ->%str_eqb_eq). cbn in Hr. decompose [or False] Hr; subst; by apply (bool_decide_unpack _).
  - apply str_eqb_neq in Em. split; [naive_solver|]. by apply (bool_decide_unpack _).
Qed.
Lemma Aggregator_unready a : pa_auditReady a = false -> forall method, pr_status (readyzHandler (Aggregator_Ready a) method) <> 200.
Proof.
  intros Ha method H. apply readyz_closed in H as [_ H]. unfold Aggregator_Ready in H. rewrite Ha in H.
  destruct (pa_base a) as [[st lv]|]; discriminate H.
Qed.
