(* ===== verification/Assembly.v ===== *)
(** * [internal/runtime/assembly.go]: the data plane put together

    [assemble] with the constants and option values of the file, and the process it makes: policy store, token
    cache, guarded acquirer, identity provider and audit stream as the services of the pipeline.  The other
    goroutines of the process (other connections, background refreshes, the policy watcher) may act before every
    action of this one, and between the critical sections of [TokenCache.Get]; what they may do is the class [Others].  The
    guarded acquirer is one action: its breaker and negative cache only decide whether an exchange is made. *)

From S2P Require Import Prelude GoStrings GoRuntime Canonicalize Compile Match Credential LRU TokenGuard TokenCache Decision Stages Runner PolicyStore Enforcement Limits RawHead Validate Handler EndToEnd ServerName Metrics Upstream AuditRecord StreamSink LeafSource Terminator Capture GoParse Config Entra Orchestrator.
#[local] Open Scope Z_scope.

(** ** Constants and options *)

Definition rejectionAuditConcurrency : Z := 64.
Definition rejectionAuditTimeout : Duration := 250 * Millisecond.
Definition breakerThreshold : Z := 5.
Definition breakerProbeIntervalSec : Z := 30.
Definition negativeCacheEntries : Z := 256.
Definition negativeCacheTTL : Duration := 30 * Second.
Definition tokenCacheEntries : Z := 256.

(** The trust pool is not part of the modelled options. *)
Definition upstreamOptions : UpstreamOptions :=
  {| Upstream.DialTimeout := 15 * Second; Upstream.HandshakeTimeout := 15 * Second; MaxConcurrentDials := 256; Upstream.ProxyUID := proxyUID;
     ListenerPort := 0; Upstream.NextProtos := [bs "http/1.1"] |}.

(** ** [requestpath.NewHandler] *)

Record RequestHandler := { rh_limiter : Limiter; rh_reject : RejectionRecorder; rh_opts : Limits.Options }.
Inductive handler_error := PipelineRequired | DialerRequired | SinkRequired | MetricsRequired | InvalidHandlerOptions (bound : gostring).

(** The flags say whether an argument is not nil. *)
Definition NewHandler (p dialer sink metrics : bool) (opts : Limits.Options) : result handler_error RequestHandler :=
  if negb p then Err PipelineRequired
  else if negb dialer then Err DialerRequired
  else if negb sink then Err SinkRequired
  else if negb metrics then Err MetricsRequired
  else match Limits.Options_Validate opts with
       | Some e => Err (InvalidHandlerOptions e)
       | None => Ok {| rh_limiter := NewLimiter (MaxInflightRequests opts);
                       rh_reject := NewRejectionRecorder (MaxRejectionAudits opts) (RejectionAuditTimeout opts); rh_opts := opts |}
       end.

(** ** [assemble] *)

Inductive assemble_error :=
| LeafSourceFailed (e : source_error) | TerminatorFailed (e : terminator_error) | AcquirerFailed (e : entra_error)
| DialerFailed (e : new_error) | HandlerFailed (e : handler_error).

Section Assemble.
Context `{U : Unicode} `{S : Sha256} `{N : NetURL} {W : Type} `{C : Clock W} {E : Type} `{V : Services E}.
(** The exchange of an acquirer, and the certificates of a leaf source. *)
Context (exchange : Acquirer -> W -> ResolvedCredential -> W * result error Token).
Context (CertificateFor : CachedLeafSource -> gostring -> result cert_error leaf).

Record assembly := {
  as_leafSource : CachedLeafSource;
  as_terminator : tlsTerminator;
  as_guarded : runtimeTokenAcquirer W;
  as_tokenCache : CachingTokenCache;
  as_pipeline : Pipeline E;
  as_dialer : DirectDialer;
  as_rejectionRecorder : RejectionRecorder;
  as_handler : RequestHandler
}.

Definition audit_identity (cfg : Config) : AuditIdentity :=
  {| PodNamespace := po_Namespace (c_Pod cfg); PodName := po_Name (c_Pod cfg); PodUID := po_UID (c_Pod cfg);
     ServiceAccount := po_ServiceAccount (c_Pod cfg) |}.

(** [ca], [sink] and [metrics]: whether they are not nil. *)
Definition assemble (cfg : Config) (ca sink metrics : bool) : result assemble_error assembly :=
  match NewCachedLeafSource ca leafOptions with
  | Err e => Err (LeafSourceFailed e)
  | Ok leaf =>
      match NewTerminator (Some (CertificateFor leaf)) leafOptions with
      | Err e => Err (TerminatorFailed e)
      | Ok term =>
          match NewAcquirer (entra_options cfg) with
          | Err e => Err (AcquirerFailed e)
          | Ok acquirer =>
              let guarded := {| aq_Base := Some (exchange acquirer); aq_Breaker := Some (NewBreaker breakerThreshold breakerProbeIntervalSec);
                                aq_Negative := Some (NewNegativeCache negativeCacheEntries negativeCacheTTL); aq_Metrics := None |} in
              let tokenCache := NewTokenCache tokenCacheEntries in
              let pl := production (pc_MaxStaleness (c_Policy cfg)) (audit_identity cfg) in
              match NewDirectDialer upstreamOptions true metrics with
              | Err e => Err (DialerFailed e)
              | Ok dialer =>
                  match NewHandler true true sink metrics Limits.DefaultOptions with
                  | Err e => Err (HandlerFailed e)
                  | Ok handler =>
                      Ok {| as_leafSource := leaf; as_terminator := term; as_guarded := guarded; as_tokenCache := tokenCache; as_pipeline := pl;
                            as_dialer := dialer; as_rejectionRecorder := NewRejectionRecorder rejectionAuditConcurrency rejectionAuditTimeout;
                            as_handler := handler |}
                  end
              end
          end
      end
  end.

(** Assembly cannot fail after the gates: for a configuration that was trimmed and validated, with a CA,
    a sink and a recorder, every constructor accepts the options it is given, and the bounds in force are these. *)
Theorem assemble_succeeds cfg : Validate cfg = None ->
  TrimSpace (ec_Authority (tc_Entra (c_Token cfg))) = ec_Authority (tc_Entra (c_Token cfg)) ->
  exists a acquirer, assemble cfg true true true = Ok a /\ NewAcquirer (entra_options cfg) = Ok acquirer /\
    aq_Base (as_guarded a) = Some (exchange acquirer) /\
    as_pipeline a = production (pc_MaxStaleness (c_Policy cfg)) (audit_identity cfg) /\
    tc_ok (as_tokenCache a) /\ tc_maxEntries (as_tokenCache a) = 256%nat /\ sem_cap (as_dialer a) = 256%nat /\
    capacity (rh_limiter (as_handler a)) = 2048%nat /\ rr_cap (as_rejectionRecorder a) = 64%nat /\
    nextProtos (as_dialer a) = lo_NextProtos leafOptions.
Proof.
  intros Hv Ht. destruct (accepted_acquirer cfg Hv Ht) as (acquirer & Ha & _). unfold assemble.
  assert (LeafOptions_Validate leafOptions = None) as Hl by (vm_compute; reflexivity).
  unfold NewCachedLeafSource, NewTerminator. cbn [negb]. rewrite Hl, Ha. cbn - [Limits.DefaultOptions production NewTokenCache NewLimiter NewRejectionRecorder].
  eexists _, acquirer. split_and!; try reflexivity. apply NewTokenCache_ok.
Qed.
End Assemble.

(** ** The process *)

(** Outside the process: the clock, the identity provider with the file of the projected token, and stdout.
    [w_ctxErr] is the error of the context under which a record is written. *)
Class World (W : Type) := {
  w_clock :: Clock W;
  w_entra : W -> EntraEnv;
  w_ctxErr : W -> option error;
  w_write : W -> gostring -> W * written;
  w_write_honest : forall w data, honest data (w_write w data).2;
  w_write_time : forall w data, (Now w).1 <= (Now (w_write w data).1).1
}.

Section Process.
Context `{U : Unicode} `{S : Sha256} `{N : NetURL} `{J : JSON} (format : Time -> gostring) {W : Type} `{WW : World W}.

(** The world, with a journal of the exchanges that the process has made: the world in which one was made, the credential and the
    result. *)
Definition journal : Type := list (W * ResolvedCredential * result error Token).
Definition journaled : Type := W * journal.
#[program] Definition journaled_clock : Clock journaled := {| Now x := let '(t, w) := Now x.1 in (t, (w, x.2)) |}.
Next Obligation. intros [w j]. cbn. pose proof (Now_mono w) as Hm. destruct (Now w) as [t w']. cbn in *. by destruct (Now w'). Qed.
#[local] Existing Instance journaled_clock.

(** [Acquire] against the provider as it is now; the clock is read after the exchange. *)
Definition answered (a : Acquirer) (w : W) (rc : ResolvedCredential) : result error Token := (Entra.Acquire (E := w_entra w) a rc (Now w).1).1.
Definition exchange (a : Acquirer) (x : journaled) (rc : ResolvedCredential) : journaled * result error Token :=
  (((Now x.1).2, x.2 ++ [(x.1, rc, answered a x.1 rc)]), answered a x.1 rc).

(** The state of the guarded acquirer; its provider is fixed and it has no metrics. *)
Record guard := { g_breaker : Breaker; g_negative : NegativeCache }.
Definition guard_acquirer (a : Acquirer) (g : guard) : runtimeTokenAcquirer journaled :=
  {| aq_Base := Some (exchange a); aq_Breaker := Some (g_breaker g); aq_Negative := Some (g_negative g); aq_Metrics := None |}.
Definition guard_after (g : guard) (a : runtimeTokenAcquirer journaled) : guard :=
  {| g_breaker := default (g_breaker g) (aq_Breaker a); g_negative := default (g_negative g) (aq_Negative a) |}.

Record process := { ps_world : journaled; ps_store : Store; ps_cache : CachingTokenCache; ps_guard : guard; ps_out : StreamSink }.
Definition ps_set_world (p : process) (w : journaled) : process :=
  {| ps_world := w; ps_store := ps_store p; ps_cache := ps_cache p; ps_guard := ps_guard p; ps_out := ps_out p |}.
Definition ps_set_cache (p : process) (c : CachingTokenCache) : process :=
  {| ps_world := ps_world p; ps_store := ps_store p; ps_cache := c; ps_guard := ps_guard p; ps_out := ps_out p |}.

Context (acquirer : Acquirer).

(** The journal has an exchange for this credential that returned this token. *)
Definition issued (j : journal) (rc : ResolvedCredential) (tok : Token) : Prop := exists w, (w, rc, Ok tok) ∈ j.
Definition time (x : journaled) : Time := (Now x).1.

(** The invariant of the process: the store holds what was published, the cache is well formed and holds tokens of the journal
    under their own identity, and the journal holds what the provider answered. *)
Record good (p : process) : Prop := {
  good_store : exists l, ps_store p = swaps l;
  good_cache : tc_ok (ps_cache p);
  good_issued : entries_P (issued (ps_world p).2) (ps_cache p);
  good_journal : Forall (fun x => x.2 = answered acquirer x.1.1 x.1.2) (ps_world p).2
}.

(** The store has had these publications since. *)
Definition published (pubs : list (option compiledSnapshot * Time)) (s s' : Store) : Prop :=
  s' = fold_left (fun s x => Swap x.1 x.2 s) pubs s.

(** What may happen to the process: the invariant is kept, the stream and the journal grow, the store changes by publications,
    and time does not run backwards. *)
Record grows (p p' : process) : Prop := {
  grows_out : ss_written (ps_out p) `prefix_of` ss_written (ps_out p');
  grows_journal : (ps_world p).2 `prefix_of` (ps_world p').2;
  grows_store : exists pubs, published pubs (ps_store p) (ps_store p');
  grows_time : time (ps_world p) <= time (ps_world p')
}.
Definition onward (p p' : process) : Prop := good p -> good p' /\ grows p p'.

(** What the other goroutines may do.  [await]: the process and the fields of a call in flight once it is done, a token of the journal
    and of the identity of the call, or the error of the waiting context. *)
Class Others := {
  others : process -> process;
  others_onward : forall p, onward p (others p);
  others_time : forall p, time (ps_world p) <= time (ps_world (others p));
  await : process -> nat -> process * result error (Token * ResolvedCredential);
  await_onward : forall p n, onward p (await p n).1;
  await_issued : forall p id n p' tok rc, good p -> inflight (ps_cache p) !! id = Some n -> await p n = (p', Ok (tok, rc)) ->
    issued (ps_world p').2 rc tok /\ Identity rc = id
}.
Context `{O : Others}.

#[local] Instance grows_preorder : PreOrder grows.
Proof.
  split.
  - intros p. split; [done|done|by exists []|lia].
  - intros p q r [P1 P2 [l1 P3] P4] [Q1 Q2 [l2 Q3] Q4]. split; [by etrans|by etrans| |lia].
    exists (l1 ++ l2). unfold published in *. by rewrite fold_left_app, <- P3.
Qed.
#[local] Instance onward_preorder : PreOrder onward.
Proof.
  split; [by intros p Hp|]. intros p q r H1 H2 Hp. destruct (H1 Hp) as [Hq P1]. destruct (H2 Hq) as [Hr P2]. split; [done|by etrans].
Qed.

Lemma issued_more j j' rc tok : j `prefix_of` j' -> issued j rc tok -> issued j' rc tok.
Proof. intros [k ->] [w Hw]. exists w. apply elem_of_app. by left. Qed.
Lemma time_now (x : journaled) : time x <= time (Now x).2.
Proof. apply Now_mono. Qed.
Lemma now_journal (x : journaled) : (Now x).2.2 = x.2.
Proof. cbn. by destruct (Now x.1). Qed.

(** A new world with the same journal and a later clock. *)
Lemma onward_world p w : time (ps_world p) <= time w -> w.2 = (ps_world p).2 -> onward p (ps_set_world p w).
Proof.
  intros Ht Hj [H1 H2 H3 H4]. split; [split; cbn; rewrite ?Hj; done|]. split; cbn; [done|by rewrite Hj|by exists []|done].
Qed.
(** A new cache that keeps the cache's invariant. *)
Lemma onward_cache p c : (good p -> tc_ok c /\ entries_P (issued (ps_world p).2) c) -> onward p (ps_set_cache p c).
Proof. intros Hc Hp. destruct (Hc Hp) as [H1 H2]. destruct Hp as [H3 _ _ H4]. split; [by split|]. split; cbn; [done|done|by exists []|lia]. Qed.

(** ** The services *)

Definition process_now (p : process) : Time * process :=
  let p := others p in let '(t, w) := Now (ps_world p) in (t, ps_set_world p w).

Lemma onward_now p : onward p (process_now p).2.
Proof.
  unfold process_now. pose proof (time_now (ps_world (others p))) as Ht. pose proof (now_journal (ps_world (others p))) as Hj.
  destruct (Now (ps_world (others p))) as [t w]. cbn [snd] in *. etrans; [apply others_onward|]. by apply onward_world.
Qed.
Lemma process_now_time p : time (ps_world p) <= (process_now p).1 <= time (ps_world (process_now p).2).
Proof.
  pose proof (others_time p) as To. unfold process_now. pose proof (time_now (ps_world (others p))) as Ht.
  unfold time in *. destruct (Now (ps_world (others p))) as [t w]. cbn [fst snd ps_world ps_set_world] in *. lia.
Qed.

#[program] Definition process_clock : Clock process := {| Now := process_now |}.
Next Obligation. intros p. pose proof (process_now_time p). pose proof (process_now_time (process_now p).2). lia. Qed.

(** [Store.Current] of the published store. *)
Definition process_current (p : process) : process * option (compiledSnapshot * Duration) :=
  let p := others p in let '(now, w) := Now (ps_world p) in (ps_set_world p w, Current now (ps_store p)).

Definition guarded_acquire (x : guard * journaled) (rc : ResolvedCredential) : (guard * journaled) * result error Token :=
  let '(a, w, r) := aq_Acquire (guard_acquirer acquirer x.1) x.2 rc in ((guard_after x.1 a, w), r).
(** [finishAcquire]: the exchange, the store and the publication of the call. *)
Definition process_finish (p : process) (resolved : ResolvedCredential) : process * result error Token :=
  let p := others p in
  let '(g, w, r) := guarded_acquire (ps_guard p, ps_world p) resolved in
  let p := {| ps_world := w; ps_store := ps_store p; ps_cache := ps_cache p; ps_guard := g; ps_out := ps_out p |} in
  let '(p, r) := match r with
                 | Err err => (p, Err err)
                 | Ok tok => let '(now, p) := process_now p in
                             let p := others p in
                             let '(c, r) := finish_store now resolved (Ok tok) (ps_cache p) in (ps_set_cache p c, r)
                 end in
  let p := others p in (ps_set_cache p (finish_publish (Identity resolved) (ps_cache p)), r).

(** The look-up of [TokenCache.Get]: the time, the process when the cache is open again, and the hit. *)
Definition process_lookup (p : process) (resolved : ResolvedCredential) : Time * process * option TokenResult :=
  let '(now, p) := process_now p in
  let p := others p in
  let '(c, hit) := getCached (Identity resolved) now (ps_cache p) in
  (now, others (ps_set_cache p c), hit).

(** [TokenCache.Get], a critical section at a time. *)
Definition process_get (p : process) (sel : CredentialSelector) : process * result error TokenResult :=
  match Credential.Resolve sel with
  | Err e => (p, Err (resolve_to_error e))
  | Ok resolved =>
      let '(now, p, hit) := process_lookup p resolved in
      match hit with
      | Some result => let '(c, _) := maybeRefresh resolved now (ps_cache p) in (ps_set_cache p c, Ok result)
      | None =>
          let '(c, call, leader) := startAcquire (Identity resolved) (ps_cache p) in
          let p := ps_set_cache p c in
          if leader then
            let '(p, r) := process_finish p resolved in
            (p, match r with Err err => Err err | Ok token => Ok {| tr_Token := token; tr_Resolved := resolved; tr_CacheHit := false |} end)
          else
            let '(p, r) := await p call in
            (p, match r with Err err => Err err | Ok (token, resolved) => Ok {| tr_Token := token; tr_Resolved := resolved; tr_CacheHit := false |} end)
      end
  end.

(** [StreamSink.Record] on stdout. *)
Definition process_record (p : process) (ev : AuditEvent) : process * option error :=
  let p := others p in
  let '(now, w) := if IsZero (ev_Timestamp ev) then Now (ps_world p) else (ev_Timestamp ev, ps_world p) in
  let '(w, wr) := match StreamSink.Encode format (withTimestamp now ev) with
                  | Ok data => let '(w', wr) := w_write w.1 data in ((w', w.2), wr)
                  | Err _ => (w, (0%nat, None))
                  end in
  let '(out, err) := Record_ format (w_ctxErr (ps_world p).1) now (fun _ => wr) ev (ps_out p) in
  ({| ps_world := (match w_ctxErr (ps_world p).1 with Some _ => ps_world p | None => w end); ps_store := ps_store p; ps_cache := ps_cache p; ps_guard := ps_guard p;
      ps_out := out |}, err).

(** ** What the services keep *)

(** The process as [assemble] makes it, over a store in which the watcher has published, satisfies the invariant. *)
Lemma assembled_start {E} `{V : Services E} CertificateFor cfg a w l : assemble (E := E) exchange CertificateFor cfg true true true = Ok a ->
  NewAcquirer (entra_options cfg) = Ok acquirer ->
  exists g, as_guarded a = guard_acquirer acquirer g /\
    good {| ps_world := (w, []); ps_store := swaps l; ps_cache := as_tokenCache a; ps_guard := g; ps_out := NewStreamSink |}.
Proof.
  unfold assemble. intros Ha Hq. rewrite Hq in Ha. repeat (case_match; try done). simplify_eq/=.
  exists {| g_breaker := NewBreaker breakerThreshold breakerProbeIntervalSec; g_negative := NewNegativeCache negativeCacheEntries negativeCacheTTL |}.
  split; [done|]. split; [by eexists|apply NewTokenCache_ok| |constructor]. intros id e He. cbn in He. by rewrite lookup_empty in He.
Qed.

(** The guard: time goes on, at most one exchange is added to the journal, and a token that comes out is the one of that exchange. *)
Lemma guarded_acquire_facts g x rc g' x' r : guarded_acquire (g, x) rc = ((g', x'), r) ->
  time x <= time x' /\ (x'.2 = x.2 \/ exists w, x'.2 = x.2 ++ [(w, rc, answered acquirer w rc)]) /\
  forall tok, r = Ok tok -> issued x'.2 rc tok.
Proof.
  unfold guarded_acquire, aq_Acquire. cbn [fst snd guard_acquirer aq_Base aq_Breaker aq_Negative].
  pose proof (time_now x) as T1. pose proof (now_journal x) as J1. destruct (Now x) as [t x1]. cbn [snd] in T1, J1.
  destruct (nc_Get t (CredID rc) (g_negative g)) as [n [ae|]]; [intros [= _ <- <-]; rewrite J1; split_and!; [done|by left|done]|].
  pose proof (time_now x1) as T2. pose proof (now_journal x1) as J2. destruct (Now x1) as [t' x2]. cbn [snd] in T2, J2. rewrite J1 in J2.
  destruct (AllowRequest t' (g_breaker g)) as [b [|]]; cbn [negb]; [|intros [= _ <- <-]; rewrite J2; split_and!; [lia|by auto|done]].
  set (x3 := (exchange acquirer x2 rc).1). assert (time x2 <= time x3) as T3.
  { unfold x3, exchange, time. cbn. pose proof (Now_mono x2.1) as Hm. destruct (Now x2.1) as [u w]. cbn in Hm |- *. by destruct (Now w). }
  assert (x3.2 = x.2 ++ [(x2.1, rc, answered acquirer x2.1 rc)]) as J3 by (by rewrite <- J2).
  change (exchange acquirer x2 rc) with (x3, answered acquirer x2.1 rc). destruct (answered acquirer x2.1 rc) as [tok|err] eqn:Ea.
  - intros [= _ <- <-]. split_and!; [lia|right; exists x2.1; by rewrite Ea|]. intros tok' [= <-]. exists x2.1. rewrite J3. apply elem_of_app. right. left.
  - unfold record_failure. pose proof (time_now x3) as T4. pose proof (now_journal x3) as J4. destruct (Now x3) as [t3 x4]. cbn [snd] in T4, J4.
    case_bool_decide; [|intros [= _ <- <-]; rewrite J4, J3; split_and!; [lia|right; exists x2.1; by rewrite Ea|done]].
    pose proof (time_now x4) as T5. pose proof (now_journal x4) as J5. destruct (Now x4) as [t4 x5]. cbn [snd] in T5, J5.
    intros [= _ <- <-]. rewrite J5, J4, J3. split_and!; [lia|right; exists x2.1; by rewrite Ea|done].
Qed.

(** The exchange is a step of the process. *)
Lemma onward_exchange p g w resolved r : guarded_acquire (ps_guard p, ps_world p) resolved = ((g, w), r) ->
  onward p {| ps_world := w; ps_store := ps_store p; ps_cache := ps_cache p; ps_guard := g; ps_out := ps_out p |}.
Proof.
  intros (Ht & Hj & _)%guarded_acquire_facts [H1 H2 H3 H4]. assert ((ps_world p).2 `prefix_of` w.2) as Hp by (destruct Hj as [->|[w0 ->]]; [done|by eexists]).
  split; [split; cbn; [done|done| |]|split; cbn; [done|done|by exists []|done]].
  - intros id e He. eapply issued_more; [exact Hp|by eapply H3].
  - destruct Hj as [->|[w0 ->]]; [done|]. apply Forall_app. split; [done|]. by repeat constructor.
Qed.

(** The leader of an acquisition: what it gets is in the journal, and was usable beyond the margin when it was stored. *)
Lemma process_finish_facts p resolved p' r : process_finish p resolved = (p', r) ->
  onward p p' /\ (good p -> forall tok, r = Ok tok -> issued (ps_world p').2 resolved tok /\ time (ps_world p) + tokenSkewMargin < ExpiresAt tok).
Proof.
  unfold process_finish. destruct (guarded_acquire _ resolved) as [[g w] r1] eqn:Eg. pose proof (onward_exchange (others p) _ _ _ _ Eg) as Ox.
  apply guarded_acquire_facts in Eg as (_ & _ & Hi). set (p1 := {| ps_world := w |}) in *.
  assert (onward p p1) as O1 by (etrans; [apply others_onward|exact Ox]).
  destruct (match r1 with Ok _ => _ | Err _ => _ end) as [p2 r2] eqn:E2.
  assert (onward p1 p2 /\ (good p -> forall tok, r2 = Ok tok -> issued (ps_world p1).2 resolved tok /\ time (ps_world p) + tokenSkewMargin < ExpiresAt tok)) as [O2 Hr].
  { destruct r1 as [tok|err]; [|by injection E2 as <- <-]. pose proof (onward_now p1) as On. pose proof (process_now_time p1) as Tn.
    destruct (process_now p1) as [now p3]. cbn [fst snd] in On, Tn.
    assert (onward p1 (others p3)) as O3 by (etrans; [exact On|apply others_onward]).
    destruct (finish_store now resolved (Ok tok) (ps_cache (others p3))) as [c r3] eqn:Ef. injection E2 as <- <-. split.
    - intros Hp1. destruct (O3 Hp1) as [H3 G3]. apply (onward_cache (others p3)) with (c := c) in H3 as [H4 G4]; [split; [done|by etrans]|].
      intros Hg. split; [change c with (c, r3).1; rewrite <- Ef; apply finish_store_ok, Hg|].
      eapply (finish_store_P (issued (ps_world (others p3)).2)); [|by apply good_issued|exact Ef]. intros tok' [= <-].
      eapply issued_more; [apply G3|]. by apply Hi.
    - intros Hp tok' ->. destruct (O1 Hp) as [Hg1 [_ _ _ T1]]. unfold finish_store in Ef.
      destruct (Z.ltb_spec now (Add (ExpiresAt tok) (- tokenSkewMargin))) as [Hlt|]; [|done].
      injection Ef as _ <-. split; [by apply Hi|]. unfold Add in Hlt. lia. }
  intros [= <- <-].
  assert (onward p2 (ps_set_cache (others p2) (finish_publish (Identity resolved) (ps_cache (others p2))))) as O4.
  { etrans; [apply others_onward|]. apply onward_cache. intros Hg. split; [apply Hg|exact (good_issued _ Hg)]. }
  split; [etrans; [exact O1|]; by etrans|]. intros Hp tok ->. destruct (Hr Hp tok eq_refl) as [Hiss Hu]. split; [|done].
  destruct (O1 Hp) as [Hg1 _]. destruct (O2 Hg1) as [Hg2 G2]. destruct (O4 Hg2) as [_ G4]. eapply issued_more; [|exact Hiss]. etrans; [apply G2|apply G4].
Qed.

Lemma process_lookup_facts p resolved now q hit : process_lookup p resolved = (now, q, hit) ->
  onward p q /\ (good p -> time (ps_world p) <= now /\ forall res, hit = Some res ->
    issued (ps_world q).2 (tr_Resolved res) (tr_Token res) /\ Identity (tr_Resolved res) = Identity resolved /\ now + tokenSkewMargin < ExpiresAt (tr_Token res)).
Proof.
  unfold process_lookup. pose proof (onward_now p) as On. pose proof (process_now_time p) as Tn. destruct (process_now p) as [now' p1]. cbn [fst snd] in On, Tn.
  assert (onward p (others p1)) as O1 by (etrans; [exact On|apply others_onward]).
  destruct (getCached (Identity resolved) now' (ps_cache (others p1))) as [c hit'] eqn:Eg. intros [= <- <- <-].
  assert (onward (others p1) (others (ps_set_cache (others p1) c))) as O2.
  { etrans; [|apply others_onward]. apply onward_cache. intros Hg. split.
    - change c with (c, hit').1. rewrite <- Eg. apply getCached_ok, Hg.
    - by eapply (getCached_P (issued _)); [apply good_issued|exact Eg]. }
  split; [by etrans|]. intros Hp. split; [by apply Tn|]. intros res ->. destruct (O1 Hp) as [Hg _]. destruct (O2 Hg) as [_ G2].
  destruct (getCached_P (issued (ps_world (others p1)).2) _ _ _ _ _ (good_issued _ Hg) Eg) as (_ & _ & Hi).
  destruct (getCached_hit _ _ _ _ _ (good_cache _ Hg) Eg) as (Hid & Hus & _). split_and!; [eapply issued_more; [apply G2|by apply Hi]|done|done].
Qed.

(** A call of the broker: the token is in the journal, for the identity of the selector; unless another goroutine had an
    acquisition in flight when this one missed in the cache, it was usable beyond the margin at the time of the call. *)
Lemma process_get_facts p sel p' r : process_get p sel = (p', r) ->
  onward p p' /\
  (good p -> forall res, r = Ok res -> exists rc, Credential.Resolve sel = Ok rc /\ issued (ps_world p').2 (tr_Resolved res) (tr_Token res) /\
    Identity (tr_Resolved res) = Identity rc /\
    (inflight (ps_cache (process_lookup p rc).1.2) !! Identity rc = None -> time (ps_world p) + tokenSkewMargin < ExpiresAt (tr_Token res))).
Proof.
  unfold process_get. destruct (Credential.Resolve sel) as [rc|e] eqn:ER; [|intros [= <- <-]; split; [done|by intros _ res [=]]].
  destruct (process_lookup p rc) as [[now q] hit] eqn:El. pose proof El as El'. apply process_lookup_facts in El as [Oq Hq]. destruct hit as [res|].
  - destruct (maybeRefresh rc now (ps_cache q)) as [c2 b] eqn:Em. intros [= <- <-].
    assert (onward q (ps_set_cache q c2)) as O2.
    { apply onward_cache. intros Hg. split; [change c2 with (c2, b).1; rewrite <- Em; apply maybeRefresh_ok, Hg|].
      assert (tc_list c2 = tc_list (ps_cache q)) as Hl by (unfold maybeRefresh in Em; destruct (_ !! _); [destruct (_ && _)|]; by simplify_eq).
      unfold entries_P. rewrite Hl. by apply good_issued. }
    split; [by etrans|]. intros Hp res' [= <-]. destruct (Hq Hp) as [Tn Hh]. destruct (Hh res eq_refl) as (Hi & Hid & Hu). exists rc. rewrite El'. cbn [fst snd].
    split_and!; [done|exact Hi|done|]. intros _. lia.
  - destruct (startAcquire (Identity rc) (ps_cache q)) as [[c2 call] leader] eqn:Es. set (p3 := ps_set_cache q c2).
    assert (onward q p3) as O3.
    { apply onward_cache. intros Hg. assert (c2 = (startAcquire (Identity rc) (ps_cache q)).1.1) as -> by by rewrite Es.
      split; [apply startAcquire_ok, Hg|]. unfold startAcquire. destruct (_ !! _); apply good_issued, Hg. }
    destruct leader.
    + destruct (process_finish p3 rc) as [p4 r4] eqn:Ef. apply process_finish_facts in Ef as [O4 Hf]. intros [= <- <-]. split; [etrans; [exact Oq|]; by etrans|].
      intros Hp res Hres. destruct r4 as [tok|]; [|done]. injection Hres as <-. destruct (Oq Hp) as [Hgq Gq]. destruct (O3 Hgq) as [H3 G3].
      destruct (Hf H3 tok eq_refl) as [Hi Hu]. exists rc. split_and!; [done|exact Hi|done|]. intros _. cbn [tr_Token].
      pose proof (grows_time _ _ Gq). pose proof (grows_time _ _ G3). lia.
    + assert (inflight (ps_cache p3) !! Identity rc = Some call /\ inflight (ps_cache q) !! Identity rc = Some call) as [Hc3 Hc2].
      { revert Es. unfold p3, startAcquire. destruct (inflight (ps_cache q) !! Identity rc) eqn:Ei; intros [= <- <-]. done. }
      pose proof (await_onward p3 call) as Oa. destruct (await p3 call) as [p4 r4] eqn:Ew. intros [= <- <-]. split; [etrans; [exact Oq|]; by etrans|].
      intros Hp res Hres. destruct (Oq Hp) as [Hgq _]. destruct (O3 Hgq) as [H3 _]. destruct r4 as [[tok rc']|err]; [|done]. injection Hres as <-.
      destruct (await_issued p3 _ _ _ _ _ H3 Hc3 Ew) as [Hi Hid]. exists rc. rewrite El'. cbn [fst snd]. split_and!; [done|exact Hi|done|]. by rewrite Hc2.
Qed.

(** A record the sink accepted is in the stream, whole and ended. *)
Lemma process_record_facts p ev p' r : process_record p ev = (p', r) ->
  onward (others p) p' /\
  (r = None -> exists ts line, StreamSink.Encode format (with_ts ev ts) = Ok line /\ (IsZero (ev_Timestamp ev) = false -> ts = ev_Timestamp ev) /\
     ss_written (ps_out p') = ss_written (ps_out (others p)) ++ line).
Proof.
  unfold process_record. set (q := others p). destruct (if IsZero _ then _ else _) as [now w] eqn:En.
  assert (time (ps_world q) <= time w /\ w.2 = (ps_world q).2) as [Tw Jw].
  { destruct (IsZero (ev_Timestamp ev)); [|by injection En as _ <-]. change w with (now, w).2. rewrite <- En. split; [apply time_now|apply now_journal]. }
  unfold Record_, record_with. intros Hp.
  assert (exists ts, withTimestamp now ev = with_ts ev ts /\ (IsZero (ev_Timestamp ev) = false -> ts = ev_Timestamp ev)) as (ts & Hts & Hz).
  { unfold withTimestamp. destruct (IsZero (ev_Timestamp ev)); [by exists now|]. exists (ev_Timestamp ev). by destruct ev. }
  assert (forall out, ss_written (ps_out q) `prefix_of` ss_written out -> forall w', time (ps_world q) <= time w' -> w'.2 = (ps_world q).2 ->
    onward q {| ps_world := w'; ps_store := ps_store q; ps_cache := ps_cache q; ps_guard := ps_guard q; ps_out := out |}) as Hon.
  { intros out Ho w' Tw' Jw' [H1 H2 H3 H4]. split; [split; cbn; rewrite ?Jw'; done|]. split; cbn; [done|by rewrite Jw'|by exists []|done]. }
  rewrite Hts in Hp. destruct (StreamSink.Encode format (with_ts ev ts)) as [line|e] eqn:El.
  - pose proof (w_write_honest w.1 line) as Hh. pose proof (w_write_time w.1 line) as Htw. destruct (w_write w.1 line) as [w' wr]. cbn in Hh, Htw.
    assert (time w <= time (w', w.2)) as Tw'.
    { unfold time. cbn. destruct (Now w.1), (Now w'). exact Htw. }
    destruct (w_ctxErr (ps_world q).1) as [e|].
    + injection Hp as <- <-. split; [|done]. apply Hon; [done|lia|done].
    + destruct (write line wr (ps_out q)) as [out err] eqn:Ew. injection Hp as <- <-. split; [apply Hon; [|lia|done]|].
      * unfold write in Ew. injection Ew as <- _. by eexists.
      * intros ->. exists ts, line. split_and!; [done..|]. by eapply write_acked.
  - destruct (w_ctxErr (ps_world q).1); injection Hp as <- <-; (split; [|done]); apply Hon; done || lia.
Qed.

#[local] Instance process_services : Services process :=
  {| svc_clock := process_clock; svc_current := process_current; svc_get := process_get; svc_record := process_record |}.

Lemma process_stable : stable onward.
Proof.
  split; [apply onward_preorder|..].
  - exact onward_now.
  - intros p. cbn. unfold process_current. pose proof (time_now (ps_world (others p))) as Ht. pose proof (now_journal (ps_world (others p))) as Hj.
    destruct (Now (ps_world (others p))) as [t w]. etrans; [apply others_onward|]. by apply onward_world.
  - intros p sel. cbn. destruct (process_get p sel) as [p' r] eqn:Eg. by apply process_get_facts in Eg as [Ho _].
  - intros p ev. cbn. destruct (process_record p ev) as [p' r] eqn:Er. apply process_record_facts in Er as [Ho _]. etrans; [apply others_onward|exact Ho].
Qed.

(** No exchange returns an empty token. *)
Lemma answered_not_empty w rc tok : answered acquirer w rc = Ok tok -> Reveal tok <> [].
Proof.
  unfold answered, Entra.Acquire. destruct (Now w) as [now w']. cbn. repeat case_match; try done; cbn; intros [= <-]; cbn; by apply str_eqb_neq.
Qed.

(** ** End to end over the assembled process *)

Section Forwarded.
Context (bound : Duration) (pod : AuditIdentity).
#[local] Notation serve p h ins := (Serve (C := process_clock) (production bound pod) p h ins) (only parsing).

(** Between the states [p] and [p'] of a run, whose store had the publications [l] at the start, the store was read, and answered with the
    snapshot of the last publication of a history that extends [l], of an age that the clock of that moment gives and the bound allows. *)
Definition policy_in_force (p p' : process) (l : list (option compiledSnapshot * Time)) (snap : compiledSnapshot) : Prop :=
  exists q q' pubs t, let now := time (ps_world (others q)) in
    passes p q /\ process_current q = (q', Some (snap, Sub now t)) /\ passes q' p' /\
    ps_store q' = swaps (l ++ pubs) /\ last_published (l ++ pubs) = Some (snap, t) /\
    0 <= Sub now t < maxStaleness (match_stage (V := process_services) bound).

Lemma published_swaps l pubs s : published pubs (swaps l) s -> s = swaps (l ++ pubs).
Proof. unfold published, swaps. intros ->. by rewrite fold_left_app. Qed.

Lemma current_in_force p p' q q' l snap age : good p -> ps_store p = swaps l -> passes p q -> process_current q = (q', Some (snap, age)) -> passes q' p' ->
  0 <= age < maxStaleness (match_stage (V := process_services) bound) -> policy_in_force p p' l snap.
Proof.
  intros Hp Hl Hpq Hc Hqp Ha. assert (onward p (others q)) as Ho by (etrans; [exact (passes_least onward _ _ process_stable Hpq)|apply others_onward]).
  destruct (Ho Hp) as [_ [_ _ [pubs Hpub] _]]. rewrite Hl in Hpub. apply published_swaps in Hpub. pose proof Hc as Hc'. unfold process_current in Hc'.
  destruct (Now (ps_world (others q))) as [now w] eqn:En. injection Hc' as Hq' Hcur. unfold Current in Hcur. rewrite Hpub, load_swaps in Hcur.
  destruct (last_published (l ++ pubs)) as [[s t]|] eqn:Ep; [|done]. injection Hcur as -> <-. exists q, q', pubs, t. unfold time. rewrite En. cbn [fst].
  split_and!; try done; [by rewrite <- Hq'|lia|lia].
Qed.

(** The broker's token for a credential, in a run from [p] to [p']: the broker was called in a state [q] of the run; the token is that of an exchange in
    the journal, which the provider answered with it, for a credential of the selector's identity; and it was usable beyond the margin
    when the broker was called, unless the call missed in the cache and found another goroutine's acquisition in flight. *)
Definition brokered (p p' : process) (cred : CredentialSelector) (tok : Token) : Prop :=
  exists q res q' resolved w, passes p q /\ process_get q (toTokenSelector (Some cred)) = (q', Ok res) /\ passes q' p' /\ tok = tr_Token res /\
    Credential.Resolve (toTokenSelector (Some cred)) = Ok resolved /\ Identity (tr_Resolved res) = Identity resolved /\
    (w, tr_Resolved res, Ok tok) ∈ (ps_world p').2 /\ answered acquirer w (tr_Resolved res) = Ok tok /\
    (inflight (ps_cache (process_lookup q resolved).1.2) !! Identity resolved = None -> time (ps_world q) + tokenSkewMargin < ExpiresAt tok).

Lemma get_brokered p p' q q' cred res : good p -> passes p q -> process_get q (toTokenSelector (Some cred)) = (q', Ok res) -> passes q' p' ->
  brokered p p' cred (tr_Token res).
Proof.
  intros Hp Hpq Hg Hqp. destruct (passes_least onward _ _ process_stable Hpq Hp) as [Hq _]. pose proof (process_get_facts _ _ _ _ Hg) as [Ho Hf].
  destruct (Hf Hq res eq_refl) as (resolved & Hres & [w Hw] & Hid & Hu). destruct (Ho Hq) as [Hq' _].
  destruct (passes_least onward _ _ process_stable Hqp Hq') as [_ G]. exists q, res, q', resolved, w. split_and!; try done.
  - destruct (grows_journal _ _ G) as [k ->]. apply elem_of_app. by left.
  - pose proof (good_journal _ Hq') as Hj. rewrite Forall_forall in Hj. symmetry. by apply (Hj _ Hw).
Qed.

(** A line of the stream that records the decision on [rc]. *)
Definition recorded_line (rc : RequestContext) (line : gostring) : Prop :=
  exists ev, StreamSink.Encode format ev = Ok line /\ ev_Disposition ev = DispositionAllow /\ ev_Identity ev = rf_Identity (c_Facts rc) /\
    ev_Method ev = rf_Method (c_Facts rc) /\ ev_Path ev = rf_Path (c_Facts rc) /\ ev_Port ev = rf_Port (c_Facts rc) /\
    ev_RuleName ev = PolicyRef (c_MatchResult rc) /\ ev_PolicyVersion ev = Version (c_MatchResult rc) /\ ev_PodUID ev = PodUID pod.

(** C2: the assembled data plane.  From any state that satisfies the process's invariant, whatever the identity
    provider, the clock and stdout answer and the other goroutines do within it: when a request is forwarded, the store was
    read during the run, in a state reached by the process, and the rule that allowed the request is from the snapshot of the last publication in
    the store's history then, of an age within the bound at that moment.  The request carries no Authorization
    header when the rule names no credential, and otherwise exactly the token of an exchange in the process's journal, which the identity provider
    answered with it for a credential of that identity, usable beyond the margin when the broker was called for it (or joined in flight).  When the
    connection is over, the audit stream holds, after what it held at the start, a complete encoded record, with its newline,
    that says allow with the host, method, path, port, rule and policy version of that request.  The invariant still holds. *)
Theorem assembled_forward p h ins n rc c l : good p -> ps_store p = swaps l ->
  let '(p', t) := serve p h ins in
  Forwarded n rc c ∈ t ->
  good p' /\
  (exists snap, policy_in_force p p' l snap /\ c_MatchResult rc = Match snap (c_Facts rc) /\ Matched (c_MatchResult rc) = true) /\
  (exists r hd, c_Request rc = Some r /\ rq_Header r = Some hd /\
     match mr_Credential (c_MatchResult rc) with
     | None => hd !! bs "Authorization" = None
     | Some cred => exists tok, brokered p p' cred tok /\ hd !! bs "Authorization" = Some [bearer (Reveal tok)]
     end) /\
  (exists line before after, recorded_line rc line /\
     ss_written (ps_out p') = ss_written (ps_out p) ++ before ++ line ++ after).
Proof.
  intros Hp Hl. pose proof (Serve_forward (C := process_clock) (production bound pod) passes (fun _ _ => True)) as Hsf. specialize (Hsf (stable_now _ stable_passes)).
  specialize (Hsf (fun e rc' => Execute_keeps bound pod passes e rc' stable_passes) p h ins n rc c).
  destruct (serve p h ins) as [p' t]. cbn [fst snd] in Hsf. intros Hin.
  destruct Hsf as (_ & (cs & now & r & req & head & a1 & a2 & steps & d & _ & _ & _ & Hx & Ha & R1 & R2) & _); [by apply Forall_true|done|].
  assert (c_Request (request_context cs now r) = Some (to_request r)) as Hr by (unfold request_context; by destruct (default _ _)).
  destruct (allow_facts (V := process_services) bound pod passes _ _ _ _ _ _ _ (pr_Header r) stable_passes Hr eq_refl Hx Ha)
    as (e1 & e2 & snap & age & e3 & e4 & tr & r' & h' & ev & (H1 & H2 & H3 & H4 & H5 & _ & _ & _ & H9 & H10 & H11) & (_ & Hac) & _ & _ & _ & [P1 P2] & [P3 P4] & _).
  assert (passes p e1 /\ passes e2 p' /\ passes p e3 /\ passes e4 p') as (Q1 & Q2 & Q3 & Q4) by (split_and!; by etrans).
  assert (passes a1 a2) as Rx.
  { change a2 with (a2, Some rc, steps, d).1.1.1. rewrite <- Hx. exact (Execute_keeps bound pod passes a1 _ stable_passes). }
  assert (passes p p') as Rall by (etrans; [exact R1|]; by etrans).
  assert (h' !! bs "Authorization" = None) as Hno by (apply H11; left; rewrite ToLower_ascii by done; reflexivity).
  split_and!.
  - by apply (passes_least onward _ _ process_stable Rall).
  - exists snap. split; [|done]. exact (current_in_force p p' e1 e2 l snap age Hp Hl Q1 H1 Q2 H2).
  - exists r'. eexists. split_and!; [done|exact H10|]. unfold outgoing. destruct (mr_Credential (c_MatchResult rc)) as [cred|]; [|done].
    exists (tr_Token tr). pose proof (get_brokered p p' e3 e4 cred tr Hp Q3 H9 Q4) as Hb. split; [done|].
    destruct Hb as (q & res & q' & resolved & w & _ & _ & _ & _ & _ & _ & _ & Hans & _). apply answered_not_empty, str_eqb_neq in Hans. rewrite Hans. apply lookup_insert_eq.
  - destruct Hac as (b & b' & t1 & t2 & rc0 & Rb & Hrec & Rb' & -> & _ & Hf & Hm & _).
    assert (onward p (others b)) as Ob by (etrans; [exact (passes_least onward _ _ process_stable (transitivity R1 Rb))|apply others_onward]).
    apply process_record_facts in Hrec as [Or Hline]. destruct (Hline eq_refl) as (ts & line & Henc & _ & Hout).
    destruct (Ob Hp) as [Hgb Gb]. destruct (Or Hgb) as [Hb' _]. destruct (passes_least onward _ _ process_stable (transitivity Rb' R2) Hb') as [_ Ge].
    destruct (grows_out _ _ Gb) as [before Hbefore], (grows_out _ _ Ge) as [after Hafter]. exists line, before, after. split.
    + eexists. split; [exact Henc|]. cbn. rewrite Hf, Hm. done.
    + rewrite Hafter, Hout, Hbefore. by rewrite <- !app_assoc.
Qed.
End Forwarded.
End Process.

(** ** A process that serves *)

(** A provider that answers every exchange with a token of an hour. *)
Definition hourly_provider : EntraEnv :=
  {| sa_ReadFile _ := Ok (bs "aa.bb.cc"); http_NewRequest _ := None;
     http_RoundTrip _ := Ok {| rs_StatusCode := 200; rs_Location := []; rs_Body := "tok"; rs_BodyErr := None |}; url_Resolve _ ref := Ok ref;
     json_token b := Ok {| tr_AccessToken := b; tr_ExpiresIn := 3600; tr_Error := []; tr_ErrorDesc := [] |}; json_claims _ := None |}.
#[program] Definition ticking_world : World Z :=
  {| w_clock := tick_clock; w_entra _ := hourly_provider; w_ctxErr _ := None; w_write w data := (w + 1, (length data, None)) |}.
Next Obligation. intros w data. split; cbn; [lia|done]. Qed.
Next Obligation. intros w data. cbn. lia. Qed.

Definition demo_process : process :=
  {| ps_world := (0, []); ps_store := swaps [(Some sample_snapshot, 0)]; ps_cache := NewTokenCache tokenCacheEntries;
     ps_guard := {| g_breaker := NewBreaker breakerThreshold breakerProbeIntervalSec;
                    g_negative := NewNegativeCache negativeCacheEntries negativeCacheTTL |};
     ps_out := NewStreamSink |}.
(** No other goroutine acts, and no call is ever joined. *)
#[program] Definition alone : Others (U := ascii_only) (WW := ticking_world) example_acquirer :=
  {| others p := p; await p _ := (p, Err Canceled) |}.
Next Obligation. intros p Hp. split; [done|]. split; [done|done|by exists []|apply Z.le_refl]. Qed.
Next Obligation. intros p. apply Z.le_refl. Qed.
Next Obligation. intros p n Hp. split; [done|]. split; [done|done|by exists []|apply Z.le_refl]. Qed.
Next Obligation. done. Qed.

#[local] Notation demo_assembled :=
  (Serve (U := ascii_only) (S := sha_id) (N := opaque_urls)
    (C := process_clock (U := ascii_only) (WW := ticking_world) example_acquirer (O := alone))
    (production (U := ascii_only) (V := process_services (U := ascii_only) (S := sha_id) (N := opaque_urls) (J := plain_json) (WW := ticking_world)
       (fun _ => []) example_acquirer (O := alone)) 0 no_pod) demo_process demo_handover [demo_input; demo_input]).

Lemma demo_assembled_shape : map shape demo_assembled.2 = [bs "dial"; bs "forward"; bs "forward"; bs "close"].
Proof. vm_compute. reflexivity. Qed.
(** Two requests, two lines: with one exchange, since the second request finds the token in the cache. *)
Example demo_assembled_stream :
  length (Split (ss_written (ps_out demo_assembled.1)) chr_lf) = 3%nat /\ length (ll (tc_list (ps_cache demo_assembled.1))) = 1%nat /\
  length (ps_world demo_assembled.1).2 = 1%nat.
Proof. vm_compute. done. Qed.

Lemma demo_process_good : good (U := ascii_only) (WW := ticking_world) example_acquirer demo_process.
Proof.
  split; [by eexists|apply NewTokenCache_ok| |constructor]. intros id e He. cbn in He. by rewrite lookup_empty in He.
Qed.

Lemma assembled_forward_witness :
  exists n rc c, Forwarded n rc c ∈ demo_assembled.2 /\ Matched (c_MatchResult rc) = true /\
    exists line before after, ss_written (ps_out demo_assembled.1) = before ++ line ++ after /\
      recorded_line (J := plain_json) (fun _ => []) no_pod rc line.
Proof.
  pose proof demo_assembled_shape as Hs.
  pose proof (fun n rc c => assembled_forward (U := ascii_only) (S := sha_id) (N := opaque_urls) (J := plain_json) (WW := ticking_world)
    (fun _ => []) example_acquirer (O := alone) 0 no_pod demo_process demo_handover [demo_input; demo_input] n rc c
    [(Some sample_snapshot, 0)] demo_process_good eq_refl) as H.
  destruct demo_assembled as [p' t]. cbn [snd fst] in Hs |- *.
  destruct t as [|x0 [|[ | | | | | n rc c | ] t]]; try discriminate Hs.
  destruct (H n rc c) as (_ & (snap & _ & _ & Hm) & _ & (line & before & after & Hl & Hout)); [right; left|].
  exists n, rc, c. split; [right; left|]. split; [exact Hm|]. exists line, (ss_written (ps_out demo_process) ++ before), after.
  split; [rewrite <- app_assoc; exact Hout|exact Hl].
Defined.

Lemma assemble_succeeds_witness : exists a,
  assemble (U := ascii_only) (N := https_urls) (V := demo_services) (fun _ => hour_provider) (fun _ _ => Err ContextDone)
    demo_config true true true = Ok a /\ sem_cap (as_dialer a) = 256%nat.
Proof.
  destruct (assemble_succeeds (U := ascii_only) (N := https_urls) (V := demo_services) (fun _ => hour_provider)
    (fun _ _ => Err ContextDone) demo_config) as (a & acq & Ha & _ & _ & _ & _ & _ & Hs & _).
  - vm_compute. reflexivity.
  - vm_compute. reflexivity.
  - exists a. split; [exact Ha|exact Hs].
Defined.
