(* ===== verification/Startup.v ===== *)
(** * [cmd/aksh-proxy]: the life of the process

    The production gates of the command: the pod cgroup as [run] of [main.go] resolves it, the environment gates with the
    seams of [preflight_seams_linux.go], the confirmation of the attach and the first policy snapshot.  [run] and
    [mainRun], which put them together, are in ProxyMain.v, [trust.go] is in Trust.v. *)

From S2P Require Import Prelude GoStrings GoRuntime Canonicalize GoPath Compile Match Credential Decision Stages Metrics PolicyStore Upstream Injector PodLabels Watcher Capture GoParse Config Cgroup Preflight PrivDrop Loader Orchestrator ControlPlane.
#[local] Open Scope Z_scope.

(** ** [preflight_seams_linux.go] *)

(** What the process asks of the host besides its file system. *)
Class Host := {
  cgoLinked : bool;
  uname_release : option gostring;
  mount_bpffs : gostring -> bool;
  rlimit_RemoveMemlock : bool;
  Getpid : Z
}.

Definition procSelfStatus : gostring := "/proc/self/status".

(** [bufio.Scanner] over lines: a line that does not fit its buffer ends the scan with an error. *)
Definition MaxScanTokenSize : nat := 64 * 1024.
Definition is_hex (c : ascii) : bool := is_digit c || between "a" (lower_byte c) "f".
Fixpoint hex_prefix (s : gostring) : gostring := match s with c :: s' => if is_hex c then c :: hex_prefix s' else [] | [] => [] end.

Section Seams.
Context `{U : Unicode}.

(** [fmt.Sscanf(field, "%x", &mask)] on a trimmed field: the longest run of hexadecimal digits,
    which must fit 64 bits; what follows it is ignored. *)
Definition Sscanf_x (field : gostring) : option Z :=
  match hex_prefix field with
  | [] => None
  | digits => let v := hex_number 0 digits in if 2 ^ 64 <=? v then None else Some v
  end.

Fixpoint capEff_line (lines : list gostring) : option Z :=
  match lines with
  | [] => None
  | line :: lines =>
      if (MaxScanTokenSize <=? length line)%nat then None
      else if negb (HasPrefix line "CapEff:") then capEff_line lines
      else Sscanf_x (TrimSpace (drop 7 line))
  end.
Definition parseCapEff (st : gostring) : option Z := capEff_line (Split st chr_lf).

Context `{FS : FileSystem} `{H : Host}.

Definition HasCapability (name : gostring) : option bool :=
  bit ← cap_bit name; raw ← fs_ReadFile procSelfStatus; eff ← parseCapEff raw; Some (Z.testbit eff bit).

Definition NewProductionPreflightSeams (opts : Capture.Options) : PreflightSeams :=
  {| s_Cgo := Some cgoLinked; s_Uname := Some uname_release; s_FSMagic := Some statfs_magic;
     s_Cgroup := Some (fun p => rbind (ResolvePodCgroup (Some (newProdPodCgroupResolver (co_HostCgroupMount opts)
       (co_LocalCgroupMount opts) (co_ProcCgroupPath opts) Getpid)) p) (fun r => Ok (fst r)));
     s_BPFFS := Some {| IsBPFFSMounted p := (fun m => m =? BPFFSMagic) <$> statfs_magic p; MountBPFFS := mount_bpffs |};
     s_Capabilities := Some HasCapability; s_Memlock := Some rlimit_RemoveMemlock;
     s_Loader := None; s_Config := None; s_Attacher := None; s_PinRoot := None; s_Redirect := None; s_PrivDrop := None;
     s_UIDExclusion := None |}.
End Seams.

(** ** [preflight.go] of the command: the attach is confirmed, not made *)

Inductive handle_error := ErrPreflightNoHandle | ErrPreflightInvalidAttach | ErrPreflightAttachLost.
Definition validAttachInfo (ai : AttachInfo) : bool := (0 <? length (ai_ProgIDs ai))%nat && negb (ai_CgroupID ai =? 0).
(** [None] for the handle is a nil one, typed or not. *)
Definition productionPreflight (h : option AttachInfo) (lost : bool) : option handle_error :=
  match h with
  | None => Some ErrPreflightNoHandle
  | Some info =>
      if negb (validAttachInfo info) then Some ErrPreflightInvalidAttach
      else if lost then Some ErrPreflightAttachLost else None
  end.

(** ** [policy_startup.go]: the first snapshot *)

Inductive policy_error := InClusterConfig | DynamicClient | PolicyClient (e : watcher_error) | PodLabelsError (e : labels_error)
| WatcherError (e : watcher_error) | FirstSnapshot.

(** [inCluster] and [dc]: the REST configuration and the dynamic client could be made; [first]: the
    first snapshot arrived before the timeout.  The result is the watcher that keeps running. *)
Definition productionPolicyStartup `{U : Unicode} `{Q : RuneQuoting} (cfg : Config) (inCluster dc : bool)
    (read : gostring -> result error gostring) (first : bool) : result policy_error (Watcher.Options * watcher) :=
  if negb inCluster then Err InClusterConfig
  else if negb dc then Err DynamicClient
  else match NewDynamicAkshPolicyClient dc (pc_Namespace (c_Policy cfg)) with
  | Err e => Err (PolicyClient e)
  | Ok _ =>
      match LoadPodLabels read (pc_PodLabelsPath (c_Policy cfg)) with
      | Err e => Err (PodLabelsError e)
      | Ok labels =>
          let opts := {| o_Namespace := pc_Namespace (c_Policy cfg); o_PodLabels := labels;
                         o_MaxStaleness := EffectiveMaxStaleness (c_Policy cfg); o_ResyncPeriod := pc_Resync (c_Policy cfg) |} in
          match NewWatcher opts true (Some new_store) with
          | Err e => Err (WatcherError e)
          | Ok w => if negb first then Err FirstSnapshot else Ok (opts, w)
          end
      end
  end.

(** ** [run] *)

Inductive run_event :=
| CgroupResolutionError            (* the metric of a failed resolution *)
| LoadRequested (o : Capture.Options)
| Orchestrated (t : list action)   (* what [orch.Run] did *)
| HandleClosed.                    (* the deferred close *)

Section Run.
Context `{U : Unicode} `{N : NetURL} `{FS : FileSystem} `{H : Host} `{EN : Endian} `{L : LoadEnv}.

(** The pod cgroup: derived from /proc/self/cgroup, or discovered by inode when the process is in
    a cgroup namespace of its own. *)
Definition resolve_pod_cgroup (c : CaptureConfig) : option gostring :=
  let res := newProdPodCgroupResolver (cc_HostCgroupMount c) (cc_LocalCgroupMount c) (cc_ProcCgroupPath c) Getpid in
  let found r := match r with Ok (p, _) => Some p | Err _ => None end in
  match derivePodCgroupCandidate (cc_HostCgroupMount c) (cc_ProcCgroupPath c) with
  | Ok candidate => found (ResolvePodCgroup (Some res) candidate)
  | Err errV2PathHasNoPodParent => found (DiscoverPodCgroup (Some res))
  | Err _ => None
  end.

End Run.

(** ** What has passed the gates *)

Section Guarantees.
Context `{U : Unicode} `{N : NetURL} `{FS : FileSystem} `{H : Host} `{EN : Endian} `{L : LoadEnv}.

(** The path is at least two plain segments below the canonical host mount, and this very
    process is listed in a directory below it. *)
Definition in_scope (c : CaptureConfig) (p : gostring) : Prop :=
  exists host hs rel, absClean (cc_HostCgroupMount c) = Some host /\ canonicalizeHostMount host = Some (rooted_path hs) /\
    p = rooted_path (hs ++ rel) /\ Forall normal (hs ++ rel) /\ (2 <= length rel)%nat /\
    exists q raw, dir_below p q /\ fs_ReadFile (path_Join q "cgroup.procs") = Some raw /\ Getpid ∈ parse_pids raw.

Lemma resolve_in_scope c p : resolve_pod_cgroup c = Some p -> in_scope c p.
Proof.
  unfold resolve_pod_cgroup. set (res := newProdPodCgroupResolver _ _ _ _).
  assert (forall candidate ws, ResolvePodCgroup (Some res) candidate = Ok (p, ws) -> in_scope c p) as Hin.
  { intros candidate ws Hr. apply ResolvePodCgroup_Ok in Hr as (host & hs & rel & m & H1 & H2 & _ & H4 & H5 & H6 & _ & _ & _ & _ & q & pids & H7 & H8 & H9).
    exists host, hs, rel. split_and!; try done. exists q. unfold procsIn in H8. cbn [res newProdPodCgroupResolver pr_Procs] in H8.
    destruct (fs_ReadFile _) as [raw|]; [|done]. injection H8 as <-. by exists raw. }
  destruct (derivePodCgroupCandidate _ _) as [candidate|[]]; try done.
  - destruct (ResolvePodCgroup (Some res) candidate) as [[p' ws]|] eqn:E; [|done]. intros [= ->]. by eapply Hin.
  - destruct (DiscoverPodCgroup (Some res)) as [[p' ws]|] eqn:E; [|done]. intros [= ->].
    unfold DiscoverPodCgroup in E. repeat (destruct (str_eqb _ _); [done|]). cbn [res newProdPodCgroupResolver pr_FSMagic] in E.
    fold res in E. destruct (unifiedRelPath res); [|done]. cbn [rbind] in E. destruct (confirmLocalCgroup2 _ res); [done|].
    destruct (absClean _); [|done]. destruct (if negb _ then _ else _) as [candidate|]; [|done]. cbn [rbind] in E. by eapply Hin.
Qed.

Lemma in_scope_nonempty c p : in_scope c p -> p <> [].
Proof. by intros (? & ? & ? & _ & _ & -> & _). Qed.

Lemma environment_passed o s : fst (RunEnvironmentPreflight (Some o) s) = None -> environment_ok o s.
Proof.
  unfold RunEnvironmentPreflight. destruct (Options_Validate (Some o)); [done|]. rewrite run_gates_pass. apply environment_gates_ok.
Qed.

Lemma Run_true_serves cfg s : fst (Run cfg s New) = true -> ServeListener ∈ o_trace (snd (Run cfg s New)).
Proof.
  pose proof (run_checked_parts cfg s) as (_ & _ & H3 & _ & _ & H6 & _). intros Hok. apply H3.
  destruct (serve_gates cfg s); [done|]. destruct (H6 eq_refl). congruence.
Qed.

(** Past the gates: the configuration in force is valid and the options come from it. *)
Definition admitted (cfg : Config) (o : Capture.Options) : Prop :=
  exists p, in_scope (c_Capture cfg) p /\ co_PodPath o = p /\ Validate (fput Capture_PodPath p cfg) = None /\
    o = CaptureOptionsFromConfig (fput Capture_PodPath p cfg) true /\ environment_ok o (NewProductionPreflightSeams o).

End Guarantees.

(** ** A host on which the process serves *)

Definition serving_content : list (string * gostring) :=
  ("/proc/self/status"%string, (bs "Name: x" ++ [chr_lf] ++ bs "CapEff: 000000ffffffffff" ++ [chr_lf])%list) :: demo_content.
#[program] Definition serving_fs : FileSystem :=
  {| Getwd := Some (bs "/"); Stat := table demo_tree; Lstat := table demo_tree; EvalSymlinks := Some; ReadDir := table demo_dirs;
     fs_ReadFile := table serving_content; statfs_magic p := Some (if str_eqb p "/sys/fs/bpf" then BPFFSMagic else Cgroup2SuperMagic) |}.
Next Obligation. by intros d [= <-]. Qed.
Next Obligation. by intros p q Hp [= <-]. Qed.
Definition serving_host : Host :=
  {| cgoLinked := false; uname_release := Some (bs "6.1.0-aks"); mount_bpffs _ := true; rlimit_RemoveMemlock := true; Getpid := 4242 |}.
Definition serving_vars : list (string * string) :=
  ("POD_IP", "10.244.0.7")%string :: ("AKSH_CAPTURE_HOST_CGROUP_MOUNT", "/host/cg")%string :: ("AKSH_CAPTURE_LOCAL_CGROUP_MOUNT", "/sys/fs/cgroup")%string :: demo_vars.
Definition serving_config : Config := @resolved ascii_only (demo_env serving_vars) empty_yaml.
Definition serving_load : LoadEnv :=
  {| le_kernelVersion := Some {| Major := 6; Minor := 1 |}; le_ctxErr _ := false; le_loadSpec := true; le_newCollection := None;
     le_configMap := true; le_configUpdate _ := true;
     le_configLookup := (match buildConfigImage (EN := true) (CaptureOptionsFromConfig (U := ascii_only) serving_config true) with
                         | Ok i => Some i | Err _ => None end);
     le_configFreeze := true; le_bypassMap := true; le_bypassUpdate _ := true; le_bypassLookup _ := Some 1; le_bypassFreeze := true;
     le_cgroupID _ := Some 77; le_program _ := true; le_attach _ := true; le_programID _ := Some 9;
     le_statfs _ := Some BPFFSMagic; le_mkdir _ := Made; le_chown _ := true;
     le_lstat _ := Some {| dst_IsDir := true; dst_Uid := 1774; dst_Gid := 1774; dst_Mode := 448 |}; le_pin _ := true; le_pairMap := true;
     le_unpin _ := true; le_close _ := true; le_remove _ := true |}.
(** ** Defaults that do not meet *)

Definition injected_env (namespace ip key : gostring) : gostring :=
  match List.find (fun e => str_eqb (ev_Name e) key) (canonicalEnv namespace) with
  | Some e => if ev_ValueFrom e then ip else ev_Value e
  | None => []
  end.

(** The configuration of an injected sidecar: no local cgroup mount, and no Entra identity, which
    the configuration requires. *)
Lemma injected_sidecar_config namespace ip :
  let cfg := @resolved ascii_only (injected_env namespace ip) empty_yaml in
  cc_LocalCgroupMount (c_Capture cfg) = [] /\ ec_TenantID (tc_Entra (c_Token cfg)) = [] /\ ec_ClientID (tc_Entra (c_Token cfg)) = [].
Proof. vm_compute. done. Qed.

(** A configured staleness bound of zero means 45 s to the watcher and five minutes to the
    match stage, which is given the value as configured. *)
Lemma zero_staleness_means_two_things {E} (p : PolicyConfig) (m : MatchStage E) :
  pc_MaxStaleness p = 0 -> ms_MaxStaleness m = pc_MaxStaleness p ->
  EffectiveMaxStaleness p = 45 * Second /\ maxStaleness m = 300 * Second.
Proof. intros Hp Hm. unfold EffectiveMaxStaleness, maxStaleness. rewrite Hm, Hp. done. Qed.
