(* ===== verification/ProxyMain.v ===== *)
(** * [cmd/aksh-proxy/main.go] and [seams.go]: the wiring of the daemon

    [run] over the injectable [deps] of the file, with the benign defaults of [withDefaults], and [mainRun], which loads the
    configuration, builds the upstream trust pool and fills every gate with its production implementation: the cgroup
    resolver of Cgroup.v, the gates of Preflight.v, the loader of Loader.v, the CA of Pki.v, the policy startup of Startup.v,
    the self test of Entra.v, the assembly of Assembly.v and the privilege drop of PrivDrop.v. *)

From S2P Require Import Prelude GoStrings GoRuntime Canonicalize GoPath Compile Match Credential LRU TokenGuard TokenCache Decision Stages Metrics PolicyStore Runner Enforcement Upstream LeafSource Injector PodLabels Watcher Capture GoParse Config Entra Trust Pki Cgroup Preflight PrivDrop Loader Orchestrator ControlPlane Assembly Startup.
#[local] Open Scope Z_scope.

(** ** [seams.go] *)

(** The handle of a load: [h_lost] is whether the attach is lost by the time the preflight gate asks. *)
Record captureHandle := { h_info : AttachInfo; h_pairMap : bool; h_lost : bool; h_Close : world -> world }.
Definition noopCaptureHandle : captureHandle :=
  {| h_info := {| ai_ProgIDs := []; ai_CgroupID := 0; ai_PinPaths := [] |}; h_pairMap := false; h_lost := false; h_Close w := w |}.

(** [None] is an error. *)
Record podCgroupResolver := { rs_ResolvePodCgroup : gostring -> option gostring; rs_DiscoverPodCgroup : option gostring }.
Definition passthroughResolver (path : gostring) : podCgroupResolver :=
  {| rs_ResolvePodCgroup _ := Some path; rs_DiscoverPodCgroup := Some path |}.

(** A control plane: whether its [Start] succeeds. *)
Definition noopControlPlane : bool := true.

(** ** [deps] *)

Definition succeeds {A B} (r : result A B) : bool := match r with Ok _ => true | Err _ => false end.
Definition no_error {A} (r : option A) : bool := match r with None => true | Some _ => false end.

Record deps := {
  d_loadConfig : option Config;
  d_deriveCgroupCandidate : option (gostring -> gostring -> result derive_error gostring);
  d_newPodCgroupResolver : option (Config -> option podCgroupResolver);
  d_loadAndAttach : option (Capture.Options -> world -> option captureHandle * world);
  d_envPreflight : option (Capture.Options -> bool);
  d_newResolver : option (bool -> Capture.Options -> bool);
  d_factory : option bool;                                   (* used verbatim; whether it makes a listener *)
  d_newOrchestrator : option (option (Config -> Seams -> bool * Orchestrator));
  d_newControlPlane : option (ControlPlaneConfig -> option bool);
  d_newPreflight : option (captureHandle -> bool);
  d_newPolicyStartup : option (Config -> bool);
  d_caProvider : option bool;
  d_localSelfTest : option bool;
  d_auditSink : option bool;
  d_privDrop : option (PrivDropConfig -> bool)
}.

(** What the rest of the run meets: the cancellation, the listener and the end of [Serve]. *)
Record serving := {
  sv_ctxDone : bool; sv_listener : bool; sv_Bind : bool; sv_AcceptProbe : option bool; sv_Serve : serve_outcome;
  sv_ListenerShutdown : bool
}.

Section Run.
Context `{U : Unicode} `{N : NetURL} `{FS : FileSystem} `{H : Host} `{EN : Endian} `{L : LoadEnv}.
(** Whether the orchestrator's assembly of the data plane succeeds. *)
Context (assembles : Config -> bool).

(** The dependencies with none left out. *)
Record wiring := {
  w_deriveCgroupCandidate : gostring -> gostring -> result derive_error gostring;
  w_newPodCgroupResolver : Config -> option podCgroupResolver;
  w_loadAndAttach : Capture.Options -> world -> option captureHandle * world;
  w_envPreflight : Capture.Options -> bool;
  w_newResolver : bool -> Capture.Options -> bool;
  w_newOrchestrator : option (Config -> Seams -> bool * Orchestrator);
  w_newControlPlane : ControlPlaneConfig -> option bool;
  w_newPreflight : captureHandle -> bool;
  w_newPolicyStartup : Config -> bool
}.
Definition withDefaults (d : deps) : wiring := {|
  w_deriveCgroupCandidate := default (fun _ _ => Ok []) (d_deriveCgroupCandidate d);
  w_newPodCgroupResolver := default (fun cfg => Some (passthroughResolver (cc_PodPath (c_Capture cfg)))) (d_newPodCgroupResolver d);
  w_loadAndAttach := default (fun _ w => (Some noopCaptureHandle, w)) (d_loadAndAttach d);
  w_envPreflight := default (fun _ => true) (d_envPreflight d);
  w_newResolver := default (fun pairMap opts => succeeds (NewBPFDestinationResolver pairMap opts)) (d_newResolver d);
  w_newOrchestrator := default (Some (fun cfg s => Run cfg s New)) (d_newOrchestrator d);
  w_newControlPlane := default (fun _ => Some noopControlPlane) (d_newControlPlane d);
  w_newPreflight := default (fun _ => true) (d_newPreflight d);
  w_newPolicyStartup := default (fun _ => true) (d_newPolicyStartup d)
|}.

(** The pod cgroup of the process; [None] is counted as a resolution error. *)
Definition resolved_cgroup (d : wiring) (cfg : Config) : option gostring :=
  match w_newPodCgroupResolver d cfg with
  | None => None
  | Some res =>
      match w_deriveCgroupCandidate d (cc_HostCgroupMount (c_Capture cfg)) (cc_ProcCgroupPath (c_Capture cfg)) with
      | Ok candidate => rs_ResolvePodCgroup res candidate
      | Err errV2PathHasNoPodParent => rs_DiscoverPodCgroup res
      | Err _ => None
      end
  end.

(** The seams given to the orchestrator: those of the dependencies, and [runtime.New]'s defaults for the ones left out. *)
Definition orchestrator_seams (d0 : deps) (d : wiring) (cfg : Config) (h : captureHandle) (factory cpStart : bool) (sv : serving) : Seams :=
  withSeams {| op_Preflight := Some (w_newPreflight d h); op_ConstructResolvers := None; op_CAProvider := d_caProvider d0;
               op_PolicyStartup := Some (w_newPolicyStartup d cfg); op_LocalSelfTest := d_localSelfTest d0; op_AuditSinkFactory := d_auditSink d0;
               op_PrivDrop := d_privDrop d0; op_ControlPlaneStart := Some cpStart; op_CaptureHandle := true |}
    (assembles cfg) (sv_ctxDone sv) factory (sv_Bind sv) (sv_AcceptProbe sv) (sv_Serve sv) (sv_ListenerShutdown sv).

Definition run (d0 : deps) (sv : serving) (w : world) : Z * list run_event * world :=
  let d := withDefaults d0 in
  match d_loadConfig d0 with
  | None => (1, [], w)
  | Some cfg =>
      match resolved_cgroup d cfg with
      | None => (1, [CgroupResolutionError], w)
      | Some resolved =>
          let cfg := if str_eqb resolved "" then cfg else fput Capture_PodPath resolved cfg in
          match Validate cfg with
          | Some _ => (1, [], w)
          | None =>
              let captureOpts := CaptureOptionsFromConfig cfg true in
              if negb (w_envPreflight d captureOpts) then (1, [], w)
              else match w_loadAndAttach d captureOpts w with
              | (None, w) => (1, [LoadRequested captureOpts], w)
              | (Some handle, w) =>
                  let closed code events := (code, LoadRequested captureOpts :: events ++ [HandleClosed], h_Close handle w) in
                  match (match d_factory d0 with
                         | Some made => Some made
                         | None => if w_newResolver d (h_pairMap handle) captureOpts
                                   then Some (match MakeProductionListenerFactory cfg with Some _ => sv_listener sv | None => false end) else None
                         end) with
                  | None => closed 1 []
                  | Some factory =>
                      match w_newOrchestrator d with
                      | None => closed 1 []
                      | Some orch =>
                          match w_newControlPlane d (c_ControlPlane cfg) with
                          | None => closed 1 []
                          | Some cpStart =>
                              let '(ok, o) := orch cfg (orchestrator_seams d0 d cfg handle factory cpStart sv) in
                              closed (if (ok : bool) then 0 else 1) [Orchestrated (o_trace o)]
                          end
                      end
                  end
              end
          end
      end
  end.

(** Without an injected loader no kernel object is ever touched. *)
Lemma benign_load d sv w : d_loadAndAttach d = None -> (run d sv w).2 = w.
Proof.
  intros Hd. unfold run. destruct (d_loadConfig d) as [cfg|]; [|done]. destruct (resolved_cgroup _ cfg) as [p|]; [|done]. destruct (Validate _); [done|].
  destruct (negb _); [done|]. cbn [withDefaults w_loadAndAttach]. rewrite Hd. cbn [stdpp.option.from_option id noopCaptureHandle h_Close].
  repeat (case_match; try done).
Qed.
End Run.

(** ** [mainRun] *)

Definition upstreamCADir : gostring := "/etc/aksh/upstream-ca".

Section Main.
Context `{U : Unicode} `{N : NetURL} `{FS : FileSystem} `{H : Host} `{EN : Endian} `{L : LoadEnv}.
Context `{F : ConfigFiles} `{T : TrustFS} `{EE : EntraEnv} `{Q : RuneQuoting} `{X : X509} `{SH : Sha256}.
Context {P : Type} `{K : Kernel P} {W : Type} `{C : Clock W} {E : Type} `{V : Services E}.
Context (exchange : Acquirer -> W -> ResolvedCredential -> W * result error Token).
Context (CertificateFor : CachedLeafSource -> gostring -> result cert_error leaf).

(** What the daemon finds: its environment, the system's roots, the cluster, the disk of the CA with its faults, and the credentials of
    the process. *)
Record surroundings := {
  e_getenv : gostring -> gostring;
  e_systemPool : option (list cert);
  e_inCluster : bool; e_dynamicClient : bool; e_labels : gostring -> result error gostring; e_firstSnapshot : bool;
  e_disk : Pki.io; e_fault : nat -> option nat; e_now : Time; e_newKey : option key; e_serial : option Z;
  e_process : P;
  e_attachLost : bool; e_cpStart : bool
}.

Definition assembles (cfg : Config) : bool := succeeds (assemble exchange CertificateFor cfg true true true).
Definition ca_gate (cfg : Config) (e : surroundings) : Pki.io * result pki_error PodCAProvider :=
  NewPodCAProvider (e_fault e) (ca_PrivDir (c_CA cfg)) (ca_PubDir (c_CA cfg)) (e_now e) (e_newKey e) (e_serial e) (e_disk e).
Definition policy_gate (cfg : Config) (e : surroundings) : result policy_error (Watcher.Options * watcher) :=
  productionPolicyStartup cfg (e_inCluster e) (e_dynamicClient e) (e_labels e) (e_firstSnapshot e).
Definition drop_gate (e : surroundings) (c : PrivDropConfig) : option privDropError * P := DropPrivileges defaultPrivDropSyscalls c (e_process e).

Definition main_deps (cfg : Config) (e : surroundings) : deps := {|
  d_loadConfig := Some cfg;
  d_deriveCgroupCandidate := Some derivePodCgroupCandidate;
  d_newPodCgroupResolver := Some (fun cfg =>
    let res := newProdPodCgroupResolver (cc_HostCgroupMount (c_Capture cfg)) (cc_LocalCgroupMount (c_Capture cfg)) (cc_ProcCgroupPath (c_Capture cfg)) Getpid in
    let found r := match r with Ok (p, _) => Some p | Err _ => None end in
    Some {| rs_ResolvePodCgroup p := found (ResolvePodCgroup (Some res) p); rs_DiscoverPodCgroup := found (DiscoverPodCgroup (Some res)) |});
  d_loadAndAttach := Some (fun opts w =>
    match LoadAndAttach (Some opts) w with
    | (Err _, _, w) => (None, w)
    | (Ok info, st, w) => (Some {| h_info := info; h_pairMap := le_pairMap; h_lost := e_attachLost e; h_Close := closeAll st |}, w)
    end);
  d_envPreflight := Some (fun opts => no_error (fst (RunEnvironmentPreflight (Some opts) (NewProductionPreflightSeams opts))));
  d_newResolver := None;
  d_factory := None;
  d_newOrchestrator := Some (Some (fun cfg s => Run cfg s New));
  d_newControlPlane := Some (fun cp => if succeeds (NewControlPlaneServerFromConfig (e_getenv e) cp true) then Some (e_cpStart e) else None);
  d_newPreflight := Some (fun h => no_error (productionPreflight (Some (h_info h)) (h_lost h)));
  d_newPolicyStartup := Some (fun cfg => succeeds (policy_gate cfg e));
  d_caProvider := Some (succeeds (ca_gate cfg e).2);
  d_localSelfTest := Some (no_error (LocalSelfTest (entra_options cfg)));
  d_auditSink := Some true;
  d_privDrop := Some (fun c => no_error (drop_gate e c).1)
|}.

Definition mainRun (e : surroundings) (sv : serving) (w : world) : Z * list run_event * world :=
  match Load (e_getenv e) with
  | Err _ => (1, [], w)
  | Ok (cfg, _) =>
      match buildUpstreamTrustPool (e_systemPool e) (ca_PubDir (c_CA cfg)) upstreamCADir with
      | Err _ => (1, [], w)
      | Ok _ => run assembles (main_deps cfg e) sv w
      end
  end.

(** ** What the daemon guarantees *)

Lemma succeeds_ok {A B} (r : result A B) : succeeds r = true -> exists b, r = Ok b.
Proof. destruct r; [by eexists|done]. Qed.
Lemma no_error_none {A} (r : option A) : no_error r = true -> r = None.
Proof. by destruct r. Qed.

(** Every gate before [Serve], by what it found; [cfg'] has the resolved pod path. *)
Record gates_passed (cfg cfg' : Config) (e : surroundings) : Prop := {
  gp_ca : exists disk provider, ca_gate cfg e = (disk, Ok provider);
  gp_policy : exists opts watcher, policy_gate cfg' e = Ok (opts, watcher);
  gp_self_test : LocalSelfTest (entra_options cfg) = None;
  gp_assembled : exists a, assemble exchange CertificateFor cfg' true true true = Ok a;
  gp_address : exists addr, MakeProductionListenerFactory cfg' = Some addr;
  gp_control_plane : exists s, NewControlPlaneServerFromConfig (e_getenv e) (c_ControlPlane cfg') true = Ok s;
  gp_dropped : exists q, drop_gate e privDropConfig = (None, q)
}.

Lemma serve_gates_passed cfg cfg' e sv h cpStart (listener : bool) s :
  NewControlPlaneServerFromConfig (e_getenv e) (c_ControlPlane cfg') true = Ok s ->
  serve_gates cfg' (orchestrator_seams assembles (main_deps cfg e) (withDefaults (main_deps cfg e)) cfg' h
    (match MakeProductionListenerFactory cfg' with Some _ => listener | None => false end) cpStart sv) = true -> gates_passed cfg cfg' e.
Proof.
  intros Hs. unfold serve_gates, bind_gates, start_gates, orchestrator_seams, withSeams, main_deps, withDefaults, seam. cbn - [assembles ca_gate policy_gate drop_gate].
  rewrite !andb_true_iff. intros Hg. decompose [and] Hg. split; try (by apply succeeds_ok).
  - destruct (ca_gate cfg e) as [disk r]. destruct (succeeds_ok r) as [provider ->]; [done|]. by exists disk, provider.
  - destruct (succeeds_ok (policy_gate cfg' e)) as [[opts wt] Hp]; [done|]. by exists opts, wt.
  - by apply no_error_none.
  - by destruct (MakeProductionListenerFactory cfg') as [addr|]; [exists addr|].
  - by exists s.
  - destruct (drop_gate e privDropConfig) as [[err|] q]; [done|]. by exists q.
Qed.

(** A run that ends before the orchestrator: its events are at most a refused load. *)
Ltac events := repeat setoid_rewrite elem_of_cons; repeat setoid_rewrite elem_of_nil; intuition (simplify_eq; eauto).
Ltac stopped := intros [= <- <- <-]; split_and!; [first [exact given_back_initially|assumption]|events..|done].

Lemma run_guarantees cfg e sv code events w :
  run assembles (main_deps cfg e) sv nothing = (code, events, w) ->
  given_back w /\
  (forall o, LoadRequested o ∈ events -> admitted cfg o) /\
  (forall t, Orchestrated t ∈ events -> exists p o info st w', LoadRequested o ∈ events /\ loaded o info st w' /\ co_PodPath o = p /\
     (ServeListener ∈ t -> validAttachInfo info = true /\ gates_passed cfg (fput Capture_PodPath p cfg) e)) /\
  (code = 0 -> exists t, Orchestrated t ∈ events /\ ServeListener ∈ t).
Proof.
  unfold run. cbn [main_deps d_loadConfig]. change (resolved_cgroup (withDefaults (main_deps cfg e)) cfg) with (resolve_pod_cgroup (c_Capture cfg)).
  destruct (resolve_pod_cgroup (c_Capture cfg)) as [p|] eqn:Er; [|stopped].
  apply resolve_in_scope in Er. assert (str_eqb p "" = false) as Hp by (apply str_eqb_neq; by eapply in_scope_nonempty). rewrite Hp.
  set (cfg' := fput Capture_PodPath p cfg). destruct (Validate cfg') eqn:Ev; [stopped|].
  set (o := CaptureOptionsFromConfig cfg' true). cbn [withDefaults w_envPreflight w_loadAndAttach w_newResolver w_newOrchestrator w_newControlPlane main_deps
    d_envPreflight d_loadAndAttach d_newResolver d_newOrchestrator d_newControlPlane d_factory stdpp.option.from_option id].
  destruct (no_error (fst (RunEnvironmentPreflight _ _))) eqn:Ee; cbn [negb]; [|stopped].
  apply no_error_none, environment_passed in Ee. assert (co_PodPath o = p) as Hpath.
  { change (nonempty_or p (co_PodPath DefaultOptions) = p). unfold nonempty_or. by rewrite Hp. }
  assert (admitted cfg o) as Had by (by exists p).
  destruct (LoadAndAttach (Some o) nothing) as [[r st] w1] eqn:El. pose proof (LoadAndAttach_unwinds o r st w1 El) as Hl.
  destruct r as [info|err]; [|destruct Hl as [Hl _]; stopped]. destruct Hl as [Hld [Hcl _]]. cbn [h_Close h_pairMap].
  destruct (succeeds (NewBPFDestinationResolver _ _)); [|stopped].
  destruct (NewControlPlaneServerFromConfig _ _ _) as [s|err] eqn:Ecp; cbn [succeeds]; [|stopped].
  set (h := {| h_info := info; h_pairMap := _; h_lost := _; h_Close := _ |}). set (seams := orchestrator_seams _ _ _ _ _ _ _ _).
  pose proof (Run_true_serves cfg' seams) as Hserve. pose proof (run_checked_parts cfg' seams) as (_ & _ & Hgates & _).
  destruct (Run cfg' seams New) as [ok ost]. cbn [fst snd] in *. intros [= <- <- <-]. split_and!; [done|events| |].
  - intros t Ht. exists p, o, info, st, w1. split_and!; [apply list_elem_of_here|done|done|]. intros Hs. assert (t = o_trace ost) as -> by (revert Ht; events). apply Hgates in Hs.
    split; [|by eapply serve_gates_passed]. unfold serve_gates, bind_gates, start_gates in Hs. rewrite !andb_true_iff in Hs. decompose [and] Hs.
    match goal with H : sm_Preflight _ = true |- _ => cbn in H; revert H end. unfold no_error, productionPreflight. destruct (validAttachInfo info); done.
  - destruct ok; [|done]. intros _. exists (o_trace ost). split; [events|by apply Hserve].
Qed.

(** C6: the daemon is fail closed from its first step to its exit.  Whatever the host, the kernel, the disk, the cluster and the listener do, when
    [mainRun] returns the collection and the table entry are gone, and of links and pins only those remain that the kernel refused to give back: all of it
    is released where [Close] and [os.Remove] succeed.  A load is requested only for a loaded, valid configuration whose pod cgroup
    resolved to a directory at least two segments below the canonical host mount that holds this very process, where every environment
    gate passed.  The orchestrator runs only on top of a complete, verified load, and the listener serves only if the trust pool was built,
    the attach was confirmed, the pod CA was loaded or created, the first policy snapshot arrived, the Entra self test passed, the data plane was
    assembled, the addresses of listener and control plane were accepted, and the drop to the proxy's user was verified.  Exit code zero means
    that it did serve. *)
Theorem main_fail_closed e sv code events w :
  mainRun e sv nothing = (code, events, w) ->
  (given_back w /\ ((forall n, le_close n = true) -> (forall p, le_remove p = true) -> w = nothing)) /\
  (code = 0 -> exists t, Orchestrated t ∈ events /\ ServeListener ∈ t) /\
  (events <> [] -> exists cfg sources pool, Load (e_getenv e) = Ok (cfg, sources) /\
     buildUpstreamTrustPool (e_systemPool e) (ca_PubDir (c_CA cfg)) upstreamCADir = Ok pool /\
     (forall o, LoadRequested o ∈ events -> admitted cfg o) /\
     (forall t, Orchestrated t ∈ events -> exists p o info st w', LoadRequested o ∈ events /\ loaded o info st w' /\ co_PodPath o = p /\
        (ServeListener ∈ t -> validAttachInfo info = true /\ gates_passed cfg (fput Capture_PodPath p cfg) e))).
Proof.
  assert (forall w, given_back w -> given_back w /\ ((forall n, le_close n = true) -> (forall p, le_remove p = true) -> w = nothing)) as Hgb
    by (intros ? ?; split; [done|]; intros; by apply given_back_nothing).
  unfold mainRun. destruct (Load (e_getenv e)) as [[cfg sources]|err] eqn:El; [|intros [= <- <- <-]; split; [apply Hgb, given_back_initially|done]].
  destruct (buildUpstreamTrustPool _ _ _) as [pool|err] eqn:Et; [|intros [= <- <- <-]; split; [apply Hgb, given_back_initially|done]].
  intros (H1 & H2 & H3 & H4)%run_guarantees. split; [by apply Hgb|split; [done|]]. intros _. by exists cfg, sources, pool.
Qed.
End Main.

(** ** A daemon that serves *)

(** No mounted certificates. *)
#[program] Definition bare_dirs : TrustFS :=
  {| cert := gostring; td_ReadDir _ := NoSuchDir; td_Stat _ := None; td_EvalSymlinks _ := None; td_ReadFile _ := None; pem_certs _ := [] |}.
Next Obligation. done. Qed.
Next Obligation. done. Qed.

Definition serving_surroundings : surroundings (T := bare_dirs) (X := demo_x509) (P := PrivDrop.process) :=
  {| e_getenv := demo_env serving_vars; e_systemPool := Some [bs "root" : cert (TrustFS := bare_dirs)]; e_inCluster := true; e_dynamicClient := true;
     e_labels _ := Ok (bs "app=" ++ ["034"%char] ++ bs "x" ++ ["034"%char]); e_firstSnapshot := true;
     e_disk := blank; e_fault := demo_no_fault; e_now := Hour; e_newKey := Some (bs "k" : @key demo_x509); e_serial := Some 7;
     e_process := root_process; e_attachLost := false; e_cpStart := true |}.
Definition until_done : serving :=
  {| sv_ctxDone := false; sv_listener := true; sv_Bind := true; sv_AcceptProbe := Some true; sv_Serve := CtxDoneFirst; sv_ListenerShutdown := true |}.
Notation serving_main :=
  (mainRun (U := ascii_only) (N := https_urls) (FS := serving_fs) (H := serving_host) (EN := true) (L := serving_load) (F := demo_files)
     (T := bare_dirs) (EE := example_entra) (Q := no_runes) (X := demo_x509) (SH := demo_sha) (K := linux) (V := demo_services)
     (fun _ => hour_provider) (fun _ _ => Err ContextDone) serving_surroundings until_done nothing).

Definition has_orchestrated (ev : run_event) : bool := match ev with Orchestrated _ => true | _ => false end.
(** The pod is found by inode, every gate passes, six programs are attached and the listener serves until the context is done. *)
Lemma serving_main_serves : exists events, serving_main = (0, events, nothing) /\ events <> [].
Proof.
  assert (serving_main.1.1 = 0 /\ serving_main.2 = nothing /\ length serving_main.1.2 = 3%nat) as (H1 & H2 & H3) by (vm_compute; done).
  destruct serving_main as [[code events] w]. cbn [fst snd] in *. subst. exists events. split; [done|]. by destruct events.
Qed.

Lemma serving_loads : Load (U := ascii_only) (F := demo_files) (demo_env serving_vars) = Ok (serving_config, [bs "defaults"; bs "env"]).
Proof. vm_compute. reflexivity. Qed.

Lemma main_fail_closed_witness : exists events t p, serving_main = (0, events, nothing) /\ Orchestrated t ∈ events /\
  exists q, drop_gate (T := bare_dirs) (X := demo_x509) (K := linux) serving_surroundings privDropConfig = (None, q) /\
  gates_passed (U := ascii_only) (N := https_urls) (T := bare_dirs) (EE := example_entra) (Q := no_runes) (X := demo_x509) (SH := demo_sha) (K := linux)
    (V := demo_services) (fun _ => hour_provider) (fun _ _ => Err ContextDone) serving_config (fput Capture_PodPath p serving_config) serving_surroundings.
Proof.
  destruct serving_main_serves as (events & E & Hne).
  destruct (main_fail_closed (U := ascii_only) (N := https_urls) (FS := serving_fs) (H := serving_host) (EN := true) (L := serving_load) (F := demo_files)
     (T := bare_dirs) (EE := example_entra) (Q := no_runes) (X := demo_x509) (SH := demo_sha) (K := linux) (V := demo_services)
     (fun _ => hour_provider) (fun _ _ => Err ContextDone) serving_surroundings until_done 0 events nothing E) as (_ & Hserve & Hrest).
  destruct (Hserve eq_refl) as (t & Ht & Hs). destruct (Hrest Hne) as (cfg & sources & pool & Hl & _ & _ & Ho).
  destruct (Ho t Ht) as (p & o & info & st & w' & _ & _ & _ & Hg). destruct (Hg Hs) as [_ G].
  assert (Ok (cfg, sources) = Ok (serving_config, [bs "defaults"; bs "env"])) as [= -> _] by (rewrite <- Hl; exact serving_loads).
  destruct (gp_dropped _ _ _ _ _ G) as [q Hq]. exists events, t, p. split; [exact E|]. split; [exact Ht|]. exists q. split; [exact Hq|exact G].
Defined.

(** ** Two defaults of the start *)

(** A pod in a cgroup namespace of its own, the kubelet's default on cgroup v2, is found by
    inode below the local mount.  The local mount has a default in [capture.DefaultOptions] but
    none in the configuration, which is what the resolver is built from: unless
    it is set explicitly the process exits before any gate. *)
Lemma local_mount_not_defaulted `{U : Unicode} `{N : NetURL} `{FS : FileSystem} `{H : Host} `{EN : Endian} `{L : LoadEnv}
  `{EE : EntraEnv} `{Q : RuneQuoting} `{T : TrustFS} `{X : X509} `{SH : Sha256} {P} `{K : Kernel P} assembles cfg (e : surroundings) sv w :
  derivePodCgroupCandidate (cc_HostCgroupMount (c_Capture cfg)) (cc_ProcCgroupPath (c_Capture cfg)) = Err errV2PathHasNoPodParent ->
  cc_LocalCgroupMount (c_Capture cfg) = [] ->
  run assembles (main_deps cfg e) sv w = (1, [CgroupResolutionError], w).
Proof.
  intros Hd Hl. unfold run. cbn [main_deps d_loadConfig]. change (resolved_cgroup (withDefaults (main_deps cfg e)) cfg) with (resolve_pod_cgroup (c_Capture cfg)).
  unfold resolve_pod_cgroup. rewrite Hd. unfold DiscoverPodCgroup.
  cbn [newProdPodCgroupResolver pr_HostCgroupMount pr_LocalCgroupMount pr_ProcCgroupPath]. rewrite Hl. do 2 (destruct (str_eqb _ _); [done|]). done.
Qed.

(** The pool is documented to hold the pod CA.  It is built before the CA gate creates the CA: on the first start of a pod, when the public directory
    is missing or empty, the pool holds the system's roots and the operator's certificates only. *)
Lemma trust_pool_precedes_ca `{U : Unicode} `{T : TrustFS} pool dir : td_ReadDir dir = NoSuchDir \/ td_ReadDir dir = Entries [] ->
  buildUpstreamTrustPool pool dir upstreamCADir = appendCertsFromDir (default [] pool) upstreamCADir.
Proof.
  intros Hd. unfold buildUpstreamTrustPool. cbn [append_dirs]. unfold appendCertsFromDir at 1. destruct (str_eqb (TrimSpace dir) "").
  - by destruct (appendCertsFromDir _ _).
  - destruct Hd as [->| ->]; cbn [append_entries]; by destruct (appendCertsFromDir _ _).
Qed.
